(* ===== verification/_CoqProject ===== *)
-Q . S2P
Prelude.v
Arith256.v
Serialize.v
Workpool.v
ByteOrder.v
Params.v
Pow.v
Script.v
Hash.v
Blake2b.v
OversizeTable.v
Transaction.v
Merkle.v
PartialMerkle.v
TxCheck.v
TxContext.v
Block.v
Equihash.v
EquihashSpec.v
CryptoRegistry.v
CheckBlock.v
Coinbase.v
Coins.v
CoinsMap.v
UtxoCommitment.v
IncrementalTree.v
IncrementalWitness.v
CoinsView.v
Shielded.v
UtxoSet.v
UpdateCoins.v
UpdateSpec.v
SigEncoding.v
Interp.v
InterpSpec.v
Sighash.v
SighashSpec.v
ContextualTx.v
CheckHeader.v
TxVerifier.v
ConnectBlock.v
ConnectSpec.v
