(* ===== verification/Prelude.v ===== *)
(** * The consensus core of the z23 node, verified

    z23 is a C node for the ZClassic chain. Its consensus core decides which
    blocks and transactions are valid: a pure layer of C under [src/core] that
    reads bytes, hashes them, does 256-bit difficulty arithmetic, selects the
    rules in force at a height, and runs Bitcoin-style scripts. The engine
    around it (network, wallet, storage, supervision) calls that layer and has
    no say in validity. This development models the pure layer definition by
    definition and proves what makes it correct.

    ** Parts of the program and the files that model them

    - [Prelude] (this file): machine integers as [Z] with explicit wrap-around
      ([wrap], [swrap], notations [u8] .. [i64] of [cint_scope]), bytes, checked
      reads, and the list, bit and arithmetic lemmas the components share, with
      the hint databases and tactics that use them.
    - [Arith256]: [core/math/src/arith_uint256.c]. A 256-bit number is its eight
      32-bit limbs, as in [struct arith_uint256]; every carry loop, shift,
      schoolbook product, shift-and-subtract division and the compact (nBits)
      format is translated limb by limb, and [val] interprets limbs in [Z].
    - [Serialize]: [core/math/src/serialize.c], the growable [struct byte_stream]
      with its error latch and every codec on it. [ByteOrder]:
      [base/serialize_le.h], the fixed-width codec on both host byte orders.
    - [Workpool]: [platform/modules/util/src/workpool.c], the thread pool that runs the
      script checks of a block: its workers and its caller as a step relation.
    - [Params]: [core/params], [core/consensus/src/upgrades.c], [subsidy.c],
      the amounts of [core/amount.h] and the three networks of
      [core/chainparams/src/chainparams.c].
    - [Pow]: [core/consensus/src/pow.c] and [verify.c],
      [core/chainparams/src/pow.c] (retargeting over a chain of block-index
      entries), the median time past of [chain/chain.h] and the checkpoint table.
    - [Hash]: [sha256.c] (portable), [sha1.c], [ripemd160.c] as streaming contexts
      over their unrolled transforms, [hash256] and [hash160]. [Blake2b]:
      [blake2b.c], BLAKE2b with key, salt and personalisation.
    - [Script]: [script/script.h] and [script.c]: opcodes, pushes, script numbers,
      templates, signature-operation counts.
    - [Transaction]: [primitives/transaction.h] and [transaction.c]: the record, the
      codec of each element, the version-gated serialiser and deserialiser, the id
      and the checked value sums. [OversizeTable]: the 413 grandfathered ids.
    - [Merkle]: [core/modules/bloom/src/merkle.c], the in-place root with its
      mutation flag and the partial trees; [PartialMerkle] holds the theorems on
      building and extracting a partial tree.
    - [TxCheck]: [core/consensus/src/tx_structural.c], every structural check with its
      reject reason and score. [TxContext]: [sapling_structural.c], [locktime.c] and
      [sigops.c], the checks that depend on the epoch, the height and the time.
    - [Block]: [primitives/block.h] and [block.c]: header, block and locator codecs,
      the block hash, copying.
    - [Equihash]: the verifier of [core/modules/crypto/src/equihash.c] with its bit
      packing, batched hashing and allocation failures, the consensus predicate of
      [core/consensus/src/equihash.c] and its callers. [EquihashSpec] proves that it
      decides the generalised birthday problem.
    - [CryptoRegistry]: [core/modules/crypto_registry], the write-once table of schemes
      from which validation takes its Equihash verifier.
    - [CheckBlock]: [core/consensus/src/check_block.c], [validation_state]
      ([consensus/validation.h]) and the wrappers of [core/modules/validation] that
      report through it. [Coinbase]: [core/consensus/src/coinbase.c] and what the
      miner does with the result.
    - [Coins]: [core/consensus/src/coins_math.c] and [core/modules/coins] ([coins.c],
      [compressor.c], [undo.h]): the outputs of one transaction, spending and undo
      capture, amount and script compression, the undo-record codec. [CoinsMap]:
      the open-addressed hash table of [coins_view.c].
    - [UtxoCommitment]: [utxo_commitment.c], the XOR of the hashes of the unspent
      outputs. [CoinsView]: [coins_view.c] and [coins_view.h], the write-back cache
      over a view. The view's vtable is the class [CoinsViewVtable]; what a client may
      rely on is the class [CoinsViewLaws]; a cache is an instance of both, so caches
      stack as they do in the node.
    - [IncrementalTree] and [IncrementalWitness]: [incremental_merkle_tree.c], the
      note-commitment trees of the shielded pools, their witnesses, authentication
      paths and codecs, and the binding check of a checkpoint. [Shielded]: the anchor
      check of [coins_view.c] over those trees.
    - [UtxoSet]: the specification, unspent outputs as a finite map and a
      transaction as spending and creating in it. [UpdateCoins]: [update_coins.c] and
      [disconnect_block] of [connect_block.c]. [UpdateSpec] proves that the second
      implements the first.
    - [SigEncoding]: [script_error.h], [sighashtype.h], [sigencoding.c].
    - [Interp]: [core/consensus/src/script_interp.c], all of it: execution stack,
      one definition per handler, dispatch table, step, loop, [eval_script] and
      [verify_script]. [InterpSpec] holds the theorems on it.
    - [Sighash]: [core/consensus/src/sighash.c] and its wrappers, the message a
      signature signs, in the legacy and the Overwinter/Sapling form. [SighashSpec]
      states the preimages of ZIP 143 and ZIP 243 and proves the code equal to them.
    - [ContextualTx]: [core/modules/validation/src/contextual_check_tx.c], the rules of
      a transaction at a height down to its shielded proofs, with the verdict "could not
      check" next to accept and reject.
    - [CheckHeader]: the rest of [core/modules/validation/src/check_block.c]: the header
      checks with and without context, [check_block], and the contextual check of a
      block.
    - [TxVerifier]: [core/modules/validation/src/tx_verifier.c] and [pubkey_verify], the
      callbacks through which the script engine reaches the transaction it verifies.
    - [ConnectBlock]: [connect_block] with every step it takes in
      [core/modules/validation/src/connect_block.c]. [ConnectSpec] says what an accepted
      block did.

    The components meet as they do in C: [Pow] works on [Arith256] numbers and
    [Params] records; [Hash] reads and writes through [ByteOrder]; transactions and
    blocks are read and written through the streams of [Serialize] and identified
    by [Hash]; [CheckBlock] runs the checks of [TxCheck] on every transaction, and
    [Merkle] on their ids; [Coinbase] builds what [TxCheck], [TxContext] and
    [CheckBlock] accept; [Interp] runs [Script] opcodes, hashes with [Hash] and
    calls the gates of [SigEncoding]; [ContextualTx] signs over [Sighash]; and
    [CheckHeader] puts [Pow], [Equihash] (through [CryptoRegistry]), [CheckBlock] and
    [ContextualTx] together into the decision on a block. [TxVerifier] closes the circle
    between [Interp] and [Sighash]; [ConnectBlock] runs [check_block], reads and updates a
    [CoinsView] cache with [UpdateCoins], asks [Shielded] for anchors and has [Interp] run
    the scripts, in order or on the threads of [Workpool].

    ** How C is represented

    A [bool] result with out-parameters is an [option] or a pair. Script errors
    are values ([Fail e] of [outcome]). What C leaves undefined, an out-of-range
    array access, a signed overflow, a failed assertion, is a value of its own
    ([UB] in the script engine, [None] in the arithmetic), so that the absence
    of undefined behaviour is a theorem and not a convention. A loop is a
    structural recursion on the data it consumes where it has one, and otherwise
    takes fuel: the length of the buffer for the opcode stream (each opcode
    consumes at least one byte), the bit count for division, the byte count for
    the varint codec. Running out of fuel is the undefined value, and the
    theorems on the entry points show that it does not happen. The thread pool has no
    function for a run: its theorems are about every schedule.

    A pointer is a value that names its target when the target may change before it is
    read: a slot of the coins table, or, in a queued script check, the place of an output
    in the cache together with whether the memory is still there.

    Code that is not here is a parameter: the allocator of [byte_stream] and of
    the execution stack (any sequence of answers), the host byte order (class
    [HostOrder]), secp256k1's low-S test (class [LowS]) and the callbacks of
    [struct sig_checker] that verify a signature or a lock time against the
    spending transaction, the hooks of the view at the bottom of a stack of caches
    (class [CoinsViewVtable], with the contract of [coins_view.h] as
    [CoinsViewLaws]; the empty view satisfies it; [AnchorStore] is what its anchor hook
    promises), the Pedersen hash of a tree level (class [Pedersen]), the shielded
    signature and proof verifiers (class [ShieldedVerifiers]), the adjusted time, and the
    switch that turns the commitment off ([CommitmentSkip]). No theorem assumes anything of them but the stated
    hypotheses.

    ** What the theorems show

    - Script engine ([InterpSpec]): evaluation never leaves defined behaviour,
      whatever the script, stack and callbacks; every accepted run respects the
      size, stack and operation limits; verification is total; adding a
      verification flag can only reject more, except for the one flag for which
      the code does otherwise; the pay-to-public-key-hash template accepts
      exactly the spends it should, within the limit on stack items.
    - Script data ([Script], [SigEncoding]): accepted signatures are DER, script
      numbers and pushes round-trip, the opcode walk terminates.
    - Transactions and blocks ([Transaction], [Block]): parsing inverts
      serialising, what parses is canonical (its id is the hash of the bytes
      read), the allocation guards refuse nothing the readers would accept, and
      value sums are exact or fail.
    - Acceptance ([CheckHeader], [ContextualTx]): the header check, the whole block
      check, the check of a header against the chain and the check of a block's
      transactions at its height are each defined and pass exactly on what satisfies
      their rules; together they tie the Equihash parameters to the height; a transaction
      that could not be checked is neither accepted nor called bad. A block mined for the
      regression-test chain goes through all of them.
    - Signature hashes ([SighashSpec]): with memory the code computes the hash of the
      specified preimage; equal hashes commit to equal signed parts, unless among the
      hashed data two pieces share a digest or one has the null digest; where the outputs
      do not fit into memory, the hash covers only a beginning of them.
    - Checking a spend ([TxVerifier]): the callbacks of the script engine are ECDSA over
      that hash, and the lock-time rule; a script that checks a lock time keeps the spend
      out of earlier blocks under every combination of flags that enables the check.
    - Connecting a block ([ConnectSpec]): an accepted block applies its transactions to
      the set that the cache lists, spends nothing immature, keeps the pools from going
      negative and creates no money beyond the subsidy. But the scripts that lock the
      outputs it spends are not run: every check meets an output that the update has
      emptied, and a block that steals one is accepted.
    - Thread pool ([Workpool]): a run cannot deadlock and returns the conjunction of the
      answers, the pool is ready for the next one, and destroying it ends every thread:
      under every schedule once spurious wake-ups have ceased, with a bound on the steps
      that grows by one for each, and under every fair schedule even if they never cease.
    - Registry ([CryptoRegistry]): a write-once table that does not depend on the order
      of registration.
    - Checks ([TxCheck], [TxContext], [CheckBlock]): each check is defined on every
      input in range and passes exactly on the transactions and blocks that
      satisfy the consensus rule it stands for; finality and expiry are monotone
      in height and time; signature operations are counted without wrapping.
    - Merkle trees ([Merkle], [PartialMerkle]): the in-place computation is the
      recursive root, an unflagged root binds the transaction ids, an accepted
      inclusion proof names only transactions of the block, and built proofs are
      accepted with exactly the chosen transactions.
    - Coinbase ([Coinbase]): the template passes the structural, epoch and height
      checks; the id it carries is that of its encoding before the miner sets the
      Overwinter flag, which changes the encoding.
    - Coins update ([UpdateSpec]): connecting a transaction succeeds exactly when the
      finite map allows it, the cache then lists the new set, and the commitment and
      the undo records follow.
    - Coins cache ([CoinsView], [UtxoCommitment]): reads are transparent, a flush loses
      nothing, the commitment is a function of the set but for its count, which is
      characterised.
    - Note-commitment trees ([IncrementalTree], [IncrementalWitness], [Shielded]): the
      incremental tree is the full Merkle tree of its leaves, a witness stays a valid
      proof while leaves are added, both read back what they write, and the anchor
      check is the rule on leaves.
    - Coins ([Coins], [CoinsMap]): the hash table is a finite map through every
      collision, rehash and back-shift; undo records round-trip; script compression
      restores every script except some uncompressed keys, which are characterised.
    - Proof of work ([Pow]): verification is the inequality on numbers it stands
      for; retargeting stays below the limit and moves by bounded factors; the
      median is the median; block proof is exact.
    - Arithmetic and encodings ([Arith256], [Serialize]): limb code refines [Z]
      modulo 2^256, the compact format is canonical and truncates as specified,
      every codec round-trips, and the stream keeps its contract on every path.
    - Rules ([Params]): the subsidy schedule, its total and the cap on mainnet
      supply, and the upgrade in force at each height.
    - Hashes ([Hash], [Blake2b]): any split of a message into writes gives the digest
      of the reference definition.
    - Equihash ([EquihashSpec]): on a little-endian host the predicate accepts a header
      exactly when its solution solves the birthday problem for its bytes, and it
      stays inside its buffers.

    ** Not modelled

    The engine, wallet, peer-to-peer network and tools (I/O and supervision around
    the core); the elliptic-curve, pairing and proof-system arithmetic; the SIMD
    variants of the hashes (compiler intrinsics); the Equihash solver; the tree checkpoint file; floating-point progress
    estimates; opcode names and other text for display; the block index beyond the
    fields that difficulty, median time and connecting read and write; events, metrics
    and logs. What is left of [src/core] around the modelled code is of this kind or
    rests on it: the mempool, the chain state on disk and the reducer that drives them
    belong to the engine.
*)

From stdpp Require Import base tactics list numbers option.
From Stdlib Require Import ZArith Lia.

#[global] Open Scope Z_scope.

(** ** Machine integers

    A [w]-bit unsigned C integer is a [Z] in [[0, 2^w)]; every operation that
    can leave that range is followed by an explicit [wrap]. *)

Definition wrap (w z : Z) : Z := z mod 2 ^ w.
Definition in_u (w z : Z) : Prop := 0 <= z < 2 ^ w.

(** Conversion to a [w]-bit two's complement integer. *)
Definition swrap (w z : Z) : Z :=
  let m := z mod 2 ^ w in if m <? 2 ^ (w - 1) then m else m - 2 ^ w.
Definition in_s (w z : Z) : Prop := - 2 ^ (w - 1) <= z < 2 ^ (w - 1).

Declare Scope cint_scope.
Delimit Scope cint_scope with cint.
Notation "'u8' x" := (wrap 8 x) (at level 9, x at level 8) : cint_scope.
Notation "'u16' x" := (wrap 16 x) (at level 9, x at level 8) : cint_scope.
Notation "'u32' x" := (wrap 32 x) (at level 9, x at level 8) : cint_scope.
Notation "'u64' x" := (wrap 64 x) (at level 9, x at level 8) : cint_scope.
Notation "'i32' x" := (swrap 32 x) (at level 9, x at level 8) : cint_scope.
Notation "'i64' x" := (swrap 64 x) (at level 9, x at level 8) : cint_scope.
Notation "x '.&' y" := (Z.land x y) (at level 42, left associativity) : cint_scope.
Notation "x '.|' y" := (Z.lor x y) (at level 44, left associativity) : cint_scope.
Notation "x '.^' y" := (Z.lxor x y) (at level 43, left associativity) : cint_scope.
Notation "x '>>' n" := (Z.shiftr x n) (at level 41, left associativity) : cint_scope.
Notation "x '<<' n" := (Z.shiftl x n) (at level 41, left associativity) : cint_scope.
#[global] Open Scope cint_scope.

Definition UINT32_MAX : Z := 4294967295.
Definition INT32_MAX : Z := 2147483647.
Definition INT32_MIN : Z := -2147483648.
Definition SIZE_MAX : Z := 2 ^ 64 - 1.

(** ** Results

    [struct zcl_result] together with the out-parameter the function writes on
    success: [ZCL_OK v] is [{.ok = true}] with [v] stored, [ZCL_ERR e] is a
    non-ok result with code [e]. The printf message, file and line carry no
    decision and are not represented. *)

Inductive zcl_result (E A : Type) : Type :=
| ZCL_OK (a : A)
| ZCL_ERR (e : E).
Arguments ZCL_OK {E A} a.
Arguments ZCL_ERR {E A} e.

Definition zbind {E A B} (m : zcl_result E A) (k : A -> zcl_result E B) : zcl_result E B :=
  match m with ZCL_OK a => k a | ZCL_ERR e => ZCL_ERR e end.

Declare Scope zres_scope.
Delimit Scope zres_scope with zres.
Notation "'let*' x ':=' m 'in' k" := (zbind m (fun x => k))
  (at level 10, x name, m at level 100, k at level 200) : zres_scope.
Notation "'reject_if' b 'as' e ';;' k" := (if b then ZCL_ERR e else k)
  (at level 10, b at level 100, e at level 99, k at level 200) : zres_scope.
#[global] Open Scope zres_scope.

Definition res_ok {E A} (r : zcl_result E A) : bool :=
  match r with ZCL_OK _ => true | ZCL_ERR _ => false end.

(** ** Undefined behaviour

    Where a C expression can abort or be undefined (a failed [assert], a
    division by zero, signed overflow, an out-of-range shift), the model is an
    [option] and [None] is that outcome. *)

Notation "'let?' x ':=' m 'in' k" := (match m with Some x => k | None => None end)
  (at level 10, x name, m at level 100, k at level 200) : zres_scope.

(** C division: truncates towards zero. *)
Definition cdiv (a b : Z) : option Z := if b =? 0 then None else Some (Z.quot a b).
(** A signed result that must be representable in 32 (64) bits. *)
Definition s32 (z : Z) : option Z := if (- 2 ^ 31 <=? z) && (z <? 2 ^ 31) then Some z else None.
Definition s64 (z : Z) : option Z := if (- 2 ^ 63 <=? z) && (z <? 2 ^ 63) then Some z else None.
(** [x >> n] on a signed 64-bit value. *)
Definition sshr (x n : Z) : option Z := if (0 <=? n) && (n <? 64) then Some (Z.shiftr x n) else None.

(** ** Tactics *)

(** Case analysis on the boolean comparisons of a guard. *)
Ltac bool_cases :=
  repeat match goal with
  | H : context [?a <? ?b] |- _ => destruct (Z.ltb_spec a b)
  | H : context [?a <=? ?b] |- _ => destruct (Z.leb_spec a b)
  | H : context [?a =? ?b] |- _ => destruct (Z.eqb_spec a b)
  | |- context [?a <? ?b] => destruct (Z.ltb_spec a b)
  | |- context [?a <=? ?b] => destruct (Z.leb_spec a b)
  | |- context [?a =? ?b] => destruct (Z.eqb_spec a b)
  end.

(** Linear arithmetic with division and modulo by constants. *)
Ltac zdm := Z.div_mod_to_equations; lia.
Ltac zdmn := Z.div_mod_to_equations; nia.

(** Peel one layer of matches off a hypothesis or the goal. *)
Ltac case_hyp H :=
  match type of H with
  | context [match ?x with _ => _ end] => destruct x eqn:?; simplify_eq/=
  end.

(** ** Digit sequences

    [digits_val w l] is the value of the little-endian base-[2^w] number [l];
    bytes are the case [w = 8], the limbs of a 256-bit number [w = 32]. *)

Fixpoint digits_val (w : Z) (l : list Z) : Z :=
  match l with
  | [] => 0
  | d :: l => d + 2 ^ w * digits_val w l
  end.

Fixpoint digits_of (w : Z) (n : nat) (z : Z) : list Z :=
  match n with
  | O => []
  | S n => z mod 2 ^ w :: digits_of w n (z / 2 ^ w)
  end.

Definition digits (w : Z) (l : list Z) : Prop := Forall (in_u w) l.
Abbreviation bytes := (digits 8).

Create HintDb zcl.
#[export] Hint Unfold in_u in_s : zcl.

Lemma pow2_pos w : 0 <= w -> 0 < 2 ^ w.
Proof. intros. apply Z.pow_pos_nonneg; lia. Qed.

Lemma wrap_range w z : 0 <= w -> in_u w (wrap w z).
Proof. intros. apply Z.mod_pos_bound. by apply pow2_pos. Qed.

Lemma wrap_id w z : in_u w z -> wrap w z = z.
Proof. apply Z.mod_small. Qed.

#[export] Hint Resolve wrap_range pow2_pos : zcl.

Lemma swrap_range w z : 0 < w -> in_s w (swrap w z).
Proof.
  intros Hw. unfold in_s, swrap.
  assert (2 ^ w = 2 * 2 ^ (w - 1)) as E.
  { rewrite <- Z.pow_succ_r by lia. f_equal. lia. }
  pose proof (Z.mod_pos_bound z (2 ^ w) ltac:(apply pow2_pos; lia)).
  destruct (Z.ltb_spec (z mod 2 ^ w) (2 ^ (w - 1))); lia.
Qed.

Lemma swrap_id w z : 0 < w -> in_s w z -> swrap w z = z.
Proof.
  intros Hw [H1 H2]. unfold swrap.
  assert (2 ^ w = 2 * 2 ^ (w - 1)) as E.
  { rewrite <- Z.pow_succ_r by lia. f_equal. lia. }
  pose proof (pow2_pos (w - 1) ltac:(lia)).
  destruct (Z.neg_nonneg_cases z).
  - rewrite <- (Z.mod_unique z (2 ^ w) (-1) (z + 2 ^ w)) by lia.
    destruct (Z.ltb_spec (z + 2 ^ w) (2 ^ (w - 1))); lia.
  - rewrite Z.mod_small by lia. destruct (Z.ltb_spec z (2 ^ (w - 1))); lia.
Qed.

Lemma swrap_wrap w z : 0 < w -> in_s w z -> swrap w (wrap w z) = z.
Proof.
  intros Hw Hz. unfold swrap, wrap. rewrite Z.mod_mod by (apply Z.pow_nonzero; lia).
  apply (swrap_id w z Hw Hz).
Qed.

Lemma s32_ok z : - 2 ^ 31 <= z < 2 ^ 31 -> s32 z = Some z.
Proof. intros. unfold s32. bool_cases; done || lia. Qed.
Lemma s64_ok z : - 2 ^ 63 <= z < 2 ^ 63 -> s64 z = Some z.
Proof. intros. unfold s64. bool_cases; done || lia. Qed.
Lemma cdiv_ok a b : 0 < b -> cdiv a b = Some (Z.quot a b).
Proof. intros. unfold cdiv. bool_cases; done || lia. Qed.
Lemma sshr_ok x n : 0 <= n < 64 -> sshr x n = Some (x / 2 ^ n).
Proof. intros. unfold sshr. rewrite Z.shiftr_div_pow2 by lia. bool_cases; done || lia. Qed.

(** *** Lemmas on digit sequences *)

(** Checking a concrete byte string by computation. *)
Definition bytes_b (l : list Z) : bool := forallb (fun x => (0 <=? x) && (x <? 256)) l.
Lemma bytes_check l : bytes_b l = true -> bytes l.
Proof.
  induction l as [|x l IH]; cbn; [constructor|]. intros E. apply andb_true_iff in E as [E ?].
  apply andb_true_iff in E as [E1 E2]. constructor; [unfold in_u; lia|by apply IH].
Qed.

Lemma digits_val_bound w l :
  0 <= w -> digits w l -> 0 <= digits_val w l < 2 ^ (w * Z.of_nat (length l)).
Proof.
  intros Hw. induction 1 as [|d l [Hd1 Hd2] _ IH]; cbn [digits_val length].
  - rewrite Z.mul_0_r. cbn. lia.
  - rewrite Nat2Z.inj_succ, Z.mul_succ_r, Z.add_comm, Z.pow_add_r by lia.
    pose proof (pow2_pos w Hw). nia.
Qed.

Lemma digits_val_app w l1 l2 :
  0 <= w ->
  digits_val w (l1 ++ l2) = digits_val w l1 + 2 ^ (w * Z.of_nat (length l1)) * digits_val w l2.
Proof.
  intros Hw. induction l1 as [|d l1 IH]; cbn [digits_val length app].
  - rewrite Z.mul_0_r. lia.
  - rewrite IH, Nat2Z.inj_succ, Z.mul_succ_r, (Z.add_comm _ w), Z.pow_add_r by lia. ring.
Qed.

Lemma length_digits_of w n z : length (digits_of w n z) = n.
Proof. revert z. induction n; intros; cbn; congruence. Qed.

Lemma digits_of_digits w n z : 0 <= w -> digits w (digits_of w n z).
Proof.
  intros Hw. revert z. induction n as [|n IH]; intros z; constructor; [|apply IH].
  apply Z.mod_pos_bound, pow2_pos, Hw.
Qed.

Lemma digits_val_of w n z :
  0 <= w -> digits_val w (digits_of w n z) = z mod 2 ^ (w * Z.of_nat n).
Proof.
  intros Hw. revert z. induction n as [|n IH]; intros z; cbn [digits_of digits_val].
  - rewrite Z.mul_0_r. cbn. by rewrite Z.mod_1_r.
  - rewrite IH, Nat2Z.inj_succ, Z.mul_succ_r, (Z.add_comm _ w), Z.pow_add_r by lia.
    rewrite Z.rem_mul_r; [lia| |]; [apply Z.pow_nonzero | apply pow2_pos]; lia.
Qed.

Lemma digits_of_val w l : 0 <= w -> digits w l -> digits_of w (length l) (digits_val w l) = l.
Proof.
  intros Hw. induction 1 as [|d l [Hd1 Hd2] _ IH]; cbn [digits_val length digits_of]; [done|].
  pose proof (pow2_pos w Hw). f_equal.
  - rewrite Z.mul_comm, Z.mod_add by lia. by apply Z.mod_small.
  - rewrite Z.mul_comm, Z.div_add, Z.div_small by lia. apply IH.
Qed.

Lemma digits_val_inj w l1 l2 :
  0 <= w -> digits w l1 -> digits w l2 -> length l1 = length l2 ->
  digits_val w l1 = digits_val w l2 -> l1 = l2.
Proof.
  intros Hw H1 H2 Hl Hv.
  rewrite <- (digits_of_val w l1), <- (digits_of_val w l2) by done. congruence.
Qed.

Lemma digits_val_replicate0 w n : digits_val w (replicate n 0) = 0.
Proof. induction n as [|n IH]; cbn; [done|]. rewrite IH. lia. Qed.

#[export] Hint Resolve digits_of_digits : zcl.

Lemma digits_val_insert w l i x y :
  0 <= w -> l !! i = Some x ->
  digits_val w (<[i:=y]> l) = digits_val w l + (y - x) * 2 ^ (w * Z.of_nat i).
Proof.
  intros Hw. revert i. induction l as [|d l IH]; intros [|i] Hi; simplify_eq/=.
  - rewrite Z.mul_0_r. cbn. lia.
  - rewrite IH, Nat2Z.inj_succ, Z.mul_succ_r, (Z.add_comm _ w), Z.pow_add_r by (done || lia).
    ring.
Qed.

Lemma digits_lookup w l i x : digits w l -> l !! i = Some x -> in_u w x.
Proof. intros H ?. eapply (Forall_lookup_1 _ _ _ _ H); eauto. Qed.

Lemma digits_insert w l i x : digits w l -> in_u w x -> digits w (<[i:=x]> l).
Proof. apply Forall_insert. Qed.

#[export] Hint Resolve digits_insert : zcl.

(** Bit operations as arithmetic. *)

Lemma land_mask z w : 0 <= w -> Z.land z (Z.ones w) = z mod 2 ^ w.
Proof. apply Z.land_ones. Qed.

Lemma land_disjoint a b w : 0 <= w -> in_u w a -> Z.land a (b * 2 ^ w) = 0.
Proof.
  intros Hw [Ha1 Ha2]. rewrite Z.land_comm.
  apply Z.bits_inj_0. intros n. rewrite Z.land_spec.
  destruct (Z.neg_nonneg_cases n) as [Hn|Hn]; [by rewrite Z.testbit_neg_r|].
  destruct (Z.lt_ge_cases n w).
  - by rewrite Z.mul_pow2_bits_low.
  - apply andb_false_intro2. rewrite <- (Z.mod_small a (2 ^ w)) by lia.
    apply Z.mod_pow2_bits_high. lia.
Qed.

Lemma lor_add_disjoint a b w :
  0 <= w -> in_u w a -> Z.lor a (b * 2 ^ w) = a + b * 2 ^ w.
Proof. intros Hw Ha. rewrite <- Z.add_lor_land, land_disjoint by done. lia. Qed.

Lemma testbit_div_mod z n : 0 <= n -> Z.testbit z n = negb ((z / 2 ^ n) mod 2 =? 0).
Proof.
  intros Hn. rewrite Z.testbit_odd, Z.shiftr_div_pow2 by lia.
  rewrite Zmod_odd. by destruct (Z.odd _).
Qed.

Lemma land_pow2_testbit d n : 0 <= n -> negb (Z.land d (Z.shiftl 1 n) =? 0) = Z.testbit d n.
Proof.
  intros Hn. rewrite Z.shiftl_1_l.
  assert (Z.land d (2 ^ n) = if Z.testbit d n then 2 ^ n else 0) as ->.
  { apply Z.bits_inj'. intros m Hm. rewrite Z.land_spec, Z.pow2_bits_eqb by lia.
    destruct (Z.eqb_spec n m) as [->|Hne].
    - destruct (Z.testbit d m); [by rewrite Z.pow2_bits_true|by rewrite Z.bits_0].
    - rewrite andb_false_r. destruct (Z.testbit d n); [|by rewrite Z.bits_0].
      symmetry. apply Z.pow2_bits_false. lia. }
  destruct (Z.testbit d n); [|done]. pose proof (pow2_pos n Hn).
  by destruct (Z.eqb_spec (2 ^ n) 0); [lia|].
Qed.

Lemma testbit_top d n : 0 <= n -> 0 <= d < 2 ^ (n + 1) -> Z.testbit d n = (2 ^ n <=? d).
Proof.
  intros Hn [H1 H2]. rewrite Z.pow_add_r in H2 by lia. pose proof (pow2_pos n Hn).
  rewrite testbit_div_mod by done. destruct (Z.leb_spec (2 ^ n) d).
  - rewrite <- (Z.div_unique d (2 ^ n) 1 (d - 2 ^ n)) by lia. done.
  - rewrite Z.div_small by lia. done.
Qed.

Lemma lor_pow2_add x n : 0 <= n -> Z.testbit x n = false -> Z.lor x (Z.shiftl 1 n) = x + 2 ^ n.
Proof.
  intros Hn Hb. rewrite <- (Z.shiftl_1_l n), <- Z.add_lor_land.
  assert (Z.land x (Z.shiftl 1 n) = 0) as ->; [|lia].
  apply Z.eqb_eq. rewrite <- negb_false_iff, land_pow2_testbit by lia. done.
Qed.

Lemma digits_lookup_val w l i x :
  0 <= w -> digits w l -> l !! i = Some x ->
  x = (digits_val w l / 2 ^ (w * Z.of_nat i)) mod 2 ^ w.
Proof.
  intros Hw H. pose proof (pow2_pos w Hw). revert i x.
  induction H as [|d l [Hd1 Hd2] _ IH]; intros [|i] x Hi; simplify_eq/=.
  - rewrite Z.mul_0_r, Z.div_1_r, (Z.mul_comm (2 ^ w)), Z.mod_add by lia.
    by rewrite Z.mod_small.
  - rewrite (IH _ _ Hi) at 1.
    rewrite Nat2Z.inj_succ, Z.mul_succ_r, (Z.add_comm _ w), Z.pow_add_r by lia.
    rewrite <- Z.div_div by (try apply pow2_pos; lia).
    by rewrite (Z.mul_comm (2 ^ w)), Z.div_add, (Z.div_small d), Z.add_0_l by lia.
Qed.

Lemma digits_val_take w l n :
  0 <= w -> digits w l -> digits_val w (take n l) = digits_val w l mod 2 ^ (w * Z.of_nat n).
Proof.
  intros Hw H. revert n. induction H as [|d l [Hd1 Hd2] _ IH]; intros [|n]; cbn [take digits_val].
  - by rewrite Zmod_0_l.
  - by rewrite Zmod_0_l.
  - rewrite Z.mul_0_r. cbn. by rewrite Z.mod_1_r.
  - rewrite IH, Nat2Z.inj_succ, Z.mul_succ_r, (Z.add_comm _ w), Z.pow_add_r by lia.
    pose proof (pow2_pos w Hw).
    rewrite Z.rem_mul_r by (try apply pow2_pos; lia).
    rewrite (Z.mul_comm (2 ^ w) (digits_val w l)), Z.mod_add, (Z.mod_small d), Z.div_add, (Z.div_small d) by lia.
    by rewrite Z.add_0_l.
Qed.

Lemma digits_val_drop w l n :
  0 <= w -> digits w l -> digits_val w (drop n l) = digits_val w l / 2 ^ (w * Z.of_nat n).
Proof.
  intros Hw H. revert n. induction H as [|d l [Hd1 Hd2] _ IH]; intros [|n]; cbn [drop digits_val].
  - by rewrite Z.mul_0_r, Z.div_1_r.
  - by rewrite Zdiv_0_l.
  - by rewrite Z.mul_0_r, Z.div_1_r.
  - rewrite IH, Nat2Z.inj_succ, Z.mul_succ_r, (Z.add_comm _ w), Z.pow_add_r by lia.
    pose proof (pow2_pos w Hw). rewrite <- Z.div_div by (try apply pow2_pos; lia).
    by rewrite (Z.mul_comm (2 ^ w)), Z.div_add, (Z.div_small d), Z.add_0_l by lia.
Qed.

Lemma digits_take w l n : digits w l -> digits w (take n l).
Proof. apply Forall_take. Qed.
Lemma digits_drop w l n : digits w l -> digits w (drop n l).
Proof. apply Forall_drop. Qed.
Lemma digits_replicate0 w n : 0 <= w -> digits w (replicate n 0).
Proof. intros. apply Forall_replicate. split; [lia|]. by apply pow2_pos. Qed.
Lemma digits_app w l1 l2 : digits w l1 -> digits w l2 -> digits w (l1 ++ l2).
Proof. apply Forall_app_2. Qed.

#[export] Hint Resolve digits_take digits_drop digits_replicate0 digits_app : zcl.

Lemma in_u_land_ones w z : 0 <= w -> in_u w z <-> Z.land z (Z.ones w) = z.
Proof.
  intros Hw. rewrite Z.land_ones by done. split; [apply Z.mod_small|].
  intros <-. apply Z.mod_pos_bound, pow2_pos, Hw.
Qed.

Lemma lor_range w a b : 0 <= w -> in_u w a -> in_u w b -> in_u w (Z.lor a b).
Proof.
  intros Hw. rewrite !in_u_land_ones by done. intros Ha Hb.
  by rewrite Z.land_lor_distr_l, Ha, Hb.
Qed.

Lemma lxor_range w a b : 0 <= w -> in_u w a -> in_u w b -> in_u w (Z.lxor a b).
Proof.
  intros Hw Ha Hb. assert (0 <= Z.lxor a b) by (apply Z.lxor_nonneg; destruct Ha, Hb; lia).
  apply in_u_land_ones; [done|]. apply in_u_land_ones in Ha, Hb; try done.
  rewrite <- Ha, <- Hb at 2. apply Z.bits_inj'. intros n _.
  rewrite !Z.land_spec, !Z.lxor_spec, !Z.land_spec.
  by destruct (Z.testbit a n), (Z.testbit b n), (Z.testbit (Z.ones w) n).
Qed.

Lemma land_range_l w a b : 0 <= w -> in_u w a -> in_u w (Z.land a b).
Proof.
  intros Hw. rewrite !in_u_land_ones by done. intros Ha.
  by rewrite <- Z.land_assoc, (Z.land_comm b), Z.land_assoc, Ha.
Qed.

Lemma shiftr_range w a n : 0 <= w -> 0 <= n -> in_u w a -> in_u w (Z.shiftr a n).
Proof.
  intros Hw Hn [H1 H2]. rewrite Z.shiftr_div_pow2 by done. pose proof (pow2_pos n Hn).
  split; [apply Z.div_pos; lia|]. apply Z.div_lt_upper_bound; nia.
Qed.

#[export] Hint Resolve lor_range lxor_range land_range_l shiftr_range : zcl.

(** *** Bytes merged by shift and or *)

(** A shifted byte merges into the low bits below it. *)
Lemma merge_byte v b k : 0 <= k -> in_u k v -> in_u 8 b -> v .| (b << k) = v + b * 2 ^ k /\ in_u (k + 8) (v + b * 2 ^ k).
Proof.
  intros Hk Hv [Hb1 Hb2]. rewrite Z.shiftl_mul_pow2, lor_add_disjoint by done. split; [done|].
  destruct Hv. unfold in_u. rewrite Z.pow_add_r by lia. pose proof (pow2_pos k Hk). nia.
Qed.

Lemma fold_bytes_val n buf :
  bytes buf -> length buf = n -> (n <= 8)%nat ->
  fold_left (fun v i => v .| u64 (nth i buf 0 << (8 * Z.of_nat i))) (seq 0 n) 0 = digits_val 8 buf.
Proof.
  intros Hb Hl Hn.
  enough (forall k, (k <= n)%nat ->
    fold_left (fun v i => v .| u64 (nth i buf 0 << (8 * Z.of_nat i))) (seq 0 k) 0 = digits_val 8 (take k buf)) as G.
  { rewrite G, take_ge by lia. done. }
  induction k as [|k IH]; intros Hk; [done|].
  rewrite seq_S, fold_left_app. cbn [fold_left Nat.add]. rewrite IH by lia.
  destruct (lookup_lt_is_Some_2 buf k) as [x Hx]; [lia|].
  assert (nth k buf 0 = x) as -> by (by apply nth_lookup_Some).
  pose proof (digits_lookup 8 _ _ _ Hb Hx) as Rx.
  pose proof (digits_val_bound 8 (take k buf) ltac:(lia) (digits_take _ _ _ Hb)) as B.
  rewrite length_take_le in B by lia.
  assert (x * 2 ^ (8 * Z.of_nat k) < 2 ^ 64).
  { assert (2 ^ (8 * Z.of_nat k) <= 2 ^ 56) by (apply Z.pow_le_mono_r; lia). unfold in_u in Rx. nia. }
  pose proof (pow2_pos (8 * Z.of_nat k) ltac:(lia)).
  rewrite wrap_id by (unfold in_u in *; rewrite Z.shiftl_mul_pow2 by lia; nia).
  rewrite (proj1 (merge_byte _ x (8 * Z.of_nat k) ltac:(lia) B Rx)).
  rewrite (take_S_r buf k x Hx), digits_val_app, length_take_le by lia. cbn [digits_val]. ring.
Qed.
