(* ===== verification/Arith256.v ===== *)
(** * 256-bit unsigned arithmetic

    Model of [core/math/src/arith_uint256.c] and
    [core/math/include/core/arith_uint256.h]: a 256-bit number is an array of
    eight 32-bit limbs, least significant first. Every routine is translated
    limb by limb, and refined to arithmetic on [Z] through [val]. *)

From stdpp Require Import base tactics list numbers option.
From Stdlib Require Import ZArith Lia.
From S2P Require Import Prelude.

Definition ARITH_UINT256_WIDTH : nat := 8.

(** [struct arith_uint256]: the [pn] array. *)
Abbreviation arith_uint256 := (list Z).

Definition wf256 (a : arith_uint256) : Prop :=
  length a = ARITH_UINT256_WIDTH /\ digits 32 a.

(** The number an array of limbs denotes. *)
Definition val (a : arith_uint256) : Z := digits_val 32 a.

Definition pn (a : arith_uint256) (i : nat) : Z := nth i a 0.

(** ** Operations *)

Definition arith_uint256_set_zero : arith_uint256 := replicate ARITH_UINT256_WIDTH 0.

Definition arith_uint256_set_u64 (v : Z) : arith_uint256 :=
  u32 v :: u32 (v >> 32) :: replicate (ARITH_UINT256_WIDTH - 2) 0.

Definition arith_uint256_get_low64 (a : arith_uint256) : Z :=
  pn a 0 .| (pn a 1 << 32).

Definition arith_uint256_is_zero (a : arith_uint256) : bool :=
  forallb (fun d => d =? 0) a.

(** The loop [for (i = WIDTH-1; i >= 0; i--)], with [n = i + 1]. *)
Fixpoint compare_from (n : nat) (a b : arith_uint256) : Z :=
  match n with
  | O => 0
  | S i =>
      if pn a i <? pn b i then -1
      else if pn b i <? pn a i then 1
      else compare_from i a b
  end.

Definition arith_uint256_compare (a b : arith_uint256) : Z :=
  compare_from ARITH_UINT256_WIDTH a b.

Definition arith_uint256_equal_u64 (a : arith_uint256) (b : Z) : bool :=
  forallb (fun d => d =? 0) (drop 2 a) &&
  (pn a 1 =? u32 (b >> 32)) && (pn a 0 =? u32 (b .& 0xffffffff)).

Definition arith_uint256_complement (a : arith_uint256) : arith_uint256 :=
  map (fun d => u32 (Z.lnot d)) a.

(** [while (i < WIDTH && ++r->pn[i] == 0) i++]. *)
Fixpoint increment (a : arith_uint256) : arith_uint256 :=
  match a with
  | [] => []
  | d :: a =>
      let d' := u32 (d + 1) in
      if d' =? 0 then d' :: increment a else d' :: a
  end.

Definition arith_uint256_negate (a : arith_uint256) : arith_uint256 :=
  increment (arith_uint256_complement a).

Fixpoint add_loop (carry : Z) (a b : arith_uint256) : arith_uint256 :=
  match a, b with
  | x :: a, y :: b =>
      let n := u64 (carry + x + y) in
      (n .& 0xffffffff) :: add_loop (n >> 32) a b
  | _, _ => []
  end.

Definition arith_uint256_add (a b : arith_uint256) : arith_uint256 := add_loop 0 a b.

Definition arith_uint256_sub (a b : arith_uint256) : arith_uint256 :=
  let neg := arith_uint256_negate b in
  arith_uint256_add a neg.

Fixpoint mul_u32_loop (carry : Z) (a : arith_uint256) (b : Z) : arith_uint256 :=
  match a with
  | [] => []
  | x :: a =>
      let n := u64 (carry + b * x) in
      (n .& 0xffffffff) :: mul_u32_loop (n >> 32) a b
  end.

Definition arith_uint256_mul_u32 (a : arith_uint256) (b : Z) : arith_uint256 :=
  mul_u32_loop 0 a b.

Definition arith_uint256_or (a b : arith_uint256) : arith_uint256 := zip_with Z.lor a b.
Definition arith_uint256_and (a b : arith_uint256) : arith_uint256 := zip_with Z.land a b.
Definition arith_uint256_xor (a b : arith_uint256) : arith_uint256 := zip_with Z.lxor a b.

(** [r->pn[i] |= x] *)
Definition or_at (r : arith_uint256) (i : nat) (x : Z) : arith_uint256 :=
  <[i := pn r i .| x]> r.

Definition shl_step (tmp : arith_uint256) (k : nat) (shift : Z)
    (r : arith_uint256) (i : nat) : arith_uint256 :=
  let r :=
    if (i + k + 1 <? ARITH_UINT256_WIDTH)%nat && negb (shift =? 0)
    then or_at r (i + k + 1) (pn tmp i >> (32 - shift)) else r in
  if (i + k <? ARITH_UINT256_WIDTH)%nat
  then or_at r (i + k) (u32 (pn tmp i << shift)) else r.

Definition arith_uint256_shl (a : arith_uint256) (shift : Z) : arith_uint256 :=
  let k := Z.to_nat (shift / 32) in
  let shift := shift mod 32 in
  fold_left (shl_step a k shift) (seq 0 ARITH_UINT256_WIDTH) arith_uint256_set_zero.

Definition shr_step (tmp : arith_uint256) (k : nat) (shift : Z)
    (r : arith_uint256) (i : nat) : arith_uint256 :=
  let r :=
    if (k + 1 <=? i)%nat && negb (shift =? 0)
    then or_at r (i - k - 1) (u32 (pn tmp i << (32 - shift))) else r in
  if (k <=? i)%nat
  then or_at r (i - k) (pn tmp i >> shift) else r.

Definition arith_uint256_shr (a : arith_uint256) (shift : Z) : arith_uint256 :=
  let k := Z.to_nat (shift / 32) in
  let shift := shift mod 32 in
  fold_left (shr_step a k shift) (seq 0 ARITH_UINT256_WIDTH) arith_uint256_set_zero.

(** One turn of the inner loop of [arith_uint256_mul] at column [j]. *)
Definition mul_step (aj : Z) (b : arith_uint256) (j : nat)
    (s : arith_uint256 * Z) (i : nat) : arith_uint256 * Z :=
  let '(r, carry) := s in
  let n := u64 (carry + pn r (i + j) + aj * pn b i) in
  (<[(i + j)%nat := n .& 0xffffffff]> r, n >> 32).

Definition arith_uint256_mul (a b : arith_uint256) : arith_uint256 :=
  fold_left
    (fun r j =>
       fst (fold_left (mul_step (pn a j) b j) (seq 0 (ARITH_UINT256_WIDTH - j)) (r, 0)))
    (seq 0 ARITH_UINT256_WIDTH) arith_uint256_set_zero.

(** [for (nbits = 31; nbits > 0; nbits--) ...]; the tail [return 32*pos + 1]. *)
Fixpoint bits_in_limb (nbits : nat) (d : Z) : Z :=
  match nbits with
  | O => 1
  | S n => if negb (d .& (1 << Z.of_nat nbits) =? 0) then Z.of_nat nbits + 1
           else bits_in_limb n d
  end.

Fixpoint bits_from (n : nat) (a : arith_uint256) : Z :=
  match n with
  | O => 0
  | S pos =>
      if negb (pn a pos =? 0) then 32 * Z.of_nat pos + bits_in_limb 31 (pn a pos)
      else bits_from pos a
  end.

Definition arith_uint256_bits (a : arith_uint256) : Z :=
  bits_from ARITH_UINT256_WIDTH a.

(** The loop [while (shift >= 0)], with [n = shift + 1]. *)
Fixpoint div_loop (n : nat) (num div r : arith_uint256) : arith_uint256 :=
  match n with
  | O => r
  | S shift =>
      let hit := 0 <=? arith_uint256_compare num div in
      let num := if hit then arith_uint256_sub num div else num in
      let r := if hit then or_at r (shift / 32) (1 << Z.of_nat (shift mod 32)) else r in
      div_loop shift num (arith_uint256_shr div 1) r
  end.

Definition arith_uint256_div (a b : arith_uint256) : arith_uint256 :=
  let num_bits := arith_uint256_bits a in
  let div_bits := arith_uint256_bits b in
  if div_bits =? 0 then arith_uint256_set_zero
  else if num_bits <? div_bits then arith_uint256_set_zero
  else
    let shift := num_bits - div_bits in
    let div := arith_uint256_shl b shift in
    div_loop (Z.to_nat (shift + 1)) a div arith_uint256_set_zero.

(** The target together with the [*negative] and [*overflow] flags. *)
Definition arith_uint256_set_compact (compact : Z) : arith_uint256 * bool * bool :=
  let size := compact >> 24 in
  let word := compact .& 0x007fffff in
  let '(a, word) :=
    if size <=? 3 then
      let word := word >> (8 * (3 - size)) in (arith_uint256_set_u64 word, word)
    else (arith_uint256_shl (arith_uint256_set_u64 word) (8 * (size - 3)), word) in
  let negative := negb (word =? 0) && negb (compact .& 0x00800000 =? 0) in
  let overflow :=
    negb (word =? 0) &&
    ((34 <? size) || ((0xff <? word) && (33 <? size)) || ((0xffff <? word) && (32 <? size))) in
  (a, negative, overflow).

(** [None] when one of the two [assert]s of the function fails. *)
Definition arith_uint256_get_compact (a : arith_uint256) (negative : bool) : option Z :=
  let size := (arith_uint256_bits a + 7) / 8 in
  let compact :=
    if size <=? 3 then u32 (u64 (arith_uint256_get_low64 a << (8 * (3 - size))))
    else u32 (arith_uint256_get_low64 (arith_uint256_shr a (8 * (size - 3)))) in
  let '(compact, size) :=
    if negb (compact .& 0x00800000 =? 0) then (compact >> 8, size + 1) else (compact, size) in
  if negb (compact .& u32 (Z.lnot 0x007fffff) =? 0) then None
  else if negb (size <? 256) then None
  else
    let compact := compact .| u32 (size << 24) in
    Some (compact .| (if negative && negb (compact .& 0x007fffff =? 0) then 0x00800000 else 0)).

(** [struct uint256]: 32 bytes, least significant first. *)
Abbreviation uint256 := (list Z).
Definition wf_uint256 (u : uint256) : Prop := length u = 32%nat /\ bytes u.

Definition WriteLE32 (x : Z) : list Z := digits_of 8 4 x.
Definition ReadLE32 (p : list Z) : Z := digits_val 8 (take 4 p).

Definition arith_to_uint256 (a : arith_uint256) : uint256 :=
  concat (map (fun x => WriteLE32 (pn a x)) (seq 0 ARITH_UINT256_WIDTH)).

Definition uint256_to_arith (u : uint256) : arith_uint256 :=
  map (fun x => ReadLE32 (drop (x * 4) u)) (seq 0 ARITH_UINT256_WIDTH).

(** ** Refinement to [Z] *)

Lemma wf256_val_bound a : wf256 a -> in_u 256 (val a).
Proof.
  intros [Hl Hd]. pose proof (digits_val_bound 32 a ltac:(lia) Hd) as H.
  rewrite Hl in H. exact H.
Qed.

Lemma wf256_inj a b : wf256 a -> wf256 b -> val a = val b -> a = b.
Proof. intros [La Da] [Lb Db]. apply digits_val_inj; auto; [lia|congruence]. Qed.

Lemma set_zero_wf : wf256 arith_uint256_set_zero.
Proof. split; [done|]. apply digits_replicate0. lia. Qed.

Lemma set_zero_val : val arith_uint256_set_zero = 0.
Proof. reflexivity. Qed.

Lemma set_u64_wf v : wf256 (arith_uint256_set_u64 v).
Proof.
  split; [done|]. repeat (constructor; [apply wrap_range; lia|]).
  apply (digits_replicate0 32 6). lia.
Qed.

Lemma set_u64_val v : in_u 64 v -> val (arith_uint256_set_u64 v) = v.
Proof.
  intros [H1 H2]. unfold val, arith_uint256_set_u64, wrap. cbn [digits_val].
  rewrite digits_val_replicate0, Z.shiftr_div_pow2 by lia.
  change (2 ^ 64) with (2 ^ 32 * 2 ^ 32) in H2. zdm.
Qed.

Lemma is_zero_spec a : wf256 a -> arith_uint256_is_zero a = (val a =? 0).
Proof.
  intros [_ H]. unfold arith_uint256_is_zero, val.
  induction H as [|d l [Hd1 Hd2] Hl IH]; cbn [forallb digits_val]; [done|].
  rewrite IH. pose proof (digits_val_bound 32 l ltac:(lia) Hl).
  destruct (Z.eqb_spec d 0), (Z.eqb_spec (digits_val 32 l) 0),
    (Z.eqb_spec (d + 2 ^ 32 * digits_val 32 l) 0); cbn; (reflexivity || lia).
Qed.

Lemma pn_lookup a i : (i < length a)%nat -> a !! i = Some (pn a i).
Proof.
  intros H. unfold pn. destruct (lookup_lt_is_Some_2 a i H) as [x Hx].
  rewrite Hx. f_equal. symmetry. by apply nth_lookup_Some.
Qed.

Lemma pn_range a i : digits 32 a -> in_u 32 (pn a i).
Proof.
  intros H. destruct (le_lt_dec (length a) i) as [Hi|Hi].
  - unfold pn. rewrite nth_overflow by done. split; [lia|reflexivity].
  - eapply digits_lookup; [done|]. by apply pn_lookup.
Qed.

Lemma val_take_S a n :
  (n < length a)%nat ->
  digits_val 32 (take (S n) a) = digits_val 32 (take n a) + pn a n * 2 ^ (32 * Z.of_nat n).
Proof.
  intros Hn. rewrite (take_S_r a n (pn a n)) by by apply pn_lookup.
  rewrite digits_val_app, length_take_le by lia. cbn. lia.
Qed.

Lemma compare_from_spec n a b :
  digits 32 a -> digits 32 b -> (n <= length a)%nat -> (n <= length b)%nat ->
  compare_from n a b = Z.sgn (digits_val 32 (take n a) - digits_val 32 (take n b)).
Proof.
  intros Da Db. induction n as [|n IH]; intros Ha Hb; [done|].
  cbn [compare_from]. rewrite !val_take_S, IH by lia.
  pose proof (digits_val_bound 32 (take n a) ltac:(lia) (digits_take _ _ _ Da)) as Ba.
  pose proof (digits_val_bound 32 (take n b) ltac:(lia) (digits_take _ _ _ Db)) as Bb.
  rewrite length_take_le in Ba, Bb by lia.
  set (P := 2 ^ (32 * Z.of_nat n)) in *.
  destruct (Z.ltb_spec (pn a n) (pn b n)); [symmetry; apply Z.sgn_neg; nia|].
  destruct (Z.ltb_spec (pn b n) (pn a n)); [symmetry; apply Z.sgn_pos; nia|].
  f_equal. replace (pn b n) with (pn a n) by lia. ring.
Qed.

Lemma compare_spec a b :
  wf256 a -> wf256 b -> arith_uint256_compare a b = Z.sgn (val a - val b).
Proof.
  intros [La Da] [Lb Db]. unfold arith_uint256_compare.
  rewrite compare_from_spec by (auto; rewrite ?La, ?Lb; reflexivity || lia).
  by rewrite !take_ge by lia.
Qed.

Lemma complement_wf a : wf256 a -> wf256 (arith_uint256_complement a).
Proof.
  intros [La Da]. unfold arith_uint256_complement. split; [by rewrite length_map|].
  apply Forall_map, Forall_true. intros d. apply wrap_range. lia.
Qed.

Lemma complement_val_gen a :
  digits 32 a ->
  digits_val 32 (arith_uint256_complement a)
  = 2 ^ (32 * Z.of_nat (length a)) - 1 - digits_val 32 a.
Proof.
  unfold arith_uint256_complement. induction 1 as [|d l [Hd1 Hd2] _ IH]; [done|].
  cbn [map digits_val length]. rewrite IH, Nat2Z.inj_succ, Z.mul_succ_r, (Z.add_comm _ 32), Z.pow_add_r by lia.
  unfold wrap. rewrite <- (Z.mod_unique (Z.lnot d) (2 ^ 32) (-1) (2 ^ 32 - 1 - d))
    by (unfold Z.lnot; lia). ring.
Qed.

Lemma complement_val a :
  wf256 a -> val (arith_uint256_complement a) = 2 ^ 256 - 1 - val a.
Proof. intros [La Da]. unfold val. rewrite complement_val_gen, La by done. reflexivity. Qed.

Lemma increment_spec a :
  digits 32 a ->
  digits 32 (increment a) /\ length (increment a) = length a /\
  digits_val 32 (increment a) = (digits_val 32 a + 1) mod 2 ^ (32 * Z.of_nat (length a)).
Proof.
  induction 1 as [|d l [Hd1 Hd2] Hl (IH1 & IH2 & IH3)];
    [split_and!; [constructor|done..]|].
  cbn [increment digits_val length].
  rewrite Nat2Z.inj_succ, Z.mul_succ_r, (Z.add_comm _ 32), Z.pow_add_r by lia.
  pose proof (wrap_range 32 (d + 1) ltac:(lia)) as Hw.
  pose proof (digits_val_bound 32 l ltac:(lia) Hl) as B.
  destruct (Z.eqb_spec (wrap 32 (d + 1)) 0) as [E|E]; cbn [digits_val length].
  - assert (d = 2 ^ 32 - 1) as -> by (unfold wrap in E; zdm).
    split; [by constructor|]. split; [congruence|]. rewrite E, IH3.
    replace (2 ^ 32 - 1 + 2 ^ 32 * digits_val 32 l + 1) with (2 ^ 32 * (digits_val 32 l + 1)) by ring.
    rewrite Zmult_mod_distr_l. reflexivity.
  - split; [by constructor|]. split; [done|].
    assert (wrap 32 (d + 1) = d + 1) as ->.
    { unfold wrap in *. apply Z.mod_small. split; [lia|].
      destruct (Z.eq_dec d (2 ^ 32 - 1)) as [->|]; [exfalso; apply E; reflexivity|lia]. }
    assert (d <> 2 ^ 32 - 1) by (intros ->; apply E; reflexivity).
    rewrite Z.mod_small; nia.
Qed.

Lemma negate_spec b :
  wf256 b -> wf256 (arith_uint256_negate b) /\ val (arith_uint256_negate b) = (- val b) mod 2 ^ 256.
Proof.
  intros Hb. pose proof (complement_wf b Hb) as [Lc Dc].
  destruct (increment_spec _ Dc) as (D & L & V). unfold arith_uint256_negate.
  split; [split; [congruence|done]|].
  unfold val. rewrite V, Lc. change (digits_val 32 (arith_uint256_complement b))
    with (val (arith_uint256_complement b)). rewrite complement_val by done.
  change (2 ^ (32 * Z.of_nat ARITH_UINT256_WIDTH)) with (2 ^ 256).
  replace (2 ^ 256 - 1 - val b + 1) with (- val b + 1 * 2 ^ 256) by ring.
  apply Z.mod_add. lia.
Qed.

Lemma limb_split n : in_u 64 n ->
  Z.land n 0xffffffff = n mod 2 ^ 32 /\ Z.shiftr n 32 = n / 2 ^ 32 /\
  in_u 32 (Z.land n 0xffffffff) /\ in_u 32 (Z.shiftr n 32).
Proof.
  intros [H1 H2]. change 0xffffffff with (Z.ones 32).
  rewrite Z.land_ones, Z.shiftr_div_pow2 by lia.
  change (2 ^ 64) with (2 ^ 32 * 2 ^ 32) in H2. unfold in_u.
  repeat split; try reflexivity; try zdm; try (apply Z.div_lt_upper_bound; lia).
Qed.

Lemma add_loop_spec a b c :
  digits 32 a -> digits 32 b -> length a = length b -> in_u 32 c ->
  digits 32 (add_loop c a b) /\ length (add_loop c a b) = length a /\
  digits_val 32 (add_loop c a b)
  = (c + digits_val 32 a + digits_val 32 b) mod 2 ^ (32 * Z.of_nat (length a)).
Proof.
  intros Ha. revert b c. induction Ha as [|x a [Hx1 Hx2] Ha IH]; intros [|y b] c Hb Hl [Hc1 Hc2];
    simplify_eq/=; [split_and!; [constructor|done|by rewrite Z.mod_1_r]|].
  inversion Hb as [|? ? [Hy1 Hy2] Hb']; subst.
  assert (wrap 64 (c + x + y) = c + x + y) as ->
    by (apply wrap_id; split; [lia|]; change (2 ^ 64) with (2 ^ 32 * 2 ^ 32); lia).
  destruct (limb_split (c + x + y)) as (E1 & E2 & R1 & R2);
    [split; [lia|]; change (2 ^ 64) with (2 ^ 32 * 2 ^ 32); lia|].
  destruct (IH b (Z.shiftr (c + x + y) 32) Hb' Hl R2) as (D & L & V).
  split; [by constructor|]. split; [congruence|]. rewrite V, E1, E2.
  rewrite Nat2Z.inj_succ, Z.mul_succ_r, (Z.add_comm _ 32), Z.pow_add_r by lia.
  pose proof (pow2_pos (32 * Z.of_nat (length a)) ltac:(lia)).
  rewrite Z.rem_mul_r by lia.
  replace (c + (x + 2 ^ 32 * digits_val 32 a) + (y + 2 ^ 32 * digits_val 32 b))
    with (c + x + y + (digits_val 32 a + digits_val 32 b) * 2 ^ 32) by ring.
  rewrite Z.mod_add, Z.div_add by lia. do 3 f_equal. lia.
Qed.

Lemma add_spec a b :
  wf256 a -> wf256 b ->
  wf256 (arith_uint256_add a b) /\ val (arith_uint256_add a b) = (val a + val b) mod 2 ^ 256.
Proof.
  intros [La Da] [Lb Db].
  destruct (add_loop_spec a b 0 Da Db) as (D & L & V); [congruence|by split|].
  split; [split; [unfold arith_uint256_add; congruence|done]|].
  unfold val, arith_uint256_add. rewrite V, La. reflexivity.
Qed.

Lemma sub_spec a b :
  wf256 a -> wf256 b ->
  wf256 (arith_uint256_sub a b) /\ val (arith_uint256_sub a b) = (val a - val b) mod 2 ^ 256.
Proof.
  intros Ha Hb. destruct (negate_spec b Hb) as [Wn Vn].
  destruct (add_spec a _ Ha Wn) as [W V]. split; [done|].
  unfold arith_uint256_sub. rewrite V, Vn, Zplus_mod_idemp_r. f_equal.
Qed.

Lemma mul_u32_loop_spec a b c :
  digits 32 a -> in_u 32 b -> in_u 32 c ->
  digits 32 (mul_u32_loop c a b) /\ length (mul_u32_loop c a b) = length a /\
  digits_val 32 (mul_u32_loop c a b) = (c + b * digits_val 32 a) mod 2 ^ (32 * Z.of_nat (length a)).
Proof.
  intros Ha [Hb1 Hb2]. revert c. induction Ha as [|x a [Hx1 Hx2] Ha IH]; intros c [Hc1 Hc2]; simplify_eq/=;
    [split_and!; [constructor|done|by rewrite Z.mod_1_r]|].
  assert (in_u 64 (c + b * x)) as Hn by (split; [|change (2 ^ 64) with (2 ^ 32 * 2 ^ 32)]; nia).
  rewrite (wrap_id 64 _ Hn). destruct (limb_split _ Hn) as (E1 & E2 & R1 & R2).
  destruct (IH _ R2) as (D & L & V).
  split; [by constructor|]. split; [congruence|]. rewrite V, E1, E2.
  rewrite Nat2Z.inj_succ, Z.mul_succ_r, (Z.add_comm _ 32), Z.pow_add_r by lia.
  pose proof (pow2_pos (32 * Z.of_nat (length a)) ltac:(lia)).
  rewrite Z.rem_mul_r by lia.
  replace (c + b * (x + 2 ^ 32 * digits_val 32 a))
    with (c + b * x + (b * digits_val 32 a) * 2 ^ 32) by ring.
  rewrite Z.mod_add, Z.div_add by lia. done.
Qed.

Lemma mul_u32_spec a b :
  wf256 a -> in_u 32 b ->
  wf256 (arith_uint256_mul_u32 a b) /\ val (arith_uint256_mul_u32 a b) = (b * val a) mod 2 ^ 256.
Proof.
  intros [La Da] Hb.
  destruct (mul_u32_loop_spec a b 0 Da Hb) as (D & L & V); [by split|].
  split; [split; [unfold arith_uint256_mul_u32; congruence|done]|].
  unfold val, arith_uint256_mul_u32. rewrite V, La. reflexivity.
Qed.

(** *** Shifts *)

(** Bits of [x] that leave the limb, and the limb [y] shifted in place. *)
Lemma limb_shl_lor x y s :
  in_u 32 x -> in_u 32 y -> 0 <= s < 32 ->
  Z.lor (Z.shiftr x (32 - s)) (wrap 32 (Z.shiftl y s)) = x / 2 ^ (32 - s) + (y * 2 ^ s) mod 2 ^ 32 /\
  in_u 32 (x / 2 ^ (32 - s) + (y * 2 ^ s) mod 2 ^ 32).
Proof.
  intros [Hx1 Hx2] [Hy1 Hy2] Hs.
  rewrite Z.shiftr_div_pow2, Z.shiftl_mul_pow2 by lia. unfold wrap.
  assert (2 ^ 32 = 2 ^ (32 - s) * 2 ^ s) as E by (rewrite <- Z.pow_add_r by lia; f_equal; lia).
  pose proof (pow2_pos s ltac:(lia)) as Ps. pose proof (pow2_pos (32 - s) ltac:(lia)) as Pt.
  assert (0 <= x / 2 ^ (32 - s) < 2 ^ s) as Hq.
  { split; [apply Z.div_pos; lia|]. apply Z.div_lt_upper_bound; lia. }
  rewrite E, Zmult_mod_distr_r.
  assert (0 <= y mod 2 ^ (32 - s) < 2 ^ (32 - s)) by (apply Z.mod_pos_bound; lia).
  split; [apply lor_add_disjoint; [lia|done]|]. split; nia.
Qed.

Fixpoint shl_bits (s prev : Z) (l : list Z) : list Z :=
  match l with
  | [] => []
  | x :: l => Z.lor (Z.shiftr prev (32 - s)) (wrap 32 (Z.shiftl x s)) :: shl_bits s x l
  end.

Lemma shl_bits_spec s prev l :
  digits 32 l -> in_u 32 prev -> 0 <= s < 32 ->
  digits 32 (shl_bits s prev l) /\ length (shl_bits s prev l) = length l /\
  digits_val 32 (shl_bits s prev l)
  = (prev / 2 ^ (32 - s) + 2 ^ s * digits_val 32 l) mod 2 ^ (32 * Z.of_nat (length l)).
Proof.
  intros Hl. revert prev. induction Hl as [|x l Hx Hl IH]; intros prev Hp Hs; cbn [shl_bits digits_val length].
  { split_and!; [constructor|done|]. by rewrite Z.mul_0_r, Z.mod_1_r. }
  destruct (limb_shl_lor prev x s Hp Hx Hs) as [E R]. destruct (IH x Hx Hs) as (D & L & V).
  rewrite E, V. split; [by constructor|]. split; [congruence|].
  rewrite Nat2Z.inj_succ, Z.mul_succ_r, (Z.add_comm _ 32), Z.pow_add_r by lia.
  pose proof (pow2_pos (32 * Z.of_nat (length l)) ltac:(lia)).
  rewrite Z.rem_mul_r by lia.
  assert (x * 2 ^ s = (x * 2 ^ s) mod 2 ^ 32 + 2 ^ 32 * (x / 2 ^ (32 - s))) as Ex.
  { rewrite (Z.div_mod (x * 2 ^ s) (2 ^ 32)) at 1 by lia.
    replace (2 ^ 32) with (2 ^ (32 - s) * 2 ^ s) at 2 by (rewrite <- Z.pow_add_r by lia; f_equal; lia).
    rewrite Z.div_mul_cancel_r by (apply Z.pow_nonzero; lia). ring. }
  replace (prev / 2 ^ (32 - s) + 2 ^ s * (x + 2 ^ 32 * digits_val 32 l))
    with (prev / 2 ^ (32 - s) + (x * 2 ^ s) mod 2 ^ 32
          + (x / 2 ^ (32 - s) + 2 ^ s * digits_val 32 l) * 2 ^ 32)
    by lia.
  rewrite Z.mod_add, Z.div_add by lia. set (h := prev / _ + _ mod _) in *.
  by rewrite (Z.mod_small h), (Z.div_small h), Z.add_0_l by exact R.
Qed.

Lemma shl_step_high a k s r i : (8 <= k)%nat -> shl_step a k s r i = r.
Proof.
  intros Hk. unfold shl_step, ARITH_UINT256_WIDTH.
  destruct (Nat.ltb_spec (i + k + 1) 8), (Nat.ltb_spec (i + k) 8); cbn; (lia || done).
Qed.

Lemma fold_left_id {A B} (f : A -> B -> A) l a : (forall a b, f a b = a) -> fold_left f l a = a.
Proof. intros H. revert a. induction l as [|b l IH]; intros a; cbn; [done|]. by rewrite H. Qed.

Lemma shiftr_32_0 x : in_u 32 x -> Z.shiftr x 32 = 0.
Proof. intros [H1 H2]. rewrite Z.shiftr_div_pow2 by lia. apply Z.div_small. lia. Qed.

(** Name the eight limbs of a well-formed number. *)
Ltac split_limbs a La Da :=
  do 8 (destruct a as [|? a]; [discriminate La|]); destruct a; [clear La|discriminate La];
  unfold digits in Da;
  repeat match goal with H : Forall _ (_ :: _) |- _ => inversion H; clear H; subst end.

Lemma shl_eq a k s :
  wf256 a -> 0 <= s < 32 -> (k < 8)%nat ->
  fold_left (shl_step a k s) (seq 0 ARITH_UINT256_WIDTH) arith_uint256_set_zero
  = replicate k 0 ++ take (8 - k) (shl_bits s 0 a).
Proof.
  intros [La Da] Hs Hk.
  split_limbs a La Da.
  destruct (Z.eqb_spec s 0) as [->|Hs0].
  - do 8 (destruct k as [|k]; [cbn -[Z.lor Z.shiftr Z.shiftl wrap Z.sub];
      rewrite ?Z.lor_0_l, ?Z.sub_0_r, ?shiftr_32_0, ?Z.lor_0_l by done; done|]). lia.
  - unfold shl_step. apply Z.eqb_neq in Hs0. rewrite Hs0.
    do 8 (destruct k as [|k]; [cbn -[Z.lor Z.shiftr Z.shiftl wrap Z.sub];
      rewrite ?Z.shiftr_0_l, ?Z.lor_0_l; done|]). lia.
Qed.

Lemma shl_spec a shift :
  wf256 a -> 0 <= shift ->
  wf256 (arith_uint256_shl a shift) /\
  val (arith_uint256_shl a shift) = (val a * 2 ^ shift) mod 2 ^ 256.
Proof.
  intros Ha Hs. pose proof Ha as [La Da]. unfold arith_uint256_shl.
  assert (0 <= shift mod 32 < 32) as Hm by (apply Z.mod_pos_bound; lia).
  assert (shift = 32 * (shift / 32) + shift mod 32) as Eshift by (apply Z.div_mod; lia).
  destruct (le_lt_dec 8 (Z.to_nat (shift / 32))) as [Hk|Hk].
  - rewrite fold_left_id by (intros; by apply shl_step_high).
    split; [apply set_zero_wf|]. rewrite set_zero_val.
    replace shift with (256 + (shift - 256)) by lia.
    rewrite Z.pow_add_r by zdm. symmetry. apply Z.mod_divide; [lia|].
    exists (val a * 2 ^ (shift - 256)). ring.
  - rewrite shl_eq by done. set (k := Z.to_nat (shift / 32)) in *. set (s := shift mod 32) in *.
    destruct (shl_bits_spec s 0 a Da) as (D & L & V); [split; [lia|reflexivity]|done|].
    split.
    { split; [|apply digits_app; [apply digits_replicate0; lia|by apply digits_take]].
      rewrite length_app, length_replicate, length_take, L, La. unfold ARITH_UINT256_WIDTH. lia. }
    unfold val. rewrite digits_val_app, digits_val_replicate0, length_replicate, digits_val_take, V, La by (done || lia).
    rewrite Z.div_0_l, !Z.add_0_l by (apply Z.pow_nonzero; lia).
    change (32 * Z.of_nat ARITH_UINT256_WIDTH) with 256.
    rewrite Z.mod_mod_divide
      by (exists (2 ^ (32 * Z.of_nat k)); rewrite <- Z.pow_add_r by lia; f_equal; lia).
    rewrite <- Zmult_mod_distr_l, <- Z.pow_add_r by lia.
    replace (32 * Z.of_nat k + 32 * Z.of_nat (8 - k)) with 256 by lia. f_equal.
    replace (2 ^ shift) with (2 ^ (32 * Z.of_nat k) * 2 ^ s); [ring|].
    rewrite <- Z.pow_add_r by lia. f_equal. lia.
Qed.

Fixpoint shr_bits (s : Z) (l : list Z) : list Z :=
  match l with
  | [] => []
  | x :: l => Z.lor (Z.shiftr x s) (wrap 32 (Z.shiftl (hd 0 l) (32 - s))) :: shr_bits s l
  end.

Lemma limb_shr_lor x y s :
  in_u 32 x -> 0 <= s < 32 ->
  Z.lor (Z.shiftr x s) (wrap 32 (Z.shiftl y (32 - s))) = x / 2 ^ s + (y mod 2 ^ s) * 2 ^ (32 - s) /\
  in_u 32 (x / 2 ^ s + (y mod 2 ^ s) * 2 ^ (32 - s)).
Proof.
  intros [Hx1 Hx2] Hs.
  rewrite Z.shiftr_div_pow2, Z.shiftl_mul_pow2 by lia. unfold wrap.
  assert (2 ^ 32 = 2 ^ s * 2 ^ (32 - s)) as E by (rewrite <- Z.pow_add_r by lia; f_equal; lia).
  pose proof (pow2_pos s ltac:(lia)) as Ps. pose proof (pow2_pos (32 - s) ltac:(lia)) as Pt.
  assert (0 <= x / 2 ^ s < 2 ^ (32 - s)) as Hq.
  { split; [apply Z.div_pos; lia|]. apply Z.div_lt_upper_bound; lia. }
  rewrite E, Zmult_mod_distr_r.
  assert (0 <= y mod 2 ^ s < 2 ^ s) by (apply Z.mod_pos_bound; lia).
  split; [apply lor_add_disjoint; [lia|done]|]. split; nia.
Qed.

Lemma shr_bits_spec s l :
  digits 32 l -> 0 <= s < 32 ->
  digits 32 (shr_bits s l) /\ length (shr_bits s l) = length l /\
  digits_val 32 (shr_bits s l) = digits_val 32 l / 2 ^ s.
Proof.
  intros Hl Hs. induction Hl as [|x l Hx Hl (D & L & V)]; cbn [shr_bits digits_val length].
  { split_and!; [constructor|done|by rewrite Zdiv_0_l]. }
  destruct (limb_shr_lor x (hd 0 l) s Hx Hs) as [E R].
  rewrite E, V. split; [by constructor|]. split; [congruence|].
  pose proof (pow2_pos s ltac:(lia)) as Ps.
  assert (2 ^ 32 = 2 ^ (32 - s) * 2 ^ s) as E32 by (rewrite <- Z.pow_add_r by lia; f_equal; lia).
  assert (hd 0 l mod 2 ^ s = digits_val 32 l mod 2 ^ s) as ->.
  { destruct l as [|y l]; [done|]. cbn [hd digits_val].
    rewrite E32, <- Z.mul_assoc, (Z.mul_comm (2 ^ s)), Z.mul_assoc, Z.mod_add by lia. done. }
  rewrite (Z.div_mod (digits_val 32 l) (2 ^ s)) at 3 by lia.
  rewrite E32 at 2.
  replace (x + 2 ^ (32 - s) * 2 ^ s * (2 ^ s * (digits_val 32 l / 2 ^ s) + digits_val 32 l mod 2 ^ s))
    with (x + (2 ^ (32 - s) * 2 ^ s * (digits_val 32 l / 2 ^ s)
               + digits_val 32 l mod 2 ^ s * 2 ^ (32 - s)) * 2 ^ s) by ring.
  rewrite Z.div_add, <- E32 by lia. ring.
Qed.

Lemma shr_step_high a k s r i : (8 <= k)%nat -> (i < 8)%nat -> shr_step a k s r i = r.
Proof.
  intros Hk Hi. unfold shr_step.
  destruct (Nat.leb_spec (k + 1) i), (Nat.leb_spec k i); cbn; (lia || done).
Qed.

Lemma shr_eq a k s :
  wf256 a -> 0 <= s < 32 -> (k < 8)%nat ->
  fold_left (shr_step a k s) (seq 0 ARITH_UINT256_WIDTH) arith_uint256_set_zero
  = drop k (shr_bits s a) ++ replicate k 0.
Proof.
  intros [La Da] Hs Hk. split_limbs a La Da.
  assert (forall x, wrap 32 (Z.shiftl x 32) = 0) as Hz.
  { intros x. unfold wrap. rewrite Z.shiftl_mul_pow2 by lia. apply Z_mod_mult. }
  destruct (Z.eqb_spec s 0) as [->|Hs0].
  - do 8 (destruct k as [|k]; [cbn -[Z.lor Z.shiftr Z.shiftl wrap Z.sub];
      rewrite ?Z.lor_0_l, ?Z.sub_0_r, ?Hz, ?Z.lor_0_r, ?Z.lor_0_l by done; done|]). lia.
  - unfold shr_step. apply Z.eqb_neq in Hs0. rewrite Hs0.
    do 8 (destruct k as [|k]; [cbn -[Z.lor Z.shiftr Z.shiftl wrap Z.sub];
      rewrite ?Z.shiftl_0_l; change (wrap 32 0) with 0; rewrite ?Z.lor_0_r, ?Z.lor_0_l; done|]). lia.
Qed.

Lemma shr_spec a shift :
  wf256 a -> 0 <= shift ->
  wf256 (arith_uint256_shr a shift) /\ val (arith_uint256_shr a shift) = val a / 2 ^ shift.
Proof.
  intros Ha Hs. pose proof Ha as [La Da]. unfold arith_uint256_shr.
  assert (0 <= shift mod 32 < 32) as Hm by (apply Z.mod_pos_bound; lia).
  assert (shift = 32 * (shift / 32) + shift mod 32) as Eshift by (apply Z.div_mod; lia).
  destruct (le_lt_dec 8 (Z.to_nat (shift / 32))) as [Hk|Hk].
  - assert (fold_left (shr_step a (Z.to_nat (shift / 32)) (shift mod 32))
      (seq 0 ARITH_UINT256_WIDTH) arith_uint256_set_zero = arith_uint256_set_zero) as ->.
    { cbn [ARITH_UINT256_WIDTH seq fold_left]. rewrite !shr_step_high by lia. done. }
    split; [apply set_zero_wf|]. rewrite set_zero_val. symmetry. apply Z.div_small.
    destruct (wf256_val_bound a Ha). split; [lia|].
    eapply Z.lt_le_trans; [done|]. apply Z.pow_le_mono_r; zdm.
  - rewrite shr_eq by done. set (k := Z.to_nat (shift / 32)) in *. set (s := shift mod 32) in *.
    destruct (shr_bits_spec s a Da Hm) as (D & L & V).
    split.
    { split; [|apply digits_app; [by apply digits_drop|apply digits_replicate0; lia]].
      rewrite length_app, length_replicate, length_drop, L, La. unfold ARITH_UINT256_WIDTH. lia. }
    unfold val. rewrite digits_val_app, digits_val_replicate0, digits_val_drop, V by (done || lia).
    rewrite Z.mul_0_r, Z.add_0_r, Z.div_div by (apply pow2_pos || apply Z.pow_nonzero; lia).
    rewrite <- Z.pow_add_r by lia. do 2 f_equal. lia.
Qed.

(** *** Multiplication *)

Lemma mul_inner_spec aj b j n i r c :
  digits 32 b -> digits 32 r -> in_u 32 aj -> in_u 32 c ->
  (i + n + j <= length r)%nat -> (i + n <= length b)%nat ->
  let '(r', c') := fold_left (mul_step aj b j) (seq i n) (r, c) in
  digits 32 r' /\ length r' = length r /\ in_u 32 c' /\
  digits_val 32 r' + c' * 2 ^ (32 * Z.of_nat (i + n + j))
  = digits_val 32 r + c * 2 ^ (32 * Z.of_nat (i + j))
    + aj * 2 ^ (32 * Z.of_nat j)
      * (digits_val 32 (take (i + n) b) - digits_val 32 (take i b)).
Proof.
  intros Db Dr [Ha1 Ha2] Hc Hlr Hlb. revert i r c Dr Hc Hlr Hlb.
  induction n as [|n IH]; intros i r c Dr Hc Hlr Hlb; cbn [seq fold_left].
  { split; [done|]. split; [done|]. split; [done|]. rewrite Nat.add_0_r. ring. }
  unfold mul_step at 2. destruct Hc as [Hc1 Hc2].
  pose proof (pn_range r (i + j) Dr) as [Hr1 Hr2]. pose proof (pn_range b i Db) as [Hb1 Hb2].
  set (m := c + pn r (i + j) + aj * pn b i).
  assert (in_u 64 m) as Hm by (split; [|change (2 ^ 64) with (2 ^ 32 * 2 ^ 32)]; nia).
  rewrite (wrap_id 64 m Hm). destruct (limb_split m Hm) as (E1 & E2 & R1 & R2).
  specialize (IH (S i) (<[(i + j)%nat := Z.land m 4294967295]> r) (Z.shiftr m 32)).
  destruct (fold_left _ _ _) as [r' c'].
  destruct IH as (D & L & C & V);
    [by apply digits_insert|done|rewrite length_insert; lia|lia|].
  split; [done|]. split; [by rewrite length_insert in L|]. split; [done|].
  rewrite (digits_val_insert 32 r (i + j) (pn r (i + j))), E1, E2 in V by (lia || apply pn_lookup; lia).
  rewrite (val_take_S b i) in V by lia.
  replace (S i + n)%nat with (i + S n)%nat in V by lia. rewrite V.
  replace (2 ^ (32 * Z.of_nat (S i + j))) with (2 ^ 32 * 2 ^ (32 * Z.of_nat (i + j)))
    by (rewrite <- Z.pow_add_r by lia; f_equal; lia).
  replace (2 ^ (32 * Z.of_nat (i + j))) with (2 ^ (32 * Z.of_nat i) * 2 ^ (32 * Z.of_nat j))
    by (rewrite <- Z.pow_add_r by lia; f_equal; lia).
  pose proof (Z.div_mod m (2 ^ 32) ltac:(lia)) as Em.
  assert (m mod 2 ^ 32 = m - 2 ^ 32 * (m / 2 ^ 32)) as -> by lia.
  unfold m at 1. ring.
Qed.

Lemma mul_column_spec a b j r :
  wf256 a -> wf256 b -> wf256 r -> (j < 8)%nat ->
  let r' := fst (fold_left (mul_step (pn a j) b j) (seq 0 (ARITH_UINT256_WIDTH - j)) (r, 0)) in
  wf256 r' /\ val r' mod 2 ^ 256 = (val r + pn a j * 2 ^ (32 * Z.of_nat j) * val b) mod 2 ^ 256.
Proof.
  intros [La Da] [Lb Db] [Lr Dr] Hj.
  pose proof (mul_inner_spec (pn a j) b j (8 - j) 0 r 0 Db Dr (pn_range a j Da)) as H.
  unfold ARITH_UINT256_WIDTH in *. destruct (fold_left _ _ _) as [r' c'].
  destruct H as (D & L & _ & V); [split; [lia|reflexivity]|lia|lia|].
  cbn [fst]. split; [split; [by rewrite L, Lr|done]|]. unfold val.
  rewrite !Nat.add_0_l in V. replace (8 - j + j)%nat with 8%nat in V by lia.
  change (digits_val 32 (take 0 b)) with 0 in V. change (32 * Z.of_nat 8) with 256 in V.
  rewrite digits_val_take in V by (done || lia).
  pose proof (Z.div_mod (digits_val 32 b) (2 ^ (32 * Z.of_nat (8 - j)))
    ltac:(apply Z.pow_nonzero; lia)) as Eb.
  rewrite Eb. set (q := digits_val 32 b / _) in *. set (m := digits_val 32 b mod _) in *.
  replace (digits_val 32 r') with
    (digits_val 32 r + pn a j * 2 ^ (32 * Z.of_nat j) * (2 ^ (32 * Z.of_nat (8 - j)) * q + m)
     + (- c' - pn a j * q) * 2 ^ 256).
  - by rewrite Z.mod_add by lia.
  - replace (2 ^ 256) with (2 ^ (32 * Z.of_nat j) * 2 ^ (32 * Z.of_nat (8 - j))) in *
      by (rewrite <- Z.pow_add_r by lia; f_equal; lia).
    lia.
Qed.

Lemma mul_spec a b :
  wf256 a -> wf256 b ->
  wf256 (arith_uint256_mul a b) /\ val (arith_uint256_mul a b) = (val a * val b) mod 2 ^ 256.
Proof.
  intros Ha Hb. unfold arith_uint256_mul.
  assert (forall n, (n <= 8)%nat ->
    let r := fold_left (fun r j => fst (fold_left (mul_step (pn a j) b j)
               (seq 0 (ARITH_UINT256_WIDTH - j)) (r, 0))) (seq 0 n) arith_uint256_set_zero in
    wf256 r /\ val r mod 2 ^ 256 = (digits_val 32 (take n a) * val b) mod 2 ^ 256) as H.
  { induction n as [|n IH]; intros Hn; [split; [apply set_zero_wf|done]|].
    destruct IH as [W V]; [lia|]. rewrite seq_S, fold_left_app. cbn [fold_left Nat.add].
    destruct (mul_column_spec a b n _ Ha Hb W Hn) as [W' V']. split; [done|].
    rewrite V', Zplus_mod, V, <- Zplus_mod, val_take_S by (destruct Ha as [-> _]; done).
    f_equal. ring. }
  destruct (H ARITH_UINT256_WIDTH ltac:(unfold ARITH_UINT256_WIDTH; lia)) as [W V]. split; [done|].
  rewrite Z.mod_small in V by (by apply wf256_val_bound). rewrite V.
  by rewrite take_ge by (destruct Ha as [-> _]; done).
Qed.

(** *** Bit length *)

Lemma bits_in_limb_spec n d :
  0 < d < 2 ^ (Z.of_nat n + 1) -> bits_in_limb n d = Z.log2 d + 1.
Proof.
  induction n as [|n IH]; intros [H1 H2]; cbn [bits_in_limb].
  { replace d with 1 by (cbn in H2; lia). done. }
  rewrite land_pow2_testbit, testbit_top by lia.
  destruct (Z.leb_spec (2 ^ Z.of_nat (S n)) d) as [Hle|Hlt].
  - by rewrite (Z.log2_unique d (Z.of_nat (S n))) by lia.
  - apply IH. split; [done|]. by replace (Z.of_nat n + 1) with (Z.of_nat (S n)) by lia.
Qed.

Lemma bits_from_spec n a :
  digits 32 a -> (n <= length a)%nat ->
  bits_from n a = if digits_val 32 (take n a) =? 0 then 0
                  else Z.log2 (digits_val 32 (take n a)) + 1.
Proof.
  intros Da. induction n as [|n IH]; intros Hn; [done|]. cbn [bits_from].
  rewrite val_take_S by lia.
  pose proof (digits_val_bound 32 (take n a) ltac:(lia) (digits_take _ _ _ Da)) as [B1 B2].
  rewrite length_take_le in B2 by lia.
  pose proof (pn_range a n Da) as [P1 P2]. pose proof (pow2_pos (32 * Z.of_nat n) ltac:(lia)).
  destruct (Z.eqb_spec (pn a n) 0) as [E|E]; cbn [negb].
  { rewrite IH, E, Z.mul_0_l, Z.add_0_r by lia. done. }
  rewrite bits_in_limb_spec by (change (Z.of_nat 31 + 1) with 32; lia).
  destruct (Z.eqb_spec (digits_val 32 (take n a) + pn a n * 2 ^ (32 * Z.of_nat n)) 0); [nia|].
  pose proof (Z.log2_spec (pn a n) ltac:(lia)) as [L1 L2].
  pose proof (Z.log2_nonneg (pn a n)).
  rewrite (Z.log2_unique (_ + _) (32 * Z.of_nat n + Z.log2 (pn a n))); [lia|lia|].
  rewrite Z.pow_add_r, <- Z.add_succ_r, Z.pow_add_r by lia. split; nia.
Qed.

Lemma bits_spec a :
  wf256 a -> arith_uint256_bits a = if val a =? 0 then 0 else Z.log2 (val a) + 1.
Proof.
  intros [La Da]. unfold arith_uint256_bits. rewrite bits_from_spec by (done || by rewrite La).
  by rewrite take_ge by (rewrite La; done).
Qed.

Lemma bits_bounds a :
  wf256 a -> val a <> 0 ->
  let n := arith_uint256_bits a in 1 <= n <= 256 /\ 2 ^ (n - 1) <= val a < 2 ^ n.
Proof.
  intros Ha Hz. pose proof (wf256_val_bound a Ha) as [B1 B2]. cbn zeta. rewrite bits_spec by done.
  destruct (Z.eqb_spec (val a) 0); [done|].
  pose proof (Z.log2_spec (val a) ltac:(lia)). pose proof (Z.log2_nonneg (val a)).
  assert (Z.log2 (val a) < 256) by (apply Z.log2_lt_pow2; lia).
  replace (Z.log2 (val a) + 1 - 1) with (Z.log2 (val a)) by lia. lia.
Qed.

(** *** Division *)

Lemma or_at_bit r n :
  wf256 r -> (n < 256)%nat -> val r mod 2 ^ (Z.of_nat n + 1) = 0 ->
  let r' := or_at r (n / 32) (Z.shiftl 1 (Z.of_nat (n mod 32))) in
  wf256 r' /\ val r' = val r + 2 ^ Z.of_nat n.
Proof.
  intros Hr Hn Hm. pose proof Hr as [Lr Dr]. cbn zeta. unfold or_at.
  pose proof (Nat.div_mod_eq n 32) as En. pose proof (Nat.mod_upper_bound n 32 ltac:(lia)) as Hb.
  assert (n / 32 < length r)%nat as Hq.
  { rewrite Lr. apply Nat.Div0.div_lt_upper_bound. unfold ARITH_UINT256_WIDTH. lia. }
  pose proof (pn_lookup r _ Hq) as Hlk. pose proof (pn_range r (n / 32) Dr) as [P1 P2].
  assert (Z.testbit (pn r (n / 32)) (Z.of_nat (n mod 32)) = false) as Hbit.
  { rewrite (digits_lookup_val 32 r _ _ ltac:(lia) Dr Hlk).
    rewrite Z.mod_pow2_bits_low by lia. rewrite Z.div_pow2_bits by lia.
    replace (Z.of_nat (n mod 32) + 32 * Z.of_nat (n / 32)) with (Z.of_nat n) by lia.
    rewrite <- (Z.mod_pow2_bits_low _ (Z.of_nat n + 1)) by lia. fold (val r). rewrite Hm. apply Z.bits_0. }
  rewrite lor_pow2_add by (done || lia). split.
  - split; [by rewrite length_insert|]. apply digits_insert; [done|].
    rewrite <- lor_pow2_add by (done || lia). apply lor_range; [lia|by split|].
    rewrite Z.shiftl_1_l. split; [lia|]. apply Z.pow_lt_mono_r; lia.
  - unfold val. rewrite (digits_val_insert 32 r _ (pn r (n / 32))) by (done || lia).
    replace (2 ^ Z.of_nat n) with (2 ^ Z.of_nat (n mod 32) * 2 ^ (32 * Z.of_nat (n / 32)))
      by (rewrite <- Z.pow_add_r by lia; f_equal; lia). ring.
Qed.

Lemma div_loop_spec n num dv r B :
  wf256 num -> wf256 dv -> wf256 r -> 0 < B ->
  (n <= 256)%nat ->
  (n <> 0%nat -> val dv = B * 2 ^ (Z.of_nat n - 1)) ->
  val num < B * 2 ^ Z.of_nat n -> val r mod 2 ^ Z.of_nat n = 0 ->
  wf256 (div_loop n num dv r) /\ val (div_loop n num dv r) = val r + val num / B.
Proof.
  intros Hnum Hdv Hr HB. revert num dv r Hnum Hdv Hr.
  induction n as [|n IH]; intros num dv r Hnum Hdv Hr Hn Edv Hlt Hmod; cbn [div_loop].
  { split; [done|]. destruct (wf256_val_bound num Hnum). rewrite Z.div_small by lia. lia. }
  specialize (Edv ltac:(done)). replace (Z.of_nat (S n) - 1) with (Z.of_nat n) in Edv by lia.
  rewrite Nat2Z.inj_succ in Hlt, Hmod. rewrite Z.pow_succ_r in Hlt by lia.
  pose proof (pow2_pos (Z.of_nat n) ltac:(lia)) as Pn.
  destruct (shr_spec dv 1 Hdv ltac:(lia)) as [Wdv' Vdv'].
  assert (n <> 0%nat -> val (arith_uint256_shr dv 1) = B * 2 ^ (Z.of_nat n - 1)) as Edv'.
  { intros Hn0. rewrite Vdv', Edv. replace (Z.of_nat n) with (Z.of_nat n - 1 + 1) at 1 by lia.
    rewrite Z.pow_add_r, Z.mul_assoc by lia. apply Z.div_mul. done. }
  destruct (wf256_val_bound num Hnum) as [N1 N2]. destruct (wf256_val_bound dv Hdv) as [D1 D2].
  rewrite compare_spec by done.
  destruct (Z.leb_spec 0 (Z.sgn (val num - val dv))) as [Hc|Hc].
  - assert (val dv <= val num) by (destruct (Z.sgn_spec (val num - val dv)) as [[]|[[]|[]]]; lia).
    destruct (sub_spec num dv Hnum Hdv) as [Ws Vs]. rewrite Z.mod_small in Vs by lia.
    destruct (or_at_bit r n Hr ltac:(lia) Hmod) as [Wr Vr].
    destruct (IH (arith_uint256_sub num dv) _ _ Ws Wdv' Wr) as [W V]; [lia|done|nia| |].
    + rewrite Vr, <- (Z.mul_1_l (2 ^ Z.of_nat n)) at 1. rewrite Z.mod_add by lia.
      apply Z.mod_divide; [lia|]. apply Z.mod_divide in Hmod; [|apply Z.pow_nonzero; lia].
      destruct Hmod as [z Hz]. exists (z * 2). rewrite Hz, Z.pow_succ_r by lia. ring.
    + split; [done|]. rewrite V, Vr, Vs, Edv.
      replace (val num - B * 2 ^ Z.of_nat n) with (val num + (- 2 ^ Z.of_nat n) * B) by ring.
      rewrite Z.div_add by lia. ring.
  - assert (val num < val dv) by (destruct (Z.sgn_spec (val num - val dv)) as [[]|[[]|[]]]; lia).
    apply (IH num _ r Hnum Wdv' Hr); [lia|done|lia|].
    apply Z.mod_divide; [lia|]. apply Z.mod_divide in Hmod; [|apply Z.pow_nonzero; lia].
    destruct Hmod as [z Hz]. exists (z * 2). rewrite Hz, Z.pow_succ_r by lia. ring.
Qed.

(** Long division computes the floor quotient; a zero divisor gives zero. *)
Lemma div_spec a b :
  wf256 a -> wf256 b ->
  wf256 (arith_uint256_div a b) /\ val (arith_uint256_div a b) = val a / val b.
Proof.
  intros Ha Hb. destruct (wf256_val_bound a Ha) as [A1 A2]. destruct (wf256_val_bound b Hb) as [B1 B2].
  unfold arith_uint256_div. destruct (Z.eq_dec (val b) 0) as [Eb|Eb].
  { rewrite (bits_spec b), Eb, Z.div_0_r by done. split; [apply set_zero_wf|apply set_zero_val]. }
  pose proof (bits_bounds b Hb Eb) as [Nb [Lb Ub]]. cbn zeta in *.
  destruct (Z.eqb_spec (arith_uint256_bits b) 0) as [|_]; [lia|].
  destruct (Z.eq_dec (val a) 0) as [Ea|Ea].
  { rewrite (bits_spec a), Ea, Z.div_0_l by done. change (0 =? 0) with true. cbv iota.
    destruct (Z.ltb_spec 0 (arith_uint256_bits b)); [|lia]. split; [apply set_zero_wf|apply set_zero_val]. }
  pose proof (bits_bounds a Ha Ea) as [Na [La Ua]]. cbn zeta in *.
  set (m := arith_uint256_bits a) in *. set (n := arith_uint256_bits b) in *.
  destruct (Z.ltb_spec m n) as [Hmn|Hmn].
  { split; [apply set_zero_wf|]. rewrite set_zero_val, Z.div_small; [done|]. split; [lia|].
    eapply Z.lt_le_trans; [done|]. etransitivity; [|done]. apply Z.pow_le_mono_r; lia. }
  destruct (shl_spec b (m - n) Hb ltac:(lia)) as [Ws Vs].
  assert (2 ^ m = 2 ^ n * 2 ^ (m - n)) as Em by (rewrite <- Z.pow_add_r by lia; f_equal; lia).
  assert (2 ^ m <= 2 ^ 256) by (apply Z.pow_le_mono_r; lia).
  pose proof (pow2_pos (m - n) ltac:(lia)).
  rewrite Z.mod_small in Vs by nia.
  destruct (div_loop_spec (Z.to_nat (m - n + 1)) a (arith_uint256_shl b (m - n)) arith_uint256_set_zero (val b))
    as [W V]; try done; try apply set_zero_wf.
  - lia.
  - lia.
  - intros _. rewrite Vs. do 2 f_equal. lia.
  - rewrite Z2Nat.id by lia. replace (m - n + 1) with (1 + (m - n)) by lia.
    rewrite Z.pow_add_r by lia. replace n with (1 + (n - 1)) in Em at 1 by lia.
    rewrite Z.pow_add_r in Em by lia. nia.
Qed.

(** *** Compact ("nBits") encoding *)

Lemma get_low64_spec a : wf256 a -> arith_uint256_get_low64 a = val a mod 2 ^ 64.
Proof.
  intros [La Da]. unfold arith_uint256_get_low64.
  rewrite Z.shiftl_mul_pow2, lor_add_disjoint by (lia || by apply pn_range).
  unfold val. pose proof (digits_val_take 32 a 2 ltac:(lia) Da) as E.
  change (32 * Z.of_nat 2) with 64 in E. rewrite <- E.
  destruct a as [|x [|y a]]; [done..|]. unfold pn. cbn [take nth digits_val]. rewrite take_0. cbn. lia.
Qed.

(** The base-256 length of [a], the [size] local of [get_compact]. *)
Lemma byte_size_spec a :
  wf256 a -> val a <> 0 ->
  let s := (arith_uint256_bits a + 7) / 8 in
  1 <= s <= 32 /\ 2 ^ (8 * (s - 1)) <= val a < 2 ^ (8 * s).
Proof.
  intros Ha Hz. destruct (bits_bounds a Ha Hz) as [B [L U]]. cbn zeta in *.
  set (n := arith_uint256_bits a) in *.
  split; [zdm|]. split.
  - etransitivity; [|exact L]. apply Z.pow_le_mono_r; zdm.
  - eapply Z.lt_le_trans; [exact U|]. apply Z.pow_le_mono_r; zdm.
Qed.

(** The 24-bit window on the leading bytes of [n], a number of [s] bytes. *)
Definition compact_window (n s : Z) : Z :=
  if s <=? 3 then n * 2 ^ (8 * (3 - s)) else n / 2 ^ (8 * (s - 3)).

Lemma compact_window_range n s :
  1 <= s -> 2 ^ (8 * (s - 1)) <= n < 2 ^ (8 * s) -> 2 ^ 16 <= compact_window n s < 2 ^ 24.
Proof.
  intros Hs [H1 H2]. unfold compact_window. destruct (Z.leb_spec s 3).
  - pose proof (pow2_pos (8 * (3 - s)) ltac:(lia)).
    replace 16 with (8 * (s - 1) + 8 * (3 - s)) by lia. replace 24 with (8 * s + 8 * (3 - s)) by lia.
    rewrite !Z.pow_add_r by lia. nia.
  - pose proof (pow2_pos (8 * (s - 3)) ltac:(lia)). split.
    + apply Z.div_le_lower_bound; [done|]. rewrite <- Z.pow_add_r by lia.
      by replace (8 * (s - 3) + 16) with (8 * (s - 1)) by lia.
    + apply Z.div_lt_upper_bound; [done|]. rewrite <- Z.pow_add_r by lia.
      by replace (8 * (s - 3) + 24) with (8 * s) by lia.
Qed.

(** What [get_compact] computes from the window and the byte length. *)
Definition compact_pack (m s : Z) (negative : bool) : Z :=
  let '(m, s) := if 2 ^ 23 <=? m then (m / 256, s + 1) else (m, s) in
  m + s * 2 ^ 24 + (if negative && negb (m =? 0) then 2 ^ 23 else 0).

Lemma compact_sign_bit m s (negative : bool) :
  0 <= m < 2 ^ 23 -> 0 <= s < 256 ->
  let c := m .| u32 (s << 24) in
  c .| (if negative && negb (c .& 0x007fffff =? 0) then 0x00800000 else 0) =
  m + s * 2 ^ 24 + (if negative && negb (m =? 0) then 2 ^ 23 else 0).
Proof.
  intros Hm Hs. cbn zeta. rewrite Z.shiftl_mul_pow2, (wrap_id 32) by (unfold in_u; lia).
  rewrite lor_add_disjoint by (unfold in_u; lia).
  change 0x007fffff with (Z.ones 23). rewrite Z.land_ones by lia.
  assert ((m + s * 2 ^ 24) mod 2 ^ 23 = m) as ->.
  { replace (s * 2 ^ 24) with (s * 2 * 2 ^ 23) by lia. rewrite Z.mod_add by lia. by apply Z.mod_small. }
  destruct negative; cbn [andb]; [|by rewrite Z.lor_0_r, Z.add_0_r].
  destruct (Z.eqb_spec m 0); cbn [negb]; [by rewrite Z.lor_0_r, Z.add_0_r|].
  change 0x00800000 with (Z.shiftl 1 23). apply lor_pow2_add; [lia|].
  rewrite testbit_div_mod by lia. apply negb_false_iff, Z.eqb_eq.
  replace (s * 2 ^ 24) with (s * 2 * 2 ^ 23) by lia.
  rewrite Z.div_add, Z.div_small, Z.add_0_l by lia. apply Z.mod_mul. lia.
Qed.

(** Neither [assert] of [get_compact] can fail, and its value is the packed window. *)
Lemma get_compact_spec a negative :
  wf256 a ->
  arith_uint256_get_compact a negative =
  Some (if val a =? 0 then 0
        else let s := (arith_uint256_bits a + 7) / 8 in
             compact_pack (compact_window (val a) s) s negative).
Proof.
  intros Ha. destruct (Z.eqb_spec (val a) 0) as [Ez|Ez].
  { assert (a = arith_uint256_set_zero) as ->; [|by destruct negative].
    apply wf256_inj; [done|apply set_zero_wf|]. by rewrite set_zero_val. }
  pose proof (byte_size_spec a Ha Ez) as [Hs Hn]. cbn zeta in *.
  unfold arith_uint256_get_compact. set (s := (arith_uint256_bits a + 7) / 8) in *.
  pose proof (compact_window_range (val a) s ltac:(lia) Hn) as Hw.
  assert ((if s <=? 3 then u32 (u64 (arith_uint256_get_low64 a << (8 * (3 - s))))
           else u32 (arith_uint256_get_low64 (arith_uint256_shr a (8 * (s - 3)))))
          = compact_window (val a) s) as ->.
  { unfold compact_window in *. destruct (Z.leb_spec s 3).
    - assert (val a < 2 ^ 24).
      { eapply Z.lt_le_trans; [apply Hn|]. apply Z.pow_le_mono_r; lia. }
      rewrite get_low64_spec, Z.mod_small, Z.shiftl_mul_pow2 by (done || lia).
      by rewrite (wrap_id 64), (wrap_id 32) by (unfold in_u; lia).
    - destruct (shr_spec a (8 * (s - 3)) Ha ltac:(lia)) as [W V].
      rewrite get_low64_spec, V, Z.mod_small, wrap_id; [done|unfold in_u; lia|lia|done]. }
  set (m := compact_window (val a) s) in *. unfold compact_pack.
  change 0x00800000 with (Z.shiftl 1 23) at 1. rewrite land_pow2_testbit, testbit_top by lia.
  change (u32 (Z.lnot 0x007fffff)) with (511 * 2 ^ 23).
  destruct (Z.leb_spec (2 ^ 23) m).
  - rewrite Z.shiftr_div_pow2 by lia. change (2 ^ 8) with 256.
    rewrite land_disjoint; [|lia|split; [apply Z.div_pos; lia|apply Z.div_lt_upper_bound; lia]].
    destruct (Z.ltb_spec (s + 1) 256) as [_|]; [cbn [negb Z.eqb]|lia].
    f_equal. apply compact_sign_bit; [zdm|lia].
  - rewrite land_disjoint by (unfold in_u; lia).
    destruct (Z.ltb_spec s 256) as [_|]; [cbn [negb Z.eqb]|lia].
    f_equal. apply compact_sign_bit; lia.
Qed.

(** The number a compact word stands for, before truncation to 256 bits. *)
Definition compact_value (c : Z) : Z :=
  let s := c / 2 ^ 24 in let m := c mod 2 ^ 23 in
  if s <=? 3 then m / 2 ^ (8 * (3 - s)) else m * 2 ^ (8 * (s - 3)).

Lemma compact_overflow_spec m s :
  0 <= m < 2 ^ 23 -> 3 < s ->
  negb (m =? 0) && ((34 <? s) || ((0xff <? m) && (33 <? s)) || ((0xffff <? m) && (32 <? s)))
  = (2 ^ 256 <=? m * 2 ^ (8 * (s - 3))).
Proof.
  intros Hm Hs. destruct (Z.le_gt_cases s 32).
  { assert (2 ^ (8 * (s - 3)) <= 2 ^ 232) by (apply Z.pow_le_mono_r; lia).
    bool_cases; try lia; nia. }
  destruct (Z.le_gt_cases 35 s).
  { assert (2 ^ 256 <= 2 ^ (8 * (s - 3))) by (apply Z.pow_le_mono_r; lia).
    bool_cases; try lia; nia. }
  assert (s = 33 \/ s = 34) as [->| ->] by lia; bool_cases; cbn [andb orb negb]; lia.
Qed.

(** [set_compact] decodes the word modulo [2^256] and its overflow flag is exact. *)
Lemma set_compact_spec c :
  in_u 32 c ->
  let '(a, negative, overflow) := arith_uint256_set_compact c in
  wf256 a /\ val a = compact_value c mod 2 ^ 256 /\
  overflow = (2 ^ 256 <=? compact_value c) /\
  negative = Z.testbit c 23 && negb (compact_value c =? 0).
Proof.
  intros Hc. unfold arith_uint256_set_compact, compact_value, in_u in *.
  rewrite Z.shiftr_div_pow2 by lia.
  change (c .& 0x007fffff) with (Z.land c (Z.ones 23)). rewrite Z.land_ones by lia.
  change 0x00800000 with (Z.shiftl 1 23). rewrite land_pow2_testbit by lia.
  set (s := c / 2 ^ 24). set (m := c mod 2 ^ 23).
  assert (0 <= s < 256) by (unfold s; split; [apply Z.div_pos|apply Z.div_lt_upper_bound]; lia).
  assert (0 <= m < 2 ^ 23) by (apply Z.mod_pos_bound; lia).
  destruct (Z.leb_spec s 3).
  - rewrite Z.shiftr_div_pow2 by lia. pose proof (pow2_pos (8 * (3 - s)) ltac:(lia)).
    assert (0 <= m / 2 ^ (8 * (3 - s)) < 2 ^ 23) as Hw.
    { split; [apply Z.div_pos; lia|]. apply Z.div_lt_upper_bound; nia. }
    split; [apply set_u64_wf|].
    split; [rewrite set_u64_val by (unfold in_u; lia); rewrite Z.mod_small; lia|].
    split; [|apply andb_comm].
    destruct (Z.leb_spec (2 ^ 256) (m / 2 ^ (8 * (3 - s)))); [lia|].
    rewrite (proj2 (Z.ltb_ge 34 s)), (proj2 (Z.ltb_ge 33 s)), (proj2 (Z.ltb_ge 32 s)) by lia.
    by rewrite !andb_false_r.
  - destruct (shl_spec (arith_uint256_set_u64 m) (8 * (s - 3)) ltac:(apply set_u64_wf) ltac:(lia)) as [W V].
    split; [done|]. rewrite V, set_u64_val by (unfold in_u; lia). split; [done|].
    split; [by apply compact_overflow_spec|]. rewrite andb_comm. f_equal. f_equal.
    pose proof (pow2_pos (8 * (s - 3)) ltac:(lia)). bool_cases; try done; nia.
Qed.

Lemma compact_fields m s :
  0 <= m < 2 ^ 23 -> (m + s * 2 ^ 24) / 2 ^ 24 = s /\ (m + s * 2 ^ 24) mod 2 ^ 23 = m /\
  Z.testbit (m + s * 2 ^ 24) 23 = false.
Proof.
  intros Hm. split; [rewrite Z.div_add, Z.div_small; lia|].
  replace (m + s * 2 ^ 24) with (m + s * 2 * 2 ^ 23) by lia. split.
  - rewrite Z.mod_add by lia. by apply Z.mod_small.
  - rewrite testbit_div_mod by lia. apply negb_false_iff, Z.eqb_eq.
    rewrite Z.div_add, Z.div_small, Z.add_0_l by lia. apply Z.mod_mul. lia.
Qed.

(** The decoded packing of a number is a truncation of it to its leading 16 bits or more. *)
Lemma compact_pack_value n s :
  1 <= s <= 32 -> 2 ^ (8 * (s - 1)) <= n < 2 ^ (8 * s) ->
  let c := compact_pack (compact_window n s) s false in
  in_u 32 c /\ Z.testbit c 23 = false /\ compact_value c <= n /\ (n - compact_value c) * 2 ^ 15 <= n.
Proof.
  intros Hs Hn. pose proof (compact_window_range n s ltac:(lia) Hn) as Hw.
  assert (forall k q, 0 <= k -> q = n / 2 ^ k -> 2 ^ 15 <= q -> q * 2 ^ k <= n /\ (n - q * 2 ^ k) * 2 ^ 15 <= n)
    as Hq.
  { intros k q Hk -> Hq. pose proof (pow2_pos k Hk) as Pk. split; [rewrite Z.mul_comm; by apply Z.mul_div_le|].
    pose proof (Z.mod_pos_bound n _ Pk). pose proof (Z.div_mod n (2 ^ k) ltac:(lia)). nia. }
  cbn zeta. unfold compact_pack. cbn [andb]. destruct (Z.leb_spec (2 ^ 23) (compact_window n s)) as [H23|H23].
  - set (m := compact_window n s / 256).
    assert (2 ^ 15 <= m < 2 ^ 16) as Hm.
    { unfold m. split; [apply Z.div_le_lower_bound|apply Z.div_lt_upper_bound]; lia. }
    rewrite Z.add_0_r. destruct (compact_fields m (s + 1) ltac:(lia)) as (F1 & F2 & F3).
    split; [unfold in_u; lia|]. split; [done|]. unfold compact_value. rewrite F1, F2.
    unfold m, compact_window in *. destruct (Z.leb_spec s 3), (Z.leb_spec (s + 1) 3); try lia.
    + replace (2 ^ (8 * (3 - s))) with (2 ^ (8 * (3 - (s + 1))) * 256)
        by (change 256 with (2 ^ 8); rewrite <- Z.pow_add_r by lia; f_equal; lia).
      rewrite Z.mul_assoc, !Z.div_mul by (try apply Z.pow_nonzero; lia).
      pose proof (pow2_pos (8 * (s - 1)) ltac:(lia)). lia.
    + assert (s = 3) as -> by lia. apply (Hq (8 * (3 + 1 - 3))); [lia| |lia].
      cbn. by rewrite Z.mul_1_r.
    + apply Hq; [lia| |lia]. rewrite Z.div_div by (try apply pow2_pos; lia).
      change 256 with (2 ^ 8). rewrite <- Z.pow_add_r by lia. do 2 f_equal. lia.
  - set (m := compact_window n s) in *.
    rewrite Z.add_0_r. destruct (compact_fields m s ltac:(lia)) as (F1 & F2 & F3).
    split; [unfold in_u; lia|]. split; [done|]. unfold compact_value. rewrite F1, F2.
    unfold m, compact_window in *. destruct (Z.leb_spec s 3).
    + rewrite Z.div_mul by (apply Z.pow_nonzero; lia). split; [lia|].
      rewrite Z.sub_diag. pose proof (pow2_pos (8 * (s - 1)) ltac:(lia)). lia.
    + apply Hq; [lia|done|lia].
Qed.

Lemma byte_size_unique n s t :
  1 <= s -> 1 <= t -> 2 ^ (8 * (s - 1)) <= n < 2 ^ (8 * s) -> 2 ^ (8 * (t - 1)) <= n < 2 ^ (8 * t) ->
  s = t.
Proof.
  intros Hs Ht [S1 S2] [T1 T2].
  assert (8 * (s - 1) < 8 * t) by (apply (Z.pow_lt_mono_r_iff 2); lia).
  assert (8 * (t - 1) < 8 * s) by (apply (Z.pow_lt_mono_r_iff 2); lia). lia.
Qed.

(** Packing undoes unpacking for a mantissa of at least two significant bytes. *)
Lemma compact_pack_canonical m s t :
  3 <= s -> 2 ^ 15 <= m < 2 ^ 23 -> 1 <= t ->
  let n := m * 2 ^ (8 * (s - 3)) in
  2 ^ (8 * (t - 1)) <= n < 2 ^ (8 * t) -> compact_pack (compact_window n t) t false = m + s * 2 ^ 24.
Proof.
  intros Hs Hm Ht n Hn. unfold n in *. pose proof (pow2_pos (8 * (s - 3)) ltac:(lia)) as P.
  destruct (Z.le_gt_cases (2 ^ 16) m) as [H16|H16].
  - assert (t = s) as ->.
    { apply (byte_size_unique (m * 2 ^ (8 * (s - 3)))); try lia.
      replace (8 * (s - 1)) with (16 + 8 * (s - 3)) by lia.
      replace (8 * s) with (24 + 8 * (s - 3)) by lia. rewrite !Z.pow_add_r by lia. nia. }
    assert (compact_window (m * 2 ^ (8 * (s - 3))) s = m) as ->.
    { unfold compact_window. destruct (Z.leb_spec s 3).
      - replace s with 3 by lia. cbn. lia.
      - apply Z.div_mul. lia. }
    unfold compact_pack. destruct (Z.leb_spec (2 ^ 23) m); [lia|]. cbn. lia.
  - assert (t = s - 1) as ->.
    { apply (byte_size_unique (m * 2 ^ (8 * (s - 3)))); try lia.
      replace (8 * (s - 1 - 1)) with (8 + 8 * (s - 3)) by lia.
      replace (8 * (s - 1)) with (16 + 8 * (s - 3)) by lia. rewrite !Z.pow_add_r by lia. nia. }
    assert (compact_window (m * 2 ^ (8 * (s - 3))) (s - 1) = m * 256) as ->.
    { unfold compact_window. destruct (Z.leb_spec (s - 1) 3).
      - rewrite <- Z.mul_assoc, <- Z.pow_add_r by lia. f_equal. change 256 with (2 ^ 8). f_equal. lia.
      - replace (8 * (s - 3)) with (8 + 8 * (s - 1 - 3)) by lia.
        rewrite Z.pow_add_r, Z.mul_assoc by lia. apply Z.div_mul, Z.pow_nonzero; lia. }
    unfold compact_pack. destruct (Z.leb_spec (2 ^ 23) (m * 256)); [|lia].
    rewrite Z.div_mul by lia. cbn. lia.
Qed.

(** *** Byte images *)

Lemma concat_limbs_val l :
  digits 32 l -> digits_val 8 (concat (map WriteLE32 l)) = digits_val 32 l.
Proof.
  induction 1 as [|d l [Hd1 Hd2] _ IH]; [done|]. cbn [map concat].
  rewrite digits_val_app, IH by lia. unfold WriteLE32 at 1.
  rewrite digits_val_of, Z.mod_small by (cbn; lia). unfold WriteLE32. by rewrite length_digits_of.
Qed.

Lemma concat_limbs_bytes l : bytes (concat (map WriteLE32 l)).
Proof.
  induction l as [|d l IH]; [constructor|]. apply digits_app; [apply digits_of_digits; lia|done].
Qed.

Lemma concat_limbs_length l : length (concat (map WriteLE32 l)) = (4 * length l)%nat.
Proof.
  induction l as [|d l IH]; [done|]. cbn [map concat length].
  rewrite length_app, IH. unfold WriteLE32. rewrite length_digits_of. lia.
Qed.

Lemma map_pn_seq a : map (pn a) (seq 0 (length a)) = a.
Proof.
  unfold pn. induction a as [|d a IH]; [done|]. cbn [length seq map nth]. f_equal.
  rewrite <- seq_shift, map_map. exact IH.
Qed.

Lemma arith_to_uint256_spec a :
  wf256 a -> wf_uint256 (arith_to_uint256 a) /\ digits_val 8 (arith_to_uint256 a) = val a.
Proof.
  intros [La Da]. assert (arith_to_uint256 a = concat (map WriteLE32 a)) as ->.
  { unfold arith_to_uint256. rewrite <- La, <- map_map. f_equal. by rewrite map_pn_seq. }
  split; [split; [by rewrite concat_limbs_length, La|apply concat_limbs_bytes]|].
  by apply concat_limbs_val.
Qed.

Lemma chunks_spec n u :
  length u = (n * 4)%nat -> bytes u ->
  let l := map (fun x => ReadLE32 (drop (x * 4) u)) (seq 0 n) in
  digits 32 l /\ digits_val 32 l = digits_val 8 u.
Proof.
  revert u. induction n as [|n IH]; intros u Hl Hb; cbn zeta.
  { destruct u; [split; [constructor|done]|done]. }
  cbn [seq map]. rewrite <- seq_shift, map_map.
  destruct (IH (drop 4 u)) as [D V]; [rewrite length_drop; lia|by apply digits_drop|].
  assert (map (fun x => ReadLE32 (drop (S x * 4) u)) (seq 0 n)
          = map (fun x => ReadLE32 (drop (x * 4) (drop 4 u))) (seq 0 n)) as ->.
  { apply map_ext. intros x. by rewrite drop_drop. }
  unfold ReadLE32 at 1. rewrite drop_0. cbn [Nat.mul].
  pose proof (digits_val_bound 8 (take 4 u) ltac:(lia) (digits_take _ _ _ Hb)) as B.
  rewrite length_take_le in B by lia. split.
  - constructor; [exact B|done].
  - cbn [digits_val]. rewrite V. rewrite <- (take_drop 4 u) at 3.
    by rewrite digits_val_app, length_take_le by lia.
Qed.

Lemma uint256_to_arith_spec u :
  wf_uint256 u -> wf256 (uint256_to_arith u) /\ val (uint256_to_arith u) = digits_val 8 u.
Proof.
  intros [Lu Du]. destruct (chunks_spec 8 u Lu Du) as [D V].
  split; [split; [|exact D]|exact V]. unfold uint256_to_arith. by rewrite length_map, length_seq.
Qed.

(** ** What the component promises *)

(** A unary (binary) routine computes the mathematical function [g]. *)
Definition refines1 (f : arith_uint256 -> arith_uint256) (g : Z -> Z) : Prop :=
  forall a, wf256 a -> wf256 (f a) /\ val (f a) = g (val a).
Definition refines2 (f : arith_uint256 -> arith_uint256 -> arith_uint256) (g : Z -> Z -> Z) : Prop :=
  forall a b, wf256 a -> wf256 b -> wf256 (f a b) /\ val (f a b) = g (val a) (val b).

(** C35: the limb-by-limb routines of [arith_uint256] compute arithmetic modulo
    [2^256] on well-formed operands: addition, subtraction, negation,
    schoolbook multiplication, multiplication by a 32-bit word, both shifts by
    any amount, and long division, which is the floor quotient (zero for a zero
    divisor); [compare] is the sign of the difference of the values. *)
Theorem arith_uint256_refines_Z :
  refines2 arith_uint256_add (fun x y => (x + y) mod 2 ^ 256) /\
  refines2 arith_uint256_sub (fun x y => (x - y) mod 2 ^ 256) /\
  refines1 arith_uint256_negate (fun x => (- x) mod 2 ^ 256) /\
  refines2 arith_uint256_mul (fun x y => (x * y) mod 2 ^ 256) /\
  (forall w, in_u 32 w -> refines1 (fun a => arith_uint256_mul_u32 a w) (fun x => (w * x) mod 2 ^ 256)) /\
  (forall k, 0 <= k -> refines1 (fun a => arith_uint256_shl a k) (fun x => (x * 2 ^ k) mod 2 ^ 256)) /\
  (forall k, 0 <= k -> refines1 (fun a => arith_uint256_shr a k) (fun x => x / 2 ^ k)) /\
  refines2 arith_uint256_div (fun x y => x / y) /\
  (forall a b, wf256 a -> wf256 b -> arith_uint256_compare a b = Z.sgn (val a - val b)).
Proof.
  split_and!; unfold refines1, refines2; intros;
    first [apply add_spec | apply sub_spec | apply negate_spec | apply mul_spec | apply mul_u32_spec
          | apply shl_spec | apply shr_spec | apply div_spec | apply compare_spec]; done.
Qed.

(** The word [get_compact] returns decodes to a truncation of the number. *)
Lemma get_compact_decode a :
  wf256 a ->
  exists c a',
    arith_uint256_get_compact a false = Some c /\ in_u 32 c /\
    arith_uint256_set_compact c = (a', false, false) /\ wf256 a' /\
    val a' <= val a /\ (val a - val a') * 2 ^ 15 <= val a.
Proof.
  intros Ha. rewrite get_compact_spec by done. destruct (Z.eqb_spec (val a) 0) as [Ez|Ez].
  { exists 0, arith_uint256_set_zero. rewrite Ez, set_zero_val.
    split; [done|]. split; [unfold in_u; lia|]. repeat split; try done. apply set_zero_wf. }
  destruct (byte_size_spec a Ha Ez) as [Hs Hn]. cbn zeta in *.
  destruct (compact_pack_value (val a) _ Hs Hn) as (C1 & C2 & C3 & C4). cbn zeta in *.
  set (c := compact_pack _ _ _) in *. pose proof (set_compact_spec c C1) as S.
  destruct (arith_uint256_set_compact c) as [[a' neg] ovf] eqn:Esc.
  destruct S as (W & V & O & N). pose proof (wf256_val_bound a Ha) as [A1 A2].
  rewrite C2 in N. cbn [andb] in N.
  assert (0 <= compact_value c) by (unfold in_u in C1; lia || nia).
  destruct (Z.leb_spec (2 ^ 256) (compact_value c)); [lia|].
  exists c, a'. rewrite Z.mod_small in V by lia. by rewrite Esc, V, O, N.
Qed.

(** [get_compact] is total (its two asserts never fire) and lossy only
    below the leading 15 bits: decoding the word it returns is neither negative
    nor an overflow, never exceeds the number, and is off by at most a
    [2^-15] part of it. *)
Theorem get_compact_truncates a :
  wf256 a ->
  exists c a',
    arith_uint256_get_compact a false = Some c /\ in_u 32 c /\
    arith_uint256_set_compact c = (a', false, false) /\ wf256 a' /\
    val a' <= val a /\ (val a - val a') * 2 ^ 15 <= val a.
Proof. apply get_compact_decode. Qed.

(** The header difficulty field round-trips: a word with a clear sign bit,
    exponent at least 3 and a mantissa that uses its upper two bytes decodes,
    when it fits 256 bits, to a target that [get_compact] encodes back to the
    same word. *)
Theorem compact_canonical_roundtrip c :
  in_u 32 c -> Z.testbit c 23 = false -> 3 <= c / 2 ^ 24 -> 2 ^ 15 <= c mod 2 ^ 23 ->
  compact_value c < 2 ^ 256 ->
  exists a, arith_uint256_set_compact c = (a, false, false) /\ val a = compact_value c /\
            arith_uint256_get_compact a false = Some c.
Proof.
  intros Hc Hb Hs Hm Hv. pose proof (set_compact_spec c Hc) as S.
  destruct (arith_uint256_set_compact c) as [[a neg] ovf]. destruct S as (W & V & O & N). rewrite Hb in N. cbn [andb] in N.
  assert (compact_value c = c mod 2 ^ 23 * 2 ^ (8 * (c / 2 ^ 24 - 3))) as Ev.
  { unfold compact_value. destruct (Z.leb_spec (c / 2 ^ 24) 3); [|done].
    replace (c / 2 ^ 24) with 3 by lia. cbn. by rewrite Z.div_1_r, Z.mul_1_r. }
  pose proof (pow2_pos (8 * (c / 2 ^ 24 - 3)) ltac:(lia)).
  assert (0 < compact_value c) by nia.
  destruct (Z.leb_spec (2 ^ 256) (compact_value c)); [lia|]. exists a. rewrite O, N.
  rewrite Z.mod_small in V by lia. split; [done|]. split; [done|].
  rewrite get_compact_spec by done. destruct (Z.eqb_spec (val a) 0); [lia|].
  destruct (byte_size_spec a W) as [Ht Hn]; [done|]. cbn zeta in *. rewrite V, Ev in *.
  rewrite (compact_pack_canonical (c mod 2 ^ 23) (c / 2 ^ 24)); [|done| |lia|done].
  - f_equal. rewrite testbit_div_mod in Hb by lia. apply negb_false_iff, Z.eqb_eq in Hb.
    pose proof (Z.div_div c (2 ^ 23) 2 ltac:(lia) ltac:(lia)). change (2 ^ 23 * 2) with (2 ^ 24) in *. zdm.
  - split; [done|]. apply Z.mod_pos_bound. lia.
Qed.

Lemma compact_canonical_roundtrip_witness :
  exists a, arith_uint256_set_compact 0x1d00ffff = (a, false, false) /\
            val a = compact_value 0x1d00ffff /\
            arith_uint256_get_compact a false = Some 0x1d00ffff.
Proof.
  apply (compact_canonical_roundtrip 0x1d00ffff);
    first [split; vm_compute; congruence | vm_compute; congruence].
Defined.

Lemma get_compact_truncates_witness :
  exists c a',
    arith_uint256_get_compact (arith_uint256_set_u64 0x123456789) false = Some c /\ in_u 32 c /\
    arith_uint256_set_compact c = (a', false, false) /\ wf256 a' /\
    val a' <= val (arith_uint256_set_u64 0x123456789) /\
    (val (arith_uint256_set_u64 0x123456789) - val a') * 2 ^ 15 <= val (arith_uint256_set_u64 0x123456789).
Proof. apply get_compact_truncates. apply set_u64_wf. Defined.

(** Conversion between limb and byte order: both directions preserve the
    little-endian value and are mutually inverse. *)
Theorem uint256_arith_roundtrip :
  (forall a, wf256 a ->
     wf_uint256 (arith_to_uint256 a) /\ digits_val 8 (arith_to_uint256 a) = val a /\
     uint256_to_arith (arith_to_uint256 a) = a) /\
  (forall u, wf_uint256 u ->
     wf256 (uint256_to_arith u) /\ val (uint256_to_arith u) = digits_val 8 u /\
     arith_to_uint256 (uint256_to_arith u) = u).
Proof.
  split; intros x Hx.
  - destruct (arith_to_uint256_spec x Hx) as [W V]. split; [done|]. split; [done|].
    destruct (uint256_to_arith_spec _ W) as [W' V']. apply wf256_inj; [done..|congruence].
  - destruct (uint256_to_arith_spec x Hx) as [W V]. split; [done|]. split; [done|].
    destruct (arith_to_uint256_spec _ W) as [[L D] V']. destruct Hx as [Lx Dx].
    apply (digits_val_inj 8); [lia|done|done|congruence|congruence].
Qed.
