(* ===== verification/Serialize.v ===== *)
(** * Byte streams and fixed-width codecs

    Model of [core/math/src/serialize.c], [core/math/include/core/serialize.h]
    and [platform/modules/base/include/base/serialize_le.h].

    A [struct byte_stream] is a record; its [data]/[size] pair is the list of
    the [size] initialised bytes. A writer returns the new stream and the C
    [bool]; a reader returns the new stream and the value stored through the
    out-pointer, [None] being [return false]. The allocator is a parameter. *)

From stdpp Require Import base tactics list numbers option.
From Stdlib Require Import ZArith Lia.
From S2P Require Import Prelude.

(** [zcl_malloc]/[zcl_realloc]: whether a request for that many bytes succeeds. *)
Class Allocator := alloc_ok : Z -> bool.

Record byte_stream := mk_stream {
  data : list Z;
  capacity : Z;
  read_pos : Z;
  error : bool;
  owns_data : bool;
}.

Definition size (s : byte_stream) : Z := Z.of_nat (length (data s)).

Definition set_error (s : byte_stream) : byte_stream :=
  mk_stream (data s) (capacity s) (read_pos s) true (owns_data s).
Definition set_capacity (s : byte_stream) (c : Z) : byte_stream :=
  mk_stream (data s) c (read_pos s) (error s) (owns_data s).
Definition append (s : byte_stream) (buf : list Z) : byte_stream :=
  mk_stream (data s ++ buf) (capacity s) (read_pos s) (error s) (owns_data s).
Definition advance (s : byte_stream) (n : Z) : byte_stream :=
  mk_stream (data s) (capacity s) (read_pos s + n) (error s) (owns_data s).

(** ** Reader and writer monads *)

Definition reader (A : Type) : Type := byte_stream -> byte_stream * option A.
Definition writer : Type := byte_stream -> byte_stream * bool.

Definition rret {A} (a : A) : reader A := fun s => (s, Some a).
Definition rfail {A} : reader A := fun s => (s, None).
(** [if (!m) return false; ...] *)
Definition rbind {A B} (m : reader A) (k : A -> reader B) : reader B := fun s =>
  match m s with
  | (s, Some a) => k a s
  | (s, None) => (s, None)
  end.
Definition wdone : writer := fun s => (s, true).
Definition wfail : writer := fun s => (s, false).
(** C's [&&], and [if (!m) return false; ...]. *)
Definition wseq (m k : writer) : writer := fun s =>
  match m s with
  | (s, true) => k s
  | (s, false) => (s, false)
  end.

Declare Scope stream_scope.
Delimit Scope stream_scope with stream.
Notation "'read' x '<-' m ';' k" := (rbind m (fun x => k))
  (at level 10, x name, m at level 100, k at level 200) : stream_scope.
Notation "m '&&w' k" := (wseq m k) (at level 60, right associativity) : stream_scope.
#[global] Open Scope stream_scope.

(** ** The stream *)

Section Stream.
Context `{Allocator}.

Definition stream_init (initial_capacity : Z) : byte_stream :=
  if 0 <? initial_capacity then
    if alloc_ok initial_capacity then mk_stream [] initial_capacity 0 false true
    else mk_stream [] 0 0 true true
  else mk_stream [] 0 0 false true.

Definition stream_init_from_data (d : list Z) : byte_stream :=
  mk_stream d (Z.of_nat (length d)) 0 false false.

Definition stream_free (s : byte_stream) : byte_stream :=
  mk_stream [] 0 0 (error s) (owns_data s).

(** [while (new_cap < target)]; 64 doublings reach any 64-bit target. *)
Fixpoint grow_loop (fuel : nat) (new_cap target : Z) : Z :=
  match fuel with
  | O => new_cap
  | S fuel =>
      if new_cap <? target then
        if SIZE_MAX / 2 <? new_cap then target
        else grow_loop fuel (u64 (new_cap * 2)) target
      else new_cap
  end.

Definition stream_grow (needed : Z) : writer := fun s =>
  if negb (owns_data s) then (set_error s, false)
  else if SIZE_MAX - size s <? needed then (set_error s, false)
  else
    let target := size s + needed in
    let new_cap := grow_loop 64 (if capacity s =? 0 then 64 else capacity s) target in
    if alloc_ok new_cap then (set_capacity s new_cap, true) else (set_error s, false).

Definition stream_write (buf : list Z) : writer := fun s =>
  let len := Z.of_nat (length buf) in
  if error s then (s, false)
  else if capacity s <? u64 (size s + len) then
    match stream_grow len s with
    | (s, true) => (append s buf, true)
    | (s, false) => (s, false)
    end
  else (append s buf, true).

Definition stream_read (len : Z) : reader (list Z) := fun s =>
  if error s || (size s <? read_pos s) || (size s - read_pos s <? len) then (set_error s, None)
  else (advance s len, Some (take (Z.to_nat len) (drop (Z.to_nat (read_pos s)) (data s)))).

Definition stream_remaining (s : byte_stream) : Z :=
  if size s <=? read_pos s then 0 else size s - read_pos s.

Definition stream_write_u8 (v : Z) : writer := stream_write [v].
Definition stream_write_u16_le (v : Z) : writer := stream_write [v .& 0xff; u8 (v >> 8)].
Definition stream_write_u32_le (v : Z) : writer :=
  stream_write [u8 v; u8 (v >> 8); u8 (v >> 16); u8 (v >> 24)].
Definition stream_write_u64_le (v : Z) : writer :=
  stream_write (map (fun i => u8 (v >> (8 * Z.of_nat i))) (seq 0 8)).
Definition stream_write_i32_le (v : Z) : writer := stream_write_u32_le (u32 v).
Definition stream_write_i64_le (v : Z) : writer := stream_write_u64_le (u64 v).

(** [buf[i]] of a local buffer just filled by [stream_read]. *)
Definition at_ (buf : list Z) (i : nat) : Z := nth i buf 0.

Definition stream_read_u8 : reader Z := read buf <- stream_read 1; rret (at_ buf 0).
Definition stream_read_u16_le : reader Z :=
  read buf <- stream_read 2; rret (at_ buf 0 .| u16 (at_ buf 1 << 8)).
Definition stream_read_u32_le : reader Z :=
  read buf <- stream_read 4;
  rret (at_ buf 0 .| u32 (at_ buf 1 << 8) .| u32 (at_ buf 2 << 16) .| u32 (at_ buf 3 << 24)).
Definition stream_read_u64_le : reader Z :=
  read buf <- stream_read 8;
  rret (fold_left (fun v i => v .| u64 (at_ buf i << (8 * Z.of_nat i))) (seq 0 8) 0).
Definition stream_read_i32_le : reader Z := read tmp <- stream_read_u32_le; rret (i32 tmp).
Definition stream_read_i64_le : reader Z := read tmp <- stream_read_u64_le; rret (i64 tmp).

Definition stream_write_compact_size (n : Z) : writer :=
  if n <? 253 then stream_write_u8 (u8 n)
  else if n <=? 0xffff then stream_write_u8 253 &&w stream_write_u16_le (u16 n)
  else if n <=? 0xffffffff then stream_write_u8 254 &&w stream_write_u32_le (u32 n)
  else stream_write_u8 255 &&w stream_write_u64_le n.

Definition stream_read_compact_size : reader Z :=
  read marker <- stream_read_u8;
  if marker <? 253 then rret marker
  else if marker =? 253 then stream_read_u16_le
  else if marker =? 254 then stream_read_u32_le
  else stream_read_u64_le.

Definition compact_size_sizeof (n : Z) : Z :=
  if n <? 253 then 1 else if n <=? 0xffff then 3 else if n <=? 0xffffffff then 5 else 9.

(** The array [tmp], last element first, i.e. in the order it is written out.
    [room] is what is left of its 10 bytes; [None] is a store past its end. *)
Fixpoint varint_tmp (room : nat) (n : Z) (tmp : list Z) : option (list Z) :=
  match room with
  | O => None
  | S room =>
      let tmp' := ((n .& 0x7f) .| (match tmp with [] => 0 | _ => 0x80 end)) :: tmp in
      if n <=? 0x7f then Some tmp' else varint_tmp room (u64 ((n >> 7) - 1)) tmp'
  end.

Fixpoint write_each (l : list Z) : writer :=
  match l with
  | [] => wdone
  | b :: l => stream_write_u8 b &&w write_each l
  end.

(** [None] only if the local buffer overflows. *)
Definition stream_write_varint (n : Z) (s : byte_stream) : option (byte_stream * bool) :=
  match varint_tmp 10 n [] with
  | None => None
  | Some tmp => Some (write_each tmp s)
  end.

Fixpoint read_varint_loop (fuel : nat) (n : Z) : reader Z :=
  match fuel with
  | O => rfail
  | S fuel =>
      read ch <- stream_read_u8;
      let n := u64 (n << 7) .| (ch .& 0x7f) in
      if negb (ch .& 0x80 =? 0) then read_varint_loop fuel (u64 (n + 1)) else rret n
  end.

(** Every turn consumes a byte, so one more turn than there are bytes is enough. *)
Definition stream_read_varint : reader Z := fun s =>
  read_varint_loop (S (Z.to_nat (stream_remaining s))) 0 s.

Definition stream_write_bytes (d : list Z) : writer := stream_write d.
Definition stream_read_bytes (len : Z) : reader (list Z) := stream_read len.

End Stream.

(** ** Contracts

    What a writer and a reader promise about the wire format; the codecs below,
    and the transaction and block codecs, are proved against these. *)

Definition stream_wf (s : byte_stream) : Prop :=
  bytes (data s) /\ 0 <= read_pos s <= size s /\ size s <= capacity s < 2 ^ 64.

Definition unread (s : byte_stream) : list Z := drop (Z.to_nat (read_pos s)) (data s).

(** [s'] is [s] with [enc] appended, possibly in a larger buffer. *)
Definition appended (s : byte_stream) (enc : list Z) (s' : byte_stream) : Prop :=
  stream_wf s' /\ data s' = data s ++ enc /\ read_pos s' = read_pos s /\
  error s' = error s /\ owns_data s' = owns_data s.

(** [w] writes exactly [enc]; on failure it has written a prefix and set the
    sticky error; it fails only for want of memory or of ownership. The bound
    says that the stream and the data to append fit the address space. *)
Definition writes `{Allocator} (w : writer) (enc : list Z) : Prop :=
  forall s, stream_wf s -> size s + Z.of_nat (length enc) < 2 ^ 64 ->
  (let '(s', ok) := w s in
   if ok then appended s enc s'
   else error s' = true /\ exists k, appended (set_error s) (take k enc) s') /\
  (owns_data s = true -> error s = false -> (forall n, alloc_ok n = true) -> snd (w s) = true).

(** [m] decodes [v] from any stream that continues with [enc], consuming it. *)
Definition reads {A} (m : reader A) (enc : list Z) (v : A) : Prop :=
  forall s rest, stream_wf s -> error s = false -> unread s = enc ++ rest ->
  m s = (advance s (Z.of_nat (length enc)), Some v).

(** [m] leaves the bytes alone and never moves its position out of the data. *)
Definition reader_safe {A} (m : reader A) : Prop :=
  forall s, stream_wf s ->
  stream_wf (fst (m s)) /\ data (fst (m s)) = data s /\ read_pos s <= read_pos (fst (m s)).

Lemma appended_nil s : stream_wf s -> appended s [] s.
Proof. intros. unfold appended. by rewrite app_nil_r. Qed.

Lemma appended_trans s e1 s1 e2 s2 :
  appended s e1 s1 -> appended s1 e2 s2 -> appended s (e1 ++ e2) s2.
Proof.
  intros (_ & D1 & R1 & E1 & O1) (W2 & D2 & R2 & E2 & O2).
  unfold appended. rewrite D2, D1, <- app_assoc. split_and!; try congruence; done.
Qed.

Lemma appended_size s e s' : appended s e s' -> size s' = size s + Z.of_nat (length e).
Proof. intros (_ & D & _). unfold size. rewrite D, length_app. lia. Qed.

Lemma grow_loop_spec fuel c t :
  0 < c -> c < 2 ^ 64 -> 0 <= t < 2 ^ 64 -> t <= c * 2 ^ Z.of_nat fuel ->
  t <= grow_loop fuel c t /\ c <= grow_loop fuel c t < 2 ^ 64.
Proof.
  revert c. induction fuel as [|fuel IH]; intros c Hc Hc2 Ht Hf; cbn [grow_loop].
  { cbn in Hf. lia. }
  destruct (Z.ltb_spec c t); [|lia].
  change (SIZE_MAX / 2) with (2 ^ 63 - 1).
  destruct (Z.ltb_spec (2 ^ 63 - 1) c); [lia|].
  rewrite Nat2Z.inj_succ, Z.pow_succ_r in Hf by lia.
  rewrite wrap_id by (unfold in_u; lia).
  destruct (IH (c * 2) ltac:(lia) ltac:(lia) Ht ltac:(lia)) as [I1 I2]. lia.
Qed.

Section StreamLemmas.
Context `{Allocator}.

Lemma stream_grow_spec n s :
  stream_wf s -> 0 <= n -> size s + n < 2 ^ 64 ->
  (let '(s', ok) := stream_grow n s in
   if ok then size s + n <= capacity s' /\ appended s [] s'
   else s' = set_error s) /\
  (owns_data s = true -> (forall k, alloc_ok k = true) -> snd (stream_grow n s) = true).
Proof.
  intros (Hb & Hr & Hc) Hn Hf. unfold stream_grow. cbn zeta.
  destruct (owns_data s) eqn:Eo; cbn [negb]; [|done].
  assert (0 <= size s) by (unfold size; lia).
  destruct (Z.ltb_spec (SIZE_MAX - size s) n); [unfold SIZE_MAX in *; lia|].
  set (c0 := if capacity s =? 0 then 64 else capacity s).
  assert (0 < c0 < 2 ^ 64) by (subst c0; destruct (Z.eqb_spec (capacity s) 0); lia).
  destruct (grow_loop_spec 64 c0 (size s + n)) as [G1 G2]; [lia..| |].
  { change (Z.of_nat 64) with 64. nia. }
  destruct (alloc_ok (grow_loop 64 c0 (size s + n))) eqn:Ea.
  - split; [|done]. split; [done|].
    set (c := grow_loop _ _ _) in *. clearbody c. unfold appended, stream_wf, size in *. cbn.
    rewrite app_nil_r. split_and!; try done; lia.
  - split; [done|]. intros _ Hok. by rewrite Hok in Ea.
Qed.

Lemma append_appended s buf :
  stream_wf s -> bytes buf -> size s + Z.of_nat (length buf) <= capacity s ->
  appended s buf (append s buf).
Proof.
  intros (Hb & Hr & Hc) Hbuf Hf. unfold appended, stream_wf, size in *. cbn.
  rewrite length_app, Nat2Z.inj_add. split_and!; try done; try lia. by apply digits_app.
Qed.

(** Every write primitive goes through [stream_write]. *)
Lemma stream_write_writes buf : bytes buf -> writes (stream_write buf) buf.
Proof.
  intros Hb s Hwf Hf. pose proof Hwf as (Hd & Hr & Hc). unfold stream_write. cbn zeta.
  assert (error s = true -> appended (set_error s) (take 0 buf) s).
  { intros E. rewrite take_0. unfold appended, set_error. rewrite app_nil_r. cbn. by rewrite E. }
  destruct (error s) eqn:Ee; [split; [split; [done|]; exists 0%nat; auto|done]|].
  rewrite wrap_id by (unfold in_u, size in *; lia).
  destruct (Z.ltb_spec (capacity s) (size s + Z.of_nat (length buf))).
  - destruct (stream_grow_spec (Z.of_nat (length buf)) s Hwf ltac:(lia) Hf) as [G1 G2].
    destruct (stream_grow _ s) as [s' []]; split.
    + destruct G1 as [G1 G3]. rewrite <- (app_nil_l buf). eapply appended_trans; [exact G3|].
      apply append_appended; [apply G3|done|]. rewrite (appended_size _ _ _ G3). cbn. lia.
    + done.
    + subst s'. split; [done|]. exists 0%nat. rewrite take_0. by apply appended_nil.
    + intros. cbn in *. auto.
  - split; [|done]. by apply append_appended.
Qed.

Lemma writes_done : writes wdone [].
Proof. intros s Hs Hf. split; [by apply appended_nil|done]. Qed.

Lemma writes_seq w1 w2 e1 e2 : writes w1 e1 -> writes w2 e2 -> writes (w1 &&w w2) (e1 ++ e2).
Proof.
  intros H1 H2 s Hs Hf. rewrite length_app, Nat2Z.inj_add in Hf. unfold wseq.
  destruct (H1 s Hs ltac:(lia)) as [W1 S1]. destruct (w1 s) as [s1 []] eqn:E1; cbn in S1.
  - pose proof (appended_size _ _ _ W1) as Hsz.
    destruct (H2 s1 (proj1 W1) ltac:(lia)) as [W2 S2]. pose proof W1 as (_ & D1 & R1 & Er1 & O1). split.
    + destruct (w2 s1) as [s2 []]; [by eapply appended_trans|].
      destruct W2 as [E2 [k Hk]]. split; [done|]. exists (length e1 + k)%nat.
      rewrite take_app_add. eapply appended_trans; [|exact Hk].
      destruct W1 as (? & ? & ? & ? & ?). done.
    + intros. apply S2; congruence || done.
  - split; [|done]. destruct W1 as [Er [k Hk]]. split; [done|]. exists (k `min` length e1)%nat.
    rewrite take_app_le by lia. by rewrite <- take_take, (take_ge e1 (length e1)) by lia.
Qed.

End StreamLemmas.

(** *** Readers *)

Lemma advance_0 s : advance s 0 = s.
Proof. destruct s. unfold advance. cbn. f_equal. lia. Qed.

Lemma advance_advance s m n : advance (advance s m) n = advance s (m + n).
Proof. unfold advance. cbn. f_equal. lia. Qed.

Lemma unread_advance s e rest :
  stream_wf s -> unread s = e ++ rest ->
  stream_wf (advance s (Z.of_nat (length e))) /\ unread (advance s (Z.of_nat (length e))) = rest.
Proof.
  intros (Hb & Hr & Hc) Hu. unfold unread in *.
  assert (length e <= length (data s) - Z.to_nat (read_pos s))%nat.
  { rewrite <- length_drop, Hu, length_app. lia. }
  split.
  - unfold stream_wf, size in *. cbn. split_and!; try done; lia.
  - cbn. rewrite Z2Nat.inj_add, Nat2Z.id, <- drop_drop, Hu by lia. apply drop_app_length.
Qed.

Lemma reads_ret {A} (v : A) : reads (rret v) [] v.
Proof. intros s rest _ _ _. cbn. by rewrite advance_0. Qed.

Lemma reads_bind {A B} (m : reader A) (k : A -> reader B) e1 e2 a b :
  reads m e1 a -> reads (k a) e2 b -> reads (read x <- m; k x) (e1 ++ e2) b.
Proof.
  intros H1 H2 s rest Hwf He Hu. rewrite <- app_assoc in Hu. unfold rbind.
  rewrite (H1 s _ Hwf He Hu). destruct (unread_advance s _ _ Hwf Hu) as [W U].
  rewrite (H2 _ _ W He U), advance_advance, length_app. do 2 f_equal. lia.
Qed.

(** A reader followed by a pure function of its result. *)
Lemma reads_map {A B} (m : reader A) (f : A -> B) e a b :
  reads m e a -> f a = b -> reads (read x <- m; rret (f x)) e b.
Proof. intros H <-. rewrite <- (app_nil_r e). eapply reads_bind; [exact H|apply reads_ret]. Qed.

Lemma reads_stream_read n buf : n = Z.of_nat (length buf) -> reads (stream_read n) buf buf.
Proof.
  intros -> s rest (Hb & Hr & Hc) He Hu. unfold stream_read. rewrite He. cbn [orb].
  unfold unread in Hu.
  assert (length buf <= length (data s) - Z.to_nat (read_pos s))%nat.
  { rewrite <- length_drop, Hu, length_app. lia. }
  unfold size in *. destruct (Z.ltb_spec (Z.of_nat (length (data s))) (read_pos s)); [lia|].
  destruct (Z.ltb_spec (Z.of_nat (length (data s)) - read_pos s) (Z.of_nat (length buf))); [lia|].
  cbn [orb]. do 2 f_equal. rewrite Hu, Nat2Z.id. apply take_app_length.
Qed.

Lemma reader_safe_ret {A} (v : A) : reader_safe (rret v).
Proof. intros s Hs. cbn. split_and!; done || lia || apply Hs. Qed.

Lemma reader_safe_fail {A} : reader_safe (@rfail A).
Proof. intros s Hs. cbn. split_and!; done || lia || apply Hs. Qed.

Lemma reader_safe_bind {A B} (m : reader A) (k : A -> reader B) :
  reader_safe m -> (forall a, reader_safe (k a)) -> reader_safe (rbind m k).
Proof.
  intros H1 H2 s Hs. unfold rbind. destruct (H1 s Hs) as (W & D & R).
  destruct (m s) as [s' [a|]]; cbn in *; [|done].
  destruct (H2 a s' W) as (W' & D' & R'). split; [done|]. split; [congruence|lia].
Qed.

Lemma reader_safe_stream_read n : 0 <= n -> reader_safe (stream_read n).
Proof.
  intros Hn s Hs. pose proof Hs as (Hb & Hr & Hc). unfold stream_read.
  destruct (error s); cbn [orb]; [cbn; split_and!; done || lia|].
  destruct (Z.ltb_spec (size s) (read_pos s)); cbn [orb]; [cbn; split_and!; done || lia|].
  destruct (Z.ltb_spec (size s - read_pos s) n); cbn; [split_and!; done || lia|].
  unfold stream_wf, size in *. cbn. split_and!; done || lia.
Qed.

#[export] Hint Resolve reader_safe_ret reader_safe_fail reader_safe_bind reader_safe_stream_read : zcl.

(** *** Little-endian integers *)

Lemma le2 v : [v .& 0xff; u8 (v >> 8)] = digits_of 8 2 v.
Proof.
  cbn [digits_of]. unfold wrap. change 0xff with (Z.ones 8).
  by rewrite Z.land_ones, Z.shiftr_div_pow2 by lia.
Qed.

Lemma digits_of_shiftr n v :
  map (fun i => u8 (v >> (8 * Z.of_nat i))) (seq 0 n) = digits_of 8 n v.
Proof.
  revert v. induction n as [|n IH]; intros v; [done|]. cbn [seq map digits_of].
  f_equal.
  rewrite <- seq_shift, map_map, <- IH. apply map_ext. intros i.
  rewrite <- Z.shiftr_div_pow2, Z.shiftr_shiftr by lia. do 2 f_equal. lia.
Qed.

Lemma le4 v : [u8 v; u8 (v >> 8); u8 (v >> 16); u8 (v >> 24)] = digits_of 8 4 v.
Proof. rewrite <- digits_of_shiftr. cbn [seq map]. by rewrite Z.shiftr_0_r. Qed.

Lemma decode2 a b : in_u 8 a -> in_u 8 b -> a .| u16 (b << 8) = digits_val 8 [a; b].
Proof.
  intros Ha Hb. rewrite wrap_id by (unfold in_u in *; rewrite Z.shiftl_mul_pow2; lia).
  rewrite (proj1 (merge_byte a b 8 ltac:(lia) Ha Hb)). cbn. lia.
Qed.

Lemma decode4 a b c d :
  in_u 8 a -> in_u 8 b -> in_u 8 c -> in_u 8 d ->
  a .| u32 (b << 8) .| u32 (c << 16) .| u32 (d << 24) = digits_val 8 [a; b; c; d].
Proof.
  intros Ha Hb Hc Hd. rewrite !wrap_id by (unfold in_u in *; rewrite Z.shiftl_mul_pow2; lia).
  destruct (merge_byte a b 8 ltac:(lia) Ha Hb) as [-> R1].
  destruct (merge_byte _ c 16 ltac:(lia) R1 Hc) as [-> R2].
  destruct (merge_byte _ d 24 ltac:(lia) R2 Hd) as [-> _]. cbn. lia.
Qed.

Lemma reads_u8 v : in_u 8 v -> reads stream_read_u8 [v] v.
Proof. intros. by eapply reads_map; [apply reads_stream_read|]. Qed.

Lemma digits_of_in_u w n v : 0 <= w -> in_u (w * Z.of_nat n) v -> digits_val w (digits_of w n v) = v.
Proof. intros Hw Hv. rewrite digits_val_of by done. by apply Z.mod_small. Qed.

Lemma reads_u16 v : in_u 16 v -> reads stream_read_u16_le (digits_of 8 2 v) v.
Proof.
  intros Hv. eapply reads_map; [by apply reads_stream_read|]. cbn [digits_of at_ nth].
  rewrite decode2 by (apply Z.mod_pos_bound; lia). by apply (digits_of_in_u 8 2).
Qed.

Lemma reads_u32 v : in_u 32 v -> reads stream_read_u32_le (digits_of 8 4 v) v.
Proof.
  intros Hv. eapply reads_map; [by apply reads_stream_read|]. cbn [digits_of at_ nth].
  rewrite decode4 by (apply Z.mod_pos_bound; lia). by apply (digits_of_in_u 8 4).
Qed.

Lemma reads_u64 v : in_u 64 v -> reads stream_read_u64_le (digits_of 8 8 v) v.
Proof.
  intros Hv. eapply reads_map; [by apply reads_stream_read|].
  unfold at_. rewrite fold_bytes_val by (try apply digits_of_digits; done || lia).
  by apply (digits_of_in_u 8 8).
Qed.

Lemma reads_i32 v : in_s 32 v -> reads stream_read_i32_le (digits_of 8 4 (u32 v)) v.
Proof.
  intros Hv. eapply reads_map; [apply reads_u32, wrap_range; lia|]. by apply swrap_wrap.
Qed.

Lemma reads_i64 v : in_s 64 v -> reads stream_read_i64_le (digits_of 8 8 (u64 v)) v.
Proof.
  intros Hv. eapply reads_map; [apply reads_u64, wrap_range; lia|]. by apply swrap_wrap.
Qed.

Section Writers.
Context `{Allocator}.

Lemma writes_u8 v : in_u 8 v -> writes (stream_write_u8 v) [v].
Proof. intros. apply stream_write_writes. by constructor. Qed.
Lemma writes_u16 v : writes (stream_write_u16_le v) (digits_of 8 2 v).
Proof. unfold stream_write_u16_le. rewrite le2. apply stream_write_writes, digits_of_digits. lia. Qed.
Lemma writes_u32 v : writes (stream_write_u32_le v) (digits_of 8 4 v).
Proof. unfold stream_write_u32_le. rewrite le4. apply stream_write_writes, digits_of_digits. lia. Qed.
Lemma writes_u64 v : writes (stream_write_u64_le v) (digits_of 8 8 v).
Proof. unfold stream_write_u64_le. rewrite digits_of_shiftr. apply stream_write_writes, digits_of_digits. lia. Qed.
Lemma writes_i32 v : writes (stream_write_i32_le v) (digits_of 8 4 (u32 v)).
Proof. apply writes_u32. Qed.
Lemma writes_i64 v : writes (stream_write_i64_le v) (digits_of 8 8 (u64 v)).
Proof. apply writes_u64. Qed.

End Writers.

(** *** CompactSize *)

Definition compact_size_enc (n : Z) : list Z :=
  if n <? 253 then [n]
  else if n <=? 0xffff then 253 :: digits_of 8 2 n
  else if n <=? 0xffffffff then 254 :: digits_of 8 4 n
  else 255 :: digits_of 8 8 n.

Lemma writes_compact_size `{Allocator} n :
  in_u 64 n -> writes (stream_write_compact_size n) (compact_size_enc n).
Proof.
  intros [H1 H2]. unfold stream_write_compact_size, compact_size_enc.
  destruct (Z.ltb_spec n 253).
  { rewrite wrap_id by (unfold in_u; lia). apply writes_u8. unfold in_u; lia. }
  destruct (Z.leb_spec n 0xffff).
  { rewrite wrap_id by (unfold in_u; lia). apply (writes_seq _ _ [253]); [apply writes_u8; by unfold in_u|apply writes_u16]. }
  destruct (Z.leb_spec n 0xffffffff).
  { rewrite wrap_id by (unfold in_u; lia). apply (writes_seq _ _ [254]); [apply writes_u8; by unfold in_u|apply writes_u32]. }
  apply (writes_seq _ _ [255]); [apply writes_u8; by unfold in_u|apply writes_u64].
Qed.

Lemma reads_compact_size n : in_u 64 n -> reads stream_read_compact_size (compact_size_enc n) n.
Proof.
  intros [H1 H2]. unfold stream_read_compact_size, compact_size_enc.
  assert (forall m e v, in_u 8 m -> reads (if m <? 253 then rret m
    else if m =? 253 then stream_read_u16_le else if m =? 254 then stream_read_u32_le else stream_read_u64_le) e v ->
    reads (read marker <- stream_read_u8; if marker <? 253 then rret marker
    else if marker =? 253 then stream_read_u16_le else if marker =? 254 then stream_read_u32_le else stream_read_u64_le) (m :: e) v) as G.
  { intros m e v Hm Hr. apply (reads_bind _ _ [m] e m); [by apply reads_u8|done]. }
  destruct (Z.ltb_spec n 253).
  { apply G; [unfold in_u; lia|]. destruct (Z.ltb_spec n 253); [|lia]. apply reads_ret. }
  destruct (Z.leb_spec n 0xffff); [apply G; [done|]; apply reads_u16; unfold in_u; lia|].
  destruct (Z.leb_spec n 0xffffffff); [apply G; [done|]; apply reads_u32; unfold in_u; lia|].
  apply G; [done|]. by apply reads_u64.
Qed.

Lemma compact_size_enc_length n : Z.of_nat (length (compact_size_enc n)) = compact_size_sizeof n.
Proof. unfold compact_size_enc, compact_size_sizeof. bool_cases; done. Qed.

(** *** VarInt *)

(** The leading bytes of a varint, all with the continuation bit. *)
Fixpoint varint_cont (fuel : nat) (n : Z) : list Z :=
  match fuel with
  | O => []
  | S fuel => (if n <=? 0x7f then [] else varint_cont fuel (n / 128 - 1)) ++ [n mod 128 + 128]
  end.

Definition varint_enc (n : Z) : list Z :=
  (if n <=? 0x7f then [] else varint_cont 9 (n / 128 - 1)) ++ [n mod 128].

Lemma land_7f n : n .& 0x7f = n mod 128.
Proof. change 0x7f with (Z.ones 7). by rewrite Z.land_ones by lia. Qed.

Lemma lor_80 x : 0 <= x < 128 -> x .| 0x80 = x + 128.
Proof. intros. apply (lor_add_disjoint x 1 7); [lia|done]. Qed.

Lemma land_80 x : 0 <= x < 256 -> negb (x .& 0x80 =? 0) = (128 <=? x).
Proof. intros. change 0x80 with (Z.shiftl 1 7) at 1. by rewrite land_pow2_testbit, testbit_top by lia. Qed.

Lemma lor_base128 a b : 0 <= b < 128 -> a * 128 .| b = a * 128 + b.
Proof. intros. rewrite Z.lor_comm, Z.add_comm. apply (lor_add_disjoint b a 7); [lia|done]. Qed.

Lemma varint_tmp_cont fuel n t tmp :
  in_u 64 n -> (0 < fuel)%nat -> n < 2 ^ (7 * Z.of_nat fuel) ->
  varint_tmp fuel n (t :: tmp) = Some (varint_cont fuel n ++ t :: tmp).
Proof.
  revert n t tmp. induction fuel as [|fuel IH]; intros n t tmp [H1 H2] Hp Hf; [lia|].
  cbn [varint_tmp varint_cont]. rewrite land_7f.
  assert (0 <= n mod 128 < 128) by (apply Z.mod_pos_bound; lia).
  rewrite lor_80 by done. destruct (Z.leb_spec n 0x7f); [done|].
  rewrite Z.shiftr_div_pow2 by lia. change (2 ^ 7) with 128.
  assert (0 <= n / 128 - 1 /\ n / 128 < n) by zdm.
  rewrite wrap_id by (unfold in_u; lia).
  rewrite Nat2Z.inj_succ, Z.mul_succ_r, Z.pow_add_r in Hf by lia. change (2 ^ 7) with 128 in Hf.
  assert (n / 128 < 2 ^ (7 * Z.of_nat fuel)) by (apply Z.div_lt_upper_bound; lia).
  assert (0 < fuel)%nat by (destruct fuel; [change (2 ^ (7 * Z.of_nat 0)) with 1 in *; zdm|lia]).
  rewrite IH by (unfold in_u; lia). by rewrite <- app_assoc.
Qed.

Lemma varint_tmp_spec n : in_u 64 n -> varint_tmp 10 n [] = Some (varint_enc n).
Proof.
  intros [H1 H2]. unfold varint_enc. remember 9%nat as k eqn:Ek. cbn [varint_tmp].
  rewrite land_7f, Z.lor_0_r. destruct (Z.leb_spec n 0x7f); [done|].
  rewrite Z.shiftr_div_pow2 by lia. change (2 ^ 7) with 128.
  assert (0 <= n / 128 - 1 /\ n / 128 < n) by zdm.
  rewrite wrap_id by (unfold in_u; lia). subst k. apply varint_tmp_cont; [unfold in_u; lia|lia|].
  apply (Z.lt_le_trans _ (n / 128)); [lia|]. transitivity (2 ^ 64 / 128); [apply Z.div_le_mono; lia|].
  by vm_compute.
Qed.

Lemma varint_cont_bytes fuel n : 0 <= n -> bytes (varint_cont fuel n).
Proof.
  revert n. induction fuel as [|fuel IH]; intros n Hn; [constructor|]. cbn [varint_cont].
  apply digits_app.
  - destruct (Z.leb_spec n 0x7f); [constructor|apply IH; zdm].
  - constructor; [|constructor]. pose proof (Z.mod_pos_bound n 128 ltac:(lia)). unfold in_u. change (2 ^ 8) with 256. lia.
Qed.

Lemma varint_enc_bytes n : 0 <= n -> bytes (varint_enc n).
Proof.
  intros Hn. unfold varint_enc. apply digits_app.
  - destruct (Z.leb_spec n 0x7f); [constructor|apply varint_cont_bytes; zdm].
  - constructor; [|constructor]. pose proof (Z.mod_pos_bound n 128 ltac:(lia)). unfold in_u. change (2 ^ 8) with 256. lia.
Qed.

(** One byte with its continuation bit, read at accumulator [a]. *)
Lemma read_varint_step fuel a b s rest :
  stream_wf s -> error s = false -> 0 <= b < 128 -> 0 <= a -> a * 128 + b < 2 ^ 64 ->
  (a * 128 + b + 1 < 2 ^ 64 -> unread s = (b + 128) :: rest ->
   read_varint_loop (S fuel) a s = read_varint_loop fuel (a * 128 + b + 1) (advance s 1)) /\
  (unread s = b :: rest ->
   read_varint_loop (S fuel) a s = (advance s 1, Some (a * 128 + b))).
Proof.
  intros Hwf He Hb Ha Hlt. cbn [read_varint_loop]. unfold rbind.
  rewrite Z.shiftl_mul_pow2, wrap_id by (unfold in_u; lia). change (2 ^ 7) with 128.
  split; [intros Hlt'|]; intros Hu.
  - rewrite (reads_u8 (b + 128) ltac:(unfold in_u; lia) s rest Hwf He Hu). cbn [length].
    rewrite land_7f, land_80 by lia. destruct (Z.leb_spec 128 (b + 128)); [|lia].
    replace ((b + 128) mod 128) with b by zdm. by rewrite lor_base128, wrap_id by (unfold in_u; lia).
  - rewrite (reads_u8 b ltac:(unfold in_u; lia) s rest Hwf He Hu). cbn [length].
    rewrite land_7f, land_80 by lia. destruct (Z.leb_spec 128 b); [lia|].
    by rewrite (Z.mod_small b), lor_base128 by lia.
Qed.

Lemma read_varint_cont fuel k n s rest :
  stream_wf s -> error s = false -> 0 <= n < 2 ^ 64 - 1 -> (0 < k)%nat -> n < 2 ^ (7 * Z.of_nat k) ->
  unread s = varint_cont k n ++ rest ->
  read_varint_loop (length (varint_cont k n) + fuel) 0 s =
  read_varint_loop fuel (n + 1) (advance s (Z.of_nat (length (varint_cont k n)))).
Proof.
  revert fuel n s rest. induction k as [|k IH]; intros fuel n s rest Hwf He Hn Hp Hk Hu; [lia|].
  cbn [varint_cont] in *. destruct (Z.leb_spec n 0x7f).
  - rewrite Z.mod_small in * by lia. cbn [app length Nat.add] in *.
    destruct (read_varint_step fuel 0 n s rest) as [G _]; try done; try lia. rewrite G by (done || lia). f_equal.
  - assert (0 <= n / 128 - 1 /\ n / 128 < n) by zdm.
    rewrite Nat2Z.inj_succ, Z.mul_succ_r, Z.pow_add_r in Hk by lia. change (2 ^ 7) with 128 in Hk.
    assert (n / 128 < 2 ^ (7 * Z.of_nat k)) by (apply Z.div_lt_upper_bound; lia).
    assert (0 < k)%nat by (destruct k; [change (2 ^ (7 * Z.of_nat 0)) with 1 in *; zdm|lia]).
    rewrite <- app_assoc in Hu. rewrite length_app, <- Nat.add_assoc.
    rewrite (IH _ _ s _ Hwf He) by (done || lia).
    destruct (unread_advance s _ _ Hwf Hu) as [W U].
    destruct (read_varint_step fuel (n / 128) (n mod 128) _ rest W He) as [G _]; [zdm..|].
    replace (n / 128 - 1 + 1) with (n / 128) by lia. cbn [length Nat.add]. rewrite G by (done || zdm).
    rewrite advance_advance. f_equal; [zdm|]. f_equal. lia.
Qed.

Lemma reads_varint n : in_u 64 n -> reads stream_read_varint (varint_enc n) n.
Proof.
  intros [H1 H2] s rest Hwf He Hu. unfold stream_read_varint.
  assert (exists f, S (Z.to_nat (stream_remaining s)) = (length (varint_enc n) + f)%nat) as [f ->].
  { exists (S (Z.to_nat (stream_remaining s)) - length (varint_enc n))%nat.
    assert (length (unread s) = Z.to_nat (stream_remaining s)) as El.
    { destruct Hwf as (_ & Hr & _). unfold unread, stream_remaining. rewrite length_drop. unfold size in *.
      destruct (Z.leb_spec (Z.of_nat (length (data s))) (read_pos s)); lia. }
    rewrite Hu, length_app in El. lia. }
  unfold varint_enc in *. destruct (Z.leb_spec n 0x7f).
  - cbn [app length Nat.add] in *. destruct (read_varint_step f 0 (n mod 128) s rest) as [_ G]; try done; try zdm.
    rewrite G by done. do 2 f_equal. zdm.
  - assert (0 <= n / 128 - 1 /\ n / 128 < n) by zdm.
    rewrite <- app_assoc in Hu. rewrite length_app, <- Nat.add_assoc.
    assert (n / 128 - 1 < 2 ^ (7 * Z.of_nat 9)).
    { apply (Z.le_lt_trans _ (2 ^ 64 / 128)); [|by vm_compute]. pose proof (Z.div_le_mono n (2 ^ 64) 128 ltac:(lia) ltac:(lia)). lia. }
    rewrite (read_varint_cont _ 9 (n / 128 - 1) s _ Hwf He) by (done || lia).
    destruct (unread_advance s _ _ Hwf Hu) as [W U].
    destruct (read_varint_step f (n / 128) (n mod 128) _ rest W He) as [_ G]; [zdm..|].
    replace (n / 128 - 1 + 1) with (n / 128) by lia. cbn [length Nat.add]. rewrite G by done.
    rewrite advance_advance. f_equal; [f_equal; lia|]. f_equal. zdm.
Qed.

Lemma writes_each `{Allocator} l : bytes l -> writes (write_each l) l.
Proof.
  induction 1 as [|b l Hb _ IH]; [apply writes_done|]. apply (writes_seq _ _ [b]); [by apply writes_u8|done].
Qed.

(** ** The codec interface

    A wire codec for the values satisfying [valid]: its writer and its reader
    agree on one encoding. Clients (transactions, blocks) are proved against
    this class, and the primitive codecs are its instances. *)

Class Codec `{Allocator} {A : Type} (valid : A -> Prop) (w : A -> writer) (m : reader A) := {
  codec_enc : A -> list Z;
  codec_writes v : valid v -> writes (w v) (codec_enc v);
  codec_reads v : valid v -> reads m (codec_enc v) v;
}.

(** Writing [v] and then reading the bytes just written gives [v] back and
    consumes exactly those bytes, whatever follows them. *)
Definition roundtrips `{Allocator} {A} (valid : A -> Prop) (w : A -> writer) (m : reader A) : Prop :=
  forall v s s' rest, valid v -> stream_wf s -> size s + 16777216 < 2 ^ 64 ->
  bytes rest -> Z.of_nat (length (data s' ++ rest)) < 2 ^ 64 -> w v s = (s', true) ->
  exists enc, data s' = data s ++ enc /\
  m (stream_init_from_data (enc ++ rest)) =
    (advance (stream_init_from_data (enc ++ rest)) (Z.of_nat (length enc)), Some v).

Lemma stream_from_data_wf d : bytes d -> Z.of_nat (length d) < 2 ^ 64 -> stream_wf (stream_init_from_data d).
Proof. intros. unfold stream_wf, size. cbn. split_and!; done || lia. Qed.

Lemma codec_roundtrips `{Codec A valid w m} :
  (forall v, valid v -> Z.of_nat (length (codec_enc v)) <= 16777216) -> roundtrips valid w m.
Proof.
  intros Hlen v s s' rest Hv Hs Hsz Hrest Hfit Hw.
  destruct (codec_writes v Hv s Hs) as [W _]; [specialize (Hlen v Hv); lia|]. rewrite Hw in W.
  destruct W as ((Wb & _) & D & _). exists (codec_enc v). split; [done|].
  rewrite D in Wb, Hfit. apply Forall_app in Wb as [_ Wb].
  apply (codec_reads v Hv _ rest); [|done|done].
  apply stream_from_data_wf; [by apply digits_app|]. rewrite !length_app in *. lia.
Qed.

Section Instances.
Context `{Allocator}.
#[export, program] Instance codec_u8 : Codec (in_u 8) stream_write_u8 stream_read_u8 :=
  {| codec_enc v := [v] |}.
Next Obligation. apply writes_u8. Qed.
Next Obligation. apply reads_u8. Qed.
#[export] Instance codec_u16 : Codec (in_u 16) stream_write_u16_le stream_read_u16_le :=
  {| codec_enc := digits_of 8 2; codec_writes v _ := writes_u16 v; codec_reads := reads_u16 |}.
#[export] Instance codec_u32 : Codec (in_u 32) stream_write_u32_le stream_read_u32_le :=
  {| codec_enc := digits_of 8 4; codec_writes v _ := writes_u32 v; codec_reads := reads_u32 |}.
#[export] Instance codec_u64 : Codec (in_u 64) stream_write_u64_le stream_read_u64_le :=
  {| codec_enc := digits_of 8 8; codec_writes v _ := writes_u64 v; codec_reads := reads_u64 |}.
#[export] Instance codec_i32 : Codec (in_s 32) stream_write_i32_le stream_read_i32_le :=
  {| codec_enc v := digits_of 8 4 (u32 v); codec_writes v _ := writes_i32 v; codec_reads := reads_i32 |}.
#[export] Instance codec_i64 : Codec (in_s 64) stream_write_i64_le stream_read_i64_le :=
  {| codec_enc v := digits_of 8 8 (u64 v); codec_writes v _ := writes_i64 v; codec_reads := reads_i64 |}.
#[export] Instance codec_compact_size :
  Codec (in_u 64) stream_write_compact_size stream_read_compact_size :=
  {| codec_enc := compact_size_enc; codec_writes := writes_compact_size; codec_reads := reads_compact_size |}.
End Instances.

(** Every integer codec of [serialize.c] round-trips at its width: the
    bytes a successful write appends decode to the same value, consuming
    exactly those bytes, for [u8], [u16], [u32], [u64], the two's complement
    [i32] and [i64], and CompactSize. *)
Theorem integer_codecs_roundtrip `{Allocator} :
  roundtrips (in_u 8) stream_write_u8 stream_read_u8 /\
  roundtrips (in_u 16) stream_write_u16_le stream_read_u16_le /\
  roundtrips (in_u 32) stream_write_u32_le stream_read_u32_le /\
  roundtrips (in_u 64) stream_write_u64_le stream_read_u64_le /\
  roundtrips (in_s 32) stream_write_i32_le stream_read_i32_le /\
  roundtrips (in_s 64) stream_write_i64_le stream_read_i64_le /\
  roundtrips (in_u 64) stream_write_compact_size stream_read_compact_size.
Proof.
  split_and!; apply codec_roundtrips; intros v _; cbn [codec_enc codec_u8 codec_u16 codec_u32 codec_u64
    codec_i32 codec_i64 codec_compact_size]; rewrite ?length_digits_of; try (cbn; lia).
  rewrite compact_size_enc_length. unfold compact_size_sizeof. bool_cases; lia.
Qed.

(** VarInt: on any 64-bit value the encoder stays inside its 10-byte local
    buffer, a successful write appends an encoding that the decoder maps back to
    the value, consuming exactly the bytes written. *)
Theorem varint_roundtrip `{Allocator} n s :
  in_u 64 n -> stream_wf s -> size s + 10 < 2 ^ 64 ->
  exists r enc, stream_write_varint n s = Some r /\
  (snd r = true -> data (fst r) = data s ++ enc) /\
  forall rest, bytes rest -> Z.of_nat (length (enc ++ rest)) < 2 ^ 64 ->
    stream_read_varint (stream_init_from_data (enc ++ rest)) =
    (advance (stream_init_from_data (enc ++ rest)) (Z.of_nat (length enc)), Some n).
Proof.
  intros Hn Hs Hsz. unfold stream_write_varint. rewrite varint_tmp_spec by done.
  exists (write_each (varint_enc n) s), (varint_enc n). split; [done|].
  pose proof (varint_enc_bytes n (proj1 Hn)) as Hb. split.
  - assert (length (varint_enc n) <= 10)%nat as Hl.
    { unfold varint_enc. rewrite length_app. cbn [length].
      assert (forall k z, length (varint_cont k z) <= k)%nat as G.
      { induction k as [|k IH]; intros z; [done|]. cbn [varint_cont]. rewrite length_app. cbn [length].
        destruct (z <=? 0x7f); [cbn; lia|]. specialize (IH (z / 128 - 1)). lia. }
      destruct (n <=? 0x7f); [cbn; lia|]. specialize (G 9%nat (n / 128 - 1)). lia. }
    destruct (writes_each (varint_enc n) Hb s Hs ltac:(lia)) as [W _].
    destruct (write_each (varint_enc n) s) as [s' []]; [intros _; apply W|done].
  - intros rest Hr Hf. apply (reads_varint n Hn _ rest); [|done|done].
    apply stream_from_data_wf; [by apply digits_app|done].
Qed.

#[local] Instance always_alloc : Allocator := fun _ => true.

Lemma varint_roundtrip_witness :
  exists r enc, stream_write_varint 300 (stream_init 0) = Some r /\
  (snd r = true -> data (fst r) = [] ++ enc) /\
  forall rest, bytes rest -> Z.of_nat (length (enc ++ rest)) < 2 ^ 64 ->
    stream_read_varint (stream_init_from_data (enc ++ rest)) =
    (advance (stream_init_from_data (enc ++ rest)) (Z.of_nat (length enc)), Some 300).
Proof.
  apply (varint_roundtrip 300 (stream_init 0)).
  - split; vm_compute; congruence.
  - split; [constructor|]. split; split; vm_compute; congruence.
  - vm_compute. congruence.
Defined.

(** The stream primitives respect the buffer. A write either appends its
    bytes or sets the sticky error and leaves data, position and ownership
    untouched; a stream in error accepts no further byte; growth always yields
    enough capacity below [2^64], and a write can only fail on a stream in
    error, one that does not own its data, or a refused allocation. A read
    never moves past the data and fails exactly when fewer bytes remain. *)
Theorem stream_contract `{Allocator} s :
  stream_wf s ->
  (forall buf, bytes buf -> size s + Z.of_nat (length buf) < 2 ^ 64 ->
    match stream_write buf s with
    | (s', true) => error s = false /\ appended s buf s'
    | (s', false) => s' = set_error s /\
        (error s = true \/ owns_data s = false \/ exists n, alloc_ok n = false)
    end) /\
  (forall len, 0 <= len ->
    match stream_read len s with
    | (s', Some out) => s' = advance s len /\ stream_wf s' /\ unread s = out ++ unread s' /\
        Z.of_nat (length out) = len
    | (s', None) => s' = set_error s /\ (error s = true \/ stream_remaining s < len)
    end).
Proof.
  intros Hwf. pose proof Hwf as (Hb & Hr & Hc). split.
  - intros buf Hbuf Hf. pose proof (stream_write_writes buf Hbuf s Hwf Hf) as [W T].
    unfold stream_write in *. cbn zeta in *. destruct (error s) eqn:Ee.
    { split; [|auto]. destruct s; cbn in *; by subst. }
    rewrite wrap_id in * by (unfold in_u, size in *; lia).
    destruct (Z.ltb_spec (capacity s) (size s + Z.of_nat (length buf))); [|done].
    destruct (stream_grow_spec (Z.of_nat (length buf)) s Hwf ltac:(lia) Hf) as [G _].
    unfold stream_grow in *. cbn zeta in *. destruct (owns_data s); cbn [negb] in *; [|by auto].
    destruct (Z.ltb_spec (SIZE_MAX - size s) (Z.of_nat (length buf))); [unfold SIZE_MAX in *; lia|].
    destruct (alloc_ok _) eqn:Ea; [done|]. split; [done|]. right. right. by eexists.
  - intros len Hlen. unfold stream_read, stream_remaining.
    destruct (error s) eqn:Ee; cbn [orb]; [auto|].
    destruct (Z.ltb_spec (size s) (read_pos s)); [lia|]. cbn [orb].
    destruct (Z.ltb_spec (size s - read_pos s) len).
    { split; [done|]. right. destruct (Z.leb_spec (size s) (read_pos s)); lia. }
    unfold stream_wf, size in *. split; [done|]. split; [cbn; split_and!; done || lia|].
    unfold unread. cbn. rewrite Z2Nat.inj_add, <- drop_drop, take_drop by lia. split; [done|].
    rewrite length_take_le; [lia|]. rewrite length_drop. lia.
Qed.

Lemma stream_contract_witness :
  stream_wf (stream_init_from_data [1; 2; 3]) /\
  match stream_read 2 (stream_init_from_data [1; 2; 3]) with
  | (s', Some out) => s' = advance (stream_init_from_data [1; 2; 3]) 2 /\ stream_wf s' /\
      unread (stream_init_from_data [1; 2; 3]) = out ++ unread s' /\ Z.of_nat (length out) = 2
  | (s', None) => s' = set_error (stream_init_from_data [1; 2; 3]) /\ (false = true \/ 3 < 2)
  end.
Proof.
  assert (stream_wf (stream_init_from_data [1; 2; 3])) as W.
  { apply stream_from_data_wf; [|by vm_compute]. repeat constructor; vm_compute; congruence. }
  split; [exact W|]. apply (proj2 (stream_contract _ W) 2). lia.
Defined.
