(* ===== verification/Workpool.v ===== *)
(** * The thread pool

    Model of [platform/modules/util/src/workpool.c], which runs the script checks of
    a block. The threads are a step relation: every access to the shared structure is
    inside a critical section of its one mutex, so a step is one critical section of
    one thread (up to the next unlock or [cond_wait]), and the work function runs
    between two of them. A thread blocked on a condition variable has no step of its
    own; a signal moves one waiting thread, any one, back to its test. Wake-ups
    without a signal, which POSIX allows, are a relation of their own. *)

From stdpp Require Import base tactics list numbers option relations.
From Stdlib Require Import ZArith Lia.
From S2P Require Import Prelude Serialize.
#[local] Open Scope Z_scope.
#[local] Open Scope list_scope.

Definition WORKPOOL_MAX_THREADS : Z := 64.

Section Pool.
Context {A : Type} (fn : A -> bool).

(** Where a worker is: about to lock at the top of its loop, blocked on [cond_work],
    outside the lock with an item, or gone. *)
Inductive worker := AT_LOOP | WAITING_WORK | RUNNING (x : A) | EXITED.

(** Where the caller is: about to lock in [workpool_submit] with items left, blocked
    there on [cond_done], about to lock in [workpool_wait], blocked there, returned;
    or about to stop the pool, joining its threads, done with that. *)
Inductive caller :=
| SUBMITTING (rest : list A) | WAITING_FULL (rest : list A) | AWAITING | WAITING_DONE | RETURNED (ok : bool)
| STOPPING | JOINING | JOINED.

Record workpool := mk_pool {
  threads : list worker; shutdown : bool; wp_items : list (option A); head : nat; tail : nat; wp_capacity : nat;
  pending : Z; all_ok : bool; wp_caller : caller }.

Definition with_threads (s : workpool) (l : list worker) : workpool :=
  mk_pool l (shutdown s) (wp_items s) (head s) (tail s) (wp_capacity s) (pending s) (all_ok s) (wp_caller s).
Definition with_caller (s : workpool) (c : caller) : workpool :=
  mk_pool (threads s) (shutdown s) (wp_items s) (head s) (tail s) (wp_capacity s) (pending s) (all_ok s) c.
Definition with_all_ok (s : workpool) (b : bool) : workpool :=
  mk_pool (threads s) (shutdown s) (wp_items s) (head s) (tail s) (wp_capacity s) (pending s) b (wp_caller s).
Definition with_head (s : workpool) (h : nat) : workpool :=
  mk_pool (threads s) (shutdown s) (wp_items s) h (tail s) (wp_capacity s) (pending s) (all_ok s) (wp_caller s).
Definition with_pending (s : workpool) (p : Z) : workpool :=
  mk_pool (threads s) (shutdown s) (wp_items s) (head s) (tail s) (wp_capacity s) p (all_ok s) (wp_caller s).
(** [items[tail] = x], and the next tail. *)
Definition push_item (s : workpool) (x : A) : workpool :=
  mk_pool (threads s) (shutdown s) (<[tail s := Some x]> (wp_items s)) (head s) ((tail s + 1) mod wp_capacity s)
    (wp_capacity s) (pending s) (all_ok s) (wp_caller s).

(** The threads asked for, at least one and at most the maximum. *)
Definition clamp_threads (num_threads cores : Z) : Z :=
  let n := if num_threads <=? 0 then cores else num_threads in
  let n := if n <? 1 then 1 else n in
  if WORKPOOL_MAX_THREADS <? n then WORKPOOL_MAX_THREADS else n.

(** [pthread_create] may fail for a thread, and no more are asked for then. *)
Fixpoint spawn (n : nat) (create : nat -> bool) (i : nat) : list worker :=
  match n with O => [] | S n => if create i then AT_LOOP :: spawn n create (S i) else [] end.

Definition workpool_init `{Allocator} (num_threads cores queue_cap : Z) (create : nat -> bool) : option workpool :=
  if (queue_cap =? 0) || (queue_cap =? 2 ^ 64 - 1) then None
  else
    let capacity := Z.to_nat (queue_cap + 1) in
    if negb (alloc_ok ((queue_cap + 1) * 8)) then None
    else
      match spawn (Z.to_nat (clamp_threads num_threads cores)) create 0 with
      | [] => None
      | l => Some (mk_pool l false (replicate capacity None) 0 0 capacity 0 true (RETURNED true))
      end.

(** ** The threads *)

(** [cond_signal(&cond_done)]: only the caller waits there. *)
Definition signal_done (s : workpool) : workpool :=
  match wp_caller s with
  | WAITING_FULL rest => with_caller s (SUBMITTING rest)
  | WAITING_DONE => with_caller s AWAITING
  | _ => s
  end.

(** [pending--; if (pending == 0) cond_signal(&cond_done)] *)
Definition complete (s : workpool) : workpool :=
  let s := with_pending s (u64 (pending s - 1)) in
  if pending s =? 0 then signal_done s else s.

(** A critical section of [worker_thread]; [None] is a worker that has none, or the
    read of an empty slot. *)
Definition worker_step (s : workpool) (i : nat) : option workpool :=
  match threads s !! i with
  | Some AT_LOOP =>
      if (head s =? tail s)%nat then
        Some (with_threads s (<[i := if shutdown s then EXITED else WAITING_WORK]> (threads s)))
      else
        match wp_items s !! head s with
        | Some (Some x) =>
            let s := with_head s ((head s + 1) mod wp_capacity s) in
            Some (if negb (all_ok s) then complete s else with_threads s (<[i := RUNNING x]> (threads s)))
        | _ => None
        end
  | Some (RUNNING x) =>
      let s := if negb (fn x) then with_all_ok s false else s in
      Some (complete (with_threads s (<[i := AT_LOOP]> (threads s))))
  | _ => None
  end.

Definition is_waiting (w : worker) : bool := match w with WAITING_WORK => true | _ => false end.
Definition is_exited (w : worker) : bool := match w with EXITED => true | _ => false end.

(** [cond_signal(&cond_work)]: [wake] is the thread it wakes, if any is waiting. *)
Definition signal_work (s : workpool) (wake : option nat) : option workpool :=
  match wake with
  | Some j => match threads s !! j with
              | Some WAITING_WORK => Some (with_threads s (<[j := AT_LOOP]> (threads s)))
              | _ => None
              end
  | None => if existsb is_waiting (threads s) then None else Some s
  end.

(** A critical section of [workpool_submit]. *)
Definition submit_step (s : workpool) (x : A) (rest : list A) (wake : option nat) : option workpool :=
  if ((tail s + 1) mod wp_capacity s =? head s)%nat && negb (shutdown s) then Some (with_caller s (WAITING_FULL (x :: rest)))
  else if shutdown s then Some (with_caller s AWAITING)
  else
    let s := push_item s x in
    let s := with_pending s (u64 (pending s + 1)) in
    signal_work (with_caller s (SUBMITTING rest)) wake.

(** A critical section of [workpool_wait]. *)
Definition wait_step (s : workpool) : workpool :=
  if 0 <? pending s then with_caller s WAITING_DONE
  else with_all_ok (with_caller s (RETURNED (all_ok s))) true.

(** The caller's next critical section; [workpool_teardown] wakes everybody and then
    joins, which blocks until all threads are gone. *)
Definition caller_step (s : workpool) (wake : option nat) : option workpool :=
  match wp_caller s with
  | SUBMITTING [] => Some (with_caller s AWAITING)
  | SUBMITTING (x :: rest) => submit_step s x rest wake
  | AWAITING => Some (wait_step s)
  | STOPPING =>
      Some (with_caller (mk_pool (map (fun w => if is_waiting w then AT_LOOP else w) (threads s)) true (wp_items s) (head s) (tail s)
              (wp_capacity s) (pending s) (all_ok s) (wp_caller s)) JOINING)
  | JOINING => if forallb is_exited (threads s) then Some (with_caller s JOINED) else None
  | _ => None
  end.

Inductive step (s : workpool) : workpool -> Prop :=
| step_worker i s' : worker_step s i = Some s' -> step s s'
| step_caller wake s' : caller_step s wake = Some s' -> step s s'.

(** A wake-up nobody asked for. *)
Inductive spurious (s : workpool) : workpool -> Prop :=
| spurious_worker i : threads s !! i = Some WAITING_WORK -> spurious s (with_threads s (<[i := AT_LOOP]> (threads s)))
| spurious_full rest : wp_caller s = WAITING_FULL rest -> spurious s (with_caller s (SUBMITTING rest))
| spurious_done : wp_caller s = WAITING_DONE -> spurious s (with_caller s AWAITING).

Definition any_step (s s' : workpool) : Prop := step s s' \/ spurious s s'.

(** [workpool_run]: submit, then wait. *)
Definition workpool_run (s : workpool) (items : list A) : workpool := with_caller s (SUBMITTING items).
Definition workpool_destroy (s : workpool) : workpool := with_caller s STOPPING.
Definition workpool_num_threads (s : option workpool) : Z := match s with None => 0 | Some s => Z.of_nat (length (threads s)) end.

(** ** Always arriving *)

(** Whatever steps are taken, [P] is reached, and until then there is one to take. *)
Inductive inevitable (P : workpool -> Prop) (s : workpool) : Prop :=
| inevitable_now : P s -> inevitable P s
| inevitable_later : (exists s', step s s') -> (forall s', step s s' -> inevitable P s') -> inevitable P s.

(** [steps n k s s']: from [s] to [s'] in [n] steps of the threads and [k] wake-ups nobody
    asked for, in some order. *)
Inductive steps : nat -> nat -> workpool -> workpool -> Prop :=
| steps_refl s : steps 0 0 s s
| steps_step n k s s1 s2 : step s s1 -> steps n k s1 s2 -> steps (S n) k s s2
| steps_wake n k s s1 s2 : spurious s s1 -> steps n k s1 s2 -> steps n (S k) s s2.

(** The threads of the program, and what each can do. *)
Inductive thread := WORKER (i : nat) | CALLER.

Definition thread_step (s : workpool) (t : thread) (s' : workpool) : Prop :=
  match t with WORKER i => worker_step s i = Some s' | CALLER => exists wake, caller_step s wake = Some s' end.

(** An execution under a fair scheduler, as a sequence of states: at each moment one thread
    takes a step, or one is woken without cause, or nothing happens; and every thread, from
    every moment on, sooner or later takes a step or has none to take. *)
Record fair_run (s : workpool) (f : nat -> workpool) : Prop := {
  fr_start : f 0%nat = s;
  fr_next n : f (S n) = f n \/ any_step (f n) (f (S n));
  fr_fair t n : exists m, (n <= m)%nat /\ (thread_step (f m) t (f (S m)) \/ forall s', ~ thread_step (f m) t s') }.

(** *** Three ways to arrive, from an invariant [I] towards a goal [G] *)

Lemma thread_steps s t s' : thread_step s t s' -> step s s'.
Proof. destruct t; [apply step_worker|intros [wake E]; by eapply step_caller]. Qed.

Section Arriving.
Context (I G : workpool -> Prop).
Hypothesis I_step : forall s s', I s -> any_step s s' -> I s'.

(** Until then, some thread [U] can step. *)
Context (U : workpool -> thread -> Prop).
Hypothesis U_exists : forall s, I s -> G s \/ exists t, U s t.
Hypothesis U_enabled : forall s t, I s -> U s t -> exists s', thread_step s t s'.

(** Whatever the schedule: every step makes [m] smaller. *)
Lemma inevitable_by (m : workpool -> nat) :
  (forall s s', I s -> step s s' -> (m s' < m s)%nat) -> forall s, I s -> inevitable G s.
Proof.
  intros Hm s. remember (m s) as n eqn:Hn. revert s Hn. induction n as [n IH] using lt_wf_ind. intros s -> Hs.
  destruct (U_exists s Hs) as [?|[t Ut]]; [by apply inevitable_now|apply inevitable_later].
  - destruct (U_enabled s t Hs Ut) as [s' E]. exists s'. by eapply thread_steps.
  - intros s' E. eapply IH; [by apply Hm|reflexivity|]. eapply I_step; [done|by left].
Qed.

(** How many steps: a wake-up without cause is worth one more. *)
Lemma steps_by (m : workpool -> nat) :
  (forall s s', I s -> step s s' -> (m s' < m s)%nat) -> (forall s s', I s -> spurious s s' -> (m s' <= S (m s))%nat) ->
  forall n k s s', I s -> steps n k s s' -> (n + m s' <= m s + k)%nat.
Proof.
  intros Hm Hw n k s s' Hs R. induction R as [|n k s s1 s2 E _ IH|n k s s1 s2 E _ IH]; [lia| |].
  - pose proof (Hm _ _ Hs E). specialize (IH (I_step _ _ Hs (or_introl E))). lia.
  - pose proof (Hw _ _ Hs E). specialize (IH (I_step _ _ Hs (or_intror E))). lia.
Qed.

(** Under a fair schedule: such a thread stays one until [w] gets smaller, and makes it
    smaller when it steps. *)
Context (w : workpool -> nat).
Hypothesis U_stays : forall s s' t, I s -> any_step s s' -> U s t -> (w s' < w s)%nat \/ G s' \/ (U s' t /\ w s' = w s).
Hypothesis U_step : forall s s' t, I s -> U s t -> thread_step s t s' -> (w s' < w s)%nat \/ G s'.

Lemma fair_inv s f n : I s -> fair_run s f -> I (f n).
Proof.
  intros Hs [F0 Fn _]. induction n as [|n IH]; [by rewrite F0|]. destruct (Fn n) as [->|E]; [done|by eapply I_step].
Qed.

Lemma fair_until s f t n k : I s -> fair_run s f -> U (f n) t ->
  (exists m, (w (f m) < w (f n))%nat \/ G (f m)) \/ (U (f (k + n)%nat) t /\ w (f (k + n)%nat) = w (f n)).
Proof.
  intros Hs F Hu. induction k as [|k [H|[Uk Wk]]]; [by right|by left|]. cbn [Nat.add]. destruct (fr_next _ _ F (k + n)) as [E|E]; [right; by rewrite E|].
  destruct (U_stays _ _ _ (fair_inv s f (k + n) Hs F) E Uk) as [?|[?|[? ?]]]; [left; exists (S (k + n)); left; lia|left; exists (S (k + n)); by right|].
  right. split; [done|congruence].
Qed.

Lemma fair_by s f : I s -> fair_run s f -> exists n, G (f n).
Proof.
  intros Hs F. assert (forall d n, (w (f n) <= d)%nat -> exists m, G (f m)) as H; [|by apply (H _ 0%nat (Nat.le_refl _))].
  intros d. induction d as [d IH] using lt_wf_ind. intros n Hd.
  destruct (U_exists (f n) (fair_inv s f n Hs F)) as [?|[t Hu]]; [by exists n|].
  assert (exists m, (w (f m) < w (f n))%nat \/ G (f m)) as (m & [Hm|Hm]); [|apply (IH (w (f m)) ltac:(lia) m); done|by exists m].
  destruct (fr_fair _ _ F t n) as (m & Hnm & Hm). destruct (fair_until s f t n (m - n) Hs F Hu) as [?|[Um Wm]]; [done|].
  replace (m - n + n)%nat with m in * by lia. pose proof (fair_inv s f m Hs F) as Im. destruct Hm as [E|E].
  - exists (S m). destruct (U_step _ _ _ Im Um E); [left; lia|by right].
  - destruct (U_enabled _ _ Im Um) as [s' Es]. by destruct (E s').
Qed.
End Arriving.

(** ** The invariant *)

(** The items in the ring, from head to tail. *)
Definition queued (s : workpool) (q : list A) : Prop :=
  (length q < wp_capacity s)%nat /\ (head s < wp_capacity s)%nat /\ length (wp_items s) = wp_capacity s /\
  tail s = ((head s + length q) mod wp_capacity s)%nat /\
  forall i x, q !! i = Some x -> wp_items s !! ((head s + i) mod wp_capacity s)%nat = Some (Some x).

Definition item_of_worker (w : worker) : option A := match w with RUNNING x => Some x | _ => None end.
Definition running (s : workpool) : list A := omap item_of_worker (threads s).

Definition unsubmitted (s : workpool) : list A :=
  match wp_caller s with SUBMITTING rest | WAITING_FULL rest => rest | _ => [] end.

Definition batch_open (s : workpool) : bool := match wp_caller s with RETURNED _ => false | _ => true end.

(** [l] is the batch. *)
Record pool_inv (l : list A) (s : workpool) (q : list A) : Prop := {
  pi_queue : queued s q;
  pi_bound : Z.of_nat (wp_capacity s + length (threads s)) < 2 ^ 64;
  pi_pending : pending s = Z.of_nat (length q + length (running s));
  pi_result : batch_open s = true ->
    if all_ok s then forallb fn (unsubmitted s ++ q ++ running s) = forallb fn l else forallb fn l = false;
  pi_threads : threads s <> [] /\ 2 <= Z.of_nat (wp_capacity s);
  pi_awake : q <> [] -> exists i w, threads s !! i = Some w /\ is_waiting w = false;
  pi_open : shutdown s = false /\ Forall (fun w => is_exited w = false) (threads s);
  pi_caller : match wp_caller s with
              | WAITING_FULL _ | WAITING_DONE => 0 < pending s
              | RETURNED ok => ok = forallb fn l /\ q = [] /\ running s = [] /\ all_ok s = true
              | STOPPING | JOINING | JOINED => False
              | _ => True
              end }.

Arguments running _ : simpl never.
Arguments unsubmitted _ : simpl never.

(** ** The ring *)

Lemma mod_shift c h k : (h < c)%nat -> (k < c)%nat -> (((h + k) mod c = h <-> k = 0))%nat.
Proof.
  intros Hh Hk. split; [|intros ->; rewrite Nat.add_0_r; by apply Nat.mod_small].
  destruct (Nat.lt_ge_cases (h + k) c) as [L|L]; [rewrite Nat.mod_small by done; lia|].
  rewrite <- (Nat.mod_unique (h + k) c 1 (h + k - c)); lia.
Qed.

Lemma queued_empty s q : queued s q -> (head s =? tail s)%nat = true <-> q = [].
Proof.
  intros (Hl & Hh & _ & Ht & _). rewrite Nat.eqb_eq, Ht. split; [intros E|intros ->].
  - symmetry in E. apply mod_shift in E; [|done..]. by destruct q.
  - symmetry. by apply mod_shift.
Qed.

Lemma queued_pop s x q : queued s (x :: q) ->
  wp_items s !! head s = Some (Some x) /\ queued (with_head s ((head s + 1) mod wp_capacity s)) q.
Proof.
  intros (Hl & Hh & Hi & Ht & Hq). cbn [length] in *. split.
  - rewrite <- (Hq 0%nat x eq_refl). by rewrite Nat.add_0_r, Nat.mod_small.
  - split_and!; cbn; [lia|apply Nat.mod_upper_bound; lia|done| |].
    + rewrite Nat.Div0.add_mod_idemp_l. rewrite Ht. f_equal. lia.
    + intros i y E. rewrite Nat.Div0.add_mod_idemp_l. rewrite <- (Hq (S i) y E). f_equal. f_equal. lia.
Qed.

Lemma queued_full s q : queued s q -> 2 <= Z.of_nat (wp_capacity s) -> (((tail s + 1) mod wp_capacity s =? head s) = true -> q <> [])%nat.
Proof.
  intros (Hl & Hh & _ & Ht & _) Hc E ->. apply Nat.eqb_eq in E. rewrite Ht, Nat.Div0.add_mod_idemp_l in E. cbn [length] in E.
  rewrite Nat.add_0_r in E. apply mod_shift in E; lia.
Qed.

Lemma queued_push s q x : queued s q -> ((tail s + 1) mod wp_capacity s =? head s)%nat = false -> queued (push_item s x) (q ++ [x]).
Proof.
  intros (Hl & Hh & Hi & Ht & Hq) E. apply Nat.eqb_neq in E. rewrite Ht, Nat.Div0.add_mod_idemp_l in E.
  assert (S (length q) < wp_capacity s)%nat as Hl'.
  { destruct (decide (S (length q) = wp_capacity s)) as [Es|]; [|lia]. exfalso. apply E.
    replace (head s + length q + 1)%nat with (head s + 1 * wp_capacity s)%nat by lia. rewrite Nat.Div0.mod_add. by apply Nat.mod_small. }
  split_and!; cbn; rewrite ?length_app, ?length_insert; cbn [length]; [lia|done|done| |].
  - rewrite Ht, Nat.Div0.add_mod_idemp_l. f_equal. lia.
  - intros i y Ei. apply lookup_app_Some in Ei as [Ei|[Hge Ei]].
    + apply lookup_lt_Some in Ei as Hlt. rewrite list_lookup_insert_ne; [by apply Hq|]. rewrite Ht. intros F.
      assert ((head s + length q) mod wp_capacity s = (head s + i + (length q - i)) mod wp_capacity s)%nat as G by (f_equal; lia).
      rewrite G, <- Nat.Div0.add_mod_idemp_l in F. apply mod_shift in F; [lia|apply Nat.mod_upper_bound; lia|lia].
    + destruct (i - length q)%nat eqn:Ed; [|done]. injection Ei as <-. replace i with (length q) by lia. rewrite <- Ht.
      apply list_lookup_insert_eq. rewrite Ht, Hi. apply Nat.mod_upper_bound. lia.
Qed.

(** ** The items in flight *)

Lemma running_swap (l : list worker) i w w' : l !! i = Some w ->
  exists r, omap item_of_worker l ≡ₚ option_list (item_of_worker w) ++ r /\
            omap item_of_worker (<[i := w']> l) ≡ₚ option_list (item_of_worker w') ++ r.
Proof.
  intros E. assert (forall v (a b : list worker), omap item_of_worker (a ++ v :: b) ≡ₚ option_list (item_of_worker v) ++ omap item_of_worker (a ++ b)) as Hm.
  { intros v a b. rewrite !omap_app. cbn. destruct (item_of_worker v); [|done]. cbn. by rewrite Permutation_middle. }
  exists (omap item_of_worker (take i l ++ drop (S i) l)). split.
  - rewrite <- (take_drop_middle l i w E) at 1. apply Hm.
  - rewrite insert_take_drop by (by eapply lookup_lt_Some). apply Hm.
Qed.

Lemma forallb_perm (l l' : list A) : l ≡ₚ l' -> forallb fn l = forallb fn l'.
Proof. induction 1; cbn; [done|congruence|by rewrite !andb_assoc, (andb_comm (fn y))|congruence]. Qed.

Lemma running_bound s : (length (running s) <= length (threads s))%nat.
Proof. unfold running. induction (threads s) as [|w l IH]; [done|]. cbn. destruct (item_of_worker w); cbn; lia. Qed.

(** ** Every step keeps the invariant *)

(** The caller after a signal on [cond_done]. *)
Definition woken (c : caller) : caller :=
  match c with WAITING_FULL rest => SUBMITTING rest | WAITING_DONE => AWAITING | c => c end.

Lemma complete_eq s : complete s =
  with_caller (with_pending s (u64 (pending s - 1))) (if u64 (pending s - 1) =? 0 then woken (wp_caller s) else wp_caller s).
Proof. unfold complete, signal_done. cbn. destruct (u64 (pending s - 1) =? 0); [|by destruct s]. by destruct s as [????????[]]. Qed.

Lemma woken_unsubmitted s c : unsubmitted (with_caller s (woken c)) = unsubmitted (with_caller s c).
Proof. by destruct c. Qed.

(** One item fewer: what the caller then is. *)
Lemma complete_inv l s q (n : nat) : pending s = Z.of_nat (S n) -> Z.of_nat (S n) < 2 ^ 64 ->
  (match wp_caller s with RETURNED _ | STOPPING | JOINING | JOINED => False | _ => True end) ->
  queued s q -> Z.of_nat (wp_capacity s + length (threads s)) < 2 ^ 64 -> (n = length q + length (running s))%nat ->
  (if all_ok s then forallb fn (unsubmitted s ++ q ++ running s) = forallb fn l else forallb fn l = false) ->
  threads s <> [] /\ 2 <= Z.of_nat (wp_capacity s) ->
  (exists i w, threads s !! i = Some w /\ is_waiting w = false) ->
  shutdown s = false /\ Forall (fun w => is_exited w = false) (threads s) ->
  pool_inv l (complete s) q.
Proof.
  intros Hp Hb Hc Hq Hbd Hn Hr Ht Ha Ho. rewrite complete_eq. assert (u64 (pending s - 1) = Z.of_nat n) as -> by (rewrite wrap_id; unfold in_u; lia).
  split; cbn; try done.
  - by rewrite Hn.
  - intros _. destruct (all_ok s); [|done]. rewrite <- Hr. destruct (Z.of_nat n =? 0); unfold unsubmitted; cbn; by destruct (wp_caller s).
  - destruct (Z.eqb_spec (Z.of_nat n) 0) as [E|E]; destruct (wp_caller s); cbn; done || lia.
Qed.

Lemma open_insert (l : list worker) i w : Forall (fun w => is_exited w = false) l -> is_exited w = false -> Forall (fun w => is_exited w = false) (<[i := w]> l).
Proof. intros. by apply Forall_insert. Qed.

Lemma insert_nonempty (l : list worker) i w : l <> [] -> <[i := w]> l <> [].
Proof. by destruct l, i. Qed.

Lemma some_worker (s : workpool) i w : threads s !! i = Some w -> is_waiting w = false -> exists j v, threads s !! j = Some v /\ is_waiting v = false.
Proof. intros. by exists i, w. Qed.

Lemma worker_inv l s q i s' : pool_inv l s q -> worker_step s i = Some s' -> exists q', pool_inv l s' q'.
Proof.
  intros [Hq Hb Hp Hr Ht Ha [Hs Ho] Hc]. unfold worker_step. destruct (threads s !! i) as [[| |x|]|] eqn:Ei; try done.
  - destruct (head s =? tail s)%nat eqn:Ee.
    + (* nothing to do *) apply (queued_empty s q Hq) in Ee as ->. rewrite Hs. intros [= <-]. exists [].
      destruct (running_swap (threads s) i AT_LOOP WAITING_WORK Ei) as (r & P1 & P2). cbn in P1, P2. fold (running s) in P1.
      set (s1 := with_threads _ _). assert (running s1 ≡ₚ running s) as P by (unfold running at 1, s1; cbn; by rewrite P1, P2).
      split; cbn; rewrite ?length_insert; try done.
      * by rewrite Hp, (Permutation_length P).
      * intros Op. specialize (Hr Op). destruct (all_ok s); [|done]. rewrite <- Hr. apply forallb_perm. change (unsubmitted s1) with (unsubmitted s). cbn. by rewrite P.
      * split; [apply insert_nonempty|]; apply Ht.
      * split; [done|apply open_insert; [exact Ho|reflexivity]].
      * destruct (wp_caller s); try done. destruct Hc as (? & ? & Hrun & ?). split_and!; try done. apply Permutation_nil. by rewrite P, Hrun.
    + assert (q <> []) as Hne by (intros E; apply (queued_empty s q Hq) in E; congruence).
      destruct q as [|x q]; [done|]. destruct (queued_pop s x q Hq) as [-> Hq']. cbn [all_ok with_head]. destruct (all_ok s) eqn:Ok; cbn [negb]; intros [= <-].
      * (* take it *) exists q. destruct (running_swap (threads s) i AT_LOOP (RUNNING x) Ei) as (r & P1 & P2). cbn in P1, P2. fold (running s) in P1.
        set (s1 := with_threads _ _). assert (running s1 ≡ₚ x :: running s) as P by (unfold running at 1, s1; cbn; by rewrite P1, P2).
        split; cbn; rewrite ?length_insert; try done.
        -- rewrite Hp, (Permutation_length P). cbn. f_equal. lia.
        -- intros Op. rewrite Ok. rewrite <- (Hr Op). apply forallb_perm. change (unsubmitted s1) with (unsubmitted s). rewrite P. cbn. by rewrite <- Permutation_middle.
        -- split; [apply insert_nonempty|]; apply Ht.
        -- intros _. exists i, (RUNNING x). split; [|done]. apply list_lookup_insert_eq. by eapply lookup_lt_Some.
        -- split; [done|apply open_insert; [exact Ho|reflexivity]].
        -- destruct (wp_caller s); try done. by destruct Hc as (? & ? & _).
      * (* a check has failed: drop it *) exists q. cbn [length] in Hp. apply (complete_inv l (with_head s _) q (length q + length (running s))%nat); cbn; try done.
        -- pose proof (running_bound s). destruct Hq as (? & _). cbn in *. lia.
        -- destruct (wp_caller s); try done. by destruct Hc as (? & ? & _).
        -- rewrite Ok. apply Hr. unfold batch_open. destruct (wp_caller s); try done. by destruct Hc as (? & ? & _).
        -- by exists i, AT_LOOP.
  - (* finish *) intros [= <-]. exists q. destruct (running_swap (threads s) i (RUNNING x) AT_LOOP Ei) as (r & P1 & P2). cbn in P1, P2. fold (running s) in P1.
    set (s0 := if negb (fn x) then with_all_ok s false else s). set (s1 := with_threads _ _).
    assert (threads s0 = threads s /\ wp_caller s0 = wp_caller s /\ wp_items s0 = wp_items s /\ head s0 = head s /\ tail s0 = tail s /\ wp_capacity s0 = wp_capacity s /\
      pending s0 = pending s /\ shutdown s0 = shutdown s /\ all_ok s0 = all_ok s && fn x) as (E1 & E2 & E3 & E4 & E5 & E6 & E7 & E8 & E9).
    { unfold s0. destruct (fn x); cbn; rewrite ?andb_true_r, ?andb_false_r; done. }
    assert (running s1 ≡ₚ r) as P by (unfold running, s1; cbn; by rewrite E1, P2).
    assert (length (running s) = S (length r)) as Lr by (by rewrite (Permutation_length P1)).
    pose proof (running_bound s) as Rb.
    apply (complete_inv l s1 q (length q + length (running s1))%nat); cbn; rewrite ?E1, ?E2, ?E6, ?E7, ?E8, ?E9, ?length_insert; try done.
    + rewrite Hp, Lr, (Permutation_length P). f_equal. lia.
    + rewrite (Permutation_length P). destruct Hq as (? & _). lia.
    + destruct (wp_caller s); try done. destruct Hc as (_ & _ & Hrun & _). rewrite Hrun in Lr. done.
    + destruct Hq as (? & ? & ? & ? & ?). by repeat split; cbn; rewrite ?E3, ?E4, ?E5, ?E6.
    + assert (unsubmitted s1 = unsubmitted s) as -> by (unfold unsubmitted, s1; cbn; by rewrite E2).
      assert (forallb fn (unsubmitted s ++ q ++ running s) = fn x && forallb fn (unsubmitted s ++ q ++ running s1)) as Ex.
      { transitivity (forallb fn (x :: unsubmitted s ++ q ++ running s1)); [|done]. apply forallb_perm. rewrite P1, P. cbn. by rewrite <- !Permutation_middle. }
      assert (batch_open s = true) as Op.
      { unfold batch_open. destruct (wp_caller s); try done. destruct Hc as (_ & _ & Hrun & _). rewrite Hrun in Lr. done. }
      specialize (Hr Op). destruct (all_ok s); cbn [andb]; [|done]. rewrite Ex in Hr. destruct (fn x); by rewrite <- Hr.
    + split; [apply insert_nonempty|]; apply Ht.
    + exists i, AT_LOOP. split; [|done]. apply list_lookup_insert_eq. by eapply lookup_lt_Some.
    + split; [done|apply open_insert; [exact Ho|reflexivity]].
Qed.

(** A signalled worker is awake, and nothing else changes. *)
Lemma signal_inv s wake s' : signal_work s wake = Some s' -> threads s <> [] -> Forall (fun w => is_exited w = false) (threads s) ->
  exists t, s' = with_threads s t /\ length t = length (threads s) /\ omap item_of_worker t ≡ₚ running s /\
    Forall (fun w => is_exited w = false) t /\ exists i w, t !! i = Some w /\ is_waiting w = false.
Proof.
  intros E Hne Ho. unfold signal_work in E. destruct wake as [j|].
  - destruct (threads s !! j) as [[]|] eqn:Ej; try done. injection E as <-. exists (<[j := AT_LOOP]> (threads s)).
    destruct (running_swap (threads s) j WAITING_WORK AT_LOOP Ej) as (r & P1 & P2). cbn in P1, P2. fold (running s) in P1.
    split_and!; [done|by rewrite length_insert|by rewrite P1, P2|by apply open_insert|].
    exists j, AT_LOOP. split; [|done]. apply list_lookup_insert_eq. by eapply lookup_lt_Some.
  - destruct (existsb is_waiting (threads s)) eqn:Ew; [done|]. injection E as <-. exists (threads s). split_and!; [by destruct s|done..|].
    destruct (threads s) as [|w t]; [done|]. cbn in Ew. apply orb_false_iff in Ew as [Ew _]. by exists 0%nat, w.
Qed.

Lemma caller_inv l s q wake s' : pool_inv l s q -> caller_step s wake = Some s' -> exists q', pool_inv l s' q'.
Proof.
  intros [Hq Hb Hp Hr Ht Ha [Hs Ho] Hc]. unfold caller_step, batch_open in *. destruct (wp_caller s) as [[|x rest]|rest| | | | | |] eqn:Ec; try done.
  - intros [= <-]. exists q. specialize (Hr eq_refl). split; cbn; try done. intros _. unfold unsubmitted in *. cbn. rewrite Ec in Hr. done.
  - specialize (Hr eq_refl). unfold submit_step. rewrite Hs. rewrite andb_true_r. destruct ((tail s + 1) mod wp_capacity s =? head s)%nat eqn:Ef.
    + intros [= <-]. exists q. split; cbn; try done; [intros _; unfold unsubmitted in *; rewrite Ec in Hr; exact Hr|].
      pose proof (queued_full s q Hq (proj2 Ht) Ef). rewrite Hp. destruct q; [done|]. cbn. lia.
    + intros Es. set (s0 := with_caller _ _) in Es. destruct (signal_inv s0 wake s' Es (proj1 Ht) Ho) as (t & -> & Lt & Pt & Fo & Aw).
      change (threads s0) with (threads s) in *. change (running s0) with (running s) in Pt.
      exists (q ++ [x]). pose proof (running_bound s). pose proof Hq as (Hlq & _).
      assert (running (with_threads s0 t) ≡ₚ running s) as P by exact Pt.
      split; try done.
      * exact (queued_push s q x Hq Ef).
      * change (Z.of_nat (wp_capacity s + length t) < 2 ^ 64). lia.
      * rewrite (Permutation_length P). change (u64 (pending s + 1) = Z.of_nat (length (q ++ [x]) + length (running s))).
        rewrite length_app, wrap_id; cbn; unfold in_u; lia.
      * intros _. change (all_ok (with_threads s0 t)) with (all_ok s). destruct (all_ok s); [|done]. rewrite <- Hr. apply forallb_perm.
        unfold unsubmitted. rewrite Ec. cbn. rewrite P, <- !app_assoc. cbn. by rewrite <- !Permutation_middle.
      * split; [|apply Ht]. cbn. destruct t; [|done]. destruct (threads s); [by destruct Ht|done].
  - specialize (Hr eq_refl). intros [= <-]. exists q. unfold wait_step. destruct (Z.ltb_spec 0 (pending s)) as [Hp'|Hp'].
    + split; cbn; try done. intros _. unfold unsubmitted in *. cbn. by rewrite Ec in Hr.
    + assert (q = [] /\ running s = []) as [-> Er] by (destruct q; [|cbn in Hp; lia]; destruct (running s); [done|cbn in Hp; lia]).
      unfold unsubmitted in Hr. rewrite Ec in Hr. cbn in Hr. rewrite Er in Hr. cbn in Hr.
      split; cbn; try done. split_and!; [by destruct (all_ok s)|done..].
Qed.

Lemma spurious_inv l s q s' : pool_inv l s q -> spurious s s' -> pool_inv l s' q.
Proof.
  intros [Hq Hb Hp Hr Ht Ha [Hs Ho] Hc] [i Ei|rest Ec|Ec].
  - destruct (running_swap (threads s) i WAITING_WORK AT_LOOP Ei) as (r & P1 & P2). cbn in P1, P2. fold (running s) in P1.
    set (s1 := with_threads _ _). assert (running s1 ≡ₚ running s) as P by (unfold running at 1, s1; cbn; by rewrite P1, P2).
    split; cbn; rewrite ?length_insert; try done.
    + by rewrite Hp, (Permutation_length P).
    + intros Op. specialize (Hr Op). destruct (all_ok s); [|done]. rewrite <- Hr. apply forallb_perm. change (unsubmitted s1) with (unsubmitted s). by rewrite P.
    + split; [apply insert_nonempty|]; apply Ht.
    + intros _. exists i, AT_LOOP. split; [|done]. apply list_lookup_insert_eq. by eapply lookup_lt_Some.
    + split; [done|by apply open_insert].
    + destruct (wp_caller s); try done. destruct Hc as (? & ? & Hrun & ?). split_and!; try done. apply Permutation_nil. by rewrite P, Hrun.
  - unfold batch_open, unsubmitted in *. rewrite Ec in *. by split.
  - unfold batch_open, unsubmitted in *. rewrite Ec in *. by split.
Qed.

Lemma any_step_inv l s q s' : pool_inv l s q -> any_step s s' -> exists q', pool_inv l s' q'.
Proof. intros I [[i s1 E|w s1 E]|E]; [by eapply worker_inv|by eapply caller_inv|exists q; by eapply spurious_inv]. Qed.

Lemma reachable_inv l s q s' : pool_inv l s q -> rtc any_step s s' -> exists q', pool_inv l s' q'.
Proof. intros I R. revert q I. induction R as [|s s1 s2 E _ IH]; intros q I; [by exists q|]. destruct (any_step_inv _ _ _ _ I E) as [q1 I1]. by eapply IH. Qed.


(** ** Progress *)

(** What is left to do. *)
Definition is_ready (w : worker) : bool := match w with AT_LOOP => true | _ => false end.
Definition ready_count (l : list worker) : nat := length (base.filter (fun w => is_ready w = true) l).
Definition caller_weight (c : caller) : nat :=
  match c with SUBMITTING _ => 3 | WAITING_FULL _ | AWAITING => 2 | WAITING_DONE | JOINING => 1 | _ => 0 end.
Definition measure (s : workpool) : nat :=
  (5 * length (unsubmitted s) + 3 * Z.to_nat (pending s) + ready_count (threads s) + caller_weight (wp_caller s))%nat.

Lemma ready_swap l i w w' : l !! i = Some w ->
  (ready_count (<[i := w']> l) + (if is_ready w then 1 else 0) = ready_count l + if is_ready w' then 1 else 0)%nat.
Proof.
  intros E. assert (forall v (a b : list worker), ready_count (a ++ v :: b) = (ready_count (a ++ b) + if is_ready v then 1 else 0)%nat) as Hm.
  { intros v a b. unfold ready_count. rewrite !filter_app, filter_cons, !length_app. destruct (is_ready v) eqn:Ev.
    - rewrite decide_True by done. cbn. lia.
    - rewrite decide_False by done. lia. }
  rewrite insert_take_drop by (by eapply lookup_lt_Some). rewrite <- (take_drop_middle l i w E) at 3. rewrite !Hm. lia.
Qed.

Lemma complete_measure s (n : nat) : pending s = Z.of_nat (S n) -> Z.of_nat (S n) < 2 ^ 64 -> (measure (complete s) + 2 <= measure s)%nat.
Proof.
  intros Hp Hb. rewrite complete_eq. assert (u64 (pending s - 1) = Z.of_nat n) as -> by (rewrite wrap_id; unfold in_u; lia).
  unfold measure, unsubmitted. cbn [with_caller with_pending pending threads wp_caller]. rewrite Hp, !Nat2Z.id.
  destruct (Z.of_nat n =? 0); destruct (wp_caller s); cbn [woken caller_weight length]; lia.
Qed.

Lemma step_measure l s q s' : pool_inv l s q -> step s s' -> (measure s' < measure s)%nat.
Proof.
  intros [Hq Hb Hp Hr Ht Ha [Hs Ho] Hc] [i s1 E|wake s1 E].
  - pose proof (running_bound s) as Rb. pose proof Hq as (Hlq & _). unfold worker_step in E. destruct (threads s !! i) as [[| |x|]|] eqn:Ei; try done.
    + destruct (head s =? tail s)%nat eqn:Ee.
      * rewrite Hs in E. injection E as <-. pose proof (ready_swap _ i _ WAITING_WORK Ei) as R. unfold measure, unsubmitted. cbn [with_threads threads wp_caller pending is_ready] in *. lia.
      * destruct q as [|x q]; [exfalso; assert ((head s =? tail s)%nat = true) by (by apply (queued_empty s [] Hq)); congruence|].
        destruct (queued_pop s x q Hq) as [Ex Hq']. rewrite Ex in E. cbn [all_ok with_head] in E. destruct (all_ok s); cbn [negb] in E; injection E as <-.
        -- pose proof (ready_swap _ i _ (RUNNING x) Ei) as R. unfold measure, unsubmitted. cbn [with_threads with_head threads wp_caller pending is_ready] in *. lia.
        -- cbn [length] in *. pose proof (complete_measure (with_head s ((head s + 1) mod wp_capacity s)) (length q + length (running s)) Hp ltac:(lia)).
           change (measure (with_head s _)) with (measure s) in *. lia.
    + destruct (running_swap (threads s) i (RUNNING x) AT_LOOP Ei) as (r & P1 & _). cbn in P1. fold (running s) in P1. apply Permutation_length in P1. cbn [length] in P1.
      injection E as <-. set (s0 := if negb (fn x) then with_all_ok s false else s). pose proof (ready_swap _ i _ AT_LOOP Ei) as R.
      assert (threads s0 = threads s /\ wp_caller s0 = wp_caller s /\ pending s0 = pending s) as (E1 & E2 & E3) by (unfold s0; by destruct (fn x)).
      pose proof (complete_measure (with_threads s0 (<[i:=AT_LOOP]> (threads s0))) (length q + length r)%nat) as C. cbn [with_threads pending] in C. rewrite E3 in C.
      specialize (C ltac:(lia) ltac:(lia)). unfold measure at 2, unsubmitted in C. cbn [with_threads threads wp_caller pending] in C. rewrite E1, E2, E3 in C.
      unfold measure at 2, unsubmitted. cbn [is_ready] in R. rewrite E1. lia.
  - unfold caller_step in E. destruct (wp_caller s) as [[|x rest]|rest| | |ok| | |] eqn:Ec; try done.
    + injection E as <-. unfold measure, unsubmitted. cbn [with_caller threads wp_caller pending]. rewrite Ec. cbn [caller_weight length]. lia.
    + unfold submit_step in E. rewrite Hs in E. rewrite andb_true_r in E. destruct (_ =? _)%nat eqn:Ef.
      * injection E as <-. unfold measure, unsubmitted. cbn [with_caller threads wp_caller pending]. rewrite Ec. cbn [caller_weight length]. lia.
      * set (s0 := with_caller _ _) in E. pose proof (running_bound s) as Rb. pose proof Hq as (Hlq & _).
        assert (pending s0 = pending s + 1) as Ep by (unfold s0; cbn; rewrite wrap_id; unfold in_u; lia).
        assert (pending s1 = pending s0 /\ wp_caller s1 = SUBMITTING rest /\ (ready_count (threads s1) <= ready_count (threads s) + 1)%nat) as (E1 & E2 & E3).
        { unfold signal_work in E. change (threads s0) with (threads s) in E. destruct wake as [j|].
          - destruct (threads s !! j) as [[]|] eqn:Ej; try done. injection E as <-. split_and!; try done. pose proof (ready_swap _ j _ AT_LOOP Ej) as R. cbn [is_ready] in R. cbn [with_threads threads]. lia.
          - destruct (existsb _ _); [done|]. injection E as <-. split_and!; try done. change (threads s0) with (threads s). lia. }
        unfold measure, unsubmitted. rewrite E1, E2, Ec, Ep. cbn [caller_weight length]. lia.
    + injection E as <-. unfold wait_step. destruct (0 <? pending s); unfold measure, unsubmitted; cbn [with_caller with_all_ok threads wp_caller pending]; rewrite Ec; cbn [caller_weight length]; lia.
Qed.

Lemma spurious_measure s s' : spurious s s' -> (measure s' <= S (measure s))%nat.
Proof.
  intros [i Ei|rest Ec|Ec]; unfold measure, unsubmitted; cbn [with_threads with_caller threads wp_caller pending]; rewrite ?Ec; cbn [caller_weight length]; [|lia..].
  pose proof (ready_swap _ i _ AT_LOOP Ei) as R. cbn [is_ready] in R. lia.
Qed.

(** ** Fair schedules *)

(** What is left of the batch: unlike the measure, a wake-up does not change it. *)
Definition phase (c : caller) : nat := match c with SUBMITTING _ | WAITING_FULL _ => 1 | _ => 0 end.
Definition work (s : workpool) : nat :=
  (4 * length (unsubmitted s) + (2 * Z.to_nat (pending s) - length (running s)) + phase (wp_caller s))%nat.
Definition returned (s : workpool) : Prop := exists ok, wp_caller s = RETURNED ok.

(** The threads whose next step takes the batch further. *)
Definition useful (s : workpool) (t : thread) : Prop :=
  match t with
  | WORKER i => match threads s !! i with Some AT_LOOP => (head s =? tail s)%nat = false | Some (RUNNING _) => True | _ => False end
  | CALLER => pending s = 0 /\ match wp_caller s with SUBMITTING _ | AWAITING => True | _ => False end
  end.

Lemma useful_exists l s q : pool_inv l s q -> returned s \/ exists t, useful s t.
Proof.
  intros [Hq Hb Hp Hr Ht Ha [Hs Ho] Hc]. destruct (running s) as [|x r] eqn:Er.
  - destruct (decide (q = [])) as [->|Hne].
    + cbn in Hp. destruct (wp_caller s) eqn:Ec; try done; try (rewrite Hp in Hc; lia).
      * right. exists CALLER. split; [done|by rewrite Ec].
      * right. exists CALLER. split; [done|by rewrite Ec].
      * left. by eexists.
    + right. destruct (Ha Hne) as (i & w & Ei & Nw). exists (WORKER i). cbn. rewrite Ei. pose proof (Forall_lookup_1 _ _ _ _ Ho Ei). destruct w; try done.
      destruct (head s =? tail s)%nat eqn:Ee; [|done]. by apply (queued_empty s q Hq) in Ee.
  - right. assert (x ∈ running s) as Hin by (rewrite Er; apply list_elem_of_here). unfold running in Hin. apply list_elem_of_omap in Hin as (w & Hin & Ew).
    apply list_elem_of_lookup in Hin as [i Ei]. exists (WORKER i). cbn. rewrite Ei. by destruct w.
Qed.

Lemma useful_enabled l s q t : pool_inv l s q -> useful s t -> exists s', thread_step s t s'.
Proof.
  intros I Hu. pose proof I as [Hq Hb Hp Hr Ht Ha [Hs Ho] Hc]. destruct t as [i|]; cbn in *.
  - unfold worker_step. destruct (threads s !! i) as [[]|]; try done; [|by eexists]. rewrite Hu. destruct q as [|x q].
    + by rewrite (proj2 (queued_empty s [] Hq) eq_refl) in Hu.
    + destruct (queued_pop s x q Hq) as [-> _]. by eexists.
  - destruct Hu as [Hp0 Hu]. assert (exists wake s', caller_step s wake = Some s') as (wake & s' & E); [|by exists s', wake].
    unfold caller_step. destruct (wp_caller s) as [[|x rest]|rest| | |ok| | |]; try done; try (by exists None; eexists).
    unfold submit_step. destruct (_ && _); [by exists None; eexists|]. rewrite Hs. set (s0 := with_caller _ _).
    unfold signal_work. change (threads s0) with (threads s). destruct (existsb is_waiting (threads s)) eqn:Ew; [|exists None; by eexists].
    apply existsb_exists in Ew as (w & Hin & Ew). apply list_elem_of_In, list_elem_of_lookup in Hin as [j Ej]. exists (Some j). destruct w; try done.
    rewrite Ej. by eexists.
Qed.

Lemma worker_running l i w w' : l !! i = Some w ->
  (length (omap item_of_worker (<[i := w']> l)) + length (option_list (item_of_worker w)) =
   length (omap item_of_worker l) + length (option_list (item_of_worker w')))%nat.
Proof. intros E. destruct (running_swap l i w w' E) as (r & -> & ->). rewrite !length_app. lia. Qed.

Lemma complete_work s (n : nat) : pending s = Z.of_nat (S n) -> Z.of_nat (S n) < 2 ^ 64 -> (length (running s) <= n)%nat ->
  (S (work (complete s)) < work s)%nat.
Proof.
  intros Hp Hb Hr. rewrite complete_eq. assert (u64 (pending s - 1) = Z.of_nat n) as -> by (rewrite wrap_id; unfold in_u; lia).
  unfold work. change (running (with_caller _ _)) with (running s). cbn [with_caller with_pending pending wp_caller].
  rewrite Hp, !Nat2Z.id. destruct (Z.of_nat n =? 0); unfold unsubmitted; cbn [wp_caller with_caller]; destruct (wp_caller s); cbn [woken phase length]; lia.
Qed.

(** A worker takes the batch further or, the queue being empty, falls asleep. *)
Lemma worker_work l s q i s' : pool_inv l s q -> worker_step s i = Some s' ->
  (work s' < work s)%nat \/
  (threads s !! i = Some AT_LOOP /\ (head s =? tail s)%nat = true /\ s' = with_threads s (<[i := WAITING_WORK]> (threads s))).
Proof.
  intros [Hq Hb Hp Hr Ht Ha [Hs Ho] Hc] H. unfold worker_step in H. pose proof (running_bound s) as Rb. pose proof Hq as (Hlq & _).
  destruct (threads s !! i) as [[| |x|]|] eqn:Ei; try done.
  - destruct (head s =? tail s)%nat eqn:Ee; [rewrite Hs in H; injection H as <-; by right|]. left. destruct q as [|x q].
    { by rewrite (proj2 (queued_empty s [] Hq) eq_refl) in Ee. }
    destruct (queued_pop s x q Hq) as [Ex _]. rewrite Ex in H. cbn [all_ok with_head] in H. cbn [length] in Hp, Hlq. destruct (all_ok s); cbn [negb] in H; injection H as <-.
    + pose proof (worker_running _ i _ (RUNNING x) Ei) as R. cbn in R. unfold work, running in *. unfold unsubmitted. cbn [with_threads with_head threads wp_caller pending] in *. lia.
    + pose proof (complete_work (with_head s ((head s + 1) mod wp_capacity s)) (length q + length (running s)) Hp ltac:(lia) ltac:(unfold running; cbn; lia)) as C.
      change (work (with_head s _)) with (work s) in C. lia.
  - injection H as <-. left. pose proof (worker_running _ i _ AT_LOOP Ei) as R. cbn in R. set (s0 := if negb (fn x) then with_all_ok s false else s).
    assert (threads s0 = threads s /\ wp_caller s0 = wp_caller s /\ pending s0 = pending s) as (E1 & E2 & E3) by (unfold s0; by destruct (fn x)).
    set (s1 := with_threads s0 _). assert (length (running s1) + 1 = length (running s))%nat as L by (unfold running, s1; cbn; rewrite E1; lia).
    pose proof (complete_work s1 (length q + length (running s1))) as C. change (pending s1) with (pending s0) in C. rewrite E3 in C.
    specialize (C ltac:(lia) ltac:(lia) ltac:(lia)).
    assert (work s1 = S (work s)) as W; [|lia]. unfold work, unsubmitted. change (wp_caller s1) with (wp_caller s0). change (pending s1) with (pending s0). rewrite E2, E3. lia.
Qed.

(** The caller takes the batch further, ends it, or blocks while there is work. *)
Lemma caller_work l s q wake s' : pool_inv l s q -> caller_step s wake = Some s' ->
  (work s' < work s)%nat \/ returned s' \/ (0 < pending s /\ work s' = work s /\ exists c, s' = with_caller s c).
Proof.
  intros [Hq Hb Hp Hr Ht Ha [Hs Ho] Hc] E. unfold caller_step in E. destruct (wp_caller s) as [[|x rest]|rest| | |ok| | |] eqn:Ec; try done.
  - injection E as <-. left. unfold work, unsubmitted. change (running (with_caller s _)) with (running s). cbn [with_caller wp_caller pending]. rewrite Ec. cbn [phase length]. lia.
  - unfold submit_step in E. rewrite Hs, andb_true_r in E. destruct (_ =? _)%nat eqn:Ef.
    + injection E as <-. right; right. pose proof (queued_full s q Hq (proj2 Ht) Ef). split; [rewrite Hp; destruct q; [done|]; cbn; lia|]. split; [|by eexists].
      unfold work, unsubmitted. cbn [with_caller wp_caller pending]. by rewrite Ec.
    + left. set (s0 := with_caller _ _) in E. destruct (signal_inv s0 wake s' E (proj1 Ht) Ho) as (t & -> & _ & Pt & _).
      pose proof (running_bound s) as Rb. pose proof Hq as (Hlq & _). apply Permutation_length in Pt. change (running s0) with (running s) in Pt.
      assert (pending s0 = pending s + 1) as Ep by (unfold s0; cbn; rewrite wrap_id; unfold in_u; lia).
      unfold work, unsubmitted, running at 1. change (wp_caller (with_threads s0 t)) with (SUBMITTING rest). change (pending (with_threads s0 t)) with (pending s0).
      cbn [with_threads threads]. rewrite Pt, Ep, Ec. cbn [phase length]. lia.
  - injection E as <-. right. unfold wait_step. destruct (Z.ltb_spec 0 (pending s)); [right|left; by eexists]. split; [done|]. split; [|by eexists].
    unfold work, unsubmitted. cbn [with_caller wp_caller pending]. by rewrite Ec.
Qed.

Lemma asleep_work s i w : threads s !! i = Some AT_LOOP -> item_of_worker w = None -> work (with_threads s (<[i := w]> (threads s))) = work s.
Proof.
  intros Ei Ew. pose proof (worker_running _ i _ w Ei) as R. rewrite Ew in R. cbn in R. unfold work, running, unsubmitted.
  cbn [with_threads threads wp_caller pending]. lia.
Qed.

Lemma spurious_work s s' : spurious s s' -> work s' = work s.
Proof.
  intros [i Ei|rest Ec|Ec]; unfold work, unsubmitted; cbn [with_threads with_caller wp_caller pending]; rewrite ?Ec; try done.
  pose proof (worker_running _ i _ AT_LOOP Ei) as R. cbn in R. unfold running. cbn [with_threads threads]. lia.
Qed.

(** Another thread's wake-up or sleep leaves a useful thread useful. *)
Lemma useful_others s i w v t : threads s !! i = Some v -> item_of_worker v = None -> (v = AT_LOOP -> (head s =? tail s)%nat = true) ->
  useful s t -> useful (with_threads s (<[i := w]> (threads s))) t.
Proof.
  intros Ei Ev Hv. destruct t as [j|]; cbn; [|done]. destruct (decide (j = i)) as [->|Hne]; [|by rewrite list_lookup_insert_ne].
  rewrite Ei. destruct v; try done. intros E. rewrite Hv in E by done. done.
Qed.

Lemma useful_stays l s q s' t : pool_inv l s q -> any_step s s' -> useful s t ->
  (work s' < work s)%nat \/ returned s' \/ (useful s' t /\ work s' = work s).
Proof.
  intros I [[i s1 E|wake s1 E]|E] U.
  - destruct (worker_work l s q i s1 I E) as [?|(Ei & Ee & ->)]; [by left|right; right]. split; [|by apply asleep_work]. by eapply useful_others.
  - destruct (caller_work l s q wake s1 I E) as [?|[?|(Hp & Hw & c & ->)]]; [by left|by right; left|right; right]. split; [|done].
    destruct t; [exact U|]. cbn in U. lia.
  - right; right. split; [|by apply spurious_work]. pose proof (pi_caller _ _ _ I) as Hc. destruct E as [i Ei|rest Ec|Ec].
    + by eapply useful_others.
    + rewrite Ec in Hc. destruct t; [exact U|]. cbn in U. lia.
    + rewrite Ec in Hc. destruct t; [exact U|]. cbn in U. lia.
Qed.

Lemma useful_step l s q t s' : pool_inv l s q -> useful s t -> thread_step s t s' -> (work s' < work s)%nat \/ returned s'.
Proof.
  intros I U E. destruct t as [i|]; cbn in U, E.
  - destruct (worker_work l s q i s' I E) as [?|(Ei & Ee & _)]; [by left|]. rewrite Ei in U. congruence.
  - destruct E as [wake E]. destruct (caller_work l s q wake s' I E) as [?|[?|(? & _)]]; [by left|by right|lia].
Qed.

(** ** Idle pools *)

(** Between two batches: nothing queued or in flight, the caller has returned. *)
Record idle (s : workpool) : Prop := {
  id_caller : exists ok, wp_caller s = RETURNED ok;
  id_queue : queued s [];
  id_running : running s = [];
  id_pending : pending s = 0;
  id_all_ok : all_ok s = true;
  id_bound : Z.of_nat (wp_capacity s + length (threads s)) < 2 ^ 64;
  id_threads : threads s <> [] /\ 2 <= Z.of_nat (wp_capacity s);
  id_open : shutdown s = false /\ Forall (fun w => is_exited w = false) (threads s) }.

Lemma run_inv s l : idle s -> pool_inv l (workpool_run s l) [].
Proof.
  intros [_ Hq Hr Hp Ha Hb Ht Ho]. unfold workpool_run. split; cbn; try done.
  - change (running (with_caller s _)) with (running s). by rewrite Hr.
  - intros _. change (running (with_caller s _)) with (running s). rewrite Ha, Hr. unfold unsubmitted. cbn. by rewrite app_nil_r.
Qed.

Lemma returned_idle l s q ok : pool_inv l s q -> wp_caller s = RETURNED ok -> ok = forallb fn l /\ idle s.
Proof.
  intros [Hq Hb Hp Hr Ht Ha Ho Hc] E. rewrite E in Hc. destruct Hc as (-> & -> & Er & Ea). split; [done|]. rewrite Er in Hp. split; try done. by eexists.
Qed.

(** After [shutdown]: every worker is at the top of its loop or gone. *)
Record closing (s : workpool) : Prop := {
  cl_queue : queued s [];
  cl_shutdown : shutdown s = true;
  cl_threads : Forall (fun w => is_ready w = true \/ is_exited w = true) (threads s);
  cl_caller : wp_caller s = JOINING \/ (wp_caller s = JOINED /\ Forall (fun w => is_exited w = true) (threads s)) }.

(** Before [shutdown] is set the idle workers may still fall asleep and be woken. *)
Record stopping (s : workpool) : Prop := {
  st_queue : queued s [];
  st_running : running s = [];
  st_open : shutdown s = false /\ Forall (fun w => is_exited w = false) (threads s);
  st_caller : wp_caller s = STOPPING }.

Definition stop_inv (s : workpool) : Prop := stopping s \/ closing s.
Definition joined (s : workpool) : Prop := wp_caller s = JOINED /\ Forall (fun w => is_exited w = true) (threads s).

(** What a stop has left to do: once a fair scheduler is assumed, falling asleep before
    [shutdown] is set does not count. *)
Definition stop_work (s : workpool) : nat :=
  match wp_caller s with STOPPING => length (threads s) + 2 | c => ready_count (threads s) + caller_weight c end.
Definition stop_measure (s : workpool) : nat :=
  (stop_work s + match wp_caller s with STOPPING => ready_count (threads s) | _ => 0 end)%nat.

Definition stop_useful (s : workpool) (t : thread) : Prop :=
  match t with
  | WORKER i => wp_caller s = JOINING /\ threads s !! i = Some AT_LOOP
  | CALLER => wp_caller s = STOPPING \/ (wp_caller s = JOINING /\ forallb is_exited (threads s) = true)
  end.

(** Nobody waits any more, so nobody is woken without cause. *)
Lemma closing_quiet s s' : closing s -> ~ spurious s s'.
Proof.
  intros [_ _ Ht Hc] [i Ei|rest Ec|Ec]; [|rewrite Ec in Hc; by destruct Hc as [?|[? _]]..].
  by destruct (Forall_lookup_1 _ _ _ _ Ht Ei).
Qed.

Lemma closing_step s s' : closing s -> step s s' -> closing s' /\ (joined s' \/ wp_caller s' = JOINING) /\ (stop_work s' < stop_work s)%nat.
Proof.
  intros [Hq Hs Ht Hc] [i s1 E|wake s1 E].
  - unfold worker_step in E. destruct (threads s !! i) as [w|] eqn:Ei; [|done]. pose proof (Forall_lookup_1 _ _ _ _ Ht Ei) as Hw.
    destruct w; try done; try (by destruct Hw). rewrite (proj2 (queued_empty s [] Hq) eq_refl), Hs in E. injection E as <-.
    pose proof (ready_swap _ i _ EXITED Ei) as R. cbn [is_ready] in R.
    destruct Hc as [Hc|[? Hx]]; [|exfalso; by pose proof (Forall_lookup_1 _ _ _ _ Hx Ei)].
    split; [|split; [by right|unfold stop_work; cbn [with_threads threads wp_caller]; rewrite Hc; lia]].
    split; cbn; try done; [apply Forall_insert; [done|by right]|by left].
  - unfold caller_step in E. destruct Hc as [Hc|[Hc _]]; rewrite Hc in E; [|done]. destruct (forallb is_exited (threads s)) eqn:Ef; [|done]. injection E as <-.
    assert (joined (with_caller s JOINED)) as J.
    { split; [done|]. apply List.Forall_forall. intros w Hw. by eapply forallb_forall in Ef. }
    split; [|split; [by left|unfold stop_work; cbn [with_caller threads wp_caller]; rewrite Hc; cbn [caller_weight]; lia]].
    split; cbn; try done. by right.
Qed.

Lemma stopping_closing s wake s' : stopping s -> caller_step s wake = Some s' -> closing s' /\ (stop_work s' < stop_work s)%nat.
Proof.
  intros [Hq Hr [Hs Ho] Hc] E. unfold caller_step in E. rewrite Hc in E. injection E as <-. split.
  - split; cbn; try done; [|by left].
    apply List.Forall_forall. intros w Hw. apply in_map_iff in Hw as (v & <- & Hv). rewrite List.Forall_forall in Ho. specialize (Ho v Hv). destruct v; cbn; auto.
    exfalso. apply list_elem_of_In in Hv. assert (x ∈ running s) as Hx by (unfold running; apply list_elem_of_omap; by exists (RUNNING x)).
    rewrite Hr in Hx. by apply elem_of_nil in Hx.
  - unfold stop_work. cbn [with_caller wp_caller threads caller_weight]. rewrite Hc. unfold ready_count.
    match goal with |- context [base.filter ?P (map ?g ?l)] => pose proof (length_filter P (map g l)) as L; rewrite length_map in L end. lia.
Qed.

(** A worker that falls asleep or is woken before [shutdown]. *)
Lemma stopping_swap s i v w : stopping s -> threads s !! i = Some v -> item_of_worker w = None -> is_exited w = false ->
  stopping (with_threads s (<[i := w]> (threads s))) /\ stop_work (with_threads s (<[i := w]> (threads s))) = stop_work s.
Proof.
  intros [Hq Hr [Hs Ho] Hc] Ei Ew Hx. split; [|unfold stop_work; cbn [with_threads wp_caller threads]; by rewrite Hc, length_insert].
  split; try done; [|split; [done|by apply open_insert]].
  destruct (running_swap (threads s) i v w Ei) as (r & P1 & P2). fold (running s) in P1. rewrite Hr in P1.
  apply Permutation_nil in P1. apply app_eq_nil in P1 as [_ ->]. rewrite Ew in P2. by apply Permutation_sym, Permutation_nil in P2.
Qed.

Lemma stopping_worker s i s' : stopping s -> worker_step s i = Some s' ->
  threads s !! i = Some AT_LOOP /\ s' = with_threads s (<[i := WAITING_WORK]> (threads s)).
Proof.
  intros [Hq Hr [Hs Ho] Hc] E. unfold worker_step in E. destruct (threads s !! i) as [[| |x|]|] eqn:Ei; try done.
  - rewrite (proj2 (queued_empty s [] Hq) eq_refl), Hs in E. by injection E as <-.
  - exfalso. apply list_elem_of_lookup_2 in Ei. assert (x ∈ running s) as Hx by (unfold running; apply list_elem_of_omap; by exists (RUNNING x)).
    rewrite Hr in Hx. by apply elem_of_nil in Hx.
Qed.

(** Stopping goes on, and only a wake-up makes more steps of it. *)
Lemma stop_step s s' : stop_inv s -> step s s' ->
  stop_inv s' /\ (stop_measure s' < stop_measure s)%nat /\
  ((stop_work s' < stop_work s)%nat \/ (stopping s /\ stopping s' /\ stop_work s' = stop_work s)).
Proof.
  assert (forall s, closing s -> stop_measure s = stop_work s) as Hcl.
  { intros u [_ _ _ [Hc|[Hc _]]]; unfold stop_measure; rewrite Hc; lia. }
  intros [H|H] E; [|destruct (closing_step s s' H E) as (H1 & _ & Hw); split; [by right|rewrite (Hcl s H), (Hcl s' H1); auto]].
  destruct E as [i s1 E|wake s1 E].
  - pose proof (stopping_worker s i s1 H E) as [Ei ->]. destruct (stopping_swap s i _ WAITING_WORK H Ei eq_refl eq_refl) as [H1 Hw].
    split; [by left|]. split; [|by right]. pose proof (ready_swap _ i _ WAITING_WORK Ei) as R. cbn [is_ready] in R.
    unfold stop_measure. rewrite Hw. cbn [with_threads wp_caller threads]. rewrite (st_caller s H). lia.
  - destruct (stopping_closing s wake s1 H E) as [H1 Hw]. split; [by right|]. split; [|by left].
    rewrite (Hcl s1 H1). unfold stop_measure. lia.
Qed.

Lemma stop_wake s s' : stop_inv s -> spurious s s' ->
  stopping s /\ stopping s' /\ (stop_measure s' <= S (stop_measure s))%nat /\ stop_work s' = stop_work s.
Proof.
  intros [H|H] E; [|by destruct (closing_quiet s s' H)].
  pose proof (st_caller s H) as Hc. destruct E as [i Ei|rest Ec|Ec]; [|congruence..].
  destruct (stopping_swap s i _ AT_LOOP H Ei eq_refl eq_refl) as [H1 Hw]. split_and!; try done.
  pose proof (ready_swap _ i _ AT_LOOP Ei) as R. cbn [is_ready] in R. unfold stop_measure. rewrite Hw.
  cbn [with_threads wp_caller threads]. rewrite Hc. lia.
Qed.

Lemma stop_any s s' : stop_inv s -> any_step s s' -> stop_inv s'.
Proof. intros J [E|E]; [by eapply stop_step|left; by eapply stop_wake]. Qed.

Lemma stop_exists s : stop_inv s -> joined s \/ exists t, stop_useful s t.
Proof.
  intros [H|H]; [right; exists CALLER; left; apply H|]. destruct (cl_caller s H) as [Hc|Hc]; [right|by left].
  destruct (forallb is_exited (threads s)) eqn:Ef; [exists CALLER; by right|].
  assert (exists i, threads s !! i = Some AT_LOOP) as [i Ei]; [|by exists (WORKER i)].
  pose proof (cl_threads s H) as F. induction (threads s) as [|w t IHt]; [done|]. apply Forall_cons_iff in F as [Hw F]. cbn in Ef.
  destruct w; try (by destruct Hw); [by exists 0%nat|]. destruct (IHt Ef F) as [i Ei]. by exists (S i).
Qed.

Lemma stop_enabled s t : stop_inv s -> stop_useful s t -> exists s', thread_step s t s'.
Proof.
  intros H U. destruct t as [i|]; cbn in *.
  - destruct U as [Hc Ei]. unfold worker_step. rewrite Ei. destruct H as [H|H]; [pose proof (st_caller s H); congruence|].
    rewrite (proj2 (queued_empty s [] (cl_queue s H)) eq_refl). by eexists.
  - assert (exists s', caller_step s None = Some s') as [s' E]; [|by exists s', None].
    unfold caller_step. destruct U as [->|[-> ->]]; by eexists.
Qed.

Lemma stop_stays s s' t : stop_inv s -> any_step s s' -> stop_useful s t ->
  (stop_work s' < stop_work s)%nat \/ joined s' \/ (stop_useful s' t /\ stop_work s' = stop_work s).
Proof.
  intros H E U. assert ((stop_work s' < stop_work s)%nat \/ (stopping s /\ stopping s' /\ stop_work s' = stop_work s)) as [?|(Hs & Hs' & Hw)].
  - destruct E as [E|E]; [by eapply stop_step|]. destruct (stop_wake s s' H E) as (? & ? & _ & ?). by right.
  - by left.
  - right; right. split; [|done]. pose proof (st_caller s Hs) as Hc. destruct t; cbn in *; [destruct U; congruence|]. left. apply Hs'.
Qed.

Lemma stop_useful_step s s' t : stop_inv s -> stop_useful s t -> thread_step s t s' -> (stop_work s' < stop_work s)%nat \/ joined s'.
Proof.
  intros [H|H] U E.
  - destruct t as [i|]; cbn in U; [pose proof (st_caller s H); destruct U; congruence|]. destruct E as [wake E]. left. by eapply stopping_closing.
  - left. by apply closing_step; [|by eapply thread_steps].
Qed.

Lemma spawn_ready n create i : Forall (fun w => is_exited w = false) (spawn n create i) /\ omap item_of_worker (spawn n create i) = [] /\ (length (spawn n create i) <= n)%nat.
Proof.
  revert i. induction n as [|n IH]; intros i; cbn [spawn]; [done|]. destruct (create i); [|split_and!; [constructor|done|cbn; lia]].
  destruct (IH (S i)) as (F & E & L). split_and!; [by constructor|done|cbn; lia].
Qed.

Lemma init_idle `{Allocator} num_threads cores queue_cap create s : 0 <= queue_cap < 2 ^ 63 ->
  workpool_init num_threads cores queue_cap create = Some s -> idle s.
Proof.
  intros Hc. unfold workpool_init. destruct ((queue_cap =? 0) || _) eqn:Eg; [done|]. apply orb_false_iff in Eg as [Eg _]. apply Z.eqb_neq in Eg.
  destruct (alloc_ok _); cbn [negb]; [|done]. set (n := Z.to_nat (clamp_threads num_threads cores)).
  assert (n <= 64)%nat as Hn.
  { unfold n, clamp_threads, WORKPOOL_MAX_THREADS. destruct (Z.ltb_spec 64 (if (if num_threads <=? 0 then cores else num_threads) <? 1 then 1 else (if num_threads <=? 0 then cores else num_threads))); lia. }
  destruct (spawn_ready n create 0) as (F & E & L). destruct (spawn n create 0) as [|w t] eqn:Es; [done|]. intros [= <-].
  split; cbn [wp_caller threads wp_capacity pending all_ok shutdown]; try done; [by eexists| |lia|split; [done|lia]].
  split_and!; cbn [wp_items wp_capacity head tail length]; [lia|lia|by rewrite length_replicate|rewrite Nat.mod_small; lia|done].
Qed.
(** ** The two operations *)

(** The invariant of the batch [l], whatever is queued, and its goal. *)
Definition batch (l : list A) (s : workpool) : Prop := exists q, pool_inv l s q.
Definition answered (l : list A) (s : workpool) : Prop := wp_caller s = RETURNED (forallb fn l).

Lemma batch_step l s s' : batch l s -> any_step s s' -> batch l s'.
Proof. intros [q Q]. by apply any_step_inv with (q := q). Qed.

Lemma batch_answered l s : batch l s -> returned s -> answered l s.
Proof. intros [q Q] [ok E]. pose proof (pi_caller _ _ _ Q) as C. rewrite E in C. unfold answered. by destruct C as (<- & _). Qed.

Lemma batch_exists l s : batch l s -> answered l s \/ exists t, useful s t.
Proof. intros B. pose proof B as [q Q]. destruct (useful_exists l s q Q); [left; by apply batch_answered|by right]. Qed.

Lemma batch_enabled l s t : batch l s -> useful s t -> exists s', thread_step s t s'.
Proof. intros [q Q]. by eapply useful_enabled. Qed.

Lemma batch_measure l s s' : batch l s -> step s s' -> (measure s' < measure s)%nat.
Proof. intros [q Q]. by eapply step_measure. Qed.

Lemma batch_inevitable l s : batch l s -> inevitable (answered l) s.
Proof. exact (inevitable_by _ _ (batch_step l) useful (batch_exists l) (batch_enabled l) measure (batch_measure l) s). Qed.

Lemma batch_bound l n k s s' : batch l s -> steps n k s s' -> (n + measure s' <= measure s + k)%nat.
Proof. apply (steps_by _ (batch_step l) measure (batch_measure l)). intros s1 s2 _. apply spurious_measure. Qed.

Lemma batch_fair l s f : batch l s -> fair_run s f -> exists n, answered l (f n).
Proof.
  apply (fair_by (batch l) (answered l) (batch_step l) useful (batch_exists l) (batch_enabled l) work).
  - intros s1 s2 t B E U. pose proof B as [q Q]. pose proof (batch_step _ _ _ B E).
    destruct (useful_stays l s1 q s2 t Q E U) as [?|[?|?]]; [by left|right; left; by apply batch_answered|by right; right].
  - intros s1 s2 t B U E. pose proof B as [q Q]. pose proof (batch_step _ _ _ B (or_introl (thread_steps _ _ _ E))).
    destruct (useful_step l s1 q t s2 Q U E); [by left|right; by apply batch_answered].
Qed.

Lemma run_measure s l : idle s -> (measure (workpool_run s l) <= 5 * length l + length (threads s) + 3)%nat.
Proof.
  intros I. unfold measure, unsubmitted, workpool_run. cbn [with_caller wp_caller pending threads caller_weight]. rewrite (id_pending s I).
  unfold ready_count. pose proof (length_filter (fun w => is_ready w = true) (threads s)). lia.
Qed.

Lemma destroy_inv s : idle s -> stop_inv (workpool_destroy s) /\ (stop_measure (workpool_destroy s) <= 2 * length (threads s) + 2)%nat.
Proof.
  intros [_ Hq Hr _ _ _ _ Ho]. split; [by left|]. unfold stop_measure, stop_work, workpool_destroy. cbn [with_caller wp_caller threads].
  unfold ready_count. pose proof (length_filter (fun w => is_ready w = true) (threads s)). lia.
Qed.

Lemma stop_reachable s s' : stop_inv s -> rtc any_step s s' -> stop_inv s'.
Proof. intros J R. induction R as [|s s1 s2 E _ IH]; [done|]. apply IH. by eapply stop_any. Qed.

Lemma stop_inevitable s : stop_inv s -> inevitable joined s.
Proof.
  apply (inevitable_by stop_inv) with (U := stop_useful) (m := stop_measure); [exact stop_any|exact stop_exists|exact stop_enabled|].
  intros s1 s2 J E. by apply stop_step.
Qed.

Lemma stop_bound s n k s' : stop_inv s -> steps n k s s' -> (n + stop_measure s' <= stop_measure s + k)%nat.
Proof.
  apply (steps_by stop_inv stop_any); [intros s1 s2 J E; by apply stop_step|intros s1 s2 J E; by apply stop_wake].
Qed.

Lemma stop_fair s f : stop_inv s -> fair_run s f -> exists n, joined (f n).
Proof.
  apply (fair_by stop_inv joined) with (w := stop_work) (U := stop_useful);
    [exact stop_any|exact stop_exists|exact stop_enabled|exact stop_stays|exact stop_useful_step].
Qed.

End Pool.

(** C29: the pool runs a batch. A pool that initialisation returned is idle. From an idle
    pool, [workpool_run] of a batch of any size: in every state that the threads and the
    wake-ups nobody asked for can lead to, every schedule of the threads, as long as no more
    such wake-ups come, never deadlocks and returns the conjunction of the work function
    over the whole batch, although a failure lets the workers drop what is still queued;
    once it has returned, the pool is idle again, so the next batch starts clean. All the
    threads together take at most five steps for an item, one for a thread and three more,
    and one for each wake-up without cause. Should such wake-ups never end, it still returns
    under every fair schedule: one in which every thread, from every moment on, sooner or
    later steps or has no step to take. In the same three senses destroying an idle pool
    ends with all threads gone, after at most two steps for a thread and two more, and one
    for each wake-up without cause. *)
Theorem workpool_run_spec {A : Type} (fn : A -> bool) (s : workpool) :
  (forall (al : Allocator) num_threads cores queue_cap create s0, 0 <= queue_cap < 2 ^ 63 ->
     workpool_init (A := A) num_threads cores queue_cap create = Some s0 -> idle s0) /\
  (idle s ->
  (forall l : list A,
     (forall s', rtc (any_step fn) (workpool_run s l) s' ->
        inevitable fn (fun s2 => wp_caller s2 = RETURNED (forallb fn l)) s' /\
        (forall ok, wp_caller s' = RETURNED ok -> ok = forallb fn l /\ idle s')) /\
     (forall n k s', steps fn n k (workpool_run s l) s' -> (n <= 5 * length l + length (threads s) + 3 + k)%nat) /\
     (forall f, fair_run fn (workpool_run s l) f -> exists n, wp_caller (f n) = RETURNED (forallb fn l))) /\
  (forall s', rtc (any_step fn) (workpool_destroy s) s' -> inevitable fn joined s') /\
  (forall n k s', steps fn n k (workpool_destroy s) s' -> (n <= 2 * length (threads s) + 2 + k)%nat) /\
  (forall f, fair_run fn (workpool_destroy s) f -> exists n, joined (f n))).
Proof.
  split; [intros; by eapply init_idle|]. intros I. split; [intros l|destruct (destroy_inv s I) as [J B]]; split_and!.
  - intros s' R. destruct (reachable_inv fn l _ _ _ (run_inv fn s l I) R) as [q Q]. split; [apply batch_inevitable; by exists q|].
    intros ok E. by eapply returned_idle.
  - intros n k s' R. pose proof (batch_bound fn l n k _ s' (ex_intro _ [] (run_inv fn s l I)) R). pose proof (run_measure s l I). lia.
  - intros f. apply batch_fair. exists []. by apply run_inv.
  - intros s' R. apply stop_inevitable. by eapply stop_reachable.
  - intros n k s' R. pose proof (stop_bound fn _ n k s' J R). lia.
  - intros f. by apply stop_fair.
Qed.

Section Witness.
#[local] Instance pool_alloc : Allocator := fun _ => true.

(** Two threads and a queue of one, over a batch that fails in the middle. *)
Definition small_pool : option workpool := workpool_init (A := Z) 2 8 1 (fun _ => true).
Definition small_start : workpool := workpool_run (default (mk_pool [] false [] 0 0 1 0 true AWAITING) small_pool) [3; 1; -1; 4].

(** A schedule for it: the first thread that has a step takes it. *)
Definition first_step (s : workpool) : workpool :=
  default s (list_find is_Some [worker_step (Z.ltb 0) s 0; worker_step (Z.ltb 0) s 1; caller_step s None; caller_step s (Some 0%nat); caller_step s (Some 1%nat)]
    ≫= snd).
Definition schedule (n : nat) : workpool := Nat.iter n first_step small_start.

Lemma first_step_steps s : first_step s = s \/ step (Z.ltb 0) s (first_step s).
Proof.
  unfold first_step.
  destruct (worker_step (Z.ltb 0) s 0) as [s1|] eqn:E0; [right; by eapply step_worker|].
  destruct (worker_step (Z.ltb 0) s 1) as [s1|] eqn:E1; [right; by eapply step_worker|].
  destruct (caller_step s None) as [s1|] eqn:E2; [right; by eapply step_caller|].
  destruct (caller_step s (Some 0%nat)) as [s1|] eqn:E3; [right; by eapply step_caller|].
  destruct (caller_step s (Some 1%nat)) as [s1|] eqn:E4; [right; by eapply step_caller|by left].
Qed.

(** It ends with both workers asleep and the caller gone, so it is fair. *)
Lemma schedule_fair : fair_run (Z.ltb 0) small_start schedule.
Proof.
  split; [reflexivity|..].
  - intros n. change (schedule (S n)) with (first_step (schedule n)). destruct (first_step_steps (schedule n)) as [?|?]; [by left|right; by left].
  - assert (forall k, schedule (k + 60) = schedule 60) as Hk.
    { induction k as [|k IH]; [done|]. change (schedule (S k + 60)) with (first_step (schedule (k + 60))). rewrite IH. by vm_compute. }
    intros t n. exists (n + 60)%nat. split; [lia|right]. rewrite Hk.
    assert (threads (schedule 60) = [WAITING_WORK; WAITING_WORK] /\ wp_caller (schedule 60) = RETURNED false) as [Et Ec] by (vm_compute; done).
    revert Et Ec. generalize (schedule 60). intros s Et Ec s'. destruct t as [i|]; cbn.
    + unfold worker_step. rewrite Et. by destruct i as [|[|i]].
    + intros [wake E]. unfold caller_step in E. by rewrite Ec in E.
Qed.

Lemma workpool_run_spec_witness :
  inevitable (Z.ltb 0) (fun s2 => wp_caller s2 = RETURNED false) small_start /\
  exists n, wp_caller (schedule n) = RETURNED false.
Proof.
  destruct small_pool as [s|] eqn:E; [|discriminate E].
  destruct (workpool_run_spec (Z.ltb 0) s) as [Hi Hr].
  assert (small_start = workpool_run s [3; 1; -1; 4]) as Es by (unfold small_start; rewrite E; reflexivity).
  destruct (Hr (Hi pool_alloc 2 8 1 (fun _ => true) s ltac:(lia) E)) as [Hb _].
  destruct (Hb [3; 1; -1; 4]) as (Ha & _ & Hf). rewrite <- Es in *. split.
  - exact (proj1 (Ha _ (rtc_refl _ _))).
  - exact (Hf schedule schedule_fair).
Defined.
End Witness.
