(* ===== verification/ByteOrder.v ===== *)
(** * Fixed-width byte-order codec

    Model of [platform/modules/base/include/base/serialize_le.h]. The host byte
    order is a parameter: [memcpy] between an integer object and bytes stores
    the object representation of that host, and the codec swaps where the
    compile-time flag says so. *)

From stdpp Require Import base tactics list numbers option.
From Stdlib Require Import ZArith Lia.
From S2P Require Import Prelude Serialize.

(** [ZCL_HOST_BIG_ENDIAN] *)
Class HostOrder := ZCL_HOST_BIG_ENDIAN : bool.

Definition zcl_bswap16 (x : Z) : Z := u16 (u16 (x >> 8) .| u16 (x << 8)).

Definition zcl_bswap32 (x : Z) : Z :=
  ((x >> 24) .& 0x000000FF) .| ((x >> 8) .& 0x0000FF00) .|
  (u32 (x << 8) .& 0x00FF0000) .| (u32 (x << 24) .& 0xFF000000).

Definition zcl_bswap64 (x : Z) : Z :=
  ((x >> 56) .& 0x00000000000000FF) .|
  ((x >> 40) .& 0x000000000000FF00) .|
  ((x >> 24) .& 0x0000000000FF0000) .|
  ((x >> 8) .& 0x00000000FF000000) .|
  (u64 (x << 8) .& 0x000000FF00000000) .|
  (u64 (x << 24) .& 0x0000FF0000000000) .|
  (u64 (x << 40) .& 0x00FF000000000000) .|
  (u64 (x << 56) .& 0xFF00000000000000).

Section Codec.
Context `{HostOrder}.

(** [memcpy(p, &w, n)] and [memcpy(&w, p, n)] on this host. *)
Definition store_object (n : nat) (w : Z) : list Z :=
  if ZCL_HOST_BIG_ENDIAN then rev (digits_of 8 n w) else digits_of 8 n w.
Definition load_object (n : nat) (p : list Z) : Z :=
  digits_val 8 (if ZCL_HOST_BIG_ENDIAN then rev (take n p) else take n p).

Definition zcl_write_u16_le (v : Z) : list Z :=
  store_object 2 (if ZCL_HOST_BIG_ENDIAN then zcl_bswap16 v else v).
Definition zcl_write_u32_le (v : Z) : list Z :=
  store_object 4 (if ZCL_HOST_BIG_ENDIAN then zcl_bswap32 v else v).
Definition zcl_write_u64_le (v : Z) : list Z :=
  store_object 8 (if ZCL_HOST_BIG_ENDIAN then zcl_bswap64 v else v).
Definition zcl_read_u16_le (p : list Z) : Z :=
  let w := load_object 2 p in if ZCL_HOST_BIG_ENDIAN then zcl_bswap16 w else w.
Definition zcl_read_u32_le (p : list Z) : Z :=
  let w := load_object 4 p in if ZCL_HOST_BIG_ENDIAN then zcl_bswap32 w else w.
Definition zcl_read_u64_le (p : list Z) : Z :=
  let w := load_object 8 p in if ZCL_HOST_BIG_ENDIAN then zcl_bswap64 w else w.

Definition zcl_write_i32_le (v : Z) : list Z := zcl_write_u32_le (u32 v).
Definition zcl_write_i64_le (v : Z) : list Z := zcl_write_u64_le (u64 v).
Definition zcl_read_i32_le (p : list Z) : Z := i32 (zcl_read_u32_le p).
Definition zcl_read_i64_le (p : list Z) : Z := i64 (zcl_read_u64_le p).

Definition zcl_write_u32_be (v : Z) : list Z :=
  store_object 4 (if ZCL_HOST_BIG_ENDIAN then v else zcl_bswap32 v).
Definition zcl_write_u64_be (v : Z) : list Z :=
  store_object 8 (if ZCL_HOST_BIG_ENDIAN then v else zcl_bswap64 v).
Definition zcl_read_u32_be (p : list Z) : Z :=
  let w := load_object 4 p in if ZCL_HOST_BIG_ENDIAN then w else zcl_bswap32 w.
Definition zcl_read_u64_be (p : list Z) : Z :=
  let w := load_object 8 p in if ZCL_HOST_BIG_ENDIAN then w else zcl_bswap64 w.

End Codec.

(** ** Byte fields *)

Definition byte_at (x k : Z) : Z := (x / 2 ^ k) mod 256.

Lemma byte_at_range x k : in_u 8 (byte_at x k).
Proof. apply Z.mod_pos_bound. lia. Qed.

Lemma land_byte_field y k : 0 <= k -> y .& (255 << k) = byte_at y k << k.
Proof.
  intros Hk. unfold byte_at. change 256 with (2 ^ 8). apply Z.bits_inj'. intros n Hn.
  rewrite Z.land_spec. destruct (Z.lt_ge_cases n k).
  { by rewrite !Z.shiftl_spec_low, andb_false_r by lia. }
  rewrite !Z.shiftl_spec by lia. change 255 with (Z.ones 8). destruct (Z.lt_ge_cases (n - k) 8).
  - rewrite Z.ones_spec_low, andb_true_r, Z.mod_pow2_bits_low, Z.div_pow2_bits by lia. f_equal. lia.
  - rewrite Z.ones_spec_high, andb_false_r, Z.mod_pow2_bits_high by lia. done.
Qed.

Lemma shr_byte_field x s k m :
  m = 255 << k -> 0 <= s -> 0 <= k -> (x >> s) .& m = byte_at x (k + s) << k.
Proof.
  intros -> Hs Hk. rewrite land_byte_field by done. unfold byte_at.
  rewrite Z.shiftr_div_pow2, Z.div_div, <- Z.pow_add_r by (try apply pow2_pos; lia).
  do 3 f_equal. f_equal. lia.
Qed.

Lemma shl_byte_field w x s k m :
  m = 255 << k -> 0 <= s <= k -> k + 8 <= w -> (wrap w (x << s)) .& m = byte_at x (k - s) << k.
Proof.
  intros -> Hs Hk. rewrite land_byte_field by lia. f_equal. unfold byte_at, wrap. change 256 with (2 ^ 8).
  apply Z.bits_inj'. intros n Hn. destruct (Z.lt_ge_cases n 8).
  - rewrite !Z.mod_pow2_bits_low, !Z.div_pow2_bits by lia.
    rewrite Z.mod_pow2_bits_low, Z.shiftl_spec by lia. f_equal. lia.
  - by rewrite !Z.mod_pow2_bits_high by lia.
Qed.

Lemma digits_of_byte_at n x : digits_of 8 n x = map (fun i => byte_at x (8 * Z.of_nat i)) (seq 0 n).
Proof.
  rewrite <- digits_of_shiftr. apply map_ext. intros i. unfold wrap, byte_at.
  by rewrite Z.shiftr_div_pow2 by lia.
Qed.

(** Fold the fields of a swapped word, least significant first, into digits. *)
Ltac merge_fields :=
  repeat match goal with
  | R : in_u _ ?v |- context [?v .| (byte_at ?x ?j << ?k)] =>
      destruct (merge_byte v (byte_at x j) k ltac:(lia) R (byte_at_range x j)) as [-> ?R]
  end.

Ltac norm_offsets :=
  repeat match goal with
  | |- context [8 * Z.of_nat ?i] => let k := eval vm_compute in (8 * Z.of_nat i) in change (8 * Z.of_nat i) with k
  | |- context [byte_at ?x (?a + ?b)] => let k := eval vm_compute in (a + b) in change (a + b) with k
  | |- context [byte_at ?x (?a - ?b)] => let k := eval vm_compute in (a - b) in change (a - b) with k
  end.

Lemma bswap16_spec x : in_u 16 x -> zcl_bswap16 x = digits_val 8 (rev (digits_of 8 2 x)).
Proof.
  intros Hx. rewrite digits_of_byte_at. cbn [seq map rev app digits_val Z.of_nat Z.mul].
  unfold zcl_bswap16. rewrite (wrap_id 16 (x >> 8)).
  2:{ apply shiftr_range; [lia..|exact Hx]. }
  assert (u16 (x << 8) = byte_at x 0 << 8) as ->.
  { unfold wrap, byte_at. rewrite !Z.shiftl_mul_pow2, Z.div_1_r by lia.
    rewrite (Z.mul_comm x), (Z.mul_comm (_ mod _)). change (2 ^ 16) with (2 ^ 8 * 256).
    by rewrite Z.mul_mod_distr_l by lia. }
  assert (x >> 8 = byte_at x 8) as ->.
  { rewrite Z.shiftr_div_pow2 by lia. unfold byte_at. rewrite Z.mod_small; [done|].
    destruct Hx. split; [apply Z.div_pos|apply Z.div_lt_upper_bound]; lia. }
  pose proof (byte_at_range x 8) as R. merge_fields.
  rewrite wrap_id by done. norm_offsets. lia.
Qed.

Lemma bswap32_spec x : zcl_bswap32 x = digits_val 8 (rev (digits_of 8 4 x)).
Proof.
  rewrite digits_of_byte_at. cbn [seq map rev app digits_val]. unfold zcl_bswap32.
  rewrite (shr_byte_field x 24 0 0xFF), (shr_byte_field x 8 8 0xFF00), (shl_byte_field 32 x 8 16 0xFF0000),
    (shl_byte_field 32 x 24 24 0xFF000000) by (done || lia).
  rewrite Z.shiftl_0_r. pose proof (byte_at_range x (0 + 24)) as R. cbn [Z.add] in *. merge_fields.
  norm_offsets. lia.
Qed.

Lemma bswap64_spec x : zcl_bswap64 x = digits_val 8 (rev (digits_of 8 8 x)).
Proof.
  rewrite digits_of_byte_at. cbn [seq map rev app digits_val]. unfold zcl_bswap64.
  rewrite (shr_byte_field x 56 0 0xFF), (shr_byte_field x 40 8 0xFF00), (shr_byte_field x 24 16 0xFF0000), (shr_byte_field x 8 24 0xFF000000),
    (shl_byte_field 64 x 8 32 0xFF00000000), (shl_byte_field 64 x 24 40 0xFF0000000000), (shl_byte_field 64 x 40 48 0xFF000000000000),
    (shl_byte_field 64 x 56 56 0xFF00000000000000) by (done || lia).
  rewrite Z.shiftl_0_r. pose proof (byte_at_range x (0 + 56)) as R. cbn [Z.add] in *. merge_fields.
  norm_offsets. lia.
Qed.

(** ** Host independence *)

Lemma digits_rev w l : digits w l -> digits w (rev l).
Proof. apply List.Forall_rev. Qed.

Lemma store_swapped n v :
  digits_of 8 n (digits_val 8 (rev (digits_of 8 n v))) = rev (digits_of 8 n v).
Proof.
  pose proof (digits_of_val 8 (rev (digits_of 8 n v)) ltac:(lia)) as E.
  rewrite length_rev, length_digits_of in E. apply E, digits_rev, digits_of_digits. lia.
Qed.

Lemma load_swapped n l :
  bytes l -> length l = n -> digits_val 8 (rev (digits_of 8 n (digits_val 8 l))) = digits_val 8 (rev l).
Proof. intros Hl <-. by rewrite digits_of_val. Qed.

Lemma bytes_val_range n p : bytes p -> length p = n -> in_u (8 * Z.of_nat n) (digits_val 8 p).
Proof. intros Hp <-. by apply digits_val_bound. Qed.

(** One lemma per store and load; loads read from a pointer into a longer buffer. *)
Ltac codec_case :=
  unfold zcl_write_u16_le, zcl_write_u32_le, zcl_write_u64_le, zcl_write_u32_be, zcl_write_u64_be,
    zcl_read_u16_le, zcl_read_u32_le, zcl_read_u64_le, zcl_read_u32_be, zcl_read_u64_be,
    store_object, load_object;
  destruct ZCL_HOST_BIG_ENDIAN; intros; rewrite ?bswap32_spec, ?bswap64_spec;
  rewrite ?bswap16_spec by (done || apply (bytes_val_range 2); rewrite ?length_rev, ?length_take; try lia; auto using digits_rev, digits_take);
  rewrite ?store_swapped, ?load_swapped, ?rev_involutive
    by (rewrite ?length_rev, ?length_take; try lia; auto using digits_rev, digits_take); done.

Section CodecBytes.
Context `{HostOrder}.

Lemma write_u16_le_bytes v : in_u 16 v -> zcl_write_u16_le v = digits_of 8 2 v.
Proof. codec_case. Qed.
Lemma write_u32_le_bytes v : zcl_write_u32_le v = digits_of 8 4 v.
Proof. codec_case. Qed.
Lemma write_u64_le_bytes v : zcl_write_u64_le v = digits_of 8 8 v.
Proof. codec_case. Qed.
Lemma write_u32_be_bytes v : zcl_write_u32_be v = rev (digits_of 8 4 v).
Proof. codec_case. Qed.
Lemma write_u64_be_bytes v : zcl_write_u64_be v = rev (digits_of 8 8 v).
Proof. codec_case. Qed.
Lemma read_u16_le_bytes p : bytes p -> (2 <= length p)%nat -> zcl_read_u16_le p = digits_val 8 (take 2 p).
Proof. codec_case. Qed.
Lemma read_u32_le_bytes p : bytes p -> (4 <= length p)%nat -> zcl_read_u32_le p = digits_val 8 (take 4 p).
Proof. codec_case. Qed.
Lemma read_u64_le_bytes p : bytes p -> (8 <= length p)%nat -> zcl_read_u64_le p = digits_val 8 (take 8 p).
Proof. codec_case. Qed.
Lemma read_u32_be_bytes p : bytes p -> (4 <= length p)%nat -> zcl_read_u32_be p = digits_val 8 (rev (take 4 p)).
Proof. codec_case. Qed.
Lemma read_u64_be_bytes p : bytes p -> (8 <= length p)%nat -> zcl_read_u64_be p = digits_val 8 (rev (take 8 p)).
Proof. codec_case. Qed.

End CodecBytes.

(** The codec is defined by the bytes, on every host: whatever the host
    byte order, [_le] stores exactly the little-endian digits and [_be] the
    big-endian digits of the value, and each load returns the value those bytes
    denote, so every store/load pair of a width round-trips. *)
Theorem byte_order_host_independent `{HostOrder} :
  (forall v, in_u 16 v -> zcl_write_u16_le v = digits_of 8 2 v) /\
  (forall v, zcl_write_u32_le v = digits_of 8 4 v) /\
  (forall v, zcl_write_u64_le v = digits_of 8 8 v) /\
  (forall v, zcl_write_u32_be v = rev (digits_of 8 4 v)) /\
  (forall v, zcl_write_u64_be v = rev (digits_of 8 8 v)) /\
  (forall p, bytes p -> length p = 2%nat -> zcl_read_u16_le p = digits_val 8 p) /\
  (forall p, bytes p -> length p = 4%nat -> zcl_read_u32_le p = digits_val 8 p) /\
  (forall p, bytes p -> length p = 8%nat -> zcl_read_u64_le p = digits_val 8 p) /\
  (forall p, bytes p -> length p = 4%nat -> zcl_read_u32_be p = digits_val 8 (rev p)) /\
  (forall p, bytes p -> length p = 8%nat -> zcl_read_u64_be p = digits_val 8 (rev p)).
Proof.
  split_and!; intros; auto using write_u16_le_bytes, write_u32_le_bytes, write_u64_le_bytes,
    write_u32_be_bytes, write_u64_be_bytes.
  all: rewrite ?read_u16_le_bytes, ?read_u32_le_bytes, ?read_u64_le_bytes, ?read_u32_be_bytes,
    ?read_u64_be_bytes by (done || lia); by rewrite take_ge by lia.
Qed.
