(* ===== verification/Params.v ===== *)
(** * Consensus parameters, network upgrades and the block subsidy

    Model of [core/params/{include/consensus/params.h,src/params.c,src/upgrades.c}],
    [core/consensus/src/upgrades.c], [core/consensus/src/subsidy.c], the amount
    constants of [core/modules/core/include/core/amount.h] and the consensus
    fields of the three networks of [core/chainparams/src/chainparams.c].

    A pointer argument is an [option] ([None] is [NULL]), an out-pointer the
    boolean that says whether it is non-null. *)

From stdpp Require Import base tactics list numbers option.
From Stdlib Require Import ZArith Lia.
From S2P Require Import Prelude Arith256.

(** ** Data *)

(** [enum upgrade_index] *)
Definition BASE_SPROUT : Z := 0.
Definition UPGRADE_TESTDUMMY : Z := 1.
Definition UPGRADE_OVERWINTER : Z := 2.
Definition UPGRADE_SAPLING : Z := 3.
Definition UPGRADE_BUBBLES : Z := 4.
Definition UPGRADE_DIFFADJ : Z := 5.
Definition UPGRADE_BUTTERCUP : Z := 6.
Definition MAX_NETWORK_UPGRADES : Z := 7.

Definition NETWORK_UPGRADE_ALWAYS_ACTIVE : Z := 0.
Definition NETWORK_UPGRADE_NO_ACTIVATION : Z := -1.

Record network_upgrade := {
  nProtocolVersion : Z;
  nActivationHeight : Z;
}.

Definition PRE_BUTTERCUP_POW_TARGET_SPACING : Z := 150.
Definition POST_BUTTERCUP_POW_TARGET_SPACING : Z := 75.
Definition PRE_BUTTERCUP_HALVING_INTERVAL : Z := 840000.
Definition PRE_BUTTERCUP_REGTEST_HALVING_INTERVAL : Z := 150.
Definition BUTTERCUP_POW_TARGET_SPACING_RATIO : Z :=
  PRE_BUTTERCUP_POW_TARGET_SPACING / POST_BUTTERCUP_POW_TARGET_SPACING.
Definition POST_BUTTERCUP_HALVING_INTERVAL : Z :=
  PRE_BUTTERCUP_HALVING_INTERVAL * BUTTERCUP_POW_TARGET_SPACING_RATIO.
Definition POST_BUTTERCUP_REGTEST_HALVING_INTERVAL : Z :=
  PRE_BUTTERCUP_REGTEST_HALVING_INTERVAL * BUTTERCUP_POW_TARGET_SPACING_RATIO.

Record consensus_params := {
  hashGenesisBlock : uint256;
  fCoinbaseMustBeProtected : bool;
  nSubsidySlowStartInterval : Z;
  nPreButtercupSubsidyHalvingInterval : Z;
  nPostButtercupSubsidyHalvingInterval : Z;
  nMajorityEnforceBlockUpgrade : Z;
  nMajorityRejectBlockOutdated : Z;
  nMajorityWindow : Z;
  vUpgrades : list network_upgrade;
  powLimit : uint256;
  nPowAllowMinDifficultyBlocksAfterHeight : Z;
  nPowAllowMinDifficultyEnabled : bool;
  scaleDifficultyAtUpgradeFork : bool;
  nPowAveragingWindow : Z;
  nPowMaxAdjustDown : Z;
  nPowMaxAdjustUp : Z;
  nPreButtercupPowTargetSpacing : Z;
  nPostButtercupPowTargetSpacing : Z;
  nMinimumChainWork : uint256;
}.

Inductive upgrade_state := UPGRADE_DISABLED | UPGRADE_PENDING | UPGRADE_ACTIVE.

#[export] Instance upgrade_state_eq_dec : EqDecision upgrade_state.
Proof. solve_decision. Defined.

(** [params->vUpgrades[idx].nActivationHeight] *)
Definition activation (params : consensus_params) (idx : Z) : Z :=
  nth (Z.to_nat idx) (map nActivationHeight (vUpgrades params)) NETWORK_UPGRADE_NO_ACTIVATION.

(** [NetworkUpgradeInfo[].nBranchId] *)
Definition NetworkUpgradeInfo : list Z :=
  [0; 0x74736554; 0x5ba81b19; 0x76b809bb; 0x821a451c; 0x930b540d; 0x930b540d].

(** [EquihashUpgradeInfo[]], as (N, K). *)
Definition EQUIHASH_DEFAULT_PARAMS : Z := 0.
Definition EquihashUpgradeInfo : list (Z * Z) :=
  replicate 4 (EQUIHASH_DEFAULT_PARAMS, EQUIHASH_DEFAULT_PARAMS) ++ replicate 3 (192, 7).

(** ** Upgrade activation *)

Inductive upgrades_err :=
| DOMAIN_CONSENSUS_UPGRADES_ERR_NULL_PARAMS
| DOMAIN_CONSENSUS_UPGRADES_ERR_NULL_OUT
| DOMAIN_CONSENSUS_UPGRADES_ERR_NEG_HEIGHT
| DOMAIN_CONSENSUS_UPGRADES_ERR_BAD_IDX
| DOMAIN_CONSENSUS_UPGRADES_ERR_NO_PENDING.

Definition dcu_idx_valid (idx : Z) : bool := (BASE_SPROUT <=? idx) && (idx <? MAX_NETWORK_UPGRADES).

Definition dcu_is_active (n_height : Z) (params : consensus_params) (idx : Z) : bool :=
  if activation params idx =? NETWORK_UPGRADE_NO_ACTIVATION then false
  else activation params idx <=? n_height.

(** The three guards most of these functions open with. *)
Definition dcu_guard {A} (params : option consensus_params) (out : bool) (n_height : Z)
    (k : consensus_params -> zcl_result upgrades_err A) : zcl_result upgrades_err A :=
  match params with
  | None => ZCL_ERR DOMAIN_CONSENSUS_UPGRADES_ERR_NULL_PARAMS
  | Some p =>
      reject_if (negb out) as DOMAIN_CONSENSUS_UPGRADES_ERR_NULL_OUT ;;
      reject_if (n_height <? 0) as DOMAIN_CONSENSUS_UPGRADES_ERR_NEG_HEIGHT ;;
      k p
  end.

Definition domain_consensus_upgrade_state (n_height : Z) (params : option consensus_params)
    (idx : Z) (out : bool) : zcl_result upgrades_err upgrade_state :=
  dcu_guard params out n_height (fun p =>
    reject_if (negb (dcu_idx_valid idx)) as DOMAIN_CONSENSUS_UPGRADES_ERR_BAD_IDX ;;
    ZCL_OK (if activation p idx =? NETWORK_UPGRADE_NO_ACTIVATION then UPGRADE_DISABLED
            else if activation p idx <=? n_height then UPGRADE_ACTIVE else UPGRADE_PENDING)).

(** [for (i = MAX - 1; i >= BASE_SPROUT; i--)], with [n = i + 1]. *)
Fixpoint current_epoch_loop (n : nat) (n_height : Z) (p : consensus_params) : Z :=
  match n with
  | O => BASE_SPROUT
  | S i => if dcu_is_active n_height p (Z.of_nat i) then Z.of_nat i else current_epoch_loop i n_height p
  end.

Definition domain_consensus_current_epoch (n_height : Z) (params : option consensus_params)
    (out : bool) : zcl_result upgrades_err Z :=
  dcu_guard params out n_height (fun p =>
    ZCL_OK (current_epoch_loop (Z.to_nat MAX_NETWORK_UPGRADES) n_height p)).

Definition domain_consensus_current_epoch_branch_id (n_height : Z) (params : option consensus_params)
    (out : bool) : zcl_result upgrades_err Z :=
  dcu_guard params out n_height (fun p =>
    let* epoch := domain_consensus_current_epoch n_height (Some p) true in
    ZCL_OK (nth (Z.to_nat epoch) NetworkUpgradeInfo 0)).

Definition domain_consensus_is_branch_id (branch_id : Z) (out : bool) : zcl_result upgrades_err bool :=
  reject_if (negb out) as DOMAIN_CONSENSUS_UPGRADES_ERR_NULL_OUT ;;
  ZCL_OK (existsb (fun b => branch_id =? b) NetworkUpgradeInfo).

Definition domain_consensus_is_activation_height (n_height : Z) (params : option consensus_params)
    (idx : Z) (out : bool) : zcl_result upgrades_err bool :=
  match params with
  | None => ZCL_ERR DOMAIN_CONSENSUS_UPGRADES_ERR_NULL_PARAMS
  | Some p =>
      reject_if (negb out) as DOMAIN_CONSENSUS_UPGRADES_ERR_NULL_OUT ;;
      reject_if (negb (dcu_idx_valid idx)) as DOMAIN_CONSENSUS_UPGRADES_ERR_BAD_IDX ;;
      if idx =? BASE_SPROUT then ZCL_OK false
      else ZCL_OK ((0 <=? n_height) && (n_height =? activation p idx))
  end.

(** The indices of the loops that skip [BASE_SPROUT]. *)
Definition upgrade_indices : list Z := map Z.of_nat (seq 1 6).

Definition domain_consensus_is_activation_height_any (n_height : Z) (params : option consensus_params)
    (out : bool) : zcl_result upgrades_err bool :=
  dcu_guard params out n_height (fun p =>
    ZCL_OK (existsb (fun i => n_height =? activation p i) upgrade_indices)).

Definition domain_consensus_next_epoch (n_height : Z) (params : option consensus_params)
    (out : bool) : zcl_result upgrades_err Z :=
  dcu_guard params out n_height (fun p =>
    match find (fun i => negb (activation p i =? NETWORK_UPGRADE_NO_ACTIVATION)
                         && (n_height <? activation p i)) upgrade_indices with
    | Some i => ZCL_OK i
    | None => ZCL_ERR DOMAIN_CONSENSUS_UPGRADES_ERR_NO_PENDING
    end).

Definition domain_consensus_next_activation_height (n_height : Z) (params : option consensus_params)
    (out : bool) : zcl_result upgrades_err Z :=
  dcu_guard params out n_height (fun p =>
    let* idx := domain_consensus_next_epoch n_height (Some p) true in
    ZCL_OK (activation p idx)).

(** The wrappers of [core/params/src/upgrades.c]; [None] is a failed [assert]. *)
Definition consensus_upgrade_state (nHeight : Z) (params : consensus_params) (idx : Z) : option upgrade_state :=
  if negb (0 <=? nHeight) then None
  else if negb (dcu_idx_valid idx) then None
  else match domain_consensus_upgrade_state nHeight (Some params) idx true with
       | ZCL_OK st => Some st
       | ZCL_ERR _ => Some UPGRADE_DISABLED
       end.

Definition consensus_current_epoch (nHeight : Z) (params : consensus_params) : Z :=
  match domain_consensus_current_epoch nHeight (Some params) true with
  | ZCL_OK e => e | ZCL_ERR _ => BASE_SPROUT end.

Definition consensus_current_epoch_branch_id (nHeight : Z) (params : consensus_params) : Z :=
  match domain_consensus_current_epoch_branch_id nHeight (Some params) true with
  | ZCL_OK b => b | ZCL_ERR _ => 0 end.

Definition consensus_is_branch_id (branchId : Z) : bool :=
  match domain_consensus_is_branch_id (u32 branchId) true with ZCL_OK known => known | ZCL_ERR _ => false end.

Definition consensus_is_activation_height (nHeight : Z) (params : consensus_params) (idx : Z) : option bool :=
  if negb (dcu_idx_valid idx) then None
  else if idx =? BASE_SPROUT then Some false
  else match domain_consensus_is_activation_height nHeight (Some params) idx true with
       | ZCL_OK m => Some m | ZCL_ERR _ => Some false end.

Definition consensus_is_activation_height_any (nHeight : Z) (params : consensus_params) : bool :=
  if nHeight <? 0 then false
  else match domain_consensus_is_activation_height_any nHeight (Some params) true with
       | ZCL_OK m => m | ZCL_ERR _ => false end.

(** [LOG_ERR] returns -1. *)
Definition consensus_next_epoch (nHeight : Z) (params : consensus_params) : Z :=
  if nHeight <? 0 then -1
  else match domain_consensus_next_epoch nHeight (Some params) true with
       | ZCL_OK e => e | ZCL_ERR _ => -1 end.

Definition consensus_next_activation_height (nHeight : Z) (params : consensus_params) : Z :=
  match domain_consensus_next_activation_height nHeight (Some params) true with
  | ZCL_OK a => a | ZCL_ERR _ => -1 end.

(** ** Height-dependent parameters *)

Definition consensus_network_upgrade_active (params : consensus_params) (nHeight idx : Z) : option bool :=
  let? st := consensus_upgrade_state nHeight params idx in Some (bool_decide (st = UPGRADE_ACTIVE)).

Definition consensus_subsidy_slow_start_shift (p : consensus_params) : Z :=
  Z.quot (nSubsidySlowStartInterval p) 2.

Definition consensus_last_founders_reward_height (p : consensus_params) : option Z :=
  let? a := s32 (nPreButtercupSubsidyHalvingInterval p + consensus_subsidy_slow_start_shift p) in s32 (a - 1).

Definition consensus_halving (params : consensus_params) (nHeight : Z) : option Z :=
  let? active := consensus_network_upgrade_active params nHeight UPGRADE_BUTTERCUP in
  if (active : bool) then
    let buttercup_height := activation params UPGRADE_BUTTERCUP in
    let? a := s32 (nHeight - consensus_subsidy_slow_start_shift params) in
    let? b := s32 (a - buttercup_height) in
    let? halvings := cdiv b (nPostButtercupSubsidyHalvingInterval params) in
    s32 (halvings + 3)
  else
    let? a := s32 (nHeight - consensus_subsidy_slow_start_shift params) in
    cdiv a (nPreButtercupSubsidyHalvingInterval params).

Definition consensus_pow_target_spacing (params : consensus_params) (nHeight : Z) : option Z :=
  let? active := consensus_network_upgrade_active params nHeight UPGRADE_BUTTERCUP in
  Some (if (active : bool) then nPostButtercupPowTargetSpacing params else nPreButtercupPowTargetSpacing params).

Definition consensus_averaging_window_timespan (params : consensus_params) (nHeight : Z) : option Z :=
  let? spacing := consensus_pow_target_spacing params nHeight in
  s64 (nPowAveragingWindow params * spacing).

Definition consensus_min_actual_timespan (params : consensus_params) (nHeight : Z) : option Z :=
  let? w := consensus_averaging_window_timespan params nHeight in
  let? pct := s64 (100 - nPowMaxAdjustUp params) in
  let? n := s64 (w * pct) in cdiv n 100.

Definition consensus_max_actual_timespan (params : consensus_params) (nHeight : Z) : option Z :=
  let? w := consensus_averaging_window_timespan params nHeight in
  let? pct := s64 (100 + nPowMaxAdjustDown params) in
  let? n := s64 (w * pct) in cdiv n 100.

(** ** Amounts and the block subsidy *)

Definition COIN : Z := 100000000.
Definition CENT : Z := 1000000.
Definition MAX_MONEY : Z := 21000000 * COIN.
Definition MoneyRange (nValue : Z) : bool := (0 <=? nValue) && (nValue <=? MAX_MONEY).

Inductive subsidy_err :=
| DOMAIN_CONSENSUS_SUBSIDY_ERR_NULL_PARAMS
| DOMAIN_CONSENSUS_SUBSIDY_ERR_NULL_OUT
| DOMAIN_CONSENSUS_SUBSIDY_ERR_NEG_HEIGHT.

(** [(int64_t)(12.5 * COIN)], exact in a double. *)
Definition full_subsidy : Z := 125 * COIN / 10.

Definition domain_consensus_block_subsidy (n_height : Z) (params : option consensus_params) (out : bool)
    : option (zcl_result subsidy_err Z) :=
  match params with
  | None => Some (ZCL_ERR DOMAIN_CONSENSUS_SUBSIDY_ERR_NULL_PARAMS)
  | Some p =>
      if negb out then Some (ZCL_ERR DOMAIN_CONSENSUS_SUBSIDY_ERR_NULL_OUT)
      else if n_height <? 0 then Some (ZCL_ERR DOMAIN_CONSENSUS_SUBSIDY_ERR_NEG_HEIGHT)
      else if n_height <? Z.quot (nSubsidySlowStartInterval p) 2 then
        let? q := cdiv full_subsidy (nSubsidySlowStartInterval p) in
        let? r := s64 (q * n_height) in Some (ZCL_OK r)
      else if n_height <? nSubsidySlowStartInterval p then
        let? q := cdiv full_subsidy (nSubsidySlowStartInterval p) in
        let? h := s32 (n_height + 1) in
        let? r := s64 (q * h) in Some (ZCL_OK r)
      else
        let? halvings := consensus_halving p n_height in
        if 64 <=? halvings then Some (ZCL_OK 0)
        else
          let? active := consensus_network_upgrade_active p n_height UPGRADE_BUTTERCUP in
          if (active : bool) then
            let? q := cdiv full_subsidy BUTTERCUP_POW_TARGET_SPACING_RATIO in
            let? r := sshr q halvings in Some (ZCL_OK r)
          else let? r := sshr full_subsidy halvings in Some (ZCL_OK r)
  end.

(** ** The three networks

    A [uint256_set_hex] literal is written as the number it denotes. *)

Definition uint256_of_Z (z : Z) : uint256 := digits_of 8 32 z.

Definition upgrade (ver height : Z) : network_upgrade :=
  {| nProtocolVersion := ver; nActivationHeight := height |}.

Definition main_params : consensus_params := {|
  hashGenesisBlock := uint256_of_Z 0x0007104ccda289427919efc39dc9e4d499804b7bebc22df55f8b834301260602;
  fCoinbaseMustBeProtected := true;
  nSubsidySlowStartInterval := 2;
  nPreButtercupSubsidyHalvingInterval := PRE_BUTTERCUP_HALVING_INTERVAL;
  nPostButtercupSubsidyHalvingInterval := POST_BUTTERCUP_HALVING_INTERVAL;
  nMajorityEnforceBlockUpgrade := 750;
  nMajorityRejectBlockOutdated := 950;
  nMajorityWindow := 4000;
  vUpgrades := [upgrade 170002 NETWORK_UPGRADE_ALWAYS_ACTIVE; upgrade 170002 NETWORK_UPGRADE_NO_ACTIVATION;
                upgrade 170005 476969; upgrade 170007 476969; upgrade 170009 585318;
                upgrade 170010 585322; upgrade 170011 707000];
  powLimit := uint256_of_Z 0x0007ffffffffffffffffffffffffffffffffffffffffffffffffffffffffffff;
  nPowAllowMinDifficultyBlocksAfterHeight := -1;
  nPowAllowMinDifficultyEnabled := false;
  scaleDifficultyAtUpgradeFork := true;
  nPowAveragingWindow := 17;
  nPowMaxAdjustDown := 32;
  nPowMaxAdjustUp := 16;
  nPreButtercupPowTargetSpacing := PRE_BUTTERCUP_POW_TARGET_SPACING;
  nPostButtercupPowTargetSpacing := POST_BUTTERCUP_POW_TARGET_SPACING;
  nMinimumChainWork := uint256_of_Z 0x000000000000000000000000000000000000000000000000000af996bfd8e482;
|}.

Definition test_params : consensus_params := {|
  hashGenesisBlock := uint256_of_Z 0x03e1c4bb705c871bf9bfda3e74b7f8f86bff267993c215a89d5795e3708e5e1f;
  fCoinbaseMustBeProtected := true;
  nSubsidySlowStartInterval := 2;
  nPreButtercupSubsidyHalvingInterval := PRE_BUTTERCUP_HALVING_INTERVAL;
  nPostButtercupSubsidyHalvingInterval := POST_BUTTERCUP_HALVING_INTERVAL;
  nMajorityEnforceBlockUpgrade := 51;
  nMajorityRejectBlockOutdated := 75;
  nMajorityWindow := 400;
  vUpgrades := [upgrade 170002 NETWORK_UPGRADE_ALWAYS_ACTIVE; upgrade 170002 NETWORK_UPGRADE_NO_ACTIVATION;
                upgrade 170003 20; upgrade 170007 20; upgrade 170008 6350;
                upgrade 170009 NETWORK_UPGRADE_NO_ACTIVATION; upgrade 170010 78856];
  powLimit := uint256_of_Z 0x07ffffffffffffffffffffffffffffffffffffffffffffffffffffffffffffff;
  nPowAllowMinDifficultyBlocksAfterHeight := 299187;
  nPowAllowMinDifficultyEnabled := true;
  scaleDifficultyAtUpgradeFork := false;
  nPowAveragingWindow := 17;
  nPowMaxAdjustDown := 32;
  nPowMaxAdjustUp := 16;
  nPreButtercupPowTargetSpacing := PRE_BUTTERCUP_POW_TARGET_SPACING;
  nPostButtercupPowTargetSpacing := POST_BUTTERCUP_POW_TARGET_SPACING;
  nMinimumChainWork := uint256_of_Z 0;
|}.

Definition regtest_params : consensus_params := {|
  hashGenesisBlock := uint256_of_Z 0x0575f78ee8dc057deee78ef691876e3be29833aaee5e189bb0459c087451305a;
  fCoinbaseMustBeProtected := false;
  nSubsidySlowStartInterval := 0;
  nPreButtercupSubsidyHalvingInterval := PRE_BUTTERCUP_REGTEST_HALVING_INTERVAL;
  nPostButtercupSubsidyHalvingInterval := POST_BUTTERCUP_REGTEST_HALVING_INTERVAL;
  nMajorityEnforceBlockUpgrade := 750;
  nMajorityRejectBlockOutdated := 950;
  nMajorityWindow := 1000;
  vUpgrades := [upgrade 170002 NETWORK_UPGRADE_ALWAYS_ACTIVE; upgrade 170002 NETWORK_UPGRADE_NO_ACTIVATION;
                upgrade 170003 NETWORK_UPGRADE_NO_ACTIVATION; upgrade 170006 NETWORK_UPGRADE_NO_ACTIVATION;
                upgrade 170008 NETWORK_UPGRADE_NO_ACTIVATION; upgrade 170009 NETWORK_UPGRADE_NO_ACTIVATION;
                upgrade 170010 NETWORK_UPGRADE_NO_ACTIVATION];
  powLimit := uint256_of_Z 0x0f0f0f0f0f0f0f0f0f0f0f0f0f0f0f0f0f0f0f0f0f0f0f0f0f0f0f0f0f0f0f0f;
  nPowAllowMinDifficultyBlocksAfterHeight := 0;
  nPowAllowMinDifficultyEnabled := true;
  scaleDifficultyAtUpgradeFork := false;
  nPowAveragingWindow := 17;
  nPowMaxAdjustDown := 0;
  nPowMaxAdjustUp := 0;
  nPreButtercupPowTargetSpacing := PRE_BUTTERCUP_POW_TARGET_SPACING;
  nPostButtercupPowTargetSpacing := POST_BUTTERCUP_POW_TARGET_SPACING;
  nMinimumChainWork := uint256_of_Z 0;
|}.

(** ** Epochs *)

Lemma current_epoch_loop_spec n h p :
  let e := current_epoch_loop n h p in
  0 <= e /\ (e = BASE_SPROUT \/ (e < Z.of_nat n /\ dcu_is_active h p e = true)) /\
  (forall i, e < i < Z.of_nat n -> dcu_is_active h p i = false).
Proof.
  induction n as [|n IH]; cbn [current_epoch_loop].
  { split; [done|]. split; [by left|]. unfold BASE_SPROUT. intros; lia. }
  destruct (dcu_is_active h p (Z.of_nat n)) eqn:E.
  - split; [lia|]. split; [right; split; [lia|done]|]. intros; lia.
  - destruct IH as (H0 & H1 & H2). split; [done|]. split.
    + destruct H1 as [?|[? ?]]; [by left|right; split; [lia|done]].
    + intros i Hi. destruct (decide (i = Z.of_nat n)) as [->|]; [done|]. apply H2. lia.
Qed.

Lemma elem_of_upgrade_indices i : In i upgrade_indices <-> 1 <= i < MAX_NETWORK_UPGRADES.
Proof.
  unfold upgrade_indices, MAX_NETWORK_UPGRADES. rewrite in_map_iff. split.
  - intros (n & <- & Hn). apply in_seq in Hn. lia.
  - intros. exists (Z.to_nat i). rewrite in_seq. lia.
Qed.

(** The epoch functions select the right upgrade. For a non-negative
    height the current epoch is the highest-indexed active upgrade (the base
    epoch if none is), activation is monotone in the height, and the next epoch
    is a pending upgrade if and only if one exists, its activation height lying
    strictly in the future. *)
Theorem epoch_selection p h :
  0 <= h ->
  (exists e, domain_consensus_current_epoch h (Some p) true = ZCL_OK e /\
     (e = BASE_SPROUT \/ dcu_is_active h p e = true) /\ 0 <= e < MAX_NETWORK_UPGRADES /\
     (forall i, e < i < MAX_NETWORK_UPGRADES -> dcu_is_active h p i = false) /\
     consensus_current_epoch_branch_id h p = nth (Z.to_nat e) NetworkUpgradeInfo 0) /\
  (forall h' i, h <= h' -> dcu_is_active h p i = true -> dcu_is_active h' p i = true) /\
  match domain_consensus_next_epoch h (Some p) true with
  | ZCL_OK i => 1 <= i < MAX_NETWORK_UPGRADES /\
      domain_consensus_upgrade_state h (Some p) i true = ZCL_OK UPGRADE_PENDING /\
      domain_consensus_next_activation_height h (Some p) true = ZCL_OK (activation p i) /\ h < activation p i
  | ZCL_ERR e => e = DOMAIN_CONSENSUS_UPGRADES_ERR_NO_PENDING /\
      forall i, 1 <= i < MAX_NETWORK_UPGRADES ->
        domain_consensus_upgrade_state h (Some p) i true <> ZCL_OK UPGRADE_PENDING
  end.
Proof.
  intros Hh. assert ((h <? 0) = false) as Hlt by (apply Z.ltb_ge; lia). split_and!.
  - pose proof (current_epoch_loop_spec (Z.to_nat MAX_NETWORK_UPGRADES) h p) as (H0 & H1 & H2).
    set (e := current_epoch_loop _ _ _) in *. exists e.
    unfold consensus_current_epoch_branch_id, domain_consensus_current_epoch_branch_id,
      domain_consensus_current_epoch, dcu_guard. cbn [negb]. rewrite Hlt. cbn [zbind].
    change (Z.of_nat (Z.to_nat MAX_NETWORK_UPGRADES)) with MAX_NETWORK_UPGRADES in *.
    split_and!; try done; [destruct H1 as [?|[_ ?]]; auto|].
    destruct H1 as [E|[? _]]; [|done]. unfold BASE_SPROUT, MAX_NETWORK_UPGRADES in *. lia.
  - intros h' i Hle. unfold dcu_is_active. bool_cases; done || lia.
  - unfold domain_consensus_next_activation_height, domain_consensus_next_epoch,
      domain_consensus_upgrade_state, dcu_guard. cbn [negb]. rewrite Hlt.
    destruct (find _ upgrade_indices) as [i|] eqn:Ef; cbn [zbind].
    + apply find_some in Ef as [Hi Hp]. apply elem_of_upgrade_indices in Hi.
      apply andb_true_iff in Hp as [Hn Hp]. apply negb_true_iff in Hn.
      unfold dcu_idx_valid, BASE_SPROUT, MAX_NETWORK_UPGRADES in *.
      rewrite Hn. bool_cases; cbn; split_and!; done || lia.
    + split; [done|]. intros i Hi. apply elem_of_upgrade_indices in Hi.
      pose proof (find_none _ _ Ef i Hi) as Hp. cbn beta in Hp.
      destruct (dcu_idx_valid i); cbn; [|done].
      destruct (activation p i =? NETWORK_UPGRADE_NO_ACTIVATION); [done|]. cbn in Hp.
      bool_cases; done || lia.
Qed.

Lemma epoch_selection_witness :
  exists e, domain_consensus_current_epoch 600000 (Some main_params) true = ZCL_OK e /\
     (e = BASE_SPROUT \/ dcu_is_active 600000 main_params e = true) /\ 0 <= e < MAX_NETWORK_UPGRADES /\
     (forall i, e < i < MAX_NETWORK_UPGRADES -> dcu_is_active 600000 main_params i = false) /\
     consensus_current_epoch_branch_id 600000 main_params = nth (Z.to_nat e) NetworkUpgradeInfo 0.
Proof. apply (epoch_selection main_params 600000). lia. Defined.

(** ** Subsidy *)

(** Parameters under which the reward arithmetic is defined; all three networks
    satisfy them. *)
Definition subsidy_params_sane (p : consensus_params) : Prop :=
  0 <= nSubsidySlowStartInterval p < 2 ^ 30 /\
  0 < nPreButtercupSubsidyHalvingInterval p < 2 ^ 31 /\
  2 <= nPostButtercupSubsidyHalvingInterval p < 2 ^ 31 /\
  consensus_subsidy_slow_start_shift p <= 3 * nPostButtercupSubsidyHalvingInterval p /\
  -1 <= activation p UPGRADE_BUTTERCUP < 2 ^ 31.

Lemma upgrade_active_ok p h i :
  0 <= h -> dcu_idx_valid i = true ->
  consensus_network_upgrade_active p h i = Some (dcu_is_active h p i).
Proof.
  intros Hh Hi. unfold consensus_network_upgrade_active, consensus_upgrade_state,
    domain_consensus_upgrade_state, dcu_guard, dcu_is_active.
  rewrite Hi, (proj2 (Z.leb_le 0 h)), (proj2 (Z.ltb_ge h 0)) by lia. cbn [negb].
  destruct (_ =? _); [done|]. by destruct (_ <=? h).
Qed.

(** The halving count is defined and non-negative wherever the subsidy uses it. *)
Lemma halving_ok p h :
  subsidy_params_sane p -> 0 <= h < 2 ^ 31 -> nSubsidySlowStartInterval p <= h ->
  exists k, consensus_halving p h = Some k /\ 0 <= k.
Proof.
  intros (Hi & Hpre & Hpost & Hshift & Hb) Hh Hle. unfold consensus_halving.
  rewrite upgrade_active_ok by (done || lia).
  unfold consensus_subsidy_slow_start_shift in *. set (shift := Z.quot _ 2) in *.
  assert (0 <= shift <= nSubsidySlowStartInterval p).
  { unfold shift. rewrite Z.quot_div_nonneg by lia. zdm. }
  rewrite (s32_ok (h - shift)) by lia.
  unfold dcu_is_active. destruct (Z.eqb_spec (activation p UPGRADE_BUTTERCUP) NETWORK_UPGRADE_NO_ACTIVATION) as [|Hn].
  { rewrite cdiv_ok by lia. eexists; split; [done|]. apply Z.quot_pos; lia. }
  unfold NETWORK_UPGRADE_NO_ACTIVATION in Hn. destruct (Z.leb_spec (activation p UPGRADE_BUTTERCUP) h) as [Ha|Ha].
  - rewrite s32_ok, cdiv_ok by lia. set (b := h - shift - activation p UPGRADE_BUTTERCUP).
    assert (-3 <= Z.quot b (nPostButtercupSubsidyHalvingInterval p) <= Z.max b 0 / 2) as Hq.
    { subst b. set (b := _ - _ - _). split.
      - rewrite <- (Z.quot_mul (-3) (nPostButtercupSubsidyHalvingInterval p)) at 1 by lia.
        apply Z.quot_le_mono; lia.
      - destruct (Z.le_gt_cases 0 b).
        + rewrite Z.quot_div_nonneg by lia. rewrite Z.max_l by lia. apply Z.div_le_compat_l; lia.
        + rewrite <- (Z.opp_involutive b), Z.quot_opp_l by lia.
          pose proof (Z.quot_pos (- b) (nPostButtercupSubsidyHalvingInterval p) ltac:(lia) ltac:(lia)).
          rewrite Z.max_r by lia. zdm. }
    rewrite s32_ok by zdm. eexists; split; [done|]. lia.
  - rewrite cdiv_ok by lia. eexists; split; [done|]. apply Z.quot_pos; lia.
Qed.

Lemma full_subsidy_val : full_subsidy = 1250000000.
Proof. done. Qed.

(** The block reward is always defined and bounded: under sane parameters,
    at every height of a 32-bit chain, the computation performs no undefined
    operation (no failed assert, division by zero, signed overflow or
    out-of-range shift) and returns an amount between 0 and 12.5 coins. *)
Theorem block_subsidy_total p h :
  subsidy_params_sane p -> 0 <= h < 2 ^ 31 ->
  exists r, domain_consensus_block_subsidy h (Some p) true = Some (ZCL_OK r) /\
            0 <= r <= full_subsidy /\ MoneyRange r = true.
Proof.
  intros Hp Hh. pose proof Hp as (Hi & Hpre & Hpost & Hshift & Hb).
  enough (exists r, domain_consensus_block_subsidy h (Some p) true = Some (ZCL_OK r) /\ 0 <= r <= full_subsidy) as
    (r & E & R1 & R2).
  { exists r. split; [done|]. split; [done|]. rewrite full_subsidy_val in R2.
    unfold MoneyRange, MAX_MONEY, COIN. bool_cases; done || lia. }
  unfold domain_consensus_block_subsidy. cbn [negb]. rewrite full_subsidy_val.
  destruct (Z.ltb_spec h 0); [lia|]. set (n := nSubsidySlowStartInterval p) in *.
  rewrite (Z.quot_div_nonneg n 2) by lia.
  assert (0 < n -> cdiv 1250000000 n = Some (1250000000 / n)) as Hc.
  { intros. by rewrite cdiv_ok, Z.quot_div_nonneg by lia. }
  assert (forall m, 0 < n -> 0 <= m <= n -> 0 <= 1250000000 / n * m <= 1250000000) as Hm.
  { intros m Hn Hmn. pose proof (Z.mul_div_le 1250000000 n Hn). pose proof (Z.div_pos 1250000000 n). nia. }
  destruct (Z.ltb_spec h (n / 2)).
  { assert (0 < n) by zdm. rewrite Hc by done. assert (h <= n) by zdm. specialize (Hm h ltac:(lia) ltac:(lia)).
    rewrite s64_ok by lia. by eexists. }
  destruct (Z.ltb_spec h n).
  { rewrite Hc, (s32_ok (h + 1)) by lia. specialize (Hm (h + 1) ltac:(lia) ltac:(lia)).
    rewrite s64_ok by lia. by eexists. }
  destruct (halving_ok p h Hp Hh ltac:(lia)) as (k & -> & Hk).
  destruct (Z.leb_spec 64 k); [eexists; split; [done|lia]|].
  rewrite upgrade_active_ok by (done || lia). pose proof (pow2_pos k Hk).
  destruct (dcu_is_active _ _ _).
  - change (cdiv 1250000000 BUTTERCUP_POW_TARGET_SPACING_RATIO) with (Some 625000000). cbv iota.
    rewrite sshr_ok by lia. eexists; split; [done|].
    split; [apply Z.div_pos; lia|apply Z.div_le_upper_bound; nia].
  - rewrite sshr_ok by lia. eexists; split; [done|].
    split; [apply Z.div_pos; lia|apply Z.div_le_upper_bound; nia].
Qed.

Lemma networks_sane :
  subsidy_params_sane main_params /\ subsidy_params_sane test_params /\ subsidy_params_sane regtest_params.
Proof. split_and!; unfold subsidy_params_sane; split_and!; done. Qed.

Lemma block_subsidy_total_witness :
  exists r, domain_consensus_block_subsidy 707000 (Some main_params) true = Some (ZCL_OK r) /\
            0 <= r <= full_subsidy /\ MoneyRange r = true.
Proof. apply block_subsidy_total; [apply networks_sane|lia]. Defined.

(** *** Mainnet supply *)

(** The mainnet schedule in closed form. *)
Definition main_subsidy (h : Z) : Z :=
  if h =? 0 then 0
  else if h <? 707000 then 1250000000
  else 625000000 / 2 ^ (3 + Z.quot (h - 707001) 1680000).

Lemma pow2_kills x k : 0 <= x < 2 ^ 30 -> 30 <= k -> x / 2 ^ k = 0.
Proof.
  intros. apply Z.div_small. split; [lia|]. apply (Z.lt_le_trans _ (2 ^ 30)); [lia|].
  apply Z.pow_le_mono_r; lia.
Qed.

Lemma main_active h : dcu_is_active h main_params UPGRADE_BUTTERCUP = (707000 <=? h).
Proof. done. Qed.

Lemma main_subsidy_spec h :
  0 <= h < 2 ^ 31 -> domain_consensus_block_subsidy h (Some main_params) true = Some (ZCL_OK (main_subsidy h)).
Proof.
  intros Hh. unfold domain_consensus_block_subsidy, main_subsidy. cbn [negb].
  rewrite full_subsidy_val. change (nSubsidySlowStartInterval main_params) with 2.
  change (Z.quot 2 2) with 1. change (cdiv 1250000000 2) with (Some 625000000).
  destruct (Z.ltb_spec h 0); [lia|]. destruct (Z.ltb_spec h 1).
  { replace h with 0 by lia. done. }
  destruct (Z.ltb_spec h 2).
  { replace h with 1 by lia. done. }
  destruct (Z.eqb_spec h 0); [lia|]. unfold consensus_halving.
  rewrite upgrade_active_ok, main_active by (done || lia).
  change (consensus_subsidy_slow_start_shift main_params) with 1.
  rewrite (s32_ok (h - 1)) by lia.
  change (nPreButtercupSubsidyHalvingInterval main_params) with 840000.
  change (nPostButtercupSubsidyHalvingInterval main_params) with 1680000.
  change (activation main_params UPGRADE_BUTTERCUP) with 707000.
  destruct (Z.leb_spec 707000 h), (Z.ltb_spec h 707000); try lia.
  - rewrite (s32_ok (h - 1 - 707000)), cdiv_ok by lia.
    replace (h - 1 - 707000) with (h - 707001) by lia.
    assert (0 <= Z.quot (h - 707001) 1680000 < 2 ^ 30) as Hq.
    { destruct (Z.eq_dec h 707000) as [->|]; [done|].
      rewrite Z.quot_div_nonneg by lia. split; [apply Z.div_pos; lia|apply Z.div_lt_upper_bound; lia]. }
    rewrite s32_ok by lia. rewrite (Z.add_comm 3). set (k := _ + 3) in *.
    destruct (Z.leb_spec 64 k).
    { by rewrite pow2_kills by lia. }
    change (cdiv 1250000000 BUTTERCUP_POW_TARGET_SPACING_RATIO) with (Some 625000000). cbv iota.
    by rewrite sshr_ok by lia.
  - rewrite cdiv_ok by lia. rewrite Z.quot_div_nonneg, Z.div_small by lia. done.
Qed.

(** Coins issued by the blocks below height [n]. *)
Fixpoint issued (p : consensus_params) (n : nat) : Z :=
  match n with
  | O => 0
  | S h => issued p h +
      match domain_consensus_block_subsidy (Z.of_nat h) (Some p) true with
      | Some (ZCL_OK r) => r
      | _ => 0
      end
  end.

(** An upper bound on what is left to issue [y] blocks after the first
    post-Buttercup one: the rest of the era, and as much as it again. *)
Definition era_tail (y : Z) : Z :=
  (2 * 1680000 - y mod 1680000) * (78125000 / 2 ^ (y / 1680000)).

Lemma era_tail_pos y : 0 <= y -> 0 <= era_tail y.
Proof.
  intros. unfold era_tail. pose proof (Z.mod_pos_bound y 1680000 ltac:(lia)).
  assert (0 <= 78125000 / 2 ^ (y / 1680000)); [|nia].
  apply Z.div_pos; [lia|]. apply pow2_pos. zdm.
Qed.

Lemma era_tail_step y : 0 <= y -> 78125000 / 2 ^ (y / 1680000) + era_tail (y + 1) <= era_tail y.
Proof.
  intros Hy. unfold era_tail. pose proof (Z.mod_pos_bound y 1680000 ltac:(lia)) as Hm.
  pose proof (Z.div_mod y 1680000 ltac:(lia)) as E.
  assert (0 <= y / 1680000) as Hk by zdm. set (k := y / 1680000) in *. set (r := y mod 1680000) in *.
  pose proof (pow2_pos k Hk).
  destruct (Z.eq_dec r 1679999) as [Hr|Hr].
  - replace ((y + 1) / 1680000) with (k + 1) by (apply (Z.div_unique _ _ _ 0); lia).
    replace ((y + 1) mod 1680000) with 0 by (apply (Z.mod_unique _ _ (k + 1)); lia).
    rewrite Z.pow_add_r, <- Z.div_div by lia. change (2 ^ 1) with 2.
    assert (0 <= 78125000 / 2 ^ k) by (apply Z.div_pos; lia). rewrite Hr. zdm.
  - replace ((y + 1) / 1680000) with k by (apply (Z.div_unique _ _ _ (r + 1)); lia).
    replace ((y + 1) mod 1680000) with (r + 1) by (apply (Z.mod_unique _ _ k); lia). lia.
Qed.

Lemma issued_bound n :
  Z.of_nat n <= 2 ^ 31 ->
  (Z.of_nat n <= 707000 -> issued main_params n <= 1250000000 * Z.of_nat n) /\
  (707001 <= Z.of_nat n ->
   issued main_params n + era_tail (Z.of_nat n - 707001) <= 1250000000 * 707000 + 78125000 * 3360001).
Proof.
  induction n as [|n IH]; intros Hn; [cbn [issued]; lia|]. destruct (IH ltac:(lia)) as [I1 I2].
  cbn [issued]. rewrite main_subsidy_spec by lia. unfold main_subsidy. split; intros Hr.
  - specialize (I1 ltac:(lia)). bool_cases; lia.
  - destruct (Z.eqb_spec (Z.of_nat n) 0); [lia|]. destruct (Z.ltb_spec (Z.of_nat n) 707000); [lia|].
    destruct (Z.eq_dec (Z.of_nat n) 707000) as [E|E].
    + specialize (I1 ltac:(lia)). rewrite E in *. replace (Z.of_nat (S n)) with 707001 by lia.
      change (era_tail (707001 - 707001)) with (3360000 * 78125000).
      change (625000000 / _) with 78125000. lia.
    + specialize (I2 ltac:(lia)). set (y := Z.of_nat n - 707001) in *.
      replace (Z.of_nat (S n) - 707001) with (y + 1) by lia.
      pose proof (era_tail_step y ltac:(lia)) as Hs.
      assert (0 <= y / 1680000) by (apply Z.div_pos; lia).
      rewrite Z.quot_div_nonneg, Z.pow_add_r, <- Z.div_div by (try apply pow2_pos; lia).
      change (625000000 / 2 ^ 3) with 78125000. lia.
Qed.

(** C36: the mainnet monetary cap. Whatever the chain length (any number of
    blocks a 32-bit height can count), the rewards of all its blocks together
    stay within [MAX_MONEY]; in fact below 11.5 million coins. *)
Theorem mainnet_supply_cap n :
  Z.of_nat n <= 2 ^ 31 -> issued main_params n <= 11500000 * COIN /\ issued main_params n <= MAX_MONEY.
Proof.
  intros Hn. unfold MAX_MONEY, COIN. destruct (issued_bound n Hn) as [I1 I2].
  destruct (Z.le_gt_cases (Z.of_nat n) 707000); [lia|].
  pose proof (era_tail_pos (Z.of_nat n - 707001) ltac:(lia)). lia.
Qed.

Lemma mainnet_supply_cap_witness :
  issued main_params 3 <= 11500000 * COIN /\ issued main_params 3 <= MAX_MONEY.
Proof. apply mainnet_supply_cap. vm_compute. congruence. Defined.
