(* ===== verification/Pow.v ===== *)
(** * Proof of work

    Model of [core/consensus/src/pow.c], [core/consensus/src/verify.c],
    [core/chainparams/src/pow.c], [core/consensus/src/checkpoints.c] (integer
    part) and the block-index accessors of
    [core/modules/chain/include/chain/chain.h] they use.

    A [struct block_index *] is the list of the entries reached through
    [pprev], the entry itself first; the empty list is [NULL]. [None] results
    stand for undefined behaviour or a failed assert, as in the prelude. *)

From stdpp Require Import base tactics list numbers option sorting.
From Stdlib Require Import ZArith Lia.
From S2P Require Import Prelude Arith256 Params.

(** ** Block index *)

Record block_index := {
  bi_nChainWork : arith_uint256;
  bi_nHeight : Z;
  bi_nTime : Z;
  bi_nBits : Z;
}.

Abbreviation block_ptr := (list block_index).

Definition block_index_get_time (bi : block_index) : Z := bi_nTime bi.

Definition MEDIAN_TIME_SPAN : nat := 11.

(** [while (j >= 0 && pmedian[j] > key) ...; pmedian[j + 1] = key], with [n = j + 1]. *)
Fixpoint sift (n : nat) (pmedian : list Z) (key : Z) : list Z :=
  match n with
  | O => <[0%nat := key]> pmedian
  | S j =>
      let x := nth j pmedian 0 in
      if key <? x then sift j (<[S j := x]> pmedian) key else <[S j := key]> pmedian
  end.

Definition insertion_sort (pmedian : list Z) (count : nat) : list Z :=
  fold_left (fun a i => sift i a (nth i a 0)) (seq 1 (count - 1)) pmedian.

Definition block_index_get_median_time_past (p : block_ptr) : Z :=
  let pmedian := map block_index_get_time (take MEDIAN_TIME_SPAN p) in
  let count := length pmedian in
  nth (count / 2) (insertion_sort pmedian count) 0.

(** ** Difficulty arithmetic ([core/consensus/src/pow.c]) *)

Inductive pow_err :=
| DOMAIN_CONSENSUS_POW_ERR_NULL_PARAMS
| DOMAIN_CONSENSUS_POW_ERR_NULL_OUT
| DOMAIN_CONSENSUS_POW_ERR_BAD_DIVISOR.

Definition domain_consensus_block_proof (n_bits : Z) (out : bool) : zcl_result pow_err arith_uint256 :=
  reject_if (negb out) as DOMAIN_CONSENSUS_POW_ERR_NULL_OUT ;;
  let '(bnTarget, fNegative, fOverflow) := arith_uint256_set_compact n_bits in
  if fNegative || fOverflow || arith_uint256_is_zero bnTarget then ZCL_OK arith_uint256_set_zero
  else
    let notTarget := arith_uint256_complement bnTarget in
    let one := arith_uint256_set_u64 1 in
    let targetPlusOne := arith_uint256_add bnTarget one in
    let result := arith_uint256_div notTarget targetPlusOne in
    let result := arith_uint256_add result one in
    ZCL_OK result.

(** [None]: an assert of [arith_uint256_get_compact] failed. *)
Definition domain_consensus_increase_difficulty_by (n_bits multiplier : Z)
    (params : option consensus_params) (out : bool) : option (zcl_result pow_err Z) :=
  match params with
  | None => Some (ZCL_ERR DOMAIN_CONSENSUS_POW_ERR_NULL_PARAMS)
  | Some p =>
      if negb out then Some (ZCL_ERR DOMAIN_CONSENSUS_POW_ERR_NULL_OUT)
      else if multiplier =? 0 then Some (ZCL_ERR DOMAIN_CONSENSUS_POW_ERR_BAD_DIVISOR)
      else
        let target := fst (fst (arith_uint256_set_compact n_bits)) in
        let div := arith_uint256_set_u64 (u64 multiplier) in
        let target := arith_uint256_div target div in
        let pow_limit := uint256_to_arith (powLimit p) in
        let target := if 0 <? arith_uint256_compare target pow_limit then pow_limit else target in
        let? bits := arith_uint256_get_compact target false in Some (ZCL_OK bits)
  end.

(** The dampened and clamped timespan of [calculate_next_work_required]. *)
Definition actual_timespan (last_block_time first_block_time avgTimespan minTimespan maxTimespan : Z) : option Z :=
  let? d := s64 (last_block_time - first_block_time) in
  let? e := s64 (d - avgTimespan) in
  let? q := cdiv e 4 in
  let? n := s64 (avgTimespan + q) in
  let n := if n <? minTimespan then minTimespan else n in
  Some (if maxTimespan <? n then maxTimespan else n).

Definition domain_consensus_calculate_next_work_required (bn_avg : arith_uint256)
    (last_block_time first_block_time : Z) (params : option consensus_params) (next_height : Z)
    (out : bool) : option (zcl_result pow_err Z) :=
  match params with
  | None => Some (ZCL_ERR DOMAIN_CONSENSUS_POW_ERR_NULL_PARAMS)
  | Some p =>
      if negb out then Some (ZCL_ERR DOMAIN_CONSENSUS_POW_ERR_NULL_OUT)
      else
        let? avgTimespan := consensus_averaging_window_timespan p next_height in
        let? minTimespan := consensus_min_actual_timespan p next_height in
        let? maxTimespan := consensus_max_actual_timespan p next_height in
        let? nActualTimespan :=
          actual_timespan last_block_time first_block_time avgTimespan minTimespan maxTimespan in
        let bnPowLimit := uint256_to_arith (powLimit p) in
        let avgTs := arith_uint256_set_u64 (u64 avgTimespan) in
        let actTs := arith_uint256_set_u64 (u64 nActualTimespan) in
        let bnNew := arith_uint256_div bn_avg avgTs in
        let bnNew := arith_uint256_mul bnNew actTs in
        let bnNew := if 0 <? arith_uint256_compare bnNew bnPowLimit then bnPowLimit else bnNew in
        let? bits := arith_uint256_get_compact bnNew false in Some (ZCL_OK bits)
  end.

(** ** Solution check ([core/consensus/src/verify.c]) *)

Inductive verify_err :=
| DOMAIN_CONSENSUS_ERR_POW_TARGET_BELOW_MIN
| DOMAIN_CONSENSUS_ERR_POW_HASH_ABOVE_TARGET
| DOMAIN_CONSENSUS_ERR_POW_TARGET_INVALID
| DOMAIN_CONSENSUS_ERR_NULL_ARG.

Definition domain_consensus_verify_pow_solution (block_hash : option uint256) (n_bits : Z)
    (params : option consensus_params) : zcl_result verify_err () :=
  match block_hash, params with
  | Some hash, Some p =>
      let '(target, fNegative, fOverflow) := arith_uint256_set_compact n_bits in
      reject_if (fNegative || fOverflow || arith_uint256_is_zero target)
        as DOMAIN_CONSENSUS_ERR_POW_TARGET_INVALID ;;
      let pow_limit := uint256_to_arith (powLimit p) in
      reject_if (0 <? arith_uint256_compare target pow_limit)
        as DOMAIN_CONSENSUS_ERR_POW_TARGET_BELOW_MIN ;;
      let hash_arith := uint256_to_arith hash in
      reject_if (0 <? arith_uint256_compare hash_arith target)
        as DOMAIN_CONSENSUS_ERR_POW_HASH_ABOVE_TARGET ;;
      ZCL_OK ()
  | _, _ => ZCL_ERR DOMAIN_CONSENSUS_ERR_NULL_ARG
  end.

(** ** The node's wrappers ([core/chainparams/src/pow.c]) *)

Definition IncreaseDifficultyBy (nBits multiplier : Z) (params : option consensus_params) : option Z :=
  let? r := domain_consensus_increase_difficulty_by nBits multiplier params true in
  Some (match r with ZCL_OK out => out | ZCL_ERR _ => nBits end).

(** [int + int64_t] on the right of each comparison. *)
Definition pow_in_upgrade_difficulty_window (params : consensus_params) (nHeight : Z) : bool :=
  scaleDifficultyAtUpgradeFork params &&
  (((activation params UPGRADE_DIFFADJ <=? nHeight) &&
    (nHeight <? activation params UPGRADE_DIFFADJ + nPowAveragingWindow params)) ||
   ((activation params UPGRADE_BUTTERCUP <=? nHeight) &&
    (nHeight <? activation params UPGRADE_BUTTERCUP + nPowAveragingWindow params))).

(** [Some None]: no ramp target applies ([return false]). [pblock] is the time
    of the candidate header, if there is one. *)
Definition pow_upgrade_fork_ramp_work (last : block_index) (pblock : option Z) (params : consensus_params)
    (nHeight nProofOfWorkLimit : Z) : option (option Z) :=
  let? spacing := consensus_pow_target_spacing params nHeight in
  match pblock with
  | None => Some None
  | Some time =>
      if block_index_get_time last + spacing * 12 <? time then Some (Some nProofOfWorkLimit)
      else if block_index_get_time last + spacing * 6 <? time then
        let? w := IncreaseDifficultyBy nProofOfWorkLimit 128 (Some params) in Some (Some w)
      else if block_index_get_time last + spacing * 2 <? time then
        let? w := IncreaseDifficultyBy nProofOfWorkLimit 256 (Some params) in Some (Some w)
      else Some None
  end.

Definition pow_min_difficulty_blocks_allow_limit (last : block_index) (pblock : option Z)
    (params : consensus_params) : option bool :=
  if nPowAllowMinDifficultyEnabled params &&
     (nPowAllowMinDifficultyBlocksAfterHeight params <=? bi_nHeight last) then
    let? h := s32 (bi_nHeight last + 1) in
    let? spacing := consensus_pow_target_spacing params h in
    Some (match pblock with
          | Some time => block_index_get_time last + spacing * 6 <? time
          | None => false
          end)
  else Some false.

Definition CalculateNextWorkRequired (bnAvg : arith_uint256) (nLastBlockTime nFirstBlockTime : Z)
    (params : option consensus_params) (nextHeight : Z) : option Z :=
  let? r := domain_consensus_calculate_next_work_required bnAvg nLastBlockTime nFirstBlockTime
              params nextHeight true in
  match r with
  | ZCL_OK out => Some out
  | ZCL_ERR _ =>
      match params with
      | Some p => arith_uint256_get_compact (uint256_to_arith (powLimit p)) false
      | None => Some 0
      end
  end.

(** [for (i = 0; pindexFirst && i < nPowAveragingWindow; i++)] *)
Fixpoint sum_targets (n : nat) (pindexFirst : block_ptr) (bnTot : arith_uint256) : block_ptr * arith_uint256 :=
  match n, pindexFirst with
  | S n, b :: prev =>
      let bnTmp := fst (fst (arith_uint256_set_compact (bi_nBits b))) in
      sum_targets n prev (arith_uint256_add bnTot bnTmp)
  | _, _ => (pindexFirst, bnTot)
  end.

Definition GetNextWorkRequired (pindexLast : block_ptr) (pblock : option Z) (params : consensus_params) : option Z :=
  let pow_limit := uint256_to_arith (powLimit params) in
  let? nProofOfWorkLimit := arith_uint256_get_compact pow_limit false in
  match pindexLast with
  | [] => Some nProofOfWorkLimit
  | last :: _ =>
      let? nHeight := s32 (bi_nHeight last + 1) in
      let? ramp :=
        if pow_in_upgrade_difficulty_window params nHeight
        then pow_upgrade_fork_ramp_work last pblock params nHeight nProofOfWorkLimit
        else Some None in
      match ramp with
      | Some scaled => Some scaled
      | None =>
          let? allow := pow_min_difficulty_blocks_allow_limit last pblock params in
          if (allow : bool) then Some nProofOfWorkLimit
          else if nPowAveragingWindow params <=? 0 then Some nProofOfWorkLimit
          else
            let '(pindexFirst, bnTot) :=
              sum_targets (Z.to_nat (nPowAveragingWindow params)) pindexLast arith_uint256_set_zero in
            match pindexFirst with
            | [] => Some nProofOfWorkLimit
            | _ =>
                let window := arith_uint256_set_u64 (u64 (nPowAveragingWindow params)) in
                let bnAvg := arith_uint256_div bnTot window in
                CalculateNextWorkRequired bnAvg
                  (block_index_get_median_time_past pindexLast)
                  (block_index_get_median_time_past pindexFirst)
                  (Some params) nHeight
            end
      end
  end.

Definition CheckProofOfWork (hash : uint256) (nBits : Z) (params : option consensus_params) : bool :=
  res_ok (domain_consensus_verify_pow_solution (Some hash) nBits params).

Definition GetBlockProof (block : block_ptr) : arith_uint256 :=
  match block with
  | [] => arith_uint256_set_zero
  | b :: _ => match domain_consensus_block_proof (bi_nBits b) true with
              | ZCL_OK work => work
              | ZCL_ERR _ => arith_uint256_set_zero
              end
  end.

Definition INT64_MAX : Z := 2 ^ 63 - 1.

Definition GetBlockProofEquivalentTime (to from tip : block_index) (params : consensus_params) : option Z :=
  let '(r, sign) :=
    if 0 <? arith_uint256_compare (bi_nChainWork to) (bi_nChainWork from)
    then (arith_uint256_sub (bi_nChainWork to) (bi_nChainWork from), 1)
    else (arith_uint256_sub (bi_nChainWork from) (bi_nChainWork to), -1) in
  let? spacing := consensus_pow_target_spacing params (bi_nHeight tip) in
  let tmp := arith_uint256_mul r (arith_uint256_set_u64 (u64 spacing)) in
  let proof := GetBlockProof [tip] in
  let r := arith_uint256_div tmp proof in
  if 63 <? arith_uint256_bits r then Some (sign * INT64_MAX)
  else Some (sign * i64 (arith_uint256_get_low64 r)).

(** ** Checkpoints *)

Record checkpoint_entry := { ce_height : Z; ce_hash : uint256 }.
Abbreviation checkpoint_data := (list checkpoint_entry).

Definition domain_consensus_checkpoints_hash_at_height (data : option checkpoint_data) (height : Z)
    (out_hash : bool) : option uint256 :=
  match data with
  | Some entries =>
      if negb out_hash then None
      else match find (fun e => ce_height e =? height) entries with
           | Some e => Some (ce_hash e)
           | None => None
           end
  | None => None
  end.

Definition domain_consensus_checkpoints_last_height (data : option checkpoint_data) : Z :=
  match data with
  | None => -1
  | Some entries => fold_left (fun best e => if best <? ce_height e then ce_height e else best) entries (-1)
  end.

Definition domain_consensus_checkpoints_validate_header (data : option checkpoint_data) (height : Z)
    (hash : option uint256) : bool :=
  match data, hash with
  | Some d, Some h =>
      match domain_consensus_checkpoints_hash_at_height (Some d) height true with
      | None => true
      | Some expected => bool_decide (h = expected)
      end
  | _, _ => true
  end.

Definition domain_consensus_checkpoints_total_blocks_estimate (data : option checkpoint_data) : Z :=
  match data with
  | None | Some [] => 0
  | Some entries => match last entries with Some e => ce_height e | None => 0 end
  end.

(** ** Usable targets *)

(** The target a difficulty word denotes, if it denotes one. *)
Definition usable_target (n_bits : Z) : option Z :=
  if Z.testbit n_bits 23 then None
  else if (0 <? compact_value n_bits) && (compact_value n_bits <? 2 ^ 256) then Some (compact_value n_bits)
  else None.

Lemma compact_value_nonneg c : in_u 32 c -> 0 <= compact_value c.
Proof.
  intros [H1 H2]. unfold compact_value. pose proof (Z.mod_pos_bound c (2 ^ 23) ltac:(lia)).
  destruct (Z.leb_spec (c / 2 ^ 24) 3).
  - apply Z.div_pos; [lia|]. apply pow2_pos. lia.
  - pose proof (pow2_pos (8 * (c / 2 ^ 24 - 3)) ltac:(lia)). nia.
Qed.

Lemma set_compact_usable c :
  in_u 32 c ->
  let '(a, fNegative, fOverflow) := arith_uint256_set_compact c in
  wf256 a /\
  (if fNegative || fOverflow || arith_uint256_is_zero a then usable_target c = None
   else usable_target c = Some (val a)).
Proof.
  intros Hc. pose proof (set_compact_spec c Hc) as S. pose proof (compact_value_nonneg c Hc) as P.
  destruct (arith_uint256_set_compact c) as [[a neg] ovf]. destruct S as (W & V & O & N).
  split; [done|]. rewrite is_zero_spec, V, O, N by done. unfold usable_target.
  destruct (Z.testbit c 23), (Z.eqb_spec (compact_value c) 0) as [E|E],
    (Z.leb_spec (2 ^ 256) (compact_value c)), (Z.ltb_spec 0 (compact_value c)),
    (Z.ltb_spec (compact_value c) (2 ^ 256)); cbn [andb orb negb]; try lia; try done;
    rewrite ?Z.mod_small by lia; destruct (Z.eqb_spec (compact_value c) 0); done || lia.
Qed.

(** A target is never the top of the range, so adding one cannot wrap. *)
Lemma usable_target_bound c t : in_u 32 c -> usable_target c = Some t -> 0 < t < 2 ^ 256 - 1.
Proof.
  intros [H1 H2]. unfold usable_target. destruct (Z.testbit c 23); [done|].
  destruct (Z.ltb_spec 0 (compact_value c)), (Z.ltb_spec (compact_value c) (2 ^ 256)); try done.
  intros [= <-]. split; [done|]. unfold compact_value in *.
  pose proof (Z.mod_pos_bound c (2 ^ 23) ltac:(lia)) as Hm. set (m := c mod 2 ^ 23) in *. set (s := c / 2 ^ 24) in *.
  destruct (Z.leb_spec s 3).
  - assert (0 <= s) by (apply Z.div_pos; lia). pose proof (pow2_pos (8 * (3 - s)) ltac:(lia)).
    apply (Z.le_lt_trans _ m); [|lia]. apply Z.div_le_upper_bound; nia.
  - assert (2 ^ (8 * (s - 3)) = 2 * 2 ^ (8 * (s - 3) - 1)) as E.
    { rewrite <- Z.pow_succ_r by lia. f_equal. lia. }
    rewrite E in *. set (x := 2 ^ (8 * (s - 3) - 1)) in *.
    replace (m * (2 * x)) with (2 * (m * x)) in * by ring. lia.
Qed.

(** The work credited to a header is exactly [2^256 / (target + 1)],
    although no 257-bit intermediate is formed, and zero when the difficulty word
    is negative, zero or overflows 256 bits. *)
Theorem block_proof_exact n_bits :
  in_u 32 n_bits ->
  exists w, domain_consensus_block_proof n_bits true = ZCL_OK w /\ wf256 w /\
    val w = match usable_target n_bits with Some t => 2 ^ 256 / (t + 1) | None => 0 end.
Proof.
  intros Hc. unfold domain_consensus_block_proof. cbn [negb].
  pose proof (set_compact_usable n_bits Hc) as S.
  destruct (arith_uint256_set_compact n_bits) as [[a neg] ovf]. destruct S as [W S].
  destruct (neg || ovf || arith_uint256_is_zero a).
  { rewrite S. exists arith_uint256_set_zero. split; [done|]. split; [apply set_zero_wf|apply set_zero_val]. }
  rewrite S. pose proof (usable_target_bound _ _ Hc S) as Ht.
  assert (wf256 (arith_uint256_set_u64 1)) as W1 by apply set_u64_wf.
  assert (val (arith_uint256_set_u64 1) = 1) as V1 by done.
  destruct (add_spec a _ W W1) as [Wa Va]. rewrite V1, Z.mod_small in Va by lia.
  destruct (div_spec _ _ (complement_wf a W) Wa) as [Wd Vd]. rewrite complement_val, Va in Vd by done.
  destruct (add_spec _ _ Wd W1) as [Wr Vr]. rewrite V1, Vd in Vr.
  eexists. split; [done|]. split; [done|]. rewrite Vr.
  replace (2 ^ 256 - 1 - val a) with (2 ^ 256 + (-1) * (val a + 1)) by lia.
  rewrite Z.div_add by lia. replace (2 ^ 256 / (val a + 1) + -1 + 1) with (2 ^ 256 / (val a + 1)) by lia.
  apply Z.mod_small. split; [apply Z.div_pos; lia|]. apply Z.div_lt; lia.
Qed.

Lemma block_proof_exact_witness :
  exists w, domain_consensus_block_proof 0x1f07ffff true = ZCL_OK w /\ wf256 w /\
    val w = match usable_target 0x1f07ffff with Some t => 2 ^ 256 / (t + 1) | None => 0 end.
Proof. apply (block_proof_exact 0x1f07ffff). split; vm_compute; congruence. Defined.

(** A header passes the proof-of-work check if and only if its difficulty
    word denotes a target, that target is no easier than the chain's limit, and
    the hash, read as a little-endian number, does not exceed it; the three
    rejections are reported in that order. *)
Theorem verify_pow_solution_spec hash n_bits p :
  wf_uint256 hash -> in_u 32 n_bits -> wf_uint256 (powLimit p) ->
  domain_consensus_verify_pow_solution (Some hash) n_bits (Some p) =
  match usable_target n_bits with
  | None => ZCL_ERR DOMAIN_CONSENSUS_ERR_POW_TARGET_INVALID
  | Some t =>
      if digits_val 8 (powLimit p) <? t then ZCL_ERR DOMAIN_CONSENSUS_ERR_POW_TARGET_BELOW_MIN
      else if t <? digits_val 8 hash then ZCL_ERR DOMAIN_CONSENSUS_ERR_POW_HASH_ABOVE_TARGET
      else ZCL_OK ()
  end.
Proof.
  intros Hh Hc Hp. unfold domain_consensus_verify_pow_solution.
  pose proof (set_compact_usable n_bits Hc) as S.
  destruct (arith_uint256_set_compact n_bits) as [[a neg] ovf]. destruct S as [W S].
  destruct (neg || ovf || arith_uint256_is_zero a); rewrite S; [done|].
  destruct (uint256_to_arith_spec _ Hp) as [Wp Vp]. destruct (uint256_to_arith_spec _ Hh) as [Wh Vh].
  rewrite !compare_spec by done. rewrite Vp, Vh.
  assert (forall x y, (0 <? Z.sgn (x - y)) = (y <? x)) as G.
  { intros x y. destruct (Z.ltb_spec y x), (Z.ltb_spec 0 (Z.sgn (x - y))); try done;
      destruct (Z.sgn_spec (x - y)) as [[]|[[]|[]]]; lia. }
  by rewrite !G.
Qed.

Lemma verify_pow_solution_spec_witness :
  domain_consensus_verify_pow_solution (Some (uint256_of_Z 5)) 0x1f07ffff (Some main_params) =
  match usable_target 0x1f07ffff with
  | None => ZCL_ERR DOMAIN_CONSENSUS_ERR_POW_TARGET_INVALID
  | Some t =>
      if digits_val 8 (powLimit main_params) <? t then ZCL_ERR DOMAIN_CONSENSUS_ERR_POW_TARGET_BELOW_MIN
      else if t <? digits_val 8 (uint256_of_Z 5) then ZCL_ERR DOMAIN_CONSENSUS_ERR_POW_HASH_ABOVE_TARGET
      else ZCL_OK ()
  end.
Proof.
  apply (verify_pow_solution_spec (uint256_of_Z 5) 0x1f07ffff main_params).
  - split; [done|]. apply digits_of_digits. lia.
  - split; vm_compute; congruence.
  - split; [done|]. apply digits_of_digits. lia.
Defined.

(** ** Retargeting *)

(** Parameters under which retargeting is defined; all networks satisfy them. *)
Definition pow_params_sane (p : consensus_params) : Prop :=
  wf_uint256 (powLimit p) /\ 0 < nPowAveragingWindow p <= 2 ^ 20 /\
  0 < nPreButtercupPowTargetSpacing p <= 2 ^ 20 /\ 0 < nPostButtercupPowTargetSpacing p <= 2 ^ 20 /\
  0 <= nPowMaxAdjustUp p <= 100 /\ 0 <= nPowMaxAdjustDown p <= 100.

(** A difficulty word within the limits of the chain: it decodes, without sign or
    overflow, to a target not above [powLimit]. *)
Definition within_limit (p : consensus_params) (bits : Z) : Prop :=
  in_u 32 bits /\ exists a, arith_uint256_set_compact bits = (a, false, false) /\
  wf256 a /\ val a <= digits_val 8 (powLimit p).

Lemma spacing_ok p h :
  pow_params_sane p -> 0 <= h ->
  exists s, consensus_pow_target_spacing p h = Some s /\ 0 < s <= 2 ^ 20.
Proof.
  intros (_ & _ & H1 & H2 & _) Hh. unfold consensus_pow_target_spacing.
  rewrite upgrade_active_ok by (done || lia). eexists. split; [done|]. by destruct (dcu_is_active _ _ _).
Qed.

Lemma timespans_ok p h :
  pow_params_sane p -> 0 <= h ->
  exists avg mn mx, consensus_averaging_window_timespan p h = Some avg /\
    consensus_min_actual_timespan p h = Some mn /\ consensus_max_actual_timespan p h = Some mx /\
    0 < avg <= 2 ^ 40 /\ 0 <= mn <= avg /\ avg <= mx /\
    mn = avg * (100 - nPowMaxAdjustUp p) / 100 /\ mx = avg * (100 + nPowMaxAdjustDown p) / 100.
Proof.
  intros Hp Hh. destruct (spacing_ok p h Hp Hh) as (s & Es & Hs).
  destruct Hp as (_ & Hw & _ & _ & Hu & Hd).
  unfold consensus_min_actual_timespan, consensus_max_actual_timespan, consensus_averaging_window_timespan.
  rewrite Es. set (avg := nPowAveragingWindow p * s) in *.
  assert (0 < avg <= 2 ^ 40) by (unfold avg; nia).
  rewrite (s64_ok avg), (s64_ok (100 - _)), (s64_ok (100 + _)) by lia.
  rewrite (s64_ok (avg * (100 - _))), (s64_ok (avg * (100 + _))) by nia.
  rewrite !cdiv_ok, !Z.quot_div_nonneg by nia.
  exists avg, (avg * (100 - nPowMaxAdjustUp p) / 100), (avg * (100 + nPowMaxAdjustDown p) / 100).
  split_and!; try done; try lia.
  - apply Z.div_pos; nia.
  - apply Z.div_le_upper_bound; nia.
  - apply Z.div_le_lower_bound; nia.
Qed.

Lemma actual_timespan_ok t2 t1 avg mn mx :
  0 <= t1 < 2 ^ 32 -> 0 <= t2 < 2 ^ 32 -> 0 < avg <= 2 ^ 40 -> 0 <= mn <= avg -> avg <= mx ->
  exists n, actual_timespan t2 t1 avg mn mx = Some n /\ mn <= n <= mx.
Proof.
  intros H1 H2 Ha Hm Hx. unfold actual_timespan.
  rewrite (s64_ok (t2 - t1)), (s64_ok (t2 - t1 - avg)), cdiv_ok by lia.
  assert (- 2 ^ 42 <= Z.quot (t2 - t1 - avg) 4 <= 2 ^ 42).
  { pose proof (Z.quot_rem (t2 - t1 - avg) 4 ltac:(lia)).
    pose proof (Z.rem_bound_abs (t2 - t1 - avg) 4 ltac:(lia)). lia. }
  rewrite s64_ok by lia. eexists. split; [done|]. bool_cases; lia.
Qed.

(** Capping a target at the limit and encoding it stays within the limit. *)
Lemma cap_within_limit p a :
  wf256 a -> wf_uint256 (powLimit p) ->
  exists bits, arith_uint256_get_compact
    (if 0 <? arith_uint256_compare a (uint256_to_arith (powLimit p)) then uint256_to_arith (powLimit p) else a)
    false = Some bits /\ within_limit p bits /\
  forall a', fst (fst (arith_uint256_set_compact bits)) = a' -> val a' <= val a.
Proof.
  intros Wa Hp. destruct (uint256_to_arith_spec _ Hp) as [Wp Vp].
  set (c := if 0 <? arith_uint256_compare a (uint256_to_arith (powLimit p)) then uint256_to_arith (powLimit p) else a).
  assert (wf256 c /\ val c <= val (uint256_to_arith (powLimit p)) /\ val c <= val a) as (Wc & Vc & Va).
  { unfold c. rewrite compare_spec by done.
    destruct (Z.ltb_spec 0 (Z.sgn (val a - val (uint256_to_arith (powLimit p))))) as [Hs|Hs];
      (split; [done|]); destruct (Z.sgn_spec (val a - val (uint256_to_arith (powLimit p)))) as [[]|[[]|[]]]; lia. }
  clearbody c. destruct (get_compact_decode c Wc) as (bits & a' & E & R & Ed & Wa' & V' & _).
  exists bits. split; [done|]. split.
  - split; [done|]. exists a'. split; [done|]. split; [done|]. rewrite <- Vp. lia.
  - intros a'' <-. rewrite Ed. cbn [fst]. lia.
Qed.

Lemma increase_difficulty_ok p n_bits m :
  pow_params_sane p -> in_u 32 n_bits -> in_u 64 m -> m <> 0 ->
  exists bits, IncreaseDifficultyBy n_bits m (Some p) = Some bits /\ within_limit p bits.
Proof.
  intros (Hp & _) Hn Hm Hz. unfold IncreaseDifficultyBy, domain_consensus_increase_difficulty_by. cbn [negb].
  destruct (Z.eqb_spec m 0); [done|].
  pose proof (set_compact_spec n_bits Hn) as S.
  destruct (arith_uint256_set_compact n_bits) as [[a neg] ovf]. destruct S as (W & _). cbn [fst].
  destruct (div_spec a (arith_uint256_set_u64 (u64 m)) W ltac:(apply set_u64_wf)) as [Wd _].
  destruct (cap_within_limit p _ Wd Hp) as (bits & -> & Hb & _). by exists bits.
Qed.

Lemma calculate_next_work_ok p avg t2 t1 h :
  pow_params_sane p -> wf256 avg -> 0 <= t1 < 2 ^ 32 -> 0 <= t2 < 2 ^ 32 -> 0 <= h ->
  exists bits, CalculateNextWorkRequired avg t2 t1 (Some p) h = Some bits /\ within_limit p bits.
Proof.
  intros Hp Wa H1 H2 Hh. unfold CalculateNextWorkRequired, domain_consensus_calculate_next_work_required.
  cbn [negb]. destruct (timespans_ok p h Hp Hh) as (ts & mn & mx & -> & -> & -> & R1 & R2 & R3 & _).
  destruct (actual_timespan_ok t2 t1 ts mn mx H1 H2 R1 R2 R3) as (n & -> & Rn).
  destruct (div_spec avg (arith_uint256_set_u64 (u64 ts)) Wa ltac:(apply set_u64_wf)) as [Wd _].
  destruct (mul_spec _ (arith_uint256_set_u64 (u64 n)) Wd ltac:(apply set_u64_wf)) as [Wm _].
  destruct (cap_within_limit p _ Wm (proj1 Hp)) as (bits & -> & Hb & _). by exists bits.
Qed.

(** Retargeting moves difficulty by a bounded factor. For an average
    target below the limit of a chain whose limit leaves the top bit clear, the
    new target never exceeds [powLimit] nor the average scaled by the maximal
    slow-down, [(100 + nPowMaxAdjustDown) / 100] of the window timespan; every
    intermediate is representable and the 256-bit product does not wrap. *)
Theorem next_work_bounded p avg t2 t1 h :
  pow_params_sane p -> wf256 avg -> val avg <= digits_val 8 (powLimit p) -> digits_val 8 (powLimit p) < 2 ^ 255 ->
  0 <= t1 < 2 ^ 32 -> 0 <= t2 < 2 ^ 32 -> 0 <= h ->
  exists bits a, domain_consensus_calculate_next_work_required avg t2 t1 (Some p) h true = Some (ZCL_OK bits) /\
    arith_uint256_set_compact bits = (a, false, false) /\ val a <= digits_val 8 (powLimit p) /\
    100 * val a <= (100 + nPowMaxAdjustDown p) * val avg.
Proof.
  intros Hp Wa Hle Hlim H1 H2 Hh. unfold domain_consensus_calculate_next_work_required. cbn [negb].
  destruct (timespans_ok p h Hp Hh) as (ts & mn & mx & -> & -> & -> & R1 & R2 & R3 & _ & Emx).
  destruct (actual_timespan_ok t2 t1 ts mn mx H1 H2 R1 R2 R3) as (n & -> & Rn).
  pose proof Hp as (Wp & _ & _ & _ & _ & Hd).
  assert (100 * mx <= ts * (100 + nPowMaxAdjustDown p)) by (rewrite Emx; apply Z.mul_div_le; lia).
  assert (n <= 2 * ts) by nia.
  rewrite (wrap_id 64 ts), (wrap_id 64 n) by (unfold in_u; lia).
  destruct (div_spec avg (arith_uint256_set_u64 ts) Wa ltac:(apply set_u64_wf)) as [Wd Vd].
  destruct (mul_spec _ (arith_uint256_set_u64 n) Wd ltac:(apply set_u64_wf)) as [Wm Vm].
  rewrite Vd, !set_u64_val in Vm by (unfold in_u; lia).
  assert (0 <= val avg) by apply (wf256_val_bound avg Wa).
  pose proof (Z.mul_div_le (val avg) ts ltac:(lia)). assert (0 <= val avg / ts) by (apply Z.div_pos; lia).
  rewrite Z.mod_small in Vm by nia.
  destruct (cap_within_limit p _ Wm Wp) as (bits & -> & [_ (a & Ea & _ & La)] & Hb).
  exists bits, a. split; [done|]. split; [done|]. split; [done|].
  rewrite Ea in Hb. specialize (Hb a eq_refl). nia.
Qed.

Lemma main_params_sane : pow_params_sane main_params.
Proof.
  split; [split; [done|apply digits_of_digits; lia]|]. split_and!; vm_compute; congruence.
Qed.

Lemma next_work_bounded_witness :
  exists bits a, domain_consensus_calculate_next_work_required (arith_uint256_set_u64 1000000)
      1600002000 1600000000 (Some main_params) 800000 true = Some (ZCL_OK bits) /\
    arith_uint256_set_compact bits = (a, false, false) /\ val a <= digits_val 8 (powLimit main_params) /\
    100 * val a <= (100 + nPowMaxAdjustDown main_params) * val (arith_uint256_set_u64 1000000).
Proof.
  apply next_work_bounded; try lia.
  - apply main_params_sane.
  - apply set_u64_wf.
  - vm_compute. congruence.
  - vm_compute. congruence.
Defined.

(** ** Median time past *)

Abbreviation sorted := (StronglySorted Z.le).

Lemma sorted_snoc l x : sorted l -> Forall (fun y => y <= x) l -> sorted (l ++ [x]).
Proof.
  induction 1 as [|y l Hl IH Hy]; intros Hf; cbn; [repeat constructor|].
  apply Forall_cons in Hf as [Hyx Hf]. constructor; [by apply IH|].
  apply Forall_app. split; [done|]. by repeat constructor.
Qed.

Lemma sorted_snoc_inv l x : sorted (l ++ [x]) -> sorted l /\ Forall (fun y => y <= x) l.
Proof.
  induction l as [|y l IH]; cbn; intros Hs; [repeat constructor|].
  apply StronglySorted_inv in Hs as [Hs Hf]. destruct (IH Hs) as [I1 I2].
  apply Forall_app in Hf as [Hf1 Hf2]. split; [by constructor|].
  constructor; [by inversion Hf2|done].
Qed.

Lemma take_S_nth (a : list Z) j : (j < length a)%nat -> take (S j) a = take j a ++ [nth j a 0].
Proof.
  intros Hj. destruct (lookup_lt_is_Some_2 a j Hj) as [x Hx].
  rewrite (nth_lookup_Some _ _ _ _ Hx). by apply take_S_r.
Qed.

Lemma take_insert_ge {A} (l : list A) n i x : (n <= i)%nat -> take n (<[i:=x]> l) = take n l.
Proof. intros. rewrite take_insert. by rewrite decide_False by lia. Qed.

Lemma sift_spec n a key :
  (n < length a)%nat -> sorted (take n a) ->
  length (sift n a key) = length a /\ sorted (take (S n) (sift n a key)) /\
  Permutation (take (S n) (sift n a key)) (key :: take n a) /\
  drop (S n) (sift n a key) = drop (S n) a.
Proof.
  revert a. induction n as [|j IH]; intros a Hn Hs; cbn [sift].
  { destruct a as [|y a]; [cbn in Hn; lia|]. cbn. split_and!; try done. repeat constructor. }
  rewrite (take_S_nth a j) in Hs |- * by lia. set (x := nth j a 0) in *.
  destruct (sorted_snoc_inv _ _ Hs) as [Hs1 Hs2]. destruct (Z.ltb_spec key x) as [Hk|Hk].
  - destruct (IH (<[S j := x]> a)) as (L & So & P & D).
    { rewrite length_insert. lia. }
    { by rewrite take_insert_ge by lia. }
    rewrite length_insert in L. rewrite take_insert_ge in P by lia.
    set (r := sift j (<[S j := x]> a) key) in *.
    assert (nth (S j) r 0 = x /\ drop (S (S j)) r = drop (S (S j)) a) as [Er Dr].
    { assert (r !! S j = Some x) as Hlk.
      { rewrite <- (Nat.add_0_r (S j)), <- lookup_drop, D, lookup_drop, Nat.add_0_r.
        apply list_lookup_insert_eq. lia. }
      split; [by apply nth_lookup_Some|].
      replace (S (S j)) with (S j + 1)%nat by lia. rewrite <- !drop_drop, D.
      rewrite drop_insert_ge by lia. rewrite Nat.sub_diag. destruct (drop (S j) a); done. }
    rewrite (take_S_nth r (S j)), Er by lia. split; [done|]. split.
    { apply sorted_snoc; [done|]. rewrite P. constructor; [lia|done]. }
    split; [|done]. rewrite P. by rewrite app_comm_cons.
  - rewrite length_insert. split; [done|].
    rewrite take_S_nth by (rewrite length_insert; lia).
    rewrite take_insert_ge by lia. rewrite (nth_lookup_Some _ _ _ key) by (apply list_lookup_insert_eq; lia).
    rewrite (take_S_nth a j) by lia. fold x. split.
    { apply sorted_snoc; [done|]. apply Forall_app. split; [|by repeat constructor].
      eapply Forall_impl; [exact Hs2|]. cbn. intros. lia. }
    split; [by rewrite (Permutation_app_comm _ [key])|]. by rewrite drop_insert_lt by lia.
Qed.

Lemma insertion_sort_spec a :
  sorted (insertion_sort a (length a)) /\ Permutation (insertion_sort a (length a)) a.
Proof.
  destruct a as [|x0 a0]; [split; [constructor|done]|]. set (a := x0 :: a0).
  enough (forall k, (k <= length a - 1)%nat ->
    let r := fold_left (fun a i => sift i a (nth i a 0)) (seq 1 k) a in
    length r = length a /\ sorted (take (S k) r) /\ Permutation r a) as G.
  { destruct (G (length a - 1)%nat ltac:(lia)) as (L & So & P). split; [|done].
    cbn zeta in *. unfold insertion_sort. rewrite take_ge in So; [done|]. rewrite L. cbn. lia. }
  induction k as [|k IH]; intros Hk; cbn zeta.
  { split; [done|]. split; [cbn; repeat constructor|done]. }
  rewrite seq_S, fold_left_app. cbn [fold_left Nat.add].
  destruct (IH ltac:(lia)) as (L & So & P). cbn zeta in *. set (r := fold_left _ _ _) in *.
  destruct (sift_spec (S k) r (nth (S k) r 0)) as (L' & S' & P' & D'); [lia|done|].
  split; [congruence|]. split; [done|].
  assert (take (S k) r ++ nth (S k) r 0 :: drop (S (S k)) r = r) as Er.
  { rewrite <- (take_drop (S (S k)) r) at 4. by rewrite (take_S_nth r (S k)), <- app_assoc by lia. }
  rewrite <- P, <- (take_drop (S (S k)) (sift _ _ _)), P', D'. cbn [app].
  by rewrite Permutation_middle, Er.
Qed.

Lemma median_in p :
  p <> [] -> In (block_index_get_median_time_past p) (map bi_nTime (take MEDIAN_TIME_SPAN p)).
Proof.
  intros Hp. unfold block_index_get_median_time_past. unfold block_index_get_time.
  set (l := map _ _). destruct (insertion_sort_spec l) as [_ P].
  apply (Permutation_in _ P), nth_In. rewrite (Permutation_length P).
  assert (length l <> 0%nat); [|apply Nat.div_lt; lia].
  unfold l. rewrite length_map, length_take. destruct p; [done|]. cbn. lia.
Qed.

(** The median time past is the middle element of the sorted times of the
    (up to) eleven latest blocks: the insertion sort returns a sorted permutation
    of them, and the result is its element of rank [count / 2]. *)
Theorem median_time_past_spec p :
  let times := map bi_nTime (take MEDIAN_TIME_SPAN p) in
  exists l, sorted l /\ Permutation l times /\
    block_index_get_median_time_past p = nth (length times / 2) l 0 /\
    (forall l', sorted l' -> Permutation l' times -> l' = l).
Proof.
  cbn zeta. destruct (insertion_sort_spec (map bi_nTime (take MEDIAN_TIME_SPAN p))) as [S P].
  eexists. split; [exact S|]. split; [exact P|]. split; [done|].
  intros l' S' P'. eapply (StronglySorted_unique Z.le); [exact S'|exact S|]. by rewrite P'.
Qed.

(** ** The next difficulty *)

Definition block_ptr_wf (p : block_ptr) : Prop :=
  Forall (fun b => in_u 32 (bi_nTime b) /\ in_u 32 (bi_nBits b) /\ -1 <= bi_nHeight b < 2 ^ 31 - 1) p.

Lemma median_range p : block_ptr_wf p -> p <> [] -> in_u 32 (block_index_get_median_time_past p).
Proof.
  intros Hw Hp. pose proof (median_in p Hp) as Hin. apply in_map_iff in Hin as (b & <- & Hb).
  apply list_elem_of_In, elem_of_take in Hb as (i & Hi & _).
  by destruct (Forall_lookup_1 _ _ _ _ Hw Hi).
Qed.

Lemma sum_targets_ok n p tot :
  block_ptr_wf p -> wf256 tot ->
  wf256 (snd (sum_targets n p tot)) /\ block_ptr_wf (fst (sum_targets n p tot)).
Proof.
  revert p tot. induction n as [|n IH]; intros p tot Hp Ht; [by destruct p|].
  destruct p as [|b p]; [done|]. cbn [sum_targets]. apply Forall_cons in Hp as [(_ & Hb & _) Hp].
  apply IH; [done|]. pose proof (set_compact_spec _ Hb) as S.
  destruct (arith_uint256_set_compact (bi_nBits b)) as [[a neg] ovf]. destruct S as (W & _).
  by apply add_spec.
Qed.

Lemma limit_within p :
  pow_params_sane p ->
  exists bits, arith_uint256_get_compact (uint256_to_arith (powLimit p)) false = Some bits /\ within_limit p bits.
Proof.
  intros (Wp & _). destruct (uint256_to_arith_spec _ Wp) as [W V].
  destruct (get_compact_decode _ W) as (bits & a & E & R & Ea & Wa & L & _).
  exists bits. split; [done|]. split; [done|]. exists a. split; [done|]. split; [done|]. by rewrite <- V.
Qed.

(** The difficulty demanded of the next block is always defined and always
    within the chain's limit. On every branch (genesis, the upgrade-fork lateness
    ramp, the minimum-difficulty rule, too short a history, averaging over the
    window) no undefined operation happens, and the returned word decodes, without
    sign or overflow, to a target not above [powLimit]. *)
Theorem next_work_required_within_limit p chain pblock :
  pow_params_sane p -> block_ptr_wf chain ->
  exists bits, GetNextWorkRequired chain pblock p = Some bits /\ within_limit p bits.
Proof.
  intros Hp Hc. unfold GetNextWorkRequired. destruct (limit_within p Hp) as (lim & -> & Hlim).
  destruct chain as [|b prev] eqn:Ec; [by exists lim|]. rewrite <- Ec in *.
  assert (in_u 32 (bi_nTime b) /\ in_u 32 (bi_nBits b) /\ -1 <= bi_nHeight b < 2 ^ 31 - 1) as (_ & _ & Hh).
  { rewrite Ec in Hc. by apply Forall_cons in Hc as [? _]. }
  rewrite (s32_ok (bi_nHeight b + 1)) by lia.
  assert (exists r, (if pow_in_upgrade_difficulty_window p (bi_nHeight b + 1)
    then pow_upgrade_fork_ramp_work b pblock p (bi_nHeight b + 1) lim else Some None) = Some r /\
    match r with Some w => within_limit p w | None => True end) as (r & -> & Hr).
  { destruct (pow_in_upgrade_difficulty_window p _); [|by exists None].
    unfold pow_upgrade_fork_ramp_work. destruct (spacing_ok p (bi_nHeight b + 1) Hp ltac:(lia)) as (s & -> & _).
    destruct pblock as [t|]; [|by exists None]. destruct (_ <? t); [by exists (Some lim)|].
    destruct (_ <? t).
    { destruct (increase_difficulty_ok p lim 128 Hp (proj1 Hlim)) as (w & -> & Hw); [by split|done|by exists (Some w)]. }
    destruct (_ <? t); [|by exists None].
    destruct (increase_difficulty_ok p lim 256 Hp (proj1 Hlim)) as (w & -> & Hw); [by split|done|by exists (Some w)]. }
  destruct r as [w|]; [by exists w|].
  assert (exists a, pow_min_difficulty_blocks_allow_limit b pblock p = Some a) as (al & ->).
  { unfold pow_min_difficulty_blocks_allow_limit. destruct (_ && _); [|by eexists].
    rewrite s32_ok by lia. destruct (spacing_ok p (bi_nHeight b + 1) Hp ltac:(lia)) as (s & -> & _). by eexists. }
  destruct al; [by exists lim|]. destruct (_ <=? 0); [by exists lim|].
  destruct (sum_targets_ok (Z.to_nat (nPowAveragingWindow p)) chain arith_uint256_set_zero Hc set_zero_wf) as [Wt Wf].
  destruct (sum_targets _ chain _) as [[|f fp] tot]; [by exists lim|]. cbn [fst snd] in *.
  destruct (div_spec tot (arith_uint256_set_u64 (u64 (nPowAveragingWindow p))) Wt ltac:(apply set_u64_wf)) as [Wd _].
  apply calculate_next_work_ok; try done; try lia; apply median_range; done || by rewrite Ec.
Qed.

Lemma next_work_required_within_limit_witness :
  exists bits, GetNextWorkRequired
    [{| bi_nChainWork := arith_uint256_set_zero; bi_nHeight := 706999; bi_nTime := 1500000000; bi_nBits := 0x1e7fffff |}]
    (Some 1500000200) main_params = Some bits /\ within_limit main_params bits.
Proof.
  apply next_work_required_within_limit; [apply main_params_sane|].
  constructor; [|constructor]. cbn. split; [split; vm_compute; congruence|].
  split; [split; vm_compute; congruence|lia].
Defined.
