(* ===== verification/Script.v ===== *)
(** * Scripts

    Model of [core/modules/script/include/script/script.h] and
    [core/modules/script/src/script.c]: the script byte string, the opcode
    stream, push encoding, script numbers and signature-operation counting.

    A [struct script] is the list of its [size] bytes. A function that returns
    [bool] and writes through pointers returns an [option]. *)

From stdpp Require Import base tactics list numbers option.
From Stdlib Require Import ZArith Lia.
From S2P Require Import Prelude.

Definition MAX_SCRIPT_ELEMENT_SIZE : Z := 520.
Definition MAX_SCRIPT_SIZE : Z := 10000.
Definition LOCKTIME_THRESHOLD : Z := 500000000.

(** ** [enum opcodetype] *)

Definition OP_0 : Z := 0x00.
Definition OP_PUSHDATA1 : Z := 0x4c.
Definition OP_PUSHDATA2 : Z := 0x4d.
Definition OP_PUSHDATA4 : Z := 0x4e.
Definition OP_1NEGATE : Z := 0x4f.
Definition OP_RESERVED : Z := 0x50.
Definition OP_1 : Z := 0x51.
Definition OP_16 : Z := 0x60.
Definition OP_NOP : Z := 0x61.
Definition OP_VER : Z := 0x62.
Definition OP_IF : Z := 0x63.
Definition OP_NOTIF : Z := 0x64.
Definition OP_VERIF : Z := 0x65.
Definition OP_VERNOTIF : Z := 0x66.
Definition OP_ELSE : Z := 0x67.
Definition OP_ENDIF : Z := 0x68.
Definition OP_VERIFY : Z := 0x69.
Definition OP_RETURN : Z := 0x6a.
Definition OP_TOALTSTACK : Z := 0x6b.
Definition OP_FROMALTSTACK : Z := 0x6c.
Definition OP_2DROP : Z := 0x6d.
Definition OP_2DUP : Z := 0x6e.
Definition OP_3DUP : Z := 0x6f.
Definition OP_2OVER : Z := 0x70.
Definition OP_2ROT : Z := 0x71.
Definition OP_2SWAP : Z := 0x72.
Definition OP_IFDUP : Z := 0x73.
Definition OP_DEPTH : Z := 0x74.
Definition OP_DROP : Z := 0x75.
Definition OP_DUP : Z := 0x76.
Definition OP_NIP : Z := 0x77.
Definition OP_OVER : Z := 0x78.
Definition OP_PICK : Z := 0x79.
Definition OP_ROLL : Z := 0x7a.
Definition OP_ROT : Z := 0x7b.
Definition OP_SWAP : Z := 0x7c.
Definition OP_TUCK : Z := 0x7d.
Definition OP_CAT : Z := 0x7e.
Definition OP_SUBSTR : Z := 0x7f.
Definition OP_LEFT : Z := 0x80.
Definition OP_RIGHT : Z := 0x81.
Definition OP_SIZE : Z := 0x82.
Definition OP_INVERT : Z := 0x83.
Definition OP_AND : Z := 0x84.
Definition OP_OR : Z := 0x85.
Definition OP_XOR : Z := 0x86.
Definition OP_EQUAL : Z := 0x87.
Definition OP_EQUALVERIFY : Z := 0x88.
Definition OP_RESERVED1 : Z := 0x89.
Definition OP_RESERVED2 : Z := 0x8a.
Definition OP_1ADD : Z := 0x8b.
Definition OP_1SUB : Z := 0x8c.
Definition OP_2MUL : Z := 0x8d.
Definition OP_2DIV : Z := 0x8e.
Definition OP_NEGATE : Z := 0x8f.
Definition OP_ABS : Z := 0x90.
Definition OP_NOT : Z := 0x91.
Definition OP_0NOTEQUAL : Z := 0x92.
Definition OP_ADD : Z := 0x93.
Definition OP_SUB : Z := 0x94.
Definition OP_MUL : Z := 0x95.
Definition OP_DIV : Z := 0x96.
Definition OP_MOD : Z := 0x97.
Definition OP_LSHIFT : Z := 0x98.
Definition OP_RSHIFT : Z := 0x99.
Definition OP_BOOLAND : Z := 0x9a.
Definition OP_BOOLOR : Z := 0x9b.
Definition OP_NUMEQUAL : Z := 0x9c.
Definition OP_NUMEQUALVERIFY : Z := 0x9d.
Definition OP_NUMNOTEQUAL : Z := 0x9e.
Definition OP_LESSTHAN : Z := 0x9f.
Definition OP_GREATERTHAN : Z := 0xa0.
Definition OP_LESSTHANOREQUAL : Z := 0xa1.
Definition OP_GREATERTHANOREQUAL : Z := 0xa2.
Definition OP_MIN : Z := 0xa3.
Definition OP_MAX : Z := 0xa4.
Definition OP_WITHIN : Z := 0xa5.
Definition OP_RIPEMD160 : Z := 0xa6.
Definition OP_SHA1 : Z := 0xa7.
Definition OP_SHA256 : Z := 0xa8.
Definition OP_HASH160 : Z := 0xa9.
Definition OP_HASH256 : Z := 0xaa.
Definition OP_CODESEPARATOR : Z := 0xab.
Definition OP_CHECKSIG : Z := 0xac.
Definition OP_CHECKSIGVERIFY : Z := 0xad.
Definition OP_CHECKMULTISIG : Z := 0xae.
Definition OP_CHECKMULTISIGVERIFY : Z := 0xaf.
Definition OP_NOP1 : Z := 0xb0.
Definition OP_NOP2 : Z := 0xb1.
Definition OP_NOP3 : Z := 0xb2.
Definition OP_NOP10 : Z := 0xb9.
Definition OP_CHECKDATASIG : Z := 0xba.
Definition OP_CHECKDATASIGVERIFY : Z := 0xbb.
Definition OP_INVALIDOPCODE : Z := 0xff.
Definition OP_CHECKLOCKTIMEVERIFY : Z := OP_NOP2.

(** ** Building scripts *)

Abbreviation script := (list Z).

Definition script_size (s : script) : Z := Z.of_nat (length s).

(** [s->data[i]]; only used below [size]. *)
Definition sdata (s : script) (i : Z) : Z := nth (Z.to_nat i) s 0.

Definition script_init : script := [].

Definition script_set (data : list Z) : script := take (Z.to_nat MAX_SCRIPT_SIZE) data.

Definition script_push_op (s : script) (op : Z) : option script :=
  if MAX_SCRIPT_SIZE <=? script_size s then None else Some (s ++ [u8 op]).

Definition script_push_data (s : script) (data : list Z) : option script :=
  let len := Z.of_nat (length data) in
  if len <? OP_PUSHDATA1 then
    if MAX_SCRIPT_SIZE <? u64 (script_size s + 1 + len) then None
    else Some (s ++ [u8 len] ++ data)
  else if len <=? 0xff then
    if MAX_SCRIPT_SIZE <? u64 (script_size s + 2 + len) then None
    else Some (s ++ [OP_PUSHDATA1; u8 len] ++ data)
  else if len <=? 0xffff then
    if MAX_SCRIPT_SIZE <? u64 (script_size s + 3 + len) then None
    else Some (s ++ [OP_PUSHDATA2; len .& 0xff; u8 (len >> 8)] ++ data)
  else
    if MAX_SCRIPT_SIZE <? u64 (script_size s + 5 + len) then None
    else Some (s ++ [OP_PUSHDATA4; len .& 0xff; (len >> 8) .& 0xff; (len >> 16) .& 0xff; (len >> 24) .& 0xff]
                 ++ data).

(** ** Templates *)

Definition script_is_p2sh (s : script) : bool :=
  (script_size s =? 23) && (sdata s 0 =? OP_HASH160) && (sdata s 1 =? 0x14) && (sdata s 22 =? OP_EQUAL).

Definition script_is_pay_to_script_hash (s : script) : bool :=
  (script_size s =? 23) && (sdata s 0 =? OP_HASH160) && (sdata s 1 =? 0x14) && (sdata s 22 =? OP_EQUAL).

Definition script_is_p2pkh (s : script) : bool :=
  (script_size s =? 25) && (sdata s 0 =? OP_DUP) && (sdata s 1 =? OP_HASH160) && (sdata s 2 =? 0x14) &&
  (sdata s 23 =? OP_EQUALVERIFY) && (sdata s 24 =? OP_CHECKSIG).

Definition script_decode_op_n (op : Z) : Z := if op =? OP_0 then 0 else op - (OP_1 - 1).

Definition script_is_unspendable (s : script) : bool :=
  ((0 <? script_size s) && (sdata s 0 =? OP_RETURN)) || (MAX_SCRIPT_SIZE <? script_size s).

(** ** The opcode stream *)

(** Little-endian lengths, as the shift-or expressions read them. *)
Definition le16_at (s : script) (i : Z) : Z := sdata s i .| (sdata s (i + 1) << 8).
Definition le32_at (s : script) (i : Z) : Z :=
  sdata s i .| (sdata s (i + 1) << 8) .| (sdata s (i + 2) << 16) .| (sdata s (i + 3) << 24).

(** One turn of the loop of [script_is_push_only] at cursor [i]: the verdict
    [false], or the next cursor. *)
Definition push_only_step (s : script) (i : Z) : option Z :=
  let op := sdata s i in
  if OP_16 <? op then None
  else if op <? OP_PUSHDATA1 then Some (u64 (i + (1 + op)))
  else if op =? OP_PUSHDATA1 then
    if script_size s <=? i + 1 then None else Some (u64 (i + (2 + sdata s (i + 1))))
  else if op =? OP_PUSHDATA2 then
    if script_size s <=? i + 2 then None else Some (u64 (i + (3 + le16_at s (i + 1))))
  else if op =? OP_PUSHDATA4 then
    if script_size s <=? i + 4 then None
    else
      let adv := u32 (5 + le32_at s (i + 1)) in
      if adv =? 0 then None else Some (u64 (i + adv))
  else Some (u64 (i + 1)).

(** [None]: the loop did not end within [fuel] turns. *)
Fixpoint push_only_loop (fuel : nat) (s : script) (i : Z) : option bool :=
  if i <? script_size s then
    match fuel with
    | O => None
    | S fuel =>
        match push_only_step s i with
        | None => Some false
        | Some i => push_only_loop fuel s i
        end
    end
  else Some true.

Definition script_is_push_only_opt (s : script) : option bool := push_only_loop (length s) s 0.
Definition script_is_push_only (s : script) : bool := default false (script_is_push_only_opt s).

(** [script_get_op]: the new cursor, the opcode and the payload; [payload] says
    whether the caller passed a (520-byte) destination. *)
Definition script_get_op (s : script) (pc : Z) (payload : bool) : option (Z * Z * list Z) :=
  if script_size s <=? pc then None
  else
    let op := sdata s pc in
    let pc := pc + 1 in
    if op <=? OP_PUSHDATA4 then
      let? hd :=
        if op <? OP_PUSHDATA1 then Some (op, pc)
        else if op =? OP_PUSHDATA1 then
          if script_size s <=? pc then None else Some (sdata s pc, pc + 1)
        else if op =? OP_PUSHDATA2 then
          if script_size s <=? pc + 1 then None else Some (le16_at s pc, pc + 2)
        else
          if script_size s <=? pc + 3 then None else Some (le32_at s pc, pc + 4) in
      let '(nsize, pc) := hd in
      if script_size s <? u64 (pc + nsize) then None
      else if payload then
        if MAX_SCRIPT_ELEMENT_SIZE <? nsize then None
        else Some (pc + nsize, op, take (Z.to_nat nsize) (drop (Z.to_nat pc) s))
      else Some (pc + nsize, op, [])
    else Some (pc, op, []).

(** ** Script numbers *)

Definition SCRIPT_NUM_DEFAULT_MAX_SIZE : Z := 4.
Definition SCRIPT_NUM_MAX_SIZE : Z := 8.

(** [data[len - 1]], [data[len - 2]] *)
Definition last_byte (d : list Z) : Z := nth (length d - 1) d 0.
Definition last_byte2 (d : list Z) : Z := nth (length d - 2) d 0.

Definition script_num_from_bytes (d : list Z) (require_minimal : bool) (max_size : Z) : option Z :=
  let len := Z.of_nat (length d) in
  if max_size <? len then None
  else if require_minimal && (0 <? len) &&
          ((last_byte d .& 0x7f) =? 0) && ((len <=? 1) || (last_byte2 d .& 0x80 =? 0)) then None
  else if len =? 0 then Some 0
  else
    let bits := fold_left (fun b i => b .| u64 (nth i d 0 << (8 * Z.of_nat i))) (seq 0 (length d)) 0 in
    if negb (last_byte d .& 0x80 =? 0)
    then Some (- i64 (bits .& u64 (Z.lnot (u64 (0x80 << (8 * (len - 1)))))))
    else Some (i64 bits).

(** [while (absval) { out[len++] = absval & 0xff; absval >>= 8; }] on a 64-bit value. *)
Fixpoint magnitude_bytes (fuel : nat) (absval : Z) : list Z :=
  match fuel with
  | O => []
  | S fuel => if absval =? 0 then [] else (absval .& 0xff) :: magnitude_bytes fuel (absval >> 8)
  end.

(** The bytes written; [None] is the signed overflow of [-INT64_MIN]. *)
Definition script_num_serialize (value outsize : Z) : option (list Z) :=
  if value =? 0 then Some []
  else
    let neg := value <? 0 in
    let? absval := if neg then s64 (- value) else Some value in
    let mag := magnitude_bytes 8 absval in
    let req := Z.of_nat (length mag) in
    let top := (absval >> (8 * (req - 1))) .& 0xff in
    let req := if negb (top .& 0x80 =? 0) then req + 1 else req in
    if outsize <? req then Some []
    else if negb (last_byte mag .& 0x80 =? 0) then Some (mag ++ [if neg then 0x80 else 0x00])
    else if neg then Some (<[(length mag - 1)%nat := last_byte mag .| 0x80]> mag)
    else Some mag.

Definition script_num_get_int (value : Z) : Z :=
  if INT32_MAX <? value then INT32_MAX else if value <? INT32_MIN then INT32_MIN else value.

(** ** Signature operations *)

Definition SCRIPT_VERIFY_P2SH : Z := 1.
Definition SCRIPT_VERIFY_CHECKDATASIG_SIGOPS : Z := 2 ^ 11.

(** What one opcode adds to [n]. *)
Definition sig_op_weight (flags : Z) (accurate : bool) (last_opcode opcode : Z) : Z :=
  if (opcode =? OP_CHECKSIG) || (opcode =? OP_CHECKSIGVERIFY) then 1
  else if (opcode =? OP_CHECKDATASIG) || (opcode =? OP_CHECKDATASIGVERIFY) then
    if negb (flags .& SCRIPT_VERIFY_CHECKDATASIG_SIGOPS =? 0) then 1 else 0
  else if (opcode =? OP_CHECKMULTISIG) || (opcode =? OP_CHECKMULTISIGVERIFY) then
    if accurate && (OP_1 <=? last_opcode) && (last_opcode <=? OP_16)
    then u32 (last_opcode - (OP_1 - 1)) else 20
  else 0.

Fixpoint sig_op_loop (fuel : nat) (s : script) (flags : Z) (accurate : bool) (pc n last_opcode : Z) : option Z :=
  if pc <? script_size s then
    match fuel with
    | O => None
    | S fuel =>
        match script_get_op s pc false with
        | None => Some n
        | Some (pc, opcode, _) =>
            sig_op_loop fuel s flags accurate pc (u32 (n + sig_op_weight flags accurate last_opcode opcode)) opcode
        end
    end
  else Some n.

Definition script_get_sig_op_count (s : script) (flags : Z) (accurate : bool) : option Z :=
  sig_op_loop (length s) s flags accurate 0 0 OP_INVALIDOPCODE.

(** The walk over [script_sig] that remembers the last push; [Some None] is
    [return 0]. *)
Fixpoint last_push_loop (fuel : nat) (s : script) (pc : Z) (last_push : list Z) : option (option (list Z)) :=
  if pc <? script_size s then
    match fuel with
    | O => None
    | S fuel =>
        match script_get_op s pc true with
        | None => Some None
        | Some (pc, opcode, data) =>
            if OP_16 <? opcode then Some None
            else if MAX_SCRIPT_ELEMENT_SIZE <? Z.of_nat (length data) then Some None
            else last_push_loop fuel s pc data
        end
    end
  else Some (Some last_push).

Definition script_get_sig_op_count_p2sh (script_pub_key script_sig : script) (flags : Z) : option Z :=
  if (flags .& SCRIPT_VERIFY_P2SH =? 0) || negb (script_is_pay_to_script_hash script_pub_key) then
    script_get_sig_op_count script_pub_key flags true
  else
    let? r := last_push_loop (length script_sig) script_sig 0 [] in
    match r with
    | None => Some 0
    | Some last_push => script_get_sig_op_count (script_set last_push) flags true
    end.

(** ** Reading the opcode stream *)

Lemma sdata_byte s i : bytes s -> in_u 8 (sdata s i).
Proof.
  intros Hs. unfold sdata. destruct (nth_in_or_default (Z.to_nat i) s 0) as [Hi| ->]; [|by split].
  by apply (proj1 (List.Forall_forall _ _) Hs).
Qed.

Lemma le16_at_range s i : bytes s -> in_u 16 (le16_at s i).
Proof.
  intros Hs. unfold le16_at.
  destruct (merge_byte _ _ 8 ltac:(lia) (sdata_byte s i Hs) (sdata_byte s (i + 1) Hs)) as [-> R]. exact R.
Qed.

Lemma le32_at_range s i : bytes s -> in_u 32 (le32_at s i).
Proof.
  intros Hs. unfold le32_at.
  destruct (merge_byte _ _ 8 ltac:(lia) (sdata_byte s i Hs) (sdata_byte s (i + 1) Hs)) as [-> R1].
  destruct (merge_byte _ _ 16 ltac:(lia) R1 (sdata_byte s (i + 2) Hs)) as [-> R2].
  destruct (merge_byte _ _ 24 ltac:(lia) R2 (sdata_byte s (i + 3) Hs)) as [-> R3]. exact R3.
Qed.

(** A well-formed script is a byte string no longer than the buffer. *)
Definition script_wf (s : script) : Prop := bytes s /\ script_size s <= MAX_SCRIPT_SIZE.

Lemma push_only_step_advances s i j :
  script_wf s -> 0 <= i < script_size s -> push_only_step s i = Some j -> i < j < 2 ^ 64.
Proof.
  intros [Hs Hsz] Hi. unfold push_only_step, MAX_SCRIPT_SIZE in *.
  pose proof (sdata_byte s i Hs) as [B1 B2]. pose proof (sdata_byte s (i + 1) Hs) as [C1 C2].
  pose proof (le16_at_range s (i + 1) Hs) as [D1 D2].
  pose proof (wrap_range 32 (5 + le32_at s (i + 1)) ltac:(lia)) as [E1 E2].
  repeat case_match; intros [= <-]; rewrite ?wrap_id by (unfold in_u; lia); bool_cases; lia || done.
Qed.

Lemma push_only_loop_total fuel s i :
  script_wf s -> 0 <= i -> (Z.to_nat (script_size s - i) <= fuel)%nat -> is_Some (push_only_loop fuel s i).
Proof.
  intros Hs. revert i. induction fuel as [|fuel IH]; intros i Hi Hf; cbn [push_only_loop];
    destruct (Z.ltb_spec i (script_size s)); try by eexists.
  - lia.
  - destruct (push_only_step s i) as [j|] eqn:E; [|by eexists].
    apply push_only_step_advances in E as [E1 E2]; [|done|lia]. apply IH; lia.
Qed.

(** C37: [script_is_push_only] reaches a verdict on every script, in at most one
    turn per byte, because each turn strictly advances the cursor. The 32-bit
    addition of a PUSHDATA4 length is kept: the single length that would stall the
    cursor is rejected, and the four above it land on a length byte and are
    rejected. *)
Theorem push_only_terminates s :
  script_wf s ->
  (exists v, script_is_push_only_opt s = Some v /\ script_is_push_only s = v) /\
  (forall i, 0 <= i -> i + 4 < script_size s -> sdata s i = OP_PUSHDATA4 ->
     0xfffffffb <= le32_at s (i + 1) <= 0xffffffff ->
     push_only_step s i = None \/
     exists j, push_only_step s i = Some j /\ j < script_size s /\ push_only_step s j = None).
Proof.
  intros Hs. split.
  - destruct (push_only_loop_total (length s) s 0 Hs ltac:(lia) ltac:(unfold script_size; lia)) as [v Hv].
    exists v. unfold script_is_push_only, script_is_push_only_opt. by rewrite Hv.
  - intros i Hi Hsz Hop Hlen. destruct Hs as [Hs Hmax]. unfold MAX_SCRIPT_SIZE in Hmax.
    unfold push_only_step at 1 2. rewrite Hop. cbn [Z.ltb Z.compare Z.eqb OP_16 OP_PUSHDATA1 OP_PUSHDATA2 OP_PUSHDATA4 Pos.compare Pos.compare_cont Pos.eqb].
    destruct (Z.leb_spec (script_size s) (i + 4)); [lia|].
    set (l := le32_at s (i + 1)) in *. assert (u32 (5 + l) = l - 0xfffffffb) as ->.
    { unfold wrap. symmetry. apply (Z.mod_unique _ _ 1); lia. }
    destruct (Z.eqb_spec (l - 0xfffffffb) 0); [by left|]. right.
    set (j := u64 (i + (l - 0xfffffffb))).
    assert (j = i + (l - 0xfffffffb)) as Ej by (unfold j; rewrite wrap_id by (unfold in_u; lia); done).
    exists j. split; [done|]. split; [lia|].
    assert (0xfc <= sdata s j) as Hb; [|unfold push_only_step; by rewrite (proj2 (Z.ltb_lt OP_16 (sdata s j))) by (unfold OP_16; lia)].
    unfold l, le32_at in Hlen, Ej.
    pose proof (sdata_byte s (i + 1) Hs) as B0. pose proof (sdata_byte s (i + 1 + 1) Hs) as B1.
    pose proof (sdata_byte s (i + 1 + 2) Hs) as B2. pose proof (sdata_byte s (i + 1 + 3) Hs) as B3.
    destruct (merge_byte _ _ 8 ltac:(lia) B0 B1) as [E1 R1]. rewrite E1 in Hlen, Ej.
    destruct (merge_byte _ _ 16 ltac:(lia) R1 B2) as [E2 R2]. rewrite E2 in Hlen, Ej.
    destruct (merge_byte _ _ 24 ltac:(lia) R2 B3) as [E3 R3]. rewrite E3 in Hlen, Ej.
    unfold l, le32_at in n. rewrite E1, E2, E3 in n. unfold in_u in *.
    assert (j = i + 1 \/ j = i + 1 + 1 \/ j = i + 1 + 2 \/ j = i + 1 + 3) as [->|[->|[->| ->]]] by lia; lia.
Qed.

Lemma push_only_terminates_witness :
  (exists v, script_is_push_only_opt [OP_PUSHDATA4; 0xfc; 0xff; 0xff; 0xff] = Some v /\
             script_is_push_only [OP_PUSHDATA4; 0xfc; 0xff; 0xff; 0xff] = v).
Proof.
  apply (push_only_terminates [OP_PUSHDATA4; 0xfc; 0xff; 0xff; 0xff]).
  split; [|vm_compute; congruence]. repeat constructor; vm_compute; congruence.
Defined.

(** [script_get_op] always advances, stays inside the script and returns the
    bytes between its header and the new cursor. *)
Lemma get_op_spec s pc payload pc' op d :
  script_wf s -> 0 <= pc -> script_get_op s pc payload = Some (pc', op, d) ->
  pc < pc' <= script_size s /\ op = sdata s pc /\ in_u 8 op /\ bytes d /\
  Z.of_nat (length d) <= MAX_SCRIPT_ELEMENT_SIZE.
Proof.
  intros [Hs Hsz] Hpc. unfold script_get_op, MAX_SCRIPT_SIZE, MAX_SCRIPT_ELEMENT_SIZE in *.
  pose proof (sdata_byte s pc Hs) as B. pose proof (sdata_byte s (pc + 1) Hs) as [B1 B1'].
  pose proof (le16_at_range s (pc + 1) Hs) as [D1 D2]. pose proof (le32_at_range s (pc + 1) Hs) as [E1 E2].
  destruct (Z.leb_spec (script_size s) pc); [done|].
  destruct (Z.leb_spec (sdata s pc) OP_PUSHDATA4).
  2:{ intros [= <- <- <-]. split; [lia|]. split; [done|]. split; [done|]. split; [constructor|cbn; lia]. }
  set (hd := if sdata s pc <? OP_PUSHDATA1 then _ else _).
  assert (match hd with Some (n, p) => 0 <= n < 2 ^ 32 /\ pc < p <= pc + 5 | None => True end) as Hhd.
  { unfold hd. destruct B. repeat case_match; simplify_eq; try done; lia. }
  destruct hd as [[n p]|]; [|done]. destruct Hhd as [Hn Hp].
  rewrite wrap_id by (unfold in_u; lia).
  destruct (Z.ltb_spec (script_size s) (p + n)); [done|].
  destruct payload.
  - destruct (Z.ltb_spec 520 n); [done|]. intros [= <- <- <-]. split; [lia|]. split; [done|]. split; [done|].
    split; [by apply digits_take, digits_drop|]. rewrite length_take. lia.
  - intros [= <- <- <-]. split; [lia|]. split; [done|]. split; [done|]. split; [constructor|cbn; lia].
Qed.

Lemma sdata_app_l s t i : 0 <= i < script_size s -> sdata (s ++ t) i = sdata s i.
Proof. intros. unfold sdata, script_size in *. rewrite app_nth1 by lia. done. Qed.

Lemma sdata_app_r s t i : 0 <= i -> sdata (s ++ t) (script_size s + i) = sdata t i.
Proof.
  intros. unfold sdata, script_size. rewrite app_nth2 by lia. f_equal. lia.
Qed.

Lemma script_size_app s t : script_size (s ++ t) = script_size s + script_size t.
Proof. unfold script_size. rewrite length_app. lia. Qed.

Lemma drop_app_size s t n : n = Z.to_nat (script_size s) -> drop n (s ++ t) = t.
Proof. intros ->. unfold script_size. rewrite Nat2Z.id. apply drop_app_length. Qed.

(** ** Push round trip *)

(** Decoding at the end of [s] a header of [k] bytes announcing [d]. *)
Lemma get_op_push s hdr d t op :
  script_size (s ++ hdr ++ d ++ t) <= MAX_SCRIPT_SIZE -> Z.of_nat (length d) <= MAX_SCRIPT_ELEMENT_SIZE ->
  bytes hdr -> op = sdata hdr 0 -> op <= OP_PUSHDATA4 ->
  (op < OP_PUSHDATA1 /\ length hdr = 1%nat /\ op = Z.of_nat (length d)) \/
  (op = OP_PUSHDATA1 /\ length hdr = 2%nat /\ sdata hdr 1 = Z.of_nat (length d)) \/
  (op = OP_PUSHDATA2 /\ length hdr = 3%nat /\ le16_at hdr 1 = Z.of_nat (length d)) ->
  script_get_op (s ++ hdr ++ d ++ t) (script_size s) true =
  Some (script_size s + script_size hdr + script_size d, op, d).
Proof.
  intros Hsz Hd Hb Hop Hle Hcase. symmetry in Hop. unfold MAX_SCRIPT_SIZE, MAX_SCRIPT_ELEMENT_SIZE in *.
  rewrite !script_size_app in Hsz. unfold script_get_op. rewrite !script_size_app.
  assert (forall i, 0 <= i < script_size hdr -> sdata (s ++ hdr ++ d ++ t) (script_size s + i) = sdata hdr i) as Hat.
  { intros i Hi. rewrite sdata_app_r, sdata_app_l by lia. done. }
  assert (0 <= script_size s /\ 0 <= script_size d /\ 0 <= script_size t) as (Ps & Pd & Pt) by (unfold script_size; lia).
  assert (1 <= script_size hdr) as Ph by (unfold script_size; destruct Hcase as [(_ & -> & _)|[(_ & -> & _)|(_ & -> & _)]]; lia).
  destruct (Z.leb_spec (script_size s + (script_size hdr + (script_size d + script_size t))) (script_size s)); [lia|].
  assert (sdata (s ++ hdr ++ d ++ t) (script_size s) = op) as ->.
  { rewrite <- (Z.add_0_r (script_size s)), (Hat 0) by lia. done. }
  rewrite (proj2 (Z.leb_le op OP_PUSHDATA4)) by done.
  assert (take (Z.to_nat (script_size d)) (drop (Z.to_nat (script_size s + script_size hdr)) (s ++ hdr ++ d ++ t)) = d) as Htk.
  { rewrite app_assoc, drop_app_size by (rewrite script_size_app; done).
    unfold script_size. rewrite Nat2Z.id. apply take_app_length. }
  assert (forall n p, n = script_size d -> p = script_size s + script_size hdr ->
    (if script_size s + (script_size hdr + (script_size d + script_size t)) <? u64 (p + n) then None
     else if 520 <? n then None
     else Some (p + n, op, take (Z.to_nat n) (drop (Z.to_nat p) (s ++ hdr ++ d ++ t)))) =
    Some (script_size s + script_size hdr + script_size d, op, d)) as Hfin.
  { intros n p -> ->. rewrite wrap_id by (unfold in_u; lia).
    destruct (Z.ltb_spec (script_size s + (script_size hdr + (script_size d + script_size t)))
                         (script_size s + script_size hdr + script_size d)); [lia|].
    destruct (Z.ltb_spec 520 (script_size d)); [unfold script_size in *; lia|]. by rewrite Htk. }
  destruct Hcase as [(Hlt & Hl & Hn)|[(-> & Hl & Hn)|(-> & Hl & Hn)]].
  - rewrite (proj2 (Z.ltb_lt op OP_PUSHDATA1)) by done. apply Hfin; [done|]. unfold script_size. lia.
  - change (OP_PUSHDATA1 <? OP_PUSHDATA1) with false. change (OP_PUSHDATA1 =? OP_PUSHDATA1) with true. cbv iota.
    destruct (Z.leb_spec (script_size s + (script_size hdr + (script_size d + script_size t))) (script_size s + 1)).
    { unfold script_size in *. lia. }
    rewrite (Hat 1) by (unfold script_size; lia). apply Hfin; [done|]. unfold script_size. lia.
  - change (OP_PUSHDATA2 <? OP_PUSHDATA1) with false. change (OP_PUSHDATA2 =? OP_PUSHDATA1) with false.
    change (OP_PUSHDATA2 =? OP_PUSHDATA2) with true. cbv iota.
    destruct (Z.leb_spec (script_size s + (script_size hdr + (script_size d + script_size t))) (script_size s + 1 + 1)).
    { unfold script_size in *. lia. }
    assert (le16_at (s ++ hdr ++ d ++ t) (script_size s + 1) = le16_at hdr 1) as ->.
    { unfold le16_at. rewrite <- Z.add_assoc, !Hat by (unfold script_size; lia). done. }
    apply Hfin; [done|]. unfold script_size. lia.
Qed.

Lemma script_push_data_parse s d s' t :
  script_wf s -> bytes d -> Z.of_nat (length d) <= MAX_SCRIPT_ELEMENT_SIZE ->
  script_push_data s d = Some s' -> script_size (s' ++ t) <= MAX_SCRIPT_SIZE ->
  exists op, script_get_op (s' ++ t) (script_size s) true = Some (script_size s', op, d) /\
             op <= OP_PUSHDATA4 /\ script_wf s'.
Proof.
  intros [Hs Hsz] Hd Hlen Hpush Hmax. pose proof Hlen as Hlen'. unfold MAX_SCRIPT_ELEMENT_SIZE in Hlen.
  assert (script_size s' <= MAX_SCRIPT_SIZE) as Hs' by (rewrite script_size_app in Hmax; unfold script_size in *; lia).
  enough (exists hdr, s' = s ++ hdr ++ d /\ bytes hdr /\ sdata hdr 0 <= OP_PUSHDATA4 /\
    ((sdata hdr 0 < OP_PUSHDATA1 /\ length hdr = 1%nat /\ sdata hdr 0 = Z.of_nat (length d)) \/
     (sdata hdr 0 = OP_PUSHDATA1 /\ length hdr = 2%nat /\ sdata hdr 1 = Z.of_nat (length d)) \/
     (sdata hdr 0 = OP_PUSHDATA2 /\ length hdr = 3%nat /\ le16_at hdr 1 = Z.of_nat (length d)))) as (hdr & -> & Hb & Hop & Hc).
  { exists (sdata hdr 0). rewrite <- !app_assoc in *. split_and!; try done.
    - rewrite !script_size_app, Z.add_assoc. by apply get_op_push.
    - split; [|done]. apply digits_app; [done|]. by apply digits_app. }
  assert (in_u 8 OP_PUSHDATA1 /\ in_u 8 OP_PUSHDATA2) as [O1 O2] by (split; split; vm_compute; congruence).
  unfold script_push_data in Hpush. cbv zeta in Hpush.
  destruct (Z.ltb_spec (Z.of_nat (length d)) OP_PUSHDATA1) as [H1|H1].
  { unfold OP_PUSHDATA1, OP_PUSHDATA4 in *. rewrite (wrap_id 8) in Hpush by (unfold in_u; lia).
    destruct (_ <? _); simplify_eq. exists [Z.of_nat (length d)]. split; [done|].
    split; [repeat constructor; unfold in_u; lia|].
    change (sdata [Z.of_nat (length d)] 0) with (Z.of_nat (length d)). split; [lia|]. left. by split_and!. }
  destruct (Z.leb_spec (Z.of_nat (length d)) 0xff) as [H2|H2].
  { destruct (_ <? _); simplify_eq. exists [OP_PUSHDATA1; u8 (Z.of_nat (length d))]. split; [done|].
    rewrite wrap_id by (unfold in_u; lia). split; [repeat constructor; done || lia|]. split; [done|]. right. by left. }
  destruct (Z.leb_spec (Z.of_nat (length d)) 0xffff) as [H3|H3]; [|lia].
  destruct (_ <? _); simplify_eq.
  exists [OP_PUSHDATA2; Z.of_nat (length d) .& 0xff; u8 (Z.of_nat (length d) >> 8)]. split; [done|].
  change 0xff with (Z.ones 8). rewrite Z.land_ones, Z.shiftr_div_pow2 by lia.
  assert (in_u 8 (Z.of_nat (length d) mod 2 ^ 8)) as Q1 by (apply Z.mod_pos_bound; lia).
  assert (in_u 8 (u8 (Z.of_nat (length d) / 2 ^ 8))) as Q2 by (apply wrap_range; lia).
  split; [do 3 (apply Forall_cons_2; [done|]); constructor|]. split; [done|]. right. right. split; [done|]. split; [done|].
  match goal with |- le16_at [_; ?x; ?y] 1 = _ => change (le16_at [OP_PUSHDATA2; x; y] 1) with (x .| (y << 8)) end.
  rewrite (proj1 (merge_byte _ _ 8 ltac:(lia) Q1 Q2)). rewrite wrap_id.
  - pose proof (Z.div_mod (Z.of_nat (length d)) (2 ^ 8) ltac:(lia)). lia.
  - split; [apply Z.div_pos; lia|apply Z.div_lt_upper_bound; lia].
Qed.

(** A pushed element is read back: appending up to 520 bytes of data with
    [script_push_data] and decoding at the old end of the script, whatever follows,
    yields a push opcode, exactly those bytes, and a cursor at the new end. *)
Theorem push_data_get_op_roundtrip s d s' t :
  script_wf s -> bytes d -> Z.of_nat (length d) <= MAX_SCRIPT_ELEMENT_SIZE ->
  script_push_data s d = Some s' -> script_size (s' ++ t) <= MAX_SCRIPT_SIZE ->
  exists op, script_get_op (s' ++ t) (script_size s) true = Some (script_size s', op, d) /\
             op <= OP_PUSHDATA4 /\ script_wf s'.
Proof. apply script_push_data_parse. Qed.

Lemma push_data_get_op_roundtrip_witness :
  exists op, script_get_op ([OP_DUP] ++ [2; 7; 9] ++ [OP_DROP]) 1 true = Some (4, op, [7; 9]) /\
             op <= OP_PUSHDATA4 /\ script_wf [OP_DUP; 2; 7; 9].
Proof.
  apply (push_data_get_op_roundtrip [OP_DUP] [7; 9] [OP_DUP; 2; 7; 9] [OP_DROP]);
    try (vm_compute; congruence); [split; [|vm_compute; congruence]|];
    repeat constructor; vm_compute; congruence.
Defined.

(** ** Script numbers *)

Lemma magnitude_bytes_spec fuel a :
  0 < a < 2 ^ (8 * Z.of_nat fuel) ->
  let m := magnitude_bytes fuel a in
  digits_val 8 m = a /\ bytes m /\ m <> [] /\ (length m <= fuel)%nat /\ last_byte m <> 0.
Proof.
  revert a. induction fuel as [|fuel IH]; intros a Ha; [change (8 * Z.of_nat 0) with 0 in Ha; lia|].
  cbn [magnitude_bytes]. destruct (Z.eqb_spec a 0); [lia|].
  change 0xff with (Z.ones 8). rewrite Z.land_ones, Z.shiftr_div_pow2 by lia. cbn zeta.
  assert (in_u 8 (a mod 2 ^ 8)) as Hm by (apply Z.mod_pos_bound; lia).
  pose proof (Z.div_mod a (2 ^ 8) ltac:(lia)) as E.
  destruct (Z.eq_dec (a / 2 ^ 8) 0) as [E0|E0].
  - rewrite E0 in E |- *. assert (magnitude_bytes fuel 0 = []) as -> by (by destruct fuel).
    cbn [digits_val length]. split; [lia|]. split; [by repeat constructor; apply Hm|].
    split; [done|]. split; [lia|]. unfold last_byte. cbn. lia.
  - assert (0 <= a / 2 ^ 8) by (apply Z.div_pos; lia).
    destruct (IH (a / 2 ^ 8)) as (V & B & N & L & T).
    { split; [lia|]. apply Z.div_lt_upper_bound; [lia|].
      rewrite <- Z.pow_add_r by lia. replace (8 + 8 * Z.of_nat fuel) with (8 * Z.of_nat (S fuel)) by lia. lia. }
    set (m := magnitude_bytes fuel (a / 2 ^ 8)) in *. cbn [digits_val length].
    split; [lia|]. split; [by apply Forall_cons_2|]. split; [done|]. split; [lia|].
    unfold last_byte in *. destruct m as [|x m]; [done|]. cbn in *. by rewrite Nat.sub_0_r in *.
Qed.

Lemma last_byte_snoc d x : last_byte (d ++ [x]) = x.
Proof. unfold last_byte. rewrite length_app. cbn. rewrite Nat.add_sub, app_nth2, Nat.sub_diag by lia. done. Qed.

Lemma last_byte2_snoc d x : d <> [] -> last_byte2 (d ++ [x]) = last_byte d.
Proof.
  intros. unfold last_byte, last_byte2. rewrite length_app. cbn.
  assert (length d <> 0%nat) by (by destruct d). rewrite app_nth1 by lia. f_equal. lia.
Qed.

Lemma snoc_cases (d : list Z) : d <> [] -> exists d', d = d' ++ [last_byte d].
Proof.
  intros Hd. destruct (exists_last Hd) as (d' & x & ->). exists d'. by rewrite last_byte_snoc.
Qed.

(** Clearing the sign bit of an accumulated magnitude. *)
Lemma clear_sign_bit a k :
  0 <= k < 64 -> 0 <= a < 2 ^ k -> (a + 2 ^ k) .& u64 (Z.lnot (u64 (2 ^ k))) = a.
Proof.
  intros Hk Ha. assert (2 ^ k < 2 ^ 64) by (apply Z.pow_lt_mono_r; lia). pose proof (pow2_pos k ltac:(lia)).
  rewrite (wrap_id 64 (2 ^ k)) by (unfold in_u; lia).
  assert (Z.testbit a k = false) as Hb.
  { rewrite <- (Z.mod_small a (2 ^ k)) by lia. apply Z.mod_pow2_bits_high. lia. }
  rewrite <- (lor_pow2_add a k), Z.shiftl_1_l by (done || lia).
  apply Z.bits_inj'. intros n Hn. rewrite Z.land_spec, Z.lor_spec, Z.pow2_bits_eqb by lia. unfold wrap.
  destruct (Z.lt_ge_cases n 64).
  - rewrite Z.mod_pow2_bits_low, Z.lnot_spec, Z.pow2_bits_eqb by lia.
    destruct (Z.eqb_spec k n) as [<-|]; cbn; [by rewrite Hb|by rewrite orb_false_r, andb_true_r].
  - rewrite Z.mod_pow2_bits_high, andb_false_r by lia.
    rewrite <- (Z.mod_small a (2 ^ k)) by lia. symmetry. apply Z.mod_pow2_bits_high. lia.
Qed.

(** What the decoder computes from [body ++ [top]] once the length and
    minimality checks pass. *)
Lemma script_num_decode body top min max :
  bytes (body ++ [top]) -> Z.of_nat (length body) + 1 <= max <= 8 ->
  min && ((top .& 0x7f) =? 0) && ((Z.of_nat (length (body ++ [top])) <=? 1) || (last_byte body .& 0x80 =? 0)) = false ->
  script_num_from_bytes (body ++ [top]) min max =
  Some (if 128 <=? top then - (digits_val 8 body + (top - 128) * 2 ^ (8 * Z.of_nat (length body)))
        else digits_val 8 body + top * 2 ^ (8 * Z.of_nat (length body))).
Proof.
  intros Hb Hmax Hmin. pose proof Hb as Hb'. apply Forall_app in Hb' as [Hb1 Hb2].
  assert (in_u 8 top) as Ht by (by inversion Hb2).
  unfold script_num_from_bytes. rewrite last_byte_snoc, length_app in *. cbn [length] in *.
  destruct (Z.ltb_spec max (Z.of_nat (length body + 1))); [lia|].
  rewrite (proj2 (Z.ltb_lt 0 _)) by lia. rewrite andb_true_r.
  assert (min && ((top .& 0x7f) =? 0) && ((Z.of_nat (length body + 1) <=? 1) || (last_byte2 (body ++ [top]) .& 0x80 =? 0)) = false) as ->.
  { destruct body as [|b0 body0] eqn:E; [exact Hmin|]. by rewrite last_byte2_snoc by done. }
  destruct (Z.eqb_spec (Z.of_nat (length body + 1)) 0); [lia|].
  rewrite (fold_bytes_val (length body + 1) (body ++ [top])) by (try rewrite length_app; cbn; done || lia).
  rewrite digits_val_app by lia. cbn [digits_val]. rewrite Z.mul_0_r, Z.add_0_r.
  pose proof (digits_val_bound 8 body ltac:(lia) Hb1) as Bv. set (v := digits_val 8 body) in *.
  set (k := 8 * Z.of_nat (length body)) in *. pose proof (pow2_pos k ltac:(lia)).
  destruct Ht as [Ht1 Ht2]. change 0x80 with (Z.shiftl 1 7) at 1. rewrite land_pow2_testbit, testbit_top by lia.
  replace (8 * (Z.of_nat (length body + 1) - 1)) with k by lia.
  assert (2 ^ k * 2 ^ 7 <= 2 ^ 63) as Hk63 by (rewrite <- Z.pow_add_r by lia; apply Z.pow_le_mono_r; lia).
  destruct (Z.leb_spec (2 ^ 7) top) as [H7|H7].
  - change (2 ^ 7) with 128 in *. rewrite (proj2 (Z.leb_le 128 top)) by lia. do 2 f_equal.
    replace (Z.shiftl 128 k) with (2 ^ (k + 7)) by (rewrite Z.shiftl_mul_pow2, Z.pow_add_r by lia; ring).
    replace (v + 2 ^ k * top) with (v + (top - 128) * 2 ^ k + 2 ^ (k + 7)) by (rewrite Z.pow_add_r by lia; ring).
    rewrite clear_sign_bit; [|lia|rewrite Z.pow_add_r by lia; nia].
    apply swrap_id; [lia|]. unfold in_s. change (64 - 1) with 63. nia.
  - change (2 ^ 7) with 128 in *. rewrite (proj2 (Z.leb_gt 128 top)) by lia. f_equal. rewrite (Z.mul_comm (2 ^ k)).
    apply swrap_id; [lia|]. unfold in_s. change (64 - 1) with 63. nia.
Qed.

Lemma land_7f_small x : 0 <= x < 128 -> x .& 0x7f = x.
Proof. intros. change 0x7f with (Z.ones 7). rewrite Z.land_ones by lia. by apply Z.mod_small. Qed.

Lemma land_80_byte x : 0 <= x < 256 -> (x .& 0x80 =? 0) = (x <? 128).
Proof.
  intros. rewrite <- (negb_involutive (_ =? 0)). change 0x80 with (Z.shiftl 1 7). rewrite land_pow2_testbit, testbit_top by lia.
  change (2 ^ 7) with 128. rewrite Z.leb_antisym. by rewrite negb_involutive.
Qed.

(** The top byte that sizes the buffer is the last magnitude byte. *)
Lemma magnitude_top a m n :
  digits_val 8 m = a -> bytes m -> m <> [] -> n = 8 * (Z.of_nat (length m) - 1) -> (a >> n) .& 0xff = last_byte m.
Proof.
  intros V B N ->. assert (length m <> 0%nat) by (by destruct m).
  change 0xff with (Z.ones 8). rewrite Z.land_ones, Z.shiftr_div_pow2 by lia.
  destruct (lookup_lt_is_Some_2 m (length m - 1)) as [x Hx]; [lia|].
  unfold last_byte. rewrite (nth_lookup_Some _ _ _ _ Hx).
  rewrite (digits_lookup_val 8 m _ _ ltac:(lia) B Hx), V. do 2 f_equal. f_equal. lia.
Qed.

Lemma script_num_serialize_ok v :
  - 2 ^ 63 < v < 2 ^ 63 ->
  exists d, script_num_serialize v SCRIPT_NUM_MAX_SIZE = Some d /\ bytes d /\ Z.of_nat (length d) <= 8 /\
            script_num_from_bytes d true SCRIPT_NUM_MAX_SIZE = Some v.
Proof.
  intros Hv. unfold script_num_serialize, SCRIPT_NUM_MAX_SIZE.
  destruct (Z.eqb_spec v 0) as [->|Hz]; [exists []; split_and!; try done; constructor|].
  assert ((if v <? 0 then s64 (- v) else Some v) = Some (Z.abs v)) as ->.
  { destruct (Z.ltb_spec v 0); [rewrite s64_ok by lia|]; f_equal; lia. }
  set (a := Z.abs v) in *. destruct (magnitude_bytes_spec 8 a) as (V & B & N & L & T).
  { change (8 * Z.of_nat 8) with 64. lia. }
  set (m := magnitude_bytes 8 a) in *. clearbody m. cbn zeta.
  destruct (snoc_cases m N) as [body Em]. set (top := last_byte m) in *.
  assert (in_u 8 top /\ bytes body) as [[T1 T2] Bb].
  { rewrite Em in B. apply Forall_app in B as [B1 B2]. split; [by inversion B2|done]. }
  rewrite (magnitude_top a m) by done. fold top. rewrite land_80_byte by lia.
  assert (length m = length body + 1)%nat as Lm by (by rewrite Em, length_app).
  assert (a = digits_val 8 body + 2 ^ (8 * Z.of_nat (length body)) * top) as Va.
  { rewrite <- V, Em, digits_val_app by lia. cbn [digits_val]. ring. }
  assert (0 <= digits_val 8 body) by (by apply digits_val_bound).
  destruct (Z.ltb_spec top 128) as [Ht|Ht]; cbn [negb].
  - destruct (Z.ltb_spec 8 (Z.of_nat (length m))); [lia|].
    assert (forall t, t = top \/ t = top + 128 ->
      script_num_from_bytes (body ++ [t]) true 8 = Some (if 128 <=? t then - a else a)) as Hdec.
    { intros t Htt. rewrite script_num_decode; [| |lia|cbn [andb]].
      - destruct Htt as [->| ->]; [rewrite (proj2 (Z.leb_gt 128 top)) by lia|rewrite (proj2 (Z.leb_le 128 (top + 128))) by lia];
          do 2 f_equal; rewrite Va; ring_simplify; ring.
      - apply digits_app; [done|]. apply Forall_cons_2; [split; lia|constructor].
      - apply andb_false_intro1. destruct Htt as [->| ->]; [rewrite land_7f_small by lia; by apply Z.eqb_neq|].
        change 0x7f with (Z.ones 7). rewrite Z.land_ones by lia. apply Z.eqb_neq. zdm. }
    destruct (Z.ltb_spec v 0).
    + exists (body ++ [top + 128]). split; [|split; [|split]].
      * f_equal. rewrite Lm, Nat.add_sub. clearbody top. rewrite Em, insert_app_r_alt, Nat.sub_diag by lia. cbn.
        do 2 f_equal. apply (lor_add_disjoint top 1 7); [lia|split; lia].
      * apply digits_app; [done|]. apply Forall_cons_2; [split; lia|constructor].
      * rewrite length_app. cbn. lia.
      * rewrite Hdec by auto. rewrite (proj2 (Z.leb_le 128 (top + 128))) by lia. f_equal. lia.
    + exists m. split; [done|]. split; [done|]. split; [lia|]. rewrite Em. rewrite Hdec by auto.
      rewrite (proj2 (Z.leb_gt 128 top)) by lia. f_equal. lia.
  - assert (length m <= 7)%nat as L7.
    { destruct (decide (length m = 8)%nat) as [E8|]; [|lia].
      replace (length body) with 7%nat in Va by lia. change (8 * Z.of_nat 7) with 56 in Va. lia. }
    destruct (Z.ltb_spec 8 (Z.of_nat (length m) + 1)); [lia|].
    eexists. split; [done|]. split; [apply digits_app; [done|]; by destruct (v <? 0); repeat constructor|].
    split; [rewrite length_app; cbn; lia|].
    rewrite script_num_decode; [|apply digits_app; [done|]; by destruct (v <? 0); repeat constructor|lia|cbn [andb]].
    + f_equal. rewrite V. destruct (Z.ltb_spec v 0);
        [change (128 <=? 0x80) with true|change (128 <=? 0) with false]; cbv iota; lia.
    + apply andb_false_intro2. fold top. rewrite land_80_byte, (proj2 (Z.ltb_ge top 128)) by lia.
      rewrite length_app. cbn. rewrite orb_false_r. apply Z.leb_gt. lia.
Qed.

(** Script numbers round-trip: every 64-bit value other than the least one
    serializes, into at most 8 bytes and without undefined behaviour, to an
    encoding that the decoder accepts under the minimal-encoding rule and maps
    back to the value. *)
Theorem script_num_roundtrip v :
  - 2 ^ 63 < v < 2 ^ 63 ->
  exists d, script_num_serialize v SCRIPT_NUM_MAX_SIZE = Some d /\ bytes d /\ Z.of_nat (length d) <= 8 /\
            script_num_from_bytes d true SCRIPT_NUM_MAX_SIZE = Some v.
Proof. apply script_num_serialize_ok. Qed.

Lemma script_num_roundtrip_witness :
  exists d, script_num_serialize (-255) SCRIPT_NUM_MAX_SIZE = Some d /\ bytes d /\ Z.of_nat (length d) <= 8 /\
            script_num_from_bytes d true SCRIPT_NUM_MAX_SIZE = Some (-255).
Proof. apply script_num_roundtrip. lia. Defined.

(** A decoded number is bounded by the width it was read at. *)
Lemma script_num_from_bytes_range d min max v :
  bytes d -> 0 < max <= 8 -> script_num_from_bytes d min max = Some v -> Z.abs v < 2 ^ (8 * max - 1).
Proof.
  intros Hb Hmax Hv. destruct (decide (d = [])) as [->|Hd].
  { unfold script_num_from_bytes in Hv. cbn [length] in Hv. rewrite !andb_false_r in Hv.
    destruct (max <? Z.of_nat 0); simplify_eq/=. apply pow2_pos. lia. }
  destruct (snoc_cases d Hd) as [body E]. set (top := last_byte d) in *. clearbody top. subst d.
  assert (Z.of_nat (length body) + 1 <= max) as Hl.
  { unfold script_num_from_bytes in Hv. rewrite length_app in Hv. cbn [length] in Hv. bool_cases; done || lia. }
  rewrite script_num_decode in Hv; [|done|lia|].
  2:{ unfold script_num_from_bytes in Hv. destruct (max <? _); [done|]. rewrite last_byte_snoc in Hv.
      destruct min; [|done]. cbn [andb] in *. rewrite length_app in *. cbn [length] in *.
      rewrite (proj2 (Z.ltb_lt 0 _)) in Hv by lia. cbn [andb] in Hv.
      destruct body as [|b0 body0] eqn:Eb; [|rewrite last_byte2_snoc in Hv by done]; [|by destruct (_ && _)].
      cbn in Hv |- *. by destruct (top .& 127 =? 0). }
  pose proof Hb as Hb'. apply Forall_app in Hb' as [Hb1 Hb2]. assert (in_u 8 top) as [Ht1 Ht2] by (by inversion Hb2).
  pose proof (digits_val_bound 8 body ltac:(lia) Hb1) as Bv.
  set (k := 8 * Z.of_nat (length body)) in *. pose proof (pow2_pos k ltac:(lia)).
  assert (2 ^ k * 2 ^ 7 <= 2 ^ (8 * max - 1)) by (rewrite <- Z.pow_add_r by lia; apply Z.pow_le_mono_r; lia).
  change (2 ^ 7) with 128 in *. destruct (Z.leb_spec 128 top); injection Hv as <-; nia.
Qed.

(** ** Signature operations *)

Lemma sig_op_weight_le flags last op :
  0 <= sig_op_weight flags true last op <= sig_op_weight flags false last op /\
  sig_op_weight flags false last op <= 20.
Proof.
  unfold sig_op_weight, OP_1, OP_16. cbn [andb].
  destruct (_ || _); [lia|]. destruct (_ || _); [destruct (negb _); lia|]. destruct (_ || _); [|lia].
  destruct (Z.leb_spec 0x51 last), (Z.leb_spec last 0x60); cbn [andb]; try lia.
  rewrite wrap_id by (unfold in_u; lia). lia.
Qed.

(** The two counting modes in lockstep; [n] and [n'] are the running counts. *)
Lemma sig_op_loop_le fuel s flags pc n n' last :
  script_wf s -> 0 <= pc -> (Z.to_nat (script_size s - pc) <= fuel)%nat ->
  0 <= n <= n' -> n' <= 20 * pc ->
  exists c c', sig_op_loop fuel s flags true pc n last = Some c /\
               sig_op_loop fuel s flags false pc n' last = Some c' /\
               0 <= c <= c' /\ c' <= 20 * Z.max pc (script_size s).
Proof.
  intros Hs. revert pc n n' last. induction fuel as [|fuel IH]; intros pc n n' last Hpc Hf Hn Hn';
    cbn [sig_op_loop]; destruct (Z.ltb_spec pc (script_size s)); try (exists n, n'; split_and!; done || lia).
  - destruct (script_get_op s pc false) as [[[pc' op] d]|] eqn:E; [|exists n, n'; split_and!; done || lia].
    apply get_op_spec in E as (Hpc' & _); [|done|done]. pose proof (sig_op_weight_le flags last op) as Hw.
    destruct Hs as [_ Hmax]. unfold MAX_SCRIPT_SIZE in Hmax.
    rewrite !wrap_id by (unfold in_u; lia).
    destruct (IH pc' (n + sig_op_weight flags true last op) (n' + sig_op_weight flags false last op) op)
      as (c & c' & E1 & E2 & R1 & R2); [lia..|]. exists c, c'. split_and!; done || lia.
Qed.

Lemma sig_op_count_total s flags accurate :
  script_wf s -> exists c, script_get_sig_op_count s flags accurate = Some c /\ 0 <= c <= 20 * script_size s.
Proof.
  intros Hs. assert (0 <= script_size s) by (unfold script_size; lia).
  destruct (sig_op_loop_le (length s) s flags 0 0 0 OP_INVALIDOPCODE Hs) as (c & c' & E1 & E2 & R1 & R2);
    [lia|unfold script_size; lia|lia|lia|]. unfold script_get_sig_op_count.
  destruct accurate; [exists c|exists c']; split; done || lia.
Qed.

Lemma last_push_loop_total fuel s pc lp :
  script_wf s -> 0 <= pc -> (Z.to_nat (script_size s - pc) <= fuel)%nat -> bytes lp -> Z.of_nat (length lp) <= 520 ->
  exists r, last_push_loop fuel s pc lp = Some r /\
            match r with Some d => bytes d /\ Z.of_nat (length d) <= 520 | None => True end.
Proof.
  intros Hs. revert pc lp. induction fuel as [|fuel IH]; intros pc lp Hpc Hf Hb Hl; cbn [last_push_loop];
    destruct (Z.ltb_spec pc (script_size s)); try (by eexists (Some lp)).
  - lia.
  - destruct (script_get_op s pc true) as [[[pc' op] d]|] eqn:E; [|by exists None].
    apply get_op_spec in E as (Hpc' & _ & _ & Bd & Ld); [|done|done].
    destruct (_ <? op); [by exists None|]. destruct (_ <? _); [by exists None|].
    apply IH; [lia|lia|done|done].
Qed.

Lemma p2sh_count_total s sig flags : script_wf s -> script_wf sig ->
  exists c, script_get_sig_op_count_p2sh s sig flags = Some c /\ 0 <= c <= 20 * MAX_SCRIPT_SIZE.
Proof.
  intros Hs Hg. assert (0 <= script_size s /\ 0 <= script_size sig) as [Ps Pg] by (unfold script_size; lia).
  unfold script_get_sig_op_count_p2sh. destruct (_ || _).
  { destruct (sig_op_count_total s flags true Hs) as (c & -> & Hc). exists c. split; [done|].
    destruct Hs as [_ Hmax]. unfold MAX_SCRIPT_SIZE in *. lia. }
  destruct (last_push_loop_total (length sig) sig 0 [] Hg) as (r & -> & Hr);
    [lia|unfold script_size; lia|constructor|cbn; lia|]. destruct r as [d|]; [|exists 0; by split].
  destruct Hr as [Bd Ld].
  assert (script_wf (script_set d)) as Hd.
  { split; [by apply digits_take|]. unfold script_set, script_size, MAX_SCRIPT_SIZE in *. rewrite length_take. lia. }
  destruct (sig_op_count_total (script_set d) flags true Hd) as (c & -> & Hc). exists c. split; [done|].
  destruct Hd as [_ Hmax]. unfold MAX_SCRIPT_SIZE in *. lia.
Qed.

(** Signature-operation counting always returns, without 32-bit wrap-around, at
    most 20 per script byte; the inaccurate mode never under-counts the accurate
    one; and the P2SH-aware count is defined for every pair of scripts. *)
Lemma sig_op_count_bounds s sig flags :
  script_wf s -> script_wf sig ->
  (exists c c', script_get_sig_op_count s flags true = Some c /\ script_get_sig_op_count s flags false = Some c' /\
     0 <= c <= c' /\ c' <= 20 * script_size s) /\
  exists c, script_get_sig_op_count_p2sh s sig flags = Some c /\ 0 <= c <= 20 * MAX_SCRIPT_SIZE.
Proof.
  intros Hs Hg. split; [|by apply p2sh_count_total]. assert (0 <= script_size s) by (unfold script_size; lia).
  destruct (sig_op_loop_le (length s) s flags 0 0 0 OP_INVALIDOPCODE Hs) as (c & c' & E1 & E2 & R1 & R2);
    [lia|unfold script_size; lia|lia|lia|]. exists c, c'. split_and!; done || lia.
Qed.
