(* ===== verification/Hash.v ===== *)
(** * Streaming hashes

    Model of [core/modules/crypto/src/sha1.c], [ripemd160.c] and [sha256.c] (the
    portable transform) and of [hash256] / [hash160] in [core/math/src/hash.c].
    The transforms are the unrolled code of the source, round by round; the
    reference definitions of FIPS 180-4 and of the RIPEMD-160 report are the
    loops those rounds were unrolled from. The three [_write] functions are the
    same code around three transforms and are modelled once. *)

From stdpp Require Import base tactics list numbers option.
From Stdlib Require Import ZArith Lia ZifyNat.
From S2P Require Import Prelude ByteOrder.

(** Linear arithmetic with [nat] quotients and remainders. *)
Ltac ndm := zify; zdm.

(** ** The streaming context *)

(** [struct sha1_ctx], [ripemd160_ctx], [sha256_ctx]: chaining words, the
    64-byte block buffer and the number of bytes absorbed ([size_t]). *)
Record md_ctx := mk_ctx { ctx_s : list Z; ctx_buf : list Z; ctx_bytes : Z }.

(** [memcpy(buf + off, src, |src|)]. *)
Definition memcpy_at (buf : list Z) (off : nat) (src : list Z) : list Z :=
  take off buf ++ src ++ drop (off + length src) buf.

Lemma memcpy_at_length buf off src :
  (off + length src <= length buf)%nat -> length (memcpy_at buf off src) = length buf.
Proof. intros H. unfold memcpy_at. rewrite !length_app, length_take, length_drop. lia. Qed.

Lemma memcpy_at_take buf off src :
  (off + length src <= length buf)%nat -> take (off + length src) (memcpy_at buf off src) = take off buf ++ src.
Proof.
  intros H. unfold memcpy_at. rewrite app_assoc. apply take_app_length'.
  rewrite length_app, length_take. lia.
Qed.

Section Streaming.
Variable transform : list Z -> list Z -> list Z.

(** [while (end >= data + 64) { transform(s, data); bytes += 64; data += 64; }] *)
Fixpoint md_blocks (fuel : nat) (s : list Z) (bytes : Z) (data : list Z) : list Z * Z * list Z :=
  match fuel with
  | O => (s, bytes, data)
  | S fuel =>
      if (64 <=? length data)%nat
      then md_blocks fuel (transform s (take 64 data)) (u64 (bytes + 64)) (drop 64 data)
      else (s, bytes, data)
  end.

Definition md_write (ctx : md_ctx) (data : list Z) : md_ctx :=
  let len := length data in
  let bufsize := Z.to_nat (ctx_bytes ctx mod 64) in
  let '(s, buf, bytes, data, bufsize) :=
    if negb (bufsize =? 0)%nat && (64 <=? bufsize + len)%nat then
      let buf := memcpy_at (ctx_buf ctx) bufsize (take (64 - bufsize) data) in
      (transform (ctx_s ctx) buf, buf, u64 (ctx_bytes ctx + Z.of_nat (64 - bufsize)),
       drop (64 - bufsize) data, O)
    else (ctx_s ctx, ctx_buf ctx, ctx_bytes ctx, data, bufsize) in
  let '(s, bytes, data) := md_blocks (length data) s bytes data in
  if (0 <? length data)%nat
  then mk_ctx s (memcpy_at buf bufsize data) (u64 (bytes + Z.of_nat (length data)))
  else mk_ctx s buf bytes.

(** The padding both finalizers append: [pad] is [{0x80}] and zeros. *)
Definition md_pad (ctx : md_ctx) : list Z :=
  take (Z.to_nat (1 + (119 - ctx_bytes ctx mod 64) mod 64)) (0x80 :: replicate 63 0).

(** *** What a context has absorbed *)

Variable iv : list Z.

(** Chaining value after the [n] first blocks of [m]. *)
Fixpoint compress (n : nat) (s m : list Z) : list Z :=
  match n with
  | O => s
  | S n => compress n (transform s (take 64 m)) (drop 64 m)
  end.

Definition chain (m : list Z) : list Z := compress (length m / 64) iv m.

Record absorbed (ctx : md_ctx) (m : list Z) : Prop := {
  ab_buf : length (ctx_buf ctx) = 64%nat;
  ab_bytes : ctx_bytes ctx = u64 (Z.of_nat (length m));
  ab_s : ctx_s ctx = chain m;
  ab_tail : take (length m `mod` 64) (ctx_buf ctx) = drop (64 * (length m / 64)) m;
}.

Lemma compress_add n1 n2 s m :
  compress (n1 + n2) s m = compress n2 (compress n1 s m) (drop (64 * n1) m).
Proof.
  revert s m. induction n1 as [|n IH]; intros s m; [done|].
  cbn [Nat.add compress]. rewrite IH, drop_drop. do 2 f_equal. lia.
Qed.

Lemma compress_app n s a b : (64 * n <= length a)%nat -> compress n s (a ++ b) = compress n s a.
Proof.
  revert s a. induction n as [|n IH]; intros s a Hn; [done|]. cbn [compress].
  rewrite take_app_le, drop_app_le by lia. apply IH. rewrite length_drop. lia.
Qed.

Lemma chain_block m b : (length m mod 64 = 0)%nat -> length b = 64%nat -> chain (m ++ b) = transform (chain m) b.
Proof.
  intros Hm Hb. unfold chain. rewrite length_app, Hb.
  replace ((length m + 64) / 64)%nat with (length m / 64 + 1)%nat by (ndm).
  rewrite compress_add, compress_app by (ndm). cbn [compress].
  rewrite drop_app_length' by (ndm). by rewrite take_ge by lia.
Qed.

Lemma chain_partial m r : (length m mod 64 + length r < 64)%nat -> chain (m ++ r) = chain m.
Proof.
  intros Hm. unfold chain. rewrite length_app.
  replace ((length m + length r) / 64)%nat with (length m / 64)%nat by (ndm).
  apply compress_app. ndm.
Qed.

Lemma aligned_tail (m : list Z) : (length m mod 64 = 0)%nat -> drop (64 * (length m / 64)) m = [].
Proof. intros. apply drop_ge. ndm. Qed.

Lemma bufsize_absorbed ctx m : absorbed ctx m -> Z.to_nat (ctx_bytes ctx mod 64) = (length m `mod` 64)%nat.
Proof. intros [_ -> _ _]. unfold wrap. change (2 ^ 64) with (64 * 2 ^ 58). ndm. Qed.

Lemma u64_add a b : u64 (u64 a + b) = u64 (a + b).
Proof. unfold wrap. by rewrite Zplus_mod_idemp_l. Qed.

(** The block loop leaves less than one block, which is the tail of the data. *)
Lemma md_blocks_spec fuel m data :
  (length m mod 64 = 0)%nat -> (length data < 64 * S fuel)%nat ->
  exists done rest,
    md_blocks fuel (chain m) (u64 (Z.of_nat (length m))) data =
      (chain (m ++ done), u64 (Z.of_nat (length (m ++ done))), rest) /\
    data = done ++ rest /\ (length done mod 64 = 0)%nat /\ (length rest < 64)%nat.
Proof.
  revert m data. induction fuel as [|fuel IH]; intros m data Hm Hf; cbn [md_blocks].
  - exists [], data. rewrite app_nil_r. split_and!; auto; lia.
  - destruct (Nat.leb_spec 64 (length data)) as [Hl|Hl].
    + assert (length (take 64 data) = 64%nat) as Ht by (rewrite length_take; lia).
      destruct (IH (m ++ take 64 data) (drop 64 data)) as (d & r & E & Hd & Hdl & Hr).
      * rewrite length_app, Ht. ndm.
      * rewrite length_drop. lia.
      * exists (take 64 data ++ d), r. rewrite chain_block, length_app, Ht, Nat2Z.inj_add in E by done.
        rewrite u64_add. change (Z.of_nat 64) with 64 in E. rewrite E, <- !app_assoc, <- Hd, take_drop.
        split_and!; try done. rewrite length_app, Ht. ndm.
    + exists [], data. rewrite app_nil_r. split_and!; auto; lia.
Qed.

(** The last step of [md_write]: store a partial block behind the buffered bytes. *)
Lemma absorb_tail s buf bytes m data off :
  absorbed (mk_ctx s buf bytes) m -> off = (length m mod 64)%nat -> (off + length data < 64)%nat ->
  absorbed (if (0 <? length data)%nat
            then mk_ctx s (memcpy_at buf off data) (u64 (bytes + Z.of_nat (length data)))
            else mk_ctx s buf bytes) (m ++ data).
Proof.
  intros Ha -> Hl. destruct (Nat.ltb_spec 0 (length data)) as [Hd|Hd].
  - destruct Ha as [Hb Hby Hs Ht]; cbn [ctx_s ctx_buf ctx_bytes] in *. split; cbn [ctx_s ctx_buf ctx_bytes].
    + by rewrite memcpy_at_length by lia.
    + by rewrite Hby, u64_add, length_app, Nat2Z.inj_add.
    + by rewrite chain_partial by lia.
    + rewrite length_app.
      replace ((length m + length data) `mod` 64)%nat with (length m `mod` 64 + length data)%nat by (ndm).
      replace ((length m + length data) / 64)%nat with (length m / 64)%nat by (ndm).
      rewrite memcpy_at_take, Ht by lia. rewrite drop_app_le by (ndm). done.
  - destruct data; [by rewrite app_nil_r|cbn in Hd; lia].
Qed.

(** A write extends the absorbed message by exactly its data, and never stores
    outside the 64-byte buffer. *)
Lemma md_write_absorbed ctx m data : absorbed ctx m -> absorbed (md_write ctx data) (m ++ data).
Proof.
  intros Ha. unfold md_write. rewrite (bufsize_absorbed _ _ Ha).
  pose proof (Nat.mod_upper_bound (length m) 64 ltac:(lia)) as Hlt.
  destruct (negb _ && _) eqn:C; cbv zeta.
  - (* the buffered block is completed first *)
    apply andb_true_iff in C as [C1 C2]. apply negb_true_iff, Nat.eqb_neq in C1. apply Nat.leb_le in C2.
    set (k := (64 - length m `mod` 64)%nat). set (d1 := take k data). set (d2 := drop k data).
    assert (length d1 = k) as Hk by (unfold d1; rewrite length_take; lia).
    destruct Ha as [Hb Hby Hs Ht].
    assert (memcpy_at (ctx_buf ctx) (length m `mod` 64) d1 = drop (64 * (length m / 64)) m ++ d1) as Hbuf.
    { rewrite <- Ht, <- memcpy_at_take by lia. rewrite take_ge; [done|].
      rewrite memcpy_at_length; lia. }
    assert (length (m ++ d1) mod 64 = 0)%nat as Hal by (rewrite length_app, Hk; unfold k; ndm).
    assert (transform (ctx_s ctx) (drop (64 * (length m / 64)) m ++ d1) = chain (m ++ d1)) as Htr.
    { rewrite Hs. set (m0 := take (64 * (length m / 64)) m). set (m1 := drop (64 * (length m / 64)) m).
      assert (m = m0 ++ m1) as Hm by (symmetry; apply take_drop).
      assert (length m0 = 64 * (length m / 64))%nat as Hm0 by (unfold m0; rewrite length_take; ndm).
      assert (length m1 = length m mod 64)%nat as Hm1 by (unfold m1; rewrite length_drop; ndm).
      rewrite Hm, <- app_assoc, (chain_block m0 (m1 ++ d1)).
      - f_equal. apply chain_partial. rewrite Hm0, Hm1. ndm.
      - rewrite Hm0. ndm.
      - rewrite length_app, Hm1, Hk. unfold k. ndm. }
    rewrite Hbuf, Htr, Hby, u64_add. fold d2.
    replace (Z.of_nat (length m) + Z.of_nat k) with (Z.of_nat (length (m ++ d1))) by (rewrite length_app, Hk; lia).
    destruct (md_blocks_spec (length d2) (m ++ d1) d2 Hal ltac:(lia)) as (d & r & -> & Hd & Hdl & Hr).
    assert (data = d1 ++ d ++ r) as Hdata by (rewrite <- Hd; symmetry; apply take_drop).
    assert (m ++ data = ((m ++ d1) ++ d) ++ r) as -> by (rewrite Hdata; by rewrite <- !app_assoc).
    assert (length ((m ++ d1) ++ d) mod 64 = 0)%nat as Hal2 by (rewrite length_app; ndm).
    apply absorb_tail; [|lia..].
    split; cbn [ctx_s ctx_buf ctx_bytes]; try done.
    + rewrite <- Hbuf, memcpy_at_length; lia.
    + by rewrite Hal2, (aligned_tail _ Hal2).
  - (* nothing to complete: either the buffer is empty or the data still fits *)
    destruct (decide (length m mod 64 = 0)%nat) as [Hz|Hnz].
    + destruct Ha as [Hb Hby Hs Ht]. rewrite Hs, Hby.
      destruct (md_blocks_spec (length data) m data Hz ltac:(lia)) as (d & r & -> & -> & Hdl & Hr).
      rewrite app_assoc. assert (length (m ++ d) mod 64 = 0)%nat as Hal by (rewrite length_app; ndm).
      rewrite Hz. apply absorb_tail; [|lia..].
      split; cbn [ctx_s ctx_buf ctx_bytes]; try done. by rewrite Hal, (aligned_tail _ Hal).
    + assert (length m `mod` 64 + length data < 64)%nat as Hf.
      { apply andb_false_iff in C as [C|C]; [|by apply Nat.leb_gt in C].
        apply negb_false_iff, Nat.eqb_eq in C. lia. }
      assert (forall f s b, md_blocks f s b data = (s, b, data)) as ->.
      { intros [|f] s b; cbn [md_blocks]; [done|]. by rewrite (proj2 (Nat.leb_gt 64 (length data))) by lia. }
      apply absorb_tail; [by destruct ctx|done|done].
Qed.

(** *** Padding and digests *)

Lemma absorbed_init buf : length buf = 64%nat -> absorbed (mk_ctx iv buf 0) [].
Proof. intros. by split. Qed.

(** Standard padding: a 1 bit, zeros up to 56 modulo 64, then the length field. *)
Definition padded (size_field : Z -> list Z) (m : list Z) : list Z :=
  m ++ 0x80 :: replicate (Z.to_nat ((55 - Z.of_nat (length m)) mod 64)) 0 ++ size_field (8 * Z.of_nat (length m)).

Lemma md_pad_spec ctx m :
  absorbed ctx m -> md_pad ctx = 0x80 :: replicate (Z.to_nat ((55 - Z.of_nat (length m)) mod 64)) 0.
Proof.
  intros Ha. unfold md_pad. rewrite (ab_bytes _ _ Ha).
  assert (u64 (Z.of_nat (length m)) mod 64 = Z.of_nat (length m) mod 64) as ->.
  { unfold wrap. change (2 ^ 64) with (64 * 2 ^ 58). zdm. }
  replace ((119 - Z.of_nat (length m) mod 64) mod 64) with ((55 - Z.of_nat (length m)) mod 64) by zdm.
  set (k := (55 - Z.of_nat (length m)) mod 64). assert (0 <= k < 64) by (unfold k; zdm).
  replace (Z.to_nat (1 + k)) with (S (Z.to_nat k)) by lia. cbn [take].
  by rewrite take_replicate, Nat.min_l by lia.
Qed.

Lemma padded_aligned f m : length (f (8 * Z.of_nat (length m))) = 8%nat -> (length (padded f m) mod 64 = 0)%nat.
Proof.
  intros Hf. unfold padded. rewrite length_app. cbn [length]. rewrite length_app, length_replicate, Hf.
  ndm.
Qed.

(** Padding an absorbed message and reading the chaining words gives the
    Merkle-Damgard hash of the whole message. *)
Lemma md_finalize_absorbed (write_size : Z -> list Z) ctx m :
  absorbed ctx m -> Z.of_nat (length m) < 2 ^ 61 ->
  let ctx1 := md_write (md_write ctx (md_pad ctx)) (write_size (u64 (ctx_bytes ctx << 3))) in
  ctx_s ctx1 = chain (padded write_size m).
Proof.
  intros Ha Hm ctx1. pose proof (md_pad_spec _ _ Ha) as Hpad.
  assert (u64 (ctx_bytes ctx << 3) = 8 * Z.of_nat (length m)) as Hsz.
  { rewrite (ab_bytes _ _ Ha), (wrap_id 64 (Z.of_nat _)) by (unfold in_u; lia). rewrite Z.shiftl_mul_pow2 by lia.
    change (2 ^ 3) with 8. rewrite wrap_id; [lia|]. unfold in_u. lia. }
  unfold ctx1. rewrite Hsz.
  pose proof (md_write_absorbed _ _ (md_pad ctx) Ha) as H1.
  pose proof (md_write_absorbed _ _ (write_size (8 * Z.of_nat (length m))) H1) as H2.
  rewrite (ab_s _ _ H2), Hpad. unfold padded. by rewrite <- app_assoc.
Qed.

End Streaming.

(** ** Word operations *)

(** A local variable of the C code, kept as a shared binding. *)
Definition dlet_in {A B} (v : A) (f : A -> B) : B := f v.
Notation "'dlet' x ':=' v 'in' k" := (dlet_in v (fun x => k)) (at level 10, x name, k at level 200).

Section Words.
Context `{HostOrder}.

(** [ReadLE32(chunk + off)] and [ReadBE32(chunk + off)] *)
Definition ReadLE32 (p : list Z) (off : nat) : Z := zcl_read_u32_le (drop off p).
Definition ReadBE32 (p : list Z) (off : nat) : Z := zcl_read_u32_be (drop off p).

(** Unsigned 32-bit addition and left shift. *)
#[local] Notation "x '+u' y" := (u32 (x + y)) (at level 50, left associativity).
#[local] Notation "x '<u' n" := (u32 (x << n)) (at level 41, left associativity).
(** [s[i]] *)
#[local] Notation "s '.[' i ]" := (nth i s 0) (at level 1, i at level 200, format "s .[ i ]").

(** ** SHA-256 *)

Definition Ch (x y z : Z) : Z := z .^ (x .& (y .^ z)).
Definition Maj (x y z : Z) : Z := (x .& y) .| (z .& (x .| y)).
Definition Sigma0 (x : Z) : Z := ((x >> 2) .| (x <u 30)) .^ ((x >> 13) .| (x <u 19)) .^ ((x >> 22) .| (x <u 10)).
Definition Sigma1 (x : Z) : Z := ((x >> 6) .| (x <u 26)) .^ ((x >> 11) .| (x <u 21)) .^ ((x >> 25) .| (x <u 7)).
Definition sigma0 (x : Z) : Z := ((x >> 7) .| (x <u 25)) .^ ((x >> 18) .| (x <u 14)) .^ (x >> 3).
Definition sigma1 (x : Z) : Z := ((x >> 17) .| (x <u 15)) .^ ((x >> 19) .| (x <u 13)) .^ (x >> 10).

(** [Round] returns the two words it writes: [*d] and [*h]. *)
Definition Round (a b c d e f g h k w : Z) : Z * Z :=
  let t1 := h +u Sigma1 e +u Ch e f g +u k +u w in
  let t2 := Sigma0 a +u Maj a b c in
  (d +u t1, t1 +u t2).

Definition sha256_transform_portable (s chunk : list Z) : list Z :=
  dlet a := s.[0] in dlet b := s.[1] in dlet c := s.[2] in dlet d := s.[3] in
  dlet e := s.[4] in dlet f := s.[5] in dlet g := s.[6] in dlet h := s.[7] in
  dlet w0 := ReadBE32 chunk 0 in let '(d, h) := Round a b c d e f g h 0x428a2f98 w0 in
  dlet w1 := ReadBE32 chunk 4 in let '(c, g) := Round h a b c d e f g 0x71374491 w1 in
  dlet w2 := ReadBE32 chunk 8 in let '(b, f) := Round g h a b c d e f 0xb5c0fbcf w2 in
  dlet w3 := ReadBE32 chunk 12 in let '(a, e) := Round f g h a b c d e 0xe9b5dba5 w3 in
  dlet w4 := ReadBE32 chunk 16 in let '(h, d) := Round e f g h a b c d 0x3956c25b w4 in
  dlet w5 := ReadBE32 chunk 20 in let '(g, c) := Round d e f g h a b c 0x59f111f1 w5 in
  dlet w6 := ReadBE32 chunk 24 in let '(f, b) := Round c d e f g h a b 0x923f82a4 w6 in
  dlet w7 := ReadBE32 chunk 28 in let '(e, a) := Round b c d e f g h a 0xab1c5ed5 w7 in
  dlet w8 := ReadBE32 chunk 32 in let '(d, h) := Round a b c d e f g h 0xd807aa98 w8 in
  dlet w9 := ReadBE32 chunk 36 in let '(c, g) := Round h a b c d e f g 0x12835b01 w9 in
  dlet w10 := ReadBE32 chunk 40 in let '(b, f) := Round g h a b c d e f 0x243185be w10 in
  dlet w11 := ReadBE32 chunk 44 in let '(a, e) := Round f g h a b c d e 0x550c7dc3 w11 in
  dlet w12 := ReadBE32 chunk 48 in let '(h, d) := Round e f g h a b c d 0x72be5d74 w12 in
  dlet w13 := ReadBE32 chunk 52 in let '(g, c) := Round d e f g h a b c 0x80deb1fe w13 in
  dlet w14 := ReadBE32 chunk 56 in let '(f, b) := Round c d e f g h a b 0x9bdc06a7 w14 in
  dlet w15 := ReadBE32 chunk 60 in let '(e, a) := Round b c d e f g h a 0xc19bf174 w15 in
  dlet w0 := w0 +u (sigma1 w14 +u w9 +u sigma0 w1) in let '(d, h) := Round a b c d e f g h 0xe49b69c1 w0 in
  dlet w1 := w1 +u (sigma1 w15 +u w10 +u sigma0 w2) in let '(c, g) := Round h a b c d e f g 0xefbe4786 w1 in
  dlet w2 := w2 +u (sigma1 w0 +u w11 +u sigma0 w3) in let '(b, f) := Round g h a b c d e f 0x0fc19dc6 w2 in
  dlet w3 := w3 +u (sigma1 w1 +u w12 +u sigma0 w4) in let '(a, e) := Round f g h a b c d e 0x240ca1cc w3 in
  dlet w4 := w4 +u (sigma1 w2 +u w13 +u sigma0 w5) in let '(h, d) := Round e f g h a b c d 0x2de92c6f w4 in
  dlet w5 := w5 +u (sigma1 w3 +u w14 +u sigma0 w6) in let '(g, c) := Round d e f g h a b c 0x4a7484aa w5 in
  dlet w6 := w6 +u (sigma1 w4 +u w15 +u sigma0 w7) in let '(f, b) := Round c d e f g h a b 0x5cb0a9dc w6 in
  dlet w7 := w7 +u (sigma1 w5 +u w0 +u sigma0 w8) in let '(e, a) := Round b c d e f g h a 0x76f988da w7 in
  dlet w8 := w8 +u (sigma1 w6 +u w1 +u sigma0 w9) in let '(d, h) := Round a b c d e f g h 0x983e5152 w8 in
  dlet w9 := w9 +u (sigma1 w7 +u w2 +u sigma0 w10) in let '(c, g) := Round h a b c d e f g 0xa831c66d w9 in
  dlet w10 := w10 +u (sigma1 w8 +u w3 +u sigma0 w11) in let '(b, f) := Round g h a b c d e f 0xb00327c8 w10 in
  dlet w11 := w11 +u (sigma1 w9 +u w4 +u sigma0 w12) in let '(a, e) := Round f g h a b c d e 0xbf597fc7 w11 in
  dlet w12 := w12 +u (sigma1 w10 +u w5 +u sigma0 w13) in let '(h, d) := Round e f g h a b c d 0xc6e00bf3 w12 in
  dlet w13 := w13 +u (sigma1 w11 +u w6 +u sigma0 w14) in let '(g, c) := Round d e f g h a b c 0xd5a79147 w13 in
  dlet w14 := w14 +u (sigma1 w12 +u w7 +u sigma0 w15) in let '(f, b) := Round c d e f g h a b 0x06ca6351 w14 in
  dlet w15 := w15 +u (sigma1 w13 +u w8 +u sigma0 w0) in let '(e, a) := Round b c d e f g h a 0x14292967 w15 in
  dlet w0 := w0 +u (sigma1 w14 +u w9 +u sigma0 w1) in let '(d, h) := Round a b c d e f g h 0x27b70a85 w0 in
  dlet w1 := w1 +u (sigma1 w15 +u w10 +u sigma0 w2) in let '(c, g) := Round h a b c d e f g 0x2e1b2138 w1 in
  dlet w2 := w2 +u (sigma1 w0 +u w11 +u sigma0 w3) in let '(b, f) := Round g h a b c d e f 0x4d2c6dfc w2 in
  dlet w3 := w3 +u (sigma1 w1 +u w12 +u sigma0 w4) in let '(a, e) := Round f g h a b c d e 0x53380d13 w3 in
  dlet w4 := w4 +u (sigma1 w2 +u w13 +u sigma0 w5) in let '(h, d) := Round e f g h a b c d 0x650a7354 w4 in
  dlet w5 := w5 +u (sigma1 w3 +u w14 +u sigma0 w6) in let '(g, c) := Round d e f g h a b c 0x766a0abb w5 in
  dlet w6 := w6 +u (sigma1 w4 +u w15 +u sigma0 w7) in let '(f, b) := Round c d e f g h a b 0x81c2c92e w6 in
  dlet w7 := w7 +u (sigma1 w5 +u w0 +u sigma0 w8) in let '(e, a) := Round b c d e f g h a 0x92722c85 w7 in
  dlet w8 := w8 +u (sigma1 w6 +u w1 +u sigma0 w9) in let '(d, h) := Round a b c d e f g h 0xa2bfe8a1 w8 in
  dlet w9 := w9 +u (sigma1 w7 +u w2 +u sigma0 w10) in let '(c, g) := Round h a b c d e f g 0xa81a664b w9 in
  dlet w10 := w10 +u (sigma1 w8 +u w3 +u sigma0 w11) in let '(b, f) := Round g h a b c d e f 0xc24b8b70 w10 in
  dlet w11 := w11 +u (sigma1 w9 +u w4 +u sigma0 w12) in let '(a, e) := Round f g h a b c d e 0xc76c51a3 w11 in
  dlet w12 := w12 +u (sigma1 w10 +u w5 +u sigma0 w13) in let '(h, d) := Round e f g h a b c d 0xd192e819 w12 in
  dlet w13 := w13 +u (sigma1 w11 +u w6 +u sigma0 w14) in let '(g, c) := Round d e f g h a b c 0xd6990624 w13 in
  dlet w14 := w14 +u (sigma1 w12 +u w7 +u sigma0 w15) in let '(f, b) := Round c d e f g h a b 0xf40e3585 w14 in
  dlet w15 := w15 +u (sigma1 w13 +u w8 +u sigma0 w0) in let '(e, a) := Round b c d e f g h a 0x106aa070 w15 in
  dlet w0 := w0 +u (sigma1 w14 +u w9 +u sigma0 w1) in let '(d, h) := Round a b c d e f g h 0x19a4c116 w0 in
  dlet w1 := w1 +u (sigma1 w15 +u w10 +u sigma0 w2) in let '(c, g) := Round h a b c d e f g 0x1e376c08 w1 in
  dlet w2 := w2 +u (sigma1 w0 +u w11 +u sigma0 w3) in let '(b, f) := Round g h a b c d e f 0x2748774c w2 in
  dlet w3 := w3 +u (sigma1 w1 +u w12 +u sigma0 w4) in let '(a, e) := Round f g h a b c d e 0x34b0bcb5 w3 in
  dlet w4 := w4 +u (sigma1 w2 +u w13 +u sigma0 w5) in let '(h, d) := Round e f g h a b c d 0x391c0cb3 w4 in
  dlet w5 := w5 +u (sigma1 w3 +u w14 +u sigma0 w6) in let '(g, c) := Round d e f g h a b c 0x4ed8aa4a w5 in
  dlet w6 := w6 +u (sigma1 w4 +u w15 +u sigma0 w7) in let '(f, b) := Round c d e f g h a b 0x5b9cca4f w6 in
  dlet w7 := w7 +u (sigma1 w5 +u w0 +u sigma0 w8) in let '(e, a) := Round b c d e f g h a 0x682e6ff3 w7 in
  dlet w8 := w8 +u (sigma1 w6 +u w1 +u sigma0 w9) in let '(d, h) := Round a b c d e f g h 0x748f82ee w8 in
  dlet w9 := w9 +u (sigma1 w7 +u w2 +u sigma0 w10) in let '(c, g) := Round h a b c d e f g 0x78a5636f w9 in
  dlet w10 := w10 +u (sigma1 w8 +u w3 +u sigma0 w11) in let '(b, f) := Round g h a b c d e f 0x84c87814 w10 in
  dlet w11 := w11 +u (sigma1 w9 +u w4 +u sigma0 w12) in let '(a, e) := Round f g h a b c d e 0x8cc70208 w11 in
  dlet w12 := w12 +u (sigma1 w10 +u w5 +u sigma0 w13) in let '(h, d) := Round e f g h a b c d 0x90befffa w12 in
  dlet w13 := w13 +u (sigma1 w11 +u w6 +u sigma0 w14) in let '(g, c) := Round d e f g h a b c 0xa4506ceb w13 in
  dlet w14 := w14 +u (sigma1 w12 +u w7 +u sigma0 w15) in let '(f, b) := Round c d e f g h a b 0xbef9a3f7 w14 in
  dlet w15 := w15 +u (sigma1 w13 +u w8 +u sigma0 w0) in let '(e, a) := Round b c d e f g h a 0xc67178f2 w15 in
  [s.[0] +u a; s.[1] +u b; s.[2] +u c; s.[3] +u d; s.[4] +u e; s.[5] +u f; s.[6] +u g; s.[7] +u h].

(** ** SHA-1 *)

Definition sha1_round (a b e f k w : Z) : Z * Z :=
  ((b <u 30) .| (b >> 2), e +u (((a <u 5) .| (a >> 27)) +u f +u k +u w)).

Definition f1 (b c d : Z) : Z := d .^ (b .& (c .^ d)).
Definition f2 (b c d : Z) : Z := b .^ c .^ d.
Definition f3 (b c d : Z) : Z := (b .& c) .| (d .& (b .| c)).
Definition left (x : Z) : Z := (x <u 1) .| (x >> 31).
Definition k1 : Z := 0x5A827999.
Definition k2 : Z := 0x6ED9EBA1.
Definition k3 : Z := 0x8F1BBCDC.
Definition k4 : Z := 0xCA62C1D6.

Definition sha1_transform (s chunk : list Z) : list Z :=
  dlet a := s.[0] in dlet b := s.[1] in dlet c := s.[2] in dlet d := s.[3] in dlet e := s.[4] in
  dlet w0 := ReadBE32 chunk 0 in let '(b, e) := sha1_round a b e (f1 b c d) k1 w0 in
  dlet w1 := ReadBE32 chunk 4 in let '(a, d) := sha1_round e a d (f1 a b c) k1 w1 in
  dlet w2 := ReadBE32 chunk 8 in let '(e, c) := sha1_round d e c (f1 e a b) k1 w2 in
  dlet w3 := ReadBE32 chunk 12 in let '(d, b) := sha1_round c d b (f1 d e a) k1 w3 in
  dlet w4 := ReadBE32 chunk 16 in let '(c, a) := sha1_round b c a (f1 c d e) k1 w4 in
  dlet w5 := ReadBE32 chunk 20 in let '(b, e) := sha1_round a b e (f1 b c d) k1 w5 in
  dlet w6 := ReadBE32 chunk 24 in let '(a, d) := sha1_round e a d (f1 a b c) k1 w6 in
  dlet w7 := ReadBE32 chunk 28 in let '(e, c) := sha1_round d e c (f1 e a b) k1 w7 in
  dlet w8 := ReadBE32 chunk 32 in let '(d, b) := sha1_round c d b (f1 d e a) k1 w8 in
  dlet w9 := ReadBE32 chunk 36 in let '(c, a) := sha1_round b c a (f1 c d e) k1 w9 in
  dlet w10 := ReadBE32 chunk 40 in let '(b, e) := sha1_round a b e (f1 b c d) k1 w10 in
  dlet w11 := ReadBE32 chunk 44 in let '(a, d) := sha1_round e a d (f1 a b c) k1 w11 in
  dlet w12 := ReadBE32 chunk 48 in let '(e, c) := sha1_round d e c (f1 e a b) k1 w12 in
  dlet w13 := ReadBE32 chunk 52 in let '(d, b) := sha1_round c d b (f1 d e a) k1 w13 in
  dlet w14 := ReadBE32 chunk 56 in let '(c, a) := sha1_round b c a (f1 c d e) k1 w14 in
  dlet w15 := ReadBE32 chunk 60 in let '(b, e) := sha1_round a b e (f1 b c d) k1 w15 in
  dlet w0 := left (w0 .^ w13 .^ w8 .^ w2) in let '(a, d) := sha1_round e a d (f1 a b c) k1 w0 in
  dlet w1 := left (w1 .^ w14 .^ w9 .^ w3) in let '(e, c) := sha1_round d e c (f1 e a b) k1 w1 in
  dlet w2 := left (w2 .^ w15 .^ w10 .^ w4) in let '(d, b) := sha1_round c d b (f1 d e a) k1 w2 in
  dlet w3 := left (w3 .^ w0 .^ w11 .^ w5) in let '(c, a) := sha1_round b c a (f1 c d e) k1 w3 in
  dlet w4 := left (w4 .^ w1 .^ w12 .^ w6) in let '(b, e) := sha1_round a b e (f2 b c d) k2 w4 in
  dlet w5 := left (w5 .^ w2 .^ w13 .^ w7) in let '(a, d) := sha1_round e a d (f2 a b c) k2 w5 in
  dlet w6 := left (w6 .^ w3 .^ w14 .^ w8) in let '(e, c) := sha1_round d e c (f2 e a b) k2 w6 in
  dlet w7 := left (w7 .^ w4 .^ w15 .^ w9) in let '(d, b) := sha1_round c d b (f2 d e a) k2 w7 in
  dlet w8 := left (w8 .^ w5 .^ w0 .^ w10) in let '(c, a) := sha1_round b c a (f2 c d e) k2 w8 in
  dlet w9 := left (w9 .^ w6 .^ w1 .^ w11) in let '(b, e) := sha1_round a b e (f2 b c d) k2 w9 in
  dlet w10 := left (w10 .^ w7 .^ w2 .^ w12) in let '(a, d) := sha1_round e a d (f2 a b c) k2 w10 in
  dlet w11 := left (w11 .^ w8 .^ w3 .^ w13) in let '(e, c) := sha1_round d e c (f2 e a b) k2 w11 in
  dlet w12 := left (w12 .^ w9 .^ w4 .^ w14) in let '(d, b) := sha1_round c d b (f2 d e a) k2 w12 in
  dlet w13 := left (w13 .^ w10 .^ w5 .^ w15) in let '(c, a) := sha1_round b c a (f2 c d e) k2 w13 in
  dlet w14 := left (w14 .^ w11 .^ w6 .^ w0) in let '(b, e) := sha1_round a b e (f2 b c d) k2 w14 in
  dlet w15 := left (w15 .^ w12 .^ w7 .^ w1) in let '(a, d) := sha1_round e a d (f2 a b c) k2 w15 in
  dlet w0 := left (w0 .^ w13 .^ w8 .^ w2) in let '(e, c) := sha1_round d e c (f2 e a b) k2 w0 in
  dlet w1 := left (w1 .^ w14 .^ w9 .^ w3) in let '(d, b) := sha1_round c d b (f2 d e a) k2 w1 in
  dlet w2 := left (w2 .^ w15 .^ w10 .^ w4) in let '(c, a) := sha1_round b c a (f2 c d e) k2 w2 in
  dlet w3 := left (w3 .^ w0 .^ w11 .^ w5) in let '(b, e) := sha1_round a b e (f2 b c d) k2 w3 in
  dlet w4 := left (w4 .^ w1 .^ w12 .^ w6) in let '(a, d) := sha1_round e a d (f2 a b c) k2 w4 in
  dlet w5 := left (w5 .^ w2 .^ w13 .^ w7) in let '(e, c) := sha1_round d e c (f2 e a b) k2 w5 in
  dlet w6 := left (w6 .^ w3 .^ w14 .^ w8) in let '(d, b) := sha1_round c d b (f2 d e a) k2 w6 in
  dlet w7 := left (w7 .^ w4 .^ w15 .^ w9) in let '(c, a) := sha1_round b c a (f2 c d e) k2 w7 in
  dlet w8 := left (w8 .^ w5 .^ w0 .^ w10) in let '(b, e) := sha1_round a b e (f3 b c d) k3 w8 in
  dlet w9 := left (w9 .^ w6 .^ w1 .^ w11) in let '(a, d) := sha1_round e a d (f3 a b c) k3 w9 in
  dlet w10 := left (w10 .^ w7 .^ w2 .^ w12) in let '(e, c) := sha1_round d e c (f3 e a b) k3 w10 in
  dlet w11 := left (w11 .^ w8 .^ w3 .^ w13) in let '(d, b) := sha1_round c d b (f3 d e a) k3 w11 in
  dlet w12 := left (w12 .^ w9 .^ w4 .^ w14) in let '(c, a) := sha1_round b c a (f3 c d e) k3 w12 in
  dlet w13 := left (w13 .^ w10 .^ w5 .^ w15) in let '(b, e) := sha1_round a b e (f3 b c d) k3 w13 in
  dlet w14 := left (w14 .^ w11 .^ w6 .^ w0) in let '(a, d) := sha1_round e a d (f3 a b c) k3 w14 in
  dlet w15 := left (w15 .^ w12 .^ w7 .^ w1) in let '(e, c) := sha1_round d e c (f3 e a b) k3 w15 in
  dlet w0 := left (w0 .^ w13 .^ w8 .^ w2) in let '(d, b) := sha1_round c d b (f3 d e a) k3 w0 in
  dlet w1 := left (w1 .^ w14 .^ w9 .^ w3) in let '(c, a) := sha1_round b c a (f3 c d e) k3 w1 in
  dlet w2 := left (w2 .^ w15 .^ w10 .^ w4) in let '(b, e) := sha1_round a b e (f3 b c d) k3 w2 in
  dlet w3 := left (w3 .^ w0 .^ w11 .^ w5) in let '(a, d) := sha1_round e a d (f3 a b c) k3 w3 in
  dlet w4 := left (w4 .^ w1 .^ w12 .^ w6) in let '(e, c) := sha1_round d e c (f3 e a b) k3 w4 in
  dlet w5 := left (w5 .^ w2 .^ w13 .^ w7) in let '(d, b) := sha1_round c d b (f3 d e a) k3 w5 in
  dlet w6 := left (w6 .^ w3 .^ w14 .^ w8) in let '(c, a) := sha1_round b c a (f3 c d e) k3 w6 in
  dlet w7 := left (w7 .^ w4 .^ w15 .^ w9) in let '(b, e) := sha1_round a b e (f3 b c d) k3 w7 in
  dlet w8 := left (w8 .^ w5 .^ w0 .^ w10) in let '(a, d) := sha1_round e a d (f3 a b c) k3 w8 in
  dlet w9 := left (w9 .^ w6 .^ w1 .^ w11) in let '(e, c) := sha1_round d e c (f3 e a b) k3 w9 in
  dlet w10 := left (w10 .^ w7 .^ w2 .^ w12) in let '(d, b) := sha1_round c d b (f3 d e a) k3 w10 in
  dlet w11 := left (w11 .^ w8 .^ w3 .^ w13) in let '(c, a) := sha1_round b c a (f3 c d e) k3 w11 in
  dlet w12 := left (w12 .^ w9 .^ w4 .^ w14) in let '(b, e) := sha1_round a b e (f2 b c d) k4 w12 in
  dlet w13 := left (w13 .^ w10 .^ w5 .^ w15) in let '(a, d) := sha1_round e a d (f2 a b c) k4 w13 in
  dlet w14 := left (w14 .^ w11 .^ w6 .^ w0) in let '(e, c) := sha1_round d e c (f2 e a b) k4 w14 in
  dlet w15 := left (w15 .^ w12 .^ w7 .^ w1) in let '(d, b) := sha1_round c d b (f2 d e a) k4 w15 in
  dlet w0 := left (w0 .^ w13 .^ w8 .^ w2) in let '(c, a) := sha1_round b c a (f2 c d e) k4 w0 in
  dlet w1 := left (w1 .^ w14 .^ w9 .^ w3) in let '(b, e) := sha1_round a b e (f2 b c d) k4 w1 in
  dlet w2 := left (w2 .^ w15 .^ w10 .^ w4) in let '(a, d) := sha1_round e a d (f2 a b c) k4 w2 in
  dlet w3 := left (w3 .^ w0 .^ w11 .^ w5) in let '(e, c) := sha1_round d e c (f2 e a b) k4 w3 in
  dlet w4 := left (w4 .^ w1 .^ w12 .^ w6) in let '(d, b) := sha1_round c d b (f2 d e a) k4 w4 in
  dlet w5 := left (w5 .^ w2 .^ w13 .^ w7) in let '(c, a) := sha1_round b c a (f2 c d e) k4 w5 in
  dlet w6 := left (w6 .^ w3 .^ w14 .^ w8) in let '(b, e) := sha1_round a b e (f2 b c d) k4 w6 in
  dlet w7 := left (w7 .^ w4 .^ w15 .^ w9) in let '(a, d) := sha1_round e a d (f2 a b c) k4 w7 in
  dlet w8 := left (w8 .^ w5 .^ w0 .^ w10) in let '(e, c) := sha1_round d e c (f2 e a b) k4 w8 in
  dlet w9 := left (w9 .^ w6 .^ w1 .^ w11) in let '(d, b) := sha1_round c d b (f2 d e a) k4 w9 in
  dlet w10 := left (w10 .^ w7 .^ w2 .^ w12) in let '(c, a) := sha1_round b c a (f2 c d e) k4 w10 in
  dlet w11 := left (w11 .^ w8 .^ w3 .^ w13) in let '(b, e) := sha1_round a b e (f2 b c d) k4 w11 in
  dlet w12 := left (w12 .^ w9 .^ w4 .^ w14) in let '(a, d) := sha1_round e a d (f2 a b c) k4 w12 in
  dlet w13 := left (w13 .^ w10 .^ w5 .^ w15) in let '(e, c) := sha1_round d e c (f2 e a b) k4 w13 in
  dlet w14 := left (w14 .^ w11 .^ w6 .^ w0) in let '(d, b) := sha1_round c d b (f2 d e a) k4 w14 in
  dlet w15 := left (w15 .^ w12 .^ w7 .^ w1) in let '(c, a) := sha1_round b c a (f2 c d e) k4 w15 in
  [s.[0] +u a; s.[1] +u b; s.[2] +u c; s.[3] +u d; s.[4] +u e].

(** ** RIPEMD-160 *)

(** [~x] on [uint32_t] *)
Definition not32 (x : Z) : Z := u32 (Z.lnot x).
Definition rmd_f1 (x y z : Z) : Z := x .^ y .^ z.
Definition rmd_f2 (x y z : Z) : Z := (x .& y) .| (not32 x .& z).
Definition rmd_f3 (x y z : Z) : Z := (x .| not32 y) .^ z.
Definition rmd_f4 (x y z : Z) : Z := (x .& z) .| (y .& not32 z).
Definition rmd_f5 (x y z : Z) : Z := x .^ (y .| not32 z).
Definition rol (x i : Z) : Z := (x <u i) .| (x >> (32 - i)).

(** [rmd_round] returns the two words it writes: [*a] and [*c]. *)
Definition rmd_round (a c e f x k r : Z) : Z * Z := (rol (a +u f +u x +u k) r +u e, rol c 10).

Definition R11 (a b c d e x r : Z) : Z * Z := rmd_round a c e (rmd_f1 b c d) x 0 r.
Definition R21 (a b c d e x r : Z) : Z * Z := rmd_round a c e (rmd_f2 b c d) x 0x5A827999 r.
Definition R31 (a b c d e x r : Z) : Z * Z := rmd_round a c e (rmd_f3 b c d) x 0x6ED9EBA1 r.
Definition R41 (a b c d e x r : Z) : Z * Z := rmd_round a c e (rmd_f4 b c d) x 0x8F1BBCDC r.
Definition R51 (a b c d e x r : Z) : Z * Z := rmd_round a c e (rmd_f5 b c d) x 0xA953FD4E r.
Definition R12 (a b c d e x r : Z) : Z * Z := rmd_round a c e (rmd_f5 b c d) x 0x50A28BE6 r.
Definition R22 (a b c d e x r : Z) : Z * Z := rmd_round a c e (rmd_f4 b c d) x 0x5C4DD124 r.
Definition R32 (a b c d e x r : Z) : Z * Z := rmd_round a c e (rmd_f3 b c d) x 0x6D703EF3 r.
Definition R42 (a b c d e x r : Z) : Z * Z := rmd_round a c e (rmd_f2 b c d) x 0x7A6D76E9 r.
Definition R52 (a b c d e x r : Z) : Z * Z := rmd_round a c e (rmd_f1 b c d) x 0 r.

Definition ripemd160_transform (s chunk : list Z) : list Z :=
  dlet a1 := s.[0] in dlet b1 := s.[1] in dlet c1 := s.[2] in dlet d1 := s.[3] in dlet e1 := s.[4] in
  dlet a2 := a1 in dlet b2 := b1 in dlet c2 := c1 in dlet d2 := d1 in dlet e2 := e1 in
  dlet w0 := ReadLE32 chunk 0 in dlet w1 := ReadLE32 chunk 4 in dlet w2 := ReadLE32 chunk 8 in dlet w3 := ReadLE32 chunk 12 in
  dlet w4 := ReadLE32 chunk 16 in dlet w5 := ReadLE32 chunk 20 in dlet w6 := ReadLE32 chunk 24 in dlet w7 := ReadLE32 chunk 28 in
  dlet w8 := ReadLE32 chunk 32 in dlet w9 := ReadLE32 chunk 36 in dlet w10 := ReadLE32 chunk 40 in dlet w11 := ReadLE32 chunk 44 in
  dlet w12 := ReadLE32 chunk 48 in dlet w13 := ReadLE32 chunk 52 in dlet w14 := ReadLE32 chunk 56 in dlet w15 := ReadLE32 chunk 60 in
  let '(a1, c1) := R11 a1 b1 c1 d1 e1 w0 11 in let '(a2, c2) := R12 a2 b2 c2 d2 e2 w5 8 in
  let '(e1, b1) := R11 e1 a1 b1 c1 d1 w1 14 in let '(e2, b2) := R12 e2 a2 b2 c2 d2 w14 9 in
  let '(d1, a1) := R11 d1 e1 a1 b1 c1 w2 15 in let '(d2, a2) := R12 d2 e2 a2 b2 c2 w7 9 in
  let '(c1, e1) := R11 c1 d1 e1 a1 b1 w3 12 in let '(c2, e2) := R12 c2 d2 e2 a2 b2 w0 11 in
  let '(b1, d1) := R11 b1 c1 d1 e1 a1 w4 5 in let '(b2, d2) := R12 b2 c2 d2 e2 a2 w9 13 in
  let '(a1, c1) := R11 a1 b1 c1 d1 e1 w5 8 in let '(a2, c2) := R12 a2 b2 c2 d2 e2 w2 15 in
  let '(e1, b1) := R11 e1 a1 b1 c1 d1 w6 7 in let '(e2, b2) := R12 e2 a2 b2 c2 d2 w11 15 in
  let '(d1, a1) := R11 d1 e1 a1 b1 c1 w7 9 in let '(d2, a2) := R12 d2 e2 a2 b2 c2 w4 5 in
  let '(c1, e1) := R11 c1 d1 e1 a1 b1 w8 11 in let '(c2, e2) := R12 c2 d2 e2 a2 b2 w13 7 in
  let '(b1, d1) := R11 b1 c1 d1 e1 a1 w9 13 in let '(b2, d2) := R12 b2 c2 d2 e2 a2 w6 7 in
  let '(a1, c1) := R11 a1 b1 c1 d1 e1 w10 14 in let '(a2, c2) := R12 a2 b2 c2 d2 e2 w15 8 in
  let '(e1, b1) := R11 e1 a1 b1 c1 d1 w11 15 in let '(e2, b2) := R12 e2 a2 b2 c2 d2 w8 11 in
  let '(d1, a1) := R11 d1 e1 a1 b1 c1 w12 6 in let '(d2, a2) := R12 d2 e2 a2 b2 c2 w1 14 in
  let '(c1, e1) := R11 c1 d1 e1 a1 b1 w13 7 in let '(c2, e2) := R12 c2 d2 e2 a2 b2 w10 14 in
  let '(b1, d1) := R11 b1 c1 d1 e1 a1 w14 9 in let '(b2, d2) := R12 b2 c2 d2 e2 a2 w3 12 in
  let '(a1, c1) := R11 a1 b1 c1 d1 e1 w15 8 in let '(a2, c2) := R12 a2 b2 c2 d2 e2 w12 6 in
  let '(e1, b1) := R21 e1 a1 b1 c1 d1 w7 7 in let '(e2, b2) := R22 e2 a2 b2 c2 d2 w6 9 in
  let '(d1, a1) := R21 d1 e1 a1 b1 c1 w4 6 in let '(d2, a2) := R22 d2 e2 a2 b2 c2 w11 13 in
  let '(c1, e1) := R21 c1 d1 e1 a1 b1 w13 8 in let '(c2, e2) := R22 c2 d2 e2 a2 b2 w3 15 in
  let '(b1, d1) := R21 b1 c1 d1 e1 a1 w1 13 in let '(b2, d2) := R22 b2 c2 d2 e2 a2 w7 7 in
  let '(a1, c1) := R21 a1 b1 c1 d1 e1 w10 11 in let '(a2, c2) := R22 a2 b2 c2 d2 e2 w0 12 in
  let '(e1, b1) := R21 e1 a1 b1 c1 d1 w6 9 in let '(e2, b2) := R22 e2 a2 b2 c2 d2 w13 8 in
  let '(d1, a1) := R21 d1 e1 a1 b1 c1 w15 7 in let '(d2, a2) := R22 d2 e2 a2 b2 c2 w5 9 in
  let '(c1, e1) := R21 c1 d1 e1 a1 b1 w3 15 in let '(c2, e2) := R22 c2 d2 e2 a2 b2 w10 11 in
  let '(b1, d1) := R21 b1 c1 d1 e1 a1 w12 7 in let '(b2, d2) := R22 b2 c2 d2 e2 a2 w14 7 in
  let '(a1, c1) := R21 a1 b1 c1 d1 e1 w0 12 in let '(a2, c2) := R22 a2 b2 c2 d2 e2 w15 7 in
  let '(e1, b1) := R21 e1 a1 b1 c1 d1 w9 15 in let '(e2, b2) := R22 e2 a2 b2 c2 d2 w8 12 in
  let '(d1, a1) := R21 d1 e1 a1 b1 c1 w5 9 in let '(d2, a2) := R22 d2 e2 a2 b2 c2 w12 7 in
  let '(c1, e1) := R21 c1 d1 e1 a1 b1 w2 11 in let '(c2, e2) := R22 c2 d2 e2 a2 b2 w4 6 in
  let '(b1, d1) := R21 b1 c1 d1 e1 a1 w14 7 in let '(b2, d2) := R22 b2 c2 d2 e2 a2 w9 15 in
  let '(a1, c1) := R21 a1 b1 c1 d1 e1 w11 13 in let '(a2, c2) := R22 a2 b2 c2 d2 e2 w1 13 in
  let '(e1, b1) := R21 e1 a1 b1 c1 d1 w8 12 in let '(e2, b2) := R22 e2 a2 b2 c2 d2 w2 11 in
  let '(d1, a1) := R31 d1 e1 a1 b1 c1 w3 11 in let '(d2, a2) := R32 d2 e2 a2 b2 c2 w15 9 in
  let '(c1, e1) := R31 c1 d1 e1 a1 b1 w10 13 in let '(c2, e2) := R32 c2 d2 e2 a2 b2 w5 7 in
  let '(b1, d1) := R31 b1 c1 d1 e1 a1 w14 6 in let '(b2, d2) := R32 b2 c2 d2 e2 a2 w1 15 in
  let '(a1, c1) := R31 a1 b1 c1 d1 e1 w4 7 in let '(a2, c2) := R32 a2 b2 c2 d2 e2 w3 11 in
  let '(e1, b1) := R31 e1 a1 b1 c1 d1 w9 14 in let '(e2, b2) := R32 e2 a2 b2 c2 d2 w7 8 in
  let '(d1, a1) := R31 d1 e1 a1 b1 c1 w15 9 in let '(d2, a2) := R32 d2 e2 a2 b2 c2 w14 6 in
  let '(c1, e1) := R31 c1 d1 e1 a1 b1 w8 13 in let '(c2, e2) := R32 c2 d2 e2 a2 b2 w6 6 in
  let '(b1, d1) := R31 b1 c1 d1 e1 a1 w1 15 in let '(b2, d2) := R32 b2 c2 d2 e2 a2 w9 14 in
  let '(a1, c1) := R31 a1 b1 c1 d1 e1 w2 14 in let '(a2, c2) := R32 a2 b2 c2 d2 e2 w11 12 in
  let '(e1, b1) := R31 e1 a1 b1 c1 d1 w7 8 in let '(e2, b2) := R32 e2 a2 b2 c2 d2 w8 13 in
  let '(d1, a1) := R31 d1 e1 a1 b1 c1 w0 13 in let '(d2, a2) := R32 d2 e2 a2 b2 c2 w12 5 in
  let '(c1, e1) := R31 c1 d1 e1 a1 b1 w6 6 in let '(c2, e2) := R32 c2 d2 e2 a2 b2 w2 14 in
  let '(b1, d1) := R31 b1 c1 d1 e1 a1 w13 5 in let '(b2, d2) := R32 b2 c2 d2 e2 a2 w10 13 in
  let '(a1, c1) := R31 a1 b1 c1 d1 e1 w11 12 in let '(a2, c2) := R32 a2 b2 c2 d2 e2 w0 13 in
  let '(e1, b1) := R31 e1 a1 b1 c1 d1 w5 7 in let '(e2, b2) := R32 e2 a2 b2 c2 d2 w4 7 in
  let '(d1, a1) := R31 d1 e1 a1 b1 c1 w12 5 in let '(d2, a2) := R32 d2 e2 a2 b2 c2 w13 5 in
  let '(c1, e1) := R41 c1 d1 e1 a1 b1 w1 11 in let '(c2, e2) := R42 c2 d2 e2 a2 b2 w8 15 in
  let '(b1, d1) := R41 b1 c1 d1 e1 a1 w9 12 in let '(b2, d2) := R42 b2 c2 d2 e2 a2 w6 5 in
  let '(a1, c1) := R41 a1 b1 c1 d1 e1 w11 14 in let '(a2, c2) := R42 a2 b2 c2 d2 e2 w4 8 in
  let '(e1, b1) := R41 e1 a1 b1 c1 d1 w10 15 in let '(e2, b2) := R42 e2 a2 b2 c2 d2 w1 11 in
  let '(d1, a1) := R41 d1 e1 a1 b1 c1 w0 14 in let '(d2, a2) := R42 d2 e2 a2 b2 c2 w3 14 in
  let '(c1, e1) := R41 c1 d1 e1 a1 b1 w8 15 in let '(c2, e2) := R42 c2 d2 e2 a2 b2 w11 14 in
  let '(b1, d1) := R41 b1 c1 d1 e1 a1 w12 9 in let '(b2, d2) := R42 b2 c2 d2 e2 a2 w15 6 in
  let '(a1, c1) := R41 a1 b1 c1 d1 e1 w4 8 in let '(a2, c2) := R42 a2 b2 c2 d2 e2 w0 14 in
  let '(e1, b1) := R41 e1 a1 b1 c1 d1 w13 9 in let '(e2, b2) := R42 e2 a2 b2 c2 d2 w5 6 in
  let '(d1, a1) := R41 d1 e1 a1 b1 c1 w3 14 in let '(d2, a2) := R42 d2 e2 a2 b2 c2 w12 9 in
  let '(c1, e1) := R41 c1 d1 e1 a1 b1 w7 5 in let '(c2, e2) := R42 c2 d2 e2 a2 b2 w2 12 in
  let '(b1, d1) := R41 b1 c1 d1 e1 a1 w15 6 in let '(b2, d2) := R42 b2 c2 d2 e2 a2 w13 9 in
  let '(a1, c1) := R41 a1 b1 c1 d1 e1 w14 8 in let '(a2, c2) := R42 a2 b2 c2 d2 e2 w9 12 in
  let '(e1, b1) := R41 e1 a1 b1 c1 d1 w5 6 in let '(e2, b2) := R42 e2 a2 b2 c2 d2 w7 5 in
  let '(d1, a1) := R41 d1 e1 a1 b1 c1 w6 5 in let '(d2, a2) := R42 d2 e2 a2 b2 c2 w10 15 in
  let '(c1, e1) := R41 c1 d1 e1 a1 b1 w2 12 in let '(c2, e2) := R42 c2 d2 e2 a2 b2 w14 8 in
  let '(b1, d1) := R51 b1 c1 d1 e1 a1 w4 9 in let '(b2, d2) := R52 b2 c2 d2 e2 a2 w12 8 in
  let '(a1, c1) := R51 a1 b1 c1 d1 e1 w0 15 in let '(a2, c2) := R52 a2 b2 c2 d2 e2 w15 5 in
  let '(e1, b1) := R51 e1 a1 b1 c1 d1 w5 5 in let '(e2, b2) := R52 e2 a2 b2 c2 d2 w10 12 in
  let '(d1, a1) := R51 d1 e1 a1 b1 c1 w9 11 in let '(d2, a2) := R52 d2 e2 a2 b2 c2 w4 9 in
  let '(c1, e1) := R51 c1 d1 e1 a1 b1 w7 6 in let '(c2, e2) := R52 c2 d2 e2 a2 b2 w1 12 in
  let '(b1, d1) := R51 b1 c1 d1 e1 a1 w12 8 in let '(b2, d2) := R52 b2 c2 d2 e2 a2 w5 5 in
  let '(a1, c1) := R51 a1 b1 c1 d1 e1 w2 13 in let '(a2, c2) := R52 a2 b2 c2 d2 e2 w8 14 in
  let '(e1, b1) := R51 e1 a1 b1 c1 d1 w10 12 in let '(e2, b2) := R52 e2 a2 b2 c2 d2 w7 6 in
  let '(d1, a1) := R51 d1 e1 a1 b1 c1 w14 5 in let '(d2, a2) := R52 d2 e2 a2 b2 c2 w6 8 in
  let '(c1, e1) := R51 c1 d1 e1 a1 b1 w1 12 in let '(c2, e2) := R52 c2 d2 e2 a2 b2 w2 13 in
  let '(b1, d1) := R51 b1 c1 d1 e1 a1 w3 13 in let '(b2, d2) := R52 b2 c2 d2 e2 a2 w13 6 in
  let '(a1, c1) := R51 a1 b1 c1 d1 e1 w8 14 in let '(a2, c2) := R52 a2 b2 c2 d2 e2 w14 5 in
  let '(e1, b1) := R51 e1 a1 b1 c1 d1 w11 11 in let '(e2, b2) := R52 e2 a2 b2 c2 d2 w0 15 in
  let '(d1, a1) := R51 d1 e1 a1 b1 c1 w6 8 in let '(d2, a2) := R52 d2 e2 a2 b2 c2 w3 13 in
  let '(c1, e1) := R51 c1 d1 e1 a1 b1 w15 5 in let '(c2, e2) := R52 c2 d2 e2 a2 b2 w9 11 in
  let '(b1, d1) := R51 b1 c1 d1 e1 a1 w13 6 in let '(b2, d2) := R52 b2 c2 d2 e2 a2 w11 11 in
  dlet t := s.[0] in
  [s.[1] +u c1 +u d2; s.[2] +u d1 +u e2; s.[3] +u e1 +u a2; s.[4] +u a1 +u b2; t +u b1 +u c2].

(** ** Initialise, write, finalize *)

(** [_init] sets the chaining words and the count; the block buffer keeps
    whatever it held. *)
Definition sha1_iv : list Z := [0x67452301; 0xEFCDAB89; 0x98BADCFE; 0x10325476; 0xC3D2E1F0].
Definition sha256_iv : list Z :=
  [0x6a09e667; 0xbb67ae85; 0x3c6ef372; 0xa54ff53a; 0x510e527f; 0x9b05688c; 0x1f83d9ab; 0x5be0cd19].
Definition sha1_init (ctx : md_ctx) : md_ctx := mk_ctx sha1_iv (ctx_buf ctx) 0.
Definition ripemd160_init (ctx : md_ctx) : md_ctx := mk_ctx sha1_iv (ctx_buf ctx) 0.
Definition sha256_init (ctx : md_ctx) : md_ctx := mk_ctx sha256_iv (ctx_buf ctx) 0.

Definition sha1_write : md_ctx -> list Z -> md_ctx := md_write sha1_transform.
Definition ripemd160_write : md_ctx -> list Z -> md_ctx := md_write ripemd160_transform.
Definition sha256_write (ctx : md_ctx) (data : list Z) : md_ctx :=
  if (length data =? 0)%nat then ctx else md_write sha256_transform_portable ctx data.

(** [WriteBE32(hash + 4*i, s[i])] for every word of the digest. *)
Definition emit_be (n : nat) (s : list Z) : list Z :=
  concat (map (fun i => zcl_write_u32_be (nth i s 0)) (seq 0 n)).
Definition emit_le (n : nat) (s : list Z) : list Z :=
  concat (map (fun i => zcl_write_u32_le (nth i s 0)) (seq 0 n)).

Definition sha1_finalize (ctx : md_ctx) : list Z :=
  let sizedesc := zcl_write_u64_be (u64 (ctx_bytes ctx << 3)) in
  let ctx1 := sha1_write ctx (md_pad ctx) in
  let ctx2 := sha1_write ctx1 sizedesc in
  emit_be 5 (ctx_s ctx2).

Definition ripemd160_finalize (ctx : md_ctx) : list Z :=
  let sizedesc := zcl_write_u64_le (u64 (ctx_bytes ctx << 3)) in
  let ctx1 := ripemd160_write ctx (md_pad ctx) in
  let ctx2 := ripemd160_write ctx1 sizedesc in
  emit_le 5 (ctx_s ctx2).

(** [None] is the logged [-1] return. *)
Definition sha256_finalize_no_padding (ctx : md_ctx) (enforce_compression : Z) : option (list Z) :=
  if negb (enforce_compression =? 0) && negb (ctx_bytes ctx =? 64) then None
  else Some (emit_be 8 (ctx_s ctx)).

(** The context [sha256_finalize] leaves behind, and the digest it returns. *)
Definition sha256_padded (ctx : md_ctx) : md_ctx :=
  let sizedesc := zcl_write_u64_be (u64 (ctx_bytes ctx << 3)) in
  let ctx1 := sha256_write ctx (md_pad ctx) in
  sha256_write ctx1 sizedesc.
Definition sha256_finalize (ctx : md_ctx) : list Z :=
  default [] (sha256_finalize_no_padding (sha256_padded ctx) 0).

(** A stack-allocated context: its block buffer has 64 bytes of any value. *)
Definition fresh_ctx : md_ctx := mk_ctx [] (replicate 64 0) 0.

Definition sha256_digest (data : list Z) : list Z := sha256_finalize (sha256_write (sha256_init fresh_ctx) data).
Definition sha1_digest (data : list Z) : list Z := sha1_finalize (sha1_write (sha1_init fresh_ctx) data).
Definition ripemd160_digest (data : list Z) : list Z :=
  ripemd160_finalize (ripemd160_write (ripemd160_init fresh_ctx) data).

Definition hash256 (data : list Z) : list Z :=
  let ctx := sha256_write (sha256_init fresh_ctx) data in
  let buf := sha256_finalize ctx in
  let ctx := sha256_write (sha256_init (sha256_padded ctx)) buf in
  sha256_finalize ctx.

Definition hash160 (data : list Z) : list Z :=
  let sha := sha256_write (sha256_init fresh_ctx) data in
  let buf := sha256_finalize sha in
  let rmd := ripemd160_write (ripemd160_init fresh_ctx) buf in
  ripemd160_finalize rmd.

End Words.

(** ** Reference definitions

    FIPS 180-4 and the RIPEMD-160 report, written as loops over a message
    schedule: [ws] holds the schedule words already produced, newest first, so
    that [W_(t-j)] is [nth (j - 1) ws]. Sums are taken in [Z] and reduced once. *)
Module Reference.

Definition rotl (n x : Z) : Z := u32 (x << n) .| (x >> (32 - n)).
Definition rotr (n x : Z) : Z := rotl (32 - n) x.
Definition add32 (l : list Z) : Z := u32 (foldr Z.add 0 l).

(** The sixteen 32-bit words of a block, big- and little-endian. *)
Definition word_bytes (chunk : list Z) (i : nat) : list Z := take 4 (drop (4 * i) chunk).
Definition be_words (chunk : list Z) : list Z := map (fun i => digits_val 8 (rev (word_bytes chunk i))) (seq 0 16).
Definition le_words (chunk : list Z) : list Z := map (fun i => digits_val 8 (word_bytes chunk i)) (seq 0 16).

(** *** SHA-256 *)

Definition ch (x y z : Z) : Z := (x .& y) .^ (Z.lnot x .& z).
Definition maj (x y z : Z) : Z := (x .& y) .^ (x .& z) .^ (y .& z).
Definition bsig0 (x : Z) : Z := rotr 2 x .^ rotr 13 x .^ rotr 22 x.
Definition bsig1 (x : Z) : Z := rotr 6 x .^ rotr 11 x .^ rotr 25 x.
Definition ssig0 (x : Z) : Z := rotr 7 x .^ rotr 18 x .^ (x >> 3).
Definition ssig1 (x : Z) : Z := rotr 17 x .^ rotr 19 x .^ (x >> 10).

(** The round constants as the standard defines them: the first 32 bits of the
    fractional parts of the cube roots of the first 64 primes. *)
Definition is_prime (n : nat) : bool := forallb (fun d => negb (Nat.modulo n d =? 0)%nat) (seq 2 (n - 2)).
Definition primes64 : list nat := List.filter is_prime (seq 2 310).
Fixpoint cube_root (bits : nat) (r x : Z) : Z :=
  match bits with
  | O => r
  | S bits =>
      let r' := r + 2 ^ Z.of_nat bits in
      cube_root bits (if r' * r' * r' <=? x then r' else r) x
  end.
Definition K256 : list Z := map (fun p => u32 (cube_root 36 0 (Z.of_nat p * 2 ^ 96))) primes64.

Fixpoint sha256_rounds (ks msg ws : list Z) (a b c d e f g h : Z) : list Z :=
  match ks with
  | [] => [a; b; c; d; e; f; g; h]
  | k :: ks =>
      let w := match msg with
               | m :: _ => m
               | [] => add32 [ssig1 (nth 1 ws 0); nth 6 ws 0; ssig0 (nth 14 ws 0); nth 15 ws 0]
               end in
      let t1 := add32 [h; bsig1 e; ch e f g; k; w] in
      let t2 := add32 [bsig0 a; maj a b c] in
      sha256_rounds ks (tail msg) (w :: ws) (add32 [t1; t2]) a b c (add32 [d; t1]) e f g
  end.

Definition sha256_block (s chunk : list Z) : list Z :=
  match s with
  | [a; b; c; d; e; f; g; h] =>
      zip_with (fun x y => add32 [x; y]) s (sha256_rounds K256 (be_words chunk) [] a b c d e f g h)
  | _ => s
  end.

(** *** SHA-1 *)

Definition parity (x y z : Z) : Z := x .^ y .^ z.
Definition sha1_fk (t : nat) : (Z -> Z -> Z -> Z) * Z :=
  if (t <? 20)%nat then (ch, 0x5A827999) else if (t <? 40)%nat then (parity, 0x6ED9EBA1)
  else if (t <? 60)%nat then (maj, 0x8F1BBCDC) else (parity, 0xCA62C1D6).

Fixpoint sha1_rounds (ts : list nat) (msg ws : list Z) (a b c d e : Z) : list Z :=
  match ts with
  | [] => [a; b; c; d; e]
  | t :: ts =>
      let w := match msg with
               | m :: _ => m
               | [] => rotl 1 (nth 2 ws 0 .^ nth 7 ws 0 .^ nth 13 ws 0 .^ nth 15 ws 0)
               end in
      let '(f, k) := sha1_fk t in
      sha1_rounds ts (tail msg) (w :: ws) (add32 [rotl 5 a; f b c d; e; k; w]) a (rotl 30 b) c d
  end.

Definition sha1_block (s chunk : list Z) : list Z :=
  match s with
  | [a; b; c; d; e] =>
      zip_with (fun x y => add32 [x; y]) s (sha1_rounds (seq 0 80) (be_words chunk) [] a b c d e)
  | _ => s
  end.

(** *** RIPEMD-160 *)

Definition rmd_f (j : nat) (x y z : Z) : Z :=
  match (j / 16)%nat with
  | 0%nat => x .^ y .^ z
  | 1%nat => (x .& y) .| (not32 x .& z)
  | 2%nat => (x .| not32 y) .^ z
  | 3%nat => (x .& z) .| (y .& not32 z)
  | _ => x .^ (y .| not32 z)
  end.
Definition rmd_K (j : nat) : Z := nth (j / 16) [0; 0x5A827999; 0x6ED9EBA1; 0x8F1BBCDC; 0xA953FD4E] 0.
Definition rmd_K' (j : nat) : Z := nth (j / 16) [0x50A28BE6; 0x5C4DD124; 0x6D703EF3; 0x7A6D76E9; 0] 0.
Definition rmd_r : list nat :=
  [0; 1; 2; 3; 4; 5; 6; 7; 8; 9; 10; 11; 12; 13; 14; 15;
   7; 4; 13; 1; 10; 6; 15; 3; 12; 0; 9; 5; 2; 14; 11; 8;
   3; 10; 14; 4; 9; 15; 8; 1; 2; 7; 0; 6; 13; 11; 5; 12;
   1; 9; 11; 10; 0; 8; 12; 4; 13; 3; 7; 15; 14; 5; 6; 2;
   4; 0; 5; 9; 7; 12; 2; 10; 14; 1; 3; 8; 11; 6; 15; 13]%nat.
Definition rmd_r' : list nat :=
  [5; 14; 7; 0; 9; 2; 11; 4; 13; 6; 15; 8; 1; 10; 3; 12;
   6; 11; 3; 7; 0; 13; 5; 10; 14; 15; 8; 12; 4; 9; 1; 2;
   15; 5; 1; 3; 7; 14; 6; 9; 11; 8; 12; 2; 10; 0; 4; 13;
   8; 6; 4; 1; 3; 11; 15; 0; 5; 12; 2; 13; 9; 7; 10; 14;
   12; 15; 10; 4; 1; 5; 8; 7; 6; 2; 13; 14; 0; 3; 9; 11]%nat.
Definition rmd_s : list Z :=
  [11; 14; 15; 12; 5; 8; 7; 9; 11; 13; 14; 15; 6; 7; 9; 8;
   7; 6; 8; 13; 11; 9; 7; 15; 7; 12; 15; 9; 11; 7; 13; 12;
   11; 13; 6; 7; 14; 9; 13; 15; 14; 8; 13; 6; 5; 12; 7; 5;
   11; 12; 14; 15; 14; 15; 9; 8; 9; 14; 5; 6; 8; 6; 5; 12;
   9; 15; 5; 11; 6; 8; 13; 12; 5; 12; 13; 14; 11; 8; 5; 6].
Definition rmd_s' : list Z :=
  [8; 9; 9; 11; 13; 15; 15; 5; 7; 7; 8; 11; 14; 14; 12; 6;
   9; 13; 15; 7; 12; 8; 9; 11; 7; 7; 12; 7; 6; 15; 13; 11;
   9; 7; 15; 11; 8; 6; 6; 14; 12; 13; 5; 14; 13; 13; 7; 5;
   15; 5; 8; 11; 14; 14; 6; 14; 6; 9; 12; 9; 12; 5; 15; 8;
   8; 5; 12; 9; 12; 5; 14; 6; 8; 13; 6; 5; 15; 13; 11; 11].

(** One line of the report: [T := rol_s(A + f(B,C,D) + X + K) + E] and the
    register rotation; the two lines run side by side. *)
Definition rmd_T (a e fbcd x k s : Z) : Z := add32 [rotl s (add32 [a; fbcd; x; k]); e].
Fixpoint rmd_rounds (js : list nat) (X : list Z) (a b c d e a' b' c' d' e' : Z) : list Z * list Z :=
  match js with
  | [] => ([a; b; c; d; e], [a'; b'; c'; d'; e'])
  | j :: js =>
      rmd_rounds js X
        e (rmd_T a e (rmd_f j b c d) (nth (nth j rmd_r 0%nat) X 0) (rmd_K j) (nth j rmd_s 0)) b (rotl 10 c) d
        e' (rmd_T a' e' (rmd_f (79 - j) b' c' d') (nth (nth j rmd_r' 0%nat) X 0) (rmd_K' j) (nth j rmd_s' 0))
        b' (rotl 10 c') d'
  end.

Definition rmd_combine (h0 h1 h2 h3 h4 : Z) (p : list Z * list Z) : list Z :=
  match p with
  | ([a; b; c; d; e], [a'; b'; c'; d'; e']) =>
      [add32 [h1; c; d']; add32 [h2; d; e']; add32 [h3; e; a']; add32 [h4; a; b']; add32 [h0; b; c']]
  | _ => []
  end.

Definition ripemd160_block (s chunk : list Z) : list Z :=
  match s with
  | [h0; h1; h2; h3; h4] =>
      rmd_combine h0 h1 h2 h3 h4 (rmd_rounds (seq 0 80) (le_words chunk) h0 h1 h2 h3 h4 h0 h1 h2 h3 h4)
  | _ => s
  end.

(** *** Digests: standard padding, block chaining, byte order of the words *)

Definition be_bytes (n : nat) (x : Z) : list Z := rev (digits_of 8 n x).
Definition le_bytes (n : nat) (x : Z) : list Z := digits_of 8 n x.
Definition sha256 (m : list Z) : list Z := concat (map (be_bytes 4) (chain sha256_block sha256_iv (padded (be_bytes 8) m))).
Definition sha1 (m : list Z) : list Z := concat (map (be_bytes 4) (chain sha1_block sha1_iv (padded (be_bytes 8) m))).
Definition ripemd160 (m : list Z) : list Z :=
  concat (map (le_bytes 4) (chain ripemd160_block sha1_iv (padded (le_bytes 8) m))).

End Reference.

(** ** The transforms compute the reference compression functions *)

Section TransformSpec.
Context `{HostOrder}.
Import Reference.

(** Bitwise identities: the code's selector forms against the standard's. *)
Ltac bitwise :=
  apply Z.bits_inj'; intros n Hn;
  rewrite ?Z.lxor_spec, ?Z.lor_spec, ?Z.land_spec, ?Z.lxor_spec, ?Z.lor_spec, ?Z.lnot_spec by done;
  repeat match goal with |- context [Z.testbit ?x n] => destruct (Z.testbit x n) end; reflexivity.

Lemma Ch_ch x y z : Ch x y z = ch x y z.
Proof. unfold Ch, ch. bitwise. Qed.
Lemma Maj_maj x y z : Maj x y z = maj x y z.
Proof. unfold Maj, maj. bitwise. Qed.
Lemma f1_ch x y z : f1 x y z = ch x y z.
Proof. unfold f1, ch. bitwise. Qed.
Lemma f3_maj x y z : f3 x y z = maj x y z.
Proof. unfold f3, maj. bitwise. Qed.

Lemma rotr_code x n k : k = 32 - n -> (x >> n) .| u32 (x << k) = rotr n x.
Proof. intros ->. unfold rotr, rotl. rewrite Z.lor_comm. do 2 f_equal. lia. Qed.

Lemma Sigmas x : Sigma0 x = bsig0 x /\ Sigma1 x = bsig1 x /\ sigma0 x = ssig0 x /\ sigma1 x = ssig1 x.
Proof. unfold Sigma0, Sigma1, sigma0, sigma1. by rewrite !rotr_code by reflexivity. Qed.

(** Congruence of 32-bit words, so that reducing after every addition or once
    at the end is the same by rewriting. *)
Definition cong32 (a b : Z) : Prop := exists q, a = b + q * 2 ^ 32.

#[local] Instance cong32_equiv : Equivalence cong32.
Proof.
  split; unfold cong32.
  - intros x. exists 0. lia.
  - intros x y [q ->]. exists (- q). lia.
  - intros x y z [q ->] [r ->]. exists (q + r). lia.
Qed.
#[local] Instance cong32_add : Proper (cong32 ==> cong32 ==> cong32) Z.add.
Proof. intros a b [q ->] c d [r ->]. exists (q + r). lia. Qed.

Lemma cong32_u32 x : cong32 (u32 x) x.
Proof. exists (- (x / 2 ^ 32)). unfold wrap. pose proof (Z.div_mod x (2 ^ 32)). lia. Qed.
Lemma u32_cong x y : cong32 x y -> u32 x = u32 y.
Proof. intros [q ->]. unfold wrap. apply Z.mod_add. lia. Qed.

Ltac sums :=
  unfold add32; cbn [foldr]; apply u32_cong; rewrite ?cong32_u32;
  match goal with |- cong32 ?a ?b => replace a with b by ring; reflexivity end.

Lemma Round_ref a b c d e f g h k w :
  Round a b c d e f g h k w =
  (let t1 := add32 [h; bsig1 e; ch e f g; k; w] in
   let t2 := add32 [bsig0 a; maj a b c] in (add32 [d; t1], add32 [t1; t2])).
Proof.
  unfold Round. destruct (Sigmas e) as (_ & -> & _). destruct (Sigmas a) as (-> & _).
  rewrite Ch_ch, Maj_maj. cbv zeta. generalize (bsig1 e) (ch e f g) (bsig0 a) (maj a b c).
  intros. f_equal; sums.
Qed.

Lemma sha1_round_ref a b e f k w :
  sha1_round a b e f k w = (rotl 30 b, add32 [rotl 5 a; f; e; k; w]).
Proof. unfold sha1_round. f_equal. change (_ .| _) with (rotl 5 a). generalize (rotl 5 a). intros. sums. Qed.

Lemma rmd_round_ref a c e f x k r : rmd_round a c e f x k r = (rmd_T a e f x k r, rotl 10 c).
Proof.
  unfold rmd_round, rmd_T. f_equal. change (rol ?y ?n) with (rotl n y).
  assert (add32 [a; f; x; k] = u32 (u32 (u32 (a + f) + x) + k)) as -> by sums.
  generalize (rotl r (u32 (u32 (u32 (a + f) + x) + k))). intros. sums.
Qed.

(** One loop iteration in the shape of one unrolled line of the source. *)
Lemma dlet_ext {A B} (v : A) (f g : A -> B) : (forall x, f x = g x) -> dlet_in v f = dlet_in v g.
Proof. intros E. apply E. Qed.
Lemma pair_ext {A B C} (p : A * B) (f g : A -> B -> C) :
  (forall x y, f x y = g x y) -> (let '(x, y) := p in f x y) = (let '(x, y) := p in g x y).
Proof. intros E. destruct p. apply E. Qed.

Lemma sha256_rounds_msg {B} (K : list Z -> B) k ks m msg ws a b c d e f g h :
  K (sha256_rounds (k :: ks) (m :: msg) ws a b c d e f g h) =
  (dlet w := m in let '(d', h') := Round a b c d e f g h k w in
   K (sha256_rounds ks msg (w :: ws) h' a b c d' e f g)).
Proof. cbn [sha256_rounds tail]. unfold dlet_in. by rewrite Round_ref. Qed.

Lemma sha256_rounds_sched {B} (K : list Z -> B) k ks ws a b c d e f g h :
  K (sha256_rounds (k :: ks) [] ws a b c d e f g h) =
  (dlet w := u32 (nth 15 ws 0 + u32 (u32 (sigma1 (nth 1 ws 0) + nth 6 ws 0) + sigma0 (nth 14 ws 0))) in
   let '(d', h') := Round a b c d e f g h k w in
   K (sha256_rounds ks [] (w :: ws) h' a b c d' e f g)).
Proof.
  cbn [sha256_rounds tail]. unfold dlet_in. rewrite Round_ref.
  destruct (Sigmas (nth 1 ws 0)) as (_ & _ & _ & ->). destruct (Sigmas (nth 14 ws 0)) as (_ & _ & -> & _).
  assert (forall p q r s, add32 [p; q; r; s] = u32 (s + u32 (u32 (p + q) + r))) as -> by (intros; sums).
  done.
Qed.

(** The round function and constant of round [t], in the code's form. *)
Definition sha1_code_f (t : nat) : Z -> Z -> Z -> Z :=
  if (t <? 20)%nat then f1 else if (t <? 40)%nat then f2 else if (t <? 60)%nat then f3 else f2.
Lemma sha1_fk_code t b c d : fst (sha1_fk t) b c d = sha1_code_f t b c d.
Proof. unfold sha1_fk, sha1_code_f. repeat case_match; auto using f1_ch, f3_maj, eq_sym. Qed.

Lemma sha1_rounds_msg {B} (K : list Z -> B) t ts m msg ws a b c d e :
  K (sha1_rounds (t :: ts) (m :: msg) ws a b c d e) =
  (dlet w := m in let '(b', e') := sha1_round a b e (sha1_code_f t b c d) (snd (sha1_fk t)) w in
   K (sha1_rounds ts msg (w :: ws) e' a b' c d)).
Proof. cbn [sha1_rounds tail]. unfold dlet_in. rewrite sha1_round_ref, <- sha1_fk_code. destruct (sha1_fk t). done. Qed.

Lemma sha1_rounds_sched {B} (K : list Z -> B) t ts ws a b c d e :
  K (sha1_rounds (t :: ts) [] ws a b c d e) =
  (dlet w := left (nth 15 ws 0 .^ nth 2 ws 0 .^ nth 7 ws 0 .^ nth 13 ws 0) in
   let '(b', e') := sha1_round a b e (sha1_code_f t b c d) (snd (sha1_fk t)) w in
   K (sha1_rounds ts [] (w :: ws) e' a b' c d)).
Proof.
  cbn [sha1_rounds tail]. unfold dlet_in. rewrite sha1_round_ref, <- sha1_fk_code. destruct (sha1_fk t). cbn [fst snd].
  assert (rotl 1 (nth 2 ws 0 .^ nth 7 ws 0 .^ nth 13 ws 0 .^ nth 15 ws 0) =
          left (nth 15 ws 0 .^ nth 2 ws 0 .^ nth 7 ws 0 .^ nth 13 ws 0)) as ->; [|done].
  rewrite (Z.lxor_comm _ (nth 15 ws 0)), !Z.lxor_assoc. done.
Qed.

Lemma rmd_rounds_step {B} (K : list Z * list Z -> B) j js X a b c d e a' b' c' d' e' :
  K (rmd_rounds (j :: js) X a b c d e a' b' c' d' e') =
  (let '(a1, c1) := rmd_round a c e (rmd_f j b c d) (nth (nth j rmd_r 0%nat) X 0) (rmd_K j) (nth j rmd_s 0) in
   let '(a2, c2) := rmd_round a' c' e' (rmd_f (79 - j) b' c' d') (nth (nth j rmd_r' 0%nat) X 0) (rmd_K' j) (nth j rmd_s' 0) in
   K (rmd_rounds js X e a1 b c1 d e' a2 b' c2 d')).
Proof. by rewrite !rmd_round_ref. Qed.

Lemma dlet_l {A B} (v : A) (f : A -> B) r : f v = r -> dlet_in v f = r.
Proof. done. Qed.

Lemma be_words_read chunk :
  bytes chunk -> length chunk = 64%nat -> be_words chunk = map (fun i => ReadBE32 chunk (4 * i)) (seq 0 16).
Proof.
  intros Hb Hl. apply map_ext_in. intros i Hi. apply in_seq in Hi. unfold ReadBE32, word_bytes.
  rewrite read_u32_be_bytes; [done|by apply digits_drop|]. rewrite length_drop. lia.
Qed.
Lemma le_words_read chunk :
  bytes chunk -> length chunk = 64%nat -> le_words chunk = map (fun i => ReadLE32 chunk (4 * i)) (seq 0 16).
Proof.
  intros Hb Hl. apply map_ext_in. intros i Hi. apply in_seq in Hi. unfold ReadLE32, word_bytes.
  rewrite read_u32_le_bytes; [done|by apply digits_drop|]. rewrite length_drop. lia.
Qed.

Ltac peel := apply dlet_ext; intro; apply pair_ext; intros ? ?.

Lemma sha256_transform_spec s chunk :
  length s = 8%nat -> bytes chunk -> length chunk = 64%nat ->
  sha256_transform_portable s chunk = sha256_block s chunk.
Proof.
  intros Hs Hb Hl. do 8 (destruct s as [|? s]; [done|]). destruct s; [clear Hs|done].
  unfold sha256_block. rewrite (be_words_read _ Hb Hl).
  let k := eval vm_compute in K256 in change K256 with k.
  set (K := zip_with _ _). unfold sha256_transform_portable.
  do 8 apply dlet_l. cbn [seq map Nat.mul Nat.add nth].
  do 16 (rewrite sha256_rounds_msg; peel). do 48 (rewrite sha256_rounds_sched; cbn [nth]; peel).
  unfold K, add32. cbn [sha256_rounds zip_with foldr]. by rewrite !Z.add_0_r.
Qed.

Lemma sha1_transform_spec s chunk :
  length s = 5%nat -> bytes chunk -> length chunk = 64%nat ->
  sha1_transform s chunk = sha1_block s chunk.
Proof.
  intros Hs Hb Hl. do 5 (destruct s as [|? s]; [done|]). destruct s; [clear Hs|done].
  unfold sha1_block. rewrite (be_words_read _ Hb Hl).
  set (K := zip_with _ _). unfold sha1_transform.
  do 5 apply dlet_l. cbn [seq map Nat.mul Nat.add nth].
  do 16 (rewrite sha1_rounds_msg; peel). do 64 (rewrite sha1_rounds_sched; cbn [nth]; peel).
  unfold K, add32. cbn [sha1_rounds zip_with foldr]. by rewrite !Z.add_0_r.
Qed.

Lemma ripemd160_transform_spec s chunk :
  length s = 5%nat -> bytes chunk -> length chunk = 64%nat ->
  ripemd160_transform s chunk = ripemd160_block s chunk.
Proof.
  intros Hs Hb Hl. do 5 (destruct s as [|? s]; [done|]). destruct s; [clear Hs|done].
  unfold ripemd160_block. rewrite (le_words_read _ Hb Hl).
  set (K := rmd_combine _ _ _ _ _).
  unfold ripemd160_transform. do 10 apply dlet_l. cbn [seq map Nat.mul Nat.add nth].
  do 16 apply dlet_l.
  do 80 (rewrite rmd_rounds_step; apply pair_ext; intros ? ?; apply pair_ext; intros ? ?).
  unfold K. cbn [rmd_rounds rmd_combine]. apply dlet_l. repeat f_equal; sums.
Qed.


(** ** Streaming digests *)

(** What the streaming layer asks of a transform: on whole blocks it is the
    reference compression function, which keeps the number of chaining words. *)
Class MDSpec (transform block : list Z -> list Z -> list Z) (iv : list Z) (words : nat) := {
  md_transform_ok s chunk :
    length s = words -> bytes chunk -> length chunk = 64%nat -> transform s chunk = block s chunk;
  md_block_length s chunk : length s = words -> length (block s chunk) = words;
  md_iv_length : length iv = words;
}.

Lemma length_sha256_rounds ks msg ws a b c d e f g h :
  length (sha256_rounds ks msg ws a b c d e f g h) = 8%nat.
Proof. revert msg ws a b c d e f g h. induction ks; intros; [done|]. cbn [sha256_rounds]. auto. Qed.
Lemma length_sha1_rounds ts msg ws a b c d e : length (sha1_rounds ts msg ws a b c d e) = 5%nat.
Proof.
  revert msg ws a b c d e. induction ts as [|t ts IH]; intros; [done|]. cbn [sha1_rounds].
  destruct (sha1_fk t). apply IH.
Qed.
Lemma length_rmd_combine X js a b c d e a' b' c' d' e' h0 h1 h2 h3 h4 :
  length (rmd_combine h0 h1 h2 h3 h4 (rmd_rounds js X a b c d e a' b' c' d' e')) = 5%nat.
Proof. revert a b c d e a' b' c' d' e'. induction js; intros; [done|]. cbn [rmd_rounds]. auto. Qed.

#[export] Instance sha256_md : MDSpec sha256_transform_portable sha256_block sha256_iv 8.
Proof.
  split; [apply sha256_transform_spec| |done]. intros s chunk Hs. do 8 (destruct s as [|? s]; [done|]).
  destruct s; [|done]. unfold sha256_block. by rewrite length_zip_with, length_sha256_rounds.
Qed.
#[export] Instance sha1_md : MDSpec sha1_transform sha1_block sha1_iv 5.
Proof.
  split; [apply sha1_transform_spec| |done]. intros s chunk Hs. do 5 (destruct s as [|? s]; [done|]).
  destruct s; [|done]. unfold sha1_block. by rewrite length_zip_with, length_sha1_rounds.
Qed.
#[export] Instance ripemd160_md : MDSpec ripemd160_transform ripemd160_block sha1_iv 5.
Proof.
  split; [apply ripemd160_transform_spec| |done]. intros s chunk Hs. do 5 (destruct s as [|? s]; [done|]).
  destruct s; [|done]. apply length_rmd_combine.
Qed.

Section Digest.
Context {transform block : list Z -> list Z -> list Z} {iv : list Z} {words : nat} `{!MDSpec transform block iv words}.

Lemma compress_spec n s m :
  length s = words -> bytes m -> (64 * n <= length m)%nat ->
  compress transform n s m = compress block n s m /\ length (compress block n s m) = words.
Proof.
  revert s m. induction n as [|n IH]; intros s m Hs Hm Hl; [done|]. cbn [compress].
  rewrite (md_transform_ok s (take 64 m)); [|done|by apply digits_take|rewrite length_take; lia].
  apply IH; [by apply md_block_length|by apply digits_drop|rewrite length_drop; lia].
Qed.

Lemma chain_spec m : bytes m -> chain transform iv m = chain block iv m /\ length (chain block iv m) = words.
Proof. intros Hm. apply compress_spec; [apply md_iv_length|done|]. ndm. Qed.

Lemma foldl_write_absorbed (write : md_ctx -> list Z -> md_ctx) ctx chunks m :
  (forall ctx data m, absorbed transform iv ctx m -> absorbed transform iv (write ctx data) (m ++ data)) ->
  absorbed transform iv ctx m -> absorbed transform iv (foldl write ctx chunks) (m ++ concat chunks).
Proof.
  intros Hw. revert ctx m. induction chunks as [|d chunks IH]; intros ctx m Ha; cbn.
  - by rewrite app_nil_r.
  - rewrite app_assoc. apply IH, Hw, Ha.
Qed.

Lemma padded_bytes f m : bytes m -> (forall x, bytes (f x)) -> bytes (padded f m).
Proof.
  intros Hm Hf. apply digits_app; [done|]. constructor; [done|]. apply digits_app; [|apply Hf].
  apply digits_replicate0. lia.
Qed.

End Digest.

Lemma map_nth_seq {A} (f : Z -> A) s : map (fun i => f (nth i s 0)) (seq 0 (length s)) = map f s.
Proof.
  induction s as [|x s IH]; [done|]. cbn [length seq map nth]. f_equal.
  rewrite <- IH, <- List.seq_shift, map_map. done.
Qed.

Lemma emit_be_words n s : length s = n -> emit_be n s = concat (map (be_bytes 4) s).
Proof.
  intros <-. unfold emit_be. rewrite (map_nth_seq zcl_write_u32_be). f_equal.
  apply map_ext. intros x. apply write_u32_be_bytes.
Qed.
Lemma emit_le_words n s : length s = n -> emit_le n s = concat (map (le_bytes 4) s).
Proof.
  intros <-. unfold emit_le. rewrite (map_nth_seq zcl_write_u32_le). f_equal.
  apply map_ext. intros x. apply write_u32_le_bytes.
Qed.

Lemma sha256_write_absorbed ctx data m :
  absorbed sha256_transform_portable sha256_iv ctx m ->
  absorbed sha256_transform_portable sha256_iv (sha256_write ctx data) (m ++ data).
Proof.
  intros Ha. unfold sha256_write. destruct (Nat.eqb_spec (length data) 0) as [Hz|_].
  - destruct data; [by rewrite app_nil_r|done].
  - by apply md_write_absorbed.
Qed.

(** A finalizer that pads with the code's two writes, on an absorbed message. *)
Lemma be_bytes_bytes n x : bytes (be_bytes n x).
Proof. apply digits_rev, digits_of_digits. lia. Qed.
Lemma le_bytes_bytes n x : bytes (le_bytes n x).
Proof. apply digits_of_digits. lia. Qed.

Lemma md_finalize_chain {tr block iv words} `{!MDSpec tr block iv words} write_size ctx m :
  absorbed tr iv ctx m -> bytes m -> Z.of_nat (length m) < 2 ^ 61 -> (forall x, bytes (write_size x)) ->
  let s := ctx_s (md_write tr (md_write tr ctx (md_pad ctx)) (write_size (u64 (ctx_bytes ctx << 3)))) in
  s = chain block iv (padded write_size m) /\ length s = words.
Proof.
  intros Ha Hm Hl Hw s. unfold s. rewrite (md_finalize_absorbed tr iv write_size ctx m) by done.
  destruct (chain_spec (padded write_size m)) as [-> ?]; [by apply padded_bytes|done].
Qed.

Lemma sha256_finalize_spec ctx m :
  absorbed sha256_transform_portable sha256_iv ctx m -> bytes m -> Z.of_nat (length m) < 2 ^ 61 ->
  sha256_finalize ctx = Reference.sha256 m.
Proof.
  intros Ha Hm Hl. unfold sha256_finalize, sha256_finalize_no_padding, sha256_padded. cbn [default].
  rewrite write_u64_be_bytes. fold (be_bytes 8 (u64 (ctx_bytes ctx << 3))).
  assert (forall c d, d <> [] -> sha256_write c d = md_write sha256_transform_portable c d) as Hne.
  { intros c [|] ?; done. }
  rewrite !Hne.
  - destruct (md_finalize_chain (be_bytes 8) ctx m Ha Hm Hl (be_bytes_bytes 8)) as [E L].
    rewrite emit_be_words by done. by rewrite E.
  - by rewrite (md_pad_spec _ _ _ _ Ha).
  - intros E%(f_equal length). unfold be_bytes in E. rewrite length_rev, length_digits_of in E. done.
Qed.

Lemma sha1_finalize_spec ctx m :
  absorbed sha1_transform sha1_iv ctx m -> bytes m -> Z.of_nat (length m) < 2 ^ 61 ->
  sha1_finalize ctx = Reference.sha1 m.
Proof.
  intros Ha Hm Hl. unfold sha1_finalize, sha1_write. rewrite write_u64_be_bytes.
  destruct (md_finalize_chain (be_bytes 8) ctx m Ha Hm Hl (be_bytes_bytes 8)) as [E L].
  cbv zeta. fold (be_bytes 8 (u64 (ctx_bytes ctx << 3))). rewrite emit_be_words by done. by rewrite E.
Qed.

Lemma ripemd160_finalize_spec ctx m :
  absorbed ripemd160_transform sha1_iv ctx m -> bytes m -> Z.of_nat (length m) < 2 ^ 61 ->
  ripemd160_finalize ctx = Reference.ripemd160 m.
Proof.
  intros Ha Hm Hl. unfold ripemd160_finalize, ripemd160_write. rewrite write_u64_le_bytes.
  destruct (md_finalize_chain (le_bytes 8) ctx m Ha Hm Hl (le_bytes_bytes 8)) as [E L].
  cbv zeta. fold (le_bytes 8 (u64 (ctx_bytes ctx << 3))). rewrite emit_le_words by done. by rewrite E.
Qed.

(** Every digest is a byte string of its fixed length. *)
Lemma concat_words_length {A} (f : A -> list Z) s k :
  (forall x, length (f x) = k) -> length (concat (map f s)) = (k * length s)%nat.
Proof. intros Hf. induction s; cbn; [lia|]. rewrite length_app, Hf, IHs. lia. Qed.
Lemma concat_words_bytes (f : Z -> list Z) s : (forall x, bytes (f x)) -> bytes (concat (map f s)).
Proof. intros Hf. induction s; cbn; [constructor|]. apply digits_app; auto. Qed.

Lemma reference_digests m : bytes m ->
  (length (Reference.sha256 m) = 32%nat /\ bytes (Reference.sha256 m)) /\
  (length (Reference.sha1 m) = 20%nat /\ bytes (Reference.sha1 m)) /\
  (length (Reference.ripemd160 m) = 20%nat /\ bytes (Reference.ripemd160 m)).
Proof.
  intros Hm. unfold Reference.sha256, Reference.sha1, Reference.ripemd160.
  pose proof (proj2 (chain_spec (block := sha256_block) _ (padded_bytes (be_bytes 8) m Hm (be_bytes_bytes 8)))).
  pose proof (proj2 (chain_spec (block := sha1_block) _ (padded_bytes (be_bytes 8) m Hm (be_bytes_bytes 8)))).
  pose proof (proj2 (chain_spec (block := ripemd160_block) _ (padded_bytes (le_bytes 8) m Hm (le_bytes_bytes 8)))).
  split_and!; try (apply concat_words_bytes; auto using be_bytes_bytes, le_bytes_bytes).
  all: rewrite (concat_words_length _ _ 4) by (intros; unfold be_bytes, le_bytes; rewrite ?length_rev; apply length_digits_of); lia.
Qed.

Lemma one_shot_digests data :
  bytes data -> Z.of_nat (length data) < 2 ^ 61 ->
  sha256_digest data = Reference.sha256 data /\ sha1_digest data = Reference.sha1 data /\
  ripemd160_digest data = Reference.ripemd160 data.
Proof.
  intros Hb Hl. unfold sha256_digest, sha1_digest, ripemd160_digest.
  pose proof (fun tr iv => absorbed_init tr iv (ctx_buf fresh_ctx) eq_refl) as Hi. split_and!.
  - apply sha256_finalize_spec; [|done..]. by apply (sha256_write_absorbed _ _ []).
  - apply sha1_finalize_spec; [|done..]. by apply (md_write_absorbed _ _ _ []).
  - apply ripemd160_finalize_spec; [|done..]. by apply (md_write_absorbed _ _ _ []).
Qed.

Lemma sha256_padded_buf ctx m :
  absorbed sha256_transform_portable sha256_iv ctx m -> length (ctx_buf (sha256_padded ctx)) = 64%nat.
Proof.
  intros Ha. eapply ab_buf. unfold sha256_padded. do 2 eapply sha256_write_absorbed. exact Ha.
Qed.

Lemma hash256_spec data :
  bytes data -> Z.of_nat (length data) < 2 ^ 61 -> hash256 data = Reference.sha256 (Reference.sha256 data).
Proof.
  intros Hb Hl. unfold hash256. cbv zeta.
  pose proof (sha256_write_absorbed (sha256_init fresh_ctx) data [] (absorbed_init _ _ (ctx_buf fresh_ctx) eq_refl)) as Ha.
  rewrite (sha256_finalize_spec _ _ Ha Hb Hl). destruct (reference_digests data Hb) as ((L & B) & _).
  apply sha256_finalize_spec; [|done|rewrite L; lia].
  apply (sha256_write_absorbed _ _ []). apply absorbed_init. by eapply sha256_padded_buf.
Qed.

Lemma hash160_spec data :
  bytes data -> Z.of_nat (length data) < 2 ^ 61 -> hash160 data = Reference.ripemd160 (Reference.sha256 data).
Proof.
  intros Hb Hl. unfold hash160. cbv zeta.
  pose proof (sha256_write_absorbed (sha256_init fresh_ctx) data [] (absorbed_init _ _ (ctx_buf fresh_ctx) eq_refl)) as Ha.
  rewrite (sha256_finalize_spec _ _ Ha Hb Hl). destruct (reference_digests data Hb) as ((L & B) & _).
  apply ripemd160_finalize_spec; [|done|rewrite L; lia].
  apply (md_write_absorbed _ _ _ []). by apply absorbed_init.
Qed.

End TransformSpec.

(** C12: however the message is cut into writes, and whatever the context held
    before, SHA-256, SHA-1 and RIPEMD-160 return the digest that FIPS 180-4 and
    the RIPEMD-160 report define for the concatenation of the writes: block
    buffering, padding, the unrolled rounds and the byte order are all exact. *)
Theorem streaming_digests `{HostOrder} (ctx : md_ctx) (chunks : list (list Z)) :
  length (ctx_buf ctx) = 64%nat -> bytes (concat chunks) -> Z.of_nat (length (concat chunks)) < 2 ^ 61 ->
  sha256_finalize (foldl sha256_write (sha256_init ctx) chunks) = Reference.sha256 (concat chunks) /\
  sha1_finalize (foldl sha1_write (sha1_init ctx) chunks) = Reference.sha1 (concat chunks) /\
  ripemd160_finalize (foldl ripemd160_write (ripemd160_init ctx) chunks) = Reference.ripemd160 (concat chunks).
Proof.
  intros Hc Hb Hl. pose proof (fun tr iv => absorbed_init tr iv (ctx_buf ctx) Hc) as Hi. split_and!.
  - apply sha256_finalize_spec; [|done..].
    by apply (foldl_write_absorbed _ _ _ [] sha256_write_absorbed).
  - apply sha1_finalize_spec; [|done..].
    apply (foldl_write_absorbed _ _ _ []); [|done]. intros. by apply md_write_absorbed.
  - apply ripemd160_finalize_spec; [|done..].
    apply (foldl_write_absorbed _ _ _ []); [|done]. intros. by apply md_write_absorbed.
Qed.

Section HashExamples.
#[local] Instance little_endian_host : HostOrder := false.

Lemma streaming_digests_witness :
  let chunks := [[97]; []; [98; 99]] in
  sha256_finalize (foldl sha256_write (sha256_init fresh_ctx) chunks) = Reference.sha256 (concat chunks).
Proof.
  intro chunks.
  destruct (streaming_digests fresh_ctx chunks) as (E & _ & _); [done|repeat constructor; done|done|exact E].
Defined.

(** The published vectors for "abc". *)
Example sha256_abc :
  digits_val 8 (rev (sha256_digest [97; 98; 99])) = 0xba7816bf8f01cfea414140de5dae2223b00361a396177a9cb410ff61f20015ad.
Proof. vm_compute. reflexivity. Qed.
Example sha1_abc : digits_val 8 (rev (sha1_digest [97; 98; 99])) = 0xa9993e364706816aba3e25717850c26c9cd0d89d.
Proof. vm_compute. reflexivity. Qed.
Example ripemd160_abc : digits_val 8 (rev (ripemd160_digest [97; 98; 99])) = 0x8eb208f7e05d987a9b044a8e98c6b087f15a0bfc.
Proof. vm_compute. reflexivity. Qed.
End HashExamples.

Lemma emit_be_length `{HostOrder} n s : length (emit_be n s) = (4 * n)%nat.
Proof.
  unfold emit_be. rewrite (concat_words_length _ _ 4); [by rewrite length_seq|].
  intros i. by rewrite write_u32_be_bytes, length_rev, length_digits_of.
Qed.

Lemma hash256_length `{HostOrder} data : length (hash256 data) = 32%nat.
Proof.
  unfold hash256. cbv zeta. unfold sha256_finalize, sha256_finalize_no_padding.
  change (negb (0 =? 0)) with false. cbn iota beta delta [andb default]. apply emit_be_length.
Qed.

(** [hash256] and [hash160] are double SHA-256 and RIPEMD-160 of SHA-256,
    and return byte strings of exactly 32 and 20 bytes. *)
Theorem hash_compositions `{HostOrder} (data : list Z) :
  bytes data -> Z.of_nat (length data) < 2 ^ 61 ->
  hash256 data = Reference.sha256 (Reference.sha256 data) /\
  hash160 data = Reference.ripemd160 (Reference.sha256 data) /\
  length (hash256 data) = 32%nat /\ length (hash160 data) = 20%nat.
Proof.
  intros Hb Hl. rewrite hash256_spec, hash160_spec by done.
  destruct (reference_digests data Hb) as ((_ & B) & _).
  destruct (reference_digests _ B) as ((? & _) & _ & (? & _)). done.
Qed.

Lemma hash_compositions_witness :
  let _ : HostOrder := true in length (hash256 []) = 32%nat /\ length (hash160 []) = 20%nat.
Proof. intro H0. destruct (@hash_compositions H0 []) as (_ & _ & E); [constructor|done|exact E]. Defined.
