(* ===== verification/Blake2b.v ===== *)
(** * BLAKE2b

    Model of [core/modules/crypto/src/blake2b.c] (the portable code) and of the
    structures of [blake2b.h]: parameter block, streaming context, compression,
    update and finalisation. The reference is RFC 7693, section 3. The code copies
    words between memory and integers in the byte order of the host, so the
    equivalence is stated for a little-endian one. *)

From stdpp Require Import base tactics list numbers option.
From Stdlib Require Import ZArith Lia ZifyNat.
From S2P Require Import Prelude ByteOrder Hash.
#[local] Open Scope Z_scope.
#[local] Open Scope list_scope.

Definition BLAKE2B_BLOCKBYTES : nat := 128.
Definition BLAKE2B_OUTBYTES : Z := 64.
Definition BLAKE2B_KEYBYTES : Z := 64.
Definition BLAKE2B_SALTBYTES : nat := 16.
Definition BLAKE2B_PERSONALBYTES : nat := 16.

Record blake2b_param := mk_param {
  p_digest_length : Z; p_key_length : Z; p_fanout : Z; p_depth : Z; p_leaf_length : Z; p_node_offset : Z;
  p_node_depth : Z; p_inner_length : Z; p_reserved : list Z; p_salt : list Z; p_personal : list Z }.

Record blake2b_ctx := mk_blake2b {
  b_h : list Z; b_t0 : Z; b_t1 : Z; b_f0 : Z; b_f1 : Z; b_buf : list Z; b_buflen : nat; b_outlen : Z }.

Definition blake2b_IV : list Z :=
  [0x6a09e667f3bcc908; 0xbb67ae8584caa73b; 0x3c6ef372fe94f82b; 0xa54ff53a5f1d36f1;
   0x510e527fade682d1; 0x9b05688c2b3e6c1f; 0x1f83d9abfb41bd6b; 0x5be0cd19137e2179].

Definition blake2b_sigma : list (list nat) :=
  [[0; 1; 2; 3; 4; 5; 6; 7; 8; 9; 10; 11; 12; 13; 14; 15];
   [14; 10; 4; 8; 9; 15; 13; 6; 1; 12; 0; 2; 11; 7; 5; 3];
   [11; 8; 12; 0; 5; 2; 15; 13; 10; 14; 3; 6; 7; 1; 9; 4];
   [7; 9; 3; 1; 13; 12; 11; 14; 2; 6; 5; 10; 4; 0; 15; 8];
   [9; 0; 5; 7; 2; 4; 10; 15; 14; 1; 11; 12; 6; 8; 3; 13];
   [2; 12; 6; 10; 0; 11; 8; 3; 4; 13; 7; 5; 15; 14; 1; 9];
   [12; 5; 1; 15; 14; 13; 4; 10; 0; 7; 6; 3; 9; 2; 8; 11];
   [13; 11; 7; 14; 12; 1; 3; 9; 5; 0; 15; 4; 8; 6; 2; 10];
   [6; 15; 14; 9; 11; 3; 0; 8; 12; 2; 13; 7; 1; 4; 10; 5];
   [10; 2; 8; 4; 7; 6; 1; 5; 15; 11; 9; 14; 3; 12; 13; 0];
   [0; 1; 2; 3; 4; 5; 6; 7; 8; 9; 10; 11; 12; 13; 14; 15];
   [14; 10; 4; 8; 9; 15; 13; 6; 1; 12; 0; 2; 11; 7; 5; 3]]%nat.

Definition rotr64 (x n : Z) : Z := (x >> n) .| u64 (x << (64 - n)).

(** Entry [i] of an array of words. *)
Definition word (v : list Z) (i : nat) : Z := nth i v 0.

Section Code.
Context `{HostOrder}.

Definition load64 (src : list Z) : Z := load_object 8 src.
Definition store64 (w : Z) : list Z := store_object 8 w.

(** The macro [G]: [a], [b], [c], [d] name entries of [v]. *)
Definition G (m : list Z) (r i a b c d : nat) (v : list Z) : list Z :=
  let sigma := nth r blake2b_sigma [] in
  let v := <[a := u64 (word v a + word v b + word m (nth (2 * i) sigma O))]> v in
  let v := <[d := rotr64 (word v d .^ word v a) 32]> v in
  let v := <[c := u64 (word v c + word v d)]> v in
  let v := <[b := rotr64 (word v b .^ word v c) 24]> v in
  let v := <[a := u64 (word v a + word v b + word m (nth (2 * i + 1) sigma O))]> v in
  let v := <[d := rotr64 (word v d .^ word v a) 16]> v in
  let v := <[c := u64 (word v c + word v d)]> v in
  <[b := rotr64 (word v b .^ word v c) 63]> v.

Definition ROUND (m : list Z) (r : nat) (v : list Z) : list Z :=
  let v := G m r 0 0 4 8 12 v in
  let v := G m r 1 1 5 9 13 v in
  let v := G m r 2 2 6 10 14 v in
  let v := G m r 3 3 7 11 15 v in
  let v := G m r 4 0 5 10 15 v in
  let v := G m r 5 1 6 11 12 v in
  let v := G m r 6 2 7 8 13 v in
  G m r 7 3 4 9 14 v.

(** [m[i] = load64(block + 8 * i)] *)
Definition load_words (n : nat) (block : list Z) : list Z := map (fun i => load64 (drop (8 * i) block)) (seq 0 n).

Definition blake2b_compress (ctx : blake2b_ctx) (block : list Z) : blake2b_ctx :=
  let m := load_words 16 block in
  let v := map (word (b_h ctx)) (seq 0 8) ++
    [word blake2b_IV 0; word blake2b_IV 1; word blake2b_IV 2; word blake2b_IV 3;
     word blake2b_IV 4 .^ b_t0 ctx; word blake2b_IV 5 .^ b_t1 ctx;
     word blake2b_IV 6 .^ b_f0 ctx; word blake2b_IV 7 .^ b_f1 ctx] in
  let v := fold_left (fun v r => ROUND m r v) (seq 0 12) v in
  mk_blake2b (map (fun i => word (b_h ctx) i .^ (word v i .^ word v (i + 8))) (seq 0 8))
    (b_t0 ctx) (b_t1 ctx) (b_f0 ctx) (b_f1 ctx) (b_buf ctx) (b_buflen ctx) (b_outlen ctx).

Definition set_counter (ctx : blake2b_ctx) (t0 t1 : Z) : blake2b_ctx :=
  mk_blake2b (b_h ctx) t0 t1 (b_f0 ctx) (b_f1 ctx) (b_buf ctx) (b_buflen ctx) (b_outlen ctx).
Definition set_buffer (ctx : blake2b_ctx) (buf : list Z) (buflen : nat) : blake2b_ctx :=
  mk_blake2b (b_h ctx) (b_t0 ctx) (b_t1 ctx) (b_f0 ctx) (b_f1 ctx) buf buflen (b_outlen ctx).
Definition set_last (ctx : blake2b_ctx) : blake2b_ctx :=
  mk_blake2b (b_h ctx) (b_t0 ctx) (b_t1 ctx) (u64 (-1)) (b_f1 ctx) (b_buf ctx) (b_buflen ctx) (b_outlen ctx).

Definition blake2b_increment_counter (ctx : blake2b_ctx) (inc : Z) : blake2b_ctx :=
  let t0 := u64 (b_t0 ctx + inc) in
  set_counter ctx t0 (u64 (b_t1 ctx + (if t0 <? inc then 1 else 0))).

(** The object representation of the structure; its fields need no padding. *)
Definition param_bytes (p : blake2b_param) : list Z :=
  [p_digest_length p; p_key_length p; p_fanout p; p_depth p] ++ store_object 4 (p_leaf_length p) ++
  store_object 8 (p_node_offset p) ++ [p_node_depth p; p_inner_length p] ++ p_reserved p ++ p_salt p ++ p_personal p.

Definition blake2b_init_param (p : blake2b_param) : blake2b_ctx :=
  let pb := param_bytes p in
  mk_blake2b (map (fun i => word blake2b_IV i .^ load64 (drop (8 * i) pb)) (seq 0 8)) 0 0 0 0
    (replicate BLAKE2B_BLOCKBYTES 0) 0 (p_digest_length p).

(** [memset(&p, 0, sizeof(p))] and the fields the initialisers set. *)
Definition sequential_param (outlen keylen : Z) (salt personal : list Z) : blake2b_param :=
  mk_param (u8 outlen) (u8 keylen) 1 1 0 0 0 0 (replicate 14 0) salt personal.

(** [None]: the code returns -1. *)
Definition blake2b_init (outlen : Z) : option blake2b_ctx :=
  if (outlen =? 0) || (BLAKE2B_OUTBYTES <? outlen) then None
  else Some (blake2b_init_param (sequential_param outlen 0 (replicate BLAKE2B_SALTBYTES 0) (replicate BLAKE2B_PERSONALBYTES 0))).

(** [while (inlen > BLAKE2B_BLOCKBYTES)]; returns the context and what is left of
    the input. *)
Fixpoint update_blocks (fuel : nat) (ctx : blake2b_ctx) (pin : list Z) : blake2b_ctx * list Z :=
  match fuel with
  | O => (ctx, pin)
  | S fuel =>
      if (BLAKE2B_BLOCKBYTES <? length pin)%nat then
        let ctx := blake2b_increment_counter ctx (Z.of_nat BLAKE2B_BLOCKBYTES) in
        update_blocks fuel (blake2b_compress ctx (take BLAKE2B_BLOCKBYTES pin)) (drop BLAKE2B_BLOCKBYTES pin)
      else (ctx, pin)
  end.

Definition blake2b_update (ctx : blake2b_ctx) (pin : list Z) : blake2b_ctx :=
  if (length pin =? 0)%nat then ctx
  else
    let left := b_buflen ctx in
    let fill := (BLAKE2B_BLOCKBYTES - left)%nat in
    let '(ctx, pin) :=
      if (fill <? length pin)%nat then
        let ctx := set_buffer ctx (memcpy_at (b_buf ctx) left (take fill pin)) 0 in
        let ctx := blake2b_increment_counter ctx (Z.of_nat BLAKE2B_BLOCKBYTES) in
        let ctx := blake2b_compress ctx (b_buf ctx) in
        update_blocks (length pin) ctx (drop fill pin)
      else (ctx, pin) in
    set_buffer ctx (memcpy_at (b_buf ctx) (b_buflen ctx) pin) (b_buflen ctx + length pin).

(** A key is absorbed as a block of its own, padded with zeros. *)
Definition key_block (key : list Z) : list Z := memcpy_at (replicate BLAKE2B_BLOCKBYTES 0) 0 key.

Definition blake2b_init_key (outlen : Z) (key : list Z) : option blake2b_ctx :=
  if (outlen =? 0) || (BLAKE2B_OUTBYTES <? outlen) then None
  else if (Z.of_nat (length key) =? 0) || (BLAKE2B_KEYBYTES <? Z.of_nat (length key)) then None
  else
    let p := sequential_param outlen (Z.of_nat (length key)) (replicate BLAKE2B_SALTBYTES 0) (replicate BLAKE2B_PERSONALBYTES 0) in
    Some (blake2b_update (blake2b_init_param p) (key_block key)).

(** A null pointer is [None]; [keylen] is the length of the key. [None] as result
    is a key that overflows the block on the stack. *)
Definition blake2b_init_salt_personal (outlen : Z) (key salt personal : option (list Z)) : option blake2b_ctx :=
  let keylen := Z.of_nat (length (default [] key)) in
  let ctx := blake2b_init_param (sequential_param outlen keylen (default (replicate BLAKE2B_SALTBYTES 0) salt)
                                   (default (replicate BLAKE2B_PERSONALBYTES 0) personal)) in
  match key with
  | Some k => if 0 <? keylen then
                if Z.of_nat BLAKE2B_BLOCKBYTES <? keylen then None else Some (blake2b_update ctx (key_block k))
              else Some ctx
  | None => Some ctx
  end.

(** [None] is a read past the 64 bytes of digest words, [Some None] the result -1;
    otherwise the bytes written to [out], which holds [outlen]. *)
Definition blake2b_final (ctx : blake2b_ctx) (outlen : Z) : option (option (list Z)) :=
  if outlen <? b_outlen ctx then Some None
  else
    let ctx := blake2b_increment_counter ctx (Z.of_nat (b_buflen ctx)) in
    let ctx := set_last ctx in
    let ctx := set_buffer ctx (memcpy_at (b_buf ctx) (b_buflen ctx) (replicate (BLAKE2B_BLOCKBYTES - b_buflen ctx) 0)) (b_buflen ctx) in
    let ctx := blake2b_compress ctx (b_buf ctx) in
    let buffer := concat (map (fun i => store64 (word (b_h ctx) i)) (seq 0 8)) in
    if BLAKE2B_OUTBYTES <? b_outlen ctx then None else Some (Some (take (Z.to_nat (b_outlen ctx)) buffer)).

Definition blake2b (outlen : Z) (data : list Z) (key : option (list Z)) : option (option (list Z)) :=
  let ctx := match key with
             | Some k => if 0 <? Z.of_nat (length k) then blake2b_init_key outlen k else blake2b_init outlen
             | None => blake2b_init outlen
             end in
  match ctx with
  | None => Some None
  | Some ctx => blake2b_final (blake2b_update ctx data) outlen
  end.

End Code.

(** The published digest of "abc". *)
Example blake2b_abc :
  let _ : HostOrder := false in
  option_map (option_map (fun d => digits_val 8 (rev d))) (blake2b 64 [97; 98; 99] None) = Some (Some
  0xba80a53f981c4d0d6a2797b69f12f6e94c212f14685ac4b74b12bb6fdbffa2d17d87c5392aab792dc252d5de4533cc9518d38aa8dbf1925ab92386edd4009923).
Proof. vm_compute. reflexivity. Qed.

(** ** RFC 7693 *)

Module Rfc7693.

Definition SIGMA : list (list nat) := take 10 blake2b_sigma.

(** Section 3.1: mixing four words with two message words. *)
Definition mix (x y : Z) (q : Z * Z * Z * Z) : Z * Z * Z * Z :=
  let '(a, b, c, d) := q in
  let a := (a + b + x) mod 2 ^ 64 in
  let d := rotr64 (d .^ a) 32 in
  let c := (c + d) mod 2 ^ 64 in
  let b := rotr64 (b .^ c) 24 in
  let a := (a + b + y) mod 2 ^ 64 in
  let d := rotr64 (d .^ a) 16 in
  let c := (c + d) mod 2 ^ 64 in
  let b := rotr64 (b .^ c) 63 in
  (a, b, c, d).

(** One round: the columns of the 4x4 matrix, then its diagonals. *)
Definition round (m : list Z) (s : list nat) (v : list Z) : list Z :=
  let x i := word m (nth i s O) in
  match v with
  | [v0; v1; v2; v3; v4; v5; v6; v7; v8; v9; v10; v11; v12; v13; v14; v15] =>
      let '(v0, v4, v8, v12) := mix (x 0%nat) (x 1%nat) (v0, v4, v8, v12) in
      let '(v1, v5, v9, v13) := mix (x 2%nat) (x 3%nat) (v1, v5, v9, v13) in
      let '(v2, v6, v10, v14) := mix (x 4%nat) (x 5%nat) (v2, v6, v10, v14) in
      let '(v3, v7, v11, v15) := mix (x 6%nat) (x 7%nat) (v3, v7, v11, v15) in
      let '(v0, v5, v10, v15) := mix (x 8%nat) (x 9%nat) (v0, v5, v10, v15) in
      let '(v1, v6, v11, v12) := mix (x 10%nat) (x 11%nat) (v1, v6, v11, v12) in
      let '(v2, v7, v8, v13) := mix (x 12%nat) (x 13%nat) (v2, v7, v8, v13) in
      let '(v3, v4, v9, v14) := mix (x 14%nat) (x 15%nat) (v3, v4, v9, v14) in
      [v0; v1; v2; v3; v4; v5; v6; v7; v8; v9; v10; v11; v12; v13; v14; v15]
  | _ => v
  end.

Definition le_words (n : nat) (block : list Z) : list Z := map (fun i => digits_val 8 (take 8 (drop (8 * i) block))) (seq 0 n).

(** Section 3.2: the offset counter [t] is a 128-bit number. *)
Definition F (h block : list Z) (t : Z) (last : bool) : list Z :=
  let tail := [t mod 2 ^ 64; t / 2 ^ 64 mod 2 ^ 64; if last then 2 ^ 64 - 1 else 0; 0] in
  let v := h ++ zip_with Z.lxor blake2b_IV (replicate 4 0 ++ tail) in
  let v := fold_left (fun v r => round (le_words 16 block) (nth (r mod 10) SIGMA []) v) (seq 0 12) v in
  zip_with Z.lxor h (zip_with Z.lxor (take 8 v) (drop 8 v)).

(** The state after the first [n] blocks, none of them the last. *)
Fixpoint blocks (h data : list Z) (n : nat) : list Z :=
  match n with
  | O => h
  | S n => F (blocks h data n) (take 128 (drop (128 * n) data)) (128 * (Z.of_nat n + 1)) false
  end.

(** All blocks but the last; an empty message has one block. *)
Definition full_blocks (data : list Z) : nat := ((length data - 1) / 128)%nat.
Definition pad (block : list Z) : list Z := block ++ replicate (128 - length block) 0.

(** Sections 2.5 and 3.3: the parameter block, a key as first block, and the last
    block with the total length. *)
Definition parameters (nn kk : Z) (salt personal : list Z) : list Z :=
  [nn; kk; 1; 1] ++ replicate 28 0 ++ salt ++ personal.
Definition initial (nn : Z) (key salt personal : list Z) : list Z :=
  zip_with Z.lxor blake2b_IV (le_words 8 (parameters nn (Z.of_nat (length key)) salt personal)).
Definition with_key (key data : list Z) : list Z := match key with [] => data | _ => pad key ++ data end.
Definition finish (h data : list Z) : list Z :=
  let n := full_blocks data in F (blocks h data n) (pad (drop (128 * n) data)) (Z.of_nat (length data)) true.
Definition digest (nn : Z) (key salt personal data : list Z) : list Z :=
  take (Z.to_nat nn) (concat (map (digits_of 8 8) (finish (initial nn key salt personal) (with_key key data)))).

End Rfc7693.

(** ** The streaming code computes it *)

Section Spec.
#[local] Existing Instance little_endian_host.

Lemma ROUND_round m r v : length v = 16%nat -> ROUND m r v = Rfc7693.round m (nth r blake2b_sigma []) v.
Proof. do 16 (destruct v as [|? v]; [done|]). destruct v; [|done]. intros _. reflexivity. Qed.

Lemma round_length m s v : length v = 16%nat -> length (Rfc7693.round m s v) = 16%nat.
Proof.
  do 16 (destruct v as [|? v]; [done|]). destruct v; [|done]. intros _. unfold Rfc7693.round.
  repeat (destruct (Rfc7693.mix _ _ _) as [[[? ?] ?] ?]). reflexivity.
Qed.

(** Two loops that agree on states satisfying an invariant. *)
Lemma fold_left_ext {A B} (P : A -> Prop) (Q : B -> Prop) (f g : A -> B -> A) l a :
  P a -> Forall Q l -> (forall a b, P a -> Q b -> f a b = g a b /\ P (g a b)) ->
  fold_left f l a = fold_left g l a /\ P (fold_left g l a).
Proof.
  intros Ha Hl Hf. revert a Ha. induction Hl as [|b l Hb _ IH]; intros a Ha; cbn [fold_left]; [done|].
  destruct (Hf a b Ha Hb) as [-> ?]. by apply IH.
Qed.

Lemma sigma_rows r : (r < 12)%nat -> nth r blake2b_sigma [] = nth (r mod 10) Rfc7693.SIGMA [].
Proof. intros Hr. do 12 (destruct r as [|r]; [reflexivity|]). lia. Qed.

#[local] Opaque ROUND Rfc7693.round.

Lemma rounds_spec m v : length v = 16%nat ->
  let w := fold_left (fun v r => Rfc7693.round m (nth (r mod 10) Rfc7693.SIGMA []) v) (seq 0 12) v in
  fold_left (fun v r => ROUND m r v) (seq 0 12) v = w /\ length w = 16%nat.
Proof.
  intros Hv. apply (fold_left_ext (fun v : list Z => length v = 16%nat) (fun r => r < 12)%nat); [exact Hv| |].
  - apply Forall_forall. intros r Hr. apply in_seq in Hr. lia.
  - intros u r Hu Hr. rewrite (ROUND_round m r u Hu), (sigma_rows r Hr). split; [reflexivity|]. by apply round_length.
Qed.

Lemma word_seq (h : list Z) : map (word h) (seq 0 (length h)) = h.
Proof.
  apply list_eq. intros i. rewrite list_lookup_fmap. destruct (decide (i < length h)%nat) as [Hi|Hi].
  - rewrite lookup_seq_lt by done. cbn. destruct (lookup_lt_is_Some_2 h i Hi) as [x E]. unfold word. by rewrite nth_lookup, E.
  - rewrite lookup_seq_ge by lia. cbn. by rewrite lookup_ge_None_2 by lia.
Qed.

(** What the counter and the flag words of a context stand for. *)
Record framed (ctx : blake2b_ctx) (t : Z) (last : bool) : Prop := {
  fr_h : length (b_h ctx) = 8%nat;
  fr_t0 : b_t0 ctx = u64 t;
  fr_t1 : b_t1 ctx = u64 (t / 2 ^ 64);
  fr_f0 : b_f0 ctx = if last then u64 (-1) else 0;
  fr_f1 : b_f1 ctx = 0 }.

Lemma compress_F ctx t last block :
  framed ctx t last -> b_h (blake2b_compress ctx block) = Rfc7693.F (b_h ctx) block t last.
Proof.
  intros [Hh T0 T1 F0 F1]. unfold blake2b_compress, Rfc7693.F. cbn [b_h]. rewrite T0, T1, F0, F1.
  rewrite <- Hh, word_seq. rewrite Hh. change (load_words 16 block) with (Rfc7693.le_words 16 block).
  set (v := b_h ctx ++ zip_with _ _ _).
  match goal with |- context [b_h ctx ++ ?l] => replace (b_h ctx ++ l) with v by (unfold v; by destruct last) end.
  assert (length v = 16%nat) as Lv by (unfold v; rewrite length_app, Hh; done). clearbody v.
  destruct (rounds_spec (Rfc7693.le_words 16 block) v Lv) as [-> L].
  set (w := fold_left _ _ _) in *. clearbody w.
  do 16 (destruct w as [|? w]; [done|]). destruct w; [|done].
  revert Hh. generalize (b_h ctx). intros h Hh. do 8 (destruct h as [|? h]; [done|]). by destruct h.
Qed.

Lemma F_length h block t last : length h = 8%nat -> length (Rfc7693.F h block t last) = 8%nat.
Proof.
  intros Hh. pose (ctx := mk_blake2b h (u64 t) (u64 (t / 2 ^ 64)) (if last then u64 (-1) else 0) 0 [] 0 0).
  change h with (b_h ctx). rewrite <- (compress_F ctx t last block) by (by split). cbn [blake2b_compress b_h]. by rewrite length_map, length_seq.
Qed.

(** The two words count as one 128-bit number. *)
Lemma increment_framed ctx t last inc : framed ctx t last -> 0 <= inc < 2 ^ 64 ->
  framed (blake2b_increment_counter ctx inc) (t + inc) last.
Proof.
  intros [Hh T0 T1 F0 F1] Hi. split; cbn [blake2b_increment_counter set_counter b_h b_t0 b_t1 b_f0 b_f1]; try done.
  - by rewrite T0, u64_add.
  - rewrite T0, T1, !u64_add. f_equal. unfold wrap. destruct (Z.ltb_spec ((t + inc) mod 2 ^ 64) inc); zdm.
Qed.

(** *** What a context has absorbed *)

Section Absorb.
Variables (h0 : list Z) (nn : Z).
Hypothesis Hh0 : length h0 = 8%nat.

Lemma blocks_length data n : length (Rfc7693.blocks h0 data n) = 8%nat.
Proof. induction n as [|n IH]; cbn [Rfc7693.blocks]; [done|]. by apply F_length. Qed.

Lemma blocks_app a b n : (128 * n <= length a)%nat -> Rfc7693.blocks h0 (a ++ b) n = Rfc7693.blocks h0 a n.
Proof.
  induction n as [|n IH]; intros Hn; cbn [Rfc7693.blocks]; [done|]. rewrite IH by lia.
  by rewrite drop_app_le, take_app_le by (rewrite ?length_drop; lia).
Qed.

(** [n] blocks of [m] are compressed and the buffer is not in use. *)
Record compressed (ctx : blake2b_ctx) (m : list Z) (n : nat) : Prop := {
  cp_h : b_h ctx = Rfc7693.blocks h0 m n;
  cp_frame : framed ctx (128 * Z.of_nat n) false;
  cp_buf : length (b_buf ctx) = 128%nat;
  cp_outlen : b_outlen ctx = nn }.

(** Besides, the buffer holds the rest: at most one block, and a message that is not
    empty keeps its last block there. *)
Record absorbed (ctx : blake2b_ctx) (m : list Z) : Prop := {
  ab_compressed : compressed ctx m (Rfc7693.full_blocks m);
  ab_buflen : b_buflen ctx = (length m - 128 * Rfc7693.full_blocks m)%nat;
  ab_buf : take (b_buflen ctx) (b_buf ctx) = drop (128 * Rfc7693.full_blocks m) m }.

Lemma compress_step ctx m n block :
  compressed ctx m n -> block = take 128 (drop (128 * n) m) ->
  compressed (blake2b_compress (blake2b_increment_counter ctx 128) block) m (S n).
Proof.
  intros [Hh Hf Hb Ho] ->. pose proof (increment_framed ctx _ _ 128 Hf ltac:(lia)) as Hf'.
  pose proof (compress_F _ _ _ (take 128 (drop (128 * n) m)) Hf') as E.
  replace (128 * Z.of_nat n + 128) with (128 * (Z.of_nat n + 1)) in E, Hf' by lia.
  split; [|split|done..].
  - rewrite E. cbn [blake2b_increment_counter set_counter b_h]. by rewrite Hh.
  - rewrite E. apply F_length, Hf'.
  - cbn [blake2b_compress b_t0]. rewrite (fr_t0 _ _ _ Hf'). f_equal. lia.
  - cbn [blake2b_compress b_t1]. rewrite (fr_t1 _ _ _ Hf'). do 2 f_equal. lia.
  - apply Hf'.
  - apply Hf'.
Qed.

Lemma update_blocks_spec fuel ctx m n :
  compressed ctx m n -> (128 * n < length m)%nat -> (length m < 128 * (n + fuel))%nat ->
  exists ctx', update_blocks fuel ctx (drop (128 * n) m) = (ctx', drop (128 * Rfc7693.full_blocks m) m) /\
    compressed ctx' m (Rfc7693.full_blocks m) /\ b_buflen ctx' = b_buflen ctx /\ b_buf ctx' = b_buf ctx.
Proof.
  revert ctx n. induction fuel as [|fuel IH]; intros ctx n Hc Hn Hf; cbn [update_blocks].
  - lia.
  - rewrite length_drop. change BLAKE2B_BLOCKBYTES with 128%nat. destruct (Nat.ltb_spec 128 (length m - 128 * n)) as [Hl|Hl].
    + rewrite drop_drop. replace (128 * n + 128)%nat with (128 * S n)%nat by lia.
      edestruct (IH _ (S n) (compress_step ctx m n _ Hc eq_refl)) as (ctx' & E & Hc' & Hl' & Hb'); [lia..|].
      exists ctx'. split_and!; [exact E|exact Hc'|exact Hl'|exact Hb'].
    + assert (Rfc7693.full_blocks m = n) as -> by (unfold Rfc7693.full_blocks; ndm). by exists ctx.
Qed.

Lemma compressed_app ctx m n data : compressed ctx m n -> (128 * n <= length m)%nat -> compressed ctx (m ++ data) n.
Proof. intros [Hh Hf Hb Ho] Hn. split; [|done..]. by rewrite blocks_app. Qed.

Lemma update_absorbed ctx m data : absorbed ctx m -> absorbed (blake2b_update ctx data) (m ++ data).
Proof.
  intros [Hc Hl Hb]. unfold blake2b_update. destruct (Nat.eqb_spec (length data) 0) as [Hd|Hd].
  { destruct data; [|done]. by rewrite app_nil_r. }
  change BLAKE2B_BLOCKBYTES with 128%nat. set (n := Rfc7693.full_blocks m) in *.
  assert (128 * n <= length m /\ length m - 128 * n <= 128)%nat as [Hn Hn'] by (unfold n, Rfc7693.full_blocks; ndm).
  destruct Hc as [Ch Cf Cb Co] eqn:Ec. clear Ec. destruct (Nat.ltb_spec (128 - b_buflen ctx) (length data)) as [Hf|Hf].
  - set (k := (128 - b_buflen ctx)%nat). set (ctx1 := set_buffer _ _ _).
    assert (b_buf ctx1 = take 128 (drop (128 * n) (m ++ data))) as Eb.
    { cbn [ctx1 set_buffer b_buf]. rewrite drop_app_le, take_app_ge by (rewrite ?length_drop; lia).
      rewrite length_drop, <- Hb, <- Hl. fold k.
      rewrite <- (take_ge (memcpy_at _ _ _) (b_buflen ctx + length (take k data))).
      - apply memcpy_at_take. rewrite length_take. lia.
      - rewrite memcpy_at_length; rewrite length_take; lia. }
    assert (compressed ctx1 (m ++ data) n) as C1.
    { split; cbn [ctx1 set_buffer b_h b_outlen]; [by rewrite blocks_app|by destruct Cf; split| |done].
      rewrite Eb, length_take, length_drop, length_app. lia. }
    pose proof (compress_step ctx1 (m ++ data) n _ C1 Eb) as C2.
    assert (drop k data = drop (128 * S n) (m ++ data)) as ->.
    { rewrite drop_app_ge by lia. f_equal. unfold k. lia. }
    change (b_buf (blake2b_increment_counter ctx1 (Z.of_nat 128))) with (b_buf ctx1). change (Z.of_nat 128) with 128.
    edestruct (update_blocks_spec (length data) _ _ _ C2) as (ctx' & -> & C' & L' & B'); [rewrite length_app; lia..|].
    change (b_buflen ctx' = 0%nat) in L'. rewrite L'.
    set (N := Rfc7693.full_blocks (m ++ data)) in *. destruct C' as [C'h C'f C'b C'o].
    assert (length (m ++ data) - 128 * N <= 128)%nat as HN by (unfold N, Rfc7693.full_blocks; rewrite length_app; ndm).
    split; [split|..]; cbn [set_buffer b_h b_outlen b_buflen b_buf]; try done.
    + by destruct C'f; split.
    + rewrite memcpy_at_length; [done|]. rewrite length_drop. lia.
    + by rewrite length_drop.
    + apply (memcpy_at_take _ 0). rewrite length_drop. lia.
  - assert (Rfc7693.full_blocks (m ++ data) = n) as En.
    { unfold n, Rfc7693.full_blocks in *. rewrite length_app. ndm. }
    split; rewrite ?En; cbn [set_buffer b_buflen b_buf].
    + split; cbn [set_buffer b_h b_outlen b_buf]; [by rewrite blocks_app|by destruct Cf; split| |done].
      rewrite memcpy_at_length; [done|lia].
    + rewrite length_app. lia.
    + rewrite memcpy_at_take, Hb, drop_app_le by lia. done.
Qed.

Lemma updates_absorbed ctx m chunks : absorbed ctx m -> absorbed (foldl blake2b_update ctx chunks) (m ++ concat chunks).
Proof.
  revert ctx m. induction chunks as [|c l IH]; intros ctx m Ha; cbn [foldl concat]; [by rewrite app_nil_r|].
  rewrite app_assoc. by apply IH, update_absorbed.
Qed.

Lemma final_spec ctx m outlen : absorbed ctx m -> 0 <= nn <= 64 -> nn <= outlen ->
  blake2b_final ctx outlen = Some (Some (take (Z.to_nat nn) (concat (map (digits_of 8 8) (Rfc7693.finish h0 m))))).
Proof.
  intros [[Ch Cf Cb Co] Hl Hb] Hnn Ho. unfold blake2b_final. rewrite Co. rewrite (proj2 (Z.ltb_ge _ _) Ho).
  change BLAKE2B_BLOCKBYTES with 128%nat. set (n := Rfc7693.full_blocks m) in *.
  assert (128 * n <= length m /\ length m - 128 * n <= 128)%nat as [Hn Hn'] by (unfold n, Rfc7693.full_blocks; ndm).
  pose proof (increment_framed ctx _ _ (Z.of_nat (b_buflen ctx)) Cf ltac:(lia)) as Hf.
  replace (128 * Z.of_nat n + Z.of_nat (b_buflen ctx)) with (Z.of_nat (length m)) in Hf by lia.
  set (ctx1 := set_buffer _ _ _). assert (framed ctx1 (Z.of_nat (length m)) true) as Hf1 by (by destruct Hf; split).
  assert (b_buf ctx1 = Rfc7693.pad (drop (128 * n) m)) as Eb.
  { cbn [ctx1 set_buffer b_buf blake2b_increment_counter set_counter b_buflen set_last]. unfold Rfc7693.pad. rewrite <- Hb at 1.
    replace (length (drop (128 * n) m)) with (b_buflen ctx) by (rewrite length_drop; lia).
    rewrite <- memcpy_at_take by (rewrite length_replicate; lia). symmetry. apply take_ge.
    rewrite memcpy_at_length; rewrite length_replicate; lia. }
  assert (forall c b, b_outlen (blake2b_compress c b) = b_outlen c) as -> by done.
  change (b_outlen ctx1) with (b_outlen ctx). rewrite Co. rewrite (proj2 (Z.ltb_ge BLAKE2B_OUTBYTES nn)) by (unfold BLAKE2B_OUTBYTES; lia).
  rewrite Eb, (compress_F ctx1 _ _ _ Hf1). change (b_h ctx1) with (b_h ctx). rewrite Ch. fold (Rfc7693.finish h0 m).
  assert (length (Rfc7693.finish h0 m) = 8%nat) as L by (apply F_length, blocks_length).
  pose proof (word_seq (Rfc7693.finish h0 m)) as W. rewrite L in W. rewrite <- W. by rewrite map_map.
Qed.

End Absorb.

Lemma init_param_absorbed outlen keylen salt personal : 0 <= outlen < 256 -> 0 <= keylen < 256 ->
  absorbed (zip_with Z.lxor blake2b_IV (Rfc7693.le_words 8 (Rfc7693.parameters outlen keylen salt personal))) outlen
    (blake2b_init_param (sequential_param outlen keylen salt personal)) [].
Proof. intros Ho Hk. unfold sequential_param. rewrite !wrap_id by done. by repeat split. Qed.

Lemma init_salt_personal_spec outlen key salt personal :
  0 <= outlen <= 64 -> (length (default [] key) <= 64)%nat ->
  exists ctx, blake2b_init_salt_personal outlen key salt personal = Some ctx /\
    absorbed (Rfc7693.initial outlen (default [] key) (default (replicate 16 0) salt) (default (replicate 16 0) personal)) outlen ctx
      (Rfc7693.with_key (default [] key) []).
Proof.
  intros Ho Hk. unfold blake2b_init_salt_personal, Rfc7693.initial. set (sl := default _ salt). set (pe := default _ personal).
  pose proof (init_param_absorbed outlen (Z.of_nat (length (default [] key))) sl pe ltac:(lia) ltac:(lia)) as A.
  destruct key as [[|x k]|]; cbn [from_option id] in *; [by eexists| |by eexists].
  rewrite (proj2 (Z.ltb_lt 0 _)) by (cbn [length]; lia). rewrite (proj2 (Z.ltb_ge (Z.of_nat BLAKE2B_BLOCKBYTES) _)) by (unfold BLAKE2B_BLOCKBYTES; lia).
  eexists. split; [reflexivity|]. unfold Rfc7693.with_key. rewrite app_nil_r.
  assert (key_block (x :: k) = Rfc7693.pad (x :: k)) as <-.
  { unfold key_block, memcpy_at, Rfc7693.pad. cbn [take app]. f_equal. cbn [plus]. by rewrite drop_replicate. }
  by refine (update_absorbed _ _ _ _ [] _ A).
Qed.

(** The one-shot function initialises as [blake2b_init_salt_personal] does. *)
Lemma blake2b_oneshot outlen data key : 1 <= outlen <= 64 -> (length (default [] key) <= 64)%nat ->
  exists ctx, blake2b_init_salt_personal outlen key None None = Some ctx /\
    blake2b outlen data key = blake2b_final (blake2b_update ctx data) outlen.
Proof.
  intros Ho Hk. unfold blake2b, blake2b_init_key, blake2b_init, blake2b_init_salt_personal.
  rewrite (proj2 (Z.eqb_neq outlen 0)), (proj2 (Z.ltb_ge BLAKE2B_OUTBYTES outlen)) by (unfold BLAKE2B_OUTBYTES; lia). cbn [orb].
  destruct key as [[|x k]|]; cbn [from_option id] in *; [by eexists| |by eexists].
  rewrite (proj2 (Z.ltb_lt 0 _)), (proj2 (Z.eqb_neq _ 0)) by (cbn [length]; lia).
  rewrite (proj2 (Z.ltb_ge BLAKE2B_KEYBYTES _)), (proj2 (Z.ltb_ge (Z.of_nat BLAKE2B_BLOCKBYTES) _)) by (unfold BLAKE2B_KEYBYTES, BLAKE2B_BLOCKBYTES; lia).
  by eexists.
Qed.

Lemma finish_length h data : length h = 8%nat -> length (concat (map (digits_of 8 8) (Rfc7693.finish h data))) = 64%nat.
Proof.
  intros Hh. assert (length (Rfc7693.finish h data) = 8%nat) as L by (by apply F_length, blocks_length).
  revert L. generalize (Rfc7693.finish h data). intros l L. do 8 (destruct l as [|? l]; [done|]). destruct l; [|done]. done.
Qed.

(** C13: BLAKE2b as implemented (buffered, with a two-word counter) is the function of
    RFC 7693 on a little-endian host. For a digest of 1 to 64 bytes and a key of at most
    64, with any salt and personalisation, the context is initialised, and however the
    message is cut into updates, finalising into a buffer that is large enough writes
    exactly the [outlen] bytes of the RFC's digest of the concatenation, the key block
    first; a buffer that is too small is refused. The one-shot function returns the same
    digest, and refuses a digest length outside 1 to 64. *)
Theorem blake2b_digests (outlen n : Z) (key salt personal : option (list Z)) (chunks : list (list Z)) :
  1 <= outlen <= 64 -> (length (default [] key) <= 64)%nat ->
  let zeros := replicate 16 0 in
  let d := Rfc7693.digest outlen (default [] key) (default zeros salt) (default zeros personal) (concat chunks) in
  Z.of_nat (length d) = outlen /\
  (exists ctx, blake2b_init_salt_personal outlen key salt personal = Some ctx /\
     blake2b_final (foldl blake2b_update ctx chunks) n = Some (if n <? outlen then None else Some d)) /\
  blake2b outlen (concat chunks) key =
    Some (Some (Rfc7693.digest outlen (default [] key) zeros zeros (concat chunks))) /\
  (forall bad, bad = 0 \/ 64 < bad -> blake2b bad (concat chunks) key = Some None).
Proof.
  intros Ho Hk zeros d.
  assert (forall sl pe data, length (zip_with Z.lxor blake2b_IV (Rfc7693.le_words 8 (Rfc7693.parameters outlen (Z.of_nat (length (default [] key))) sl pe))) = 8%nat
    /\ Rfc7693.with_key (default [] key) [] ++ data = Rfc7693.with_key (default [] key) data) as Aux.
  { intros sl pe data. split; [done|]. unfold Rfc7693.with_key. destruct (default [] key); [done|]. by rewrite app_nil_r. }
  split_and!.
  - unfold d, Rfc7693.digest. rewrite length_take, finish_length by done. lia.
  - destruct (init_salt_personal_spec outlen key salt personal ltac:(lia) Hk) as (ctx & E & A). exists ctx. split; [exact E|].
    apply (fun L => updates_absorbed _ _ L _ _ chunks) in A as A'; [|done]. rewrite (proj2 (Aux [] [] _)) in A'.
    destruct (Z.ltb_spec n outlen) as [Hn|Hn].
    + unfold blake2b_final. rewrite (cp_outlen _ _ _ _ _ (ab_compressed _ _ _ _ A')). by rewrite (proj2 (Z.ltb_lt _ _) Hn).
    + by rewrite (final_spec _ _ (proj1 (Aux _ _ [])) _ _ n A') by lia.
  - destruct (blake2b_oneshot outlen (concat chunks) key Ho Hk) as (ctx & E & ->).
    destruct (init_salt_personal_spec outlen key None None ltac:(lia) Hk) as (ctx' & E' & A). assert (ctx' = ctx) as -> by congruence.
    apply (fun L => update_absorbed _ _ L _ _ (concat chunks)) in A; [|done]. rewrite (proj2 (Aux [] [] _)) in A.
    by rewrite (final_spec _ _ (proj1 (Aux _ _ [])) _ _ outlen A) by lia.
  - intros bad Hb. unfold blake2b, blake2b_init_key, blake2b_init.
    assert ((bad =? 0) || (BLAKE2B_OUTBYTES <? bad) = true) as ->.
    { unfold BLAKE2B_OUTBYTES. apply orb_true_iff. rewrite Z.eqb_eq, Z.ltb_lt. lia. }
    destruct key as [k|]; [by destruct (0 <? _)|done].
Qed.

Lemma blake2b_digests_witness :
  blake2b 32 [1; 2; 3] (Some [7]) =
    Some (Some (Rfc7693.digest 32 [7] (replicate 16 0) (replicate 16 0) [1; 2; 3])).
Proof.
  destruct (blake2b_digests 32 32 (Some [7]) None None [[1; 2]; [3]]) as (_ & _ & E & _); [lia|cbn; lia|exact E].
Defined.

End Spec.
