(* ===== verification/OversizeTable.v ===== *)
(** * The oversize grandfather table

    The table of [core/consensus/src/oversize_grandfather_table.inc]: the
    canonical transactions above the size limit, each with its id and its exact
    size. An id is written as one hexadecimal number, its bytes in the order of
    the table. *)

From stdpp Require Import base list.
From Stdlib Require Import ZArith.
From S2P Require Import Prelude.

Definition OVERSIZE_GRANDFATHER_COUNT : nat := 413.

Definition oversize_entries : list (Z * Z) := [
  (0x006fc6c06900ab8ed6189372588f19056530672c8b2c1fa391418be99ea6c670, 395644);
  (0x008942e31978bb0d9a021cdb2949655eac102ef9a8aa289a1143152024b5ede1, 144476);
  (0x0097c756c2177308745cfe614bdd0d13dc24b1227410e674cc4599a723b1eee3, 125811);
  (0x01aa299b3de761e8bed98185a24eae55a1b3365c755202146222da100adc55e6, 148530);
  (0x024d754ca3dc420a96ab6ec6b802a358520aed016de716a3cc5e2a6bc1f2ff63, 436193);
  (0x0256e15cf6b299f6c1f911b07e77418d6b2327df4be9d26fa8a3208b9e4c998c, 140618);
  (0x03b4dd06fc8b3cfb06dce7630e556fb3bd99ab3043c87fdce9bf3374a7322a51, 318648);
  (0x040b04594e09db0e7649f082d1695ce14f36cbeba8c40ada44a07c387b375d6c, 264384);
  (0x04db04f97ba507f32abcf59906094b99853c7c309fbb8aabe35b712d7dcc41d6, 148509);
  (0x058187da184e2f2b7a2648624ba8b9d1a72ba0de52c4d6ebf880d726b76e590e, 458168);
  (0x05c19211c76303fe6dab390bc3d3ac56e89b6fc45e8a5be635bb3f06320a4ca0, 140853);
  (0x05e39a58c416ce3776037602d391c147eef4012bd752b224f369b19a87613c53, 148528);
  (0x0614252e77ec290508c1ed714125834908a09219976b0a1860391ac121977e5a, 203829);
  (0x0a670bb25353d3707e63c40a82d7506aed573bc2049085a15f496b9ff664e5d9, 138401);
  (0x0b965c167edb3e1ceaeaa976a3d56813a369489709e0d12e3b2ed71e39048afc, 148538);
  (0x0c0d467030bb10c91e7bd96b2bd67bdd1e914e98dda496913f18e3e7cf39a01b, 148550);
  (0x0c55879a5b95564f6935313dc93aed599117338f33b4bbbafeb525385f29ba7c, 148555);
  (0x0c7fac0f50b7ff2abb184b97418694264f61772a4d1d4a84d5fe5a4c549452f4, 135911);
  (0x0d0c70dc355205e84143cd98cd4a4c59ce379952a0b754438d8768a6dfe54a82, 148540);
  (0x0d51b5f2144caa8b4e49150882812b070003b71fe1e53314de11b4b527be006b, 947464);
  (0x0da39d612fcf924685982fb393125c2cd1e5afa1b493e2760356dcdd6fc001f1, 145038);
  (0x0ea38eeeac184dd1ec76f97965cd69ee35ec98b47b8e25cb98d04e365725111e, 1922197);
  (0x0ec0d2c251eccc3c68a6d7400074cc9518c1d78914a3971ec972ff43f267fcdb, 144898);
  (0x0f6e4669055674348a95b782c94df366cc4ad62eac515fb5d21367f0dcb07df0, 139719);
  (0x0fa4b0eb2123517f036f6dd271d2ea4df3c94fb47e331a7ba850707496a3989a, 715621);
  (0x0faf71e4cfd266955158173113bd6ae5b4cc9b65de952ca3bb50036e6b793b79, 699967);
  (0x1141d952f49453bfed0ba8abbc9d12c958894eceadb11b9aa11a7bf5e02f539e, 145077);
  (0x11836e9c40deec665f2d26783e1c3d9b8844535ba0006aa70bfb81dd2fdfe220, 103758);
  (0x1206107a43aa3f21492b4111df4f0f2efa8216dbca1a54cded81f66793fb4b1a, 1167253);
  (0x1232e6b29f00203817982bf00b9abe07f5022a7cfbb888efae244d479af7cde0, 148529);
  (0x128001c567186391dfcddbc8073a03fb3c4fd36756e2b9f32a28d9e02105d193, 148533);
  (0x1284980b46d0c081d8c2ccee887abc3f4a5e6ad667872325bd8af4b8e9eb238d, 218374);
  (0x12a8ad7c9b0a68b9cca85b13d7d60f452cf53385f7761702753db73580cf822e, 136794);
  (0x13d87c35bc7cc2ddd62e8f9a8474002aea913e2065eb26d1c3df81ff00fe3af6, 148545);
  (0x13e0f8aaaa6e96d3545fc5e0bf259af0ff21b48aa26d659a64c5fbb51ffabc95, 148552);
  (0x15eb7ec73c9225b647cd2964e619d6cac9a208826e7151d65be97fd5aa26d185, 148539);
  (0x16404ca21cb67d041722ebc6be0f2141aec6b4a240fad75c591e7c9648131771, 155069);
  (0x165c40661c5b8ead9c76dc2964d3996ab8def5f47e3da39d52254847e8223917, 148517);
  (0x182b1cf1da653b13f98f82ed2b17a67f14ebd27a1ac1cda4d43ef4d6cb9efb68, 140585);
  (0x1872876910bc67a93ac0c0ef6b5def0f7120fdb39905a27f884b087889306186, 247430);
  (0x18d3ffa5cab843f8651eb4833753cef1889bd00ddd5f56915c2099d8fb42afed, 182369);
  (0x191757819b0561f9071855c1630e963ac8392e66a81d559633864edefd445b32, 114216);
  (0x1996557022249256e0c6768364174b3f4e5496b5c54e31ad6a94b9f8929ebce3, 137669);
  (0x19d057b36c005309371a526d8a23952068840bf5ddce76ba0763ab5176e0a5f3, 143993);
  (0x1a70f74ef7b8e433ab9d7b442f34cf7709a637fd6e329c93cf0babf3e9f60408, 123094);
  (0x1b6e61f08c31112a3b8a174de4df72956324376941d2654e51bd7614b695acba, 223264);
  (0x1bff6594ee98a19484c174bfc5fb50cc6cec496f260f7050556f4142cbb02f86, 148522);
  (0x1c192453da351f5ecd5bcdf0a7abfdde031b5ee464a91cf7985caeb575b76a10, 143272);
  (0x1c3dfb4145e0613f3cd1791d33163c33c648f6f12f147c8c52ab1a8281d00342, 235311);
  (0x1c61f9aaf825467ece21e78d4bf0e599dbbe46ecb97dd1a70ae229ca6cff8467, 128670);
  (0x1c7da4a2ac6688b6645260752f0b4f6c31a58d14c3b161a44e8fc5a7587aa702, 181371);
  (0x1c84ff52f61812c74e548704d39e880cdb497e1d02070ff12c719202715acd40, 147692);
  (0x1ca5eec188a3d07ce4e2d07ac2873fb187f2170805d35adb14ff1a3b32901eb3, 146352);
  (0x1d608e33d39971cabb3874a65acfa7fcd27ecea68aefd321d2b3ecb9649bd0ef, 188114);
  (0x1d63213c06eff742387ce0cc3ac64a6b1bf864950f7000f9d3348d1c08b23df1, 122909);
  (0x1df06ba7174559c03fd05a4c2fabe42df721908ad5168463820ef0e959b51b76, 132724);
  (0x1e124a52fe42e5c5e36505ea35fc9bf958fb9a9a939b0479a49e0d0004454602, 148531);
  (0x1e5b775cafd59a714c797c7c4312f60bca21c239a91bd5f03f2c412e2710059d, 145770);
  (0x1e7290c72d37604be073c9de9996a9a5af1c46d1a68801dce109644f8573b804, 854927);
  (0x1ef29800d130763bd9e0c2e7f5356309a8b0b4748e9e7d471c73829ebc814101, 1500152);
  (0x205b16c341ea0be8dbb926c15ce10a036bd169029e0df0412060b852077b259d, 189932);
  (0x2106b71c97040aec8233a5d54ee44bb400fca340aef7d02692d05ae44a0c5a35, 1142706);
  (0x21f8dac43e9687af8e94f073777ae8c1dd369cb008043388cc5f37c648a4fccf, 301996);
  (0x236f487436a38f1604acfd3954e1ba96181837b03beecfe8a09ff478c354d4b6, 148549);
  (0x23d635c1ee7c5eef4ba42f8c38203a1bbe3eff5c0d88028ff95d69285482b834, 132351);
  (0x24ab6164db6e41a466847ee6d3107ea194c6d3894885296a74d5c9c4a9240c25, 1041386);
  (0x25bfa08ec62652c1e0fe2b8a4e39a89946e8a644b4c15700d5794e58bb76f794, 148509);
  (0x26366f96556a746ddac1a8cb6282e839b96755bed8be86c01ef0fdf6dc55901c, 148521);
  (0x26a3fd14552e25fc9bbd1ae772899134ce3303119b70f0e1b8ae6ee87d8638f2, 148527);
  (0x26d229de52f18cbed5ba37a37a741ad130b1069a1b884a117eb7f2a2e85887b5, 134567);
  (0x2771c50fb3622e758a31169c04083f6942d580e34ca6ca96e021ac8c220220b9, 148537);
  (0x27ac9e46e88f3fd89053d91ace46119ddbe1e89b2ebba67b50d85cb28cc48b45, 291055);
  (0x28578f95f621b4643b3535fb9d44b538e47cbf305662b77438a029d9e37f4ada, 243718);
  (0x28875274903bdb14eb530e6022fa7008ea3560e1602edee95b58616dbdf71e4e, 148541);
  (0x28d19481f55bee2927f9044e81ca62cdcd634a4cb176320bc70a08e70fd77f41, 169982);
  (0x28f18a1d54ef724c109576826c13a5433929cef9206bcaf66101fc502fef9a7e, 148516);
  (0x291318bd57a89e45cf251d10545d3739a8863ecdf9adf195994daa0fd475b911, 376453);
  (0x292cf44655b2d7e1905a672edc45da29bf1db0f4c27a6280797252f5bf09a971, 1447645);
  (0x298da6b57869d5a21f61d44ee616e5fb7948fddc8d3c3094e7fe319226f0b4e4, 148553);
  (0x29dbf75f7299383894054b5288e5970358eac7db6542daa1c25fb421bc4301e0, 162459);
  (0x2b6785243dac28521e5454ca91ff4dbc390d87c39a01c3cead894cb8dc9ba9ba, 148517);
  (0x2b90d3c8aa6fccbe7e1b10704fdf0127646101f6789c9f4b553c0c934d55a9cd, 148536);
  (0x2e63a56fa68fdaff33eda1dba784b4c3ef50de830afe6495ee9112eb5336a1f5, 1428451);
  (0x30ebd8f3c70da89b8450fddd01460ee289d5c1fe51c55fd473fd6022b6ec855f, 477373);
  (0x3369c45fa77fc6697ce1fe0108c8f2714aac7eb0860db27113a65a534bc9406b, 117791);
  (0x36963df53bb4ba941fa399348bb7daca3a924c53c2016afa8f2c15d8c3b3155c, 674336);
  (0x36acd2150da49c58b8618ae8bb0aaf84cf3318e2711394a8e87d9c74e4cc0952, 137962);
  (0x36d8aa5b4baaf72a65747e070ca7b9aeff3acc283a99c69b9d5462ac471aca3a, 140038);
  (0x36e58c54b6a655c16e507d57f2c3e26c90883b14a0385085ec04c3b05247cfd5, 143424);
  (0x390c2da4bff63474da6509597203772330cc96931c536484a46e156aabb35f38, 136543);
  (0x39e3f2b9b4737a5eb557c7f036fd1894ce64e7e7d70df9396fb3d29ff33b6e1e, 1036468);
  (0x3a0bf45cc59679cd5631dbc7aff3462c9da3ab66504ebb92046388b51e132469, 148518);
  (0x3b260c631e263234f75fc7d64691a9c96e9010c3794a8142405fb4db3a1160df, 557917);
  (0x3c198f252346d570fd556a298107e63c2bf6adaa01e91af8e16fe566951e0188, 108981);
  (0x3cf3ecabb26204dac640968e713b23243474273c39dee9d7059b06d0aece269c, 215135);
  (0x3d3db425623a7eb9759a26b95efa88737ceb38b6a29137a3cc3aa6d84e3c1f4f, 140916);
  (0x3d8a159fa88299e9b60c3b5234211cbfe15498aa9e64cf4d44fa90e6c44f386a, 140181);
  (0x3d95744f255609f0dc1010efe9e5736411874aadbbccf07dcdf84e1cd51a05bd, 235701);
  (0x3dd3acab379d470024064d66fa38379fae7a096ba135ed237e81eb2d586c3183, 279149);
  (0x3deebe26c64d6eba7eeb7f100a420ce471522fdbcfef7a183a0839f4a2466210, 147284);
  (0x3f167fdeb62b049a72b499a342427b9051f4104d8db57b1dd24c97d93cec0277, 150368);
  (0x3fbca9ed9c633f75c1d48f3a66b8e3a082c5cd578b84e688e510c1053f7dc48a, 599468);
  (0x4108becff5d97a1af11ceea65aa21642a936a4943f1cc915dc98db7250b025ae, 523238);
  (0x44c1e165eba74fa55db6946a6a7e7e2d384858995253a0a64d67014cf78919f4, 553582);
  (0x45b8edb46d511d33fd384267abfcab045f914234b711b1b51543068711e7bf92, 139004);
  (0x45f8729fcb5dc316faaa1f5e8a788975babe133ff6a426f0c9dca9e233608ea6, 113776);
  (0x4634677996bd3b2baeffdf736880b6ced38c10ec05a3abbc2357da87a012f86d, 120804);
  (0x46ad4a42bc23256c780252713e5f8241a5bf99ca96bc19a77bfebe2ff04f9835, 148537);
  (0x46d20d18cbedf106c93121ad22163f9b960c5cf05290d548359c205ffff17553, 148499);
  (0x4786813199b57f426a47de74a21371d5feab4550051ee2c22262c732656a6007, 144612);
  (0x47f9757613f5fb0ccf4b0ad184fb2ebae2eae874755dc3bf144e804d7da2a727, 141048);
  (0x4b1a2259173d72caaa2add77c94d1b9ab0bbbe41e42bcd95911bea1976fcd987, 161910);
  (0x4bbb7683d604206962bcd5a65a34e82ee1d8548e1fcc0c4a77f9807cf4585557, 152101);
  (0x4bd6e0a319d15a74f046033a5a6ee2b8f4bd5a169a7c5168993f24d3b46c164a, 651417);
  (0x4bdea843e49bfe8658babb3db3f85d379368fbd5bb7f6827edb4be739b33fefa, 120285);
  (0x4c1aa2879cc639e121512d578be109455f2bce4d4c132ed650c615814866d36a, 194794);
  (0x4c697ee98d12315a16600a1eb6cbe2485d47f6d0033508780e5177ce2f9dd573, 267354);
  (0x4c75e6be4da5b31816fd211d07b81222702aabfc4a2b1c737dbe35ff567ee5cd, 385462);
  (0x4c80344ce336c5c1bf45a1aae43c78c13558b29d94b6aa9b193fa887d434c944, 148549);
  (0x4c91c593b21e0c305f93397a8f70f535d0591f223defd796a4771f4c3cec3fc0, 696081);
  (0x4d11f101e00b5b20fb4d5651df280bba77b9884109357ac477a346702d6b0bd3, 139576);
  (0x4d4419afc2b02e32b749b8050a64133814272851dc0c270fe5601299c9049e9a, 709991);
  (0x4d81fe894688aeaefb161694b64c4764c58105c39f71c8647dfc5199cd851514, 148564);
  (0x4e0d7c874ad254af2a55c79935770b2cc691e9cfcefdc167645f89bfa59d47b5, 113589);
  (0x4e5709aa06108d778fa888f779ae167649b54a9823f5b7773f8852a889e58225, 148536);
  (0x4e89a5dce77a80a516ea8faf6e80b089739d27cddeaf6bad681d00ea39aed00a, 285924);
  (0x4ea6eedcf394556299e86c8a61f157d1125e98dc93228800ce3ad5e4d78ebfe1, 920994);
  (0x5079f4a5b9ccc58bf0f747145f6ffc0513be0985a9bf0f435ecb14eb87f7c935, 148547);
  (0x50f122af5e4ca2746cfe8f21014485e1f50450183ff714be5c94c02a00095470, 251969);
  (0x51cbb7d5619a43d71de1b01591296a8317ef63b2ae1fe55258695fb0cb0fa1fa, 314535);
  (0x5285977066058f3e4e1842bdf86807b6984af59b668f2efd9ab74141cc259e12, 147404);
  (0x52c1d8511548568759e4a28228360e0393848c7a525510f5dc4084a1ad0547e8, 112766);
  (0x52ec174451a20c128674b1d4cf24c6fe46bbe1b7c732742f351844b6e69a0f4b, 147091);
  (0x53f9e16ee63cbd0a65e4a596c2c0880b6f0a2f717eb89b5b574468015e51379f, 180636);
  (0x545d5a4f9428ec9652fce36220b8c1677e551eb5bd13bc3a605b251d0db128d5, 148533);
  (0x54934acc9b576b1f605ad94511b4a13daee3406537942232f9f7f6222db0cefe, 168225);
  (0x562f8f1e9b2861933fea9ded2b573c65cd789b42be73c375fdcb1b14e1e9b23a, 138704);
  (0x563793234be9c38228c20c29219159af154789f7c805c81f258066d8ac88008e, 747651);
  (0x57197c67467572b386309eb197b0f55d15689a49f960d898d5af7dd39237e9f4, 337538);
  (0x57c92c8abf3d3986f1b35611756db86ce2a744ba9a935dd2ef8f036b5403d7dd, 147109);
  (0x57d9aab35de409a1e1920f235fb89244c2f3798a40a88c529da4712cbeb35a11, 148552);
  (0x580e8ed7b611f27ad32119f8d4b87512c5a34f6b1f5a0bd94920b5656f7fe8b8, 266501);
  (0x58ba1f7bf0fa64d77e605a817f92c42056df6e3edbacc8947e703b109248e314, 148560);
  (0x58e637b285bc89c628a51080ce06ca530929c50c45fd8607733a5505c4547241, 146662);
  (0x5a4a4ba1655cfbddbc4a2c09f0ff63caaa7c4e984599330f8f405c410cbbd32b, 143888);
  (0x5a4e95a502bb4e2018946338cd96f038844592cd319efee74023d88a9f8dbaa3, 142696);
  (0x5aeb040c8e1b440b0b1177a79750ddad13bced7726f681205e651a81c7d9e07c, 225310);
  (0x5bfafded4e0d30e399e25aa0ca2b6e0f15506815e08ff0a64bbdc3126bb2be60, 1322207);
  (0x5bfed5494a8023e5ca2820c9dc350f2628927aaf75609fe7c7ea5e8b7d3e34f5, 122415);
  (0x5c3a924cf4e703db0d173fe7e3c4401c2581a5382a52570ed1c674961081d764, 148514);
  (0x5df9e37afb9403c7206091c51d718ee291be420474801138d5218017e6b24a20, 949667);
  (0x5e153c72b4c1adf981493136cbc699a45ad836de70c792dc8bf3dc7d679a6bdf, 116277);
  (0x5eaddf7ca96bbf6eff54475c6f01307b3badd52955ef1ed2b72859cfbe4f34aa, 1159147);
  (0x5edaf278c76db2777dd43a58ab6a1067aac97ba02fa36848c3f212d547e109e3, 148550);
  (0x5f0aa247c6dc783192e22f443e71b1e269c693d28c74860cdc68e7145e4bc7e5, 132062);
  (0x5f5444e5022f245c158c8b8bf8d2fc42f20171dd629718b1021a85672b7b46f8, 148555);
  (0x61923dcee9feb92c04948fc3994758a69ffd05ae1cfd1d33e1a26ff1af05183b, 143688);
  (0x61b9444999b4c73c1bd81c67d7331a442641d81012ae127770a298f491a50c65, 148516);
  (0x61e594fc064dcfdc8e0de28bf2e29f340ed8f11bb4a8b2cdcb98cec9593c2ed3, 206136);
  (0x62581dd626b5d36d0594561ee9e717b183e5fcd4de103ab79e1bdd3d2f82fbca, 1275131);
  (0x629cac9a57e06507c352fe912348bdfe46eacd0c6972219ef2ddd085f347c8a2, 263190);
  (0x629d2bd0ae21d6760af59d4085db5303be9c0aec5011a5e4c3926c47e4b07114, 148532);
  (0x63c4e99cb5991f890dc4665c9be7f336ac17d3d9c4796e64a0f664580b3ac34d, 1007145);
  (0x63e24416ebf853a9bf7544bf0edfcf0d14033dcaab42f98b34d8f946a58efce9, 141667);
  (0x64ff58a9a550ee77c107728d638369b36a78284029935f9c96878f946fa40e34, 139457);
  (0x6565910c9e586dc18f0cb126e26dcec541c2fe1ae3eec0ff5fba48b036dc220a, 148535);
  (0x658b7d52b3f8209add264df60deb594ae5fdbb34d65346ca8ffcb31a5626f6a2, 234422);
  (0x672a13f4518ad0c4723231db6e265979b521f314a0084fb56019992c8fc72d41, 142825);
  (0x67dba929f5ac91b32570436ffcc92f4013c0ce192a46fbab084076f3c9bfd286, 885621);
  (0x69dac7ead284202bed3d4059be3daa85f562031d1ea1bec430e247f932917c3c, 148535);
  (0x6c1ed5ea1fab22d67fd5009c977a326d0421a78db40c33f981da8718637969af, 142248);
  (0x6ca8d616badb114e9761c664fcf570c85870e7cdf0a52d353ec8731672d8b111, 264935);
  (0x6cacd46bc018f3bc31ab4fb94ffd22f9fcbc0206388717e0709a5c4d7b7a0e00, 148554);
  (0x6df041550b8d634e4e8fbf632691c0bdc0a65385ff5de8cce9a8fa01fe4ceaa5, 739000);
  (0x6f76ac0639e5f4973d00253e347caf1b56104ec47f385b605800c22feafad6e1, 148558);
  (0x6fd4f88e4f7c16a53fbe0f18c7bc0352a5298a7f2f86d1d7b20b23f1bb416ed8, 140333);
  (0x707442b4dc35b5b0fecefd56f958dc2becf25b346cf27264e0ad4671d3596005, 148530);
  (0x715b342735f5f8923e4a4fd5d9acffd83c9bc5d0e106ac06a1054b41b598efff, 148540);
  (0x73e0dd31f1db7ce918bec2bcacd8ea9184244dab167e99edb884f1239c857f62, 139754);
  (0x744f4708943976d240e5b08d1514a775ce5ebc1881ba78ad77163b9b3fc29800, 139144);
  (0x74732302244d7baf09012488a56f2b761a052c7a10fdcd9edd326ed55f75811b, 148539);
  (0x74afc852f972d0e7ab75d1852eb260e3f93fdc278bd50b235e77eb89752a5379, 379114);
  (0x74c5e0a35792671f3b5d110471e0c98d1938197e7a7e967f0832f1d5ad9496f7, 225013);
  (0x7500f83b332c1228f26be5ae9093c1b02f064fee7be322be193e1f41b2c5444d, 119630);
  (0x75aec0c023943866edeaeba4155a34a627e64487e18cf9e67e11f1f005c2e53b, 269836);
  (0x7601bfa647707482b10f0cfabb0e91819767d0d4bbafe240e66f62bcf6a247d9, 148533);
  (0x761269a3a4e71bcc6a4c162842e86aaee352a7e5fefa870260f73702a48d8adc, 165736);
  (0x761ef4b236523a3c3f28791a0dada8656f5a4d09e0f63c010983701839702828, 148549);
  (0x769803d90d98383a5a98a0fea836a921cb44a151110ae05a12fe2bc35b618897, 274568);
  (0x76f1f57eeaa4724b6ce5cc3f184b002c17319ad0c1c64aee68653d98aeaa934a, 148530);
  (0x775c6628b9c6a630166ba27c36dc0bc50a81d68b63e1c755dd45f7fcfbc9ed64, 139317);
  (0x77cc2d3530a91fd24b5ef2d16d2708f07940dad037be0499d4a17cd9a8c9b576, 146824);
  (0x782128a1401d289916d9543320aa530ffb3626bcbc34bdc3e645b41abd5e989e, 246853);
  (0x78fdd3e22533f0eda29b7374e611afb311ae4855c514e0b769f6a792f74e7a4b, 113589);
  (0x7a26139993b0985a3f7a29f1533fbca32121d004af6b1512614734da5298c3ed, 258493);
  (0x7a9a6d5a203531d8e359606574b4886bb4c35d9abeba5a29dcb5e7d1dad4861c, 148546);
  (0x7bdbfd21c987b8e77ff7373ed26ae8aadf62941ddb962b535b7331ab6ca6df13, 740754);
  (0x7d040ae75eb462297bd57c0be114d34900afc56e4a7f8d5021a5a9c6a32fede1, 148540);
  (0x7d74987d71fe566411907426c9110cdc3576230c7e812021c9dbd74e1eaf48b9, 148523);
  (0x7e5137bce58f074cf2ed3e817000d3b15ff1b330e5a66dc796e5a614fcb0dcc3, 148542);
  (0x7f72415b1d727e982da31707c2824cacfc2964632bdb90f9e4cf742e098f7237, 541200);
  (0x807608d8fb63658210ffe9e1e46f8911e7d7ae1f0d3ffe2c0195f93b3b0408a3, 1189709);
  (0x80c99bf2d8c27eede002eb6acf88f8d01e0e936b5a94a5754ad582366e96792d, 348790);
  (0x82e63c7d8fac76c4695755e6a01906aa0a767e6ab2bf397b571a0a5e7e904643, 144943);
  (0x83d1b10dbc7b9a489fccaccd578e3346f49acf5b5a56cc96d94400dad64b6e44, 148540);
  (0x8455ef9658dce8ea4ef3a6d4b51efd9058e1fe783caefa2a4b1e24667eb167ae, 282518);
  (0x8473a6fccebacc9d6b4e759af05de006957e59ae743198bf5b65a2bcd19c9131, 177980);
  (0x84b8d4bba538ed54e39644d7452adb17912cbc7c460af28eaea39b64aeddfa69, 148519);
  (0x872bb61558c3cf69b4129bd7c96032de6c59691451b83bf5e68a4db07249f8aa, 145340);
  (0x885b99f158e44bed8a7bc6d40417d813fea5fdbbce8b917bb11102541a3bed8f, 104509);
  (0x88e2e3b2292df4b3c8502f936deed4fd3a72fc390fe68f1964ea08eb4ae39a4a, 148536);
  (0x88ec95f71b2fe5098c10507fe52fd31e35f5653edf74671870f1f8fb1f1f6ce9, 148551);
  (0x89bdeee2b3c04fdf4fed88d0b75ca89cbff4c9f02eeb3ad90e7d5e1f7f410376, 123678);
  (0x8a0a5f0e6be43e650719fbdf2ced63ece23b6fa1f1a864b30d3b92374f08f14c, 145202);
  (0x8a78c234f8497cfaaa9b6d2d274d8ac169694c93bc4cb5b753c48167720a5ac5, 148520);
  (0x8aa6cce21a411278cf92143718266ba6669673f53387dde46d12e4c7642266f0, 148541);
  (0x8aaa79e25182df03b9a8ff9961a8145cb1191b7595a361b2f860287d21879d6d, 439166);
  (0x8b12d207f64f068ae6d8c6702430e23a3047becf005a1f6408e30a9a620d518d, 113044);
  (0x8bab09e1482b24bb53c8c3805ffab21870312ef0fca7c41ac01a11ce5d081708, 148534);
  (0x8c35f9f5f544b200b66cdc071841023d6179f25be6da8f6828f5d9e9cbc7984e, 273555);
  (0x8c660ec613cd044a76fce1d20bd714da5bd1f51198a6d4420727d746e90dddbf, 148542);
  (0x8d589a51b368b9a20e1a3718db3608e90688129f942e6ff92e887b12ce8d2f54, 148567);
  (0x8e10e1c1bcd4553422c99a5c727ab449a5ad4f97bdf4085f5ed8bb3b78f52ef1, 148522);
  (0x8e31d6601cdaae035354869d90646cfe16646d7854d1b71168475484fcc62544, 148533);
  (0x8ec365ac5ed6a77adcd25afcf5a60b4388f47aa796394b746e9a6ff3079d7916, 148535);
  (0x8ecd896d2bf4c5da316544b6ed85f7e8a19f2933d3ef962898274f58247c8df7, 116863);
  (0x8f84a4bcb9cf0a7e40868ddd3ea8e4fd3607606a394973368b8e3d24af05fde2, 148516);
  (0x907d2a9c0c3a7a6b51d71a78220fd34a9695dec9625ddd2eae75a655fa1c631a, 133709);
  (0x933fd1d670a072b018b8c5881563474352d563a78dc013dac4e7ad40843564cf, 148518);
  (0x93402811eb91bc61ac0378468b0209355b715355d5129e1a525dc023ae301304, 148532);
  (0x937166378f2c2639bd0961640de9294192b3dc412b88e68237a86277e28fdf94, 148542);
  (0x9455f28b57aba17b323fe1d1bbb37f8c5c30745599649655915f664ec9cef102, 146084);
  (0x946e69d1ca94a592b3b57abdc5a03353848a9453986bd464c5c8fd4503e4aad3, 148539);
  (0x9585d34ae03b6c6cde9c6c224fb145c9482636025c145b4101aad761770e292c, 151599);
  (0x95ba3ca1092712741fda268fd6fdfd88fd93d99453f972ae5979129ea4ee15b1, 765239);
  (0x95d7dd6ac68fa8a6e522b3ad23d7e6ccf4fa3c4d361ebf20cc4b364ddbcdd1a7, 459264);
  (0x976008f1ed440d8e86dfae7cd986594c8e7294c9b1c313472fe4da4fd896089b, 148579);
  (0x97b7e6011d05645bce8011340a66cec580229f2dbb17f444b855ce6d43195301, 144282);
  (0x97d862ce416eebdaa6916e22d2b8d73adbb67c9988189f45d9b6831cdd345a3d, 312470);
  (0x9864eb8e71a86541d79d8100a45380fb208e5dbf1dc5d16bbc3977d0f8280a9f, 132800);
  (0x9914a3d72d58345cfbdafbd4eee894a15b654be72c9dfa766cc165af0e8f83a1, 136342);
  (0x994ee891409b2c9eca87113fd4222f869424893571a578177390afed4bf80a9e, 203597);
  (0x998a88f1028a88bbd00e5817d6d98d9ebef187c7026384cf5d1f710f25425427, 148528);
  (0x9aeff36e77f508e891e08bd4c634af6dafca7faf0e2e4b04ed52ed5e2e014088, 189176);
  (0x9b59ea5c7ba3828fb7f0843b84b98e0da0154667bef35af76a2ed67326b4e069, 284424);
  (0x9c152fa8d832cf43a68d42848defac8ea8dc19c6afec73d2c31c307a4349f063, 192238);
  (0x9cfb6e4dfc166683ab9fd912ad5e13b06d63d4c6cf9ef7e6d749e89b7bb8b064, 148546);
  (0x9dc92b1bcfbdd4b695b8c595869dccdb7de1db5958e51221a53f3c9bcc99f5ed, 148551);
  (0x9dcd4ac4d3d1c434db8ad82ce8be8687b06b100bacc8c90033f288ddee19d4bf, 148539);
  (0x9dfd4e802d91d1c1814c1adc872ee6cfcbe5da9494415b92f71ae09bb980fcaf, 148516);
  (0x9e47f0284a8914dc6b3876df09d7c0e5325903e1910d966739553f9e1845025f, 489464);
  (0x9eed80c93fbd09d093716010a07e0a512bc73c852ddaf8366114dc83e4fd09d5, 148500);
  (0x9f9c57b76c2c66828345e1a4db088e2f210b12d0540a887086cd353fb6f9a6d3, 146839);
  (0x9feba2d328da52a25a20e7a211490c47594b49e7a9aa8d2142019f4246e699bc, 129708);
  (0xa0cb5cf28f39b4ee7ae3ba0a4c9d617b3194bc4765cb7f16f3fa3018969b07fc, 158475);
  (0xa115db664bd74499ecb23fc5cda93e8e436bc47030462a0185b8aeab8af89be3, 807458);
  (0xa2085fa2845b606e86342d678b694a77f642682548824c1925682bc2f185b521, 150453);
  (0xa34996a0d8212d45ac1bb6f0c4f46a18d044a9e7ac39a31cc940808594a0b6a1, 148557);
  (0xa3b75b8664876ac209dc80ddb775b6881f53a13e3a3c3dc7ef0fcc325f9a2c4e, 294307);
  (0xa3cf576a5bb6e7cea82067a0dcb0f45fca1c3e61674ea969e7cbbbbc537858b4, 197754);
  (0xa48656703981ca892ee47a682218eb837bece7ef5ea589a2a4b6cf81ba3c3fe5, 413065);
  (0xa52e004c3b3b3fea439f60aa7020a283b2769050bd6288ff95d177956f861555, 125126);
  (0xa5b65cdd16ecfa8452d65e3b8a42ec855b5e430db17861377ab4221dee993bbb, 144923);
  (0xa62cffd303086c0812e28edc90e9e2401fc389314129fdfb365582bf9ac3bed9, 111274);
  (0xa70704de754cc11b9719c333a6ec1d1ee281108225f73adca0ec9d825a4049b2, 574543);
  (0xa73322ad70a902f74aded9039349f404852a174f491f4485c430dd86a7ef7b0e, 148531);
  (0xa83ec24b82bc2d696ab9fff3a732c062714bbbe7003dca1605b3928cc0dfc6eb, 121309);
  (0xa85217d118c0024606202908437e0d4d03a0091deccf844ff94a0dc62d92daac, 142526);
  (0xa86016c466598e3e29f5ee3630910aedfcee485ec5350ab4b44a38a7d0f7a81b, 142667);
  (0xa96e28b8f14efc5dda3f235472dbb97c779d4c9d21d5dc06cc64c6a63a3fc5e0, 134432);
  (0xa9a930bdc28cae13e74e9e150466571beded5c39e39c68fd63298c07661bc7be, 141498);
  (0xa9b74dcda8513c61f3cfff44a998ae2fd9aac72fc0abef264117483e04496f1b, 232561);
  (0xaa3f6f62dab820944bb8af009a049dbe3642ae54c53d3b260151b51d622bcc75, 204512);
  (0xad77bbd7f2220bc0663e19fa8451e5b17ab1fdcb6e48ad87033fea4d8b19084e, 152290);
  (0xae37793c38668d90f6f88d57777b498bcdffbb12c32810f0a9f8a95283686223, 148524);
  (0xae6db3c2f5e3c4beba6c6c0a9ff7bb0a25c33b9d6d9aff458df1766b1e445000, 1785675);
  (0xae723e223cd9696da6776905286524fa9f22b5661430a596e08c8c2b45a0d5b8, 148524);
  (0xaf0ac129384976fbc74dd67070425dd503180eb8d2a0a549b05b266aee2d2019, 148536);
  (0xaf1cd8e2d483a180ac72b47d7d498fc7ac496d4685d667e84a861f979f7271ef, 143875);
  (0xaf3cc457d23d628bcfcaa3955618cef5f930888ca0b60d8e615053e74d493bf7, 148502);
  (0xafb9861f1b17fea4b7bcd080efe5d92c5e8c1f657a78d340548d6a575236da63, 195935);
  (0xaffa9037f349ba41b7f028b62f20dc106e7b3ee8f942a209e22a34b14a3d4122, 140480);
  (0xb0672c8901a9e5cdedafd35fcf51f873af29f99895e40990aeb7417336ffcbe1, 342572);
  (0xb0911e39f944b99a791c65820c368449cf0def1b0450a1c76d730749c7aa265b, 328521);
  (0xb1bf4c75dd1db4a499c60fe038a6c920b4fabf1bf74813d29ce881f3a4ec4209, 173960);
  (0xb2aecc17705ed7a932bb17751ecc023c9044eda6dc7999585c518ba98ebe0d1b, 133126);
  (0xb30baebddccc996e016566ed2c5037e09045b686fca9fe199ed9b3639d7af4f5, 289138);
  (0xb336cedb4b57c3459bee42b7e1c152ffa32522b0b1800153bea24165455695a4, 148534);
  (0xb33875529d3065dec5fbd50e8039d81c966f224996b0833814097724e92968da, 439195);
  (0xb3f165205d05414deb5a4c78a09701a527611a05921dd5b267b83be340156156, 155961);
  (0xb42f182353b133896532b0ca758cd2f76bd9392eee1e94641465855c4dac32fb, 117341);
  (0xb4df9bef2d7a8800d9c2325a903894d88f2415bb73cb756d34673751ba7fc24d, 148542);
  (0xb5a135b2030d4c706553f06d5c5714d909adc8ce1cda1332a19b4f082d48497f, 176188);
  (0xb5cb497b810eb84c08354b593cdde2ab447fb6634aebfd0c88e2e6b19d5ac536, 120275);
  (0xb5f96f4e21beba544d8c492754b807b92b4974f355cec28ad95781b15774de8c, 148532);
  (0xb67a270e6fbb2684ace03a9373db5727b1e4baf712f77b81c946d12abd32f8d8, 209671);
  (0xb756d0e9890f9c46aa16cdc9611c65eab3cf55b7e1d48365e8d1af87fd5d066f, 127223);
  (0xb7781f4bd443ee5bb3b7d385e55d81587ea214493ac58a6bd32d7d741b2a52ae, 824228);
  (0xb91d8a5105911c76d0f5aac5d20aebc29c00a61c7dad19252542c68af4848de2, 108629);
  (0xb999c90952f54005be7ae420761aad439852f212b460d62bde33b533d5f43783, 145904);
  (0xb9acfb47ee7b69d5d50f90a0a3166f8829e8c1d781e433bb50c0305bf19f226d, 976585);
  (0xb9c8b12e3df85814f77737c2e73ef58d9d546103317ffcabaf7885f3b03e4be5, 148537);
  (0xb9fad6459033f713adbe54b7bd65fbe08b16710f88a673a578350c379233a416, 1313101);
  (0xba52ce421cd6f66a80918ff46d1be4be41e649fe1f5229f340719528cd35924a, 141955);
  (0xba723de6500de663fea7a70958746ed34afc0e6655c2c0b06e1517a7019da237, 916913);
  (0xbabeea604329c39d070784a58cfa97dc5a7c737317bcf24ccf344024f168b975, 148526);
  (0xbae45c897b2a1ab380739340f020e3bd6838f94f0e1b6919cd19afc3f81c77f1, 137225);
  (0xbae47f473c663db37a53806a8350366bee8791f881506f64d312c9b92c57a92f, 159093);
  (0xbc50ebb7078b6ed7f86b28c0fbc58b648c21c95e4d49a5c24dc3ae2d2f47ca22, 148558);
  (0xbc6c68873c1063a9072176b734834c00c749cafd20d615ea7eef044e29cc8acb, 131165);
  (0xbc82f1b11b99de4cbd41196e0c948f41dc2b3e42bbb82e10a9bb9368d93c65a7, 117438);
  (0xbdd0cda0bcc233f43e4d587334eb19f45c87079d90241e6376f73d65d3263208, 108485);
  (0xc097036bc34bea18b5fe245f4cc6a9beff01de4d5db684db011c84f5e0adefeb, 170283);
  (0xc0edd097eef5b80711cd987f8a582974015ebee19f37b770688849e8add05d27, 1248728);
  (0xc132089265244fef80494e55b877d9a1d4d45dab4f0ddd00fbaac7c327394cdd, 148525);
  (0xc44e85ba2ff64ad483d7c37832c5fdc8f740257514edc30ccbaa3aab1d39f4d3, 944630);
  (0xc52d8879d9a4c2375e05d7715258e5609e1f7d3fbd36beb5cdb015c57963446d, 292416);
  (0xc55264a8fa8cb2b87961b4a91c7f6b982a7fe0434ecdcdcb51aed8ed66251c04, 416274);
  (0xc5b9810e8bd92b3ea2f9599dfced0ebd5c69595b4619298b9186843fca0a195c, 145618);
  (0xc63c78ffbd45b642cc15e0bdc6c8f09ee43e7c1fe232f92c2b41c3e8f04ba5a6, 740125);
  (0xc71741fb691d7f83ffb9091830172c875ce60f0632ed393e25565872c54b793b, 128107);
  (0xc721ab7feccec8e932ace7cb58112558776171a8419bdd03b694490ceed82ee4, 135179);
  (0xc8490e9304311b847b6306e018a17fdf39721c90f745670a57ab7cf441c0c7a7, 400635);
  (0xc89210db8854ff9b7142ded061bf9f898f656817ee7f95392ce42b5945f269cd, 144169);
  (0xc9359415f329d7b0218baf544df84ae1d88043e94334a9d98abef030d4a66646, 114391);
  (0xc9a2555e9e201a34ea5b22d6996662f12b39b57ca7108a657b9c63b9546aeba9, 148548);
  (0xc9ebf55664ed0c4b67c8074991cd234c85ae2da934f31414b5221aa898a68da8, 211196);
  (0xcb1d4034901a731da425f2332933b835091f0fa0cd2cfbcecd39c40612397ab6, 148554);
  (0xcbdc2e5c3f21feb4bab869cb51c0f87730cc9d9a2b56ccb5d2e45884786fa219, 120431);
  (0xcd1fb8c58aaa436de0276f89ccc260f1138292c387104c8c7d0178a68ad1d346, 628100);
  (0xcd6e3e7c6251542c21039ba3a528531b9e65383f4d14ff9b4e3b29adb0d36bc0, 157038);
  (0xcd86eb806775fd6a038a5353f552dd8cc5422ffb89fbeb09f8a479cf5402f7f7, 148527);
  (0xcdce5bcd53f50d884f8e147f51aa6c529c773798e854c4b502851b6497e0fdda, 242997);
  (0xced6e9db83b2b787a1e9ecc770b51da09e7823ca38c61ad09a38a0f746d52b0c, 148547);
  (0xcf832cb1c8d73544530cc9c4a1f44492a1d590017863427c88c9c98a59c540a0, 153321);
  (0xcf86289813431ca71c70f2cd4a9274806ea4deb58b786d9b01156c7406de12c2, 148545);
  (0xd05bc32ef50342819e61e4f1c9b35344162741dd5214089611c85c4d41313552, 1237830);
  (0xd0dd29ed16ff5224c47f4c90d56897869d830f66f44578be7763c50c36d78789, 148520);
  (0xd1c162f8e6cbdb2fc81cae2c6e4d57c977aeecd03a22f67dc158896b5148b95b, 212182);
  (0xd1d526b93248f9ca97ebdb8e29806af82b35ce3ffed2d138c1ea709d00335639, 148525);
  (0xd26e9cc2cba75a81688a6c2adeff2c910fb9779f2faf6581686934529ad67f8e, 219221);
  (0xd2bd90078a5f2f47cf5f3d828ab8de453946753b9642349237ba4acd57a8189b, 288570);
  (0xd3a2d14fc47b419c9f20380cc39ef02f28f1781b8aa4f0bf197e59c9c3aeeb55, 521338);
  (0xd40561ecaa5cbfb9fc770e46eef71d9c2d662692527d8c0062071c2157e732dd, 145930);
  (0xd4d3f55696dcbc9af7be968695aefceba4bd2646a704b75f79eb575cb318de85, 135727);
  (0xd535f5d88f77592649bb19681ebecd199b4dde25df3eb15459831d297b85b9e7, 241827);
  (0xd549685aba0fd91f7fdcfb8dafb3715027e5a8f06767a4e15157c4a3d38adfe7, 253505);
  (0xd5613281d9b593b3001e65c149cd3b33bfa3bef0e9f46eb117dfe8fab3433c34, 126949);
  (0xd5c2af61f80f08e737fb4eb89522b9a7778b84f55362454d0e9a17b6e382c512, 224373);
  (0xd60d2b757a5447eb90bb0eb91a014e0ccab234d4e6b0f08bfc852ea59deae899, 117927);
  (0xd6a7be32f11365a06d867e5705479b74622aa4b8f2c69f3f3b2250f768f749b0, 148529);
  (0xd712a760c37ad04d10eb753d76775eb484de4825a79cf19410ef745604a1f013, 148533);
  (0xd80970c8769603d9a5a9b5a801656cd412f698d65e94600c65f7124858ba67e6, 276763);
  (0xd896f39ad8330340ca80ca134a4823a24e2b33617786ef9defc2eaf0b2f741c4, 117900);
  (0xd8f78718f6483202fe06ff04a79532f0cacbb7a5e0802b5b7a06f864fc0078e1, 148528);
  (0xd9370d945510653d13da28ec83035033a46a6ac13f89cf898a44d5a2e31cccca, 142140);
  (0xd9ad62241467b9cdc4f1994b0e2ea9341ac344e502063516fe93e55866166c95, 148528);
  (0xda5329b02000c22d90e0f59db8c4e6cf5124f7c6e191e3f94b010f986280d401, 116736);
  (0xda547523f87ef3096b84f726d64182b06ff373361d7fd9c6d6095573ccd0e4cb, 953288);
  (0xda71dc02ef028738264a6a2a076e15fe5fb2717a2d4ca20174777dbc491d4153, 148552);
  (0xda743eed85965adc3487f20c933ca0e1e3d7ba40860a3a7dc2c27e31433139c3, 862604);
  (0xda869ba753afc679597231123aa429b3f3b8f9ec5db33ff4ad54e2b26762a655, 112314);
  (0xda99bb04f9d970c1f43d80d74ff5a1c6b0761d5f8f11b2ed2b743c3f4e5c8114, 1401449);
  (0xdabab81b198be4dca5f52293ca301a3d8c9471e7516738ab04b5c988268dec49, 625747);
  (0xdb7e641ca7858d7ee5cbb80f2d6141b30d479077453d5f240dff348d511c20e3, 1363662);
  (0xdb8cbab720430602a9f03c14271e308d037e2c2320405860953bde42d1f23c8d, 147253);
  (0xdc7c42cef35390b83db13b8e1cfd487af4a35e132c1e840440315374a0cc4799, 148521);
  (0xddeddca6e12381de0c5a3556ace74e1f2ea50ce77fe088994f301e395e391623, 189931);
  (0xde0d0a6de67c6d1f9186342d0039c1b911f2a351dcedaeb434ff7667baf951da, 163330);
  (0xdede1aea9fbed2a3122c8a085fd0d6e13e15b0645ddd0ba1a6ac0b9219f37b65, 148526);
  (0xdfac814073d7546bcd1ef4303864a7be99c29d741a2448809f4c5784ad55cb3d, 156415);
  (0xdfcd95ca063076d0c53676d0f2e3d446ffcf600348e1f1dcce429a2befde8fe8, 148879);
  (0xe262ec8603c6e85f568baf7801e6f9ee23ea98090514b140011e1a04462c756b, 146203);
  (0xe3487f66021abb8dbc175cdfe6b250ac8fdc48beabf4549aa00c60fcc8d3a6ae, 148536);
  (0xe59e551d252d9fe092feedb50bdf9ca78d0975e1e59b642aacb3d85985723e8f, 547852);
  (0xe5d06a58e8f69a5fa685c0ae993bde9e1e5b6ee6164279b0d90919c357c75b80, 146511);
  (0xe711add6c84e3a6db12939a715341c4356da917ebd4538cf6b97716a1b4dc924, 116293);
  (0xe7989ff1265e279d10b6e904b60ba4c5cb7d59949984510d4df7ca838cdc6de0, 148517);
  (0xe7fb65c4a54ab9fea3121a3b69a3e6f93aa36418d2fa0d3ff415f0553d1f0a90, 138267);
  (0xe873f2cdc09f23b175d9859c802004dd7072541c6606d76dbff3512c8c8132e8, 148541);
  (0xe9c2fe761d3c15599c83c8947ef63b18bdc6755530dbd63fa37257ced46dccf8, 1345186);
  (0xe9eb3dfeed9f07f25eb58d0608f059e27a2fa602034186c795c0389c83383905, 148533);
  (0xeabd00d5fe66a66f7c81b437bb4737db71f8969db52bf01d87e8a3e5d4423457, 133098);
  (0xec09794c736492d0987db13f1352a8849d054e7c04e9157997560694b7c6f9cd, 143109);
  (0xecd236f51017f0034471501ffac3a53a93921d8e313a2ca00b2a1439ed538801, 148541);
  (0xed89be84fa03f81fac9155617764fe3f2267d3164fc6c77ecc2526d54fff92d9, 130321);
  (0xee895c7260a10b19395be6d38d7d34c450ccf5c49f142f026057775c1e5230c7, 147560);
  (0xeed06c56225097959a11cfd31ed13fbf4ed754cb5d7cb85b9996296ae39dc7a2, 148547);
  (0xf01a977754f2f9db005054c8cff11d71b049c9725f3362aa575103059493308f, 343262);
  (0xf079732b2748542127d6c0551e609a86f10d7f217efda3fd336ed9d4152f873a, 148534);
  (0xf15904a1f8ba064a59bbf1d288910bfcef7ca4567303f527372d7bf7e8aec019, 305926);
  (0xf1bf2b0793fb7edd951c0114e4cf2d5ae99a1318f3352d10806a1ddb2428b4c6, 141235);
  (0xf1d495a79bee47e7ce1ce668736af1337d313fd3a956e29dd0487602b9ee5679, 118080);
  (0xf27c3866488bd1cb4f5075846da863efb9a368d6dcfc9fa3bdfe4398715a834a, 131630);
  (0xf2bd028bb424d90709e3253eb9961a9fa317266d68ef3b74ae596def27eef483, 148561);
  (0xf37f2a1862400edd53717f2b5b4f9c6dad7b787b2e9e809c58a5600c106373bf, 1014005);
  (0xf4a638e66ad815d6e66d0ad812595bf8673fd0315d637856f9b46987bddb464b, 243140);
  (0xf4c26568b3f073e68dd2351b2b5b648358acdf68cff5b19b8b94c5c86c63b7ff, 153880);
  (0xf5aee2023405c443ea2e15cfe42fbe250902953f81a9125716bbea5169b9ba2c, 176619);
  (0xf6bc57e82fecc33bbb29792f9efdd09ce8ccc194807bcfb7393935aa0dfa3115, 126336);
  (0xf8ec404e1cdd90a4afaf8e9f78b560897a43c8ec23fb72ce42a0e35c4643f17a, 1225332);
  (0xf93f72eaf8068612a3c65d37a3df976af48f75c37b19960e6d0795056da3e43c, 130485);
  (0xfaa47dc649554dc1e8b87a72d91493d432eb7bf469fbd108ec714ed0e05e11a3, 148536);
  (0xfc81be4c056b1b364fbc4e39f727a69700c021a655dd437e7473cc0474eba0a7, 499671);
  (0xfc95ecb2381d55316c0b7cdca2b63cc2bc9cd5428a13c8a78bf88c0c403ecdb5, 105945);
  (0xfcefd08ace803041382fb7a8d293771c870dd3e916c7256b60ca14ea9dfe4bab, 794390);
  (0xfdcab8b76c16af95b96bb0b75731c3ee55a43abc8afe1c27007cd223f8ee07cc, 1017389);
  (0xfe241fb482a64915aa0bb1358006d31787e7cce80f77d70582ea219764626f5e, 120865);
  (0xfe8e272f44756ae532bace0fc73b9bb75cc09846d6582428ff521f34818f4303, 118581);
  (0xfe9b694bced7e709804dd0df721783cf54bc71e0f8e69f2b50b5c90fd274259a, 148530);
  (0xffab7ff1b04d5e9f4cb08fd51b9f7ae61407afe1ec6368f5d93881fb16e0f38f, 223120);
  (0xffaf5d661a8968e99603697e3fa7cd4a67fef8bcc2db9891bcb9f0d4f5a85286, 148537);
  (0xffd02816d909e3ab4af26e8b0fe364f581e6126c6ade626615861634da79708a, 135186)
].
