(* ===== verification/Transaction.v ===== *)
(** * Transactions

    Model of [core/modules/primitives/include/primitives/transaction.h] and
    [core/modules/primitives/src/transaction.c]: the transaction record, its
    version-gated wire format, the transaction id and the value sums.

    A [struct uint256] is the list of its 32 bytes, a fixed array the list of
    its elements, a pointer with a count the list of the counted elements. A
    deserialiser is a [reader]; [None] is [return false], after which the caller
    only frees the record. *)

From stdpp Require Import base tactics list numbers option.
From Stdlib Require Import ZArith Lia.
From S2P Require Import Prelude Serialize ByteOrder Params Script Hash.

Abbreviation uint256 := (list Z).

Definition uint256_set_null : uint256 := replicate 32 0.
Definition uint256_is_null (v : uint256) : bool := forallb (fun b => b =? 0) v.

(** [memcmp]: the sign of the first difference. *)
Fixpoint memcmp (a b : list Z) : Z :=
  match a, b with
  | x :: a, y :: b => if x <? y then -1 else if y <? x then 1 else memcmp a b
  | _, _ => 0
  end.
Definition uint256_cmp (a b : uint256) : Z := memcmp a b.
Definition uint256_eq (a b : uint256) : bool := memcmp a b =? 0.

Definition OVERWINTER_TX_VERSION : Z := 3.
Definition SAPLING_TX_VERSION : Z := 4.
Definition OVERWINTER_VERSION_GROUP_ID : Z := 0x03C48270.
Definition SAPLING_VERSION_GROUP_ID : Z := 0x892F2085.

Definition ZC_NUM_JS_INPUTS : nat := 2.
Definition ZC_NUM_JS_OUTPUTS : nat := 2.
Definition NOTEENCRYPTION_AUTH_BYTES : Z := 16.
Definition ZC_NOTEPLAINTEXT_SIZE : Z := 1 + 8 + 32 + 32 + 512.
Definition ZC_SAPLING_ENCPLAINTEXT_SIZE : Z := 1 + 11 + 8 + 32 + 512.
Definition ZC_SAPLING_OUTPLAINTEXT_SIZE : Z := 32 + 32.
Definition ZC_SAPLING_ENCCIPHERTEXT_SIZE : Z := ZC_SAPLING_ENCPLAINTEXT_SIZE + NOTEENCRYPTION_AUTH_BYTES.
Definition ZC_SAPLING_OUTCIPHERTEXT_SIZE : Z := ZC_SAPLING_OUTPLAINTEXT_SIZE + NOTEENCRYPTION_AUTH_BYTES.
Definition GROTH_PROOF_SIZE : Z := 48 + 96 + 48.
Definition PHGR_PROOF_SIZE : Z := 296.
Definition ZC_SPROUT_CIPHERTEXT_SIZE : Z := ZC_NOTEPLAINTEXT_SIZE + NOTEENCRYPTION_AUTH_BYTES.

Definition MAX_TX_INPUTS : Z := 65536.
Definition MAX_TX_OUTPUTS : Z := 65536.
Definition MAX_SHIELDED_SPENDS : Z := 4096.
Definition MAX_SHIELDED_OUTPUTS : Z := 4096.
Definition MAX_JOINSPLITS : Z := 4096.

(** ** Data *)

Record outpoint := mk_outpoint { op_hash : uint256; op_n : Z }.

Definition outpoint_set_null : outpoint := mk_outpoint uint256_set_null UINT32_MAX.
Definition outpoint_is_null (op : outpoint) : bool :=
  uint256_is_null (op_hash op) && (op_n op =? UINT32_MAX).
Definition outpoint_cmp (a b : outpoint) : Z :=
  let r := uint256_cmp (op_hash a) (op_hash b) in
  if negb (r =? 0) then r
  else if op_n a <? op_n b then -1
  else if op_n b <? op_n a then 1
  else 0.

Record tx_in := mk_tx_in { prevout : outpoint; script_sig : script; sequence : Z }.

Definition tx_in_init : tx_in := mk_tx_in outpoint_set_null [] UINT32_MAX.
Definition tx_in_is_final (i : tx_in) : bool := sequence i =? UINT32_MAX.

Record tx_out := mk_tx_out { value : Z; script_pub_key : script }.

Definition tx_out_set_null : tx_out := mk_tx_out (-1) [].
Definition tx_out_is_null (o : tx_out) : bool := value o =? -1.

Record spend_description := mk_spend {
  sd_cv : uint256; sd_anchor : uint256; sd_nullifier : uint256; sd_rk : uint256;
  sd_zkproof : list Z; sd_spend_auth_sig : list Z }.

Record output_description := mk_output {
  od_cv : uint256; od_cm : uint256; od_ephemeral_key : uint256;
  od_enc_ciphertext : list Z; od_out_ciphertext : list Z; od_zkproof : list Z }.

Record js_description := mk_js {
  vpub_old : Z; vpub_new : Z; js_anchor : uint256;
  nullifiers : list uint256; commitments : list uint256;
  js_ephemeral_key : uint256; random_seed : uint256; macs : list uint256;
  use_groth : bool; proof : list Z; ciphertexts : list (list Z) }.

Record transaction := mk_tx {
  overwintered : bool; version : Z; version_group_id : Z;
  vin : list tx_in; vout : list tx_out;
  lock_time : Z; expiry_height : Z; value_balance : Z;
  v_shielded_spend : list spend_description;
  v_shielded_output : list output_description;
  v_joinsplit : list js_description;
  joinsplit_pubkey : uint256; joinsplit_sig : list Z; binding_sig : list Z;
  tx_hash : uint256 }.

Definition transaction_is_coinbase (tx : transaction) : bool :=
  match vin tx with [i] => outpoint_is_null (prevout i) | _ => false end.

Definition transaction_init : transaction :=
  mk_tx false 1 0 [] [] 0 0 0 [] [] [] uint256_set_null (replicate 64 0) (replicate 64 0)
    uint256_set_null.

Definition transaction_free (tx : transaction) : transaction :=
  mk_tx (overwintered tx) (version tx) (version_group_id tx) [] [] (lock_time tx)
    (expiry_height tx) (value_balance tx) [] [] [] (joinsplit_pubkey tx) (joinsplit_sig tx)
    (binding_sig tx) (tx_hash tx).

Definition with_hash (tx : transaction) (h : uint256) : transaction :=
  mk_tx (overwintered tx) (version tx) (version_group_id tx) (vin tx) (vout tx) (lock_time tx)
    (expiry_height tx) (value_balance tx) (v_shielded_spend tx) (v_shielded_output tx)
    (v_joinsplit tx) (joinsplit_pubkey tx) (joinsplit_sig tx) (binding_sig tx) h.

Definition len {A} (l : list A) : Z := Z.of_nat (length l).

(** Object sizes of the element arrays on an LP64 target. *)
Definition sizeof_tx_in : Z := 10056.
Definition sizeof_tx_out : Z := 10016.
Definition sizeof_spend_description : Z := 384.
Definition sizeof_output_description : Z := 948.
Definition sizeof_js_description : Z := 1808.

(** ** Value sums

    The sums run in [int64_t]: [None] is a signed overflow. The inner option is
    the total, [None] being the early [return -1]. *)

Fixpoint sum_money (total : Z) (l : list Z) : option (option Z) :=
  match l with
  | [] => Some (Some total)
  | v :: l =>
      let? total := s64 (total + v) in
      if negb (MoneyRange v) || negb (MoneyRange total) then Some None
      else sum_money total l
  end.

Definition or_minus_one (r : option Z) : Z := default (-1) r.

Definition transaction_get_value_out (tx : transaction) : option Z :=
  let? r := sum_money 0 (map value (vout tx)) in
  match r with
  | None => Some (-1)
  | Some total =>
      let? r :=
        if value_balance tx <=? 0 then
          let? neg := s64 (- value_balance tx) in sum_money total [neg]
        else Some (Some total) in
      match r with
      | None => Some (-1)
      | Some total =>
          let? r := sum_money total (map vpub_old (v_joinsplit tx)) in Some (or_minus_one r)
      end
  end.

Definition transaction_get_shielded_value_in (tx : transaction) : option Z :=
  let? r := if 0 <=? value_balance tx then sum_money 0 [value_balance tx] else Some (Some 0) in
  match r with
  | None => Some (-1)
  | Some total =>
      let? r := sum_money total (map vpub_new (v_joinsplit tx)) in Some (or_minus_one r)
  end.

(** ** Loops over elements *)

Fixpoint write_all {A} (w : A -> writer) (l : list A) : writer :=
  match l with
  | [] => wdone
  | x :: l => w x &&w write_all w l
  end.

Fixpoint read_elems {A} (n : nat) (m : reader A) : reader (list A) :=
  match n with
  | O => rret []
  | S n => read x <- m; read l <- read_elems n m; rret (x :: l)
  end.

(** [if (b) return false;] in a reader. *)
Definition rfail_if {A} (b : bool) (k : reader A) : reader A := if b then rfail else k.

Section Codec.
Context `{Allocator} `{HostOrder}.

(** [tx_array_alloc]: no allocation for an empty array. *)
Definition array_alloc (count elem_size : Z) : bool :=
  if count =? 0 then true else alloc_ok (count * elem_size).

Definition transaction_alloc (num_vin num_vout : Z) : option (list tx_in * list tx_out) :=
  if (MAX_TX_INPUTS <? num_vin) || (MAX_TX_OUTPUTS <? num_vout) then None
  else if array_alloc num_vin sizeof_tx_in && array_alloc num_vout sizeof_tx_out then
    Some (replicate (Z.to_nat num_vin) tx_in_init, replicate (Z.to_nat num_vout) tx_out_set_null)
  else None.

Definition transaction_copy (src : transaction) : option transaction :=
  match transaction_alloc (len (vin src)) (len (vout src)) with
  | None => None
  | Some _ =>
      if array_alloc (len (v_shielded_spend src)) sizeof_spend_description &&
         array_alloc (len (v_shielded_output src)) sizeof_output_description &&
         array_alloc (len (v_joinsplit src)) sizeof_js_description
      then Some (mk_tx (overwintered src) (version src) (version_group_id src)
        (vin src) (vout src) (lock_time src) (expiry_height src) (value_balance src)
        (v_shielded_spend src) (v_shielded_output src) (v_joinsplit src)
        (joinsplit_pubkey src) (joinsplit_sig src) (binding_sig src) (tx_hash src))
      else None
  end.

Definition outpoint_serialize (op : outpoint) : writer :=
  stream_write_bytes (op_hash op) &&w stream_write_u32_le (op_n op).

Definition outpoint_deserialize : reader outpoint :=
  read h <- stream_read_bytes 32;
  read n <- stream_read_u32_le;
  rret (mk_outpoint h n).

Definition tx_in_serialize (i : tx_in) : writer :=
  outpoint_serialize (prevout i) &&w
  stream_write_compact_size (script_size (script_sig i)) &&w
  (if 0 <? script_size (script_sig i) then stream_write_bytes (script_sig i) else wdone) &&w
  stream_write_u32_le (sequence i).

Definition tx_in_deserialize : reader tx_in :=
  read prevout <- outpoint_deserialize;
  read script_len <- stream_read_compact_size;
  rfail_if (MAX_SCRIPT_SIZE <? script_len) (
  read script_sig <- (if 0 <? script_len then stream_read_bytes script_len else rret []);
  read sequence <- stream_read_u32_le;
  rret (mk_tx_in prevout script_sig sequence)).

Definition tx_out_serialize (o : tx_out) : writer :=
  stream_write_i64_le (value o) &&w
  stream_write_compact_size (script_size (script_pub_key o)) &&w
  (if 0 <? script_size (script_pub_key o) then stream_write_bytes (script_pub_key o) else wdone).

Definition tx_out_deserialize : reader tx_out :=
  read value <- stream_read_i64_le;
  read script_len <- stream_read_compact_size;
  rfail_if (MAX_SCRIPT_SIZE <? script_len) (
  read script_pub_key <- (if 0 <? script_len then stream_read_bytes script_len else rret []);
  rret (mk_tx_out value script_pub_key)).

Definition spend_description_serialize (sd : spend_description) : writer :=
  stream_write_bytes (sd_cv sd) &&w stream_write_bytes (sd_anchor sd) &&w
  stream_write_bytes (sd_nullifier sd) &&w stream_write_bytes (sd_rk sd) &&w
  stream_write_bytes (sd_zkproof sd) &&w stream_write_bytes (sd_spend_auth_sig sd).

Definition spend_description_deserialize : reader spend_description :=
  read cv <- stream_read_bytes 32;
  read anchor <- stream_read_bytes 32;
  read nullifier <- stream_read_bytes 32;
  read rk <- stream_read_bytes 32;
  read zkproof <- stream_read_bytes GROTH_PROOF_SIZE;
  read sig <- stream_read_bytes 64;
  rret (mk_spend cv anchor nullifier rk zkproof sig).

Definition output_description_serialize (od : output_description) : writer :=
  stream_write_bytes (od_cv od) &&w stream_write_bytes (od_cm od) &&w
  stream_write_bytes (od_ephemeral_key od) &&w stream_write_bytes (od_enc_ciphertext od) &&w
  stream_write_bytes (od_out_ciphertext od) &&w stream_write_bytes (od_zkproof od).

Definition output_description_deserialize : reader output_description :=
  read cv <- stream_read_bytes 32;
  read cm <- stream_read_bytes 32;
  read epk <- stream_read_bytes 32;
  read enc <- stream_read_bytes ZC_SAPLING_ENCCIPHERTEXT_SIZE;
  read out <- stream_read_bytes ZC_SAPLING_OUTCIPHERTEXT_SIZE;
  read zkproof <- stream_read_bytes GROTH_PROOF_SIZE;
  rret (mk_output cv cm epk enc out zkproof).

(** The two directions of [js_transfer_records]. *)
Definition js_write_records (recs : list (list Z)) : writer := write_all stream_write_bytes recs.
Definition js_read_records (count : nat) (rec : Z) : reader (list (list Z)) :=
  read_elems count (stream_read_bytes rec).

Definition js_proof_size (groth : bool) : Z := if groth then GROTH_PROOF_SIZE else PHGR_PROOF_SIZE.

Definition js_description_serialize (jsd : js_description) : writer :=
  stream_write_i64_le (vpub_old jsd) &&w
  stream_write_i64_le (vpub_new jsd) &&w
  stream_write_bytes (js_anchor jsd) &&w
  js_write_records (nullifiers jsd) &&w
  js_write_records (commitments jsd) &&w
  stream_write_bytes (js_ephemeral_key jsd) &&w
  stream_write_bytes (random_seed jsd) &&w
  js_write_records (macs jsd) &&w
  stream_write_bytes (take (Z.to_nat (js_proof_size (use_groth jsd))) (proof jsd)) &&w
  js_write_records (ciphertexts jsd).

(** The proof buffer has [PHGR_PROOF_SIZE] bytes and is zeroed first. *)
Definition js_description_deserialize (groth : bool) : reader js_description :=
  read vpub_old <- stream_read_i64_le;
  read vpub_new <- stream_read_i64_le;
  read anchor <- stream_read_bytes 32;
  read nullifiers <- js_read_records ZC_NUM_JS_INPUTS 32;
  read commitments <- js_read_records ZC_NUM_JS_OUTPUTS 32;
  read ephemeral_key <- stream_read_bytes 32;
  read random_seed <- stream_read_bytes 32;
  read macs <- js_read_records ZC_NUM_JS_INPUTS 32;
  read proof <- stream_read_bytes (js_proof_size groth);
  read ciphertexts <- js_read_records ZC_NUM_JS_OUTPUTS ZC_SPROUT_CIPHERTEXT_SIZE;
  rret (mk_js vpub_old vpub_new anchor nullifiers commitments ephemeral_key random_seed macs
    groth (proof ++ replicate (Z.to_nat (PHGR_PROOF_SIZE - js_proof_size groth)) 0) ciphertexts).

(** The pair [(is_overwinter_v3, is_sapling_v4)]. *)
Definition tx_classify_overwinter (overwintered : bool) (version version_group_id : Z) : bool * bool :=
  (overwintered && (version_group_id =? OVERWINTER_VERSION_GROUP_ID) &&
     (version =? OVERWINTER_TX_VERSION),
   overwintered && (version_group_id =? SAPLING_VERSION_GROUP_ID) &&
     (version =? SAPLING_TX_VERSION)).

Definition tx_class (tx : transaction) : bool * bool :=
  tx_classify_overwinter (overwintered tx) (version tx) (version_group_id tx).

Definition tx_serialize_header (tx : transaction) : writer :=
  let header := u32 (version tx) in
  let header := if overwintered tx then header .| (1 << 31) else header in
  stream_write_u32_le header &&w
  (if overwintered tx then stream_write_u32_le (version_group_id tx) else wdone).

Definition tx_serialize_transparent (tx : transaction) (is_v3 is_v4 : bool) : writer :=
  stream_write_compact_size (len (vin tx)) &&w
  write_all tx_in_serialize (vin tx) &&w
  stream_write_compact_size (len (vout tx)) &&w
  write_all tx_out_serialize (vout tx) &&w
  stream_write_u32_le (lock_time tx) &&w
  (if is_v3 || is_v4 then stream_write_u32_le (expiry_height tx) else wdone).

Definition tx_serialize_sapling (tx : transaction) (is_v4 : bool) : writer :=
  if negb is_v4 then wdone
  else
    stream_write_i64_le (value_balance tx) &&w
    stream_write_compact_size (len (v_shielded_spend tx)) &&w
    write_all spend_description_serialize (v_shielded_spend tx) &&w
    stream_write_compact_size (len (v_shielded_output tx)) &&w
    write_all output_description_serialize (v_shielded_output tx).

Definition tx_serialize_joinsplits (tx : transaction) : writer :=
  if version tx <? 2 then wdone
  else
    stream_write_compact_size (len (v_joinsplit tx)) &&w
    write_all js_description_serialize (v_joinsplit tx) &&w
    (if 0 <? len (v_joinsplit tx)
     then stream_write_bytes (joinsplit_pubkey tx) &&w stream_write_bytes (joinsplit_sig tx)
     else wdone).

Definition transaction_serialize (tx : transaction) : writer :=
  let '(is_v3, is_v4) := tx_class tx in
  tx_serialize_header tx &&w
  tx_serialize_transparent tx is_v3 is_v4 &&w
  tx_serialize_sapling tx is_v4 &&w
  tx_serialize_joinsplits tx &&w
  (if is_v4 && ((0 <? len (v_shielded_spend tx)) || (0 <? len (v_shielded_output tx)))
   then stream_write_bytes (binding_sig tx) else wdone).

Definition transaction_hash_serialized (tx : option transaction) (out : bool) : option uint256 :=
  match tx, out with
  | Some tx, true =>
      match transaction_serialize tx (stream_init 4096) with
      | (s, true) => Some (hash256 (data s))
      | (_, false) => None
      end
  | _, _ => None
  end.

(** On failure the old hash stays. *)
Definition transaction_compute_hash (tx : transaction) : transaction :=
  match transaction_hash_serialized (Some tx) true with
  | Some h => with_hash tx h
  | None => tx
  end.

Definition transaction_serialize_size (tx : transaction) : Z :=
  size (fst (transaction_serialize tx (stream_init 4096))).

(** [overwintered], [version], [version_group_id] and the two class flags. *)
Definition tx_deserialize_header : reader (bool * Z * Z * (bool * bool)) :=
  read header <- stream_read_u32_le;
  let overwintered := negb (header >> 31 =? 0) in
  let version := i32 (header .& 0x7FFFFFFF) in
  read group <- (if overwintered then stream_read_u32_le else rret 0);
  let cls := tx_classify_overwinter overwintered version group in
  rfail_if (overwintered && negb (fst cls || snd cls)) (rret (overwintered, version, group, cls)).

(** A count the stream cannot hold at [per] bytes an element is refused before
    the elements are allocated. *)
Definition implausible (count per : Z) (s : byte_stream) : bool :=
  stream_remaining s <? u64 (count * per).
Definition rcheck {A} (p : byte_stream -> bool) (k : reader A) : reader A :=
  fun s => rfail_if (p s) k s.

Definition tx_deserialize_inputs : reader (list tx_in) :=
  read num_vin <- stream_read_compact_size;
  rfail_if (MAX_TX_INPUTS <? num_vin) (
  rcheck (implausible num_vin 41) (
  match transaction_alloc num_vin 0 with
  | None => rfail
  | Some (vin, _) => read_elems (length vin) tx_in_deserialize
  end)).

(** [vout], [lock_time], [expiry_height]. *)
Definition tx_deserialize_outputs_and_lock (is_v3 is_v4 : bool) : reader (list tx_out * Z * Z) :=
  read num_vout <- stream_read_compact_size;
  rfail_if (MAX_TX_OUTPUTS <? num_vout) (
  rcheck (implausible num_vout 9) (
  rfail_if (negb (array_alloc num_vout sizeof_tx_out)) (
  read vout <- read_elems (Z.to_nat num_vout) tx_out_deserialize;
  read lock_time <- stream_read_u32_le;
  read expiry <- (if is_v3 || is_v4 then stream_read_u32_le else rret 0);
  rret (vout, lock_time, expiry)))).

(** [value_balance], [v_shielded_spend]. *)
Definition tx_deserialize_shielded_spends (is_v4 : bool) : reader (Z * list spend_description) :=
  if negb is_v4 then rret (0, [])
  else
    read value_balance <- stream_read_i64_le;
    read num_spend <- stream_read_compact_size;
    rfail_if (MAX_SHIELDED_SPENDS <? num_spend) (
    rcheck (implausible num_spend 384) (
    rfail_if (negb (array_alloc num_spend sizeof_spend_description)) (
    read spends <- read_elems (Z.to_nat num_spend) spend_description_deserialize;
    rret (value_balance, spends)))).

Definition tx_deserialize_shielded_outputs (is_v4 : bool) : reader (list output_description) :=
  if negb is_v4 then rret []
  else
    read num_output <- stream_read_compact_size;
    rfail_if (MAX_SHIELDED_OUTPUTS <? num_output) (
    rcheck (implausible num_output 948) (
    rfail_if (negb (array_alloc num_output sizeof_output_description)) (
    read_elems (Z.to_nat num_output) output_description_deserialize))).

(** [v_joinsplit], [joinsplit_pubkey], [joinsplit_sig]. *)
Definition tx_deserialize_joinsplits (overwintered : bool) (version : Z) :
    reader (list js_description * uint256 * list Z) :=
  if version <? 2 then rret ([], uint256_set_null, replicate 64 0)
  else
    let groth := overwintered && (SAPLING_TX_VERSION <=? version) in
    read num_js <- stream_read_compact_size;
    rfail_if (MAX_JOINSPLITS <? num_js) (
    rcheck (implausible num_js 1634) (
    if 0 <? num_js then
      rfail_if (negb (array_alloc num_js sizeof_js_description)) (
      read js <- read_elems (Z.to_nat num_js) (js_description_deserialize groth);
      read pubkey <- stream_read_bytes 32;
      read sig <- stream_read_bytes 64;
      rret (js, pubkey, sig))
    else rret ([], uint256_set_null, replicate 64 0))).

Definition transaction_deserialize : reader transaction :=
  read hd <- tx_deserialize_header;
  let '(overwintered, version, group, (is_v3, is_v4)) := hd in
  read vin <- tx_deserialize_inputs;
  read outs <- tx_deserialize_outputs_and_lock is_v3 is_v4;
  let '(vout, lock_time, expiry) := outs in
  read spends <- tx_deserialize_shielded_spends is_v4;
  let '(value_balance, v_spend) := spends in
  read v_output <- tx_deserialize_shielded_outputs is_v4;
  read js <- tx_deserialize_joinsplits overwintered version;
  let '(v_js, pubkey, sig) := js in
  read binding <- (if is_v4 && ((0 <? len v_spend) || (0 <? len v_output))
                   then stream_read_bytes 64 else rret (replicate 64 0));
  rret (transaction_compute_hash
    (mk_tx overwintered version group vin vout lock_time expiry value_balance v_spend v_output
       v_js pubkey sig binding uint256_set_null)).

End Codec.

(** ** Comparisons *)

Lemma memcmp_refl a : memcmp a a = 0.
Proof. induction a as [|x a IH]; [done|]. cbn. by rewrite Z.ltb_irrefl. Qed.
Lemma memcmp_eq a b : length a = length b -> memcmp a b = 0 -> a = b.
Proof.
  revert b. induction a as [|x a IH]; intros [|y b] Hl E; try done. cbn in *.
  destruct (Z.ltb_spec x y); [done|]. destruct (Z.ltb_spec y x); [done|].
  rewrite (IH b) by (done || lia). f_equal. lia.
Qed.
Lemma uint256_eq_refl a : uint256_eq a a = true.
Proof. unfold uint256_eq. by rewrite memcmp_refl. Qed.
Lemma uint256_eq_true a b : length a = length b -> uint256_eq a b = true <-> a = b.
Proof.
  intros Hl. split; [|intros ->; apply uint256_eq_refl]. intros E. apply Z.eqb_eq in E. by apply memcmp_eq.
Qed.

Lemma outpoint_cmp_eq a b : length (op_hash a) = length (op_hash b) -> outpoint_cmp a b = 0 <-> a = b.
Proof.
  intros Hl. unfold outpoint_cmp, uint256_cmp. cbn zeta. split; [|intros ->; by rewrite memcmp_refl, Z.ltb_irrefl].
  destruct (Z.eqb_spec (memcmp (op_hash a) (op_hash b)) 0) as [E|]; cbn [negb]; [|done].
  destruct (Z.ltb_spec (op_n a) (op_n b)); [done|]. destruct (Z.ltb_spec (op_n b) (op_n a)); [done|]. intros _.
  apply memcmp_eq in E; [|done]. destruct a, b; cbn in *. f_equal; [done|lia].
Qed.

(** ** The wire format

    The encodings as byte lists, and the records they are defined on. *)

Definition arr (n : Z) (b : list Z) : Prop := bytes b /\ len b = n.
Abbreviation u256 := (arr 32).

Definition outpoint_wf (op : outpoint) : Prop := u256 (op_hash op) /\ in_u 32 (op_n op).
Definition tx_in_wf (i : tx_in) : Prop :=
  outpoint_wf (prevout i) /\ script_wf (script_sig i) /\ in_u 32 (sequence i).
Definition tx_out_wf (o : tx_out) : Prop := in_s 64 (value o) /\ script_wf (script_pub_key o).
Definition spend_wf (sd : spend_description) : Prop :=
  u256 (sd_cv sd) /\ u256 (sd_anchor sd) /\ u256 (sd_nullifier sd) /\ u256 (sd_rk sd) /\
  arr GROTH_PROOF_SIZE (sd_zkproof sd) /\ arr 64 (sd_spend_auth_sig sd).
Definition output_wf (od : output_description) : Prop :=
  u256 (od_cv od) /\ u256 (od_cm od) /\ u256 (od_ephemeral_key od) /\
  arr ZC_SAPLING_ENCCIPHERTEXT_SIZE (od_enc_ciphertext od) /\
  arr ZC_SAPLING_OUTCIPHERTEXT_SIZE (od_out_ciphertext od) /\ arr GROTH_PROOF_SIZE (od_zkproof od).
Definition records (n : nat) (rec : Z) (l : list (list Z)) : Prop := length l = n /\ Forall (arr rec) l.
(** The proof buffer is zero past the bytes of the proof form in use. *)
Definition proof_wf (groth : bool) (p : list Z) : Prop :=
  exists q, arr (js_proof_size groth) q /\
    p = q ++ replicate (Z.to_nat (PHGR_PROOF_SIZE - js_proof_size groth)) 0.
Definition js_wf (groth : bool) (jsd : js_description) : Prop :=
  in_s 64 (vpub_old jsd) /\ in_s 64 (vpub_new jsd) /\ u256 (js_anchor jsd) /\
  records ZC_NUM_JS_INPUTS 32 (nullifiers jsd) /\ records ZC_NUM_JS_OUTPUTS 32 (commitments jsd) /\
  u256 (js_ephemeral_key jsd) /\ u256 (random_seed jsd) /\ records ZC_NUM_JS_INPUTS 32 (macs jsd) /\
  use_groth jsd = groth /\ proof_wf groth (proof jsd) /\
  records ZC_NUM_JS_OUTPUTS ZC_SPROUT_CIPHERTEXT_SIZE (ciphertexts jsd).

(** A counted array: its length bounded, its elements well formed. *)
Definition vec_wf {A} (max : Z) (P : A -> Prop) (l : list A) : Prop := len l <= max /\ Forall P l.

Definition is_v3 (tx : transaction) : bool := fst (tx_class tx).
Definition is_v4 (tx : transaction) : bool := snd (tx_class tx).
Definition js_groth (tx : transaction) : bool := overwintered tx && (SAPLING_TX_VERSION <=? version tx).
Definition has_shielded (tx : transaction) : bool :=
  (0 <? len (v_shielded_spend tx)) || (0 <? len (v_shielded_output tx)).

(** What the wire format can carry: fields in range, and every field its
    version gate leaves out at its initial value. *)
Record tx_wf (tx : transaction) : Prop := {
  wf_version : 0 <= version tx < 2 ^ 31;
  wf_group : if overwintered tx then is_v3 tx || is_v4 tx = true else version_group_id tx = 0;
  wf_vin : vec_wf MAX_TX_INPUTS tx_in_wf (vin tx);
  wf_vout : vec_wf MAX_TX_OUTPUTS tx_out_wf (vout tx);
  wf_lock : in_u 32 (lock_time tx);
  wf_expiry : if is_v3 tx || is_v4 tx then in_u 32 (expiry_height tx) else expiry_height tx = 0;
  wf_balance : if is_v4 tx then in_s 64 (value_balance tx) else value_balance tx = 0;
  wf_spends : if is_v4 tx then vec_wf MAX_SHIELDED_SPENDS spend_wf (v_shielded_spend tx)
              else v_shielded_spend tx = [];
  wf_outputs : if is_v4 tx then vec_wf MAX_SHIELDED_OUTPUTS output_wf (v_shielded_output tx)
               else v_shielded_output tx = [];
  wf_js : if version tx <? 2 then v_joinsplit tx = []
          else vec_wf MAX_JOINSPLITS (js_wf (js_groth tx)) (v_joinsplit tx);
  wf_js_keys : if 0 <? len (v_joinsplit tx)
               then u256 (joinsplit_pubkey tx) /\ arr 64 (joinsplit_sig tx)
               else joinsplit_pubkey tx = uint256_set_null /\ joinsplit_sig tx = replicate 64 0;
  wf_binding : if is_v4 tx && has_shielded tx then arr 64 (binding_sig tx)
               else binding_sig tx = replicate 64 0;
}.

Definition le4 := digits_of 8 4.
Definition le8s (v : Z) := digits_of 8 8 (u64 v).
Definition vec_enc {A} (enc : A -> list Z) (l : list A) : list Z :=
  compact_size_enc (len l) ++ concat (map enc l).

Definition outpoint_enc (op : outpoint) : list Z := op_hash op ++ le4 (op_n op).
Definition script_enc (s : script) : list Z := compact_size_enc (script_size s) ++ s.
Definition tx_in_enc (i : tx_in) : list Z :=
  outpoint_enc (prevout i) ++ script_enc (script_sig i) ++ le4 (sequence i).
Definition tx_out_enc (o : tx_out) : list Z := le8s (value o) ++ script_enc (script_pub_key o).
Definition spend_enc (sd : spend_description) : list Z :=
  sd_cv sd ++ sd_anchor sd ++ sd_nullifier sd ++ sd_rk sd ++ sd_zkproof sd ++ sd_spend_auth_sig sd.
Definition output_enc (od : output_description) : list Z :=
  od_cv od ++ od_cm od ++ od_ephemeral_key od ++ od_enc_ciphertext od ++ od_out_ciphertext od ++
  od_zkproof od.
Definition js_enc (jsd : js_description) : list Z :=
  le8s (vpub_old jsd) ++ le8s (vpub_new jsd) ++ js_anchor jsd ++ concat (nullifiers jsd) ++
  concat (commitments jsd) ++ js_ephemeral_key jsd ++ random_seed jsd ++ concat (macs jsd) ++
  take (Z.to_nat (js_proof_size (use_groth jsd))) (proof jsd) ++ concat (ciphertexts jsd).

Definition header_enc (tx : transaction) : list Z :=
  if overwintered tx then le4 (version tx + 2 ^ 31) ++ le4 (version_group_id tx)
  else le4 (version tx).
Definition tx_enc (tx : transaction) : list Z :=
  header_enc tx ++
  (vec_enc tx_in_enc (vin tx) ++ vec_enc tx_out_enc (vout tx) ++ le4 (lock_time tx) ++
   (if is_v3 tx || is_v4 tx then le4 (expiry_height tx) else [])) ++
  (if is_v4 tx
   then le8s (value_balance tx) ++ vec_enc spend_enc (v_shielded_spend tx) ++
        vec_enc output_enc (v_shielded_output tx)
   else []) ++
  (if version tx <? 2 then []
   else vec_enc js_enc (v_joinsplit tx) ++
        (if 0 <? len (v_joinsplit tx) then joinsplit_pubkey tx ++ joinsplit_sig tx else [])) ++
  (if is_v4 tx && has_shielded tx then binding_sig tx else []).

(** ** Writers *)

Section Writes.
Context `{Allocator} `{HostOrder}.

Lemma writes_bytes b : bytes b -> writes (stream_write_bytes b) b.
Proof. apply stream_write_writes. Qed.

Lemma writes_arr n b : arr n b -> writes (stream_write_bytes b) b.
Proof. intros []. by apply writes_bytes. Qed.

Lemma writes_all {A} (w : A -> writer) enc l :
  Forall (fun x => writes (w x) (enc x)) l -> writes (write_all w l) (concat (map enc l)).
Proof. induction 1; [apply writes_done|]. by apply writes_seq. Qed.

Lemma writes_if (b : bool) w e :
  (b = true -> writes w e) -> writes (if b then w else wdone) (if b then e else []).
Proof. destruct b; [auto|]. intros _. apply writes_done. Qed.

Lemma writes_unless (b : bool) w e :
  (b = false -> writes w e) -> writes (if b then wdone else w) (if b then [] else e).
Proof. destruct b; [|auto]. intros _. apply writes_done. Qed.

Lemma writes_seq_assoc w1 w2 e1 e2 e3 :
  writes w1 e1 -> writes w2 (e2 ++ e3) -> writes (w1 &&w w2) ((e1 ++ e2) ++ e3).
Proof. rewrite <- app_assoc. apply writes_seq. Qed.

Lemma writes_records n rec l : records n rec l -> writes (js_write_records l) (concat l).
Proof.
  intros [_ Hl]. unfold js_write_records. rewrite <- (map_id l) at 2. apply writes_all.
  eapply Forall_impl; [|exact Hl]. cbn. intros b Hb. by eapply writes_arr.
Qed.

(** A counted array, alone and followed by more. *)
Lemma writes_vec_seq {A} (w : A -> writer) enc (P : A -> Prop) max l k e :
  (forall x, P x -> writes (w x) (enc x)) -> vec_wf max P l -> max < 2 ^ 64 -> writes k e ->
  writes (stream_write_compact_size (len l) &&w write_all w l &&w k) (vec_enc enc l ++ e).
Proof.
  intros Hw [Hl HP] Hmax Hk. apply writes_seq_assoc; [|apply writes_seq; [|done]].
  - apply writes_compact_size. unfold in_u, len in *. lia.
  - apply writes_all. eapply Forall_impl; [|exact HP]. auto.
Qed.

Lemma writes_vec {A} (w : A -> writer) enc (P : A -> Prop) max l :
  (forall x, P x -> writes (w x) (enc x)) -> vec_wf max P l -> max < 2 ^ 64 ->
  writes (stream_write_compact_size (len l) &&w write_all w l) (vec_enc enc l).
Proof.
  intros Hw [Hl HP] Hmax. apply writes_seq.
  - apply writes_compact_size. unfold in_u, len in *. lia.
  - apply writes_all. eapply Forall_impl; [|exact HP]. auto.
Qed.

End Writes.

Lemma script_if (s : script) : (if 0 <? script_size s then s else []) = s.
Proof. destruct s; [done|]. unfold script_size. by destruct (Z.ltb_spec 0 (Z.of_nat (length (z :: s)))); [|cbn in *; lia]. Qed.

Section TxWrites.
Context `{Allocator} `{HostOrder}.

Lemma writes_outpoint op : outpoint_wf op -> writes (outpoint_serialize op) (outpoint_enc op).
Proof. intros [Hh Hn]. apply writes_seq; [by eapply writes_arr|apply writes_u32]. Qed.

(** The length prefix and the bytes of a script, as both element writers emit them. *)
Lemma writes_script s w e :
  script_wf s -> writes w e ->
  writes (stream_write_compact_size (script_size s) &&w
          (if 0 <? script_size s then stream_write_bytes s else wdone) &&w w) (script_enc s ++ e).
Proof.
  intros [Hb Hs] Hw. unfold script_enc. apply writes_seq_assoc.
  - apply writes_compact_size. unfold in_u, script_size, MAX_SCRIPT_SIZE in *. lia.
  - rewrite <- (script_if s) at 3. apply writes_seq; [|done]. by apply writes_if; intros; apply writes_bytes.
Qed.

Lemma writes_tx_in i : tx_in_wf i -> writes (tx_in_serialize i) (tx_in_enc i).
Proof.
  intros (Ho & Hs & Hq). apply writes_seq; [by apply writes_outpoint|].
  apply writes_script; [done|apply writes_u32].
Qed.

Lemma writes_tx_out o : tx_out_wf o -> writes (tx_out_serialize o) (tx_out_enc o).
Proof.
  intros [Hv Hs]. apply writes_seq; [apply writes_i64|]. destruct Hs as [Hb Hs].
  apply writes_seq; [apply writes_compact_size; unfold in_u, script_size, MAX_SCRIPT_SIZE in *; lia|].
  rewrite <- (script_if (script_pub_key o)) at 3. by apply writes_if; intros; apply writes_bytes.
Qed.

Ltac write_arrays := repeat first [apply writes_seq | by eapply writes_arr].

Lemma writes_spend sd : spend_wf sd -> writes (spend_description_serialize sd) (spend_enc sd).
Proof. intros (? & ? & ? & ? & ? & ?). unfold spend_enc, spend_description_serialize. write_arrays. Qed.

Lemma writes_output od : output_wf od -> writes (output_description_serialize od) (output_enc od).
Proof. intros (? & ? & ? & ? & ? & ?). unfold output_enc, output_description_serialize. write_arrays. Qed.

Lemma writes_js groth jsd : js_wf groth jsd -> writes (js_description_serialize jsd) (js_enc jsd).
Proof.
  intros (? & ? & ? & ? & ? & ? & ? & ? & <- & (q & Hq & Hp) & ?).
  assert (arr (js_proof_size (use_groth jsd)) (take (Z.to_nat (js_proof_size (use_groth jsd))) (proof jsd))).
  { rewrite Hp, take_app_length'; [done|]. destruct Hq as [_ <-]. unfold len. lia. }
  unfold js_enc, js_description_serialize.
  repeat first [apply writes_seq | apply writes_i64 | by eapply writes_arr | by eapply writes_records].
Qed.

Lemma header_value tx : 0 <= version tx < 2 ^ 31 ->
  (if overwintered tx then u32 (version tx) .| (1 << 31) else u32 (version tx)) =
  if overwintered tx then version tx + 2 ^ 31 else version tx.
Proof.
  intros Hv. rewrite wrap_id by (unfold in_u; lia). destruct (overwintered tx); [|done].
  apply (lor_add_disjoint (version tx) 1 31); [lia|]. unfold in_u. lia.
Qed.

(** The serialiser emits exactly the wire format. *)
Lemma transaction_writes tx : tx_wf tx -> writes (transaction_serialize tx) (tx_enc tx).
Proof.
  intros W. unfold transaction_serialize, tx_enc. fold (is_v3 tx) (is_v4 tx) (has_shielded tx).
  destruct (tx_class tx) as [v3 v4] eqn:Ec.
  assert (is_v3 tx = v3) as E3 by (unfold is_v3; by rewrite Ec).
  assert (is_v4 tx = v4) as E4 by (unfold is_v4; by rewrite Ec).
  destruct W as [Wv Wg Wi Wo Wl We Wb Ws Wu Wj Wk Wn]. rewrite E3, E4 in *.
  apply writes_seq; [|apply writes_seq; [|apply writes_seq; [|apply writes_seq]]].
  - unfold tx_serialize_header, header_enc. rewrite header_value by done.
    destruct (overwintered tx); [apply writes_seq; apply writes_u32|].
    rewrite <- (app_nil_r (le4 _)). apply writes_seq; [apply writes_u32|apply writes_done].
  - eapply writes_vec_seq; [apply writes_tx_in|exact Wi|done|].
    eapply writes_vec_seq; [apply writes_tx_out|exact Wo|done|].
    apply writes_seq; [apply writes_u32|]. apply writes_if. intros _. apply writes_u32.
  - unfold tx_serialize_sapling. destruct v4; cbn [negb]; [|apply writes_done].
    apply writes_seq; [apply writes_i64|].
    eapply writes_vec_seq; [apply writes_spend|exact Ws|done|].
    eapply writes_vec; [apply writes_output|exact Wu|done].
  - unfold tx_serialize_joinsplits. apply writes_unless. intros Hv2. rewrite Hv2 in Wj.
    eapply writes_vec_seq; [apply writes_js|exact Wj|done|].
    apply writes_if. intros Hj. rewrite Hj in Wk. destruct Wk. by apply writes_seq; eapply writes_arr.
  - unfold has_shielded in *. apply writes_if. intros Hs. rewrite Hs in Wn. by eapply writes_arr.
Qed.

End TxWrites.

(** ** Readers *)

Lemma reads_arr n b : arr n b -> reads (stream_read_bytes n) b b.
Proof. intros [_ <-]. by apply reads_stream_read. Qed.

Lemma reads_elems {A} (m : reader A) enc l :
  Forall (fun x => reads m (enc x) x) l -> reads (read_elems (length l) m) (concat (map enc l)) l.
Proof.
  induction 1 as [|x l Hx _ IH]; [apply reads_ret|]. cbn [length read_elems map concat].
  eapply reads_bind; [exact Hx|]. by eapply reads_map; [exact IH|].
Qed.

Lemma reads_records n rec l : records n rec l -> reads (js_read_records n rec) (concat l) l.
Proof.
  intros [<- Hl]. unfold js_read_records. rewrite <- (map_id l) at 2. apply reads_elems.
  eapply Forall_impl; [|exact Hl]. cbn. apply reads_arr.
Qed.

Lemma reads_if {A} (b : bool) (m : reader A) e v v0 :
  (b = true -> reads m e v) -> (b = false -> v = v0) ->
  reads (if b then m else rret v0) (if b then e else []) v.
Proof. destruct b; [auto|]. intros _ ->; [apply reads_ret|done]. Qed.

Lemma reads_fail_if {A} b (k : reader A) e v : b = false -> reads k e v -> reads (rfail_if b k) e v.
Proof. by intros ->. Qed.

Lemma stream_remaining_unread s : stream_wf s -> stream_remaining s = len (unread s).
Proof.
  intros (_ & Hr & _). unfold stream_remaining, len, unread. rewrite length_drop.
  unfold size in *. destruct (Z.leb_spec (Z.of_nat (length (data s))) (read_pos s)); lia.
Qed.

Lemma reads_rcheck {A} count per (k : reader A) e v :
  0 <= count * per < 2 ^ 64 -> count * per <= len e -> reads k e v ->
  reads (rcheck (implausible count per) k) e v.
Proof.
  intros Hr Hl Hk s rest Hwf He Hu. unfold rcheck, implausible, rfail_if.
  rewrite stream_remaining_unread, Hu, wrap_id by done. unfold len in *. rewrite length_app.
  destruct (Z.ltb_spec (Z.of_nat (length e + length rest)) (count * per)); [lia|]. eauto.
Qed.

Lemma concat_len_ge {A} (enc : A -> list Z) k l :
  Forall (fun x => k <= len (enc x)) l -> len l * k <= len (concat (map enc l)).
Proof.
  induction 1 as [|x l Hx _ IH]; [done|]. unfold len in *. cbn [length map concat].
  rewrite length_app. nia.
Qed.

(** A counted array: count, bound, plausibility check, then the elements. *)
Lemma reads_vec {A B} max per (enc : A -> list Z) (P : A -> Prop) l (k : Z -> reader B) e v :
  vec_wf max P l -> 0 <= per -> max * per < 2 ^ 64 -> max < 2 ^ 64 ->
  (forall x, P x -> per <= len (enc x)) ->
  reads (k (len l)) (concat (map enc l) ++ e) v ->
  reads (read n <- stream_read_compact_size;
         rfail_if (max <? n) (rcheck (implausible n per) (k n))) (vec_enc enc l ++ e) v.
Proof.
  intros [Hl HP] Hper Hmax Hmax2 Hlen Hk. unfold vec_enc. rewrite <- app_assoc.
  assert (0 <= len l) by (unfold len; lia).
  eapply reads_bind; [apply reads_compact_size; unfold in_u; lia|].
  apply reads_fail_if; [by apply Z.ltb_ge|]. apply reads_rcheck; [nia| |done].
  assert (len l * per <= len (concat (map enc l))).
  { apply concat_len_ge. eapply Forall_impl; [|exact HP]. auto. }
  unfold len in *. rewrite length_app. lia.
Qed.

Lemma reads_outpoint op : outpoint_wf op -> reads outpoint_deserialize (outpoint_enc op) op.
Proof.
  intros [Hh Hn]. eapply reads_bind; [by apply reads_arr|].
  eapply reads_map; [by apply reads_u32|]. by destruct op.
Qed.

Lemma reads_script {B} s (k : list Z -> reader B) e v :
  script_wf s -> reads (k s) e v ->
  reads (read n <- stream_read_compact_size;
         rfail_if (MAX_SCRIPT_SIZE <? n) (
         read b <- (if 0 <? n then stream_read_bytes n else rret []); k b)) (script_enc s ++ e) v.
Proof.
  intros [Hb Hs] Hk. unfold script_enc. rewrite <- app_assoc.
  eapply reads_bind; [apply reads_compact_size; unfold in_u, script_size, MAX_SCRIPT_SIZE in *; lia|].
  apply reads_fail_if; [by apply Z.ltb_ge|].
  replace (s ++ e) with ((if 0 <? script_size s then s else []) ++ e) by (by rewrite script_if).
  eapply reads_bind; [|exact Hk]. apply reads_if; [intros _; by apply reads_arr|].
  intros Hz. apply Z.ltb_ge in Hz. destruct s; [done|]. unfold script_size in Hz. cbn in Hz. lia.
Qed.

Lemma reads_tx_in i : tx_in_wf i -> reads tx_in_deserialize (tx_in_enc i) i.
Proof.
  intros (Ho & Hs & Hq). eapply reads_bind; [by apply reads_outpoint|].
  apply (reads_script (script_sig i)); [done|]. eapply reads_map; [by apply reads_u32|]. by destruct i.
Qed.

Lemma reads_tx_out o : tx_out_wf o -> reads tx_out_deserialize (tx_out_enc o) o.
Proof.
  intros (Hv & Hs). eapply reads_bind; [by apply reads_i64|]. rewrite <- (app_nil_r (script_enc _)).
  apply (reads_script (script_pub_key o)); [done|]. destruct o. apply reads_ret.
Qed.

Ltac read_arrays :=
  repeat first [eapply reads_bind; [first [by apply reads_i64 | by apply reads_arr | by apply reads_records]|]].

Lemma reads_spend sd : spend_wf sd -> reads spend_description_deserialize (spend_enc sd) sd.
Proof.
  intros (? & ? & ? & ? & ? & ?). unfold spend_enc, spend_description_deserialize. read_arrays.
  eapply reads_map; [by apply reads_arr|]. by destruct sd.
Qed.

Lemma reads_output od : output_wf od -> reads output_description_deserialize (output_enc od) od.
Proof.
  intros (? & ? & ? & ? & ? & ?). unfold output_enc, output_description_deserialize. read_arrays.
  eapply reads_map; [by apply reads_arr|]. by destruct od.
Qed.

Lemma proof_take groth p :
  proof_wf groth p ->
  arr (js_proof_size groth) (take (Z.to_nat (js_proof_size groth)) p) /\
  take (Z.to_nat (js_proof_size groth)) p ++
    replicate (Z.to_nat (PHGR_PROOF_SIZE - js_proof_size groth)) 0 = p.
Proof.
  intros (q & Hq & ->). rewrite take_app_length'; [done|]. destruct Hq as [_ <-]. unfold len. lia.
Qed.

Lemma reads_js groth jsd : js_wf groth jsd -> reads (js_description_deserialize groth) (js_enc jsd) jsd.
Proof.
  intros (? & ? & ? & ? & ? & ? & ? & ? & <- & Hp & ?).
  destruct (proof_take _ _ Hp) as [Hp1 Hp2].
  unfold js_enc, js_description_deserialize. read_arrays.
  eapply reads_map; [by apply reads_records|]. cbn beta. rewrite Hp2. by destruct jsd.
Qed.

(** *** Sizes of encodings *)

Lemma len_app {A} (a b : list A) : len (a ++ b) = len a + len b.
Proof. unfold len. rewrite length_app. lia. Qed.
Lemma len_nonneg {A} (a : list A) : 0 <= len a.
Proof. unfold len. lia. Qed.
Lemma len_le4 v : len (le4 v) = 4.
Proof. unfold len, le4. by rewrite length_digits_of. Qed.
Lemma len_le8s v : len (le8s v) = 8.
Proof. unfold len, le8s. by rewrite length_digits_of. Qed.
Lemma len_compact n : 1 <= len (compact_size_enc n) <= 9.
Proof.
  unfold len. rewrite compact_size_enc_length. unfold compact_size_sizeof. bool_cases; lia.
Qed.
Lemma len_records n rec l : records n rec l -> len (concat l) = Z.of_nat n * rec.
Proof.
  intros [<- Hl]. induction Hl as [|b l [_ Hb] _ IH]; [done|]. cbn [concat length].
  rewrite len_app, IH, Hb. lia.
Qed.

Ltac sizes :=
  repeat match goal with
  | H : arr _ _ |- _ => destruct H as [_ H]
  | H : records _ _ _ |- _ => apply len_records in H
  end;
  rewrite ?len_app, ?len_le4, ?len_le8s.

Lemma tx_in_enc_len i : tx_in_wf i -> 41 <= len (tx_in_enc i).
Proof.
  intros ((Hh & _) & _ & _). unfold tx_in_enc, outpoint_enc, script_enc. sizes.
  pose proof (len_compact (script_size (script_sig i))). pose proof (len_nonneg (script_sig i)). lia.
Qed.
Lemma tx_out_enc_len o : 9 <= len (tx_out_enc o).
Proof.
  unfold tx_out_enc, script_enc. sizes.
  pose proof (len_compact (script_size (script_pub_key o))). pose proof (len_nonneg (script_pub_key o)). lia.
Qed.
Lemma spend_enc_len sd : spend_wf sd -> len (spend_enc sd) = 384.
Proof. intros (? & ? & ? & ? & ? & ?). unfold spend_enc. sizes. unfold GROTH_PROOF_SIZE in *. lia. Qed.
Lemma output_enc_len od : output_wf od -> len (output_enc od) = 948.
Proof.
  intros (? & ? & ? & ? & ? & ?). unfold output_enc. sizes.
  unfold ZC_SAPLING_ENCCIPHERTEXT_SIZE, ZC_SAPLING_OUTCIPHERTEXT_SIZE, ZC_SAPLING_ENCPLAINTEXT_SIZE,
    ZC_SAPLING_OUTPLAINTEXT_SIZE, NOTEENCRYPTION_AUTH_BYTES, GROTH_PROOF_SIZE in *. lia.
Qed.
Lemma js_enc_len groth jsd : js_wf groth jsd -> len (js_enc jsd) = if groth then 1698 else 1802.
Proof.
  intros (? & ? & ? & ? & ? & ? & ? & ? & <- & Hp & ?). destruct (proof_take _ _ Hp) as [Hp1 _].
  unfold js_enc. sizes.
  unfold ZC_SPROUT_CIPHERTEXT_SIZE, ZC_NOTEPLAINTEXT_SIZE, NOTEENCRYPTION_AUTH_BYTES, js_proof_size,
    ZC_NUM_JS_INPUTS, ZC_NUM_JS_OUTPUTS, GROTH_PROOF_SIZE, PHGR_PROOF_SIZE in *.
  destruct (use_groth jsd); lia.
Qed.

(** *** The whole transaction *)

Definition memory_ok `{Allocator} : Prop := forall n, alloc_ok n = true.

Lemma array_alloc_ok `{Allocator} n k : memory_ok -> array_alloc n k = true.
Proof. intros M. unfold array_alloc. by destruct (n =? 0). Qed.

Lemma shiftr31 h : in_u 32 h -> negb (h >> 31 =? 0) = (2 ^ 31 <=? h).
Proof.
  intros [H1 H2]. rewrite Z.shiftr_div_pow2 by lia.
  destruct (Z.leb_spec (2 ^ 31) h); destruct (Z.eqb_spec (h / 2 ^ 31) 0); cbn; try done; zdm.
Qed.
Lemma land31 h : in_u 32 h -> i32 (h .& 0x7FFFFFFF) = h mod 2 ^ 31.
Proof.
  intros Hh. change 0x7FFFFFFF with (Z.ones 31). rewrite Z.land_ones by lia.
  apply swrap_id; [lia|]. pose proof (Z.mod_pos_bound h (2 ^ 31) ltac:(lia)). unfold in_s. lia.
Qed.

Section Reads.
Context `{Allocator} `{HostOrder} (M : memory_ok).

Lemma reads_header tx : tx_wf tx ->
  reads tx_deserialize_header (header_enc tx)
    (overwintered tx, version tx, version_group_id tx, tx_class tx).
Proof.
  intros W. pose proof (wf_version tx W) as Hv. pose proof (wf_group tx W) as Hg.
  unfold header_enc, tx_deserialize_header, tx_class, is_v3, is_v4 in *.
  destruct (overwintered tx) eqn:Eo.
  - assert (in_u 32 (version tx + 2 ^ 31)) as Hh by (unfold in_u; lia).
    eapply reads_bind; [by apply reads_u32|]. cbn zeta. rewrite shiftr31, land31 by done.
    replace (2 ^ 31 <=? version tx + 2 ^ 31) with true by (symmetry; apply Z.leb_le; lia).
    replace ((version tx + 2 ^ 31) mod 2 ^ 31) with (version tx) by zdm.
    rewrite <- (app_nil_r (le4 (version_group_id tx))).
    eapply reads_bind; [apply reads_u32|].
    + unfold tx_class, tx_classify_overwinter in Hg. rewrite Eo in Hg. cbn in Hg.
      destruct (Z.eqb_spec (version_group_id tx) OVERWINTER_VERSION_GROUP_ID) as [->|];
        [by split; vm_compute|].
      destruct (Z.eqb_spec (version_group_id tx) SAPLING_VERSION_GROUP_ID) as [->|];
        [by split; vm_compute|]. done.
    + apply reads_fail_if; [|apply reads_ret]. unfold tx_class in Hg. rewrite Eo in Hg. by rewrite Hg.
  - assert (in_u 32 (version tx)) as Hh by (unfold in_u; lia).
    rewrite <- (app_nil_r (le4 (version tx))).
    eapply reads_bind; [by apply reads_u32|]. cbn zeta. rewrite shiftr31, land31 by done.
    replace (2 ^ 31 <=? version tx) with false by (symmetry; apply Z.leb_gt; lia).
    rewrite Z.mod_small by lia. rewrite <- (app_nil_r []).
    eapply reads_bind; [apply reads_ret|]. rewrite Hg. apply reads_ret.
Qed.

Lemma reads_inputs tx : tx_wf tx -> reads tx_deserialize_inputs (vec_enc tx_in_enc (vin tx)) (vin tx).
Proof.
  intros W. pose proof (wf_vin tx W) as Wi. rewrite <- (app_nil_r (vec_enc _ _)).
  eapply reads_vec; [exact Wi|done..|apply tx_in_enc_len|]. destruct Wi as [Hl Hf].
  unfold transaction_alloc. rewrite !array_alloc_ok by done.
  replace (MAX_TX_INPUTS <? len (vin tx)) with false by (symmetry; by apply Z.ltb_ge). cbn [orb andb].
  change (MAX_TX_OUTPUTS <? 0) with false. cbn iota. rewrite length_replicate, app_nil_r.
  unfold len. rewrite Nat2Z.id. apply reads_elems. eapply Forall_impl; [|exact Hf]. apply reads_tx_in.
Qed.

Lemma reads_outputs_and_lock tx : tx_wf tx ->
  reads (tx_deserialize_outputs_and_lock (is_v3 tx) (is_v4 tx))
    (vec_enc tx_out_enc (vout tx) ++ le4 (lock_time tx) ++
     (if is_v3 tx || is_v4 tx then le4 (expiry_height tx) else []))
    (vout tx, lock_time tx, expiry_height tx).
Proof.
  intros W. pose proof (wf_vout tx W) as Wo. pose proof (wf_expiry tx W) as We.
  eapply reads_vec; [exact Wo|done..|intros; apply tx_out_enc_len|]. destruct Wo as [Hl Hf].
  apply reads_fail_if; [by rewrite array_alloc_ok|].
  eapply reads_bind; [unfold len; rewrite Nat2Z.id; apply reads_elems; eapply Forall_impl; [|exact Hf]; apply reads_tx_out|].
  eapply reads_bind; [apply reads_u32, W|].
  rewrite <- (app_nil_r (if is_v3 tx || is_v4 tx then _ else _)).
  eapply reads_bind; [|apply reads_ret].
  apply reads_if; intros E; rewrite E in We; [by apply reads_u32|done].
Qed.

Lemma reads_shielded_spends tx : tx_wf tx ->
  reads (tx_deserialize_shielded_spends (is_v4 tx))
    (if is_v4 tx then le8s (value_balance tx) ++ vec_enc spend_enc (v_shielded_spend tx) else [])
    (value_balance tx, v_shielded_spend tx).
Proof.
  intros W. pose proof (wf_balance tx W) as Wb. pose proof (wf_spends tx W) as Ws.
  unfold tx_deserialize_shielded_spends. destruct (is_v4 tx); cbn [negb]; [|rewrite Wb, Ws; apply reads_ret].
  eapply reads_bind; [by apply reads_i64|]. rewrite <- (app_nil_r (vec_enc _ _)).
  eapply reads_vec; [exact Ws|done..|intros x Hx; by rewrite (spend_enc_len x Hx)|]. destruct Ws as [Hl Hf].
  apply reads_fail_if; [by rewrite array_alloc_ok|]. eapply reads_bind; [|apply reads_ret].
  unfold len. rewrite Nat2Z.id. apply reads_elems. eapply Forall_impl; [|exact Hf]. apply reads_spend.
Qed.

Lemma reads_shielded_outputs tx : tx_wf tx ->
  reads (tx_deserialize_shielded_outputs (is_v4 tx))
    (if is_v4 tx then vec_enc output_enc (v_shielded_output tx) else []) (v_shielded_output tx).
Proof.
  intros W. pose proof (wf_outputs tx W) as Wu.
  unfold tx_deserialize_shielded_outputs. destruct (is_v4 tx); cbn [negb]; [|rewrite Wu; apply reads_ret].
  rewrite <- (app_nil_r (vec_enc _ _)).
  eapply reads_vec; [exact Wu|done..|intros x Hx; by rewrite (output_enc_len x Hx)|]. destruct Wu as [Hl Hf].
  apply reads_fail_if; [by rewrite array_alloc_ok|]. rewrite app_nil_r.
  unfold len. rewrite Nat2Z.id. apply reads_elems. eapply Forall_impl; [|exact Hf]. apply reads_output.
Qed.

Lemma reads_joinsplits tx : tx_wf tx ->
  reads (tx_deserialize_joinsplits (overwintered tx) (version tx))
    (if version tx <? 2 then []
     else vec_enc js_enc (v_joinsplit tx) ++
          (if 0 <? len (v_joinsplit tx) then joinsplit_pubkey tx ++ joinsplit_sig tx else []))
    (v_joinsplit tx, joinsplit_pubkey tx, joinsplit_sig tx).
Proof.
  intros W. pose proof (wf_js tx W) as Wj. pose proof (wf_js_keys tx W) as Wk.
  unfold tx_deserialize_joinsplits. destruct (version tx <? 2).
  { rewrite Wj in *. destruct Wk as [-> ->]. apply reads_ret. }
  cbn zeta. fold (js_groth tx).
  eapply reads_vec; [exact Wj|done..|intros x Hx; rewrite (js_enc_len _ x Hx); destruct (js_groth tx); lia|].
  destruct Wj as [Hl Hf].
  destruct (Z.ltb_spec 0 (len (v_joinsplit tx))) as [Hp|Hz]; cbn iota.
  - apply reads_fail_if; [by rewrite array_alloc_ok|]. destruct Wk as [Wk1 Wk2].
    eapply reads_bind; [unfold len; rewrite Nat2Z.id; apply reads_elems; eapply Forall_impl; [|exact Hf]; apply reads_js|].
    eapply reads_bind; [by apply reads_arr|]. rewrite <- (app_nil_r (joinsplit_sig tx)) at 1.
    eapply reads_bind; [by apply reads_arr|]. apply reads_ret.
  - destruct (v_joinsplit tx); [|unfold len in Hz; cbn in Hz; lia]. destruct Wk as [-> ->]. apply reads_ret.
Qed.

Lemma transaction_reads tx : tx_wf tx ->
  reads transaction_deserialize (tx_enc tx) (transaction_compute_hash (with_hash tx uint256_set_null)).
Proof.
  intros W. unfold tx_enc, transaction_deserialize. eapply reads_bind; [by apply reads_header|].
  replace (tx_class tx) with (is_v3 tx, is_v4 tx) by (unfold is_v3, is_v4; by destruct (tx_class tx)).
  cbn beta iota. rewrite <- !app_assoc.
  eapply reads_bind; [by apply reads_inputs|].
  match goal with |- context [?a ++ ?b ++ (if is_v3 tx || is_v4 tx then ?x else ?y) ++ ?r] =>
    rewrite (app_assoc b), (app_assoc a) end.
  eapply reads_bind; [by apply reads_outputs_and_lock|]. cbn beta iota.
  pose proof (reads_shielded_spends tx W) as R1. pose proof (reads_shielded_outputs tx W) as R2.
  pose proof (wf_binding tx W) as Wn. unfold has_shielded in *.
  match goal with |- reads _ ((if is_v4 tx then _ else _) ++ ?r) _ => set (rest := r) end.
  replace ((if is_v4 tx then le8s (value_balance tx) ++ vec_enc spend_enc (v_shielded_spend tx) ++
      vec_enc output_enc (v_shielded_output tx) else []) ++ rest)
    with ((if is_v4 tx then le8s (value_balance tx) ++ vec_enc spend_enc (v_shielded_spend tx) else []) ++
      (if is_v4 tx then vec_enc output_enc (v_shielded_output tx) else []) ++ rest)
    by (destruct (is_v4 tx); rewrite <- ?app_assoc; done).
  eapply reads_bind; [exact R1|]. cbn beta iota. eapply reads_bind; [exact R2|]. subst rest.
  eapply reads_bind; [by apply reads_joinsplits|]. cbn beta iota.
  eapply reads_map; [|reflexivity].
  apply reads_if; intros E; rewrite E in Wn; [by apply reads_arr|done].
Qed.

End Reads.

(** *** The transaction id *)

Lemma concat_len_le {A} (enc : A -> list Z) k l :
  Forall (fun x => len (enc x) <= k) l -> len (concat (map enc l)) <= len l * k.
Proof.
  induction 1 as [|x l Hx _ IH]; [done|]. unfold len in *. cbn [length map concat].
  rewrite length_app. nia.
Qed.

Lemma vec_enc_len_le {A} (enc : A -> list Z) (P : A -> Prop) k max l :
  0 <= k -> (forall x, P x -> len (enc x) <= k) -> vec_wf max P l -> len (vec_enc enc l) <= 9 + max * k.
Proof.
  intros Hk HP [Hl Hf]. unfold vec_enc. rewrite len_app. pose proof (len_compact (len l)).
  assert (len (concat (map enc l)) <= len l * k); [|nia].
  apply concat_len_le. eapply Forall_impl; [|exact Hf]. auto.
Qed.

Lemma script_enc_len s : script_wf s -> len (script_enc s) <= 10009.
Proof.
  intros [_ Hs]. unfold script_enc. rewrite len_app. pose proof (len_compact (script_size s)).
  unfold script_size, MAX_SCRIPT_SIZE, len in *. lia.
Qed.
Lemma tx_in_enc_len_le i : tx_in_wf i -> len (tx_in_enc i) <= 10049.
Proof.
  intros ((Hh & _) & Hs & _). pose proof (script_enc_len _ Hs). unfold tx_in_enc, outpoint_enc. sizes. lia.
Qed.
Lemma tx_out_enc_len_le o : tx_out_wf o -> len (tx_out_enc o) <= 10017.
Proof. intros (_ & Hs). pose proof (script_enc_len _ Hs). unfold tx_out_enc. sizes. lia. Qed.

Lemma tx_enc_len tx : tx_wf tx -> len (tx_enc tx) < 2 ^ 33.
Proof.
  intros W. unfold tx_enc. rewrite !len_app.
  assert (len (header_enc tx) <= 8) as H1.
  { unfold header_enc. destruct (overwintered tx); sizes; lia. }
  pose proof (vec_enc_len_le _ _ 10049 _ _ ltac:(lia) tx_in_enc_len_le (wf_vin tx W)) as H2.
  pose proof (vec_enc_len_le _ _ 10017 _ _ ltac:(lia) tx_out_enc_len_le (wf_vout tx W)) as H3.
  assert (len (if is_v3 tx || is_v4 tx then le4 (expiry_height tx) else []) <= 4) as H4.
  { destruct (is_v3 tx || is_v4 tx); [by rewrite len_le4|done]. }
  assert (len (if is_v4 tx then le8s (value_balance tx) ++ vec_enc spend_enc (v_shielded_spend tx) ++
      vec_enc output_enc (v_shielded_output tx) else []) <= 10000000) as H5.
  { pose proof (wf_spends tx W) as Ws. pose proof (wf_outputs tx W) as Wu. destruct (is_v4 tx); [|done].
    pose proof (vec_enc_len_le spend_enc _ 384 _ _ ltac:(lia) (fun x Hx => Z.eq_le_incl _ _ (spend_enc_len x Hx)) Ws).
    pose proof (vec_enc_len_le output_enc _ 948 _ _ ltac:(lia) (fun x Hx => Z.eq_le_incl _ _ (output_enc_len x Hx)) Wu).
    sizes. unfold MAX_SHIELDED_SPENDS, MAX_SHIELDED_OUTPUTS in *. lia. }
  assert (len (if version tx <? 2 then [] else vec_enc js_enc (v_joinsplit tx) ++
      (if 0 <? len (v_joinsplit tx) then joinsplit_pubkey tx ++ joinsplit_sig tx else [])) <= 10000000) as H6.
  { pose proof (wf_js tx W) as Wj. pose proof (wf_js_keys tx W) as Wk. destruct (version tx <? 2); [done|].
    assert (forall x, js_wf (js_groth tx) x -> len (js_enc x) <= 1802) as Hx.
    { intros x Hx. rewrite (js_enc_len _ x Hx). destruct (js_groth tx); lia. }
    pose proof (vec_enc_len_le js_enc _ 1802 _ _ ltac:(lia) Hx Wj).
    rewrite len_app. unfold MAX_JOINSPLITS in *.
    destruct (0 <? len (v_joinsplit tx)); [destruct Wk; sizes; lia|]. change (len (@nil Z)) with 0. lia. }
  assert (len (if is_v4 tx && has_shielded tx then binding_sig tx else []) <= 64) as H7.
  { pose proof (wf_binding tx W) as Wn. destruct (is_v4 tx && has_shielded tx); [destruct Wn; lia|done]. }
  unfold MAX_TX_INPUTS, MAX_TX_OUTPUTS in *. rewrite len_le4. lia.
Qed.

Lemma tx_wf_with_hash tx h : tx_wf tx -> tx_wf (with_hash tx h).
Proof. intros []. by split. Qed.

Definition scratch : byte_stream := mk_stream [] 4096 0 false true.

(** With memory, serialising into the scratch stream gives the wire format. *)
Lemma scratch_serialize `{Allocator} `{HostOrder} tx : memory_ok -> tx_wf tx ->
  stream_init 4096 = scratch /\
  exists s, transaction_serialize tx scratch = (s, true) /\ data s = tx_enc tx /\ bytes (tx_enc tx).
Proof.
  intros M W. split; [unfold stream_init; change (0 <? 4096) with true; cbn iota; by rewrite (M 4096)|].
  pose proof (tx_enc_len tx W). destruct (transaction_writes tx W scratch) as [Hw Hok].
  - split; [constructor|]. unfold size. cbn [data length read_pos capacity scratch]. lia.
  - unfold size, len in *. cbn [data length scratch]. lia.
  - specialize (Hok eq_refl eq_refl M).
    destruct (transaction_serialize tx scratch) as [s ok]. cbn in Hok. subst ok. exists s.
    destruct Hw as ((Wb & _) & D & _). cbn [data app scratch] in D. by rewrite D in *.
Qed.

(** The id is the double hash of the wire format, whatever was in the hash field. *)
Lemma transaction_id_spec `{Allocator} `{HostOrder} tx : memory_ok -> tx_wf tx ->
  transaction_hash_serialized (Some tx) true = Some (hash256 (tx_enc tx)) /\
  transaction_serialize_size tx = len (tx_enc tx).
Proof.
  intros M W. destruct (scratch_serialize tx M W) as (Ei & s & Es & D & _).
  unfold transaction_hash_serialized, transaction_serialize_size. rewrite Ei, Es. cbn [fst].
  unfold size, len. by rewrite D.
Qed.

Lemma compute_hash_spec `{Allocator} `{HostOrder} tx : memory_ok -> tx_wf tx ->
  transaction_compute_hash tx = with_hash tx (hash256 (tx_enc tx)).
Proof. intros M W. unfold transaction_compute_hash. by rewrite (proj1 (transaction_id_spec tx M W)). Qed.

(** ** Every parsed transaction is well formed

    [yields m k P]: whatever [m] returns satisfies [P], and took at least [k]
    bytes off the stream. *)

Definition yields {A} (m : reader A) (k : Z) (P : A -> Prop) : Prop :=
  forall s s' v, stream_wf s -> m s = (s', Some v) ->
  P v /\ exists n, k <= n /\ s' = advance s n /\ stream_wf s'.

Lemma yields_weaken {A} (m : reader A) k k' (P Q : A -> Prop) :
  yields m k P -> k' <= k -> (forall a, P a -> Q a) -> yields m k' Q.
Proof.
  intros Hm Hk HPQ s s' v Hs E. destruct (Hm s s' v Hs E) as (HP & n & Hn & ? & ?).
  split; [auto|]. exists n. split; [lia|done].
Qed.

Lemma yields_ret {A} (a : A) (P : A -> Prop) : P a -> yields (rret a) 0 P.
Proof. intros HP s s' v Hs [= <- <-]. split; [done|]. exists 0. by rewrite advance_0. Qed.

Lemma yields_fail {A} k (P : A -> Prop) : yields (@rfail A) k P.
Proof. by intros s s' v Hs [=]. Qed.

Lemma yields_bind {A B} (m : reader A) (f : A -> reader B) k1 k2 (P : A -> Prop) (Q : B -> Prop) :
  yields m k1 P -> (forall a, P a -> yields (f a) k2 Q) -> yields (rbind m f) (k1 + k2) Q.
Proof.
  intros Hm Hf s s' v Hs. unfold rbind. destruct (m s) as [s1 [a|]] eqn:E; [|done]. intros E2.
  destruct (Hm s s1 a Hs E) as (HP & n1 & Hn1 & -> & W1).
  destruct (Hf a HP _ s' v W1 E2) as (HQ & n2 & Hn2 & -> & W2). split; [done|].
  exists (n1 + n2). rewrite advance_advance in *. split; [lia|done].
Qed.

Lemma yields_fail_if {A} b (m : reader A) k (P : A -> Prop) :
  (b = false -> yields m k P) -> yields (rfail_if b m) k P.
Proof. unfold rfail_if. destruct b; [intros _; apply yields_fail|auto]. Qed.

Lemma yields_rcheck {A} p (m : reader A) k (P : A -> Prop) : yields m k P -> yields (rcheck p m) k P.
Proof.
  intros Hm s s' v Hs. unfold rcheck, rfail_if. destruct (p s); [done|]. by apply Hm.
Qed.

Lemma yields_elems {A} (m : reader A) k (P : A -> Prop) n :
  yields m k P -> yields (read_elems n m) (Z.of_nat n * k) (fun l => length l = n /\ Forall P l).
Proof.
  intros Hm. induction n as [|n IH]; [by apply yields_ret|]. cbn [read_elems].
  apply (yields_weaken _ (k + (Z.of_nat n * k + 0)) _ (fun l => length l = S n /\ Forall P l)); [|lia|auto].
  eapply yields_bind; [exact Hm|]. intros x Hx. eapply yields_bind; [exact IH|]. cbn beta.
  intros l [Hl Hf]. apply (yields_ret (x :: l)). split; [by cbn; f_equal|by constructor].
Qed.

Lemma yields_read n : 0 <= n -> yields (stream_read_bytes n) n (arr n).
Proof.
  intros Hn s s' v Hs E. pose proof Hs as (Hb & Hr & Hc). unfold stream_read_bytes, stream_read in E.
  destruct (error s); [done|]. cbn [orb] in E.
  destruct (Z.ltb_spec (size s) (read_pos s)); [done|]. cbn [orb] in E.
  destruct (Z.ltb_spec (size s - read_pos s) n); [done|]. simplify_eq. unfold size in *. split.
  - split; [auto with zcl|]. unfold len. rewrite length_take, length_drop. lia.
  - exists n. split; [lia|]. split; [done|]. unfold stream_wf, size. cbn. split_and!; done || lia.
Qed.

Lemma yields_map {A B} (m : reader A) (f : A -> B) k (P : A -> Prop) (Q : B -> Prop) :
  yields m k P -> (forall a, P a -> Q (f a)) -> yields (read x <- m; rret (f x)) k Q.
Proof.
  intros Hm HQ. apply (yields_weaken _ (k + 0) _ Q); [|lia|auto].
  eapply yields_bind; [exact Hm|]. intros a Ha. apply yields_ret. auto.
Qed.

Lemma digits_val_u n b : arr n b -> in_u (8 * n) (digits_val 8 b).
Proof. intros [Hb <-]. by apply digits_val_bound. Qed.

Lemma at_in_u b i n : arr n b -> Z.of_nat i < n -> in_u 8 (at_ b i).
Proof.
  intros [Hb Hl] Hi. unfold at_, len in *. destruct (lookup_lt_is_Some_2 b i) as [x Hx]; [lia|].
  rewrite (nth_lookup_Some _ _ _ _ Hx). by eapply digits_lookup.
Qed.

Lemma yields_u8 : yields stream_read_u8 1 (in_u 8).
Proof. eapply yields_map; [by apply yields_read|]. intros b Hb. by eapply at_in_u. Qed.
Lemma yields_u16 : yields stream_read_u16_le 2 (in_u 16).
Proof.
  eapply yields_map; [by apply yields_read|]. intros b Hb.
  pose proof (at_in_u b 0 _ Hb ltac:(lia)). apply lor_range; [lia| |by apply wrap_range].
  unfold in_u in *. lia.
Qed.
Lemma yields_u32 : yields stream_read_u32_le 4 (in_u 32).
Proof.
  eapply yields_map; [by apply yields_read|]. intros b Hb. pose proof (at_in_u b 0 _ Hb ltac:(lia)).
  assert (in_u 32 (at_ b 0)) by (unfold in_u in *; lia).
  repeat apply lor_range; done || by apply wrap_range.
Qed.
Lemma yields_u64 : yields stream_read_u64_le 8 (in_u 64).
Proof.
  eapply yields_map; [by apply yields_read|]. intros b Hb. unfold at_.
  destruct Hb as [Hb Hl]. rewrite fold_bytes_val by (done || unfold len in Hl; lia).
  by apply (digits_val_u 8).
Qed.
Lemma yields_i64 : yields stream_read_i64_le 8 (in_s 64).
Proof. eapply yields_map; [apply yields_u64|]. intros. by apply swrap_range. Qed.
Lemma yields_compact_size : yields stream_read_compact_size 1 (in_u 64).
Proof.
  unfold stream_read_compact_size. apply (yields_weaken _ (1 + 0) _ (in_u 64)); [|lia|auto].
  eapply yields_bind; [apply yields_u8|]. intros m Hm.
  destruct (m <? 253); [apply yields_ret; unfold in_u in *; lia|].
  destruct (m =? 253); [eapply yields_weaken; [apply yields_u16|lia|]; unfold in_u; lia|].
  destruct (m =? 254); [eapply yields_weaken; [apply yields_u32|lia|]; unfold in_u; lia|].
  eapply yields_weaken; [apply yields_u64|lia|auto].
Qed.

(** Weaken the byte count of the goal to one to be found. *)
Ltac yields_count :=
  lazymatch goal with |- yields ?m ?K ?P => eapply (yields_weaken m _ K P P); [| |auto] end.
Ltac yields_step :=
  eapply yields_bind;
  [first [by apply yields_read | apply yields_u32 | apply yields_i64 | apply yields_compact_size
         | eapply yields_elems; by apply yields_read] | intros ? ?].

Lemma yields_outpoint : yields outpoint_deserialize 36 outpoint_wf.
Proof.
  unfold outpoint_deserialize. yields_count; [do 2 yields_step; by apply yields_ret|lia].
Qed.

Lemma yields_script {B} (k : list Z -> reader B) (Q : B -> Prop) n :
  (forall b, script_wf b -> yields (k b) n Q) ->
  yields (read n <- stream_read_compact_size;
          rfail_if (MAX_SCRIPT_SIZE <? n) (
          read b <- (if 0 <? n then stream_read_bytes n else rret []); k b)) (1 + n) Q.
Proof.
  intros Hk. eapply yields_bind; [apply yields_compact_size|]. intros m Hm. apply yields_fail_if.
  intros Hle. apply Z.ltb_ge in Hle. yields_count.
  - eapply (yields_bind _ _ 0 n script_wf); [|exact Hk].
    destruct (0 <? m); [|by apply yields_ret; split; [constructor|vm_compute]].
    eapply yields_weaken; [apply yields_read; by destruct Hm|by destruct Hm|].
    intros b [Hb Hl]. split; [done|]. unfold script_size, len in *. lia.
  - lia.
Qed.

Lemma yields_tx_in : yields tx_in_deserialize 41 tx_in_wf.
Proof.
  unfold tx_in_deserialize. yields_count.
  - eapply yields_bind; [apply yields_outpoint|]. intros op Ho. apply yields_script. intros b Hb.
    yields_step. by apply yields_ret.
  - lia.
Qed.

Lemma yields_tx_out : yields tx_out_deserialize 9 tx_out_wf.
Proof.
  unfold tx_out_deserialize. yields_count.
  - yields_step. apply yields_script. intros b Hb. by apply yields_ret.
  - lia.
Qed.

Lemma yields_spend : yields spend_description_deserialize 384 spend_wf.
Proof. unfold spend_description_deserialize. yields_count; [do 6 yields_step; by apply yields_ret|by vm_compute]. Qed.

Lemma yields_output : yields output_description_deserialize 948 output_wf.
Proof. unfold output_description_deserialize. yields_count; [do 6 yields_step; by apply yields_ret|by vm_compute]. Qed.

Lemma yields_js groth : yields (js_description_deserialize groth) 1634 (js_wf groth).
Proof.
  unfold js_description_deserialize, js_read_records. yields_count.
  - do 8 yields_step. eapply yields_bind; [apply yields_read; by destruct groth|]. intros p Hp.
    yields_step. apply yields_ret. unfold js_wf. cbn. split_and!; try done. by exists p.
  - destruct groth; by vm_compute.
Qed.

Lemma yields_vec {A B} max p (m : reader A) k (P : A -> Prop) (f : Z -> list A -> reader B) (Q : B -> Prop)
    (g : Z -> bool) :
  yields m k P -> 0 <= k ->
  (forall n l, vec_wf max P l -> len l = n -> yields (f n l) 0 Q) ->
  yields (read n <- stream_read_compact_size;
          rfail_if (max <? n) (rcheck (p n) (
          rfail_if (g n) (read l <- read_elems (Z.to_nat n) m; f n l)))) 1 Q.
Proof.
  intros Hm Hk Hf. yields_count; [eapply yields_bind; [apply yields_compact_size|]|].
  - intros n [Hn _]. apply yields_fail_if. intros Hle. apply Z.ltb_ge in Hle.
    apply yields_rcheck, yields_fail_if. intros _. yields_count.
    + eapply yields_bind; [by apply yields_elems|]. intros l [Hl HF]. apply Hf; [split; [|done]|]; unfold len; lia.
    + instantiate (1 := 0). nia.
  - lia.
Qed.

Section Yields.
Context `{Allocator} `{HostOrder}.

Lemma yields_header : yields tx_deserialize_header 4 (fun hd =>
  let '(ow, v, g, cls) := hd in
  cls = tx_classify_overwinter ow v g /\ 0 <= v < 2 ^ 31 /\
  if ow then fst cls || snd cls = true else g = 0).
Proof.
  unfold tx_deserialize_header. yields_count.
  - eapply yields_bind; [apply yields_u32|]. intros h Hh. cbn zeta. rewrite land31 by done.
    pose proof (Z.mod_pos_bound h (2 ^ 31) ltac:(lia)) as Hv.
    eapply (yields_bind _ _ 0 0 (fun g => negb (h >> 31 =? 0) = false -> g = 0)).
    + destruct (negb (h >> 31 =? 0)); [|by apply yields_ret].
      eapply yields_weaken; [apply yields_u32|lia|done].
    + intros g Hg. apply yields_fail_if. intros Hc. apply yields_ret. split; [done|]. split; [lia|].
      destruct (negb (h >> 31 =? 0)); [|by apply Hg]. by destruct (_ || _).
  - lia.
Qed.

Lemma yields_inputs : yields tx_deserialize_inputs 1 (vec_wf MAX_TX_INPUTS tx_in_wf).
Proof.
  unfold tx_deserialize_inputs. yields_count; [eapply yields_bind; [apply yields_compact_size|]|].
  - intros n [Hn _]. apply yields_fail_if. intros Hle. apply yields_rcheck.
    unfold transaction_alloc. rewrite Hle. cbn [orb]. change (MAX_TX_OUTPUTS <? 0) with false. cbn iota.
    apply Z.ltb_ge in Hle. destruct (_ && _); [|apply yields_fail]. rewrite length_replicate.
    eapply (yields_weaken _ _ 0); [apply yields_elems, yields_tx_in|lia|].
    intros l [Hl Hf]. split; [unfold len; lia|done].
  - lia.
Qed.

Lemma yields_outputs_and_lock v3 v4 :
  yields (tx_deserialize_outputs_and_lock v3 v4) 1 (fun r =>
    let '(vout, lock, expiry) := r in
    vec_wf MAX_TX_OUTPUTS tx_out_wf vout /\ in_u 32 lock /\
    if v3 || v4 then in_u 32 expiry else expiry = 0).
Proof.
  unfold tx_deserialize_outputs_and_lock.
  eapply (yields_vec _ _ _ 9 tx_out_wf); [apply yields_tx_out|lia|].
  intros n l Hl _. yields_count; [yields_step|].
  - eapply (yields_bind _ _ 0 0 (fun e => if v3 || v4 then in_u 32 e else e = 0)).
    + destruct (v3 || v4); [eapply yields_weaken; [apply yields_u32|lia|done]|by apply yields_ret].
    + intros e He. by apply yields_ret.
  - lia.
Qed.

Lemma yields_shielded_spends v4 :
  yields (tx_deserialize_shielded_spends v4) 0 (fun r =>
    if v4 then in_s 64 (fst r) /\ vec_wf MAX_SHIELDED_SPENDS spend_wf (snd r) else r = (0, [])).
Proof.
  unfold tx_deserialize_shielded_spends. destruct v4; cbn [negb]; [|by apply yields_ret].
  yields_count; [yields_step|].
  - eapply (yields_vec _ _ _ 384 spend_wf); [apply yields_spend|lia|]. intros n l Hl _. by apply yields_ret.
  - lia.
Qed.

Lemma yields_shielded_outputs v4 :
  yields (tx_deserialize_shielded_outputs v4) 0 (fun r =>
    if v4 then vec_wf MAX_SHIELDED_OUTPUTS output_wf r else r = []).
Proof.
  unfold tx_deserialize_shielded_outputs. destruct v4; cbn [negb]; [|by apply yields_ret].
  yields_count; [eapply yields_bind; [apply yields_compact_size|]|].
  - intros n [Hn _]. apply yields_fail_if. intros Hle. apply Z.ltb_ge in Hle.
    apply yields_rcheck, yields_fail_if. intros _.
    eapply (yields_weaken _ _ 0); [apply yields_elems, yields_output|lia|].
    intros l [Hl Hf]. split; [unfold len; lia|done].
  - lia.
Qed.

Lemma yields_joinsplits ow v :
  yields (tx_deserialize_joinsplits ow v) 0 (fun r =>
    let '(js, pubkey, sig) := r in
    (if v <? 2 then js = [] else vec_wf MAX_JOINSPLITS (js_wf (ow && (SAPLING_TX_VERSION <=? v))) js) /\
    if 0 <? len js then u256 pubkey /\ arr 64 sig
    else pubkey = uint256_set_null /\ sig = replicate 64 0).
Proof.
  unfold tx_deserialize_joinsplits. destruct (v <? 2); [by apply yields_ret|]. cbn zeta.
  yields_count; [eapply yields_bind; [apply yields_compact_size|]|].
  - intros n [Hn _]. apply yields_fail_if. intros Hle. apply Z.ltb_ge in Hle. apply yields_rcheck.
    destruct (Z.ltb_spec 0 n); [|apply yields_ret; split; [split; [by vm_compute|constructor]|done]].
    apply yields_fail_if. intros _. yields_count.
    + eapply yields_bind; [apply yields_elems, yields_js|]. intros l [Hl Hf]. do 2 yields_step.
      apply yields_ret. split; [split; [unfold len; lia|done]|].
      destruct (Z.ltb_spec 0 (len l)); [done|unfold len in *; lia].
    + lia.
  - lia.
Qed.

Lemma compute_hash_wf tx : tx_wf tx -> tx_wf (transaction_compute_hash tx).
Proof.
  intros W. unfold transaction_compute_hash.
  destruct (transaction_hash_serialized _ _); [by apply tx_wf_with_hash|done].
Qed.

Lemma transaction_yields :
  yields transaction_deserialize 6 (fun tx =>
    exists tx0, tx_wf tx0 /\ tx = transaction_compute_hash tx0 /\ tx_hash tx0 = uint256_set_null).
Proof.
  unfold transaction_deserialize. yields_count; [eapply yields_bind; [apply yields_header|]|].
  - intros [[[ow v] g] [v3 v4]] (Hc & Hv & Hg).
    eapply yields_bind; [apply yields_inputs|]. intros vin Hvin.
    eapply yields_bind; [apply yields_outputs_and_lock|]. intros [[vout lock] expiry] (Hvout & Hlock & Hexp).
    eapply yields_bind; [apply yields_shielded_spends|]. intros [bal sp] Hsp.
    eapply yields_bind; [apply yields_shielded_outputs|]. intros outs Houts.
    eapply yields_bind; [apply yields_joinsplits|]. intros [[js pk] sig] [Hjs Hkeys].
    eapply (yields_map _ _ 0 (fun b => if v4 && ((0 <? len sp) || (0 <? len outs)) then arr 64 b else b = replicate 64 0)).
    + destruct (v4 && _); [eapply yields_weaken; [by apply yields_read|lia|done]|by apply yields_ret].
    + intros b Hb. eexists. split; [|split; reflexivity].
      unfold tx_class, tx_classify_overwinter in *. injection Hc as E3 E4.
      split; unfold is_v3, is_v4, tx_class, tx_classify_overwinter, js_groth, has_shielded; cbn;
        rewrite <- ?E3, <- ?E4; try done; destruct v4; try done; try (by destruct Hsp); by simplify_eq/=.
  - lia.
Qed.

End Yields.

(** ** The early count checks change nothing

    The deserialiser as the wire format alone defines it: the same fields in the
    same order with the count limits, and no look at the remaining length. *)

Module Reference.
Section Unchecked.
Context `{Allocator} `{HostOrder}.

Definition counted {A} (max : Z) (m : reader A) : reader (list A) :=
  read n <- stream_read_compact_size;
  rfail_if (max <? n) (read_elems (Z.to_nat n) m).

Definition deserialize : reader transaction :=
  read hd <- tx_deserialize_header;
  let '(overwintered, version, group, (is_v3, is_v4)) := hd in
  read vin <- counted MAX_TX_INPUTS tx_in_deserialize;
  read vout <- counted MAX_TX_OUTPUTS tx_out_deserialize;
  read lock_time <- stream_read_u32_le;
  read expiry <- (if is_v3 || is_v4 then stream_read_u32_le else rret 0);
  read value_balance <- (if is_v4 then stream_read_i64_le else rret 0);
  read v_spend <- (if is_v4 then counted MAX_SHIELDED_SPENDS spend_description_deserialize else rret []);
  read v_output <- (if is_v4 then counted MAX_SHIELDED_OUTPUTS output_description_deserialize else rret []);
  read v_js <- (if version <? 2 then rret [] else
    counted MAX_JOINSPLITS (js_description_deserialize (overwintered && (SAPLING_TX_VERSION <=? version))));
  read pubkey <- (if 0 <? len v_js then stream_read_bytes 32 else rret uint256_set_null);
  read sig <- (if 0 <? len v_js then stream_read_bytes 64 else rret (replicate 64 0));
  read binding <- (if is_v4 && ((0 <? len v_spend) || (0 <? len v_output))
                   then stream_read_bytes 64 else rret (replicate 64 0));
  rret (transaction_compute_hash
    (mk_tx overwintered version group vin vout lock_time expiry value_balance v_spend v_output
       v_js pubkey sig binding uint256_set_null)).
End Unchecked.
End Reference.

(** Two readers accept the same streams, with the same value and position. *)
Definition same_result {A} (m1 m2 : reader A) : Prop :=
  forall s, stream_wf s -> m1 s = m2 s \/ (snd (m1 s) = None /\ snd (m2 s) = None).

#[export] Instance same_result_refl {A} : Reflexive (@same_result A).
Proof. intros m s _. by left. Qed.
#[export] Instance same_result_sym {A} : Symmetric (@same_result A).
Proof. intros m1 m2 H s Hs. destruct (H s Hs) as [E|[E1 E2]]; auto. Qed.
#[export] Instance same_result_trans {A} : Transitive (@same_result A).
Proof.
  intros m1 m2 m3 H1 H2 s Hs. destruct (H1 s Hs) as [E|[E1 E2]], (H2 s Hs) as [F|[F1 F2]];
    rewrite ?E, ?F in *; auto.
Qed.

Lemma same_result_bind {A B} (m1 m2 : reader A) (f1 f2 : A -> reader B) k P :
  same_result m1 m2 -> yields m2 k P -> (forall a, P a -> same_result (f1 a) (f2 a)) ->
  same_result (rbind m1 f1) (rbind m2 f2).
Proof.
  intros Hm Hy Hf s Hs. unfold rbind. destruct (m2 s) as [s2 r2] eqn:E2.
  destruct (Hm s Hs) as [E|[E F]]; rewrite ?E2 in *.
  - rewrite E. destruct r2 as [a|]; [|by left].
    destruct (Hy s s2 a Hs E2) as (HP & n & _ & _ & W). by apply Hf.
  - cbn in F. subst r2. destruct (m1 s) as [s1 r1]. cbn in E. subst r1. by right.
Qed.

(** Replacing the first reader needs nothing of the rest. *)
Lemma same_result_bind_refl_r {A B} (m1 m2 : reader A) (f : A -> reader B) :
  same_result m1 m2 -> same_result (rbind m1 f) (rbind m2 f).
Proof.
  intros Hm s Hs. unfold rbind. destruct (Hm s Hs) as [E|[E F]]; [rewrite E; by left|].
  destruct (m1 s) as [s1 r1], (m2 s) as [s2 r2]. cbn in E, F. subst. by right.
Qed.

Lemma same_result_bind_l {A B} (m : reader A) (f1 f2 : A -> reader B) k P :
  yields m k P -> (forall a, P a -> same_result (f1 a) (f2 a)) ->
  same_result (rbind m f1) (rbind m f2).
Proof. apply same_result_bind. done. Qed.

Lemma same_result_assoc {A B C} (m : reader A) (f : A -> reader B) (g : B -> reader C) :
  same_result (rbind (rbind m f) g) (rbind m (fun a => rbind (f a) g)).
Proof. intros s _. left. unfold rbind. by destruct (m s) as [s' []]. Qed.

Lemma same_result_ret {A B} (a : A) (f : A -> reader B) : same_result (rbind (rret a) f) (f a).
Proof. by intros s _; left. Qed.

Lemma same_result_map_ret {A} (m : reader A) : same_result (rbind m rret) m.
Proof. intros s _. left. unfold rbind, rret. by destruct (m s) as [s' []]. Qed.

Lemma same_result_fail_if {A} b (m1 m2 : reader A) :
  (b = false -> same_result m1 m2) -> same_result (rfail_if b m1) (rfail_if b m2).
Proof. destruct b; [done|auto]. Qed.

(** A reader that needs [n] elements of at least [per] bytes fails anyway where
    the plausibility check does. *)
Lemma rcheck_redundant {A} n per (m : reader A) P :
  0 <= n * per < 2 ^ 64 -> yields m (n * per) P -> same_result (rcheck (implausible n per) m) m.
Proof.
  intros Hr Hy s Hs. unfold rcheck, rfail_if, implausible.
  destruct (Z.ltb_spec (stream_remaining s) (u64 (n * per))) as [Hl|]; [|by left].
  right. split; [done|]. destruct (m s) as [s' [v|]] eqn:E; [|done]. exfalso.
  destruct (Hy s s' v Hs E) as (_ & k & Hk & -> & W). rewrite wrap_id in Hl by done.
  destruct Hs as (_ & Hp & _), W as (_ & W & _). unfold stream_remaining, size in *. cbn in W.
  destruct (Z.leb_spec (Z.of_nat (length (data s))) (read_pos s)); lia.
Qed.

Lemma yields_counted {A} max (m : reader A) k (P : A -> Prop) :
  yields m k P -> 0 <= k -> yields (Reference.counted max m) 1 (vec_wf max P).
Proof.
  intros Hm Hk. unfold Reference.counted. yields_count; [eapply yields_bind; [apply yields_compact_size|]|].
  - intros n [Hn _]. apply yields_fail_if. intros Hle. apply Z.ltb_ge in Hle.
    eapply (yields_weaken _ _ 0); [by apply yields_elems|nia|].
    intros l [Hl HF]. split; [unfold len; lia|done].
  - lia.
Qed.

(** The counted-array reader of the code, with what follows it. *)
Lemma counted_same {A B} max per (m : reader A) (P : A -> Prop) (g : Z -> bool) (f : list A -> reader B) Q :
  yields m per P -> 0 <= per -> max * per < 2 ^ 64 -> (forall n, g n = false) ->
  (forall l, yields (f l) 0 Q) ->
  same_result
    (read n <- stream_read_compact_size;
     rfail_if (max <? n) (rcheck (implausible n per) (
     rfail_if (g n) (read l <- read_elems (Z.to_nat n) m; f l))))
    (read l <- Reference.counted max m; f l).
Proof.
  intros Hm Hper Hmax Hg Hf. unfold Reference.counted. rewrite same_result_assoc.
  eapply same_result_bind_l; [apply yields_compact_size|]. intros n [Hn _]. rewrite Hg.
  unfold rfail_if. destruct (Z.ltb_spec max n); [intros s _; by right|].
  eapply rcheck_redundant; [nia|]. yields_count.
  - eapply yields_bind; [by apply yields_elems|]. intros l _. apply Hf.
  - nia.
Qed.

Lemma yields_any {A} (m : reader A) k (P : A -> Prop) : yields m k P -> 0 <= k -> yields m 0 (fun _ => True).
Proof. intros Hm Hk. eapply yields_weaken; [exact Hm|lia|done]. Qed.

Section Unguarded.
Context `{Allocator} `{HostOrder} (M : memory_ok).

Lemma inputs_same : same_result tx_deserialize_inputs (Reference.counted MAX_TX_INPUTS tx_in_deserialize).
Proof.
  unfold tx_deserialize_inputs, Reference.counted.
  eapply same_result_bind_l; [apply yields_compact_size|]. intros n [Hn _].
  unfold rfail_if. destruct (Z.ltb_spec MAX_TX_INPUTS n); [done|].
  unfold transaction_alloc. rewrite !array_alloc_ok by done.
  replace (MAX_TX_INPUTS <? n) with false by (symmetry; by apply Z.ltb_ge).
  change (MAX_TX_OUTPUTS <? 0) with false. cbn [orb andb]. cbn iota. rewrite length_replicate.
  apply (rcheck_redundant _ _ _ (fun _ => True)); [unfold MAX_TX_INPUTS in *; lia|].
  eapply yields_weaken; [apply yields_elems, yields_tx_in|lia|auto].
Qed.

Lemma outputs_same v3 v4 :
  same_result (tx_deserialize_outputs_and_lock v3 v4)
    (read vout <- Reference.counted MAX_TX_OUTPUTS tx_out_deserialize;
     read lock_time <- stream_read_u32_le;
     read expiry <- (if v3 || v4 then stream_read_u32_le else rret 0);
     rret (vout, lock_time, expiry)).
Proof.
  eapply (counted_same MAX_TX_OUTPUTS 9 _ _ (fun n => negb (array_alloc n sizeof_tx_out)) _ (fun _ => True));
    [apply yields_tx_out|lia|done|intros n; by rewrite array_alloc_ok|].
  intros l. yields_count; [yields_step; eapply (yields_bind _ _ 0 0 (fun _ => True))|lia].
  - destruct (v3 || v4); [by eapply yields_any; [apply yields_u32|]|by apply yields_ret].
  - intros e _. by apply yields_ret.
Qed.

Lemma spends_same v4 :
  same_result (tx_deserialize_shielded_spends v4)
    (read bal <- (if v4 then stream_read_i64_le else rret 0);
     read sp <- (if v4 then Reference.counted MAX_SHIELDED_SPENDS spend_description_deserialize else rret []);
     rret (bal, sp)).
Proof.
  unfold tx_deserialize_shielded_spends. destruct v4; cbn [negb]; [|done].
  eapply same_result_bind_l; [apply yields_i64|]. intros bal _.
  eapply (counted_same MAX_SHIELDED_SPENDS 384 _ _ (fun n => negb (array_alloc n sizeof_spend_description))
    _ (fun _ => True)); [apply yields_spend|lia|done|intros n; by rewrite array_alloc_ok|].
  intros l. by apply yields_ret.
Qed.

Lemma shielded_outputs_same v4 :
  same_result (tx_deserialize_shielded_outputs v4)
    (if v4 then Reference.counted MAX_SHIELDED_OUTPUTS output_description_deserialize else rret []).
Proof.
  unfold tx_deserialize_shielded_outputs, Reference.counted. destruct v4; cbn [negb]; [|done].
  eapply same_result_bind_l; [apply yields_compact_size|]. intros n [Hn _].
  unfold rfail_if. destruct (Z.ltb_spec MAX_SHIELDED_OUTPUTS n); [done|].
  rewrite array_alloc_ok by done. cbn [negb].
  apply (rcheck_redundant _ _ _ (fun _ => True)); [unfold MAX_SHIELDED_OUTPUTS in *; lia|].
  eapply yields_weaken; [apply yields_elems, yields_output|lia|auto].
Qed.

Lemma joinsplits_same ow v :
  same_result (tx_deserialize_joinsplits ow v)
    (read js <- (if v <? 2 then rret [] else
       Reference.counted MAX_JOINSPLITS (js_description_deserialize (ow && (SAPLING_TX_VERSION <=? v))));
     read pubkey <- (if 0 <? len js then stream_read_bytes 32 else rret uint256_set_null);
     read sig <- (if 0 <? len js then stream_read_bytes 64 else rret (replicate 64 0));
     rret (js, pubkey, sig)).
Proof.
  unfold tx_deserialize_joinsplits, Reference.counted. destruct (v <? 2); [done|]. cbn zeta.
  set (m := js_description_deserialize _). rewrite same_result_assoc.
  eapply same_result_bind_l; [apply yields_compact_size|]. intros n [Hn _].
  unfold rfail_if. destruct (Z.ltb_spec MAX_JOINSPLITS n); [intros s _; by right|].
  assert (yields (read_elems (Z.to_nat n) m) (n * 1634) (fun l => len l = n)) as Hm.
  { eapply yields_weaken; [apply yields_elems, yields_js|lia|]. unfold len. intros l [Hl _]. lia. }
  destruct (Z.ltb_spec 0 n).
  - rewrite array_alloc_ok by done. cbn [negb]. rewrite (rcheck_redundant _ _ _ (fun _ => True)).
    + eapply same_result_bind_l; [exact Hm|]. cbn beta. intros l Hl.
      replace (0 <? len l) with true by (symmetry; apply Z.ltb_lt; lia). done.
    + unfold MAX_JOINSPLITS in *. lia.
    + yields_count.
      * eapply yields_bind; [exact Hm|]. intros l _. do 2 yields_step. by apply yields_ret.
      * lia.
  - assert (n = 0) as -> by lia. cbn [Z.to_nat read_elems]. rewrite (same_result_ret []). cbn iota.
    change (0 <? len (@nil js_description)) with false. cbn iota.
    apply (rcheck_redundant _ _ _ (fun _ => True)); [lia|]. by apply (yields_ret _ (fun _ => True)).
Qed.

Lemma deserialize_same : same_result transaction_deserialize Reference.deserialize.
Proof.
  unfold transaction_deserialize, Reference.deserialize.
  eapply same_result_bind_l; [apply yields_header|]. intros [[[ow v] g] [v3 v4]] _.
  eapply same_result_bind; [apply inputs_same|apply (yields_counted _ _ 41); [apply yields_tx_in|lia]|]. intros vin _.
  etransitivity; [eapply same_result_bind_refl_r; apply outputs_same|].
  rewrite same_result_assoc. eapply same_result_bind_l; [apply (yields_counted _ _ 9); [apply yields_tx_out|lia]|]. intros vout _.
  rewrite same_result_assoc. eapply same_result_bind_l; [apply yields_u32|]. intros lock _.
  rewrite same_result_assoc. eapply (same_result_bind_l _ _ _ 0 (fun _ => True)).
  { destruct (v3 || v4); [by eapply yields_any; [apply yields_u32|]|by apply yields_ret]. }
  intros expiry _. rewrite same_result_ret.
  etransitivity; [eapply same_result_bind_refl_r; apply spends_same|].
  rewrite same_result_assoc. eapply (same_result_bind_l _ _ _ 0 (fun _ => True)).
  { destruct v4; [by eapply yields_any; [apply yields_i64|]|by apply yields_ret]. }
  intros bal _. rewrite same_result_assoc. eapply (same_result_bind_l _ _ _ 0 (fun _ => True)).
  { destruct v4; [by eapply yields_any; [apply (yields_counted _ _ 384); [apply yields_spend|lia]|]|by apply yields_ret]. }
  intros sp _. rewrite same_result_ret.
  eapply (same_result_bind _ _ _ _ 0 (fun _ => True)); [apply shielded_outputs_same| |].
  { destruct v4; [by eapply yields_any; [apply (yields_counted _ _ 948); [apply yields_output|lia]|]|by apply yields_ret]. }
  intros outs _. etransitivity; [eapply same_result_bind_refl_r; apply joinsplits_same|].
  rewrite same_result_assoc. eapply (same_result_bind_l _ _ _ 0 (fun _ => True)).
  { destruct (v <? 2); [by apply yields_ret|].
    by eapply yields_any; [apply (yields_counted _ _ 1634); [apply yields_js|lia]|]. }
  intros js _. rewrite same_result_assoc. eapply (same_result_bind_l _ _ _ 0 (fun _ => True)).
  { destruct (0 <? len js); [by eapply yields_any; [by apply yields_read|]|by apply yields_ret]. }
  intros pk _. rewrite same_result_assoc. eapply (same_result_bind_l _ _ _ 0 (fun _ => True)).
  { destruct (0 <? len js); [by eapply yields_any; [by apply yields_read|]|by apply yields_ret]. }
  intros sig _. by rewrite same_result_ret.
Qed.

End Unguarded.

(** ** Value sums *)

Fixpoint sum_list (l : list Z) : Z := match l with [] => 0 | v :: l => v + sum_list l end.

(** The promise of both sums: the total of the terms when each of them and the
    total are amounts of money, and -1 otherwise. *)
Definition money_total (l : list Z) : Z :=
  if forallb MoneyRange l && MoneyRange (sum_list l) then sum_list l else -1.

Definition out_terms (tx : transaction) : list Z :=
  map value (vout tx) ++ (if value_balance tx <=? 0 then [- value_balance tx] else []) ++
  map vpub_old (v_joinsplit tx).
Definition shielded_in_terms (tx : transaction) : list Z :=
  (if 0 <=? value_balance tx then [value_balance tx] else []) ++ map vpub_new (v_joinsplit tx).

(** A term that an [int64_t] running total within the money range can absorb. *)
Definition addable (v : Z) : Prop := - 2 ^ 63 <= v <= 2 ^ 63 - 1 - MAX_MONEY.

Lemma MoneyRange_spec v : MoneyRange v = true <-> 0 <= v <= MAX_MONEY.
Proof. unfold MoneyRange. rewrite andb_true_iff, Z.leb_le, Z.leb_le. done. Qed.
Lemma MoneyRange_false v : MoneyRange v = false <-> ~ 0 <= v <= MAX_MONEY.
Proof. rewrite <- MoneyRange_spec. by destruct (MoneyRange v). Qed.

Lemma sum_list_nonneg l : Forall (fun v => 0 <= v) l -> 0 <= sum_list l.
Proof. induction 1; cbn; lia. Qed.

(** The running checks are the checks on the terms and on the final total. *)
Lemma sum_money_spec l total :
  0 <= total <= MAX_MONEY -> Forall addable l ->
  sum_money total l = Some
    (if forallb MoneyRange l && MoneyRange (total + sum_list l) then Some (total + sum_list l) else None).
Proof.
  intros Ht Hl. revert total Ht. induction Hl as [|v l Hv _ IH]; intros total Ht.
  { cbn. rewrite Z.add_0_r. by rewrite (proj2 (MoneyRange_spec total) Ht). }
  cbn [sum_money forallb sum_list].
  rewrite s64_ok by (unfold addable, MAX_MONEY, COIN in *; lia).
  destruct (MoneyRange v) eqn:Ev; cbn [negb orb andb]; [|done]. apply MoneyRange_spec in Ev.
  rewrite Z.add_assoc. destruct (MoneyRange (total + v)) eqn:Et; cbn [negb].
  - apply MoneyRange_spec in Et. by apply IH.
  - apply MoneyRange_false in Et. destruct (forallb MoneyRange l) eqn:Ef; [|done]. cbn [andb].
    assert (0 <= sum_list l).
    { apply sum_list_nonneg, Forall_forall. intros x Hx.
      pose proof (proj1 (forallb_forall _ _) Ef x Hx) as E.
      apply MoneyRange_spec in E. lia. }
    rewrite (proj2 (MoneyRange_false (total + v + sum_list l))); [done|lia].
Qed.

Lemma sum_list_app a b : sum_list (a ++ b) = sum_list a + sum_list b.
Proof. induction a as [|x a IH]; cbn; [done|]. lia. Qed.

Lemma money_prefix a b :
  forallb MoneyRange (a ++ b) && MoneyRange (sum_list (a ++ b)) = true ->
  forallb MoneyRange a && MoneyRange (sum_list a) = true.
Proof.
  intros E. apply andb_true_iff in E as [E1 E2]. rewrite forallb_app in E1.
  apply andb_true_iff in E1 as [Ea Eb]. rewrite Ea. cbn [andb]. rewrite sum_list_app in E2.
  apply MoneyRange_spec in E2. apply MoneyRange_spec.
  assert (forall l, forallb MoneyRange l = true -> 0 <= sum_list l) as G.
  { induction l as [|v l IH]; [done|]. cbn. intros E. apply andb_true_iff in E as [Ev El].
    apply MoneyRange_spec in Ev. specialize (IH El). lia. }
  pose proof (G a Ea). pose proof (G b Eb). lia.
Qed.

(** Summing a list in two runs. *)
Lemma sum_money_then a b :
  Forall addable (a ++ b) ->
  (let? r := sum_money 0 a in
   match r with None => Some (-1) | Some t => let? r := sum_money t b in Some (or_minus_one r) end) =
  Some (money_total (a ++ b)).
Proof.
  intros Hl. apply Forall_app in Hl as [Ha Hb]. unfold money_total.
  rewrite sum_money_spec by (done || unfold MAX_MONEY, COIN; lia). rewrite Z.add_0_l.
  destruct (forallb MoneyRange a && MoneyRange (sum_list a)) eqn:E.
  - apply andb_true_iff in E as [Ea Es]. apply MoneyRange_spec in Es.
    rewrite sum_money_spec by done. rewrite forallb_app, Ea, sum_list_app. cbn [andb].
    by destruct (_ && _).
  - destruct (forallb MoneyRange (a ++ b) && MoneyRange (sum_list (a ++ b))) eqn:F; [|done].
    apply money_prefix in F. congruence.
Qed.

Lemma sum_money_app total a b :
  sum_money total (a ++ b) =
  let? r := sum_money total a in match r with None => Some None | Some t => sum_money t b end.
Proof.
  revert total. induction a as [|v a IH]; intros total; [done|]. cbn [app sum_money].
  destruct (s64 (total + v)); [|done]. destruct (negb _ || _); [done|]. apply IH.
Qed.

Lemma value_out_total tx :
  Forall addable (out_terms tx) -> value_balance tx <> - 2 ^ 63 -> - 2 ^ 63 <= value_balance tx < 2 ^ 63 ->
  transaction_get_value_out tx = Some (money_total (out_terms tx)).
Proof.
  intros Ha Hm Hr. unfold out_terms in *. rewrite app_assoc in *. rewrite <- sum_money_then by done.
  unfold transaction_get_value_out. rewrite sum_money_app.
  destruct (sum_money 0 (map value (vout tx))) as [[t|]|]; [|done..].
  destruct (value_balance tx <=? 0); [|done]. by rewrite s64_ok by lia.
Qed.

Lemma shielded_in_total tx : Forall addable (shielded_in_terms tx) ->
  transaction_get_shielded_value_in tx = Some (money_total (shielded_in_terms tx)).
Proof.
  intros Ha. unfold shielded_in_terms in *. rewrite <- sum_money_then by done.
  unfold transaction_get_shielded_value_in. by destruct (0 <=? value_balance tx).
Qed.

(** A one-input, two-output transaction, and one with outputs of one unit and of
    the largest [int64_t]. *)
Definition sample_tx : transaction :=
  mk_tx false 1 0 [mk_tx_in (mk_outpoint (replicate 32 17) 3) [0x51; 0x52] UINT32_MAX]
    [mk_tx_out 7 [0x51]; mk_tx_out 5 []] 9 0 0 [] [] []
    uint256_set_null (replicate 64 0) (replicate 64 0) uint256_set_null.
Definition overflow_tx : transaction :=
  mk_tx false 1 0 [] [mk_tx_out 1 []; mk_tx_out (2 ^ 63 - 1) []] 0 0 0 [] [] []
    uint256_set_null (replicate 64 0) (replicate 64 0) uint256_set_null.

Lemma sample_tx_wf : tx_wf sample_tx.
Proof. split; try done; try (split; [by vm_compute|]); repeat constructor; vm_compute; congruence. Qed.
Lemma overflow_tx_wf : tx_wf overflow_tx.
Proof. split; try done; try (split; [by vm_compute|]); repeat constructor; vm_compute; congruence. Qed.

(** C17: the value sums compute what their contract says where no addition can
    overflow (every term leaves room for a total within the money range): both
    are defined and equal the total of their terms, or -1 as soon as a term or
    the total is not an amount of money. Without that condition the sums are not
    safe: the addition runs before the range check, and there is a transaction
    the wire format can carry on which it overflows. *)
Theorem value_sums_spec tx :
  (Forall addable (out_terms tx) -> value_balance tx <> - 2 ^ 63 ->
     - 2 ^ 63 <= value_balance tx < 2 ^ 63 ->
     transaction_get_value_out tx = Some (money_total (out_terms tx))) /\
  (Forall addable (shielded_in_terms tx) ->
     transaction_get_shielded_value_in tx = Some (money_total (shielded_in_terms tx))) /\
  (tx_wf overflow_tx /\ transaction_get_value_out overflow_tx = None).
Proof.
  split; [apply value_out_total|split; [apply shielded_in_total|]].
split; [exact overflow_tx_wf|by vm_compute].
Qed.

Lemma value_sums_spec_witness :
  transaction_get_value_out sample_tx = Some (money_total (out_terms sample_tx)) /\
  money_total (out_terms sample_tx) = 12.
Proof.
  split; [|by vm_compute]. apply (proj1 (value_sums_spec _)).
  - repeat constructor; vm_compute; congruence.
  - vm_compute. congruence.
  - split; vm_compute; congruence.
Defined.

#[local] Instance witness_alloc : Allocator := fun _ => true.
#[local] Instance witness_host : HostOrder := false.

(** ** Claims about the wire format *)

(** C15: the transaction codec round-trips, when the allocator does not fail. On any
    well-formed transaction, of every version, the serialiser appends exactly the wire encoding, and the
    deserialiser maps that encoding, whatever follows it, back to the same
    transaction with its id, consuming exactly those bytes; the id is the double
    SHA-256 of the encoding and the reported size its length. *)
Theorem transaction_roundtrip `{Allocator} `{HostOrder} tx s rest :
  memory_ok -> tx_wf tx ->
  stream_wf s -> owns_data s = true -> error s = false -> size s + len (tx_enc tx) < 2 ^ 64 ->
  bytes rest -> len (tx_enc tx ++ rest) < 2 ^ 64 ->
  (exists s', transaction_serialize tx s = (s', true) /\ data s' = data s ++ tx_enc tx) /\
  transaction_deserialize (stream_init_from_data (tx_enc tx ++ rest)) =
    (advance (stream_init_from_data (tx_enc tx ++ rest)) (len (tx_enc tx)),
     Some (with_hash tx (hash256 (tx_enc tx)))) /\
  transaction_hash_serialized (Some tx) true = Some (hash256 (tx_enc tx)) /\
  transaction_serialize_size tx = len (tx_enc tx).
Proof.
  intros M W Hs Ho He Hf Hr Hl.
  destruct (transaction_writes tx W s Hs Hf) as [Hw Hok].
  specialize (Hok Ho He M). destruct (transaction_serialize tx s) as [s' ok]. cbn in Hok. subst ok.
  destruct Hw as (Ws' & D & _). split; [by exists s'|]. split; [|by apply transaction_id_spec].
  destruct (scratch_serialize tx M W) as (_ & _ & _ & _ & Hb).
  rewrite (transaction_reads M tx W _ rest); [|apply stream_from_data_wf; [by apply digits_app|done]|done|done].
  by rewrite compute_hash_spec by (done || by apply tx_wf_with_hash).
Qed.

Lemma transaction_roundtrip_witness :
  exists h, transaction_deserialize (stream_init_from_data (tx_enc sample_tx ++ [1; 2; 3])) =
    (advance (stream_init_from_data (tx_enc sample_tx ++ [1; 2; 3])) (len (tx_enc sample_tx)),
     Some (with_hash sample_tx h)).
Proof.
  eexists. apply (transaction_roundtrip sample_tx scratch [1; 2; 3]).
  - done.
  - exact sample_tx_wf.
  - split; [constructor|]. split; split; vm_compute; congruence.
  - done.
  - done.
  - by vm_compute.
  - repeat constructor; vm_compute; congruence.
  - by vm_compute.
Defined.

(** C16: parsing is canonicalising, when the allocator does not fail. Whatever bytes a
    stream holds, a transaction accepted from it is well formed (counts, scripts and amounts in range, fields
    outside its version at their initial value), the parser only advanced inside
    the data, the id it carries is the double SHA-256 of its canonical encoding,
    and parsing that encoding gives the same transaction again. *)
Theorem parsed_transaction_canonical `{Allocator} `{HostOrder} s s' tx :
  memory_ok -> stream_wf s -> transaction_deserialize s = (s', Some tx) ->
  tx_wf tx /\
  (exists n, 6 <= n /\ s' = advance s n /\ stream_wf s') /\
  tx_hash tx = hash256 (tx_enc tx) /\
  transaction_deserialize (stream_init_from_data (tx_enc tx)) =
    (advance (stream_init_from_data (tx_enc tx)) (len (tx_enc tx)), Some tx).
Proof.
  intros M Hs E. destruct (transaction_yields s s' tx Hs E) as ((tx0 & W & -> & Hnull) & Hn).
  assert (tx_wf (transaction_compute_hash tx0)) as W' by by apply compute_hash_wf.
  rewrite compute_hash_spec in * by done. change (tx_enc (with_hash tx0 (hash256 (tx_enc tx0)))) with (tx_enc tx0).
  split; [done|]. split; [done|]. split; [done|].
  destruct (scratch_serialize tx0 M W) as (_ & _ & _ & _ & Hb).
  assert (stream_wf (stream_init_from_data (tx_enc tx0))) as Ws.
  { apply stream_from_data_wf; [done|]. pose proof (tx_enc_len tx0 W). unfold len in *. lia. }
  rewrite (transaction_reads M tx0 W _ [] Ws); [|done|by rewrite app_nil_r].
  by rewrite compute_hash_spec by (done || by apply tx_wf_with_hash).
Qed.

(** The sample with its input count in the three-byte form: accepted, and its id
    is that of the one-byte form. *)
Definition long_form : byte_stream :=
  stream_init_from_data (le4 1 ++ 253 :: 1 :: 0 :: drop 5 (tx_enc sample_tx)).

Lemma parsed_transaction_canonical_witness :
  exists tx, snd (transaction_deserialize long_form) = Some tx /\
    tx_hash tx = hash256 (tx_enc tx) /\ tx_enc tx = tx_enc sample_tx.
Proof.
  assert (option_map tx_enc (snd (transaction_deserialize long_form)) = Some (tx_enc sample_tx)) as G
    by (vm_compute; reflexivity).
  assert (stream_wf long_form) as Hs.
  { apply stream_from_data_wf; [|by vm_compute]. repeat constructor; vm_compute; congruence. }
  destruct (transaction_deserialize long_form) as [s' [tx|]] eqn:E; [|done].
  exists tx. split; [done|]. cbn [snd option_map] in G. injection G as G.
  split; [|exact G].
  apply (parsed_transaction_canonical long_form s' tx (fun _ => eq_refl) Hs E).
Defined.

(** The plausibility checks that refuse a count before allocating its array
    do not change what is accepted: with memory available, the deserialiser and
    the plain reading of the wire format, without those checks, return the same
    result on every stream, and the same position when they accept. *)
Theorem count_checks_redundant `{Allocator} `{HostOrder} :
  memory_ok -> same_result transaction_deserialize Reference.deserialize.
Proof. apply deserialize_same. Qed.

Lemma count_checks_redundant_witness : same_result transaction_deserialize Reference.deserialize.
Proof. apply count_checks_redundant. by intros n. Defined.
