(* ===== verification/Merkle.v ===== *)
(** * Merkle trees

    Model of [core/modules/bloom/src/merkle.c]: the merkle root of a block,
    computed level by level over one array, its detection of duplicated
    transactions, and the partial merkle trees that prove inclusion.

    Reads of an array are lookups: [None] is a read outside it. Recursion is on
    the height; the loop over levels takes the array length as fuel, since each
    turn halves the level. *)

From stdpp Require Import base tactics list numbers option.
From Stdlib Require Import ZArith Lia.
From S2P Require Import Prelude Serialize ByteOrder Params Script Hash Transaction.

Definition MAX_MERKLE_HASHES : Z := 65536.
Definition MAX_MERKLE_BITS : Z := MAX_MERKLE_HASHES * 2.

Record partial_merkle_tree := mk_pmt {
  num_transactions : Z; bits : list Z; hashes : list uint256; bad : bool }.

Definition merkle_tree_init : partial_merkle_tree := mk_pmt 0 [] [] false.
Definition merkle_tree_free (t : partial_merkle_tree) : partial_merkle_tree :=
  mk_pmt (num_transactions t) [] [] (bad t).

Definition calc_tree_width (n_transactions : Z) (height : nat) : Z :=
  u32 (n_transactions + (1 << Z.of_nat height) - 1) >> Z.of_nat height.

(** [int height = 0; while (calc_tree_width(n, height) > 1) height++;]: [None]
    would be a shift by the width of [unsigned int]. *)
Fixpoint tree_height_from (fuel : nat) (n : Z) (height : nat) : option nat :=
  match fuel with
  | O => None
  | S fuel => if 1 <? calc_tree_width n height then tree_height_from fuel n (S height) else Some height
  end.
Definition tree_height (n : Z) : option nat := tree_height_from 32 n 0.

Section Tree.
Context `{HostOrder}.

Definition merkle_hash_pair (hl hr : uint256) : uint256 := hash256 (hl ++ hr).

Fixpoint calc_hash (n_tx : Z) (height : nat) (pos : Z) (txids : list uint256) : option uint256 :=
  match height with
  | O => txids !! Z.to_nat pos
  | S height =>
      let? hl := calc_hash n_tx height (u32 (pos * 2)) txids in
      let? hr :=
        if u32 (pos * 2 + 1) <? calc_tree_width n_tx height
        then calc_hash n_tx height (u32 (pos * 2 + 1)) txids
        else Some hl in
      Some (merkle_hash_pair hl hr)
  end.

(** ** Building a partial tree *)

Record build_state := mk_build {
  b_bits : list Z; bits_cap : Z; b_hashes : list uint256; hashes_cap : Z }.

Definition build_add_bit (s : build_state) (bit : bool) : build_state :=
  if bits_cap s <=? len (b_bits s) then s
  else mk_build (b_bits s ++ [if bit then 1 else 0]) (bits_cap s) (b_hashes s) (hashes_cap s).

Definition build_add_hash (s : build_state) (h : uint256) : build_state :=
  if hashes_cap s <=? len (b_hashes s) then s
  else mk_build (b_bits s) (bits_cap s) (b_hashes s ++ [h]) (hashes_cap s).

(** The [or] of [match[p]] for [start <= p < end] and [p < n_tx]. *)
Definition any_match (start stop : Z) (matches : list bool) : bool :=
  existsb id (take (Z.to_nat (stop - start)) (drop (Z.to_nat start) matches)).

Fixpoint traverse_and_build (n_tx : Z) (height : nat) (pos : Z) (txids : list uint256)
    (matches : list bool) (s : build_state) : option build_state :=
  let parent_of_match := any_match (u32 (pos << Z.of_nat height))
    (u32 ((pos + 1) << Z.of_nat height)) (take (Z.to_nat n_tx) matches) in
  let s := build_add_bit s parent_of_match in
  match height with
  | S height' =>
      if negb parent_of_match then
        let? h := calc_hash n_tx height pos txids in Some (build_add_hash s h)
      else
        let? s := traverse_and_build n_tx height' (u32 (pos * 2)) txids matches s in
        if u32 (pos * 2 + 1) <? calc_tree_width n_tx height'
        then traverse_and_build n_tx height' (u32 (pos * 2 + 1)) txids matches s
        else Some s
  | O => let? h := calc_hash n_tx height pos txids in Some (build_add_hash s h)
  end.

(** The outer option is undefined behaviour, the inner one [return false]. *)
Definition merkle_tree_build `{Allocator} (t : partial_merkle_tree) (txids : list uint256)
    (matches : list bool) : option (option partial_merkle_tree) :=
  let num_txids := len txids in
  if (num_txids =? 0) || negb (num_txids =? len matches) || (MAX_MERKLE_HASHES <? num_txids)
  then Some None
  else
    let? height := tree_height num_txids in
    if negb (alloc_ok MAX_MERKLE_BITS && alloc_ok (num_txids * 32)) then Some None
    else
      let? s := traverse_and_build num_txids height 0 txids matches
                  (mk_build [] MAX_MERKLE_BITS [] num_txids) in
      Some (Some (mk_pmt num_txids (b_bits s) (b_hashes s) false)).

(** ** Extracting from a partial tree *)

Record extract_state := mk_ex {
  ex_bad : bool; bits_used : Z; hash_used : Z; matched : list uint256 }.

Definition set_bad (st : extract_state) : extract_state :=
  mk_ex true (bits_used st) (hash_used st) (matched st).
Definition use_bit (st : extract_state) : extract_state :=
  mk_ex (ex_bad st) (u32 (bits_used st + 1)) (hash_used st) (matched st).
Definition use_hash (st : extract_state) : extract_state :=
  mk_ex (ex_bad st) (bits_used st) (u32 (hash_used st + 1)) (matched st).
(** A match beyond the capacity of the result array is dropped. *)
Definition add_matched (cap : Z) (h : uint256) (st : extract_state) : extract_state :=
  if len (matched st) <? cap
  then mk_ex (ex_bad st) (bits_used st) (hash_used st) (matched st ++ [h]) else st.

Fixpoint traverse_and_extract (t : partial_merkle_tree) (height : nat) (pos : Z) (matched_cap : Z)
    (st : extract_state) : uint256 * extract_state :=
  match bits t !! Z.to_nat (bits_used st) with
  | None => (uint256_set_null, set_bad st)
  | Some bit =>
      let parent_of_match := negb (bit =? 0) in
      let st := use_bit st in
      let take_hash :=
        match hashes t !! Z.to_nat (hash_used st) with
        | None => (uint256_set_null, set_bad st)
        | Some h =>
            let st := use_hash st in
            (h, if (match height with O => true | S _ => false end) && parent_of_match
                then add_matched matched_cap h st else st)
        end in
      match height with
      | O => take_hash
      | S height' =>
          if negb parent_of_match then take_hash
          else
            let '(hl, st) := traverse_and_extract t height' (u32 (pos * 2)) matched_cap st in
            let '(hr, st) :=
              if u32 (pos * 2 + 1) <? calc_tree_width (num_transactions t) height' then
                let '(hr, st) := traverse_and_extract t height' (u32 (pos * 2 + 1)) matched_cap st in
                (hr, if uint256_cmp hr hl =? 0 then set_bad st else st)
              else (hl, st) in
            (merkle_hash_pair hl hr, st)
      end
  end.

(** The matched ids and the root, [None] being [return false]. *)
Definition merkle_tree_extract (t : partial_merkle_tree) : option (option (list uint256 * uint256)) :=
  if (num_transactions t =? 0) || (num_transactions t <? len (hashes t)) ||
     (len (bits t) <? len (hashes t))
  then Some None
  else
    let? height := tree_height (num_transactions t) in
    let '(root, st) := traverse_and_extract t height 0 (num_transactions t) (mk_ex false 0 0 []) in
    Some (if ex_bad st then None
          else if negb (u32 (bits_used st + 7) / 8 =? u64 (len (bits t) + 7) / 8) then None
          else if negb (hash_used st =? len (hashes t)) then None
          else Some (matched st, root)).

(** ** The root of a list of transaction ids *)

(** One turn of the inner loop, [i = 2 k]. *)
Definition pair_step (level_size : nat) (acc : option (list uint256 * bool)) (k : nat) :
    option (list uint256 * bool) :=
  let? acc := acc in
  let '(level, mutated) := acc in
  let i := (2 * k)%nat in
  let i2 := if decide (i + 1 < level_size)%nat then (i + 1)%nat else (level_size - 1)%nat in
  let? a := level !! i in
  let? b := level !! i2 in
  let mutated := mutated || (bool_decide (i2 = i + 1)%nat && bool_decide (i2 + 1 = level_size)%nat &&
                             uint256_eq a b) in
  Some (<[k := merkle_hash_pair a b]> level, mutated).

Fixpoint level_loop (fuel : nat) (level : list uint256) (level_size : nat) (mutated : bool) :
    option (uint256 * bool) :=
  if decide (1 < level_size)%nat then
    match fuel with
    | O => None
    | S fuel =>
        let next_size := ((level_size + 1) / 2)%nat in
        let? r := fold_left (pair_step level_size) (seq 0 next_size) (Some (level, mutated)) in
        level_loop fuel (fst r) next_size (snd r)
    end
  else let? h := level !! 0%nat in Some (h, mutated).

Definition merkle_root_mutated_in_place (level : list uint256) : option (uint256 * bool) :=
  match level with
  | [] => Some (uint256_set_null, false)
  | _ => level_loop (length level) level (length level) false
  end.

Definition compute_merkle_root_mutated `{Allocator} (txids : list uint256) : option (uint256 * bool) :=
  match txids with
  | [] => Some (uint256_set_null, false)
  | [h] => Some (h, false)
  | _ =>
      if alloc_ok (len txids * 32) then merkle_root_mutated_in_place txids
      else Some (uint256_set_null, false)
  end.

Definition compute_merkle_root `{Allocator} (txids : list uint256) : option uint256 :=
  option_map fst (compute_merkle_root_mutated txids).

End Tree.

(** ** Reference: the tree as a sequence of levels *)

(** The sibling pairs of a level; a last node without sibling pairs with itself. *)
Fixpoint level_pairs (l : list uint256) : list (uint256 * uint256) :=
  match l with
  | a :: b :: l => (a, b) :: level_pairs l
  | [a] => [(a, a)]
  | [] => []
  end.

(** An even level whose last two nodes are equal. *)
Fixpoint last_dup (l : list uint256) : bool :=
  match l with
  | a :: b :: l => match l with [] => uint256_eq a b | _ => last_dup l end
  | _ => false
  end.

Lemma list_ind2 {A} (P : list A -> Prop) :
  P [] -> (forall a, P [a]) -> (forall a b l, P l -> P (a :: b :: l)) -> forall l, P l.
Proof. intros H0 H1 H2. fix IH 1. intros [|a [|b l]]; [done..|]. apply H2, IH. Qed.

Lemma div2_SS n : ((S (S n) + 1) / 2 = S ((n + 1) / 2))%nat.
Proof. replace (S (S n) + 1)%nat with ((n + 1) + 1 * 2)%nat by lia. rewrite Nat.div_add by lia. lia. Qed.

Lemma length_level_pairs l : length (level_pairs l) = ((length l + 1) / 2)%nat.
Proof. induction l as [|a|a b l IH] using list_ind2; [done..|]. cbn [level_pairs length]. by rewrite div2_SS, IH. Qed.

Lemma level_pairs_lookup l i :
  level_pairs l !! i = option_map (fun a => (a, default a (l !! (2 * i + 1)%nat))) (l !! (2 * i)%nat).
Proof.
  revert i. induction l as [|a|a b l IH] using list_ind2; intros i.
  - cbn [level_pairs]. by rewrite !lookup_nil.
  - destruct i; [done|]. by rewrite !lookup_cons_ne_0 by lia.
  - destruct i; [done|]. cbn [level_pairs lookup list_lookup]. rewrite IH.
    by replace (2 * S i)%nat with (S (S (2 * i))) by lia.
Qed.

(** The mutation test of the code at pair [k], and the level test it amounts to. *)
Definition dup_at (l : list uint256) (k : nat) : bool :=
  bool_decide (2 * k + 2 = length l)%nat &&
  match l !! (2 * k)%nat, l !! (2 * k + 1)%nat with Some a, Some b => uint256_eq a b | _, _ => false end.

Lemma dup_at_last l : existsb (dup_at l) (seq 0 ((length l + 1) / 2)) = last_dup l.
Proof.
  induction l as [|a|a b l IH] using list_ind2; [done..|].
  cbn [length]. rewrite div2_SS. cbn [seq existsb]. rewrite <- seq_shift.
  assert (existsb (dup_at (a :: b :: l)) (map S (seq 0 ((length l + 1) / 2))) =
          existsb (dup_at l) (seq 0 ((length l + 1) / 2))) as ->.
  { clear IH. induction (seq 0 ((length l + 1) / 2)) as [|k ks IHk]; [done|]. cbn [map existsb]. rewrite IHk. f_equal.
    unfold dup_at. replace (2 * S k)%nat with (S (S (2 * k))) by lia. cbn [Nat.add lookup list_lookup length].
    replace (bool_decide (S (S (2 * k + 2)) = S (S (length l)))) with (bool_decide (2 * k + 2 = length l)%nat)
      by (apply bool_decide_ext; lia). done. }
  rewrite IH. unfold dup_at. cbn. destruct l as [|c l]; [by rewrite orb_false_r|].
  cbn [length]. by rewrite bool_decide_false by lia.
Qed.

(** The pairs determine the level, unless one of the two ends in a duplicate. *)
Lemma level_pairs_inj x y :
  level_pairs x = level_pairs y -> last_dup x = false -> last_dup y = false -> x = y.
Proof.
  revert y. induction x as [|a|a b x IH] using list_ind2; intros [|c [|d y]]; cbn [level_pairs]; try done.
  - intros [= ->]. done.
  - intros [= <- <- E] _. destruct y as [|? [|]]; [|done..]. cbn. by rewrite uint256_eq_refl.
  - intros [= -> -> E]. destruct x as [|? [|]]; [|done..]. cbn. by rewrite uint256_eq_refl.
  - intros [= -> -> E] Hx Hy. do 2 f_equal.
    destruct x as [|x0 x]; [by destruct y as [|? [|]]|].
    destruct y as [|y0 y]; [by destruct x|]. by apply IH.
Qed.

Section Levels.
Context `{HostOrder}.

Definition next_level (l : list uint256) : list uint256 :=
  map (fun p => merkle_hash_pair (fst p) (snd p)) (level_pairs l).
Definition level (h : nat) (l : list uint256) : list uint256 := Nat.iter h next_level l.

Lemma length_next_level l : length (next_level l) = ((length l + 1) / 2)%nat.
Proof. unfold next_level. by rewrite length_map, length_level_pairs. Qed.

Lemma next_level_lookup l i :
  next_level l !! i =
  option_map (fun a => merkle_hash_pair a (default a (l !! (2 * i + 1)%nat))) (l !! (2 * i)%nat).
Proof.
  unfold next_level. rewrite list_lookup_fmap, level_pairs_lookup. by destruct (l !! (2 * i)%nat).
Qed.

Lemma level_S h l : level (S h) l = level h (next_level l).
Proof. unfold level. by rewrite Nat.iter_succ_r. Qed.
Lemma level_S_out h l : level (S h) l = next_level (level h l).
Proof. done. Qed.

(** The width of a level: [n] divided by [2^h], rounded up. *)
Lemma length_level h l :
  len (level h l) = (len l + 2 ^ Z.of_nat h - 1) / 2 ^ Z.of_nat h.
Proof.
  induction h as [|h IH]; [unfold len; cbn; by rewrite Z.div_1_r; lia|].
  rewrite level_S_out. unfold len in *. rewrite length_next_level, Nat2Z.inj_div, Nat2Z.inj_add, IH.
  change (Z.of_nat 1) with 1. change (Z.of_nat 2) with 2.
  set (n := Z.of_nat (length l)). rewrite Nat2Z.inj_succ, Z.pow_succ_r by lia.
  set (p := 2 ^ Z.of_nat h). assert (0 < p) by (subst p; apply pow2_pos; lia).
  rewrite <- (Z.div_add _ 1 p), Z.mul_1_l by lia. rewrite Z.div_div, (Z.mul_comm p 2) by lia. f_equal. lia.
Qed.

Lemma calc_tree_width_level n h l :
  len l = n -> n <= 2 ^ 31 -> (h < 32)%nat -> 0 < n -> n + 2 ^ Z.of_nat h - 1 < 2 ^ 32 ->
  calc_tree_width n h = len (level h l).
Proof.
  intros Hl Hn Hh Hp Hw. unfold calc_tree_width. rewrite length_level, Hl.
  pose proof (pow2_pos (Z.of_nat h) ltac:(lia)).
  rewrite Z.shiftl_1_l, wrap_id by (unfold in_u; lia). by rewrite Z.shiftr_div_pow2 by lia.
Qed.

End Levels.

Section Loop.
Context `{HostOrder}.

(** After [m] turns the first [m] entries hold the next level and the rest is
    untouched: writing entry [k] never destroys a node still to be read. *)
Lemma fold_pair_step arr sz mu m :
  (sz <= length arr)%nat -> (m <= (sz + 1) / 2)%nat ->
  fold_left (pair_step sz) (seq 0 m) (Some (arr, mu)) =
  Some (take m (next_level (take sz arr)) ++ drop m arr, mu || existsb (dup_at (take sz arr)) (seq 0 m)).
Proof.
  intros Hsz. set (l := take sz arr).
  assert (length l = sz) as Hl by (subst l; by rewrite length_take_le).
  induction m as [|m IH]; intros Hm; [cbn; by rewrite drop_0, orb_false_r|].
  rewrite seq_S, fold_left_app, IH by lia. cbn [fold_left Nat.add].
  assert (m < (sz + 1) / 2)%nat as Hm' by lia. assert (2 * m < sz)%nat as H2.
  { pose proof (Nat.Div0.mul_div_le (sz + 1) 2). lia. }
  destruct (lookup_lt_is_Some_2 l (2 * m)) as [a Ha]; [lia|].
  assert (forall j x, l !! j = Some x -> (m <= j)%nat ->
    (take m (next_level l) ++ drop m arr) !! j = Some x) as Hread.
  { intros j x Hj Hmj. assert (length (take m (next_level l)) = m) as E.
    { rewrite length_take, length_next_level, Hl. lia. }
    rewrite lookup_app_r, E, lookup_drop by lia. replace (m + (j - m))%nat with j by lia.
    subst l. apply lookup_take_Some in Hj. apply Hj. }
  set (nl := next_level l) in *. unfold pair_step. cbn zeta.
  rewrite (Hread _ _ Ha) by lia.
  assert (nl !! m = Some (merkle_hash_pair a (default a (l !! (2 * m + 1)%nat)))) as Hnl.
  { subst nl. by rewrite next_level_lookup, Ha. }
  assert (forall v, nl !! m = Some v ->
    <[m := v]> (take m nl ++ drop m arr) = take (S m) nl ++ drop (S m) arr) as Hwrite.
  { intros v Hv. assert (length (take m nl) = m) as E.
    { subst nl. rewrite length_take, length_next_level, Hl. lia. }
    destruct (lookup_lt_is_Some_2 arr m) as [x Hx]; [lia|]. rewrite (drop_S _ _ _ Hx), (take_S_r _ _ _ Hv).
    rewrite insert_app_r_alt, E, Nat.sub_diag by lia. cbn [insert list_insert]. by rewrite <- app_assoc. }
  rewrite existsb_app. cbn [existsb]. rewrite orb_false_r, orb_assoc.
  assert (dup_at l m = bool_decide (2 * m + 2 = sz)%nat &&
    match l !! (2 * m + 1)%nat with Some b => uint256_eq a b | None => false end) as Hdup.
  { unfold dup_at. by rewrite Ha, Hl. }
  rewrite Hdup. destruct (decide (2 * m + 1 < sz)%nat) as [Hd|Hd].
  - destruct (lookup_lt_is_Some_2 l (2 * m + 1)) as [b Hb]; [lia|]. rewrite Hb in *. cbn [default] in Hnl. unfold id in Hnl.
    rewrite (Hread _ _ Hb) by lia. rewrite (Hwrite _ Hnl), (bool_decide_true (_ = _)) by done. cbn [andb].
    by replace (2 * m + 1 + 1)%nat with (2 * m + 2)%nat by lia.
  - assert (2 * m + 1 = sz)%nat as Hs by lia. replace (sz - 1)%nat with (2 * m)%nat by lia.
    rewrite (Hread _ _ Ha) by lia. rewrite (lookup_ge_None_2 l) in Hnl by lia. cbn [default] in Hnl. unfold id in Hnl.
    rewrite (Hwrite _ Hnl), (lookup_ge_None_2 l) by lia. do 3 f_equal.
    by rewrite bool_decide_false, andb_false_r by lia.
Qed.

Lemma pair_loop_spec arr sz mu :
  (sz <= length arr)%nat ->
  exists arr', fold_left (pair_step sz) (seq 0 ((sz + 1) / 2)) (Some (arr, mu)) =
    Some (arr', mu || last_dup (take sz arr)) /\
    take ((sz + 1) / 2) arr' = next_level (take sz arr) /\ length arr' = length arr.
Proof.
  intros Hsz. rewrite fold_pair_step by lia. eexists.
  assert (length (take sz arr) = sz) as Hl by by rewrite length_take_le.
  assert (length (next_level (take sz arr)) = (sz + 1) / 2)%nat as Hn by (by rewrite length_next_level, Hl).
  split; [do 3 f_equal; rewrite <- dup_at_last, Hl; done|].
  rewrite (take_ge (next_level _)) by lia. split; [by rewrite take_app_length'|].
  rewrite length_app, length_drop. assert ((sz + 1) / 2 <= sz)%nat; [|lia].
  destruct sz; [cbn; lia|]. apply Nat.Div0.div_le_upper_bound; lia.
Qed.

Definition muts (l : list uint256) (k : nat) : bool := existsb (fun j => last_dup (level j l)) (seq 0 k).

Lemma level_loop_spec k fuel arr sz mu root :
  (sz <= length arr)%nat -> (k <= fuel)%nat ->
  (forall j, (j < k)%nat -> (1 < length (level j (take sz arr)))%nat) ->
  level k (take sz arr) = [root] ->
  level_loop fuel arr sz mu = Some (root, mu || muts (take sz arr) k).
Proof.
  revert fuel arr sz mu. induction k as [|k IH]; intros fuel arr sz mu Hsz Hk Hbig Hroot.
  - cbn in Hroot. assert (sz = 1)%nat as ->.
    { apply (f_equal length) in Hroot. rewrite length_take_le in Hroot by done. done. }
    destruct arr as [|x arr]; [done|]. cbn in Hroot. injection Hroot as ->.
    unfold muts. cbn [seq existsb]. rewrite orb_false_r. by destruct fuel.
  - pose proof (Hbig 0%nat ltac:(lia)) as H0. cbn in H0. rewrite length_take_le in H0 by done.
    destruct fuel as [|fuel]; [lia|]. cbn [level_loop]. rewrite decide_True by done.
    destruct (pair_loop_spec arr sz mu Hsz) as (arr' & -> & Ht & Hl'). cbn [fst snd].
    assert ((sz + 1) / 2 <= sz)%nat by (apply Nat.Div0.div_le_upper_bound; lia).
    rewrite (IH fuel arr' ((sz + 1) / 2)%nat).
    + rewrite Ht. do 2 f_equal. rewrite <- orb_assoc. f_equal. unfold muts. cbn [seq existsb]. f_equal.
      rewrite <- seq_shift. induction (seq 0 k) as [|j js IHj]; [done|]. cbn [map existsb]. rewrite <- IHj.
      by rewrite level_S.
    + lia.
    + lia.
    + intros j Hj. rewrite Ht, <- level_S. apply Hbig. lia.
    + by rewrite Ht, <- level_S.
Qed.

(** The height of the tree over [n] leaves. *)
Definition depth (l : list uint256) : nat := Nat.log2_up (length l).

Lemma depth_spec l : l <> [] ->
  (forall j, (j < depth l)%nat -> 2 ^ Z.of_nat j < len l) /\ len l <= 2 ^ Z.of_nat (depth l).
Proof.
  intros Hl. assert (0 < length l)%nat as Hp by (destruct l; [done|cbn; lia]).
  unfold len, depth. destruct (Nat.eq_dec (length l) 1) as [E|].
  { rewrite E. split; [intros j Hj; cbn in Hj; lia|done]. }
  destruct (Nat.log2_up_spec (length l)) as [H1 H2]; [lia|].
  assert (forall a, 2 ^ Z.of_nat a = Z.of_nat (2 ^ a)) as G by (intros; by rewrite Nat2Z.inj_pow).
  split; [intros j Hj|]; rewrite G; [|lia].
  assert (2 ^ j <= 2 ^ Nat.pred (Nat.log2_up (length l)))%nat by (apply Nat.pow_le_mono_r; lia). lia.
Qed.

Lemma level_depth l : l <> [] ->
  (forall j, (j < depth l)%nat -> (1 < length (level j l))%nat) /\
  exists root, level (depth l) l = [root].
Proof.
  intros Hl. destruct (depth_spec l Hl) as [H1 H2]. split.
  - intros j Hj. specialize (H1 j Hj). pose proof (length_level j l) as E.
    pose proof (pow2_pos (Z.of_nat j) ltac:(lia)).
    assert (2 <= len (level j l)); [|unfold len in *; lia]. rewrite E. apply Z.div_le_lower_bound; lia.
  - pose proof (length_level (depth l) l) as E. pose proof (pow2_pos (Z.of_nat (depth l)) ltac:(lia)).
    assert (0 < len l) by (unfold len; destruct l; [done|cbn; lia]).
    assert (len (level (depth l) l) = 1) as E1.
    { rewrite E. symmetry. apply (Z.div_unique _ _ 1 (len l - 1)); lia. }
    unfold len in E1. destruct (level (depth l) l) as [|r [|]]; cbn in E1; [lia| |lia]. by exists r.
Qed.

Lemma root_in_place_spec l : l <> [] ->
  exists root, level (depth l) l = [root] /\
  merkle_root_mutated_in_place l = Some (root, muts l (depth l)).
Proof.
  intros Hl. destruct (level_depth l Hl) as [Hbig [root Hroot]]. exists root. split; [done|].
  unfold merkle_root_mutated_in_place. destruct l as [|x l0] eqn:E; [done|]. rewrite <- E in *.
  rewrite (level_loop_spec (depth l) _ _ _ _ root); rewrite ?(take_ge l) by lia; try done.
  unfold depth. assert (0 < length l)%nat by (subst l; cbn; lia). apply Nat.log2_up_le_lin. lia.
Qed.

End Loop.

(** ** What the root commits to *)

Section Binding.
Context `{HostOrder}.

(** Every pair the root of [l] hashes. *)
Definition tree_pairs (l : list uint256) : list (uint256 * uint256) :=
  concat (map (fun j => level_pairs (level j l)) (seq 0 (depth l))).

(** No two different pairs among [S] have the same hash. *)
Definition collision_free (S : list (uint256 * uint256)) : Prop :=
  forall p q, In p S -> In q S ->
  merkle_hash_pair (fst p) (snd p) = merkle_hash_pair (fst q) (snd q) -> p = q.

Lemma tree_pairs_level l j p : (j < depth l)%nat -> In p (level_pairs (level j l)) -> In p (tree_pairs l).
Proof.
  intros Hj Hp. apply in_concat. exists (level_pairs (level j l)). split; [|done].
  apply (in_map (fun j => level_pairs (level j l))). apply in_seq. lia.
Qed.

Lemma next_level_inj S x y :
  collision_free S -> incl (level_pairs x) S -> incl (level_pairs y) S ->
  next_level x = next_level y -> level_pairs x = level_pairs y.
Proof.
  intros Hc. unfold next_level. generalize (level_pairs x) (level_pairs y).
  induction l as [|p l IH]; intros [|q l'] Hx Hy E; [reflexivity|discriminate E|discriminate E|].
  cbn [map] in E. pose proof (f_equal (hd []) E) as E1. pose proof (f_equal (@tail _) E) as E2. cbn [hd tail] in E1, E2.
  assert (p = q) as <- by (apply Hc; [apply Hx; left; reflexivity|apply Hy; left; reflexivity|exact E1]).
  f_equal. apply IH; [|intros r Hr; apply Hy; right; exact Hr|exact E2]. intros r Hr. apply Hx. right. exact Hr.
Qed.

Lemma muts_false l k j : muts l k = false -> (j < k)%nat -> last_dup (level j l) = false.
Proof.
  intros Hm Hj. destruct (last_dup (level j l)) eqn:E; [|done]. unfold muts in Hm.
  rewrite <- Hm. symmetry. apply existsb_exists. exists j. split; [apply in_seq; lia|done].
Qed.

Lemma levels_binding P l1 l2 k :
  collision_free P -> depth l1 = k -> depth l2 = k -> incl (tree_pairs l1) P -> incl (tree_pairs l2) P ->
  muts l1 k = false -> muts l2 k = false -> level k l1 = level k l2 ->
  forall d, (d <= k)%nat -> level (k - d) l1 = level (k - d) l2.
Proof.
  intros Hc D1 D2 I1 I2 M1 M2 Hk. induction d as [|d IH]; intros Hd; [by rewrite Nat.sub_0_r|].
  specialize (IH ltac:(lia)). set (j := (k - S d)%nat). replace (k - d)%nat with (S j) in IH by lia.
  rewrite !level_S_out in IH.
  apply level_pairs_inj; [|eapply muts_false; [exact M1|lia]|eapply muts_false; [exact M2|lia]].
  apply (next_level_inj P); [exact Hc| | |exact IH].
  - intros p Hp. apply I1, (tree_pairs_level _ j); [lia|done].
  - intros p Hp. apply I2, (tree_pairs_level _ j); [lia|done].
Qed.

End Binding.

Section Root.
Context `{HostOrder}.

(** The root of the reference tree; the null hash for an empty list. *)
Definition merkle_root (l : list uint256) : uint256 := default uint256_set_null (level (depth l) l !! 0%nat).

Lemma merkle_root_value l : merkle_root_mutated_in_place l = Some (merkle_root l, muts l (depth l)).
Proof.
  destruct l as [|x l]; [done|]. destruct (root_in_place_spec (x :: l)) as (root & Hr & ->); [done|].
  unfold merkle_root. by rewrite Hr.
Qed.

Lemma next_level_ids l : Forall (fun h => length h = 32%nat) (next_level l).
Proof. unfold next_level. apply Forall_map, Forall_forall. intros p _. apply hash256_length. Qed.

Lemma merkle_root_length l : Forall (fun h => length h = 32%nat) l -> length (merkle_root l) = 32%nat.
Proof.
  intros Hl. unfold merkle_root. assert (Forall (fun h => length h = 32%nat) (level (depth l) l)) as Hf.
  { destruct (depth l); [done|]. rewrite level_S_out. apply next_level_ids. }
  destruct (level (depth l) l !! 0%nat) eqn:E; cbn [default]; [|done]. by apply (Forall_lookup_1 _ _ _ _ Hf E).
Qed.

End Root.

(** The root computed level by level inside one array is the root of the
    reference tree, for every list of ids and with no read outside the array:
    the array always holds what the next read needs. The mutation flag is set
    exactly when some level with an even number of nodes ends in two equal
    ones, and the copying variant gives the same answer when its copy can be
    allocated. *)
Theorem merkle_root_spec `{HostOrder, Allocator} l :
  merkle_root_mutated_in_place l =
    Some (merkle_root l, muts l (depth l)) /\
  (memory_ok -> compute_merkle_root_mutated l = merkle_root_mutated_in_place l).
Proof.
  split; [apply merkle_root_value|].
  intros M. destruct l as [|x [|y l]]; [done..|]. unfold compute_merkle_root_mutated. by rewrite (M _).
Qed.

Lemma merkle_root_spec_witness :
  let _ : HostOrder := false in let _ : Allocator := fun _ => true in
  compute_merkle_root_mutated [replicate 32 1; replicate 32 2; replicate 32 3] =
  merkle_root_mutated_in_place [replicate 32 1; replicate 32 2; replicate 32 3].
Proof. intros h a. apply (merkle_root_spec _). by intros n. Defined.

(** C26: the root commits to the transactions. If two non-empty lists of ids of
    trees of the same height have the same root, and no two different inputs
    hashed in computing the two roots collide, then the lists are equal or the
    mutation flag is set on one of them: repeating the tail of a block, which
    leaves the root unchanged, is always flagged. *)
Theorem merkle_root_binding `{HostOrder} l1 l2 root m1 m2 :
  l1 <> [] -> l2 <> [] -> depth l1 = depth l2 ->
  merkle_root_mutated_in_place l1 = Some (root, m1) ->
  merkle_root_mutated_in_place l2 = Some (root, m2) ->
  collision_free (tree_pairs l1 ++ tree_pairs l2) ->
  l1 = l2 \/ m1 = true \/ m2 = true.
Proof.
  intros N1 N2 D R1 R2 Hc.
  destruct (root_in_place_spec l1 N1) as (r1 & L1 & E1). rewrite E1 in R1. injection R1 as -> <-.
  destruct (root_in_place_spec l2 N2) as (r2 & L2 & E2). rewrite E2 in R2. injection R2 as -> <-.
  rewrite <- D in *. destruct (muts l1 (depth l1)) eqn:M1; [auto|].
  destruct (muts l2 (depth l1)) eqn:M2; [auto|]. left.
  pose proof (levels_binding _ l1 l2 (depth l1) Hc eq_refl (eq_sym D)) as G.
  specialize (G (incl_appl _ (incl_refl _)) (incl_appr _ (incl_refl _)) M1 M2 ltac:(congruence) (depth l1) ltac:(lia)).
  by rewrite Nat.sub_diag in G.
Qed.

Definition three : list uint256 := [replicate 32 1; replicate 32 2; replicate 32 3].
Definition three_repeated : list uint256 := three ++ [replicate 32 3].

(** An executable test of [collision_free]. *)
Definition collision_free_b `{HostOrder} (S : list (uint256 * uint256)) : bool :=
  let hs := map (fun p => (merkle_hash_pair (fst p) (snd p), p)) S in
  forallb (fun x => forallb (fun y => negb (bool_decide (fst x = fst y)) || bool_decide (snd x = snd y)) hs) hs.

Lemma collision_free_b_true `{HostOrder} S : collision_free_b S = true -> collision_free S.
Proof.
  unfold collision_free_b. cbn zeta. intros E p q Hp Hq Hh. rewrite forallb_forall in E.
  specialize (E _ (in_map _ _ _ Hp)). rewrite forallb_forall in E. specialize (E _ (in_map _ _ _ Hq)).
  cbn [fst snd] in E. rewrite bool_decide_true in E by exact Hh. by apply bool_decide_eq_true in E.
Qed.

(** A three-transaction block and the same block with its last one repeated. *)
Lemma merkle_root_binding_witness :
  let _ : HostOrder := false in
  three = three_repeated \/ false = true \/ true = true.
Proof.
  intros h.
  assert (exists r, merkle_root_mutated_in_place three = Some (r, false) /\
                    merkle_root_mutated_in_place three_repeated = Some (r, true)) as (r & E1 & E2)
    by (eexists; split; vm_compute; reflexivity).
  apply (merkle_root_binding three three_repeated r); [done|done|done|exact E1|exact E2|].
  apply collision_free_b_true. vm_compute. reflexivity.
Defined.
