(* ===== verification/PartialMerkle.v ===== *)
(** * Partial merkle trees

    Theorems on the inclusion proofs of [core/modules/bloom/src/merkle.c]: what
    [merkle_tree_build] emits, that [merkle_tree_extract] gives it back, and that
    whatever [merkle_tree_extract] accepts against the root of a block names
    transactions of that block. *)

From stdpp Require Import base tactics list numbers option.
From Stdlib Require Import ZArith Lia.
From S2P Require Import Prelude Serialize ByteOrder Params Script Hash Transaction Merkle.

Lemma len_drop {A} (l : list A) n : len (drop n l) = Z.max 0 (len l - Z.of_nat n).
Proof. unfold len. rewrite length_drop. lia. Qed.

Section Nodes.
Context `{HostOrder}.

Definition node (h : nat) (pos : Z) (l : list uint256) : uint256 := default [] (level h l !! Z.to_nat pos).

(** The sizes at which none of the code's 32-bit expressions wraps. *)
Definition small (n : Z) (h : nat) : Prop := 0 < n <= MAX_MERKLE_HASHES /\ (h <= 16)%nat.

Lemma small_width l h : small (len l) h -> calc_tree_width (len l) h = len (level h l).
Proof.
  intros [[H1 H2] Hh]. unfold MAX_MERKLE_HASHES in *.
  assert (2 ^ Z.of_nat h <= 2 ^ 16) by (apply Z.pow_le_mono_r; lia).
  apply calc_tree_width_level; [done|lia|lia|lia|lia].
Qed.

Lemma level_len_le l h : small (len l) h -> len (level h l) <= len l.
Proof.
  intros [[H1 H2] Hh]. rewrite length_level. pose proof (pow2_pos (Z.of_nat h) ltac:(lia)).
  apply Z.div_le_upper_bound; [done|]. nia.
Qed.

(** The children of a node. *)
Lemma children l h pos :
  0 <= pos < len (level (S h) l) ->
  0 <= pos * 2 < len (level h l) /\
  node (S h) pos l = merkle_hash_pair (node h (pos * 2) l)
    (if pos * 2 + 1 <? len (level h l) then node h (pos * 2 + 1) l else node h (pos * 2) l) /\
  In (node h (pos * 2) l,
      if pos * 2 + 1 <? len (level h l) then node h (pos * 2 + 1) l else node h (pos * 2) l)
     (level_pairs (level h l)).
Proof.
  intros [Hp1 Hp2]. rewrite level_S_out in Hp2. unfold len in *. rewrite length_next_level in Hp2.
  set (L := level h l) in *. assert (0 <= pos * 2 < Z.of_nat (length L)).
  { pose proof (Nat.Div0.mul_div_le (length L + 1) 2). lia. }
  split; [done|]. destruct (lookup_lt_is_Some_2 L (Z.to_nat (pos * 2))) as [a Ha]; [lia|].
  assert (level_pairs L !! Z.to_nat pos = Some (a,
    if pos * 2 + 1 <? Z.of_nat (length L) then default [] (L !! Z.to_nat (pos * 2 + 1)) else a)) as Hlp.
  { rewrite level_pairs_lookup. replace (2 * Z.to_nat pos)%nat with (Z.to_nat (pos * 2)) by lia.
    rewrite Ha. cbn [option_map]. do 2 f_equal.
    replace (Z.to_nat (pos * 2) + 1)%nat with (Z.to_nat (pos * 2 + 1)) by lia.
    destruct (Z.ltb_spec (pos * 2 + 1) (Z.of_nat (length L))).
    - destruct (lookup_lt_is_Some_2 L (Z.to_nat (pos * 2 + 1))) as [b Hb]; [lia|]. by rewrite Hb.
    - by rewrite lookup_ge_None_2 by lia. }
  unfold node. fold L. rewrite Ha. change (default [] (Some a)) with a. split.
  - rewrite level_S_out. fold L. unfold next_level. rewrite list_lookup_fmap, Hlp. reflexivity.
  - apply list_elem_of_In, list_elem_of_lookup. by exists (Z.to_nat pos).
Qed.

Lemma calc_hash_node h l pos :
  small (len l) h -> 0 <= pos < len (level h l) -> calc_hash (len l) h pos l = Some (node h pos l).
Proof.
  revert pos. induction h as [|h IH]; intros pos Hs Hp.
  - unfold node, len in *. cbn in *. destruct (lookup_lt_is_Some_2 l (Z.to_nat pos)) as [a Ha]; [lia|].
    by rewrite Ha.
  - assert (small (len l) h) as Hs' by (split; [apply Hs|destruct Hs; lia]).
    destruct (children l h pos Hp) as (Hc & Hn & _). pose proof (level_len_le l h Hs').
    destruct Hs as [[H1 H2] Hh]. unfold MAX_MERKLE_HASHES in *. cbn [calc_hash].
    rewrite !wrap_id by (unfold in_u; lia). rewrite IH, small_width by done.
    rewrite Hn. destruct (Z.ltb_spec (pos * 2 + 1) (len (level h l))); [|done]. by rewrite IH by (done || lia).
Qed.

Lemma tree_height_from_spec d fuel n h :
  (h + d < 32)%nat -> (d < fuel)%nat ->
  (forall j, (j < d)%nat -> 1 < calc_tree_width n (h + j)) -> calc_tree_width n (h + d) <= 1 ->
  tree_height_from fuel n h = Some (h + d)%nat.
Proof.
  revert fuel h. induction d as [|d IH]; intros fuel h Hh Hf Hb He.
  - destruct fuel; [lia|]. cbn. rewrite Nat.add_0_r in *. destruct (Z.ltb_spec 1 (calc_tree_width n h)); [lia|done].
  - destruct fuel as [|fuel]; [lia|]. cbn [tree_height_from].
    pose proof (Hb 0%nat ltac:(lia)) as H0. rewrite Nat.add_0_r in H0.
    destruct (Z.ltb_spec 1 (calc_tree_width n h)); [|lia]. rewrite (IH fuel (S h)); [f_equal; lia|lia|lia| |].
    + intros j Hj. replace (S h + j)%nat with (h + S j)%nat by lia. apply Hb. lia.
    + by replace (S h + d)%nat with (h + S d)%nat by lia.
Qed.

Lemma depth_le l : 0 < len l <= MAX_MERKLE_HASHES -> (depth l <= 16)%nat.
Proof.
  intros [H1 H2]. unfold depth, len, MAX_MERKLE_HASHES in *.
  transitivity (Nat.log2_up (Z.to_nat 65536)); [apply Nat.log2_up_le_mono; lia|]. by vm_compute.
Qed.

Lemma tree_height_depth l : 0 < len l <= MAX_MERKLE_HASHES -> tree_height (len l) = Some (depth l).
Proof.
  intros Hl. pose proof (depth_le l Hl) as Hd.
  assert (l <> []) as Hne by (intros ->; unfold len in Hl; cbn in Hl; lia).
  destruct (level_depth l Hne) as [Hbig [r Hr]].
  apply (tree_height_from_spec (depth l) 32 (len l) 0); [lia|lia| |].
  - intros j Hj. rewrite small_width by (split; [done|lia]). specialize (Hbig j ltac:(lia)). cbn [Nat.add]. unfold len. lia.
  - rewrite small_width by (split; [done|lia]). cbn [Nat.add]. rewrite Hr. by vm_compute.
Qed.

End Nodes.

(** ** What a build emits *)

Definition slice {A} (h : nat) (pos : Z) (x : list A) : list A :=
  take (2 ^ h) (drop (Z.to_nat pos * 2 ^ h) x).

Lemma slice_S {A} h pos (x : list A) :
  0 <= pos -> slice (S h) pos x = slice h (pos * 2) x ++ slice h (pos * 2 + 1) x.
Proof.
  intros Hp. unfold slice. replace (2 ^ S h)%nat with (2 ^ h + 2 ^ h)%nat by (cbn; lia).
  rewrite <- take_take_drop, drop_drop.
  replace (Z.to_nat (pos * 2)) with (2 * Z.to_nat pos)%nat by lia.
  replace (Z.to_nat (pos * 2 + 1)) with (2 * Z.to_nat pos + 1)%nat by lia.
  set (k := (2 ^ h)%nat). replace (2 * Z.to_nat pos * k)%nat with (Z.to_nat pos * (k + k))%nat by lia.
  by replace ((2 * Z.to_nat pos + 1) * k)%nat with (Z.to_nat pos * (k + k) + k)%nat by lia.
Qed.

Lemma slice_nil {A} h pos (x : list A) : (length x <= Z.to_nat pos * 2 ^ h)%nat -> slice h pos x = [].
Proof. intros Hx. unfold slice. by rewrite drop_ge, take_nil. Qed.

Lemma slice_length_eq {A B} h pos (x : list A) (y : list B) :
  length x = length y -> length (slice h pos x) = length (slice h pos y).
Proof. intros E. unfold slice. rewrite !length_take, !length_drop. lia. Qed.

Fixpoint picked (l : list uint256) (ms : list bool) : list uint256 :=
  match l, ms with
  | x :: l, b :: ms => if b then x :: picked l ms else picked l ms
  | _, _ => []
  end.

Lemma picked_app a b c d : length a = length c -> picked (a ++ b) (c ++ d) = picked a c ++ picked b d.
Proof.
  revert c. induction a as [|x a IH]; intros [|y c] E; try done. cbn in *.
  rewrite IH by lia. by destruct y.
Qed.
Lemma picked_none a c : existsb id c = false -> picked a c = [].
Proof.
  revert a. induction c as [|y c IH]; intros [|x a] E; try done. cbn in *.
  apply orb_false_iff in E as [E1 E2]. destruct y; [done|]. auto.
Qed.
Lemma picked_len a c : len (picked a c) <= len a.
Proof.
  revert c. induction a as [|x a IH]; intros [|y c]; unfold len in *; cbn; try lia.
  specialize (IH c). destruct y; cbn; lia.
Qed.

Section Emit.
Context `{HostOrder} (l : list uint256) (ms : list bool).
Context (Hn : 0 < len l <= MAX_MERKLE_HASHES) (Hms : length ms = length l).

Fixpoint emit (h : nat) (pos : Z) : list Z * list uint256 :=
  let p := existsb id (slice h pos ms) in
  match h with
  | O => ([if p then 1 else 0], [node 0 pos l])
  | S h' =>
      if p then
        let a := emit h' (pos * 2) in
        let b := if pos * 2 + 1 <? len (level h' l) then emit h' (pos * 2 + 1) else ([], []) in
        (1 :: fst a ++ fst b, snd a ++ snd b)
      else ([0], [node h pos l])
  end.

Definition hits (h : nat) (pos : Z) : list uint256 := picked (slice h pos l) (slice h pos ms).

Lemma pow_nat_Z h : Z.of_nat (2 ^ h) = 2 ^ Z.of_nat h.
Proof. by rewrite Nat2Z.inj_pow. Qed.

Lemma pos_bound h pos : 0 <= pos < len (level h l) -> pos * 2 ^ Z.of_nat h < len l.
Proof.
  intros [H1 H2]. rewrite length_level in H2. pose proof (pow2_pos (Z.of_nat h) ltac:(lia)).
  assert ((pos + 1) * 2 ^ Z.of_nat h <= len l + 2 ^ Z.of_nat h - 1); [|lia].
  rewrite Z.mul_comm. etransitivity; [|apply Z.mul_div_le; done]. apply Z.mul_le_mono_nonneg_l; lia.
Qed.

Lemma absent_right h pos :
  0 <= pos -> len (level h l) <= pos * 2 + 1 -> slice h (pos * 2 + 1) l = [] /\ slice h (pos * 2 + 1) ms = [].
Proof.
  intros Hp Ha. rewrite length_level in Ha. pose proof (pow2_pos (Z.of_nat h) ltac:(lia)).
  assert (len l <= (pos * 2 + 1) * 2 ^ Z.of_nat h) as Hl.
  { pose proof (Z.mul_succ_div_gt (len l + 2 ^ Z.of_nat h - 1) (2 ^ Z.of_nat h) ltac:(lia)). nia. }
  rewrite <- pow_nat_Z in Hl. unfold len in Hl. split; apply slice_nil; nia.
Qed.

Lemma any_match_slice h pos :
  (h <= 16)%nat -> 0 <= pos < len (level h l) ->
  any_match (u32 (pos << Z.of_nat h)) (u32 ((pos + 1) << Z.of_nat h)) (take (Z.to_nat (len l)) ms) =
  existsb id (slice h pos ms).
Proof.
  intros Hh Hp. pose proof (pos_bound h pos Hp) as Hb. pose proof (pow2_pos (Z.of_nat h) ltac:(lia)).
  assert (2 ^ Z.of_nat h <= 2 ^ 16) by (apply Z.pow_le_mono_r; lia). unfold MAX_MERKLE_HASHES in *.
  rewrite !Z.shiftl_mul_pow2, !wrap_id by (unfold in_u; nia).
  unfold any_match, slice. rewrite (take_ge ms) by (unfold len; lia). rewrite <- pow_nat_Z. set (k := (2 ^ h)%nat).
  replace ((pos + 1) * Z.of_nat k - pos * Z.of_nat k) with (Z.of_nat k) by ring.
  by rewrite Nat2Z.id, Z2Nat.inj_mul, Nat2Z.id by lia.
Qed.

Lemma node_leaf pos : 0 <= pos < len l -> slice 0 pos l = [node 0 pos l].
Proof.
  intros Hp. unfold slice, node, len in *. cbn. rewrite Nat.mul_1_r.
  destruct (lookup_lt_is_Some_2 l (Z.to_nat pos)) as [a Ha]; [lia|]. by rewrite (drop_S _ _ _ Ha), Ha.
Qed.

Lemma emit_bits_len h pos : len (fst (emit h pos)) <= 2 ^ (Z.of_nat h + 1) - 1.
Proof.
  revert pos. induction h as [|h IH]; intros pos; cbn [emit]; [done|].
  rewrite Nat2Z.inj_succ. replace (Z.succ (Z.of_nat h) + 1) with (Z.succ (Z.of_nat h + 1)) by lia.
  rewrite Z.pow_succ_r by lia. assert (2 ^ 1 <= 2 ^ (Z.of_nat h + 1)) by (apply Z.pow_le_mono_r; lia).
  destruct (existsb id _); cbn [fst]; [|change (len [0]) with 1; lia].
  pose proof (IH (pos * 2)). pose proof (IH (pos * 2 + 1)).
  rewrite <- (app_nil_l (1 :: _)), (app_comm_cons _ _ 1), app_nil_l, len_app.
  change (1 :: fst (emit h (pos * 2))) with ([1] ++ fst (emit h (pos * 2))). rewrite len_app.
  change (len [1]) with 1. destruct (_ <? _); cbn [fst]; [lia|]. change (len (@nil Z)) with 0. lia.
Qed.

Lemma emit_hashes_len h pos : 0 <= pos < len (level h l) -> len (snd (emit h pos)) <= len (slice h pos l).
Proof.
  revert pos. induction h as [|h IH]; intros pos Hp.
  - cbn [emit snd]. by rewrite node_leaf.
  - assert (1 <= len (slice (S h) pos l)) as Hone.
    { pose proof (pos_bound _ _ Hp) as Hb. rewrite <- pow_nat_Z in Hb. unfold len, slice in *.
      assert (0 < 2 ^ S h)%nat by (apply Nat.neq_0_lt_0, Nat.pow_nonzero; lia).
      rewrite length_take, length_drop. nia. }
    cbn [emit]. destruct (existsb id _); cbn [snd]; [|by change (len [_]) with 1].
    destruct (children l h pos Hp) as (Hc & _). rewrite slice_S, !len_app by lia.
    specialize (IH (pos * 2) Hc) as I1. destruct (Z.ltb_spec (pos * 2 + 1) (len (level h l))).
    + specialize (IH (pos * 2 + 1) ltac:(lia)). lia.
    + cbn [snd]. change (len (@nil uint256)) with 0. pose proof (len_nonneg (slice h (pos * 2 + 1) l)). lia.
Qed.

Lemma build_emit h pos s :
  (h <= 16)%nat -> 0 <= pos < len (level h l) ->
  len (b_bits s) + len (fst (emit h pos)) <= bits_cap s ->
  len (b_hashes s) + len (snd (emit h pos)) <= hashes_cap s ->
  traverse_and_build (len l) h pos l ms s =
  Some (mk_build (b_bits s ++ fst (emit h pos)) (bits_cap s) (b_hashes s ++ snd (emit h pos)) (hashes_cap s)).
Proof.
  assert (forall (s : build_state) b, len (b_bits s) + 1 <= bits_cap s ->
    build_add_bit s b = mk_build (b_bits s ++ [if b then 1 else 0]) (bits_cap s) (b_hashes s) (hashes_cap s)) as Abit.
  { intros s0 b Hb. unfold build_add_bit. destruct (Z.leb_spec (bits_cap s0) (len (b_bits s0))); [lia|done]. }
  assert (forall (s : build_state) x, len (b_hashes s) + 1 <= hashes_cap s ->
    build_add_hash s x = mk_build (b_bits s) (bits_cap s) (b_hashes s ++ [x]) (hashes_cap s)) as Ahash.
  { intros s0 b Hb. unfold build_add_hash. destruct (Z.leb_spec (hashes_cap s0) (len (b_hashes s0))); [lia|done]. }
  revert pos s. induction h as [|h IH]; intros pos s Hh Hp Hb Hx.
  - cbn [traverse_and_build emit fst snd] in *. rewrite any_match_slice, calc_hash_node by (done || (split; done)).
    rewrite Abit, Ahash by done. done.
  - cbn [traverse_and_build emit] in *. rewrite any_match_slice by done.
    destruct (existsb id (slice (S h) pos ms)); cbn [negb fst snd] in *.
    + destruct (children l h pos Hp) as (Hc & _).
      assert (small (len l) h) as Hs by (split; [done|lia]). pose proof (level_len_le l h Hs).
      unfold MAX_MERKLE_HASHES in *.
      rewrite !wrap_id by (unfold in_u; lia). rewrite small_width by done.
      change (1 :: fst (emit h (pos * 2)) ++ ?x) with ([1] ++ fst (emit h (pos * 2)) ++ x) in *.
      rewrite !len_app in Hb. rewrite !len_app in Hx. change (len [1]) with 1 in Hb.
      pose proof (len_nonneg (fst (if pos * 2 + 1 <? len (level h l) then emit h (pos * 2 + 1) else ([], [])))).
      pose proof (len_nonneg (snd (if pos * 2 + 1 <? len (level h l) then emit h (pos * 2 + 1) else ([], [])))).
      rewrite Abit by (pose proof (len_nonneg (fst (emit h (pos * 2)))); lia).
      rewrite IH; [|lia|done|cbn [b_bits bits_cap]; rewrite len_app; change (len [1]) with 1; lia|cbn [b_hashes hashes_cap]; lia].
      cbn [b_bits bits_cap b_hashes hashes_cap].
      destruct (Z.ltb_spec (pos * 2 + 1) (len (level h l))); cbn [fst snd] in *; [|by rewrite !app_nil_r, <- !app_assoc].
      rewrite IH; [|lia|lia|cbn [b_bits bits_cap]; rewrite !len_app; change (len [1]) with 1; lia|cbn [b_hashes hashes_cap]; rewrite len_app; lia].
      cbn [b_bits bits_cap b_hashes hashes_cap]. by rewrite <- !app_assoc.
    + rewrite calc_hash_node by (done || (split; done)). rewrite Abit, Ahash by done. done.
Qed.

End Emit.

(** ** Extraction gives back what was built *)

Lemma lookup_middle {A} (a b c : list A) (x : A) : (a ++ (x :: b) ++ c) !! Z.to_nat (len a) = Some x.
Proof. unfold len. by rewrite Nat2Z.id, lookup_app_r, Nat.sub_diag by lia. Qed.

Lemma len_cons {A} (x : A) l : len (x :: l) = 1 + len l.
Proof. unfold len. cbn [length]. lia. Qed.

Section Complete.
Context `{HostOrder} (l : list uint256) (ms : list bool).
Context (Hn : 0 < len l <= MAX_MERKLE_HASHES) (Hms : length ms = length l).

(** No two sibling nodes of the tree are equal. *)
Definition siblings_differ : Prop := forall h pos, 0 <= pos -> pos * 2 + 1 < len (level h l) ->
  uint256_cmp (node h (pos * 2 + 1) l) (node h (pos * 2) l) <> 0.
Context (Hsib : siblings_differ).

Lemma hits_S h pos : 0 <= pos -> hits l ms (S h) pos = hits l ms h (pos * 2) ++ hits l ms h (pos * 2 + 1).
Proof. intros Hp. unfold hits. rewrite !slice_S by done. by apply picked_app, slice_length_eq. Qed.

Lemma extract_emit t cap h pos st B1 B2 H1 H2 :
  num_transactions t = len l ->
  (h <= 16)%nat -> 0 <= pos < len (level h l) ->
  bits t = B1 ++ fst (emit l ms h pos) ++ B2 -> hashes t = H1 ++ snd (emit l ms h pos) ++ H2 ->
  bits_used st = len B1 -> hash_used st = len H1 ->
  len (bits t) < 2 ^ 32 -> len (hashes t) < 2 ^ 32 ->
  len (matched st) + len (hits l ms h pos) <= cap ->
  traverse_and_extract t h pos cap st =
  (node h pos l, mk_ex (ex_bad st) (len B1 + len (fst (emit l ms h pos)))
     (len H1 + len (snd (emit l ms h pos))) (matched st ++ hits l ms h pos)).
Proof.
  intros Ht. revert pos st B1 B2 H1 H2.
  induction h as [|h IH]; intros pos st B1 B2 H1 H2 Hh Hp EB EH Ub Uh Lb Lh Hcap.
  - cbn [emit fst snd] in *. cbn [traverse_and_extract].
    assert (slice 0 pos l = [node 0 pos l]) as Sl by (by apply (node_leaf l ms)).
    assert (exists b, slice 0 pos ms = [b]) as [b Sm].
    { pose proof (slice_length_eq 0 pos ms l Hms) as E. rewrite Sl in E.
      destruct (slice 0 pos ms) as [|b [|]]; try done. by exists b. }
    unfold hits in *. rewrite Sl, Sm in *. cbn [existsb id orb picked] in *.
    rewrite Ub, EB, lookup_middle. unfold use_bit. cbn [hash_used]. rewrite Uh, EH, lookup_middle.
    pose proof (len_nonneg B1). pose proof (len_nonneg H1). pose proof (len_nonneg B2). pose proof (len_nonneg H2).
    rewrite EB, !len_app in Lb. rewrite EH, !len_app in Lh.
    change (len [_]) with 1 in *. unfold use_hash. cbn [bits_used hash_used ex_bad matched andb].
    rewrite ?Ub, ?Uh, !wrap_id by (unfold in_u; lia).
    destruct b; cbn [negb orb]; [|by rewrite app_nil_r].
    unfold add_matched. cbn [matched bits_used hash_used ex_bad].
    change (len [node 0 pos l]) with 1 in Hcap. by destruct (Z.ltb_spec (len (matched st)) cap); [|lia].
  - cbn [emit] in *. cbn [traverse_and_extract].
    pose proof (len_nonneg B1). pose proof (len_nonneg H1). pose proof (len_nonneg B2). pose proof (len_nonneg H2).
    destruct (existsb id (slice (S h) pos ms)) eqn:Ex; cbn [fst snd] in *.
    + destruct (children l h pos Hp) as (Hc & Hnode & _).
      assert (small (len l) h) as Hs by (split; [done|lia]). pose proof (level_len_le l h Hs).
      unfold MAX_MERKLE_HASHES in *.
      rewrite Ub, EB, lookup_middle. cbn [negb]. rewrite !wrap_id by (unfold in_u; lia).
      change (negb (1 =? 0)) with true. cbn [negb].
      rewrite EB, !len_app, len_cons, !len_app in Lb. rewrite EH, !len_app in Lh.
      set (eb := if pos * 2 + 1 <? len (level h l) then emit l ms h (pos * 2 + 1) else ([], [])) in *.
      pose proof (len_nonneg (fst eb)). pose proof (len_nonneg (snd eb)).
      pose proof (len_nonneg (fst (emit l ms h (pos * 2)))). pose proof (len_nonneg (snd (emit l ms h (pos * 2)))).
      rewrite hits_S, len_app in Hcap by lia. pose proof (len_nonneg (hits l ms h (pos * 2 + 1))).
      rewrite (IH (pos * 2) (use_bit st) (B1 ++ [1]) (fst eb ++ B2) H1 (snd eb ++ H2)); [|lia|done| | | |done| | |].
      2:{ rewrite EB, <- !app_assoc. cbn [app]. by rewrite <- !app_assoc. }
      2:{ by rewrite EH, <- !app_assoc. }
      2:{ unfold use_bit. cbn [bits_used]. rewrite Ub, wrap_id by (unfold in_u; lia). by rewrite len_app. }
      2:{ rewrite EB, !len_app, len_cons, !len_app. lia. }
      2:{ rewrite EH, !len_app. lia. }
      2:{ unfold use_bit. cbn [matched]. lia. }
      rewrite Ht, small_width by done. rewrite Hnode, hits_S by lia.
      destruct (Z.ltb_spec (pos * 2 + 1) (len (level h l))) as [Hr|Hr].
      * subst eb. rewrite (IH (pos * 2 + 1) _ (B1 ++ [1] ++ fst (emit l ms h (pos * 2))) B2
          (H1 ++ snd (emit l ms h (pos * 2))) H2); [|lia|lia| | | | | | |].
        2:{ rewrite EB, <- !app_assoc. cbn [app]. by rewrite <- !app_assoc. }
        2:{ by rewrite EH, <- !app_assoc. }
        2:{ cbn [bits_used]. rewrite !len_app. lia. }
        2:{ cbn [hash_used]. by rewrite !len_app. }
        2:{ rewrite EB, !len_app, len_cons, !len_app. lia. }
        2:{ rewrite EH, !len_app. lia. }
        2:{ unfold use_bit. cbn [matched]. rewrite len_app. lia. }
        assert ((uint256_cmp (node h (pos * 2 + 1) l) (node h (pos * 2) l) =? 0) = false) as Hd.
        { apply Z.eqb_neq, Hsib; lia. }
        rewrite Hd. unfold use_bit. cbn [ex_bad bits_used hash_used matched]. f_equal.
        rewrite !len_app, !len_cons, !len_app, <- !app_assoc. change (len (@nil Z)) with 0. f_equal; lia.
      * subst eb. destruct (absent_right l ms Hn Hms h pos ltac:(lia) ltac:(lia)) as [A1 A2].
        unfold hits at 3. rewrite A1. cbn [picked]. unfold use_bit. cbn [ex_bad bits_used hash_used matched fst snd].
        f_equal. rewrite !app_nil_r, !len_app, !len_cons. change (len (@nil Z)) with 0. f_equal; lia.
    + rewrite Ub, EB, lookup_middle. change (negb (0 =? 0)) with false. cbn [negb].
      unfold use_bit. cbn [hash_used]. rewrite Uh, EH, lookup_middle.
      rewrite EB, !len_app in Lb. rewrite EH, !len_app in Lh.
      change (len [_]) with 1 in *. unfold use_hash. cbn [bits_used hash_used ex_bad matched andb].
      rewrite ?Ub, ?Uh, !wrap_id by (unfold in_u; lia).
      unfold hits. rewrite (picked_none _ _ Ex), app_nil_r. done.
Qed.

End Complete.

Lemma emit_hashes_le_bits `{HostOrder} l ms h pos : len (snd (emit l ms h pos)) <= len (fst (emit l ms h pos)).
Proof.
  revert pos. induction h as [|h IH]; intros pos; cbn [emit]; [done|].
  destruct (existsb id _); cbn [fst snd]; [|done]. rewrite len_cons, !len_app.
  pose proof (IH (pos * 2)). destruct (_ <? _); [pose proof (IH (pos * 2 + 1)); lia|].
  cbn [fst snd]. unfold len in *. cbn [length]. lia.
Qed.

Lemma slice_whole {A} h (x : list A) : (length x <= 2 ^ h)%nat -> slice h 0 x = x.
Proof. intros E. unfold slice. cbn [Z.to_nat Nat.mul]. by rewrite drop_0, take_ge. Qed.

Lemma depth_fits `{HostOrder} l : l <> [] -> (length l <= 2 ^ depth l)%nat.
Proof. intros Hl. destruct (depth_spec l Hl) as [_ E]. rewrite <- pow_nat_Z in E. unfold len in E. lia. Qed.

Lemma root_node `{HostOrder} l : l <> [] ->
  0 <= 0 < len (level (depth l) l) /\ level (depth l) l = [node (depth l) 0 l].
Proof.
  intros Hl. destruct (level_depth l Hl) as [_ [r Hr]]. unfold node. rewrite Hr. split; [by vm_compute|done].
Qed.

(** Inclusion proofs are complete. For any non-empty list of at most
    [MAX_MERKLE_HASHES] ids and any choice among them, building succeeds within
    the bit and hash arrays it allocates, and extracting from what was built
    returns exactly the chosen ids, in order, and the merkle root of the list,
    provided no two sibling nodes are equal (the extractor refuses such trees). *)
Theorem partial_tree_complete `{HostOrder, Allocator} t0 l ms :
  memory_ok -> 0 < len l <= MAX_MERKLE_HASHES -> length ms = length l -> siblings_differ l ->
  exists t root m,
    merkle_tree_build t0 l ms = Some (Some t) /\
    merkle_root_mutated_in_place l = Some (root, m) /\
    merkle_tree_extract t = Some (Some (picked l ms, root)).
Proof.
  intros M Hn Hms Hsib.
  assert (l <> []) as Hne by (intros ->; unfold len in Hn; cbn in Hn; lia).
  destruct (root_in_place_spec l Hne) as (root & Hroot & Eroot).
  destruct (root_node l Hne) as [Hp0 Hr0]. rewrite Hr0 in Hroot. injection Hroot as <-.
  pose proof (depth_le l Hn) as Hd. pose proof (depth_fits l Hne) as Hfit.
  set (e := emit l ms (depth l) 0).
  assert (len (fst e) <= MAX_MERKLE_BITS) as Hb.
  { pose proof (emit_bits_len l ms Hms (depth l) 0) as E. fold e in E.
    assert (2 ^ (Z.of_nat (depth l) + 1) <= 2 ^ 17) by (apply Z.pow_le_mono_r; lia).
    unfold MAX_MERKLE_BITS, MAX_MERKLE_HASHES. lia. }
  assert (len (snd e) <= len l) as Hh.
  { pose proof (emit_hashes_len l ms Hn Hms (depth l) 0 Hp0) as E. fold e in E. by rewrite slice_whole in E. }
  pose proof (emit_hashes_le_bits l ms (depth l) 0) as Hhb. fold e in Hhb.
  exists (mk_pmt (len l) (fst e) (snd e) false), (node (depth l) 0 l), (muts l (depth l)).
  split; [|split; [done|]].
  - unfold merkle_tree_build. cbn zeta.
    destruct (Z.eqb_spec (len l) 0); [lia|]. destruct (Z.eqb_spec (len l) (len ms)) as [|Hx]; [|unfold len in Hx; lia].
    destruct (Z.ltb_spec MAX_MERKLE_HASHES (len l)); [lia|]. cbn [orb negb].
    rewrite tree_height_depth by done. rewrite !M. cbn [andb negb].
    rewrite build_emit; [done|done|done|done|done|cbn; exact Hb|cbn; exact Hh].
  - unfold merkle_tree_extract. cbn [num_transactions bits hashes].
    destruct (Z.eqb_spec (len l) 0); [lia|]. destruct (Z.ltb_spec (len l) (len (snd e))); [lia|].
    destruct (Z.ltb_spec (len (fst e)) (len (snd e))); [lia|]. cbn [orb].
    rewrite tree_height_depth by done.
    unfold MAX_MERKLE_BITS, MAX_MERKLE_HASHES in *. pose proof (len_nonneg (snd e)).
    rewrite (extract_emit l ms Hn Hms Hsib _ (len l) (depth l) 0 (mk_ex false 0 0 []) [] [] [] []); try done.
    + cbn [ex_bad bits_used hash_used matched]. fold e. change (len (@nil Z)) with 0. change (len (@nil uint256)) with 0.
      rewrite !Z.add_0_l, !wrap_id by (unfold in_u; lia). rewrite !Z.eqb_refl. cbn [negb app].
      unfold hits. by rewrite !slice_whole by lia.
    + cbn [bits]. fold e. by rewrite app_nil_r.
    + cbn [hashes]. fold e. by rewrite app_nil_r.
    + cbn [bits]. lia.
    + cbn [hashes]. lia.
    + cbn [matched]. change (len (@nil uint256)) with 0. unfold hits. rewrite !slice_whole by lia.
      apply picked_len.
Qed.

(** ** Extraction is sound *)

Section Sound.
Context `{HostOrder}.

(** Every pair the extractor hashes. *)
Fixpoint extract_pairs (t : partial_merkle_tree) (h : nat) (pos cap : Z) (st : extract_state) :
    list (uint256 * uint256) :=
  match h with
  | O => []
  | S h' =>
      match bits t !! Z.to_nat (bits_used st) with
      | None => []
      | Some bit =>
          if bit =? 0 then []
          else
            let st1 := use_bit st in
            let '(hl, st2) := traverse_and_extract t h' (u32 (pos * 2)) cap st1 in
            if u32 (pos * 2 + 1) <? calc_tree_width (num_transactions t) h' then
              let '(hr, _) := traverse_and_extract t h' (u32 (pos * 2 + 1)) cap st2 in
              (hl, hr) :: extract_pairs t h' (u32 (pos * 2)) cap st1 ++
                          extract_pairs t h' (u32 (pos * 2 + 1)) cap st2
            else (hl, hl) :: extract_pairs t h' (u32 (pos * 2)) cap st1
      end
  end.

(** Once bad, always bad. *)
Lemma extract_bad_monotone t h pos cap st :
  ex_bad st = true -> ex_bad (snd (traverse_and_extract t h pos cap st)) = true.
Proof.
  revert pos st. induction h as [|h IH]; intros pos st Hb; cbn [traverse_and_extract];
    destruct (bits t !! _) as [bit|]; [|done| |done].
  - destruct (hashes t !! _); [|done]. cbn [snd andb]. destruct (negb _); [|done].
    unfold add_matched. by destruct (_ <? _).
  - destruct (negb (negb _)).
    + destruct (hashes t !! _); [|done]. done.
    + specialize (IH (u32 (pos * 2)) (use_bit st) Hb) as I1.
      destruct (traverse_and_extract t h (u32 (pos * 2)) cap (use_bit st)) as [hl st2]. cbn [snd] in I1.
      destruct (_ <? calc_tree_width _ _); [|done].
      specialize (IH (u32 (pos * 2 + 1)) st2 I1) as I2.
      destruct (traverse_and_extract t h (u32 (pos * 2 + 1)) cap st2) as [hr st3]. cbn [snd] in *.
      by destruct (uint256_cmp hr hl =? 0).
Qed.

Lemma extract_bad_false t h pos cap st :
  ex_bad (snd (traverse_and_extract t h pos cap st)) = false -> ex_bad st = false.
Proof.
  intros E. destruct (ex_bad st) eqn:F; [|done]. pose proof (extract_bad_monotone t h pos cap st F). congruence.
Qed.

Lemma extract_sound l t cap S h pos st :
  0 < len l <= MAX_MERKLE_HASHES -> num_transactions t = len l -> collision_free S ->
  incl (tree_pairs l) S -> (h <= depth l)%nat -> 0 <= pos < len (level h l) ->
  incl (extract_pairs t h pos cap st) S ->
  fst (traverse_and_extract t h pos cap st) = node h pos l ->
  ex_bad (snd (traverse_and_extract t h pos cap st)) = false ->
  Forall (fun x => x ∈ matched st \/ x ∈ l) (matched (snd (traverse_and_extract t h pos cap st))).
Proof.
  intros Hn Ht Hc Itree. assert (forall st : extract_state, Forall (fun x => x ∈ matched st \/ x ∈ l) (matched st)) as Hself.
  { intros st0. apply Forall_forall. intros x Hx. left. by apply list_elem_of_In. }
  revert pos st. induction h as [|h IH]; intros pos st Hh Hp Iex Hroot Hbad; cbn [traverse_and_extract] in *.
  - destruct (bits t !! _) as [bit|]; [|done]. destruct (hashes t !! _) as [x|]; [|done].
    cbn [fst snd andb] in *. destruct (negb (bit =? 0)); [|apply (Hself st)].
    unfold add_matched in *. cbn [matched use_hash use_bit] in *. destruct (_ <? _); [|apply (Hself st)].
    cbn [matched]. apply Forall_app. split; [apply (Hself st)|]. constructor; [|constructor]. right.
    rewrite Hroot. unfold node, len in *. cbn in *.
    destruct (lookup_lt_is_Some_2 l (Z.to_nat pos)) as [a Ha]; [lia|]. rewrite Ha. cbn. by eapply list_elem_of_lookup_2.
  - cbn [extract_pairs] in Iex. destruct (bits t !! _) as [bit|]; [|done].
    destruct (Z.eqb_spec bit 0); cbn [negb] in *.
    { destruct (hashes t !! _) as [x|]; [|done]. apply (Hself st). }
    assert (small (len l) h) as Hs by (split; [done|pose proof (depth_le l Hn); lia]).
    destruct (children l h pos Hp) as (Hcl & Hnode & Hpair). pose proof (level_len_le l h Hs).
    assert (In (node h (pos * 2) l,
      if pos * 2 + 1 <? len (level h l) then node h (pos * 2 + 1) l else node h (pos * 2) l) S) as HS.
    { apply Itree, (tree_pairs_level l h); [lia|done]. }
    unfold MAX_MERKLE_HASHES in *. rewrite Ht, small_width, !wrap_id in * by (done || unfold in_u; lia).
    specialize (IH (pos * 2) (use_bit st) ltac:(lia) Hcl) as I1.
    destruct (traverse_and_extract t h (pos * 2) cap (use_bit st)) as [hl st2] eqn:E2. cbn [fst snd] in I1.
    destruct (Z.ltb_spec (pos * 2 + 1) (len (level h l))) as [Hr|Hr].
    + specialize (IH (pos * 2 + 1) st2 ltac:(lia) ltac:(lia)) as I2.
      destruct (traverse_and_extract t h (pos * 2 + 1) cap st2) as [hr st3] eqn:E3. cbn [fst snd] in I2, Hroot, Hbad |- *.
      rewrite Hnode in Hroot.
      assert ((hl, hr) = (node h (pos * 2) l, node h (pos * 2 + 1) l)) as Epair.
      { apply Hc; [apply Iex; by left|done|done]. }
      injection Epair as -> ->.
      assert (ex_bad st3 = false) as B3 by (destruct (uint256_cmp _ _ =? 0); done).
      assert (ex_bad st2 = false) as B2.
      { apply (extract_bad_false t h (pos * 2 + 1) cap). by rewrite E3. }
      assert (matched (if uint256_cmp (node h (pos * 2 + 1) l) (node h (pos * 2) l) =? 0 then set_bad st3 else st3) =
        matched st3) as -> by by destruct (_ =? 0).
      eapply Forall_impl; [|apply I2; [intros p Hp'; apply Iex; right; apply in_or_app; by right|done|done]].
      cbn beta. intros x [Hx|Hx]; [|by right].
      assert (Forall (fun x => x ∈ matched (use_bit st) \/ x ∈ l) (matched st2)) as F.
      { apply I1; [intros p Hp'; apply Iex; right; apply in_or_app; by left|done|done]. }
      rewrite Forall_forall in F. by apply F, list_elem_of_In.
    + cbn [fst snd] in Hroot, Hbad |- *. rewrite Hnode in Hroot.
      assert ((hl, hl) = (node h (pos * 2) l, node h (pos * 2) l)) as Epair.
      { apply Hc; [apply Iex; by left|done|done]. }
      injection Epair as ->. apply I1; [intros p Hp'; apply Iex; by right|done|done].
Qed.

End Sound.

(** C27: inclusion proofs are sound. Whatever partial tree a peer sends, if the
    extractor accepts it and the root it returns is the merkle root of a block
    of as many transactions, then every id it reports is a transaction of that
    block, unless two different inputs hashed on the way collide. *)
Theorem partial_tree_sound `{HostOrder} t l found root m :
  0 < len l <= MAX_MERKLE_HASHES -> num_transactions t = len l ->
  merkle_root_mutated_in_place l = Some (root, m) ->
  merkle_tree_extract t = Some (Some (found, root)) ->
  collision_free (extract_pairs t (depth l) 0 (len l) (mk_ex false 0 0 []) ++ tree_pairs l) ->
  Forall (fun x => x ∈ l) found.
Proof.
  intros Hn Ht Hr He Hc.
  assert (l <> []) as Hne by (intros ->; unfold len in Hn; cbn in Hn; lia).
  destruct (root_in_place_spec l Hne) as (r & Hroot & Eroot). rewrite Eroot in Hr. injection Hr as -> _.
  destruct (root_node l Hne) as [Hp0 Hr0]. rewrite Hr0 in Hroot. injection Hroot as <-.
  unfold merkle_tree_extract in He. destruct (_ || _); [done|].
  rewrite Ht, tree_height_depth in He by done.
  pose proof (extract_sound l t (len l) _ (depth l) 0 (mk_ex false 0 0 []) Hn Ht Hc) as G.
  specialize (G (incl_appr _ (incl_refl _)) ltac:(lia) Hp0 (incl_appl _ (incl_refl _))).
  destruct (traverse_and_extract t (depth l) 0 (len l) (mk_ex false 0 0 [])) as [r' st]. cbn [fst snd] in G.
  destruct (ex_bad st); [done|]. destruct (negb (_ =? _)); [done|]. destruct (negb (_ =? _)); [done|].
  injection He as <- ->. eapply Forall_impl; [|by apply G]. cbn beta. intros x [Hx|Hx]; [|done].
  by apply elem_of_nil in Hx.
Qed.

(** ** Witnesses *)

Definition siblings_differ_b `{HostOrder} (l : list uint256) : bool :=
  forallb (fun h => let L := level h l in
    forallb (fun p => negb (uint256_cmp (default [] (L !! (p * 2 + 1)%nat)) (default [] (L !! (p * 2)%nat)) =? 0))
      (seq 0 (length L / 2))) (seq 0 (depth l)).

Lemma siblings_differ_b_true `{HostOrder} l : l <> [] -> siblings_differ_b l = true -> siblings_differ l.
Proof.
  intros Hl Hb h pos Hp Hr. destruct (decide (h < depth l)%nat) as [Hh|Hh].
  - unfold siblings_differ_b in Hb. rewrite forallb_forall in Hb.
    specialize (Hb h ltac:(apply in_seq; lia)). cbn zeta in Hb. rewrite forallb_forall in Hb.
    specialize (Hb (Z.to_nat pos)). unfold node, len in *.
    replace (Z.to_nat pos * 2 + 1)%nat with (Z.to_nat (pos * 2 + 1)) in Hb by lia.
    replace (Z.to_nat pos * 2)%nat with (Z.to_nat (pos * 2)) in Hb by lia.
    apply Z.eqb_neq, negb_true_iff, Hb, in_seq. split; [lia|]. cbn [Nat.add].
    apply Nat.div_le_lower_bound with (a := length (level h l)) (b := 2%nat) (q := S (Z.to_nat pos)); lia.
  - destruct (root_node l Hl) as [_ E]. replace h with (depth l + (h - depth l))%nat in Hr by lia.
    assert (forall k, len (level (depth l + k) l) = 1) as G.
    { induction k as [|k IH]; [rewrite Nat.add_0_r, E; done|]. replace (depth l + S k)%nat with (S (depth l + k)) by lia.
      rewrite level_S_out. unfold len in *. rewrite length_next_level. by replace (length (level (depth l + k) l)) with 1%nat by lia. }
    rewrite G in Hr. lia.
Qed.

Lemma partial_tree_complete_witness :
  let _ : HostOrder := false in let _ : Allocator := fun _ => true in
  exists t root m,
    merkle_tree_build merkle_tree_init three [true; false; true] = Some (Some t) /\
    merkle_root_mutated_in_place three = Some (root, m) /\
    merkle_tree_extract t = Some (Some ([replicate 32 1; replicate 32 3], root)).
Proof.
  intros h a. apply (partial_tree_complete merkle_tree_init three [true; false; true]).
  - by intros n.
  - split; vm_compute; congruence.
  - done.
  - apply siblings_differ_b_true; [done|]. vm_compute. reflexivity.
Defined.

(** The proof of the first and third of three ids. *)
Definition sample_proof `{HostOrder} : partial_merkle_tree :=
  mk_pmt 3 [1; 1; 1; 0; 1; 1] three false.

Lemma partial_tree_sound_witness :
  let _ : HostOrder := false in
  Forall (fun x => x ∈ three) [replicate 32 1; replicate 32 3].
Proof.
  intros h.
  assert (exists r, merkle_root_mutated_in_place three = Some (r, false) /\
      merkle_tree_extract sample_proof = Some (Some ([replicate 32 1; replicate 32 3], r))) as (r & E1 & E2)
    by (eexists; split; vm_compute; reflexivity).
  apply (partial_tree_sound sample_proof three _ r false); [split; vm_compute; congruence|done|exact E1|exact E2|].
  apply collision_free_b_true. vm_compute. reflexivity.
Defined.
