(* ===== verification/TxCheck.v ===== *)
(** * Context-free and height-dependent transaction checks

    Model of [core/consensus/src/tx_structural.c], [sapling_structural.c],
    [locktime.c] and [sigops.c], with the constants of
    [consensus/consensus.h].

    A check returns [Some (ZCL_OK tt)] or [Some (ZCL_ERR f)], [f] being the error
    code with the reject reason and the score it hands to the caller; [None] is a
    signed overflow. *)

From Stdlib Require Import String.
From stdpp Require Import base tactics list numbers option.
From Stdlib Require Import ZArith Lia.
From S2P Require Import Prelude Serialize ByteOrder Params Script Hash OversizeTable Transaction.
#[local] Open Scope Z_scope.
#[local] Open Scope list_scope.

Definition SPROUT_MIN_TX_VERSION : Z := 1.
Definition OVERWINTER_MIN_TX_VERSION : Z := 3.
Definition OVERWINTER_MAX_TX_VERSION : Z := 3.
Definition SAPLING_MIN_TX_VERSION : Z := 4.
Definition SAPLING_MAX_TX_VERSION : Z := 4.
Definition MAX_BLOCK_SIZE : Z := 2000000.
Definition MAX_TX_SIZE_BEFORE_SAPLING : Z := 100000.
Definition MAX_TX_SIZE_AFTER_SAPLING : Z := 102000.
Definition TX_EXPIRY_HEIGHT_THRESHOLD : Z := 500000000.

(** ** Results

    The constructors are those of [domain_consensus_tx_structural_err] without the
    [DOMAIN_CONSENSUS_] prefix. *)

Inductive tx_structural_err :=
| TX_STRUCTURAL_ERR_NULL_TX | TX_STRUCTURAL_ERR_VERSION_TOO_LOW | TX_STRUCTURAL_ERR_OVERWINTER_VERSION_TOO_LOW | TX_STRUCTURAL_ERR_VERSION_GROUP_ID
| TX_STRUCTURAL_ERR_EXPIRY_HEIGHT_TOO_HIGH | TX_STRUCTURAL_ERR_VIN_EMPTY | TX_STRUCTURAL_ERR_VOUT_EMPTY | TX_STRUCTURAL_ERR_OVERSIZE
| TX_STRUCTURAL_ERR_VOUT_NEGATIVE | TX_STRUCTURAL_ERR_VOUT_TOOLARGE | TX_STRUCTURAL_ERR_VOUT_TOTAL_TOOLARGE
| TX_STRUCTURAL_ERR_VALUEBALANCE_NONZERO | TX_STRUCTURAL_ERR_VALUEBALANCE_TOOLARGE
| TX_STRUCTURAL_ERR_VPUB_OLD_NEGATIVE | TX_STRUCTURAL_ERR_VPUB_NEW_NEGATIVE | TX_STRUCTURAL_ERR_VPUB_OLD_TOOLARGE | TX_STRUCTURAL_ERR_VPUB_NEW_TOOLARGE
| TX_STRUCTURAL_ERR_VPUBS_BOTH_NONZERO | TX_STRUCTURAL_ERR_TXINTOTAL_TOOLARGE
| TX_STRUCTURAL_ERR_INPUTS_DUPLICATE | TX_STRUCTURAL_ERR_JS_NULLIFIERS_DUPLICATE | TX_STRUCTURAL_ERR_SPEND_NULLIFIERS_DUPLICATE
| TX_STRUCTURAL_ERR_CB_HAS_JOINSPLITS | TX_STRUCTURAL_ERR_CB_HAS_SPEND_DESC | TX_STRUCTURAL_ERR_CB_HAS_OUTPUT_DESC | TX_STRUCTURAL_ERR_CB_LENGTH
| TX_STRUCTURAL_ERR_PREVOUT_NULL.

(** The code with what [DOMAIN_TX_FAIL] stores through [out_failure]. *)
Record failure (E : Type) := mk_failure { code : E; reject_reason : string; dos : Z }.
Arguments mk_failure {E} _ _ _.
Arguments code {E} _.
Arguments reject_reason {E} _.
Arguments dos {E} _.

Abbreviation check E := (option (zcl_result (failure E) unit)).
Definition check_ok {E} : check E := Some (ZCL_OK tt).
Definition check_fail {E} (e : E) (reason : string) (dos : Z) : check E :=
  Some (ZCL_ERR (mk_failure e reason dos)).

Declare Scope check_scope.
Delimit Scope check_scope with check.
Notation "'fail_when' b 'with' e ',' r ',' d ';;' k" := (if b then check_fail e r%string d else k)
  (at level 10, b at level 100, e at level 99, r at level 99, d at level 99, k at level 200) : check_scope.
#[local] Open Scope check_scope.

(** ** The oversize grandfather *)

Definition g_oversize_grandfather : list (uint256 * Z) :=
  map (fun e => (Reference.be_bytes 32 (fst e), snd e)) oversize_entries.

(** [while (lo < hi)]: each turn halves the interval, so one more turn than the
    table has entries is more than enough; [None] is a read outside the table. *)
Fixpoint grandfather_search (fuel lo hi : nat) (txid : uint256) (tx_size : Z) : option bool :=
  if decide (lo < hi)%nat then
    match fuel with
    | O => None
    | S fuel =>
        let mid := (lo + (hi - lo) / 2)%nat in
        let? e := g_oversize_grandfather !! mid in
        let c := memcmp txid (fst e) in
        if c =? 0 then Some (tx_size =? snd e)
        else if c <? 0 then grandfather_search fuel lo mid txid tx_size
        else grandfather_search fuel (mid + 1) hi txid tx_size
    end
  else Some false.

Definition domain_consensus_tx_oversize_grandfathered (txid : option uint256) (tx_size : Z) : option bool :=
  match txid with
  | None => Some false
  | Some txid => grandfather_search OVERSIZE_GRANDFATHER_COUNT 0 OVERSIZE_GRANDFATHER_COUNT txid tx_size
  end.

(** ** Structural checks *)

Inductive domain_tx_check_context := DOMAIN_TX_CTX_STANDALONE | DOMAIN_TX_CTX_BLOCK.

(** The double loop [for i ... for j = i + 1 ...] that looks for an equal pair. *)
Fixpoint has_dup {A} (same : A -> A -> bool) (l : list A) : bool :=
  match l with
  | [] => false
  | x :: l => existsb (same x) l || has_dup same l
  end.

Definition uint256_same (a b : uint256) : bool := uint256_cmp a b =? 0.

(** [nf] against all nullifiers of earlier joinsplits, then the earlier ones of
    the same joinsplit. *)
Fixpoint js_row_dup (prev : list js_description) (seen row : list uint256) : bool :=
  match row with
  | [] => false
  | nf :: row =>
      existsb (fun p => existsb (uint256_same nf) (nullifiers p)) prev ||
      existsb (uint256_same nf) seen || js_row_dup prev (seen ++ [nf]) row
  end.
Fixpoint js_dup (prev js : list js_description) : bool :=
  match js with
  | [] => false
  | jsd :: js => js_row_dup prev [] (nullifiers jsd) || js_dup (prev ++ [jsd]) js
  end.

Definition tx_structural_check_coinbase_restrictions (tx : transaction) : check tx_structural_err :=
  if transaction_is_coinbase tx then
    fail_when 0 <? len (v_joinsplit tx) with TX_STRUCTURAL_ERR_CB_HAS_JOINSPLITS, "bad-cb-has-joinsplits", 100;;
    fail_when 0 <? len (v_shielded_spend tx) with TX_STRUCTURAL_ERR_CB_HAS_SPEND_DESC, "bad-cb-has-spend-description", 100;;
    fail_when 0 <? len (v_shielded_output tx) with TX_STRUCTURAL_ERR_CB_HAS_OUTPUT_DESC, "bad-cb-has-output-description", 100;;
    match vin tx with
    | [] => None
    | i :: _ =>
        fail_when (script_size (script_sig i) <? 2) || (100 <? script_size (script_sig i))
          with TX_STRUCTURAL_ERR_CB_LENGTH, "bad-cb-length", 100;;
        check_ok
    end
  else
    fail_when existsb (fun i => outpoint_is_null (prevout i)) (vin tx)
      with TX_STRUCTURAL_ERR_PREVOUT_NULL, "bad-txns-prevout-null", 10;;
    check_ok.

Definition tx_structural_check_duplicate_spend_nullifiers (tx : transaction) : check tx_structural_err :=
  fail_when has_dup (fun a b => uint256_same (sd_nullifier a) (sd_nullifier b)) (v_shielded_spend tx)
    with TX_STRUCTURAL_ERR_SPEND_NULLIFIERS_DUPLICATE, "bad-spend-description-nullifiers-duplicate", 100;;
  tx_structural_check_coinbase_restrictions tx.

Definition tx_structural_check_duplicate_inputs_and_js_nullifiers (tx : transaction) :
    check tx_structural_err :=
  fail_when has_dup (fun a b => outpoint_cmp (prevout a) (prevout b) =? 0) (vin tx)
    with TX_STRUCTURAL_ERR_INPUTS_DUPLICATE, "bad-txns-inputs-duplicate", 100;;
  fail_when js_dup [] (v_joinsplit tx)
    with TX_STRUCTURAL_ERR_JS_NULLIFIERS_DUPLICATE, "bad-joinsplits-nullifiers-duplicate", 100;;
  tx_structural_check_duplicate_spend_nullifiers tx.

(** A loop that adds to a total, with what follows it. *)
Fixpoint input_loop (value_in : Z) (js : list js_description) (k : Z -> check tx_structural_err) :
    check tx_structural_err :=
  match js with
  | [] => k value_in
  | jsd :: js =>
      let? value_in := s64 (value_in + vpub_new jsd) in
      fail_when negb (MoneyRange (vpub_new jsd)) || negb (MoneyRange value_in)
        with TX_STRUCTURAL_ERR_TXINTOTAL_TOOLARGE, "bad-txns-txintotal-toolarge", 100;;
      input_loop value_in js k
  end.

Definition tx_structural_check_input_totals (tx : transaction) : check tx_structural_err :=
  input_loop 0 (v_joinsplit tx) (fun value_in =>
    if 0 <=? value_balance tx then
      let? value_in := s64 (value_in + value_balance tx) in
      fail_when negb (MoneyRange value_in) with TX_STRUCTURAL_ERR_TXINTOTAL_TOOLARGE, "bad-txns-txintotal-toolarge", 100;;
      tx_structural_check_duplicate_inputs_and_js_nullifiers tx
    else tx_structural_check_duplicate_inputs_and_js_nullifiers tx).

Fixpoint joinsplit_loop (value_out : Z) (js : list js_description) (k : check tx_structural_err) :
    check tx_structural_err :=
  match js with
  | [] => k
  | jsd :: js =>
      fail_when vpub_old jsd <? 0 with TX_STRUCTURAL_ERR_VPUB_OLD_NEGATIVE, "bad-txns-vpub_old-negative", 100;;
      fail_when vpub_new jsd <? 0 with TX_STRUCTURAL_ERR_VPUB_NEW_NEGATIVE, "bad-txns-vpub_new-negative", 100;;
      fail_when MAX_MONEY <? vpub_old jsd with TX_STRUCTURAL_ERR_VPUB_OLD_TOOLARGE, "bad-txns-vpub_old-toolarge", 100;;
      fail_when MAX_MONEY <? vpub_new jsd with TX_STRUCTURAL_ERR_VPUB_NEW_TOOLARGE, "bad-txns-vpub_new-toolarge", 100;;
      fail_when negb (vpub_new jsd =? 0) && negb (vpub_old jsd =? 0)
        with TX_STRUCTURAL_ERR_VPUBS_BOTH_NONZERO, "bad-txns-vpubs-both-nonzero", 100;;
      let? value_out := s64 (value_out + vpub_old jsd) in
      fail_when negb (MoneyRange value_out) with TX_STRUCTURAL_ERR_VOUT_TOTAL_TOOLARGE, "bad-txns-txouttotal-toolarge", 100;;
      joinsplit_loop value_out js k
  end.

Definition tx_structural_check_joinsplit_values (tx : transaction) (value_out : Z) : check tx_structural_err :=
  joinsplit_loop value_out (v_joinsplit tx) (tx_structural_check_input_totals tx).

Definition tx_structural_check_value_balance (tx : transaction) (value_out : Z) : check tx_structural_err :=
  fail_when (len (v_shielded_spend tx) =? 0) && (len (v_shielded_output tx) =? 0) &&
            negb (value_balance tx =? 0)
    with TX_STRUCTURAL_ERR_VALUEBALANCE_NONZERO, "bad-txns-valuebalance-nonzero", 100;;
  fail_when (MAX_MONEY <? value_balance tx) || (value_balance tx <? - MAX_MONEY)
    with TX_STRUCTURAL_ERR_VALUEBALANCE_TOOLARGE, "bad-txns-valuebalance-toolarge", 100;;
  if value_balance tx <=? 0 then
    let? neg := s64 (- value_balance tx) in
    let? value_out := s64 (value_out + neg) in
    fail_when negb (MoneyRange value_out) with TX_STRUCTURAL_ERR_VOUT_TOTAL_TOOLARGE, "bad-txns-txouttotal-toolarge", 100;;
    tx_structural_check_joinsplit_values tx value_out
  else tx_structural_check_joinsplit_values tx value_out.

Fixpoint vout_loop (value_out : Z) (outs : list tx_out) (k : Z -> check tx_structural_err) :
    check tx_structural_err :=
  match outs with
  | [] => k value_out
  | o :: outs =>
      fail_when value o <? 0 with TX_STRUCTURAL_ERR_VOUT_NEGATIVE, "bad-txns-vout-negative", 100;;
      fail_when MAX_MONEY <? value o with TX_STRUCTURAL_ERR_VOUT_TOOLARGE, "bad-txns-vout-toolarge", 100;;
      let? value_out := s64 (value_out + value o) in
      fail_when negb (MoneyRange value_out) with TX_STRUCTURAL_ERR_VOUT_TOTAL_TOOLARGE, "bad-txns-txouttotal-toolarge", 100;;
      vout_loop value_out outs k
  end.

Definition tx_structural_check_vout_values (tx : transaction) : check tx_structural_err :=
  vout_loop 0 (vout tx) (tx_structural_check_value_balance tx).

Section Size.
Context `{Allocator} `{HostOrder}.

Definition tx_structural_check_serialized_size (tx : transaction) (ctx : domain_tx_check_context) :
    check tx_structural_err :=
  let tx_size := transaction_serialize_size tx in
  if MAX_TX_SIZE_AFTER_SAPLING <? tx_size then
    let? excused :=
      match ctx with
      | DOMAIN_TX_CTX_BLOCK =>
          if tx_size <=? MAX_BLOCK_SIZE then
            match transaction_hash_serialized (Some tx) true with
            | Some txid => domain_consensus_tx_oversize_grandfathered (Some txid) tx_size
            | None => Some false
            end
          else Some false
      | DOMAIN_TX_CTX_STANDALONE => Some false
      end in
    fail_when negb excused with TX_STRUCTURAL_ERR_OVERSIZE, "bad-txns-oversize", 100;;
    tx_structural_check_vout_values tx
  else tx_structural_check_vout_values tx.

Definition tx_structural_check_input_output_presence (tx : transaction) (ctx : domain_tx_check_context) :
    check tx_structural_err :=
  fail_when (len (vin tx) =? 0) && (len (v_joinsplit tx) =? 0) && (len (v_shielded_spend tx) =? 0)
    with TX_STRUCTURAL_ERR_VIN_EMPTY, "bad-txns-vin-empty", 10;;
  fail_when (len (vout tx) =? 0) && (len (v_joinsplit tx) =? 0) && (len (v_shielded_output tx) =? 0)
    with TX_STRUCTURAL_ERR_VOUT_EMPTY, "bad-txns-vout-empty", 10;;
  tx_structural_check_serialized_size tx ctx.

Definition tx_structural_check_versions (tx : transaction) (ctx : domain_tx_check_context) :
    check tx_structural_err :=
  fail_when negb (overwintered tx) && (version tx <? SPROUT_MIN_TX_VERSION)
    with TX_STRUCTURAL_ERR_VERSION_TOO_LOW, "bad-txns-version-too-low", 100;;
  if overwintered tx then
    fail_when version tx <? OVERWINTER_MIN_TX_VERSION
      with TX_STRUCTURAL_ERR_OVERWINTER_VERSION_TOO_LOW, "bad-tx-overwinter-version-too-low", 100;;
    fail_when negb (version_group_id tx =? OVERWINTER_VERSION_GROUP_ID) &&
              negb (version_group_id tx =? SAPLING_VERSION_GROUP_ID)
      with TX_STRUCTURAL_ERR_VERSION_GROUP_ID, "bad-tx-version-group-id", 100;;
    fail_when TX_EXPIRY_HEIGHT_THRESHOLD <=? expiry_height tx
      with TX_STRUCTURAL_ERR_EXPIRY_HEIGHT_TOO_HIGH, "bad-tx-expiry-height-too-high", 100;;
    tx_structural_check_input_output_presence tx ctx
  else tx_structural_check_input_output_presence tx ctx.

(** A null transaction leaves the failure record zeroed. *)
Definition domain_consensus_check_transaction_structural (tx : option transaction)
    (ctx : domain_tx_check_context) : check tx_structural_err :=
  match tx with
  | None => check_fail TX_STRUCTURAL_ERR_NULL_TX EmptyString 0
  | Some tx => tx_structural_check_versions tx ctx
  end.

End Size.

(** ** Deciding checks

    [decides r P]: the check [r] is defined, accepts when [P] holds, and rejects
    with some failure when it does not. *)

Definition decides {E} (r : check E) (P : Prop) : Prop :=
  (r = check_ok /\ P) \/ ((exists f, r = Some (ZCL_ERR f)) /\ ~ P).

Lemma decides_ok {E} : decides (@check_ok E) True.
Proof. by left. Qed.

Lemma decides_iff {E} (r : check E) P Q : decides r P -> (P <-> Q) -> decides r Q.
Proof. intros [[? ?]|[? ?]] HPQ; [left|right]; tauto. Qed.

Lemma decides_fail {E} b (e : E) reason d k (P Q : Prop) :
  (b = false <-> Q) -> (Q -> decides k P) -> decides (if b then check_fail e reason d else k) (Q /\ P).
Proof.
  intros Hb Hk. destruct b.
  - right. split; [by eexists|]. intros [HQ _]. by apply Hb in HQ.
  - destruct (Hk (proj1 Hb eq_refl)) as [[-> HP]|[Hf HP]]; [left|right]; tauto.
Qed.

Lemma decides_spec {E} (r : check E) P : decides r P -> is_Some r /\ (r = check_ok <-> P).
Proof.
  intros [[-> HP]|[[f ->] HP]]; (split; [by eexists|]); [tauto|]. split; [done|tauto].
Qed.

Lemma forallb_Forall_b {A} (p : A -> bool) l : forallb p l = true <-> Forall (fun x => p x = true) l.
Proof. rewrite forallb_forall, Forall_forall. done. Qed.

Abbreviation money v := (0 <= v <= MAX_MONEY).

Lemma moneys_nonneg l : Forall (fun v => money v) l -> 0 <= sum_list l.
Proof. induction 1; cbn; lia. Qed.

Lemma MoneyRange_neg v : negb (MoneyRange v) = false <-> money v.
Proof. rewrite negb_false_iff. apply MoneyRange_spec. Qed.

Ltac small_money := unfold MAX_MONEY, COIN in *; lia.

(** The output loop: every value an amount, every running total one; since the
    values are not negative, the last total decides. *)
Lemma vout_loop_decides total outs k (P : Z -> Prop) :
  money total -> (forall v, money v -> decides (k v) (P v)) ->
  decides (vout_loop total outs k)
    (Forall (fun v => money v) (map value outs) /\ money (total + sum_list (map value outs)) /\
     P (total + sum_list (map value outs))).
Proof.
  intros Ht Hk. revert total Ht. induction outs as [|o outs IH]; intros total Ht; cbn [vout_loop map sum_list].
  { rewrite Z.add_0_r. eapply decides_iff; [by apply Hk|]. split; [intros; split_and!; [constructor|lia..|done]|tauto]. }
  rewrite Z.add_assoc.
  eapply decides_iff; [eapply (decides_fail _ _ _ _ _ _ (0 <= value o)); [apply Z.ltb_ge|intros H1]|].
  - eapply (decides_fail _ _ _ _ _ _ (value o <= MAX_MONEY)); [apply Z.ltb_ge|intros H2].
    rewrite s64_ok by small_money. eapply (decides_fail _ _ _ _ _ _ (money (total + value o))); [apply MoneyRange_neg|].
    intros H3. by apply IH.
  - rewrite Forall_cons_iff. split; [tauto|]. intros ((Hv & Hf) & Hs & HP). pose proof (moneys_nonneg _ Hf).
    split_and!; try tauto; lia.
Qed.

Definition vpub_ok (jsd : js_description) : Prop :=
  money (vpub_old jsd) /\ money (vpub_new jsd) /\ (vpub_new jsd = 0 \/ vpub_old jsd = 0).

Lemma joinsplit_loop_decides total js k (P : Prop) :
  money total -> (Forall vpub_ok js -> decides k P) ->
  decides (joinsplit_loop total js k)
    (Forall vpub_ok js /\ money (total + sum_list (map vpub_old js)) /\ P).
Proof.
  intros Ht. revert total Ht. induction js as [|jsd js IH]; intros total Ht Hk; cbn [joinsplit_loop map sum_list].
  { rewrite Z.add_0_r. eapply decides_iff; [by apply Hk, Forall_nil|]. split; [intros; split_and!; [constructor|lia..|done]|tauto]. }
  rewrite Z.add_assoc.
  eapply decides_iff; [eapply (decides_fail _ _ _ _ _ _ (0 <= vpub_old jsd)); [apply Z.ltb_ge|intros H1]|].
  - eapply (decides_fail _ _ _ _ _ _ (0 <= vpub_new jsd)); [apply Z.ltb_ge|intros H2].
    eapply (decides_fail _ _ _ _ _ _ (vpub_old jsd <= MAX_MONEY)); [apply Z.ltb_ge|intros H3].
    eapply (decides_fail _ _ _ _ _ _ (vpub_new jsd <= MAX_MONEY)); [apply Z.ltb_ge|intros H4].
    eapply (decides_fail _ _ _ _ _ _ (vpub_new jsd = 0 \/ vpub_old jsd = 0)).
    { rewrite andb_false_iff, !negb_false_iff, !Z.eqb_eq. done. }
    intros H5. rewrite s64_ok by small_money.
    eapply (decides_fail _ _ _ _ _ _ (money (total + vpub_old jsd))); [apply MoneyRange_neg|].
    intros H6. apply IH; [done|]. intros Hf. apply Hk, Forall_cons_iff. by unfold vpub_ok at 1.
  - rewrite Forall_cons_iff. unfold vpub_ok at 2. split; [tauto|]. intros ((Hv & Hf) & Hs & HP).
    assert (0 <= sum_list (map vpub_old js)).
    { apply moneys_nonneg, Forall_map. eapply Forall_impl; [|exact Hf]. by intros ? []. }
    split_and!; try tauto; try lia; done.
Qed.

Lemma input_loop_decides total js k (P : Z -> Prop) :
  money total -> Forall (fun jsd => money (vpub_new jsd)) js ->
  (forall v, money v -> decides (k v) (P v)) ->
  decides (input_loop total js k)
    (money (total + sum_list (map vpub_new js)) /\ P (total + sum_list (map vpub_new js))).
Proof.
  intros Ht Hjs Hk. revert total Ht. induction Hjs as [|jsd js Hj Hjs IH]; intros total Ht; cbn [input_loop map sum_list].
  { rewrite Z.add_0_r. eapply decides_iff; [by apply Hk|tauto]. }
  rewrite Z.add_assoc, s64_ok by small_money. rewrite (proj2 (MoneyRange_spec _) Hj). cbn [negb orb].
  eapply decides_iff; [eapply (decides_fail _ _ _ _ _ _ (money (total + vpub_new jsd))); [apply MoneyRange_neg|]|].
  - intros H6. by apply IH.
  - split; [tauto|]. intros (Hs & HP).
    assert (0 <= sum_list (map vpub_new js)).
    { apply moneys_nonneg, Forall_map. done. }
    split_and!; try tauto; try lia; done.
Qed.

(** *** Duplicates *)

Lemma has_dup_false {A B} (same : A -> A -> bool) (f : A -> B) (P : A -> Prop) l :
  (forall a b, P a -> P b -> same a b = true <-> f a = f b) -> Forall P l ->
  has_dup same l = false <-> NoDup (map f l).
Proof.
  intros Hs. induction 1 as [|x l Hx Hl IH]; cbn [has_dup map]; [split; [constructor|done]|].
  rewrite orb_false_iff, IH, list.NoDup_cons. split; intros [H1 H2]; (split; [|done]).
  - intros Hin. apply list_elem_of_In, in_map_iff in Hin as (y & Hy & Hin).
    apply not_true_iff_false in H1. apply H1, existsb_exists. exists y. split; [done|].
    apply Hs; [done|by apply (proj1 (Forall_forall _ _) Hl)|done].
  - apply not_true_iff_false. intros Hex. apply existsb_exists in Hex as (y & Hin & Hy). apply H1.
    apply Hs in Hy; [|done|by apply (proj1 (Forall_forall _ _) Hl)]. rewrite Hy.
    apply list_elem_of_In, in_map. done.
Qed.

Lemma uint256_same_eq a b : u256 a -> u256 b -> uint256_same a b = true <-> a = b.
Proof. intros [_ Ha] [_ Hb]. apply uint256_eq_true. unfold len in *. lia. Qed.

Lemma same_in nf l : u256 nf -> Forall u256 l -> (existsb (uint256_same nf) l = false) <-> nf ∉ l.
Proof.
  intros Hnf Hl. rewrite <- not_true_iff_false, existsb_exists, list_elem_of_In. split; intros Hn Hx; apply Hn.
  - exists nf. split; [done|]. by apply uint256_same_eq.
  - destruct Hx as (y & Hy & E). apply uint256_same_eq in E; [by subst|done|]. by apply (proj1 (Forall_forall _ _) Hl).
Qed.

Definition all_nullifiers (js : list js_description) : list uint256 := List.concat (map nullifiers js).

Lemma same_in_all nf prev : u256 nf -> Forall (fun p => Forall u256 (nullifiers p)) prev ->
  existsb (fun p => existsb (uint256_same nf) (nullifiers p)) prev = false <-> nf ∉ all_nullifiers prev.
Proof.
  intros Hnf. unfold all_nullifiers. induction 1 as [|p prev Hp _ IH]; cbn [existsb map List.concat].
  - split; [intros _; apply not_elem_of_nil|done].
  - rewrite orb_false_iff, IH, same_in, not_elem_of_app by done. done.
Qed.

Lemma js_row_dup_false prev seen row :
  Forall (fun p => Forall u256 (nullifiers p)) prev -> Forall u256 seen -> Forall u256 row ->
  js_row_dup prev seen row = false <->
  (forall nf, nf ∈ row -> (nf ∉ all_nullifiers prev) /\ (nf ∉ seen)) /\ NoDup row.
Proof.
  intros Hp. revert seen. induction row as [|nf row IH]; intros seen Hs Hr; cbn [js_row_dup].
  { split; [intros _; split; [by intros nf ?%elem_of_nil|constructor]|done]. }
  apply Forall_cons_iff in Hr as [Hnf Hr].
  rewrite !orb_false_iff, same_in_all, same_in, IH by (done || by apply Forall_app; auto).
  rewrite list.NoDup_cons. split.
  - intros [[H1 H2] [H3 H4]]. split.
    + intros x [->|Hx]%elem_of_cons; [done|]. destruct (H3 x Hx) as [H5 H6].
      split; [done|]. intros H7. apply H6, elem_of_app. by left.
    + split; [|done]. intros Hin. apply (H3 nf Hin), elem_of_app. right. by apply list_elem_of_singleton.
  - intros [H1 [H2 H3]]. split; [apply H1; by left|]. split; [|done].
    intros x Hx. destruct (H1 x) as [H4 H5]; [by right|]. split; [done|].
    intros [?|H6]%elem_of_app; [done|]. apply list_elem_of_singleton in H6. by subst.
Qed.

Lemma js_dup_false prev js :
  Forall (fun p => Forall u256 (nullifiers p)) prev -> Forall (fun p => Forall u256 (nullifiers p)) js ->
  js_dup prev js = false <->
  (forall nf, nf ∈ all_nullifiers js -> nf ∉ all_nullifiers prev) /\ NoDup (all_nullifiers js).
Proof.
  intros Hp Hj. revert prev Hp. induction Hj as [|jsd js Hjsd _ IH]; intros prev Hp; cbn [js_dup].
  { split; [intros _; split; [by intros nf ?%elem_of_nil|constructor]|done]. }
  assert (Forall (fun p => Forall u256 (nullifiers p)) (prev ++ [jsd])) as Hp'
    by (apply Forall_app; split; [done|by apply Forall_cons_iff]).
  rewrite orb_false_iff, (js_row_dup_false _ _ _ Hp (Forall_nil _) Hjsd), (IH _ Hp').
  change (all_nullifiers (jsd :: js)) with (nullifiers jsd ++ all_nullifiers js).
  assert (all_nullifiers (prev ++ [jsd]) = all_nullifiers prev ++ nullifiers jsd) as ->.
  { unfold all_nullifiers. rewrite map_app, concat_app. cbn. by rewrite app_nil_r. }
  rewrite list.NoDup_app. split.
  - intros [[H1 H2] [H3 H4]]. split.
    + intros nf [Hn|Hn]%elem_of_app; [by apply H1|]. intros Hx. apply (H3 nf Hn), elem_of_app. by left.
    + split_and!; [done| |done]. intros nf Hn Hx. apply (H3 nf Hx), elem_of_app. by right.
  - intros [H1 (H2 & H3 & H4)]. split; split; [| done| |done].
    + intros nf Hn. split; [apply H1, elem_of_app; by left|apply not_elem_of_nil].
    + intros nf Hn [Hx|Hx]%elem_of_app; [|by apply (H3 nf)]. apply (H1 nf); [|done]. apply elem_of_app. by right.
Qed.

(** ** The grandfather search *)

Lemma memcmp_antisym a b : length a = length b -> memcmp b a = - memcmp a b.
Proof.
  revert b. induction a as [|x a IH]; intros [|y b] Hl; cbn [memcmp length] in *; try done.
  injection Hl as Hl. destruct (Z.ltb_spec x y), (Z.ltb_spec y x); try lia; [done..|by apply IH].
Qed.

(** Every pair of entries in strictly ascending order of their ids. *)
Fixpoint ascending (l : list (uint256 * Z)) : bool :=
  match l with
  | [] => true
  | e :: l => forallb (fun f => memcmp (fst e) (fst f) <? 0) l && ascending l
  end.

Lemma ascending_lookup l i j e f :
  ascending l = true -> l !! i = Some e -> l !! j = Some f -> (i < j)%nat -> memcmp (fst e) (fst f) < 0.
Proof.
  revert i j. induction l as [|x l IH]; intros i j Ha Hi Hj Hij; [done|].
  cbn [ascending] in Ha. apply andb_true_iff in Ha as [Hx Ha]. destruct j as [|j]; [lia|].
  destruct i as [|i]; cbn in Hi, Hj; [|apply (IH i j); (done || lia)].
  injection Hi as <-. apply Z.ltb_lt, (proj1 (forallb_forall _ _) Hx), list_elem_of_In.
  by eapply list_elem_of_lookup_2.
Qed.

Lemma table_ascending : ascending g_oversize_grandfather = true.
Proof. by vm_compute. Qed.
Lemma table_length : length g_oversize_grandfather = OVERSIZE_GRANDFATHER_COUNT.
Proof. by vm_compute. Qed.
Lemma table_ids : Forall (fun e => length (fst e) = 32%nat) g_oversize_grandfather.
Proof.
  eapply (Forall_impl (P := fun e : uint256 * Z => Nat.eqb (length (fst e)) 32 = true)).
  - intros e. apply Nat.eqb_eq.
  - apply forallb_Forall_b. by vm_compute.
Qed.

#[local] Opaque g_oversize_grandfather.

Lemma grandfather_search_spec fuel lo hi txid sz :
  length txid = 32%nat -> (hi - lo <= fuel)%nat -> (hi <= length g_oversize_grandfather)%nat ->
  exists b, grandfather_search fuel lo hi txid sz = Some b /\
  (b = true <-> exists i, (lo <= i < hi)%nat /\ g_oversize_grandfather !! i = Some (txid, sz)).
Proof.
  intros Ht. revert lo hi. induction fuel as [|fuel IH]; intros lo hi Hf Hhi; cbn [grandfather_search].
  all: destruct (decide (lo < hi)%nat) as [Hlt|Hge]; [|exists false; split; [done|]; split; [done|intros (i & ? & _); lia]].
  { lia. }
  set (mid := (lo + (hi - lo) / 2)%nat).
  assert (lo <= mid < hi)%nat as Hmid
    by (pose proof (Nat.div_lt (hi - lo) 2 ltac:(lia) ltac:(lia)); subst mid; lia).
  destruct (lookup_lt_is_Some_2 g_oversize_grandfather mid ltac:(lia)) as [e He]. rewrite He.
  assert (length (fst e) = 32%nat) as Hel.
  { apply (proj1 (Forall_forall _ _) table_ids), list_elem_of_In. by eapply list_elem_of_lookup_2. }
  pose proof (memcmp_antisym txid (fst e) ltac:(lia)) as Hanti.
  assert (forall i, g_oversize_grandfather !! i = Some (txid, sz) ->
    ((i < mid)%nat -> memcmp txid (fst e) < 0) /\ ((mid < i)%nat -> 0 < memcmp txid (fst e))) as Hside.
  { intros i Hi. split; intros Hlt'.
    - by apply (ascending_lookup _ _ _ _ _ table_ascending Hi He Hlt').
    - pose proof (ascending_lookup _ _ _ _ _ table_ascending He Hi Hlt') as Hc. cbn [fst] in Hc. lia. }
  cbn zeta. destruct (Z.eqb_spec (memcmp txid (fst e)) 0) as [Ec|Nc].
  - exists (sz =? snd e). split; [done|]. rewrite Z.eqb_eq. apply memcmp_eq in Ec; [|lia]. split.
    + intros ->. exists mid. split; [lia|]. rewrite He, Ec. by destruct e.
    + intros (i & Hi & E). destruct (Hside i E) as [H1 H2].
      assert (i = mid) as ->. { rewrite Ec, memcmp_refl in H1, H2. destruct (Nat.lt_total i mid) as [|[|]]; [|done|]; exfalso; [lia|]; lia. }
      rewrite E in He. by injection He as <-.
  - destruct (Z.ltb_spec (memcmp txid (fst e)) 0) as [Hl|Hg].
    + destruct (IH lo mid ltac:(lia) ltac:(lia)) as (b & -> & Hb). exists b. split; [done|]. rewrite Hb.
      split; intros (i & Hi & E); exists i; (split; [|done]); [lia|]. destruct (Hside i E).
      destruct (Nat.lt_total i mid) as [|[|]]; [lia| |lia]. subst. rewrite E in He. injection He as <-. cbn in Nc. by rewrite memcmp_refl in Nc.
    + destruct (IH (mid + 1)%nat hi ltac:(lia) ltac:(lia)) as (b & -> & Hb). exists b. split; [done|]. rewrite Hb.
      split; intros (i & Hi & E); exists i; (split; [|done]); [lia|]. destruct (Hside i E).
      destruct (Nat.lt_total i mid) as [|[|]]; [lia| |lia]. subst. rewrite E in He. injection He as <-. cbn in Nc. by rewrite memcmp_refl in Nc.
Qed.

(** The search is defined and answers membership of the pair in the table. *)
Lemma grandfathered_spec txid sz : length txid = 32%nat ->
  exists b, domain_consensus_tx_oversize_grandfathered (Some txid) sz = Some b /\
  (b = true <-> (txid, sz) ∈ g_oversize_grandfather).
Proof.
  intros Ht. cbn [domain_consensus_tx_oversize_grandfathered].
  destruct (grandfather_search_spec OVERSIZE_GRANDFATHER_COUNT 0 OVERSIZE_GRANDFATHER_COUNT txid sz)
    as (b & -> & Hb); [done|lia|by rewrite table_length|].
  exists b. split; [done|]. rewrite Hb, list_elem_of_lookup. split; intros (i & H); exists i; [tauto|].
  split; [|done]. apply lookup_lt_Some in H. rewrite table_length in H. lia.
Qed.

(** ** What the structural checks promise *)

Section Promise.
Context `{Allocator} `{HostOrder}.

Definition version_valid (tx : transaction) : Prop :=
  if overwintered tx then
    OVERWINTER_MIN_TX_VERSION <= version tx /\
    (version_group_id tx = OVERWINTER_VERSION_GROUP_ID \/ version_group_id tx = SAPLING_VERSION_GROUP_ID) /\
    expiry_height tx < TX_EXPIRY_HEIGHT_THRESHOLD
  else SPROUT_MIN_TX_VERSION <= version tx.

(** The size of the wire format; over the limit only a grandfathered transaction
    of a block passes, with its exact size. *)
Definition size_valid (ctx : domain_tx_check_context) (tx : transaction) : Prop :=
  let n := len (tx_enc tx) in
  n <= MAX_TX_SIZE_AFTER_SAPLING \/
  (ctx = DOMAIN_TX_CTX_BLOCK /\ n <= MAX_BLOCK_SIZE /\
   (hash256 (tx_enc tx), n) ∈ g_oversize_grandfather).

Definition amounts (l : list Z) : Prop := Forall (fun v => money v) l /\ money (sum_list l).

Definition coinbase_valid (tx : transaction) : Prop :=
  if transaction_is_coinbase tx then
    v_joinsplit tx = [] /\ v_shielded_spend tx = [] /\ v_shielded_output tx = [] /\
    forall i, head (vin tx) = Some i -> 2 <= len (script_sig i) <= 100
  else Forall (fun i => outpoint_is_null (prevout i) = false) (vin tx).

Record structurally_valid (ctx : domain_tx_check_context) (tx : transaction) : Prop := {
  sv_version : version_valid tx;
  sv_inputs : vin tx <> [] \/ v_joinsplit tx <> [] \/ v_shielded_spend tx <> [];
  sv_outputs : vout tx <> [] \/ v_joinsplit tx <> [] \/ v_shielded_output tx <> [];
  sv_size : size_valid ctx tx;
  sv_balance : v_shielded_spend tx = [] -> v_shielded_output tx = [] -> value_balance tx = 0;
  sv_spent : amounts (out_terms tx);
  sv_gained : amounts (shielded_in_terms tx);
  sv_vpub : Forall (fun jsd => vpub_new jsd = 0 \/ vpub_old jsd = 0) (v_joinsplit tx);
  sv_prevouts : NoDup (map prevout (vin tx));
  sv_nullifiers : NoDup (all_nullifiers (v_joinsplit tx));
  sv_spend_nullifiers : NoDup (map sd_nullifier (v_shielded_spend tx));
  sv_coinbase : coinbase_valid tx;
}.

Lemma len_pos {A} (l : list A) : (0 <? len l) = false <-> l = [].
Proof. unfold len. rewrite Z.ltb_ge. destruct l; cbn; [done|]. split; [lia|done]. Qed.
Lemma len_zero {A} (l : list A) : (len l =? 0) = true <-> l = [].
Proof. unfold len. rewrite Z.eqb_eq. destruct l; cbn; [done|]. split; [lia|done]. Qed.

Ltac next Q := eapply (decides_fail _ _ _ _ _ _ Q).

Lemma coinbase_decides tx : decides (tx_structural_check_coinbase_restrictions tx) (coinbase_valid tx).
Proof.
  unfold tx_structural_check_coinbase_restrictions, coinbase_valid.
  destruct (transaction_is_coinbase tx) eqn:C.
  - next (v_joinsplit tx = []); [apply len_pos|intros _]. next (v_shielded_spend tx = []); [apply len_pos|intros _].
    next (v_shielded_output tx = []); [apply len_pos|intros _].
    destruct (vin tx) as [|i l] eqn:V; [by unfold transaction_is_coinbase in C; rewrite V in C|].
    eapply decides_iff; [next (2 <= len (script_sig i) <= 100); [|intros _; apply decides_ok]|].
    + unfold script_size, len. rewrite orb_false_iff, !Z.ltb_ge. lia.
    + cbn [head]. split; [intros [? _] ? [= <-]; done|]. intros Hx. split; [by apply Hx|done].
  - eapply decides_iff; [next (Forall (fun i => outpoint_is_null (prevout i) = false) (vin tx)); [|intros _; apply decides_ok]|].
    + induction (vin tx) as [|i l IH]; cbn [existsb]; [split; [constructor|done]|].
      by rewrite orb_false_iff, Forall_cons_iff, IH.
    + tauto.
Qed.

Context (tx : transaction) (W : tx_wf tx).

Lemma spends_u256 : Forall (fun sd => u256 (sd_nullifier sd)) (v_shielded_spend tx).
Proof.
  pose proof (wf_spends tx W) as Hs. destruct (is_v4 tx); [|rewrite Hs; constructor].
  eapply Forall_impl; [|exact (proj2 Hs)]. unfold spend_wf. tauto.
Qed.
Lemma nullifiers_u256 : Forall (fun p => Forall u256 (nullifiers p)) (v_joinsplit tx).
Proof.
  pose proof (wf_js tx W) as Hs. destruct (version tx <? 2); [rewrite Hs; constructor|].
  eapply Forall_impl; [|exact (proj2 Hs)]. unfold js_wf, records. tauto.
Qed.
Lemma prevouts_wf : Forall (fun i => u256 (op_hash (prevout i))) (vin tx).
Proof.
  eapply Forall_impl; [|exact (proj2 (wf_vin tx W))]. unfold tx_in_wf, outpoint_wf. tauto.
Qed.

Lemma spend_nullifiers_decides :
  decides (tx_structural_check_duplicate_spend_nullifiers tx)
    (NoDup (map sd_nullifier (v_shielded_spend tx)) /\ coinbase_valid tx).
Proof.
  apply decides_fail; [|intros _; apply coinbase_decides].
  apply (has_dup_false _ _ (fun sd => u256 (sd_nullifier sd))); [|exact spends_u256].
  intros a b. apply uint256_same_eq.
Qed.

Lemma duplicates_decides :
  decides (tx_structural_check_duplicate_inputs_and_js_nullifiers tx)
    (NoDup (map prevout (vin tx)) /\ NoDup (all_nullifiers (v_joinsplit tx)) /\
     NoDup (map sd_nullifier (v_shielded_spend tx)) /\ coinbase_valid tx).
Proof.
  apply decides_fail; [|intros _; apply decides_fail; [|intros _; apply spend_nullifiers_decides]].
  - apply (has_dup_false _ _ (fun i => u256 (op_hash (prevout i)))); [|exact prevouts_wf].
    intros a b [_ Ha] [_ Hb]. rewrite Z.eqb_eq. apply outpoint_cmp_eq. unfold len in *. lia.
  - rewrite js_dup_false by (constructor || exact nullifiers_u256). split; [tauto|]. split; [|done].
    intros nf _. apply not_elem_of_nil.
Qed.

Definition dup_free : Prop :=
  NoDup (map prevout (vin tx)) /\ NoDup (all_nullifiers (v_joinsplit tx)) /\
  NoDup (map sd_nullifier (v_shielded_spend tx)) /\ coinbase_valid tx.

Lemma input_totals_decides :
  value_balance tx <= MAX_MONEY -> Forall (fun jsd => money (vpub_new jsd)) (v_joinsplit tx) ->
  decides (tx_structural_check_input_totals tx)
    (money (sum_list (map vpub_new (v_joinsplit tx))) /\
     (0 <= value_balance tx -> money (sum_list (map vpub_new (v_joinsplit tx)) + value_balance tx)) /\ dup_free).
Proof.
  intros Hb Hj. unfold tx_structural_check_input_totals.
  eapply (input_loop_decides 0 _ _ (fun v => (0 <= value_balance tx -> money (v + value_balance tx)) /\ dup_free));
    [small_money|exact Hj|].
  intros v Hv. destruct (Z.leb_spec 0 (value_balance tx)) as [Hp|Hn].
  - rewrite s64_ok by small_money. next (0 <= value_balance tx -> money (v + value_balance tx)).
    + rewrite MoneyRange_neg. tauto.
    + intros _. apply duplicates_decides.
  - eapply decides_iff; [apply duplicates_decides|]. unfold dup_free. split; [|tauto]. split; [lia|done].
Qed.

(** What the balance adds to the outputs. *)
Definition balance_out : Z := if value_balance tx <=? 0 then - value_balance tx else 0.

Definition totals_valid (vo : Z) : Prop :=
  Forall vpub_ok (v_joinsplit tx) /\ money (vo + sum_list (map vpub_old (v_joinsplit tx))) /\
  money (sum_list (map vpub_new (v_joinsplit tx))) /\
  (0 <= value_balance tx -> money (sum_list (map vpub_new (v_joinsplit tx)) + value_balance tx)) /\ dup_free.

Lemma joinsplit_values_decides vo : value_balance tx <= MAX_MONEY -> money vo ->
  decides (tx_structural_check_joinsplit_values tx vo) (totals_valid vo).
Proof.
  intros Hb Hv. unfold tx_structural_check_joinsplit_values.
  apply joinsplit_loop_decides; [done|]. intros Hj. apply input_totals_decides; [done|].
  eapply Forall_impl; [|exact Hj]. unfold vpub_ok. tauto.
Qed.

Lemma value_balance_decides vo : in_s 64 (value_balance tx) -> money vo ->
  decides (tx_structural_check_value_balance tx vo)
    ((v_shielded_spend tx = [] -> v_shielded_output tx = [] -> value_balance tx = 0) /\
     - MAX_MONEY <= value_balance tx <= MAX_MONEY /\
     money (vo + balance_out) /\ totals_valid (vo + balance_out)).
Proof.
  intros Hs Hv. unfold tx_structural_check_value_balance, balance_out.
  next (v_shielded_spend tx = [] -> v_shielded_output tx = [] -> value_balance tx = 0).
  { rewrite !andb_false_iff, negb_false_iff, <- !not_true_iff_false, !len_zero, Z.eqb_eq.
    clear Hs Hv. destruct (v_shielded_spend tx), (v_shielded_output tx); intuition congruence. }
  intros _. next (- MAX_MONEY <= value_balance tx <= MAX_MONEY).
  { rewrite orb_false_iff, !Z.ltb_ge. lia. }
  intros Hb. destruct (Z.leb_spec (value_balance tx) 0) as [Hn|Hp].
  - rewrite s64_ok by small_money. rewrite s64_ok by small_money.
    next (money (vo + - value_balance tx)); [apply MoneyRange_neg|]. intros Hm.
    by apply joinsplit_values_decides; [lia|].
  - rewrite Z.add_0_r. eapply decides_iff; [by apply joinsplit_values_decides; [lia|]|]. tauto.
Qed.

Definition values_valid : Prop :=
  Forall (fun v => money v) (map value (vout tx)) /\ money (sum_list (map value (vout tx))) /\
  (v_shielded_spend tx = [] -> v_shielded_output tx = [] -> value_balance tx = 0) /\
  - MAX_MONEY <= value_balance tx <= MAX_MONEY /\
  money (sum_list (map value (vout tx)) + balance_out) /\
  totals_valid (sum_list (map value (vout tx)) + balance_out).

Lemma balance_s64 : in_s 64 (value_balance tx).
Proof. pose proof (wf_balance tx W) as Hb. destruct (is_v4 tx); [done|]. by rewrite Hb. Qed.

Lemma vout_values_decides : decides (tx_structural_check_vout_values tx) values_valid.
Proof.
  apply (vout_loop_decides 0 (vout tx) (tx_structural_check_value_balance tx) (fun vo =>
    (v_shielded_spend tx = [] -> v_shielded_output tx = [] -> value_balance tx = 0) /\
    - MAX_MONEY <= value_balance tx <= MAX_MONEY /\ money (vo + balance_out) /\ totals_valid (vo + balance_out)));
    [small_money|]. intros v Hv. apply value_balance_decides; [exact balance_s64|done].
Qed.

Lemma vpub_split js :
  Forall vpub_ok js <->
  Forall (fun v => money v) (map vpub_old js) /\ Forall (fun v => money v) (map vpub_new js) /\
  Forall (fun jsd => vpub_new jsd = 0 \/ vpub_old jsd = 0) js.
Proof.
  unfold vpub_ok. rewrite !Forall_map. induction js as [|jsd js IH]; [by split|].
  rewrite !Forall_cons_iff, IH. tauto.
Qed.

Lemma values_valid_iff :
  values_valid <->
  (v_shielded_spend tx = [] -> v_shielded_output tx = [] -> value_balance tx = 0) /\
  amounts (out_terms tx) /\ amounts (shielded_in_terms tx) /\
  Forall (fun jsd => vpub_new jsd = 0 \/ vpub_old jsd = 0) (v_joinsplit tx) /\ dup_free.
Proof.
  unfold values_valid, totals_valid, amounts, out_terms, shielded_in_terms, balance_out.
  rewrite vpub_split, !Forall_app, !sum_list_app.
  pose proof (moneys_nonneg (map value (vout tx))). pose proof (moneys_nonneg (map vpub_old (v_joinsplit tx))).
  pose proof (moneys_nonneg (map vpub_new (v_joinsplit tx))).
  destruct (Z.leb_spec (value_balance tx) 0), (Z.leb_spec 0 (value_balance tx));
    cbn [sum_list]; rewrite ?Forall_cons_iff, ?Forall_nil_iff.
  all: split; [intros (F1 & S1 & HB & B & S2 & (F2 & F3 & HX) & S3 & S4 & S5 & D)
              |intros (HB & ((F1 & F4 & F2) & S1) & ((F5 & F3) & S2) & HX & D)].
  all: split_and!; try done; try exact I; try lia.
Qed.

Context (M : memory_ok) (ctx : domain_tx_check_context).

Lemma serialized_size_decides :
  decides (tx_structural_check_serialized_size tx ctx) (size_valid ctx tx /\ values_valid).
Proof.
  unfold tx_structural_check_serialized_size, size_valid. cbn zeta.
  destruct (transaction_id_spec tx M W) as [Hid ->]. rewrite Hid.
  destruct (Z.ltb_spec MAX_TX_SIZE_AFTER_SAPLING (len (tx_enc tx))) as [Hbig|Hsmall].
  - destruct ctx.
    { right. split; [by eexists|]. intros [[?|(? & _)] _]; [lia|done]. }
    destruct (Z.leb_spec (len (tx_enc tx)) MAX_BLOCK_SIZE) as [Hb|Hb].
    + destruct (grandfathered_spec (hash256 (tx_enc tx)) (len (tx_enc tx))) as (b & -> & Hg); [apply hash256_length|].
      apply decides_fail; [|intros _; exact vout_values_decides]. rewrite negb_false_iff, Hg.
      split; [intros ?; right; done|]. intros [?|(_ & _ & ?)]; [lia|done].
    + right. split; [by eexists|]. intros [[?|(_ & ? & _)] _]; lia.
  - eapply decides_iff; [exact vout_values_decides|]. split; [intros ?; split; [by left|done]|tauto].
Qed.

Lemma presence_decides :
  decides (tx_structural_check_input_output_presence tx ctx)
    ((vin tx <> [] \/ v_joinsplit tx <> [] \/ v_shielded_spend tx <> []) /\
     (vout tx <> [] \/ v_joinsplit tx <> [] \/ v_shielded_output tx <> []) /\
     size_valid ctx tx /\ values_valid).
Proof.
  apply decides_fail; [|intros _; apply decides_fail; [|intros _; exact serialized_size_decides]].
  all: rewrite !andb_false_iff, <- !not_true_iff_false, !len_zero; tauto.
Qed.

Lemma versions_decides :
  decides (tx_structural_check_versions tx ctx)
    (version_valid tx /\
     (vin tx <> [] \/ v_joinsplit tx <> [] \/ v_shielded_spend tx <> []) /\
     (vout tx <> [] \/ v_joinsplit tx <> [] \/ v_shielded_output tx <> []) /\
     size_valid ctx tx /\ values_valid).
Proof.
  unfold tx_structural_check_versions, version_valid. destruct (overwintered tx); cbn [negb andb].
  - eapply decides_iff.
    { next (OVERWINTER_MIN_TX_VERSION <= version tx); [apply Z.ltb_ge|intros _].
      next (version_group_id tx = OVERWINTER_VERSION_GROUP_ID \/ version_group_id tx = SAPLING_VERSION_GROUP_ID).
      { by rewrite andb_false_iff, !negb_false_iff, !Z.eqb_eq. }
      intros _. next (expiry_height tx < TX_EXPIRY_HEIGHT_THRESHOLD); [apply Z.leb_gt|intros _; exact presence_decides]. }
    tauto.
  - apply decides_fail; [apply Z.ltb_ge|intros _; exact presence_decides].
Qed.

Lemma structural_decides :
  decides (domain_consensus_check_transaction_structural (Some tx) ctx) (structurally_valid ctx tx).
Proof.
  eapply decides_iff; [exact versions_decides|]. rewrite values_valid_iff. unfold dup_free.
  split; [intros ?; destruct_and!; by split|]. intros []. by split_and!.
Qed.

End Promise.

Lemma amounts_addable l : amounts l -> Forall addable l.
Proof. intros [Hl _]. eapply Forall_impl; [|exact Hl]. intros v Hv. unfold addable. small_money. Qed.

Lemma amounts_total l : amounts l -> money_total l = sum_list l.
Proof.
  intros [Hl Hs]. unfold money_total. rewrite (proj2 (MoneyRange_spec _) Hs), andb_true_r.
  by rewrite (proj2 (forallb_forall _ _)); [|intros v Hv; apply MoneyRange_spec, (proj1 (Forall_forall _ _) Hl)].
Qed.

Lemma balance_small tx : amounts (out_terms tx) -> amounts (shielded_in_terms tx) ->
  - MAX_MONEY <= value_balance tx <= MAX_MONEY.
Proof.
  unfold amounts, out_terms, shielded_in_terms. rewrite !Forall_app. intros [(_ & Ho & _) _] [(Hi & _) _].
  destruct (Z.leb_spec (value_balance tx) 0), (Z.leb_spec 0 (value_balance tx));
    rewrite ?Forall_cons_iff in Ho; rewrite ?Forall_cons_iff in Hi; small_money.
Qed.

(** C22: the structural check decides structural validity. On a well-formed
    transaction, with memory, the check is defined (no addition overflows and the
    search of the grandfather table stays inside it), and it accepts exactly the
    transactions that are structurally valid: versions and group ids of their
    epoch; something spent and something created; size within the limit, or
    grandfathered by id and exact size inside a block; all amounts and both
    totals amounts of money; no double spend of an outpoint or nullifier; the
    coinbase shape. What it accepts can be summed: both value sums are defined,
    and are the exact totals. *)
Theorem structural_check_spec `{Allocator} `{HostOrder} tx ctx :
  memory_ok -> tx_wf tx ->
  is_Some (domain_consensus_check_transaction_structural (Some tx) ctx) /\
  (domain_consensus_check_transaction_structural (Some tx) ctx = check_ok <-> structurally_valid ctx tx) /\
  (structurally_valid ctx tx ->
   transaction_get_value_out tx = Some (sum_list (out_terms tx)) /\
   transaction_get_shielded_value_in tx = Some (sum_list (shielded_in_terms tx))).
Proof.
  intros M W. destruct (decides_spec _ _ (structural_decides tx W M ctx)) as [Hd Hiff].
  split; [exact Hd|]. split; [exact Hiff|]. intros V.
  pose proof (sv_spent _ _ V) as Ho. pose proof (sv_gained _ _ V) as Hi. split.
  - rewrite <- (amounts_total _ Ho). pose proof (balance_small tx Ho Hi).
    apply value_out_total; [by apply amounts_addable|small_money..].
  - rewrite <- (amounts_total _ Hi). by apply shielded_in_total, amounts_addable.
Qed.

Section StructuralWitness.
#[local] Instance check_alloc : Allocator := fun _ => true.
#[local] Instance check_host : HostOrder := false.

Lemma structural_check_spec_witness :
  domain_consensus_check_transaction_structural (Some sample_tx) DOMAIN_TX_CTX_STANDALONE = check_ok /\
  transaction_get_value_out sample_tx = Some 12.
Proof.
  assert (domain_consensus_check_transaction_structural (Some sample_tx) DOMAIN_TX_CTX_STANDALONE = check_ok)
    as E by (vm_compute; reflexivity).
  split; [exact E|].
  destruct (structural_check_spec sample_tx DOMAIN_TX_CTX_STANDALONE (fun _ => eq_refl) sample_tx_wf) as (_ & Hv & Ho).
  exact (proj1 (Ho (proj1 Hv E))).
Defined.
End StructuralWitness.
