(* ===== verification/TxContext.v ===== *)
(** * Height-dependent transaction checks

    Model of [core/consensus/src/sapling_structural.c] (which transaction form
    each network epoch admits), [locktime.c] (finality and expiry) and [sigops.c]
    (signature-operation counting). *)

From Stdlib Require Import String.
From stdpp Require Import base tactics list numbers option.
From Stdlib Require Import ZArith Lia.
From S2P Require Import Prelude Serialize ByteOrder Params Script Hash OversizeTable Transaction.
From S2P Require Import TxCheck.
#[local] Open Scope Z_scope.
#[local] Open Scope list_scope.
#[local] Open Scope check_scope.

(** ** Epoch rules *)

Inductive sapling_structural_err :=
| SAPLING_STRUCTURAL_ERR_NULL_TX | SAPLING_STRUCTURAL_ERR_NULL_PARAMS | SAPLING_STRUCTURAL_ERR_NEG_HEIGHT
| SAPLING_STRUCTURAL_ERR_OVERWINTER_NOT_ACTIVE | SAPLING_STRUCTURAL_ERR_SAPLING_OVERWINTERED_FLAG
| SAPLING_STRUCTURAL_ERR_SAPLING_VERSION_GROUP_ID | SAPLING_STRUCTURAL_ERR_SAPLING_VERSION_TOO_LOW
| SAPLING_STRUCTURAL_ERR_SAPLING_VERSION_TOO_HIGH | SAPLING_STRUCTURAL_ERR_OVERWINTER_FLAG_NOT_SET
| SAPLING_STRUCTURAL_ERR_OVERWINTER_VERSION_GROUP_ID | SAPLING_STRUCTURAL_ERR_OVERWINTER_VERSION_TOO_HIGH
| SAPLING_STRUCTURAL_ERR_OVERWINTER_ACTIVE | SAPLING_STRUCTURAL_ERR_OVERSIZE.

(** [if (!r.ok) return r;] *)
Definition and_then {E} (r k : check E) : check E :=
  let? res := r in match res with ZCL_OK _ => k | ZCL_ERR f => Some (ZCL_ERR f) end.

(** These failures leave the failure record zeroed. *)
Definition sapling_structural_check_caller_args (tx : option transaction) (params : option consensus_params)
    (n_height : Z) : check sapling_structural_err :=
  match tx with
  | None => check_fail SAPLING_STRUCTURAL_ERR_NULL_TX EmptyString 0
  | Some _ =>
      match params with
      | None => check_fail SAPLING_STRUCTURAL_ERR_NULL_PARAMS EmptyString 0
      | Some _ =>
          fail_when n_height <? 0 with SAPLING_STRUCTURAL_ERR_NEG_HEIGHT, EmptyString, 0;;
          check_ok
      end
  end.

Definition sapling_structural_check_sprout_overwintered (tx : transaction) (dos_level : Z) (isSprout : bool) :
    check sapling_structural_err :=
  fail_when isSprout && overwintered tx
    with SAPLING_STRUCTURAL_ERR_OVERWINTER_NOT_ACTIVE, "tx-overwinter-not-active", dos_level;;
  check_ok.

Definition sapling_structural_check_sapling_versions (tx : transaction) (dos_level : Z) :
    check sapling_structural_err :=
  fail_when (SAPLING_MIN_TX_VERSION <=? version tx) && negb (overwintered tx)
    with SAPLING_STRUCTURAL_ERR_SAPLING_OVERWINTERED_FLAG, "tx-overwintered-flag-not-set", dos_level;;
  fail_when overwintered tx && negb (version_group_id tx =? SAPLING_VERSION_GROUP_ID)
    with SAPLING_STRUCTURAL_ERR_SAPLING_VERSION_GROUP_ID, "bad-sapling-tx-version-group-id", dos_level;;
  fail_when overwintered tx && (version tx <? SAPLING_MIN_TX_VERSION)
    with SAPLING_STRUCTURAL_ERR_SAPLING_VERSION_TOO_LOW, "bad-tx-sapling-version-too-low", 100;;
  fail_when overwintered tx && (SAPLING_MAX_TX_VERSION <? version tx)
    with SAPLING_STRUCTURAL_ERR_SAPLING_VERSION_TOO_HIGH, "bad-tx-sapling-version-too-high", 100;;
  check_ok.

Definition sapling_structural_check_overwinter_versions (tx : transaction) (dos_level : Z) :
    check sapling_structural_err :=
  fail_when (OVERWINTER_MIN_TX_VERSION <=? version tx) && negb (overwintered tx)
    with SAPLING_STRUCTURAL_ERR_OVERWINTER_FLAG_NOT_SET, "tx-overwinter-flag-not-set", dos_level;;
  fail_when overwintered tx && negb (version_group_id tx =? OVERWINTER_VERSION_GROUP_ID)
    with SAPLING_STRUCTURAL_ERR_OVERWINTER_VERSION_GROUP_ID, "bad-overwinter-tx-version-group-id", dos_level;;
  fail_when overwintered tx && (OVERWINTER_MAX_TX_VERSION <? version tx)
    with SAPLING_STRUCTURAL_ERR_OVERWINTER_VERSION_TOO_HIGH, "bad-tx-overwinter-version-too-high", 100;;
  check_ok.

Definition sapling_structural_check_presapling_size `{Allocator} `{HostOrder} (tx : transaction)
    (saplingActive : bool) : check sapling_structural_err :=
  if saplingActive then check_ok
  else
    fail_when MAX_TX_SIZE_BEFORE_SAPLING <? transaction_serialize_size tx
      with SAPLING_STRUCTURAL_ERR_OVERSIZE, "bad-txns-oversize", 100;;
    check_ok.

Definition domain_consensus_check_transaction_sapling_structural `{Allocator} `{HostOrder}
    (tx : option transaction) (params : option consensus_params) (n_height dos_level : Z) :
    check sapling_structural_err :=
  and_then (sapling_structural_check_caller_args tx params n_height)
    match tx, params with
    | Some tx, Some params =>
        let? overwinterActive := consensus_network_upgrade_active params n_height UPGRADE_OVERWINTER in
        let? saplingActive := consensus_network_upgrade_active params n_height UPGRADE_SAPLING in
        and_then (sapling_structural_check_sprout_overwintered tx dos_level (negb overwinterActive))
          (and_then
             (if saplingActive then sapling_structural_check_sapling_versions tx dos_level
              else if overwinterActive then sapling_structural_check_overwinter_versions tx dos_level
              else check_ok)
             (fail_when overwinterActive && negb (overwintered tx)
                with SAPLING_STRUCTURAL_ERR_OVERWINTER_ACTIVE, "tx-overwinter-active", dos_level;;
              sapling_structural_check_presapling_size tx saplingActive))
    | _, _ => None
    end.

(** ** Lock time and expiry *)

Definition DOMAIN_CONSENSUS_LOCKTIME_THRESHOLD : Z := 500000000.
Definition DOMAIN_CONSENSUS_TX_EXPIRING_SOON_THRESHOLD : Z := 3.

Definition domain_consensus_tx_is_final (tx : option transaction) (n_block_height n_block_time : Z) : bool :=
  match tx with
  | None => false
  | Some tx =>
      if lock_time tx =? 0 then true
      else
        let cutoff := if lock_time tx <? DOMAIN_CONSENSUS_LOCKTIME_THRESHOLD
                      then n_block_height else n_block_time in
        if lock_time tx <? cutoff then true else forallb tx_in_is_final (vin tx)
  end.

Definition domain_consensus_tx_is_expired (tx : option transaction) (n_height : Z) : bool :=
  match tx with
  | None => false
  | Some tx =>
      if (expiry_height tx =? 0) || transaction_is_coinbase tx then false
      else expiry_height tx <? u32 n_height
  end.

(** [None] is the signed overflow of the addition. *)
Definition domain_consensus_tx_is_expiring_soon (tx : option transaction) (n_next_block_height : Z) :
    option bool :=
  let? h := s32 (n_next_block_height + DOMAIN_CONSENSUS_TX_EXPIRING_SOON_THRESHOLD) in
  Some (domain_consensus_tx_is_expired tx h).

(** ** Signature operations *)

Inductive sigops_err :=
| DOMAIN_CONSENSUS_SIGOPS_ERR_NULL_TX | DOMAIN_CONSENSUS_SIGOPS_ERR_NULL_OUT
| DOMAIN_CONSENSUS_SIGOPS_ERR_NULL_PREVOUTS.

Fixpoint count_scripts (n : Z) (l : list script) (flags : Z) : option Z :=
  match l with
  | [] => Some n
  | s :: l => let? c := script_get_sig_op_count s flags false in count_scripts (u64 (n + c)) l flags
  end.

(** [out] says whether [out_count] is not null. *)
Definition domain_consensus_tx_legacy_sig_op_count (tx : option transaction) (flags : Z) (out : bool) :
    option (zcl_result sigops_err Z) :=
  match tx with
  | None => Some (ZCL_ERR DOMAIN_CONSENSUS_SIGOPS_ERR_NULL_TX)
  | Some tx =>
      if negb out then Some (ZCL_ERR DOMAIN_CONSENSUS_SIGOPS_ERR_NULL_OUT)
      else
        let? n := count_scripts 0 (map script_sig (vin tx)) flags in
        let? n := count_scripts n (map script_pub_key (vout tx)) flags in
        Some (ZCL_OK n)
  end.

(** The previous outputs are an array of pointers; [None] is a read outside it. *)
Fixpoint p2sh_loop (n : Z) (ins : list tx_in) (prevouts : list (option tx_out)) (flags : Z) : option Z :=
  match ins with
  | [] => Some n
  | i :: ins =>
      match prevouts with
      | [] => None
      | None :: prevouts => p2sh_loop n ins prevouts flags
      | Some p :: prevouts =>
          if negb (script_is_pay_to_script_hash (script_pub_key p)) then p2sh_loop n ins prevouts flags
          else
            let? c := script_get_sig_op_count_p2sh (script_pub_key p) (script_sig i) flags in
            p2sh_loop (u64 (n + c)) ins prevouts flags
      end
  end.

Definition domain_consensus_tx_p2sh_sig_op_count (tx : option transaction)
    (prevouts : option (list (option tx_out))) (flags : Z) (out : bool) : option (zcl_result sigops_err Z) :=
  match tx with
  | None => Some (ZCL_ERR DOMAIN_CONSENSUS_SIGOPS_ERR_NULL_TX)
  | Some tx =>
      if negb out then Some (ZCL_ERR DOMAIN_CONSENSUS_SIGOPS_ERR_NULL_OUT)
      else if Z.land flags SCRIPT_VERIFY_P2SH =? 0 then Some (ZCL_OK 0)
      else if transaction_is_coinbase tx then Some (ZCL_OK 0)
      else
        match prevouts with
        | None =>
            if 0 <? len (vin tx) then Some (ZCL_ERR DOMAIN_CONSENSUS_SIGOPS_ERR_NULL_PREVOUTS)
            else Some (ZCL_OK 0)
        | Some prevouts => let? n := p2sh_loop 0 (vin tx) prevouts flags in Some (ZCL_OK n)
        end
  end.

(** ** Which transactions an epoch admits *)

Section Epochs.
Context `{Allocator} `{HostOrder}.

Definition overwinter_at (p : consensus_params) (h : Z) : bool := dcu_is_active h p UPGRADE_OVERWINTER.
Definition sapling_at (p : consensus_params) (h : Z) : bool := dcu_is_active h p UPGRADE_SAPLING.

(** Sapling does not activate before Overwinter. *)
Definition epochs_ordered (p : consensus_params) : Prop :=
  forall h, sapling_at p h = true -> overwinter_at p h = true.

Lemma networks_ordered :
  epochs_ordered main_params /\ epochs_ordered test_params /\ epochs_ordered regtest_params.
Proof.
  split_and!; intros h; unfold sapling_at, overwinter_at, dcu_is_active; cbn;
    rewrite ?Z.leb_le; try done; lia.
Qed.

Definition epoch_valid (p : consensus_params) (h : Z) (tx : transaction) : Prop :=
  if sapling_at p h then
    overwintered tx = true /\ version_group_id tx = SAPLING_VERSION_GROUP_ID /\
    SAPLING_MIN_TX_VERSION <= version tx <= SAPLING_MAX_TX_VERSION
  else
    (if overwinter_at p h then
       overwintered tx = true /\ version_group_id tx = OVERWINTER_VERSION_GROUP_ID /\
       version tx <= OVERWINTER_MAX_TX_VERSION
     else overwintered tx = false) /\
    len (tx_enc tx) <= MAX_TX_SIZE_BEFORE_SAPLING.

Lemma decides_then {E} (r k : check E) P Q : decides r Q -> (Q -> decides k P) -> decides (and_then r k) (Q /\ P).
Proof.
  intros [[-> HQ]|[[f ->] HQ]] Hk; cbn [and_then].
  - destruct (Hk HQ) as [[-> ?]|[? ?]]; [left|right]; tauto.
  - right. split; [by eexists|]. tauto.
Qed.

Lemma decides_if {E} (b : bool) (r1 r2 : check E) P1 P2 :
  decides r1 P1 -> decides r2 P2 -> decides (if b then r1 else r2) (if b then P1 else P2).
Proof. by destruct b. Qed.

Lemma presapling_size_decides tx sp : memory_ok -> tx_wf tx ->
  decides (sapling_structural_check_presapling_size tx sp)
    (sp = false -> len (tx_enc tx) <= MAX_TX_SIZE_BEFORE_SAPLING).
Proof.
  intros M W. unfold sapling_structural_check_presapling_size. destruct sp; [left; split; [done|congruence]|].
  rewrite (proj2 (transaction_id_spec tx M W)).
  eapply decides_iff; [apply decides_fail; [apply Z.ltb_ge|intros _; apply decides_ok]|]. tauto.
Qed.

Ltac flags := rewrite ?andb_false_iff, ?negb_false_iff, ?Z.eqb_eq, ?Z.ltb_ge, ?Z.leb_gt.

Lemma sapling_versions_decides tx d :
  decides (sapling_structural_check_sapling_versions tx d)
    ((version tx < SAPLING_MIN_TX_VERSION \/ overwintered tx = true) /\
     (overwintered tx = false \/ version_group_id tx = SAPLING_VERSION_GROUP_ID) /\
     (overwintered tx = false \/ SAPLING_MIN_TX_VERSION <= version tx) /\
     (overwintered tx = false \/ version tx <= SAPLING_MAX_TX_VERSION) /\ True).
Proof. repeat (apply decides_fail; [by flags|intros _]). apply decides_ok. Qed.

Lemma overwinter_versions_decides tx d :
  decides (sapling_structural_check_overwinter_versions tx d)
    ((version tx < OVERWINTER_MIN_TX_VERSION \/ overwintered tx = true) /\
     (overwintered tx = false \/ version_group_id tx = OVERWINTER_VERSION_GROUP_ID) /\
     (overwintered tx = false \/ version tx <= OVERWINTER_MAX_TX_VERSION) /\ True).
Proof. repeat (apply decides_fail; [by flags|intros _]). apply decides_ok. Qed.

Lemma sapling_structural_decides tx p h d :
  memory_ok -> tx_wf tx -> epochs_ordered p -> 0 <= h ->
  decides (domain_consensus_check_transaction_sapling_structural (Some tx) (Some p) h d) (epoch_valid p h tx).
Proof.
  intros M W Ho Hh. unfold domain_consensus_check_transaction_sapling_structural, sapling_structural_check_caller_args.
  rewrite (proj2 (Z.ltb_ge h 0)) by lia. cbn [and_then check_ok].
  rewrite !upgrade_active_ok by (done || lia). fold (overwinter_at p h) (sapling_at p h).
  specialize (Ho h). unfold epoch_valid. unfold OVERWINTER_MIN_TX_VERSION, OVERWINTER_MAX_TX_VERSION in *.
  pose proof (presapling_size_decides tx (sapling_at p h) M W) as Hs.
  eapply decides_iff.
  { eapply (decides_then _ _ _ (overwinter_at p h = true \/ overwintered tx = false)).
    { eapply decides_iff; [eapply (decides_fail _ _ _ _ _ _ (overwinter_at p h = true \/ overwintered tx = false));
        [by flags|intros _; apply decides_ok]|tauto]. }
    intros _. eapply decides_then.
    { apply decides_if; [apply sapling_versions_decides|].
      apply decides_if; [apply overwinter_versions_decides|apply decides_ok]. }
    intros _. eapply (decides_fail _ _ _ _ _ _ (overwinter_at p h = false \/ overwintered tx = true)); [by flags|].
    intros _. exact Hs. }
  unfold OVERWINTER_MIN_TX_VERSION, OVERWINTER_MAX_TX_VERSION.
  destruct (sapling_at p h), (overwinter_at p h), (overwintered tx); try (specialize (Ho eq_refl); done);
    intuition (done || lia).
Qed.

(** C23: which transactions an epoch admits. With the upgrades in order, the
    height-dependent check is defined and accepts exactly the transaction form of
    its epoch: version 4 with the Sapling group id once Sapling is active, the
    Overwinter group id and at most version 3 before, no overwintered transaction
    before that, and the old size limit until Sapling. A transaction that passes
    this check and the structural one is therefore serialised in the form of its
    epoch, so before Sapling none carries a shielded spend, a shielded output or
    a value balance. *)
Theorem epoch_check_spec tx p h d :
  memory_ok -> tx_wf tx -> epochs_ordered p -> 0 <= h ->
  is_Some (domain_consensus_check_transaction_sapling_structural (Some tx) (Some p) h d) /\
  (domain_consensus_check_transaction_sapling_structural (Some tx) (Some p) h d = check_ok <->
   epoch_valid p h tx) /\
  (forall ctx, structurally_valid ctx tx -> epoch_valid p h tx ->
   is_v4 tx = sapling_at p h /\ is_v3 tx = overwinter_at p h && negb (sapling_at p h) /\
   (sapling_at p h = false ->
    v_shielded_spend tx = [] /\ v_shielded_output tx = [] /\ value_balance tx = 0)).
Proof.
  intros M W Ho Hh. destruct (decides_spec _ _ (sapling_structural_decides tx p h d M W Ho Hh)) as [Hd Hiff].
  split; [exact Hd|]. split; [exact Hiff|]. intros ctx V E.
  pose proof (sv_version _ _ V) as Hv. specialize (Ho h). unfold epoch_valid, version_valid in *.
  unfold SAPLING_MIN_TX_VERSION, SAPLING_MAX_TX_VERSION, OVERWINTER_MIN_TX_VERSION, OVERWINTER_MAX_TX_VERSION in *.
  assert (is_v4 tx = sapling_at p h /\ is_v3 tx = overwinter_at p h && negb (sapling_at p h)) as [E4 E3].
  { unfold is_v4, is_v3, tx_class, tx_classify_overwinter. cbn [fst snd].
    destruct (sapling_at p h).
    - destruct E as (-> & -> & ?). rewrite (Ho eq_refl). cbn [andb negb].
      assert (version tx = 4) as -> by lia. by split.
    - destruct E as [E _]. destruct (overwinter_at p h); [destruct E as (E & G & ?)|]; rewrite E in *; [|by split].
      rewrite G in *. assert (version tx = 3) as -> by lia. by split. }
  split; [done|]. split; [done|]. intros Hsp. rewrite Hsp in E4.
  pose proof (wf_spends tx W) as H1. pose proof (wf_outputs tx W) as H2. pose proof (wf_balance tx W) as H3.
  rewrite E4 in H1, H2, H3. done.
Qed.

End Epochs.

Section EpochWitness.
#[local] Instance epoch_alloc : Allocator := fun _ => true.
#[local] Instance epoch_host : HostOrder := false.

(** The sample transaction before Overwinter, on mainnet. *)
Lemma epoch_check_spec_witness :
  domain_consensus_check_transaction_sapling_structural (Some sample_tx) (Some main_params) 100 10 = check_ok /\
  is_v4 sample_tx = false.
Proof.
  assert (epoch_valid main_params 100 sample_tx) as E by (split; vm_compute; congruence).
  destruct (epoch_check_spec sample_tx main_params 100 10 (fun _ => eq_refl) sample_tx_wf
    (proj1 networks_ordered)) as (_ & Hv & _); [lia|].
  split; [exact (proj2 Hv E)|reflexivity].
Defined.
End EpochWitness.

(** ** Lock time and expiry *)

(** Finality and expiry only move forward. A transaction final for some
    height and time is final for every later height and time; one that has
    expired stays expired at every later height; it is still valid in the block
    at its expiry height and expires at the next; and "expiring soon" is exactly
    "expired three blocks from now". *)
Theorem locktime_monotone tx h h' t t' :
  in_u 32 (expiry_height tx) -> 0 <= h <= h' -> h' + 3 < 2 ^ 31 -> t <= t' ->
  (domain_consensus_tx_is_final (Some tx) h t = true -> domain_consensus_tx_is_final (Some tx) h' t' = true) /\
  (domain_consensus_tx_is_expired (Some tx) h = true -> domain_consensus_tx_is_expired (Some tx) h' = true) /\
  (expiry_height tx = h -> domain_consensus_tx_is_expired (Some tx) h = false /\
     domain_consensus_tx_is_expired (Some tx) (h + 1) =
       negb (expiry_height tx =? 0) && negb (transaction_is_coinbase tx)) /\
  domain_consensus_tx_is_expiring_soon (Some tx) h = Some (domain_consensus_tx_is_expired (Some tx) (h + 3)).
Proof.
  intros He Hh Hm Ht. unfold domain_consensus_tx_is_final, domain_consensus_tx_is_expired,
    domain_consensus_tx_is_expiring_soon, DOMAIN_CONSENSUS_TX_EXPIRING_SOON_THRESHOLD.
  rewrite s32_ok by lia. rewrite !wrap_id by (unfold in_u; lia). split; [|split; [|split; [|]]].
  - destruct (lock_time tx =? 0); [done|]. cbn zeta. destruct (lock_time tx <? DOMAIN_CONSENSUS_LOCKTIME_THRESHOLD).
    + destruct (Z.ltb_spec (lock_time tx) h), (Z.ltb_spec (lock_time tx) h'); (done || lia).
    + destruct (Z.ltb_spec (lock_time tx) t), (Z.ltb_spec (lock_time tx) t'); (done || lia).
  - destruct (_ || _); [done|]. rewrite !Z.ltb_lt. lia.
  - intros Eh. destruct (Z.eqb_spec (expiry_height tx) 0) as [E|E]; cbn [orb negb andb]; [done|].
    destruct (transaction_is_coinbase tx); cbn [negb]; [done|]. rewrite Eh, Z.ltb_irrefl. split; [done|].
    apply Z.ltb_lt. lia.
  - cbn [domain_consensus_tx_is_expired]. by rewrite wrap_id by (unfold in_u; lia).
Qed.

Lemma locktime_monotone_witness :
  domain_consensus_tx_is_final (Some sample_tx) 10 0 = true /\
  domain_consensus_tx_is_final (Some sample_tx) 1000 50 = true.
Proof.
  assert (domain_consensus_tx_is_final (Some sample_tx) 10 0 = true) as E by (vm_compute; reflexivity).
  split; [exact E|]. refine (proj1 (locktime_monotone sample_tx 10 1000 0 50 _ _ _ _) E); try lia.
  split; vm_compute; congruence.
Defined.

(** ** Signature operations *)

(** The count of one script, which is always defined. *)
Definition script_sig_ops (flags : Z) (s : script) : Z := default 0 (script_get_sig_op_count s flags false).
Definition tx_scripts (tx : transaction) : list script := map script_sig (vin tx) ++ map script_pub_key (vout tx).

Lemma script_sig_ops_bound flags s : script_wf s -> 0 <= script_sig_ops flags s <= 20 * len s.
Proof.
  intros W. unfold script_sig_ops. by destruct (sig_op_count_total s flags false W) as (c & -> & Hc).
Qed.

Lemma sig_ops_bound flags l : Forall script_wf l ->
  0 <= sum_list (map (script_sig_ops flags) l) <= 20 * sum_list (map len l).
Proof.
  induction 1 as [|s l Hs _ IH]; cbn [map sum_list]; [lia|]. pose proof (script_sig_ops_bound flags s Hs). lia.
Qed.

Lemma count_scripts_spec flags l n : Forall script_wf l -> 0 <= n -> n + 20 * sum_list (map len l) < 2 ^ 64 ->
  count_scripts n l flags = Some (n + sum_list (map (script_sig_ops flags) l)).
Proof.
  intros Hl. revert n. induction Hl as [|s l Hs Hl IH]; intros n Hn Hm; cbn [count_scripts map sum_list] in *.
  { by rewrite Z.add_0_r. }
  pose proof (script_sig_ops_bound flags s Hs) as Hc. pose proof (sig_ops_bound flags l Hl).
  destruct (sig_op_count_total s flags false Hs) as (c & E & _).
  assert (script_sig_ops flags s = c) as Ec by (unfold script_sig_ops; by rewrite E).
  rewrite E, <- Ec, wrap_id by (unfold in_u; lia). rewrite IH by lia. f_equal. lia.
Qed.

(** The scripts of a transaction take up part of its wire format. *)
Lemma len_concat_map {A} (enc : A -> list Z) (f : A -> Z) l :
  (forall x, f x <= len (enc x)) -> sum_list (map f l) <= len (List.concat (map enc l)).
Proof.
  intros Hf. induction l as [|x l IH]; cbn [map sum_list List.concat]; [done|]. rewrite len_app.
  specialize (Hf x). lia.
Qed.

Lemma scripts_in_tx tx : sum_list (map len (tx_scripts tx)) <= len (tx_enc tx).
Proof.
  assert (sum_list (map len (map script_sig (vin tx))) <= len (vec_enc tx_in_enc (vin tx))) as Hi.
  { unfold vec_enc. rewrite len_app, map_map. pose proof (len_nonneg (compact_size_enc (len (vin tx)))).
    etrans; [apply (len_concat_map tx_in_enc)|lia]. intros i. unfold tx_in_enc, script_enc. rewrite !len_app.
    pose proof (len_nonneg (outpoint_enc (prevout i))). pose proof (len_nonneg (Transaction.le4 (sequence i))).
    pose proof (len_nonneg (compact_size_enc (script_size (script_sig i)))). lia. }
  assert (sum_list (map len (map script_pub_key (vout tx))) <= len (vec_enc tx_out_enc (vout tx))) as Ho.
  { unfold vec_enc. rewrite len_app, map_map. pose proof (len_nonneg (compact_size_enc (len (vout tx)))).
    etrans; [apply (len_concat_map tx_out_enc)|lia]. intros o. unfold tx_out_enc, script_enc. rewrite !len_app.
    pose proof (len_nonneg (le8s (value o))). pose proof (len_nonneg (compact_size_enc (script_size (script_pub_key o)))). lia. }
  unfold tx_scripts, tx_enc. rewrite map_app, sum_list_app, !len_app.
  pose proof (len_nonneg (header_enc tx)). pose proof (len_nonneg (Transaction.le4 (lock_time tx))).
  repeat match goal with |- context [len ?x] => lazymatch x with if _ then _ else _ => pose proof (len_nonneg x); generalize dependent (len x); intros end end.
  lia.
Qed.

Lemma tx_scripts_wf tx : tx_wf tx -> Forall script_wf (tx_scripts tx).
Proof.
  intros W. apply Forall_app. split; apply Forall_map.
  - eapply Forall_impl; [|exact (proj2 (wf_vin tx W))]. unfold tx_in_wf. tauto.
  - eapply Forall_impl; [|exact (proj2 (wf_vout tx W))]. unfold tx_out_wf. tauto.
Qed.

(** The signature operations of the scripts a transaction carries. *)
Definition tx_sig_ops (flags : Z) (tx : transaction) : Z :=
  sum_list (map (script_sig_ops flags) (tx_scripts tx)).

Lemma legacy_count_spec tx flags : tx_wf tx ->
  domain_consensus_tx_legacy_sig_op_count (Some tx) flags true = Some (ZCL_OK (tx_sig_ops flags tx)) /\
  0 <= tx_sig_ops flags tx <= 20 * len (tx_enc tx).
Proof.
  intros W. pose proof (tx_scripts_wf tx W) as Hs. pose proof (scripts_in_tx tx) as Hl.
  pose proof (tx_enc_len tx W). pose proof (sig_ops_bound flags _ Hs) as Hb.
  split; [|unfold tx_sig_ops; lia].
  unfold domain_consensus_tx_legacy_sig_op_count, tx_sig_ops, tx_scripts in *. cbn [negb].
  rewrite !map_app, !sum_list_app in *. apply Forall_app in Hs as [H1 H2].
  pose proof (sig_ops_bound flags _ H1). pose proof (sig_ops_bound flags _ H2).
  assert (forall l : list script, 0 <= sum_list (map len l)) as Hn.
  { intros l. apply sum_list_nonneg, Forall_map, Forall_forall. intros x _. apply (len_nonneg (A:=Z)). }
  pose proof (Hn (map script_sig (vin tx))). pose proof (Hn (map script_pub_key (vout tx))).
  rewrite (count_scripts_spec flags _ 0) by (done || lia). rewrite (count_scripts_spec flags) by (done || lia).
  done.
Qed.

(** What one input adds to the P2SH count. *)
Definition p2sh_input_ops (flags : Z) (e : tx_in * option tx_out) : Z :=
  match snd e with
  | Some p =>
      if script_is_pay_to_script_hash (script_pub_key p)
      then default 0 (script_get_sig_op_count_p2sh (script_pub_key p) (script_sig (fst e)) flags)
      else 0
  | None => 0
  end.

Definition prevout_wf (p : option tx_out) : Prop := match p with Some p => tx_out_wf p | None => True end.

Lemma p2sh_loop_spec flags ins prevouts n :
  Forall tx_in_wf ins -> Forall prevout_wf prevouts -> length prevouts = length ins ->
  0 <= n -> n + 20 * MAX_SCRIPT_SIZE * len ins < 2 ^ 64 ->
  p2sh_loop n ins prevouts flags = Some (n + sum_list (map (p2sh_input_ops flags) (zip ins prevouts))) /\
  0 <= sum_list (map (p2sh_input_ops flags) (zip ins prevouts)) <= 20 * MAX_SCRIPT_SIZE * len ins.
Proof.
  intros Hi. revert prevouts n. induction Hi as [|i ins Wi Hi IH]; intros [|p prevouts] n Hp Hl Hn Hm; try done.
  { cbn. rewrite Z.add_0_r. split; [done|]. unfold len. cbn. lia. }
  injection Hl as Hl. apply Forall_cons_iff in Hp as [Wp Hp].
  change (zip (i :: ins) (p :: prevouts)) with ((i, p) :: zip ins prevouts).
  assert (len (i :: ins) = len ins + 1) as El by (unfold len; cbn [length]; lia).
  rewrite El in Hm. rewrite El. cbn [p2sh_loop map sum_list]. unfold MAX_SCRIPT_SIZE in *.
  pose proof (len_nonneg ins).
  assert (0 <= p2sh_input_ops flags (i, p) <= 20 * 10000 /\
    match p with
    | None => p2sh_input_ops flags (i, p) = 0
    | Some o => if script_is_pay_to_script_hash (script_pub_key o)
                then script_get_sig_op_count_p2sh (script_pub_key o) (script_sig i) flags =
                     Some (p2sh_input_ops flags (i, p))
                else p2sh_input_ops flags (i, p) = 0
    end) as [Hb Hc].
  { unfold p2sh_input_ops. cbn [fst snd]. destruct p as [o|]; [|done].
    destruct (script_is_pay_to_script_hash (script_pub_key o)); [|done].
    destruct (p2sh_count_total (script_pub_key o) (script_sig i) flags (proj2 Wp) (proj1 (proj2 Wi))) as (c & -> & ?).
    unfold MAX_SCRIPT_SIZE in *. by split. }
  destruct p as [o|]; [destruct (script_is_pay_to_script_hash (script_pub_key o))|]; cbn [negb].
  - rewrite Hc, wrap_id by (unfold in_u; lia).
    destruct (IH prevouts (n + p2sh_input_ops flags (i, Some o)) Hp Hl) as [-> ?]; [lia|lia|]. split; [f_equal|]; lia.
  - rewrite Hc. destruct (IH prevouts n Hp Hl) as [-> ?]; [lia|lia|]. split; [f_equal|]; lia.
  - rewrite Hc. destruct (IH prevouts n Hp Hl) as [-> ?]; [lia|lia|]. split; [f_equal|]; lia.
Qed.

(** Signature-operation counting is exact. For every transaction the wire
    format can carry, the legacy count is the sum of the counts of its scripts,
    at most 20 per byte of its encoding, and the P2SH count is the sum over the
    inputs whose previous output is pay-to-script-hash (zero for a coinbase and
    with the rule off): no count is undefined, and neither 64-bit sum wraps. *)
Theorem tx_sigops_exact tx prevouts flags :
  tx_wf tx -> Forall prevout_wf prevouts -> length prevouts = length (vin tx) ->
  domain_consensus_tx_legacy_sig_op_count (Some tx) flags true = Some (ZCL_OK (tx_sig_ops flags tx)) /\
  0 <= tx_sig_ops flags tx <= 20 * len (tx_enc tx) /\
  domain_consensus_tx_p2sh_sig_op_count (Some tx) (Some prevouts) flags true =
    Some (ZCL_OK (if (Z.land flags SCRIPT_VERIFY_P2SH =? 0) || transaction_is_coinbase tx then 0
                  else sum_list (map (p2sh_input_ops flags) (zip (vin tx) prevouts)))).
Proof.
  intros W Hp Hl. destruct (legacy_count_spec tx flags W) as [El Hb]. split; [exact El|]. split; [exact Hb|].
  unfold domain_consensus_tx_p2sh_sig_op_count. cbn [negb].
  destruct (Z.land flags SCRIPT_VERIFY_P2SH =? 0); [done|]. destruct (transaction_is_coinbase tx); [done|].
  destruct (wf_vin tx W) as [Hn Hi]. cbn [orb].
  destruct (p2sh_loop_spec flags (vin tx) prevouts 0 Hi Hp Hl) as [-> _]; [lia| |done].
  unfold MAX_TX_INPUTS, MAX_SCRIPT_SIZE in *. lia.
Qed.

Lemma tx_sigops_exact_witness :
  domain_consensus_tx_legacy_sig_op_count (Some sample_tx) 0 true = Some (ZCL_OK 0) /\
  domain_consensus_tx_p2sh_sig_op_count (Some sample_tx) (Some [None]) 1 true = Some (ZCL_OK 0).
Proof.
  split; [exact (proj1 (tx_sigops_exact sample_tx [None] 0 sample_tx_wf ltac:(repeat constructor) eq_refl))|].
  exact (proj2 (proj2 (tx_sigops_exact sample_tx [None] 1 sample_tx_wf ltac:(repeat constructor) eq_refl))).
Defined.
