(* ===== verification/Block.v ===== *)
(** * Blocks

    Model of [core/modules/primitives/include/primitives/block.h] and
    [core/modules/primitives/src/block.c]: the header and block records, their
    wire format in both directions, the block hash and block locators. *)

From stdpp Require Import base tactics list numbers option.
From Stdlib Require Import ZArith Lia.
From S2P Require Import Prelude Serialize ByteOrder Params Script Hash Transaction Merkle.
#[local] Open Scope Z_scope.
#[local] Open Scope list_scope.

Definition BLOCK_HEADER_SIZE : Z := 4 + 32 + 32 + 32 + 4 + 4 + 32.
Definition MAX_SOLUTION_SIZE : Z := 1344.
Definition BLOCK_HEADER_MAX_SERIALIZED : Z := BLOCK_HEADER_SIZE + 3 + MAX_SOLUTION_SIZE.
Definition MAX_LOCATOR_HASHES : Z := 64.
Definition MAX_BLOCK_TRANSACTIONS : Z := 50000.
Definition sizeof_transaction : Z := 304.

(** [nSolution] is the whole buffer of [MAX_SOLUTION_SIZE] bytes. *)
Record block_header := mk_header {
  nVersion : Z; hashPrevBlock : uint256; hashMerkleRoot : uint256; hashFinalSaplingRoot : uint256;
  nTime : Z; nBits : Z; nNonce : uint256; nSolution : list Z; nSolutionSize : Z }.

Definition block_header_init : block_header :=
  mk_header 4 uint256_set_null uint256_set_null uint256_set_null 0 0 uint256_set_null
    (replicate 1344 0) 0.
Definition block_header_is_null (h : block_header) : bool := nBits h =? 0.
Definition block_header_get_time (h : block_header) : Z := nTime h.

(** The array with its count. *)
Record block := mk_block { header : block_header; vtx : list transaction }.
Definition block_init : block := mk_block block_header_init [].
(** [block_free] drops the transactions and leaves the header. *)
Definition block_free (b : block) : block := mk_block (header b) [].

Definition block_locator : Type := list uint256.
Definition block_locator_init : block_locator := [].
Definition block_locator_free (loc : block_locator) : block_locator := [].

Section Codec.
Context `{Allocator} `{HostOrder}.

(** The solution bytes written are the first [nSolutionSize] of the buffer; a
    larger size would read past it, which [block_header_get_hash] tests for. *)
Definition block_header_serialize (h : block_header) : writer :=
  stream_write_i32_le (nVersion h) &&w
  stream_write_bytes (hashPrevBlock h) &&w
  stream_write_bytes (hashMerkleRoot h) &&w
  stream_write_bytes (hashFinalSaplingRoot h) &&w
  stream_write_u32_le (nTime h) &&w
  stream_write_u32_le (nBits h) &&w
  stream_write_bytes (nNonce h) &&w
  stream_write_compact_size (nSolutionSize h) &&w
  (if 0 <? nSolutionSize h then stream_write_bytes (take (Z.to_nat (nSolutionSize h)) (nSolution h)) else wdone).

(** The stack buffer does not grow: the stream does not own it. *)
Definition block_header_get_hash (h : block_header) : uint256 :=
  let s := mk_stream [] BLOCK_HEADER_MAX_SERIALIZED 0 false false in
  if MAX_SOLUTION_SIZE <? nSolutionSize h then replicate 32 255
  else
    match block_header_serialize h s with
    | (s, true) => hash256 (data s)
    | (_, false) => replicate 32 255
    end.

(** The old header keeps the part of its solution buffer the read does not reach. *)
Definition block_header_deserialize (h : block_header) : reader block_header :=
  read version <- stream_read_i32_le;
  read prev <- stream_read_bytes 32;
  read root <- stream_read_bytes 32;
  read sapling <- stream_read_bytes 32;
  read time <- stream_read_u32_le;
  read bits <- stream_read_u32_le;
  read nonce <- stream_read_bytes 32;
  read sol_size <- stream_read_compact_size;
  rfail_if (MAX_SOLUTION_SIZE <? sol_size) (
  read sol <- (if 0 <? sol_size then stream_read_bytes sol_size else rret []);
  rret (mk_header version prev root sapling time bits nonce
    (sol ++ drop (Z.to_nat sol_size) (nSolution h)) sol_size)).

Definition block_serialize (b : block) : writer :=
  block_header_serialize (header b) &&w
  stream_write_compact_size (len (vtx b)) &&w
  write_all transaction_serialize (vtx b).

Definition block_deserialize (b : block) : reader block :=
  read h <- block_header_deserialize (header b);
  read count <- stream_read_compact_size;
  rfail_if (MAX_BLOCK_TRANSACTIONS <? count) (
  rcheck (implausible count 10) (
  rfail_if (negb (array_alloc count sizeof_transaction)) (
  read txs <- read_elems (Z.to_nat count) transaction_deserialize;
  rret (mk_block h txs)))).

Definition block_get_hash (b : block) : uint256 := block_header_get_hash (header b).

(** [None] is a failed allocation; the copy is then freed again. *)
Fixpoint copy_all (l : list transaction) : option (list transaction) :=
  match l with
  | [] => Some []
  | tx :: l =>
      match transaction_copy tx with
      | Some tx => match copy_all l with Some l => Some (tx :: l) | None => None end
      | None => None
      end
  end.
Definition block_clone (src : block) : option block :=
  match vtx src with
  | [] => Some (mk_block (header src) [])
  | _ :: _ =>
      if alloc_ok (len (vtx src) * sizeof_transaction)
      then option_map (mk_block (header src)) (copy_all (vtx src)) else None
  end.

Definition block_locator_serialize (loc : block_locator) : writer :=
  stream_write_i32_le 170011 &&w
  stream_write_compact_size (len loc) &&w
  write_all stream_write_bytes loc.

(** The hashes past the kept ones, read and dropped; a read fails when the stream
    is exhausted, so [fuel] need not exceed the number of hashes it can hold. *)
Fixpoint discard_hashes (fuel : nat) (n : Z) : reader unit :=
  if n <=? 0 then rret tt
  else match fuel with
       | O => rfail
       | S fuel => read _ <- stream_read_bytes 32; discard_hashes fuel (n - 1)
       end.

Definition block_locator_deserialize : reader block_locator :=
  read _ <- stream_read_i32_le;
  read count <- stream_read_compact_size;
  let num_hashes := if count <? MAX_LOCATOR_HASHES then count else MAX_LOCATOR_HASHES in
  rfail_if (negb (array_alloc num_hashes 32)) (
  read hashes <- read_elems (Z.to_nat num_hashes) (stream_read_bytes 32);
  read _ <- (fun s => discard_hashes (S (Z.to_nat (stream_remaining s / 32))) (count - num_hashes) s);
  rret hashes).

End Codec.

(** ** The wire format *)

Record header_wf (h : block_header) : Prop := {
  wf_nVersion : in_s 32 (nVersion h);
  wf_prev : u256 (hashPrevBlock h);
  wf_root : u256 (hashMerkleRoot h);
  wf_sapling : u256 (hashFinalSaplingRoot h);
  wf_time : in_u 32 (nTime h);
  wf_bits : in_u 32 (nBits h);
  wf_nonce : u256 (nNonce h);
  wf_solution : arr MAX_SOLUTION_SIZE (nSolution h);
  wf_size : 0 <= nSolutionSize h <= MAX_SOLUTION_SIZE;
}.

(** The bytes of the solution in use. *)
Definition solution (h : block_header) : list Z := take (Z.to_nat (nSolutionSize h)) (nSolution h).

Definition block_header_enc (h : block_header) : list Z :=
  Transaction.le4 (u32 (nVersion h)) ++ hashPrevBlock h ++ hashMerkleRoot h ++ hashFinalSaplingRoot h ++
  Transaction.le4 (nTime h) ++ Transaction.le4 (nBits h) ++ nNonce h ++
  compact_size_enc (nSolutionSize h) ++ solution h.

Definition block_enc (b : block) : list Z := block_header_enc (header b) ++ vec_enc tx_enc (vtx b).

(** [h] with the tail of its solution buffer taken from [h0]. *)
Definition with_solution_tail (h h0 : block_header) : block_header :=
  mk_header (nVersion h) (hashPrevBlock h) (hashMerkleRoot h) (hashFinalSaplingRoot h) (nTime h) (nBits h)
    (nNonce h) (solution h ++ drop (Z.to_nat (nSolutionSize h)) (nSolution h0)) (nSolutionSize h).

Section Wire.
Context `{Allocator} `{HostOrder}.

(** A transaction that carries its id. *)
Definition identified (tx : transaction) : Prop := tx_wf tx /\ tx_hash tx = hash256 (tx_enc tx).

Definition block_wf (b : block) : Prop :=
  header_wf (header b) /\ vec_wf MAX_BLOCK_TRANSACTIONS identified (vtx b).

Lemma solution_arr h : header_wf h -> arr (nSolutionSize h) (solution h).
Proof.
  intros W. destruct (wf_solution h W) as [Hb Hl]. pose proof (wf_size h W). unfold solution. split; [by apply digits_take|].
  unfold len in *. rewrite length_take. lia.
Qed.

Lemma compact_size_enc_small n : 0 <= n <= MAX_SOLUTION_SIZE -> len (compact_size_enc n) <= 3.
Proof.
  intros Hn. unfold MAX_SOLUTION_SIZE, compact_size_enc, len in *.
  destruct (n <? 253); [cbn; lia|]. destruct (Z.leb_spec n 0xffff); [|lia]. cbn [length]. rewrite length_digits_of. lia.
Qed.

Lemma block_header_enc_len h : header_wf h -> 141 <= len (block_header_enc h) <= BLOCK_HEADER_MAX_SERIALIZED.
Proof.
  intros W. pose proof (solution_arr h W) as [_ Hs]. pose proof (compact_size_enc_small _ (wf_size h W)).
  pose proof (len_compact (nSolutionSize h)). pose proof (wf_size h W). destruct W.
  unfold block_header_enc. sizes. unfold BLOCK_HEADER_MAX_SERIALIZED, BLOCK_HEADER_SIZE, MAX_SOLUTION_SIZE in *. lia.
Qed.

Lemma writes_header h : header_wf h -> writes (block_header_serialize h) (block_header_enc h).
Proof.
  intros W. pose proof (solution_arr h W) as Hs. pose proof (wf_size h W). destruct W.
  unfold block_header_serialize, block_header_enc.
  apply writes_seq; [apply writes_i32|]. do 3 (apply writes_seq; [by eapply writes_arr|]).
  do 2 (apply writes_seq; [apply writes_u32|]). apply writes_seq; [by eapply writes_arr|].
  apply writes_seq; [apply writes_compact_size; unfold in_u, MAX_SOLUTION_SIZE in *; lia|].
  assert (solution h = if 0 <? nSolutionSize h then solution h else []) as ->.
  { destruct (Z.ltb_spec 0 (nSolutionSize h)); [done|]. unfold solution. by replace (Z.to_nat (nSolutionSize h)) with 0%nat by lia. }
  apply writes_if. intros _. by eapply writes_arr.
Qed.

Lemma writes_block b : block_wf b -> writes (block_serialize b) (block_enc b).
Proof.
  intros [Wh Wt]. apply writes_seq; [by apply writes_header|].
  eapply writes_vec; [|exact Wt|done]. intros tx [Wx _]. by apply transaction_writes.
Qed.

Lemma reads_block_header h h0 : header_wf h ->
  reads (block_header_deserialize h0) (block_header_enc h) (with_solution_tail h h0).
Proof.
  intros W. pose proof (solution_arr h W) as Hs. pose proof (wf_size h W) as Hz. destruct W.
  unfold block_header_deserialize, block_header_enc.
  eapply reads_bind; [by apply reads_i32|].
  do 3 (eapply reads_bind; [by apply reads_arr|]).
  do 2 (eapply reads_bind; [by apply reads_u32|]). eapply reads_bind; [by apply reads_arr|].
  eapply reads_bind; [apply reads_compact_size; unfold in_u, MAX_SOLUTION_SIZE in *; lia|].
  apply reads_fail_if; [apply Z.ltb_ge; lia|].
  assert (solution h = if 0 <? nSolutionSize h then solution h else []) as E.
  { destruct (Z.ltb_spec 0 (nSolutionSize h)); [done|]. unfold solution. by replace (Z.to_nat (nSolutionSize h)) with 0%nat by lia. }
  rewrite E at 1. eapply reads_map; [|reflexivity]. apply reads_if; [intros _; by apply reads_arr|].
  intros F. by rewrite E, F.
Qed.

Lemma tx_enc_len_ge tx : 10 <= len (tx_enc tx).
Proof.
  unfold tx_enc, vec_enc. rewrite !len_app, len_le4.
  pose proof (len_compact (len (vin tx))). pose proof (len_compact (len (vout tx))).
  pose proof (len_nonneg (concat (map tx_in_enc (vin tx)))). pose proof (len_nonneg (concat (map tx_out_enc (vout tx)))).
  assert (4 <= len (header_enc tx)) by (unfold header_enc; destruct (overwintered tx); sizes; lia).
  repeat match goal with |- context [len ?x] => lazymatch x with if _ then _ else _ => pose proof (len_nonneg x); generalize dependent (len x); intros end end.
  lia.
Qed.

Lemma reads_identified tx : memory_ok -> identified tx -> reads transaction_deserialize (tx_enc tx) tx.
Proof.
  intros M [W Hid] s rest Ws He Hu. rewrite (transaction_reads M tx W s rest Ws He Hu).
  rewrite compute_hash_spec by (done || by apply tx_wf_with_hash).
  do 2 f_equal. change (tx_enc (with_hash tx uint256_set_null)) with (tx_enc tx). rewrite <- Hid. by destruct tx.
Qed.

Lemma reads_block b b0 : memory_ok -> block_wf b ->
  reads (block_deserialize b0) (block_enc b) (mk_block (with_solution_tail (header b) (header b0)) (vtx b)).
Proof.
  intros M [Wh Wt]. unfold block_deserialize, block_enc. eapply reads_bind; [by apply reads_block_header|].
  rewrite <- (app_nil_r (vec_enc _ _)).
  eapply reads_vec; [exact Wt|done..|intros; apply tx_enc_len_ge|]. destruct Wt as [Hl Hf].
  apply reads_fail_if; [by rewrite array_alloc_ok|].
  eapply reads_bind; [|apply reads_ret]. unfold len. rewrite Nat2Z.id. apply reads_elems.
  eapply Forall_impl; [|exact Hf]. intros tx. by apply reads_identified.
Qed.

(** [w] appends [enc] to a buffer that has room for it, whoever owns it. *)
Definition fits (w : writer) (enc : list Z) : Prop :=
  forall s, error s = false -> size s + len enc <= capacity s -> capacity s < 2 ^ 64 ->
  w s = (append s enc, true).

Lemma fits_bytes b : fits (stream_write b) b.
Proof.
  intros s He Hf Hc. unfold stream_write. rewrite He. cbn zeta. unfold size, len in *.
  rewrite wrap_id by (unfold in_u; lia). by rewrite (proj2 (Z.ltb_ge _ _)) by lia.
Qed.

Lemma fits_seq w1 w2 e1 e2 : fits w1 e1 -> fits w2 e2 -> fits (w1 &&w w2) (e1 ++ e2).
Proof.
  intros H1 H2 s He Hf Hc. rewrite len_app in Hf. pose proof (len_nonneg e2). unfold wseq.
  rewrite H1 by (done || lia). rewrite H2; [|done| |done].
  - unfold append. cbn. by rewrite app_assoc.
  - unfold size, len, append in *. cbn [data capacity]. rewrite length_app. lia.
Qed.

Lemma fits_u32 v : fits (stream_write_u32_le v) (digits_of 8 4 v).
Proof. unfold stream_write_u32_le. rewrite Serialize.le4. apply fits_bytes. Qed.

Lemma fits_compact_size n : 0 <= n <= 0xffff -> fits (stream_write_compact_size n) (compact_size_enc n).
Proof.
  intros Hn. unfold stream_write_compact_size, compact_size_enc.
  destruct (Z.ltb_spec n 253); [rewrite wrap_id by (unfold in_u; lia); apply fits_bytes|].
  destruct (Z.leb_spec n 0xffff); [|lia]. rewrite wrap_id by (unfold in_u; lia).
  apply (fits_seq _ _ [253]); [apply fits_bytes|]. unfold stream_write_u16_le. rewrite le2. apply fits_bytes.
Qed.

Lemma fits_header h : header_wf h -> fits (block_header_serialize h) (block_header_enc h).
Proof.
  intros W. pose proof (wf_size h W). unfold block_header_serialize, block_header_enc.
  apply fits_seq; [apply fits_u32|]. do 3 (apply fits_seq; [apply fits_bytes|]).
  do 2 (apply fits_seq; [apply fits_u32|]). apply fits_seq; [apply fits_bytes|].
  apply fits_seq; [apply fits_compact_size; unfold MAX_SOLUTION_SIZE in *; lia|].
  destruct (Z.ltb_spec 0 (nSolutionSize h)); [apply fits_bytes|].
  intros s _ _ _. unfold solution. replace (Z.to_nat (nSolutionSize h)) with 0%nat by lia.
  unfold wdone, append. rewrite take_0, app_nil_r. by destruct s.
Qed.

(** The hash of a header is the double hash of its wire format; the fixed buffer
    is large enough, so it needs no memory. *)
Lemma header_hash_spec h : header_wf h -> block_header_get_hash h = hash256 (block_header_enc h).
Proof.
  intros W. unfold block_header_get_hash. pose proof (block_header_enc_len h W) as [_ Hl].
  rewrite (proj2 (Z.ltb_ge MAX_SOLUTION_SIZE (nSolutionSize h))) by apply W.
  rewrite (fits_header h W); [done|done| |done]. exact Hl.
Qed.

(** *** Parsed blocks *)

Lemma yields_i32 : yields stream_read_i32_le 4 (in_s 32).
Proof. eapply yields_map; [apply yields_u32|]. intros. by apply swrap_range. Qed.

Lemma yields_block_header h0 : arr MAX_SOLUTION_SIZE (nSolution h0) -> yields (block_header_deserialize h0) 0 header_wf.
Proof.
  intros Hs0. unfold block_header_deserialize. yields_count.
  - eapply yields_bind; [apply yields_i32|]. intros v Hv.
    eapply yields_bind; [by apply yields_read|]. intros prev Hprev.
    eapply yields_bind; [by apply yields_read|]. intros root Hroot.
    eapply yields_bind; [by apply yields_read|]. intros sap Hsap.
    eapply yields_bind; [apply yields_u32|]. intros t Ht.
    eapply yields_bind; [apply yields_u32|]. intros bits Hbits.
    eapply yields_bind; [by apply yields_read|]. intros nonce Hnonce.
    eapply yields_bind; [apply yields_compact_size|]. intros n [Hn _].
    apply yields_fail_if. intros Hm. apply Z.ltb_ge in Hm.
    eapply (yields_map _ _ 0 (arr n)).
    + destruct (Z.ltb_spec 0 n); [eapply yields_weaken; [by apply yields_read|lia|done]|].
      apply yields_ret. replace n with 0 by lia. split; [constructor|done].
    + intros sol [Bs Ls]. split; cbn; try done. destruct Hs0 as [B0 L0]. split.
      * apply digits_app; [done|by apply digits_drop].
      * unfold len in *. rewrite length_app, length_drop. lia.
  - lia.
Qed.

Lemma yields_identified : memory_ok -> yields transaction_deserialize 6 identified.
Proof.
  intros M. eapply yields_weaken; [apply transaction_yields|lia|]. intros tx (tx0 & W & -> & _).
  split; [by apply compute_hash_wf|]. by rewrite compute_hash_spec by done.
Qed.

Lemma yields_block b0 : memory_ok -> arr MAX_SOLUTION_SIZE (nSolution (header b0)) ->
  yields (block_deserialize b0) 0 block_wf.
Proof.
  intros M Hs. unfold block_deserialize. yields_count.
  - eapply yields_bind; [by apply yields_block_header|]. intros h Hh.
    eapply yields_bind; [apply yields_compact_size|]. intros n [Hn _].
    apply yields_fail_if. intros Hm. apply Z.ltb_ge in Hm. apply yields_rcheck, yields_fail_if. intros _.
    eapply (yields_map _ _ 0).
    + eapply yields_weaken; [apply yields_elems; by apply yields_identified|lia|intros l Hl; exact Hl].
    + intros l [Hl Hf]. split; [done|]. split; [|done]. cbn. unfold len. lia.
  - lia.
Qed.

Lemma header_enc_inj h1 h2 : header_wf h1 -> header_wf h2 ->
  block_header_enc h1 = block_header_enc h2 -> with_solution_tail h1 h2 = h2.
Proof.
  intros W1 W2 E. pose proof (reads_block_header h1 h2 W1) as R1. pose proof (reads_block_header h2 h2 W2) as R2.
  rewrite E in R1. pose proof (block_header_enc_len h2 W2) as Hl.
  destruct (writes_header h2 W2 (mk_stream [] BLOCK_HEADER_MAX_SERIALIZED 0 false false)) as [Hw _].
  { split; [constructor|]. by vm_compute. }
  { unfold size, len, BLOCK_HEADER_MAX_SERIALIZED, BLOCK_HEADER_SIZE, MAX_SOLUTION_SIZE in *. cbn [data length]. lia. }
  rewrite (fits_header h2 W2) in Hw; [|done|exact (proj2 Hl)|by vm_compute].
  destruct Hw as ((Wb & _) & D & _). cbn [data app] in D. rewrite D in Wb.
  assert (stream_wf (stream_init_from_data (block_header_enc h2))) as Ws.
  { apply stream_from_data_wf; [done|]. unfold len, BLOCK_HEADER_MAX_SERIALIZED, BLOCK_HEADER_SIZE, MAX_SOLUTION_SIZE in *. lia. }
  specialize (R1 _ [] Ws eq_refl ltac:(by rewrite app_nil_r)). specialize (R2 _ [] Ws eq_refl ltac:(by rewrite app_nil_r)).
  assert (with_solution_tail h1 h2 = with_solution_tail h2 h2) as -> by congruence.
  unfold with_solution_tail, solution. rewrite take_drop. by destruct h2.
Qed.

End Wire.

(** C28: the block codec round-trips, and its hash commits to the header. Whatever the
    allocator answers: the block hash of a well-formed block is the double SHA-256 of the
    header encoding, and two headers with the same encoding agree in every field (the unused
    tail of the solution buffer aside). With memory: the serialiser appends exactly the wire
    encoding, and the deserialiser, on any stream that continues with it and whatever the
    target record held, returns the block (that tail aside) and consumes exactly those
    bytes; whatever it accepts is a well-formed block whose transactions carry their ids. *)
Theorem block_roundtrip `{Allocator} `{HostOrder} b b0 :
  block_wf b -> arr MAX_SOLUTION_SIZE (nSolution (header b0)) ->
  block_get_hash b = hash256 (block_header_enc (header b)) /\
  (forall h, header_wf h -> block_header_enc (header b) = block_header_enc h -> with_solution_tail (header b) h = h) /\
  (memory_ok ->
   (forall s, stream_wf s -> owns_data s = true -> error s = false -> size s + len (block_enc b) < 2 ^ 64 ->
    exists s', block_serialize b s = (s', true) /\ data s' = data s ++ block_enc b) /\
   (forall s rest, stream_wf s -> error s = false -> unread s = block_enc b ++ rest ->
    block_deserialize b0 s =
      (advance s (len (block_enc b)), Some (mk_block (with_solution_tail (header b) (header b0)) (vtx b)))) /\
   (forall s s' b', stream_wf s -> block_deserialize b0 s = (s', Some b') -> block_wf b')).
Proof.
  intros W Hs0. split; [by apply header_hash_spec, W|]. split; [intros h Wh; apply header_enc_inj; [apply W|done]|].
  intros M. split; [|split].
  - intros s Hs Ho He Hf. destruct (writes_block b W s Hs Hf) as [Hw Hok]. specialize (Hok Ho He M).
    destruct (block_serialize b s) as [s' ok]. cbn in Hok. subst ok. exists s'. split; [done|]. apply Hw.
  - intros s rest Hs He Hu. by apply (reads_block b b0 M W s rest).
  - intros s s' b' Hs E. by apply (yields_block b0 M Hs0 s s' b' Hs E).
Qed.

Section BlockWitness.
#[local] Instance block_alloc : Allocator := fun _ => true.
#[local] Instance block_host : HostOrder := false.

Definition sample_header : block_header :=
  mk_header 4 (replicate 32 1) (replicate 32 2) (replicate 32 3) 1500000000 0x1f07ffff (replicate 32 4)
    (replicate 1344 5) 400.

Lemma sample_header_wf : header_wf sample_header.
Proof. split; try (split; vm_compute; congruence); (split; [apply bytes_check; vm_compute; reflexivity|reflexivity]). Qed.

(** The block is read back; its hash is also right when no memory is to be had. *)
Lemma block_roundtrip_witness :
  exists tx, let b := mk_block sample_header [tx] in
  block_deserialize block_init (stream_init_from_data (block_enc b ++ [7])) =
    (advance (stream_init_from_data (block_enc b ++ [7])) (len (block_enc b)),
     Some (mk_block (with_solution_tail sample_header block_header_init) [tx])) /\
  @block_get_hash (fun _ => false) block_host b = hash256 (block_header_enc sample_header).
Proof.
  exists (with_hash sample_tx (hash256 (tx_enc sample_tx))).
  set (b := mk_block sample_header [with_hash sample_tx (hash256 (tx_enc sample_tx))]).
  assert (block_wf b) as W.
  { split; [exact sample_header_wf|]. split; [vm_compute; congruence|]. constructor; [|constructor].
    split; [apply tx_wf_with_hash, sample_tx_wf|reflexivity]. }
  assert (arr MAX_SOLUTION_SIZE (nSolution (header block_init))) as Hs0 by (split; [apply digits_replicate0; lia|reflexivity]).
  split; [|exact (proj1 (@block_roundtrip (fun _ => false) block_host b block_init W Hs0))].
  destruct (block_roundtrip b block_init W Hs0) as (_ & _ & R). destruct (R (fun _ => eq_refl)) as (_ & R' & _).
  apply (R' _ [7]); [|done|done].
  apply stream_from_data_wf; [apply bytes_check; vm_compute; reflexivity|by vm_compute].
Defined.
End BlockWitness.
