(* ===== verification/Equihash.v ===== *)
(** * Equihash verification

    Model of the verifier of [core/modules/crypto/src/equihash.c] with the portable
    batch hashing of [blake2b_avx2.c], of the consensus predicate
    [core/consensus/src/equihash.c], its wrapper [core/chainparams/src/equihash.c] and
    the registry scheme [scheme_equihash_200_9.c]. Rows are byte buffers of the full
    width, as allocated; [None] is an access outside a buffer or a failed assertion.
    The functions that allocate return, next to their result, whether an allocation
    failed. *)

From stdpp Require Import base tactics list numbers option.
From Stdlib Require Import ZArith Lia ZifyNat.
From S2P Require Import Prelude Serialize ByteOrder Hash Blake2b Transaction Block.
#[local] Open Scope Z_scope.
#[local] Open Scope list_scope.

(** ** Parameters *)

Record equihash_params := mk_equihash {
  eh_N : nat; eh_K : nat; indices_per_hash_output : nat; hash_output : nat; collision_bit_length : nat;
  collision_byte_length : nat; hash_length : nat; final_full_width : nat; solution_width : nat }.

Definition sizeof_eh_index : nat := 4.

(** [None]: a division by zero or a shift by the width of the type. *)
Definition equihash_params_init (N K : nat) : option equihash_params :=
  if (N =? 0)%nat || (64 <=? K)%nat then None
  else
    let iph := (512 / N)%nat in
    let cbl := (N / (K + 1))%nat in
    let cbyte := ((cbl + 7) / 8)%nat in
    Some (mk_equihash N K iph (iph * N / 8) cbl cbyte ((K + 1) * cbyte) (2 * cbyte + sizeof_eh_index * 2 ^ K)
            (2 ^ K * (cbl + 1) / 8)).

Definition equihash_params_supported (N K : nat) : bool :=
  if (N =? 0)%nat || (K =? 0)%nat then false
  else if (32 <=? K)%nat then false
  else if (512 <? N)%nat then false
  else
    let ipho := (512 / N)%nat in
    if (ipho =? 0)%nat || negb ((ipho * N) mod 8 =? 0)%nat then false
    else
      let cbl := (N / (K + 1))%nat in
      if (cbl <? 8)%nat then false
      else if (8 * 4 <? 7 + (cbl + 1))%nat then false
      else if (sizeof_eh_index <? (cbl + 1 + 7) / 8)%nat then false
      else true.

Definition equihash_solution_params (solution_len : nat) : option (nat * nat) :=
  if (solution_len =? 1344)%nat then Some (200, 9)%nat
  else if (solution_len =? 400)%nat then Some (192, 7)%nat
  else if (solution_len =? 68)%nat then Some (96, 5)%nat
  else if (solution_len =? 36)%nat then Some (48, 5)%nat
  else None.

(** ** Checked access to buffers *)

Definition read_at (l : list Z) (off n : nat) : option (list Z) :=
  if (off + n <=? length l)%nat then Some (take n (drop off l)) else None.
Definition store_at (l : list Z) (off : nat) (src : list Z) : option (list Z) :=
  if (off + length src <=? length l)%nat then Some (memcpy_at l off src) else None.

Section Code.
Context `{Allocator} `{HostOrder}.

(** ** Hashing an index *)

(** The bytes of "ZcashPoW". *)
Definition ZcashPoW : list Z := [0x5a; 0x63; 0x61; 0x73; 0x68; 0x50; 0x6f; 0x57].

Definition equihash_initialise_state (p : equihash_params) : option blake2b_ctx :=
  let personalization := ZcashPoW ++ zcl_write_u32_le (Z.of_nat (eh_N p)) ++ zcl_write_u32_le (Z.of_nat (eh_K p)) in
  blake2b_init_salt_personal (Z.of_nat (hash_output p)) None None (Some personalization).

(** A digest that is not written would be read uninitialised. *)
Definition digest_of (state : blake2b_ctx) (hash_len : nat) : option (list Z) :=
  let? r := blake2b_final state (Z.of_nat hash_len) in r.

Definition generate_hash (base_state : blake2b_ctx) (g : Z) (hash_len : nat) : option (list Z) :=
  digest_of (blake2b_update base_state (zcl_write_u32_le g)) hash_len.

(** The portable batch: one update and finalisation per index, the index copied as
    it is in memory. *)
Fixpoint blake2b_finalize_scalar_range (base : blake2b_ctx) (indices : list Z) (hash_len : nat) : option (list (list Z)) :=
  match indices with
  | [] => Some []
  | i :: indices =>
      let? h := digest_of (blake2b_update base (store_object 4 i)) hash_len in
      let? l := blake2b_finalize_scalar_range base indices hash_len in
      Some (h :: l)
  end.
(** [equihash_generate_hash_batch4] and [_batch8]: both branches of the test on the
    buffer run the scalar code. *)
Definition equihash_generate_hash_batch (base : blake2b_ctx) (indices : list Z) (hash_len : nat) : option (list (list Z)) :=
  blake2b_finalize_scalar_range base indices hash_len.

(** ** Bit packing *)

(** The bytes written for one group: [acc_bits] is below 8, so no shift reaches 32. *)
Definition expand_group (acc_value : Z) (acc_bits bit_len byte_pad out_width : nat) : list Z :=
  replicate byte_pad 0 ++
  map (fun x =>
         let k := 8 * (Z.of_nat out_width - Z.of_nat x - 1) in
         u8 ((acc_value >> (Z.of_nat acc_bits + k)) .& (((u32 (1 << Z.of_nat bit_len) - 1) >> k) .& 0xFF)))
      (seq byte_pad (out_width - byte_pad)).

Fixpoint expand_loop (bit_len byte_pad out_width acc_bits : nat) (acc_value : Z) (l : list Z) : list Z :=
  match l with
  | [] => []
  | b :: l =>
      let acc_value := u32 (acc_value << 8) .| b in
      let acc_bits := (acc_bits + 8)%nat in
      if (bit_len <=? acc_bits)%nat then
        let acc_bits := (acc_bits - bit_len)%nat in
        expand_group acc_value acc_bits bit_len byte_pad out_width ++ expand_loop bit_len byte_pad out_width acc_bits acc_value l
      else expand_loop bit_len byte_pad out_width acc_bits acc_value l
  end.

(** The bytes written from the start of [out]; [None] is a failed assertion. *)
Definition eh_expand_array (l : list Z) (out_len bit_len byte_pad : nat) : option (list Z) :=
  if negb (8 <=? bit_len)%nat then None
  else if negb (7 + bit_len <=? 8 * 4)%nat then None
  else
    let out_width := ((bit_len + 7) / 8 + byte_pad)%nat in
    if negb (out_len =? 8 * out_width * length l / bit_len)%nat then None
    else Some (expand_loop bit_len byte_pad out_width 0 0 l).

(** [acc_value] with the next group of [in_width] bytes shifted in. *)
Definition compress_group (acc_value : Z) (bit_len byte_pad in_width : nat) (group : list Z) : Z :=
  fold_left (fun acc x =>
      let k := 8 * (Z.of_nat in_width - Z.of_nat x - 1) in
      acc .| ((nth x group 0 .& (((u32 (1 << Z.of_nat bit_len) - 1) >> k) .& 0xFF)) << k))
    (seq byte_pad (in_width - byte_pad)) (u32 (acc_value << Z.of_nat bit_len)).

Fixpoint compress_loop (out_len bit_len byte_pad in_width acc_bits : nat) (acc_value : Z) (l : list Z) : option (list Z) :=
  match out_len with
  | O => Some []
  | S out_len =>
      let? r := (if (acc_bits <? 8)%nat then
                   let? group := read_at l 0 in_width in
                   Some (compress_group acc_value bit_len byte_pad in_width group, acc_bits + bit_len, drop in_width l)%nat
                 else Some (acc_value, acc_bits, l)) in
      let '(acc_value, acc_bits, l) := r in
      let acc_bits := (acc_bits - 8)%nat in
      let? rest := compress_loop out_len bit_len byte_pad in_width acc_bits acc_value l in
      Some (u8 ((acc_value >> Z.of_nat acc_bits) .& 0xFF) :: rest)
  end.

Definition eh_compress_array (l : list Z) (out_len bit_len byte_pad : nat) : option (list Z) :=
  if negb (8 <=? bit_len)%nat then None
  else if negb (7 + bit_len <=? 8 * 4)%nat then None
  else
    let in_width := ((bit_len + 7) / 8 + byte_pad)%nat in
    if negb (out_len =? bit_len * length l / (8 * in_width))%nat then None
    else compress_loop out_len bit_len byte_pad in_width 0 0 l.

Definition eh_index_to_array (i : Z) : list Z := store_object 4 (if ZCL_HOST_BIG_ENDIAN then i else zcl_bswap32 i).
Definition eh_array_to_index (array : list Z) : Z :=
  let bei := load_object 4 array in if ZCL_HOST_BIG_ENDIAN then bei else zcl_bswap32 bei.

(** [for (i = 0; i < len_indices && count < max_indices; i += 4)] *)
Fixpoint read_indices (max_indices : nat) (array : list Z) : list Z :=
  match max_indices with
  | O => []
  | S n => match array with
           | [] => []
           | _ => eh_array_to_index array :: read_indices n (drop sizeof_eh_index array)
           end
  end.

(** The indices, and whether the allocation failed; bytes of [array] that the
    expansion leaves would be read uninitialised. *)
Definition eh_get_indices_from_minimal (minimal : list Z) (collision_bit_len max_indices : nat) : option (list Z * bool) :=
  if negb ((collision_bit_len + 1 + 7) / 8 <=? sizeof_eh_index)%nat then None
  else
    let len_indices := (8 * sizeof_eh_index * length minimal / (collision_bit_len + 1))%nat in
    let byte_pad := (sizeof_eh_index - (collision_bit_len + 1 + 7) / 8)%nat in
    if negb (alloc_ok (Z.of_nat len_indices)) then Some ([], true)
    else
      let? array := eh_expand_array minimal len_indices (collision_bit_len + 1) byte_pad in
      if (length array =? len_indices)%nat && (len_indices mod sizeof_eh_index =? 0)%nat
      then Some (read_indices max_indices array, false) else None.

(** [Some None]: the function returns 0. *)
Definition eh_get_minimal_from_indices (indices : list Z) (collision_bit_len max_len : nat) : option (option (list Z)) :=
  if negb ((collision_bit_len + 1 + 7) / 8 <=? sizeof_eh_index)%nat then None
  else
    let len_indices := (length indices * sizeof_eh_index)%nat in
    let min_len := ((collision_bit_len + 1) * len_indices / (8 * sizeof_eh_index))%nat in
    let byte_pad := (sizeof_eh_index - (collision_bit_len + 1 + 7) / 8)%nat in
    if (max_len <? min_len)%nat then Some None
    else if negb (alloc_ok (Z.of_nat len_indices)) then Some None
    else
      let? minimal := eh_compress_array (concat (map eh_index_to_array indices)) min_len (collision_bit_len + 1) byte_pad in
      Some (Some minimal).

(** ** Rows: hash bytes, then indices *)

(** [Some None]: no memory. *)
Definition eh_row_from_hash (hash_in : list Z) (h_len collision_bit_len : nat) (idx : Z) (width : nat) : option (option (list Z)) :=
  if negb (alloc_ok (Z.of_nat width)) then Some None
  else
    let? expanded := eh_expand_array hash_in h_len collision_bit_len 0 in
    let? row := store_at (replicate width 0) 0 expanded in
    let? row := store_at row h_len (eh_index_to_array idx) in
    Some (Some row).

Definition eh_row_has_collision (a b : list Z) (collision_byte_len : nat) : option bool :=
  let? x := read_at a 0 collision_byte_len in
  let? y := read_at b 0 collision_byte_len in
  Some (memcmp x y =? 0).

Definition eh_row_indices_before (a b : list Z) (hash_len len_indices : nat) : option bool :=
  let? x := read_at a hash_len len_indices in
  let? y := read_at b hash_len len_indices in
  Some (memcmp x y <? 0).

(** The four-byte blocks of a region. *)
Fixpoint blocks4 (n : nat) (l : list Z) : list (list Z) :=
  match n with
  | O => []
  | S n => match l with [] => [] | _ => take sizeof_eh_index l :: blocks4 n (drop sizeof_eh_index l) end
  end.
Definition eh_row_distinct_indices (a b : list Z) (hash_len len_indices : nat) : option bool :=
  let? x := read_at a hash_len len_indices in
  let? y := read_at b hash_len len_indices in
  Some (forallb (fun i => forallb (fun j => negb (memcmp i j =? 0)) (blocks4 len_indices y)) (blocks4 len_indices x)).

Definition eh_row_is_zero (row : list Z) (len : nat) : option bool :=
  let? x := read_at row 0 len in Some (forallb (fun b => b =? 0) x).

Definition eh_row_xor_merge (a b : list Z) (hash_len len_indices collision_byte_len width : nat) : option (option (list Z)) :=
  if negb (alloc_ok (Z.of_nat width)) then Some None
  else
    let trim := collision_byte_len in
    let? x := read_at a trim (hash_len - trim) in
    let? y := read_at b trim (hash_len - trim) in
    let? out := store_at (replicate width 0) 0 (zip_with Z.lxor x y) in
    let? before := eh_row_indices_before a b hash_len len_indices in
    let '(first, second) := if before then (a, b) else (b, a) in
    let? i := read_at first hash_len len_indices in
    let? j := read_at second hash_len len_indices in
    let? out := store_at out (hash_len - trim) i in
    let? out := store_at out (hash_len - trim + len_indices) j in
    Some (Some out).

(** ** Leaves *)

(** The rows of one batch of hashes; the flag is an allocation failure. *)
Fixpoint row_batch (p : equihash_params) (width : nat) (hashes : list (list Z)) (indices : list Z) : option (list (list Z) * bool) :=
  match hashes, indices with
  | h :: hashes, i :: indices =>
      let offset := Z.to_nat (i mod Z.of_nat (indices_per_hash_output p) * Z.of_nat (eh_N p) / 8) in
      let? slice := read_at h offset (eh_N p / 8) in
      let? row := eh_row_from_hash slice (hash_length p) (collision_bit_length p) i width in
      match row with
      | None => Some ([], true)
      | Some row => let? r := row_batch p width hashes indices in Some (row :: fst r, snd r)
      end
  | _, _ => Some ([], false)
  end.

(** [for (; i + n <= num_indices; i += n)]: rows, the indices left, the flag. *)
Fixpoint leaf_rows (fuel n : nat) (generate : list Z -> option (list (list Z))) (p : equihash_params) (width : nat) (indices : list Z) :
    option (list (list Z) * list Z * bool) :=
  match fuel with
  | O => Some ([], indices, false)
  | S fuel =>
      if (n <=? length indices)%nat then
        if (indices_per_hash_output p =? 0)%nat then None else
        let? hashes := generate (map (fun i => i / Z.of_nat (indices_per_hash_output p)) (take n indices)) in
        let? r := row_batch p width hashes (take n indices) in
        if snd r then Some (fst r, [], true)
        else
          let? l := leaf_rows fuel n generate p width (drop n indices) in
          let '(rows, rest, failed) := l in Some (fst r ++ rows, rest, failed)
      else Some ([], indices, false)
  end.

Definition eh_verify_leaf_rows_batch8 (p : equihash_params) (base : blake2b_ctx) (width : nat) (indices : list Z) :=
  leaf_rows (length indices) 8 (fun gi => equihash_generate_hash_batch base gi (hash_output p)) p width indices.
Definition eh_verify_leaf_rows_batch4 (p : equihash_params) (base : blake2b_ctx) (width : nat) (indices : list Z) :=
  leaf_rows (length indices) 4 (fun gi => equihash_generate_hash_batch base gi (hash_output p)) p width indices.
Definition generate_one (p : equihash_params) (base : blake2b_ctx) (gi : list Z) : option (list (list Z)) :=
  match gi with [] => Some [] | g :: _ => let? h := generate_hash base g (hash_output p) in Some [h] end.
Definition eh_verify_leaf_rows_scalar (p : equihash_params) (base : blake2b_ctx) (width : nat) (indices : list Z) :=
  leaf_rows (length indices) 1 (generate_one p base) p width indices.

(** ** Collision rounds *)

Inductive eh_verify_status :=
| EH_VERIFY_OK | EH_VERIFY_ROUND_ALLOC | EH_VERIFY_NO_COLLISION | EH_VERIFY_OUT_OF_ORDER | EH_VERIFY_NON_DISTINCT
| EH_VERIFY_MERGE_ALLOC.

Fixpoint collision_pairs (p : equihash_params) (hash_len len_indices width : nat) (X : list (list Z)) :
    option (eh_verify_status * list (list Z)) :=
  match X with
  | [] => Some (EH_VERIFY_OK, [])
  | [_] => None
  | a :: b :: X =>
      let? collide := eh_row_has_collision a b (collision_byte_length p) in
      if negb collide then Some (EH_VERIFY_NO_COLLISION, []) else
      let? before := eh_row_indices_before b a hash_len len_indices in
      if before : bool then Some (EH_VERIFY_OUT_OF_ORDER, []) else
      let? distinct := eh_row_distinct_indices a b hash_len len_indices in
      if negb distinct then Some (EH_VERIFY_NON_DISTINCT, []) else
      let? merged := eh_row_xor_merge a b hash_len len_indices (collision_byte_length p) width in
      match merged with
      | None => Some (EH_VERIFY_MERGE_ALLOC, [])
      | Some row =>
          let? r := collision_pairs p hash_len len_indices width X in
          match fst r with
          | EH_VERIFY_OK => Some (EH_VERIFY_OK, row :: snd r)
          | st => Some (st, [])
          end
      end
  end.

(** [while (count > 1)]: the final layer with the length of its hash. *)
Fixpoint eh_verify_collision_rounds (fuel : nat) (p : equihash_params) (hash_len len_indices width : nat) (X : list (list Z)) :
    option (eh_verify_status * list (list Z) * nat) :=
  match fuel with
  | O => None
  | S fuel =>
      if (1 <? length X)%nat then
        if negb (alloc_ok (Z.of_nat (length X / 2 * 8))) then Some (EH_VERIFY_ROUND_ALLOC, [], hash_len)
        else
          let? r := collision_pairs p hash_len len_indices width X in
          match r with
          | (EH_VERIFY_OK, Xc) =>
              eh_verify_collision_rounds fuel p (hash_len - collision_byte_length p) (len_indices * 2) width Xc
          | (st, _) => Some (st, [], hash_len)
          end
      else Some (EH_VERIFY_OK, X, hash_len)
  end.

Definition eh_verify_final_row (X : list (list Z)) (hash_len : nat) : option bool :=
  match X with
  | [] => None
  | row :: rest => let? z := eh_row_is_zero row hash_len in Some ((length X =? 1)%nat && z)
  end.

(** The answer, and whether it is [false] for lack of memory. *)
Definition equihash_is_valid_solution (p : equihash_params) (base_state : blake2b_ctx) (soln : list Z) : option (bool * bool) :=
  if negb (length soln =? solution_width p)%nat then Some (false, false)
  else
    let num_indices := (2 ^ eh_K p)%nat in
    if negb (alloc_ok (Z.of_nat (num_indices * sizeof_eh_index))) then Some (false, true) else
    let? got := eh_get_indices_from_minimal soln (collision_bit_length p) num_indices in
    let '(indices, failed) := got in
    if negb (length indices =? num_indices)%nat then Some (false, failed) else
    let width := final_full_width p in
    if negb (alloc_ok (Z.of_nat (num_indices * 8))) then Some (false, true) else
    if negb (alloc_ok (Z.of_nat (hash_output p * 8))) then Some (false, true) else
    let? r8 := eh_verify_leaf_rows_batch8 p base_state width indices in
    let '(X8, rest, failed) := r8 in
    if failed : bool then Some (false, true) else
    let? r4 := eh_verify_leaf_rows_batch4 p base_state width rest in
    let '(X4, rest, failed) := r4 in
    if failed : bool then Some (false, true) else
    let? r1 := eh_verify_leaf_rows_scalar p base_state width rest in
    let '(X1, _, failed) := r1 in
    if failed : bool then Some (false, true) else
    let X := X8 ++ X4 ++ X1 in
    let? r := eh_verify_collision_rounds (length X) p (hash_length p) sizeof_eh_index width X in
    match r with
    | (EH_VERIFY_OK, X, hash_len) => let? ok := eh_verify_final_row X hash_len in Some (ok, false)
    | (EH_VERIFY_ROUND_ALLOC, _, _) | (EH_VERIFY_MERGE_ALLOC, _, _) => Some (false, true)
    | (_, _, _) => Some (false, false)
    end.

(** ** The consensus predicate *)

(** The codes of [domain_consensus_equihash_err]. *)
Inductive equihash_err := EQUIHASH_ERR_NULL_HEADER | EQUIHASH_ERR_NULL_OUT | EQUIHASH_ERR_BAD_SOL_SIZE.

Definition le32_into (v : Z) : list Z :=
  [u8 (v .& 0xff); u8 ((v >> 8) .& 0xff); u8 ((v >> 16) .& 0xff); u8 ((v >> 24) .& 0xff)].

(** [out_valid] says whether the pointer is there; the second flag of the answer is
    an allocation failure of the primitive. *)
Definition domain_consensus_verify_equihash_solution (header : option block_header) (out_valid : bool) :
    option (zcl_result equihash_err (bool * bool)) :=
  match header with
  | None => Some (ZCL_ERR EQUIHASH_ERR_NULL_HEADER)
  | Some h =>
      if negb out_valid then Some (ZCL_ERR EQUIHASH_ERR_NULL_OUT)
      else
        match equihash_solution_params (Z.to_nat (nSolutionSize h)) with
        | None => Some (ZCL_ERR EQUIHASH_ERR_BAD_SOL_SIZE)
        | Some (n, k) =>
            let? ep := equihash_params_init n k in
            let? state := equihash_initialise_state ep in
            let state := blake2b_update state (le32_into (u32 (nVersion h))) in
            let state := blake2b_update state (hashPrevBlock h) in
            let state := blake2b_update state (hashMerkleRoot h) in
            let state := blake2b_update state (hashFinalSaplingRoot h) in
            let state := blake2b_update state (le32_into (nTime h)) in
            let state := blake2b_update state (le32_into (nBits h)) in
            let state := blake2b_update state (nNonce h) in
            let? soln := read_at (nSolution h) 0 (Z.to_nat (nSolutionSize h)) in
            let? r := equihash_is_valid_solution ep state soln in
            Some (ZCL_OK r)
        end
  end.

(** [core/chainparams/src/equihash.c]: a contract failure is logged and [false]. *)
Definition check_equihash_solution (header : option block_header) : option (bool * bool) :=
  let? r := domain_consensus_verify_equihash_solution header true in
  match r with ZCL_OK v => Some v | ZCL_ERR _ => Some (false, false) end.

(** ** The registry scheme *)

(** A null pointer is [None]. *)
Definition registry_equihash_200_9_verify (public_inputs proof : option (list Z)) : option (bool * bool) :=
  match public_inputs, proof with
  | Some pi, Some proof =>
      if (len pi =? 0) || (len proof =? 0) || (MAX_SOLUTION_SIZE <? len proof) then Some (false, false)
      else if len pi =? BLOCK_HEADER_SIZE then
        let h := mk_header (zcl_read_i32_le pi) (take 32 (drop 4 pi)) (take 32 (drop 36 pi)) (take 32 (drop 68 pi))
                   (zcl_read_u32_le (drop 100 pi)) (zcl_read_u32_le (drop 104 pi)) (take 32 (drop 108 pi))
                   (memcpy_at (nSolution block_header_init) 0 proof) (len proof) in
        let? r := domain_consensus_verify_equihash_solution (Some h) true in
        match r with ZCL_OK v => Some v | ZCL_ERR _ => Some (false, false) end
      else
        match equihash_solution_params (length proof) with
        | None => Some (false, false)
        | Some (n, k) =>
            let? ep := equihash_params_init n k in
            let? state := equihash_initialise_state ep in
            equihash_is_valid_solution ep (blake2b_update state pi) proof
        end
  | _, _ => Some (false, false)
  end.

End Code.
