(* ===== verification/EquihashSpec.v ===== *)
(** * What an accepted Equihash solution is

    The theorems on [Equihash]. The specification is that of the generalised birthday
    problem with algorithm binding: [2^K] distinct indices whose hashes XOR to zero,
    where every aligned block of [2^r] indices XORs to a value with [r * N/(K+1)]
    leading zero bits and lists its first half before its second. The code decides it
    round by round on byte rows. *)

From stdpp Require Import base tactics list numbers option.
From Stdlib Require Import ZArith Lia ZifyNat.
From S2P Require Import Prelude Serialize ByteOrder Hash Blake2b Transaction Block Equihash.
#[local] Open Scope Z_scope.
#[local] Open Scope list_scope.

(** ** Big-endian bytes and groups of bits *)

Abbreviation be_bytes := Reference.be_bytes.

(** The number whose big-endian bytes are [l]. *)
Definition be_val (l : list Z) : Z := digits_val 8 (rev l).

(** Group [i] of [w] bits, counted from the top, of a number of [total] bits. *)
Definition group (v : Z) (total w i : nat) : Z := (v / 2 ^ Z.of_nat (total - S i * w)) mod 2 ^ Z.of_nat w.

Lemma length_be_bytes n x : length (be_bytes n x) = n.
Proof. unfold be_bytes. by rewrite length_rev, length_digits_of. Qed.

Lemma be_digits_bytes n x : bytes (be_bytes n x).
Proof. apply digits_rev. by apply digits_of_digits. Qed.

Lemma be_val_app a b : be_val (a ++ b) = be_val a * 2 ^ (8 * Z.of_nat (length b)) + be_val b.
Proof. unfold be_val. rewrite rev_app_distr, digits_val_app by lia. rewrite length_rev. ring. Qed.

Lemma be_val_bound l : bytes l -> 0 <= be_val l < 2 ^ (8 * Z.of_nat (length l)).
Proof. intros Hl. unfold be_val. rewrite <- (length_rev l). apply digits_val_bound; [lia|]. by apply digits_rev. Qed.

Lemma be_val_bytes n x : 0 <= x < 2 ^ (8 * Z.of_nat n) -> be_val (be_bytes n x) = x.
Proof. intros Hx. unfold be_val, be_bytes. rewrite rev_involutive, digits_val_of by lia. by apply Z.mod_small. Qed.

Lemma be_bytes_inj n x y : 0 <= x < 2 ^ (8 * Z.of_nat n) -> 0 <= y < 2 ^ (8 * Z.of_nat n) -> be_bytes n x = be_bytes n y -> x = y.
Proof. intros Hx Hy E. rewrite <- (be_val_bytes n x Hx), <- (be_val_bytes n y Hy). by rewrite E. Qed.

(** The byte at position [x] from the left. *)
Lemma be_bytes_map n v : be_bytes n v = map (fun x => byte_at v (8 * (Z.of_nat n - Z.of_nat x - 1))) (seq 0 n).
Proof.
  unfold be_bytes. rewrite digits_of_byte_at. apply list_eq. intros i. destruct (decide (i < n)%nat) as [Hi|Hi].
  - rewrite rev_alt. fold (reverse (map (fun i => byte_at v (8 * Z.of_nat i)) (seq 0 n))).
    rewrite reverse_lookup by (rewrite length_map, length_seq; lia).
    rewrite length_map, length_seq. rewrite !list_lookup_fmap, !lookup_seq_lt by lia. cbn. do 2 f_equal. lia.
  - rewrite !lookup_ge_None_2; [done|rewrite length_map, length_seq; lia|rewrite length_rev, length_map, length_seq; lia].
Qed.

Lemma div_mod_lxor x y a w : 0 <= a -> 0 <= w -> ((x .^ y) / 2 ^ a) mod 2 ^ w = ((x / 2 ^ a) mod 2 ^ w) .^ ((y / 2 ^ a) mod 2 ^ w).
Proof.
  intros Ha Hw. rewrite <- !Z.shiftr_div_pow2, <- !Z.land_ones by lia. apply Z.bits_inj'. intros k Hk.
  repeat (rewrite Z.land_spec || rewrite Z.lxor_spec || rewrite Z.shiftr_spec by lia).
  by destruct (Z.testbit x _), (Z.testbit y _), (Z.testbit (Z.ones w) k).
Qed.

Lemma be_bytes_lxor n x y : be_bytes n (x .^ y) = zip_with Z.lxor (be_bytes n x) (be_bytes n y).
Proof.
  unfold be_bytes. revert x y. induction n as [|n IH]; intros x y; [done|]. cbn [digits_of rev].
  pose proof (div_mod_lxor x y 0 8 ltac:(lia) ltac:(lia)) as E. rewrite !Z.pow_0_r, !Z.div_1_r in E. rewrite E.
  assert ((x .^ y) / 2 ^ 8 = (x / 2 ^ 8) .^ (y / 2 ^ 8)) as -> by (rewrite <- !Z.shiftr_div_pow2 by lia; apply Z.shiftr_lxor).
  rewrite zip_with_app by (by rewrite !length_rev, !length_digits_of). rewrite IH. done.
Qed.

Lemma group_bound v total w i : 0 <= group v total w i < 2 ^ Z.of_nat w.
Proof. apply Z.mod_pos_bound, pow2_pos. lia. Qed.

Lemma group_lxor x y total w i : group (x .^ y) total w i = group x total w i .^ group y total w i.
Proof. apply div_mod_lxor; lia. Qed.

(** ** Unpacking *)

(** One group, cut into bytes by shifts and masks. *)
Lemma expand_group_spec acc ab bl pad w :
  (8 <= bl)%nat -> w = ((bl + 7) / 8 + pad)%nat -> (bl <= 25)%nat -> (pad <= w)%nat -> 0 <= acc ->
  expand_group acc ab bl pad w = be_bytes w ((acc / 2 ^ Z.of_nat ab) mod 2 ^ Z.of_nat bl).
Proof.
  intros Hbl Hw Hbl2 Hp Hacc. rewrite be_bytes_map. unfold expand_group.
  replace (seq 0 w) with (seq 0 pad ++ seq pad (w - pad)) by (rewrite <- seq_app; f_equal; lia).
  rewrite map_app. set (v := (acc / _) mod _). assert (0 <= v < 2 ^ Z.of_nat bl) as Hv by (apply Z.mod_pos_bound, pow2_pos; lia).
  f_equal.
  - apply list_eq. intros i. destruct (decide (i < pad)%nat) as [Hi|Hi].
    + rewrite lookup_replicate_2 by done. rewrite list_lookup_fmap, lookup_seq_lt by done. cbn. f_equal. unfold byte_at.
      rewrite Z.div_small; [done|]. split; [lia|]. eapply Z.lt_le_trans; [apply Hv|]. apply Z.pow_le_mono_r; [lia|]. zify. zdm.
    + rewrite !lookup_ge_None_2; [done|rewrite length_map, length_seq; lia|rewrite length_replicate; lia].
  - apply map_ext_in. intros x Hx. apply in_seq in Hx. set (k := 8 * _). assert (0 <= k) by (unfold k; lia).
    unfold v, byte_at. rewrite (wrap_id 32 (1 << _)).
    2: { rewrite Z.shiftl_1_l. unfold in_u. split; [apply Z.pow_nonneg; lia|]. apply Z.pow_lt_mono_r; lia. }
    rewrite Z.shiftl_1_l. change (2 ^ Z.of_nat bl - 1) with (Z.pred (2 ^ Z.of_nat bl)). rewrite <- Z.ones_equiv. change 0xFF with (Z.ones 8). change 256 with (2 ^ 8).
    rewrite <- !Z.shiftr_div_pow2, <- !Z.land_ones by lia. unfold wrap. rewrite <- Z.land_ones by lia.
    apply Z.bits_inj'. intros j Hj. repeat (rewrite Z.land_spec || rewrite Z.shiftr_spec by lia).
    replace (j + (Z.of_nat ab + k)) with (j + k + Z.of_nat ab) by lia.
    by destruct (Z.testbit acc _), (Z.testbit (Z.ones 8) j), (Z.testbit (Z.ones (Z.of_nat bl)) _).
Qed.

Lemma shift_in_byte acc b : in_u 8 b -> u32 (acc << 8) .| b = u32 (acc * 256 + b).
Proof.
  intros Hb. unfold in_u in Hb. rewrite Z.shiftl_mul_pow2 by lia. change (2 ^ 8) with 256.
  assert (u32 (acc * 256 + b) = u32 (acc * 256) + b) as -> by (unfold wrap; change (2 ^ 32) with (256 * 2 ^ 24); zdm).
  rewrite Z.add_comm, Z.lor_comm.
  assert (u32 (acc * 256) = (acc mod 2 ^ 24) * 2 ^ 8) as -> by (unfold wrap; change (2 ^ 32) with (256 * 2 ^ 24); change (2 ^ 8) with 256; zdm).
  by apply lor_add_disjoint.
Qed.

(** The groups of a byte string, each as [w] big-endian bytes. *)
Definition packed (bl w : nat) (l : list Z) : list Z :=
  concat (map (fun i => be_bytes w (group (be_val l) (8 * length l) bl i)) (seq 0 (8 * length l / bl))).

Lemma expand_loop_spec bl pad w pre l e ab :
  (8 <= bl <= 25)%nat -> w = ((bl + 7) / 8 + pad)%nat -> bytes pre -> bytes l ->
  (8 * length pre = e * bl + ab)%nat -> (ab < bl)%nat ->
  expand_loop bl pad w ab (u32 (be_val pre)) l =
  concat (map (fun i => be_bytes w (group (be_val (pre ++ l)) (8 * length (pre ++ l)) bl i)) (seq e (8 * length (pre ++ l) / bl - e))).
Proof.
  intros Hbl Hw Hpre Hl. revert pre e ab Hpre. induction Hl as [|b l Hb Hl IH]; intros pre e ab Hpre He Hab; cbn [expand_loop].
  - rewrite app_nil_r. replace (8 * length pre / bl - e)%nat with 0%nat; [done|].
    assert (8 * length pre / bl = e)%nat as ->; [|lia]. rewrite He. rewrite Nat.div_add_l by lia. rewrite Nat.div_small by done. lia.
  - rewrite shift_in_byte by done.
    assert (u32 (u32 (be_val pre) * 256 + b) = u32 (be_val (pre ++ [b]))) as ->.
    { rewrite be_val_app. change (be_val [b]) with (b + 2 ^ 8 * 0). cbn [length]. change (2 ^ (8 * Z.of_nat 1)) with 256.
      rewrite Z.mul_0_r, Z.add_0_r. unfold wrap. by rewrite <- Zplus_mod_idemp_l, Zmult_mod_idemp_l, Zplus_mod_idemp_l. }
    assert (bytes (pre ++ [b])) as Hpre' by (apply Forall_app; split; [exact Hpre|constructor; [exact Hb|constructor]]).
    assert (length (pre ++ [b]) = S (length pre)) as Lp by (rewrite length_app; cbn; lia).
    assert (pre ++ b :: l = (pre ++ [b]) ++ l) as -> by (by rewrite <- app_assoc).
    destruct (Nat.leb_spec bl (ab + 8)) as [Hle|Hle]; [|apply IH; lia || done].
    rewrite (IH (pre ++ [b]) (S e) (ab + 8 - bl)%nat) by (done || lia).
    set (T := (8 * length ((pre ++ [b]) ++ l))%nat).
    assert (T = 8 * length (pre ++ [b]) + 8 * length l)%nat as ET by (unfold T; rewrite length_app; lia).
    assert (S e <= T / bl)%nat as Hlt by (apply Nat.div_le_lower_bound; lia).
    replace (T / bl - e)%nat with (S (T / bl - S e)) by lia. cbn [seq map concat]. f_equal.
    pose proof (be_val_bound _ Hpre') as Bp. pose proof (be_val_bound _ Hl) as Bl.
    rewrite expand_group_spec by (done || lia || apply wrap_range; lia). f_equal. unfold group.
    replace (T - S e * bl)%nat with (8 * length l + (ab + 8 - bl))%nat by lia.
    rewrite (be_val_app (pre ++ [b]) l). rewrite Nat2Z.inj_add, Nat2Z.inj_mul, Z.pow_add_r, <- Z.div_div by (lia || apply Z.pow_nonzero; lia || apply pow2_pos; lia).
    change (Z.of_nat 8) with 8. rewrite Z.div_add_l by (apply Z.pow_nonzero; lia). rewrite (Z.div_small (be_val l)), Z.add_0_r by done.
    set (a := Z.of_nat (ab + 8 - bl)). set (n := Z.of_nat bl). assert (0 <= a /\ 0 <= n /\ a + n <= 32) as (Ha & Hn & Han) by lia.
    unfold wrap. rewrite <- !Z.land_ones, <- !Z.shiftr_div_pow2 by lia. apply Z.bits_inj'. intros j Hj.
    repeat (rewrite Z.land_spec || rewrite Z.shiftr_spec by lia). destruct (decide (j < n)) as [Hjn|Hjn].
    + rewrite (Z.ones_spec_low 32) by lia. by rewrite andb_true_r.
    + rewrite (Z.ones_spec_high n) by lia. by rewrite !andb_false_r.
Qed.

Lemma expand_array_spec l bl pad : (8 <= bl <= 25)%nat -> bytes l ->
  let w := ((bl + 7) / 8 + pad)%nat in
  eh_expand_array l (8 * w * length l / bl) bl pad = Some (packed bl w l).
Proof.
  intros Hbl Hl w. unfold eh_expand_array. rewrite (proj2 (Nat.leb_le 8 bl)), (proj2 (Nat.leb_le (7 + bl) (8 * 4))) by lia. cbn [negb].
  fold w. rewrite Nat.eqb_refl. cbn [negb]. f_equal. rewrite <- (wrap_id 32 0) by done.
  change 0 with (be_val []) at 1. rewrite (expand_loop_spec bl pad w [] l 0 0) by (done || lia || constructor).
  unfold packed. by rewrite Nat.sub_0_r.
Qed.

Lemma packed_length bl w l : length (packed bl w l) = (8 * length l / bl * w)%nat.
Proof.
  unfold packed. generalize (8 * length l / bl)%nat as n. intros n. rewrite length_concat, map_map. cbn.
  rewrite (map_ext _ (fun _ => w)) by (intros; apply length_be_bytes).
  generalize 0%nat as k. induction n as [|n IH]; intros k; [done|]. cbn [seq map list_sum fold_right]. unfold list_sum in *. cbn. by rewrite IH.
Qed.

(** ** Comparing byte strings compares numbers *)

Lemma memcmp_app p q a b : length p = length q ->
  memcmp (p ++ a) (q ++ b) = if memcmp p q =? 0 then memcmp a b else memcmp p q.
Proof.
  revert q. induction p as [|x p IH]; intros [|y q] Hl; cbn [app memcmp] in *; try done.
  destruct (x <? y); [done|]. destruct (y <? x); [done|]. by apply IH; injection Hl.
Qed.

Lemma be_val_cons x l : be_val (x :: l) = x * 2 ^ (8 * Z.of_nat (length l)) + be_val l.
Proof. change (x :: l) with ([x] ++ l). rewrite be_val_app. f_equal. f_equal. unfold be_val. cbn. lia. Qed.

Lemma memcmp_be_val p q : bytes p -> bytes q -> length p = length q ->
  memcmp p q = if be_val p <? be_val q then -1 else if be_val q <? be_val p then 1 else 0.
Proof.
  intros Hp. revert q. induction Hp as [|x p Hx Hp IH]; intros q Hq Hl; destruct Hq as [|y q Hy Hq]; try done.
  cbn [memcmp length] in *. injection Hl as Hl. rewrite !be_val_cons, Hl.
  pose proof (be_val_bound p Hp) as Bp. pose proof (be_val_bound q Hq) as Bq. rewrite Hl in Bp. set (P := 2 ^ _) in *.
  destruct (Z.ltb_spec x y); [rewrite (proj2 (Z.ltb_lt _ _)) by nia; done|].
  destruct (Z.ltb_spec y x).
  { rewrite (proj2 (Z.ltb_ge _ _)) by nia. rewrite (proj2 (Z.ltb_lt _ _)) by nia. done. }
  assert (x = y) as -> by lia. rewrite (IH q Hq Hl). bool_cases; lia || done.
Qed.

(** Indices as they lie in a row. *)
Definition index_part (l : list Z) : list Z := concat (map (be_bytes 4) l).

Lemma index_part_length l : length (index_part l) = (4 * length l)%nat.
Proof. induction l as [|x l IH]; [done|]. cbn [index_part map concat length]. rewrite length_app, length_be_bytes. unfold index_part in IH. lia. Qed.

Lemma index_part_app a b : index_part (a ++ b) = index_part a ++ index_part b.
Proof. unfold index_part. by rewrite map_app, concat_app. Qed.

Lemma memcmp_index_part a b : Forall (in_u 32) a -> Forall (in_u 32) b -> length a = length b ->
  memcmp (index_part a) (index_part b) = memcmp a b.
Proof.
  intros Ha. revert b. induction Ha as [|x a Hx Ha IH]; intros b Hb Hl; destruct Hb as [|y b Hy Hb]; try done.
  cbn [index_part map concat memcmp]. injection Hl as Hl. rewrite memcmp_app by (by rewrite !length_be_bytes).
  rewrite memcmp_be_val by (apply be_digits_bytes || by rewrite !length_be_bytes). rewrite !be_val_bytes by done.
  destruct (x <? y); [done|]. destruct (y <? x); [done|]. by apply IH.
Qed.

Lemma memcmp_opposite a b : memcmp b a = - memcmp a b.
Proof.
  revert b. induction a as [|x a IH]; intros [|y b]; try done. cbn [memcmp]. rewrite IH. bool_cases; lia.
Qed.

Lemma read_at_mid a b c off n : off = length a -> n = length b -> read_at (a ++ b ++ c) off n = Some b.
Proof.
  intros -> ->. unfold read_at. rewrite !length_app. rewrite (proj2 (Nat.leb_le _ _)) by lia. by rewrite drop_app_length, take_app_length.
Qed.

Lemma read_at_start b c n : n = length b -> read_at (b ++ c) 0 n = Some b.
Proof. intros ->. by apply (read_at_mid [] b c). Qed.

(** A store that ends where the zeros of a fresh buffer begin again. *)
Lemma store_zeros a n src : (length src <= n)%nat ->
  store_at (a ++ replicate n 0) (length a) src = Some (a ++ src ++ replicate (n - length src) 0).
Proof.
  intros Hn. unfold store_at. rewrite length_app, length_replicate, (proj2 (Nat.leb_le _ _)) by lia.
  unfold memcpy_at. rewrite take_app_length, drop_app_ge by lia.
  replace (length a + length src - length a)%nat with (length src) by lia. by rewrite drop_replicate.
Qed.

Lemma store_fresh n src : (length src <= n)%nat -> store_at (replicate n 0) 0 src = Some (src ++ replicate (n - length src) 0).
Proof. exact (store_zeros [] n src). Qed.

Lemma blocks4_index n l : (length l <= n)%nat -> blocks4 n (index_part l) = map (be_bytes 4) l.
Proof.
  revert n. induction l as [|x l IH]; intros n Hn; cbn [length] in *; [by destruct n|].
  destruct n as [|n]; [lia|]. cbn [blocks4 index_part map concat].
  destruct (be_bytes 4 x ++ _) eqn:E; [by apply (f_equal length) in E|]. rewrite <- E.
  rewrite take_app_length' by (by rewrite length_be_bytes). rewrite drop_app_length' by (by rewrite length_be_bytes).
  f_equal. apply IH. lia.
Qed.

(** ** Rows *)

Section Rows.
#[local] Existing Instance little_endian_host.
Context `{Allocator} (M : memory_ok).
Variables (K cbl width : nat) (leaf : Z -> Z).
Let N : nat := ((K + 1) * cbl)%nat.
Let cbyte : nat := ((cbl + 7) / 8)%nat.
Hypothesis Hcbl : (8 <= cbl <= 24)%nat.
Hypothesis Hleaf : forall i, 0 <= leaf i < 2 ^ Z.of_nat N.
Hypothesis Hwidth : forall r, (r <= K)%nat -> ((K + 1 - r) * cbyte + 4 * 2 ^ r <= width)%nat.

Definition xor_all (l : list Z) : Z := foldr (fun i v => leaf i .^ v) 0 l.

(** The groups from [r] on. *)
Definition hash_part (r : nat) (v : Z) : list Z := concat (map (fun j => be_bytes cbyte (group v N cbl j)) (seq r (K + 1 - r))).

Record row_repr (r : nat) (l row : list Z) : Prop := {
  rr_row : row = hash_part r (xor_all l) ++ index_part l ++ replicate (width - (K + 1 - r) * cbyte - 4 * 2 ^ r) 0;
  rr_length : length l = (2 ^ r)%nat;
  rr_index : Forall (in_u 32) l;
  rr_zeros : xor_all l < 2 ^ Z.of_nat (N - r * cbl) }.

Lemma hash_part_length r v : length (hash_part r v) = ((K + 1 - r) * cbyte)%nat.
Proof.
  unfold hash_part. generalize (K + 1 - r)%nat. intros n. revert r. induction n as [|n IH]; intros r; [done|].
  cbn [seq map concat]. rewrite length_app, IH, length_be_bytes. lia.
Qed.

Lemma hash_part_cons r v : (r <= K)%nat -> hash_part r v = be_bytes cbyte (group v N cbl r) ++ hash_part (S r) v.
Proof. intros Hr. unfold hash_part. replace (K + 1 - r)%nat with (S (K + 1 - S r)) by lia. done. Qed.

Lemma hash_part_lxor r x y : hash_part r (x .^ y) = zip_with Z.lxor (hash_part r x) (hash_part r y).
Proof.
  unfold hash_part. generalize (K + 1 - r)%nat. intros n. revert r. induction n as [|n IH]; intros r; [done|].
  cbn [seq map concat]. rewrite zip_with_app by (by rewrite !length_be_bytes). by rewrite group_lxor, be_bytes_lxor, IH.
Qed.

Lemma xor_all_app a b : xor_all (a ++ b) = xor_all a .^ xor_all b.
Proof. induction a as [|x a IH]; cbn [app xor_all foldr]; [done|]. fold (xor_all (a ++ b)). rewrite IH. by rewrite Z.lxor_assoc. Qed.

Lemma xor_all_nonneg l : 0 <= xor_all l.
Proof. induction l as [|x l IH]; [done|]. cbn [xor_all foldr]. apply Z.lxor_nonneg. pose proof (Hleaf x). fold (xor_all l). lia. Qed.

(** Values below the bound of round [r] agree on group [r] when their XOR is below
    the next bound. *)
Lemma collide_iff r x y : (r <= K)%nat -> 0 <= x < 2 ^ Z.of_nat (N - r * cbl) -> 0 <= y < 2 ^ Z.of_nat (N - r * cbl) ->
  group x N cbl r = group y N cbl r <-> x .^ y < 2 ^ Z.of_nat (N - S r * cbl).
Proof.
  intros Hr Hx Hy. unfold group. set (s := Z.of_nat (N - S r * cbl)).
  assert (Z.of_nat (N - r * cbl) = s + Z.of_nat cbl) as E by (unfold s, N; nia).
  assert (forall z, 0 <= z < 2 ^ Z.of_nat (N - r * cbl) -> (z / 2 ^ s) mod 2 ^ Z.of_nat cbl = z >> s) as Hs.
  { intros z Hz. rewrite Z.shiftr_div_pow2 by lia. apply Z.mod_small. split; [apply Z.div_pos; [lia|apply pow2_pos; lia]|].
    apply Z.div_lt_upper_bound; [apply pow2_pos; lia|]. rewrite <- Z.pow_add_r by lia. rewrite <- E. apply Hz. }
  rewrite (Hs x Hx), (Hs y Hy). rewrite <- Z.lxor_eq_0_iff, <- Z.shiftr_lxor.
  assert (0 <= x .^ y) by (apply Z.lxor_nonneg; lia).
  rewrite Z.shiftr_div_pow2 by lia. pose proof (pow2_pos s ltac:(lia)). split; intros Hz.
  - apply Z.div_small_iff in Hz; lia.
  - apply Z.div_small. lia.
Qed.

Lemma hash_and_index r l row : row_repr r l row -> (r <= K)%nat ->
  read_at row ((K + 1 - r) * cbyte) (4 * 2 ^ r) = Some (index_part l).
Proof.
  intros [-> Hl _ _] Hr. apply read_at_mid; [by rewrite hash_part_length|]. by rewrite index_part_length, Hl.
Qed.

Lemma has_collision_spec r a b ra rb : (r <= K)%nat -> row_repr r a ra -> row_repr r b rb ->
  eh_row_has_collision ra rb cbyte = Some (bool_decide (xor_all (a ++ b) < 2 ^ Z.of_nat (N - S r * cbl))).
Proof.
  intros Hr [-> _ _ Za] [-> _ _ Zb]. unfold eh_row_has_collision.
  rewrite (hash_part_cons r (xor_all a)), (hash_part_cons r (xor_all b)), <- !app_assoc by done.
  rewrite !read_at_start by (by rewrite length_be_bytes). f_equal.
  apply eq_bool_prop_intro. rewrite bool_decide_spec, xor_all_app.
  rewrite <- collide_iff by (done || (split; [apply xor_all_nonneg|done])). rewrite Is_true_true, Z.eqb_eq. split.
  - intros E. apply memcmp_eq in E; [|by rewrite !length_be_bytes].
    assert (2 ^ Z.of_nat cbl <= 2 ^ (8 * Z.of_nat cbyte)) by (apply Z.pow_le_mono_r; [lia|]; unfold cbyte; zify; zdm).
    pose proof (group_bound (xor_all a) N cbl r). pose proof (group_bound (xor_all b) N cbl r).
    apply be_bytes_inj in E; [done|lia..].
  - intros ->. apply memcmp_refl.
Qed.

Lemma indices_before_spec r a b ra rb : (r <= K)%nat -> row_repr r a ra -> row_repr r b rb ->
  eh_row_indices_before ra rb ((K + 1 - r) * cbyte) (4 * 2 ^ r) = Some (memcmp a b <? 0).
Proof.
  intros Hr Ra Rb. unfold eh_row_indices_before. rewrite (hash_and_index r a ra Ra Hr), (hash_and_index r b rb Rb Hr).
  rewrite memcmp_index_part; [done|apply Ra|apply Rb|]. by rewrite (rr_length _ _ _ Ra), (rr_length _ _ _ Rb).
Qed.

Lemma distinct_spec r a b ra rb : (r <= K)%nat -> row_repr r a ra -> row_repr r b rb ->
  eh_row_distinct_indices ra rb ((K + 1 - r) * cbyte) (4 * 2 ^ r) = Some (forallb (fun x => forallb (fun y => negb (x =? y)) b) a).
Proof.
  intros Hr Ra Rb. unfold eh_row_distinct_indices. rewrite (hash_and_index r a ra Ra Hr), (hash_and_index r b rb Rb Hr).
  rewrite !blocks4_index by (rewrite ?(rr_length _ _ _ Ra), ?(rr_length _ _ _ Rb); lia).
  f_equal. pose proof (rr_index _ _ _ Ra) as Ia. pose proof (rr_index _ _ _ Rb) as Ib. revert Ia Ib. clear.
  intros Ia Ib. induction Ia as [|x a Hx _ IH]; [done|]. cbn [map forallb]. f_equal; [|exact IH]. clear IH.
  induction Ib as [|y b Hy _ IH]; [done|]. cbn [map forallb]. rewrite IH. f_equal. f_equal.
  rewrite memcmp_be_val by (apply be_digits_bytes || by rewrite !length_be_bytes). rewrite !be_val_bytes by done. bool_cases; lia || done.
Qed.

Lemma xor_merge_spec r a b ra rb : (S r <= K)%nat -> row_repr r a ra -> row_repr r b rb ->
  xor_all (a ++ b) < 2 ^ Z.of_nat (N - S r * cbl) -> memcmp a b < 0 ->
  exists row, eh_row_xor_merge ra rb ((K + 1 - r) * cbyte) (4 * 2 ^ r) cbyte width = Some (Some row) /\ row_repr (S r) (a ++ b) row.
Proof.
  intros Hr Ra Rb Hx Hab. unfold eh_row_xor_merge. rewrite (M _). cbn [negb]. rewrite (indices_before_spec r a b ra rb) by (done || lia).
  rewrite (proj2 (Z.ltb_lt _ _) Hab). rewrite (hash_and_index r a ra Ra), (hash_and_index r b rb Rb) by lia.
  assert (forall l row, row_repr r l row -> read_at row cbyte ((K + 1 - r) * cbyte - cbyte) = Some (hash_part (S r) (xor_all l))) as Hread.
  { intros l row [-> _ _ _]. rewrite hash_part_cons, <- app_assoc by lia.
    apply read_at_mid; [by rewrite length_be_bytes|]. rewrite hash_part_length. nia. }
  rewrite (Hread a ra Ra), (Hread b rb Rb), <- hash_part_lxor, <- xor_all_app.
  pose proof (rr_length _ _ _ Ra) as La. pose proof (rr_length _ _ _ Rb) as Lb. pose proof (Hwidth (S r) Hr) as Hw.
  pose proof (hash_part_length (S r) (xor_all (a ++ b))) as Lh. pose proof (index_part_length a) as Ia. pose proof (index_part_length b) as Ib.
  rewrite Nat.pow_succ_r' in Hw. set (h := hash_part _ _) in *.
  rewrite store_fresh by lia.
  replace ((K + 1 - r) * cbyte - cbyte)%nat with (length h) by nia.
  rewrite store_zeros by lia.
  replace (length h + 4 * 2 ^ r)%nat with (length (h ++ index_part a)) by (rewrite length_app; lia). rewrite app_assoc.
  rewrite store_zeros by lia. eexists. split; [reflexivity|]. split.
  - rewrite index_part_app, <- !app_assoc. do 4 f_equal. rewrite Nat.pow_succ_r'. lia.
  - rewrite length_app, Nat.pow_succ_r'. lia.
  - apply Forall_app. split; [apply Ra|apply Rb].
  - exact Hx.
Qed.

(** *** One round *)

Definition disjoint_lists (a b : list Z) : Prop := forall x, In x a -> In x b -> False.

(** Two neighbouring blocks of round [r] may be merged. *)
Definition pair_ok (r : nat) (a b : list Z) : Prop :=
  xor_all (a ++ b) < 2 ^ Z.of_nat (N - S r * cbl) /\ memcmp a b < 0 /\ disjoint_lists a b.

Fixpoint pairs_ok (r : nat) (Bs : list (list Z)) : Prop :=
  match Bs with a :: b :: Bs => pair_ok r a b /\ pairs_ok r Bs | _ => True end.
Fixpoint pair_up (Bs : list (list Z)) : list (list Z) :=
  match Bs with a :: b :: Bs => (a ++ b) :: pair_up Bs | _ => [] end.

Lemma distinct_iff a b : forallb (fun x => forallb (fun y => negb (x =? y)) b) a = true <-> disjoint_lists a b.
Proof.
  rewrite forallb_forall. split.
  - intros Hd x Ha Hb. specialize (Hd x Ha). rewrite forallb_forall in Hd. specialize (Hd x Hb). rewrite Z.eqb_refl in Hd. done.
  - intros Hd x Ha. apply forallb_forall. intros y Hb. apply negb_true_iff, Z.eqb_neq. intros ->. by apply (Hd y).
Qed.

(** Blocks without common element cannot compare equal. *)
Lemma order_iff a b : length a = length b -> a <> [] -> disjoint_lists a b -> memcmp a b < 0 <-> (memcmp b a <? 0) = false.
Proof.
  intros Hl Hne Hd. rewrite Z.ltb_ge, (memcmp_opposite a b).
  assert (memcmp a b <> 0); [|lia]. intros E. apply memcmp_eq in E; [|done]. subst b. destruct a as [|x a]; [done|].
  apply (Hd x); by left.
Qed.

(** A verdict of a round that is not a lack of memory. *)
Definition refused (st : eh_verify_status) : Prop :=
  match st with EH_VERIFY_NO_COLLISION | EH_VERIFY_OUT_OF_ORDER | EH_VERIFY_NON_DISTINCT => True | _ => False end.

Variable p : equihash_params.
Hypothesis Hp : collision_byte_length p = cbyte.

Lemma collision_pairs_spec n r Bs X : (S r <= K)%nat -> length Bs = (2 * n)%nat -> Forall2 (row_repr r) Bs X ->
  (exists Xc, collision_pairs p ((K + 1 - r) * cbyte) (4 * 2 ^ r) width X = Some (EH_VERIFY_OK, Xc) /\
     Forall2 (row_repr (S r)) (pair_up Bs) Xc /\ pairs_ok r Bs) \/
  (exists st, collision_pairs p ((K + 1 - r) * cbyte) (4 * 2 ^ r) width X = Some (st, []) /\ refused st /\ ~ pairs_ok r Bs).
Proof.
  intros Hr. revert Bs X. induction n as [|n IH]; intros Bs X Hl HF.
  { destruct Bs; [|done]. inversion_clear HF. left. by exists []. }
  destruct Bs as [|a [|b Bs]]; [done|cbn in Hl; lia|]. apply Forall2_cons_inv_l in HF as (ra & X1 & Ra & HF & ->).
  apply Forall2_cons_inv_l in HF as (rb & X2 & Rb & HF & ->). cbn [length] in Hl. cbn [collision_pairs pairs_ok pair_up].
  rewrite Hp, (has_collision_spec r a b ra rb) by (done || lia). case_bool_decide as Hc; cbn [negb].
  2: { right. exists EH_VERIFY_NO_COLLISION. split_and!; [done..|]. intros [[? _] _]. done. }
  rewrite (indices_before_spec r b a rb ra) by (done || lia).
  rewrite (distinct_spec r a b ra rb) by (done || lia).
  pose proof (rr_length _ _ _ Ra) as La. pose proof (rr_length _ _ _ Rb) as Lb.
  assert (a <> []) as Hne by (intros ->; cbn in La; pose proof (Nat.pow_nonzero 2 r); lia).
  destruct (memcmp b a <? 0) eqn:Eo.
  { right. exists EH_VERIFY_OUT_OF_ORDER. split_and!; [done..|]. intros [(_ & Ho & Hd) _]. apply order_iff in Ho; [congruence|lia|done..]. }
  destruct (forallb _ a) eqn:Ed; cbn [negb].
  2: { right. exists EH_VERIFY_NON_DISTINCT. split_and!; [done..|]. intros [(_ & _ & Hd) _]. apply distinct_iff in Hd. congruence. }
  apply distinct_iff in Ed. apply (order_iff a b) in Eo; [|lia|done..].
  destruct (xor_merge_spec r a b ra rb) as (row & -> & Rm); [done..|].
  destruct (IH Bs X2) as [(Xc & -> & HX & Hok)|(st & -> & Hst & Hno)]; [lia|done|..].
  - left. exists (row :: Xc). split; [done|]. split; [by constructor|]. done.
  - right. exists st. cbn [fst]. split; [by destruct st|]. split; [done|]. tauto.
Qed.

(** *** All rounds *)

Fixpoint rounds_ok (m r : nat) (Bs : list (list Z)) : Prop :=
  match m with O => True | S m => pairs_ok r Bs /\ rounds_ok m (S r) (pair_up Bs) end.

Lemma pair_up_spec n Bs : length Bs = (2 * n)%nat -> length (pair_up Bs) = n /\ concat (pair_up Bs) = concat Bs.
Proof.
  revert Bs. induction n as [|n IH]; intros Bs Hl; [by destruct Bs|].
  destruct Bs as [|a [|b Bs]]; cbn [length pair_up concat] in *; [done|lia|].
  destruct (IH Bs) as [-> ->]; [lia|]. split; [done|]. by rewrite <- app_assoc.
Qed.

Lemma rounds_verdict m fuel r Bs X : (r + m = K)%nat -> (m < fuel)%nat -> length Bs = (2 ^ m)%nat -> Forall2 (row_repr r) Bs X ->
  (exists row, eh_verify_collision_rounds fuel p ((K + 1 - r) * cbyte) (4 * 2 ^ r) width X = Some (EH_VERIFY_OK, [row], cbyte) /\
     row_repr K (concat Bs) row /\ rounds_ok m r Bs) \/
  (exists st hl, eh_verify_collision_rounds fuel p ((K + 1 - r) * cbyte) (4 * 2 ^ r) width X = Some (st, [], hl) /\
     refused st /\ ~ rounds_ok m r Bs).
Proof.
  revert fuel r Bs X. induction m as [|m IH]; intros fuel r Bs X Hr Hf Hl HF; destruct fuel as [|fuel]; try lia; cbn [eh_verify_collision_rounds rounds_ok].
  - assert (r = K) as -> by lia. destruct Bs as [|l [|? ?]]; try done. apply Forall2_cons_inv_l in HF as (row & X' & R & HF & ->).
    inversion_clear HF. left. exists row. cbn [length concat]. rewrite app_nil_r.
    replace ((K + 1 - K) * cbyte)%nat with cbyte by nia. done.
  - pose proof (Nat.pow_nonzero 2 m ltac:(done)) as Hz. rewrite Nat.pow_succ_r' in Hl.
    rewrite <- (Forall2_length HF), Hl. rewrite (proj2 (Nat.ltb_lt 1 _)) by lia. rewrite (M _). cbn [negb].
    destruct (pair_up_spec (2 ^ m) Bs Hl) as [Lp Cp].
    destruct (collision_pairs_spec (2 ^ m) r Bs X ltac:(lia) Hl HF) as [(Xc & -> & HX & Hok)|(st & -> & Hst & Hno)].
    + rewrite Hp. replace ((K + 1 - r) * cbyte - cbyte)%nat with ((K + 1 - S r) * cbyte)%nat by nia.
      replace (4 * 2 ^ r * 2)%nat with (4 * 2 ^ S r)%nat by (rewrite Nat.pow_succ_r'; lia).
      destruct (IH fuel (S r) (pair_up Bs) Xc) as [(row & -> & R & Ho)|(st & hl & -> & Hst & Hno)]; [lia|lia|done|done|..].
      * left. exists row. rewrite Cp in R. done.
      * right. exists st, hl. tauto.
    + right. destruct st; try done; do 2 eexists; (split; [reflexivity|]); tauto.
Qed.

End Rows.

(** ** The parameter sets *)

(** What the derived dimensions satisfy in every set the consensus accepts. *)
Record good_params (p : equihash_params) (K cbl : nat) : Prop := {
  gp_K : eh_K p = K;
  gp_K3 : (3 <= K <= 9)%nat;
  gp_cbl : (8 <= cbl <= 24)%nat;
  gp_N : eh_N p = ((K + 1) * cbl)%nat;
  gp_N8 : (8 * (eh_N p / 8) = eh_N p)%nat;
  gp_iph : (0 < indices_per_hash_output p)%nat;
  gp_out : hash_output p = (indices_per_hash_output p * (eh_N p / 8))%nat;
  gp_out64 : (1 <= hash_output p <= 64)%nat;
  gp_cbits : collision_bit_length p = cbl;
  gp_cbytes : collision_byte_length p = ((cbl + 7) / 8)%nat;
  gp_hash : hash_length p = ((K + 1) * ((cbl + 7) / 8))%nat;
  gp_width : final_full_width p = (2 * ((cbl + 7) / 8) + 4 * 2 ^ K)%nat;
  gp_solution : (8 * solution_width p = 2 ^ K * (cbl + 1))%nat }.

Lemma solution_params_good n N K : equihash_solution_params n = Some (N, K) ->
  exists p, equihash_params_init N K = Some p /\ good_params p K (N / (K + 1)) /\ solution_width p = n.
Proof.
  unfold equihash_solution_params. intros E.
  repeat (let Q := fresh in destruct (_ =? _)%nat eqn:Q in E; [apply Nat.eqb_eq in Q as ->; injection E as <- <-|clear Q]); [..|done].
  all: eexists; split; [reflexivity|]; split; [split; cbv; lia|reflexivity].
Qed.

Lemma good_width p K cbl : good_params p K cbl -> forall r, (r <= K)%nat -> ((K + 1 - r) * ((cbl + 7) / 8) + 4 * 2 ^ r <= final_full_width p)%nat.
Proof.
  intros G r Hr. rewrite (gp_width _ _ _ G). pose proof (gp_cbl _ _ _ G). pose proof (gp_K3 _ _ _ G).
  assert ((cbl + 7) / 8 <= 3)%nat as Hc by (ndm). set (c := ((cbl + 7) / 8)%nat) in *.
  assert (K = r + (K - r))%nat as E by lia. set (d := (K - r)%nat) in *. rewrite E, Nat.pow_add_r. replace (r + d + 1 - r)%nat with (d + 1)%nat by lia.
  assert (d + 1 <= 2 ^ d)%nat as Hd by (clear; induction d as [|d IH]; [cbn; lia|]; rewrite Nat.pow_succ_r'; lia).
  assert (1 <= 2 ^ r)%nat by (pose proof (Nat.pow_nonzero 2 r ltac:(done)); lia). nia.
Qed.

(** ** Solutions *)

Section Solution.
#[local] Existing Instance little_endian_host.
Context `{Allocator} (M : memory_ok).
Variables (p : equihash_params) (K cbl : nat).
Hypothesis G : good_params p K cbl.
(** *** The indices of a solution *)

Definition solution_indices (soln : list Z) : list Z := map (group (be_val soln) (8 * length soln) (cbl + 1)) (seq 0 (2 ^ K)).

Lemma read_indices_spec l : Forall (in_u 32) l -> read_indices (length l) (index_part l) = l.
Proof.
  induction 1 as [|x l Hx _ IH]; [done|]. cbn [length read_indices index_part map concat]. fold (index_part l).
  assert (bytes (be_bytes 4 x ++ index_part l)) as Hb.
  { apply Forall_app. split; [apply be_digits_bytes|]. clear. induction l as [|y l IH]; [constructor|].
    apply Forall_app. split; [apply be_digits_bytes|exact IH]. }
  destruct (be_bytes 4 x ++ _) eqn:E; [by apply (f_equal length) in E|]. rewrite <- E in *.
  rewrite drop_app_length' by (by rewrite length_be_bytes). rewrite IH. f_equal.
  change (eh_array_to_index (be_bytes 4 x ++ index_part l)) with (zcl_read_u32_be (be_bytes 4 x ++ index_part l)).
  rewrite read_u32_be_bytes by (done || (rewrite length_app, length_be_bytes; lia)).
  rewrite take_app_length' by (by rewrite length_be_bytes). by apply (be_val_bytes 4).
Qed.

Lemma indices_range soln : Forall (in_u 32) (solution_indices soln).
Proof.
  apply Forall_map, Forall_forall. intros i _. pose proof (group_bound (be_val soln) (8 * length soln) (cbl + 1) i) as [? ?].
  split; [done|]. eapply Z.lt_le_trans; [eassumption|]. apply Z.pow_le_mono_r; [lia|]. pose proof (gp_cbl _ _ _ G). lia.
Qed.

Lemma indices_from_minimal_spec soln : bytes soln -> length soln = solution_width p ->
  eh_get_indices_from_minimal soln (collision_bit_length p) (2 ^ K) = Some (solution_indices soln, false).
Proof.
  intros Hb Hl. pose proof (gp_cbl _ _ _ G) as Hc. pose proof (gp_solution _ _ _ G) as Hs. rewrite <- Hl in Hs.
  unfold eh_get_indices_from_minimal. rewrite (gp_cbits _ _ _ G). unfold sizeof_eh_index.
  assert ((cbl + 1 + 7) / 8 <= 4)%nat as H4 by ndm. rewrite (proj2 (Nat.leb_le _ _) H4). cbn [negb]. rewrite (M _). cbn [negb].
  assert (8 * 4 * length soln / (cbl + 1) = 4 * 2 ^ K)%nat as Elen by (symmetry; apply Nat.div_unique_exact; [lia|]; nia).
  pose proof (expand_array_spec soln (cbl + 1) (4 - (cbl + 1 + 7) / 8) ltac:(lia) Hb) as E. cbv zeta in E.
  replace ((cbl + 1 + 7) / 8 + (4 - (cbl + 1 + 7) / 8))%nat with 4%nat in E by lia.
  rewrite E. rewrite packed_length, Elen.
  assert (8 * length soln / (cbl + 1) = 2 ^ K)%nat as En by (symmetry; apply Nat.div_unique_exact; lia). rewrite En.
  rewrite (proj2 (Nat.eqb_eq (2 ^ K * 4) (4 * 2 ^ K))) by lia. rewrite Nat.mul_comm, Nat.Div0.mod_mul. cbn [andb Nat.eqb]. do 2 f_equal.
  assert (packed (cbl + 1) 4 soln = index_part (solution_indices soln)) as ->.
  { unfold packed, index_part, solution_indices. by rewrite En, map_map. }
  rewrite <- (read_indices_spec (solution_indices soln)) at 2 by apply indices_range. f_equal. unfold solution_indices. by rewrite length_map, length_seq.
Qed.

(** The state has absorbed the challenge. *)
Variables (h0 challenge : list Z) (base : blake2b_ctx).
Hypothesis Hh0 : length h0 = 8%nat.
Hypothesis Hbase : absorbed h0 (Z.of_nat (hash_output p)) base challenge.

Let N8 : nat := (eh_N p / 8)%nat.
Let iph : nat := indices_per_hash_output p.

(** The digest of counter [g], and the hash of an index: one of the [iph] pieces
    of [N] bits of the digest. *)
Definition index_digest (g : Z) : list Z :=
  take (hash_output p) (concat (map (digits_of 8 8) (Rfc7693.finish h0 (challenge ++ digits_of 8 4 g)))).
Definition index_hash (i : Z) : Z :=
  be_val (take N8 (drop (Z.to_nat (i mod Z.of_nat iph) * N8) (index_digest (i / Z.of_nat iph)))).

Lemma digest_length g : length (index_digest g) = hash_output p.
Proof. unfold index_digest. rewrite length_take, finish_length by done. pose proof (gp_out64 _ _ _ G). lia. Qed.

Lemma digest_bytes g : bytes (index_digest g).
Proof.
  apply Forall_take. generalize (Rfc7693.finish h0 (challenge ++ digits_of 8 4 g)). intros l.
  induction l as [|x l IH]; cbn [map concat]; [constructor|]. apply Forall_app. split; [by apply digits_of_digits|done].
Qed.

Lemma digest_of_spec g : digest_of (blake2b_update base (digits_of 8 4 g)) (hash_output p) = Some (index_digest g).
Proof.
  unfold digest_of. pose proof (gp_out64 _ _ _ G).
  rewrite (final_spec h0 (Z.of_nat (hash_output p)) Hh0 _ (challenge ++ digits_of 8 4 g)) by (lia || by apply update_absorbed).
  by rewrite Nat2Z.id.
Qed.

Lemma batch_spec gi : equihash_generate_hash_batch base gi (hash_output p) = Some (map index_digest gi).
Proof.
  unfold equihash_generate_hash_batch. induction gi as [|g gi IH]; [done|]. cbn [blake2b_finalize_scalar_range map].
  change (store_object 4 g) with (digits_of 8 4 g). by rewrite digest_of_spec, IH.
Qed.

Lemma slice_ok i : let off := (Z.to_nat (i mod Z.of_nat iph) * N8)%nat in
  Z.to_nat (i mod Z.of_nat iph * Z.of_nat (eh_N p) / 8) = off /\ (off + N8 <= hash_output p)%nat.
Proof.
  intros off. unfold off, iph. pose proof (gp_iph _ _ _ G) as Hiph. rewrite (gp_out _ _ _ G). fold N8.
  pose proof (Z.mod_pos_bound i (Z.of_nat (indices_per_hash_output p)) ltac:(lia)) as Hm.
  set (q := i mod _) in *. pose proof (gp_N8 _ _ _ G) as H8. fold N8 in H8. split; [|nia].
  replace (q * Z.of_nat (eh_N p)) with (q * Z.of_nat N8 * 8) by nia. rewrite Z.div_mul by lia. nia.
Qed.

Lemma index_hash_bound i : 0 <= index_hash i < 2 ^ Z.of_nat ((K + 1) * cbl).
Proof.
  unfold index_hash. set (sl := take _ _). assert (bytes sl) as Hb by (apply Forall_take, Forall_drop, digest_bytes).
  pose proof (be_val_bound sl Hb) as Bs. destruct (slice_ok i) as [_ Ho].
  assert (length sl = N8) as L by (unfold sl; rewrite length_take, length_drop, digest_length; lia). rewrite L in Bs.
  rewrite <- (gp_N _ _ _ G), <- (gp_N8 _ _ _ G). fold N8. by replace (Z.of_nat (8 * N8)) with (8 * Z.of_nat N8) by lia.
Qed.

Abbreviation row0 := (row_repr K cbl (final_full_width p) index_hash 0).

Lemma row_from_hash_spec i : in_u 32 i ->
  let slice := take N8 (drop (Z.to_nat (i mod Z.of_nat iph) * N8) (index_digest (i / Z.of_nat iph))) in
  exists row, eh_row_from_hash slice (hash_length p) (collision_bit_length p) i (final_full_width p) = Some (Some row) /\ row0 [i] row.
Proof.
  intros Hi slice. unfold eh_row_from_hash. rewrite (M _). cbn [negb].
  assert (length slice = N8) as L by (unfold slice; destruct (slice_ok i) as [_ Ho]; rewrite length_take, length_drop, digest_length; lia).
  assert (bytes slice) as Hb by (apply Forall_take, Forall_drop, digest_bytes).
  pose proof (gp_cbl _ _ _ G) as Hc. pose proof (gp_N8 _ _ _ G) as H8. pose proof (gp_N _ _ _ G) as HN. fold N8 in H8. rewrite HN in H8.
  set (cb := ((cbl + 7) / 8)%nat). assert (hash_length p = (K + 1) * cb)%nat as Hh by apply G.
  pose proof (expand_array_spec slice cbl 0 ltac:(lia) Hb) as E. cbv zeta in E. rewrite Nat.add_0_r, L in E. fold cb in E.
  replace (8 * cb * N8 / cbl)%nat with (hash_length p) in E.
  2: { rewrite Hh. apply Nat.div_unique_exact; [lia|]. nia. }
  rewrite (gp_cbits _ _ _ G), E.
  assert (packed cbl cb slice = hash_part K cbl 0 (xor_all index_hash [i])) as ->.
  { unfold packed, hash_part, xor_all. cbn [foldr]. rewrite Z.lxor_0_r. fold cb. rewrite L, H8, Nat.sub_0_r.
    rewrite Nat.div_mul by lia. done. }
  set (h := hash_part _ _ _ _). assert (length h = hash_length p) as Lh by (unfold h; rewrite hash_part_length; fold cb; lia).
  pose proof (good_width p K cbl G 0 ltac:(lia)) as Hw. fold cb in Hw. rewrite Nat.sub_0_r in Hw. cbn [Nat.pow] in Hw.
  rewrite store_fresh by lia. rewrite <- Lh.
  change (eh_index_to_array i) with (zcl_write_u32_be i). rewrite write_u32_be_bytes. change (rev (digits_of 8 4 i)) with (be_bytes 4 i).
  rewrite store_zeros by (rewrite length_be_bytes; lia). eexists. split; [reflexivity|]. split.
  - unfold h, index_part. cbn [map concat]. rewrite app_nil_r. do 3 f_equal. fold h. rewrite length_be_bytes, Lh, Hh. cbn [Nat.pow]. fold cb. lia.
  - done.
  - constructor; [exact Hi|constructor].
  - unfold xor_all. cbn [foldr]. rewrite Z.lxor_0_r. pose proof (index_hash_bound i) as B. replace ((K + 1) * cbl - 0 * cbl)%nat with ((K + 1) * cbl)%nat by lia. lia.
Qed.

Lemma row_batch_spec ix : Forall (in_u 32) ix ->
  exists rows, row_batch p (final_full_width p) (map (fun i => index_digest (i / Z.of_nat iph)) ix) ix = Some (rows, false) /\
    Forall2 row0 (map (fun i => [i]) ix) rows.
Proof.
  induction 1 as [|i ix Hi _ (rows & E & HF)]; [by exists []|]. cbn [row_batch map].
  fold iph N8. destruct (slice_ok i) as [-> Ho]. unfold read_at. rewrite digest_length, (proj2 (Nat.leb_le _ _)) by done.
  destruct (row_from_hash_spec i Hi) as (row & -> & R). rewrite E. cbn [fst snd]. exists (row :: rows). by split; [|constructor].
Qed.

Lemma leaf_rows_spec n generate q fuel ix :
  (forall gi, length gi = n -> generate gi = Some (map index_digest gi)) -> (0 < n)%nat ->
  Forall (in_u 32) ix -> length ix = (q * n)%nat -> (q <= fuel)%nat ->
  exists rows, leaf_rows fuel n generate p (final_full_width p) ix = Some (rows, [], false) /\ Forall2 row0 (map (fun i => [i]) ix) rows.
Proof.
  intros Hg Hn. revert fuel ix. induction q as [|q IH]; intros fuel ix His Hl Hf.
  - destruct ix; [|cbn in Hl; lia]. exists []. destruct fuel; [done|]. cbn [leaf_rows length]. rewrite (proj2 (Nat.leb_gt n 0)) by lia. done.
  - destruct fuel as [|fuel]; [lia|]. cbn [leaf_rows]. rewrite (proj2 (Nat.leb_le n (length ix))) by lia.
    pose proof (gp_iph _ _ _ G). rewrite (proj2 (Nat.eqb_neq (indices_per_hash_output p) 0)) by lia.
    rewrite Hg by (rewrite length_map, length_take; lia). rewrite map_map.
    destruct (row_batch_spec (take n ix)) as (rows & E & HF); [by apply Forall_take|]. unfold iph in E. rewrite E. cbn [fst snd].
    destruct (IH fuel (drop n ix)) as (rows' & -> & HF'); [by apply Forall_drop|rewrite length_drop; lia|lia|].
    exists (rows ++ rows'). split; [done|]. rewrite <- (take_drop n ix) at 1. rewrite map_app. by apply Forall2_app.
Qed.

(** *** Valid solutions *)

(** Block [w] of [2^r] indices. *)
Definition block (r w : nat) (idx : list Z) : list Z := take (2 ^ r) (drop (w * 2 ^ r) idx).

Record equihash_valid (idx : list Z) : Prop := {
  ev_zero : xor_all index_hash idx = 0;
  ev_collide : forall r w, (1 <= r <= K)%nat -> (w < 2 ^ (K - r))%nat ->
    xor_all index_hash (block r w idx) < 2 ^ Z.of_nat (eh_N p - r * cbl);
  ev_order : forall r w, (1 <= r <= K)%nat -> (w < 2 ^ (K - r))%nat ->
    memcmp (block (r - 1) (2 * w) idx) (block (r - 1) (2 * w + 1) idx) < 0;
  ev_distinct : NoDup idx }.

Abbreviation merges := (pair_ok K cbl index_hash).

Lemma pairs_seq r f s n : pairs_ok K cbl index_hash r (map f (seq (2 * s) (2 * n))) <->
  forall w, (s <= w < s + n)%nat -> merges r (f (2 * w)%nat) (f (2 * w + 1)%nat).
Proof.
  revert s. induction n as [|n IH]; intros s; [split; [lia|done]|].
  replace (2 * S n)%nat with (S (S (2 * n))) by lia. cbn [seq map pairs_ok]. replace (S (S (2 * s))) with (2 * S s)%nat by lia. rewrite IH.
  replace (S (2 * s)) with (2 * s + 1)%nat by lia. split.
  - intros [H0 Hw] w Hr. destruct (Nat.eq_dec w s) as [->|]; [done|]. apply Hw. lia.
  - intros Hw. split; [apply Hw; lia|]. intros w Hr. apply Hw. lia.
Qed.

Lemma pair_up_seq (f : nat -> list Z) s n : pair_up (map f (seq (2 * s) (2 * n))) = map (fun w => f (2 * w)%nat ++ f (2 * w + 1)%nat) (seq s n).
Proof.
  revert s. induction n as [|n IH]; intros s; [done|]. replace (2 * S n)%nat with (S (S (2 * n))) by lia. cbn [seq map pair_up].
  replace (S (S (2 * s))) with (2 * S s)%nat by lia. rewrite IH. by replace (S (2 * s)) with (2 * s + 1)%nat by lia.
Qed.

Definition level (r : nat) (idx : list Z) : list (list Z) := map (fun w => block r w idx) (seq 0 (2 ^ (K - r))).

Lemma block_succ r w idx : block (S r) w idx = block r (2 * w) idx ++ block r (2 * w + 1) idx.
Proof.
  unfold block. rewrite Nat.pow_succ_r'. set (n := (2 ^ r)%nat).
  replace (w * (2 * n))%nat with (2 * w * n)%nat by lia. replace ((2 * w + 1) * n)%nat with (2 * w * n + n)%nat by lia.
  rewrite <- drop_drop. generalize (drop (2 * w * n) idx). intros l. replace (2 * n)%nat with (n + n)%nat by lia.
  by rewrite take_take_drop.
Qed.

Lemma pair_up_level r idx : (r < K)%nat -> pair_up (level r idx) = level (S r) idx.
Proof.
  intros Hr. unfold level. replace (K - r)%nat with (S (K - S r)) by lia. rewrite Nat.pow_succ_r'.
  rewrite (pair_up_seq (fun w => block r w idx) 0). apply map_ext. intros w. symmetry. apply block_succ.
Qed.

Lemma rounds_levels m r idx : (r + m = K)%nat ->
  rounds_ok K cbl index_hash m r (level r idx) <->
  forall r' w, (r <= r' < K)%nat -> (w < 2 ^ (K - S r'))%nat -> merges r' (block r' (2 * w) idx) (block r' (2 * w + 1) idx).
Proof.
  revert r. induction m as [|m IH]; intros r Hr; cbn [rounds_ok]; [split; [lia|done]|].
  rewrite pair_up_level, IH by lia.
  assert (pairs_ok K cbl index_hash r (level r idx) <-> forall w, (w < 2 ^ (K - S r))%nat -> merges r (block r (2 * w) idx) (block r (2 * w + 1) idx)) as ->.
  { unfold level. replace (K - r)%nat with (S (K - S r)) by lia. rewrite Nat.pow_succ_r'.
    rewrite (pairs_seq r (fun w => block r w idx) 0). split; intros Hw w ?; apply Hw; lia. }
  split.
  - intros [H0 Hw] r' w Hr' Hlt. destruct (Nat.eq_dec r' r) as [->|]; [by apply H0|]. apply Hw; lia.
  - intros Hw. split; [intros w ?; apply Hw; lia|]. intros r' w ? ?. apply Hw; lia.
Qed.

Lemma level_zero idx : length idx = (2 ^ K)%nat -> level 0 idx = map (fun i => [i]) idx.
Proof.
  intros Hl. unfold level, block. rewrite Nat.sub_0_r, <- Hl. clear Hl. cbn [Nat.pow].
  rewrite (map_ext _ (fun w => take 1 (drop w idx))) by (intros w; by rewrite Nat.mul_1_r).
  induction idx as [|x idx IH]; [done|]. cbn [length seq map drop]. f_equal.
  rewrite <- seq_shift, map_map. exact IH.
Qed.

Lemma block_top idx : length idx = (2 ^ K)%nat -> block K 0 idx = idx.
Proof. intros Hl. unfold block. rewrite Nat.mul_0_l, drop_0, <- Hl. apply firstn_all. Qed.

(** Distinct indices, seen from the blocks. *)
Lemma nodup_blocks idx : length idx = (2 ^ K)%nat ->
  NoDup idx <-> forall r w, (r < K)%nat -> (w < 2 ^ (K - S r))%nat -> disjoint_lists (block r (2 * w) idx) (block r (2 * w + 1) idx).
Proof.
  intros Hl. split.
  - intros Hn r w Hr Hw x Ha Hb. unfold block in Ha, Hb. apply list_elem_of_In, elem_of_take in Ha as (i & Ha & Hi).
    apply list_elem_of_In, elem_of_take in Hb as (j & Hb & Hj). rewrite lookup_drop in Ha, Hb.
    pose proof (NoDup_lookup _ _ _ _ Hn Ha Hb). nia.
  - intros Hd. assert (forall r w, (r <= K)%nat -> (w < 2 ^ (K - r))%nat -> NoDup (block r w idx)) as Hb.
    { induction r as [|r IH]; intros w Hr Hw.
      - unfold block. cbn [Nat.pow]. destruct (drop (w * 1) idx) as [|x l]; [constructor|]. cbn. apply NoDup_singleton.
      - rewrite block_succ. replace (K - r)%nat with (S (K - S r)) in IH by lia. rewrite Nat.pow_succ_r' in IH.
        apply list.NoDup_app. split_and!; [apply IH; lia| |apply IH; lia].
        intros x Ha Hx. apply (Hd r w ltac:(lia) Hw x); by apply list_elem_of_In. }
    rewrite <- (block_top idx Hl). apply Hb; [lia|]. rewrite Nat.sub_diag. cbn. lia.
Qed.

Lemma rounds_valid idx : length idx = (2 ^ K)%nat ->
  rounds_ok K cbl index_hash K 0 (map (fun i => [i]) idx) /\ xor_all index_hash idx = 0 <-> equihash_valid idx.
Proof.
  intros Hl. rewrite <- level_zero, rounds_levels by done. split.
  - intros [Hm Hz]. split; [done|..].
    + intros r w Hr Hw. destruct r as [|r]; [lia|]. destruct (Hm r w ltac:(lia) Hw) as (Hx & _). by rewrite (gp_N _ _ _ G), block_succ.
    + intros r w Hr Hw. destruct r as [|r]; [lia|]. destruct (Hm r w ltac:(lia) Hw) as (_ & Ho & _). by replace (S r - 1)%nat with r by lia.
    + apply (nodup_blocks idx Hl). intros r w Hr Hw. apply (Hm r w ltac:(lia) Hw).
  - intros [Hz Hc Ho Hn]. split; [|done]. intros r w Hr Hw. split_and!.
    + rewrite <- block_succ, <- (gp_N _ _ _ G). apply Hc; lia.
    + specialize (Ho (S r) w ltac:(lia) Hw). by replace (S r - 1)%nat with r in Ho by lia.
    + apply (nodup_blocks idx Hl); [done|lia|done].
Qed.

(** The last group is what is left of the XOR after [K] rounds. *)
Lemma final_row_spec idx row : row_repr K cbl (final_full_width p) index_hash K idx row ->
  exists ok, eh_verify_final_row [row] ((cbl + 7) / 8) = Some ok /\ (ok = true <-> xor_all index_hash idx = 0).
Proof.
  intros [-> _ _ Hz]. unfold eh_verify_final_row, eh_row_is_zero. set (v := xor_all index_hash idx) in *.
  pose proof (xor_all_nonneg K cbl index_hash (gp_cbl _ _ _ G) index_hash_bound idx) as Hnn. fold v in Hnn.
  unfold hash_part. replace (K + 1 - K)%nat with 1%nat by lia. cbn [seq map concat]. rewrite app_nil_r.
  rewrite read_at_start by (by rewrite length_be_bytes). eexists. split; [reflexivity|]. cbn [length Nat.eqb andb].
  replace ((K + 1) * cbl - K * cbl)%nat with cbl in Hz by lia.
  assert (group v ((K + 1) * cbl) cbl K = v) as ->.
  { unfold group. replace ((K + 1) * cbl - S K * cbl)%nat with 0%nat by lia. rewrite Z.div_1_r. apply Z.mod_small. done. }
  assert (0 <= v < 2 ^ (8 * Z.of_nat ((cbl + 7) / 8))) as Hv.
  { split; [done|]. eapply Z.lt_le_trans; [exact Hz|]. apply Z.pow_le_mono_r; [lia|]. zify. zdm. }
  rewrite forallb_forall. split.
  - intros Hf. rewrite <- (be_val_bytes _ v Hv).
    assert (be_bytes ((cbl + 7) / 8) v = replicate ((cbl + 7) / 8) 0) as ->.
    { symmetry. apply replicate_as_Forall_2; [apply length_be_bytes|]. apply Forall_forall. intros x Hx. by apply Z.eqb_eq, Hf. }
    unfold be_val. rewrite rev_alt. fold (reverse (replicate ((cbl + 7) / 8) 0)). by rewrite reverse_replicate, digits_val_replicate0.
  - intros -> x Hx. rewrite be_bytes_map in Hx. apply in_map_iff in Hx as (k & <- & Hk). unfold byte_at. apply in_seq in Hk. by rewrite Z.div_0_l by (apply Z.pow_nonzero; lia).
Qed.

Lemma is_valid_solution_spec soln : bytes soln -> length soln = solution_width p ->
  exists ok, equihash_is_valid_solution p base soln = Some (ok, false) /\ (ok = true <-> equihash_valid (solution_indices soln)).
Proof.
  intros Hb Hl. unfold equihash_is_valid_solution. rewrite Hl, Nat.eqb_refl. cbn [negb]. rewrite !(M _). cbn [negb].
  rewrite (gp_K _ _ _ G), indices_from_minimal_spec by done. set (idx := solution_indices soln).
  assert (length idx = 2 ^ K)%nat as Li by (unfold idx, solution_indices; by rewrite length_map, length_seq).
  rewrite Li, Nat.eqb_refl. cbn [negb].
  pose proof (gp_K3 _ _ _ G) as HK. pose proof (indices_range soln) as Hr. fold idx in Hr.
  assert (2 ^ K = 2 ^ (K - 3) * 8)%nat as E8 by (change 8%nat with (2 ^ 3)%nat; rewrite <- Nat.pow_add_r; f_equal; lia).
  destruct (leaf_rows_spec 8 (fun gi => equihash_generate_hash_batch base gi (hash_output p)) (2 ^ (K - 3)) (length idx) idx) as (X & E & HF);
    [intros; apply batch_spec|lia|done|lia|lia|].
  unfold eh_verify_leaf_rows_batch8. rewrite E. cbn [eh_verify_leaf_rows_batch4 eh_verify_leaf_rows_scalar leaf_rows length].
  unfold eh_verify_leaf_rows_batch4, eh_verify_leaf_rows_scalar. cbn [leaf_rows length]. rewrite !app_nil_r.
  rewrite <- (Forall2_length HF), length_map, Li. rewrite (gp_hash _ _ _ G). unfold sizeof_eh_index.
  assert (K < 2 ^ K)%nat as Hfuel by (apply Nat.pow_gt_lin_r; lia).
  pose proof (rounds_verdict M K cbl (final_full_width p) index_hash (gp_cbl _ _ _ G) index_hash_bound (good_width p K cbl G) p (gp_cbytes _ _ _ G)
    K (2 ^ K) 0 (map (fun i => [i]) idx) X ltac:(lia) Hfuel ltac:(by rewrite length_map) HF) as V.
  rewrite Nat.sub_0_r in V. cbn [Nat.pow Nat.mul Nat.add] in V.
  assert (concat (map (fun i : Z => [i]) idx) = idx) as Ec by (clear; induction idx as [|x l IH]; [done|]; cbn; by f_equal).
  rewrite Ec in V. destruct V as [(row & -> & R & Ho)|(st & hl & -> & Hst & Hno)].
  - destruct (final_row_spec idx row R) as (ok & -> & Hok). exists ok. split; [done|]. rewrite Hok, <- rounds_valid by done. tauto.
  - exists false. split; [by destruct st|]. rewrite <- rounds_valid by done. split; [done|]. tauto.
Qed.

End Solution.

(** ** Packing *)

(** The number whose groups of [bl] bits are [l]. *)
Definition cat (bl : nat) (l : list Z) : Z := fold_left (fun v x => v * 2 ^ Z.of_nat bl + x) l 0.

Lemma cat_app bl a b : cat bl (a ++ b) = cat bl a * 2 ^ (Z.of_nat bl * Z.of_nat (length b)) + cat bl b.
Proof.
  unfold cat. rewrite fold_left_app. generalize (fold_left (fun v x => v * 2 ^ Z.of_nat bl + x) a 0). intros v.
  assert (forall b v w, fold_left (fun v x => v * 2 ^ Z.of_nat bl + x) b (v + w) =
    v * 2 ^ (Z.of_nat bl * Z.of_nat (length b)) + fold_left (fun v x => v * 2 ^ Z.of_nat bl + x) b w) as Hg.
  { clear. intros b. induction b as [|x b IH]; intros v w; cbn [fold_left length]; [rewrite Z.mul_0_r; lia|].
    replace ((v + w) * 2 ^ Z.of_nat bl + x) with (v * 2 ^ Z.of_nat bl + (w * 2 ^ Z.of_nat bl + x)) by lia. rewrite IH.
    rewrite Nat2Z.inj_succ, Z.mul_succ_r, Z.pow_add_r by lia. ring. }
  rewrite <- (Z.add_0_r v) at 1. apply Hg.
Qed.

Lemma cat_bound bl l : Forall (in_u (Z.of_nat bl)) l -> 0 <= cat bl l < 2 ^ (Z.of_nat bl * Z.of_nat (length l)).
Proof.
  induction l as [|x l IH] using rev_ind; intros Hl; [cbn; lia|]. apply Forall_app in Hl as [Hl Hx].
  rewrite cat_app, length_app. cbn [length]. specialize (IH Hl). apply Forall_cons_iff in Hx as [[Hx1 Hx2] _].
  change (cat bl [x]) with (0 * 2 ^ Z.of_nat bl + x). rewrite Nat2Z.inj_add, Z.mul_add_distr_l, Z.pow_add_r, Z.mul_1_r by lia.
  pose proof (pow2_pos (Z.of_nat bl) ltac:(lia)). nia.
Qed.

Lemma cat_group bl l i x : Forall (in_u (Z.of_nat bl)) l -> l !! i = Some x -> group (cat bl l) (length l * bl) bl i = x.
Proof.
  intros Hl Hi. pose proof (lookup_lt_Some _ _ _ Hi) as Hlt. rewrite <- (take_drop_middle l i x Hi) in Hl |- *.
  set (a := take i l) in *. set (b := drop (S i) l) in *. apply Forall_app in Hl as [Ha Hl]. apply Forall_cons_iff in Hl as [Hx Hb].
  assert (length a = i) as La by (unfold a; rewrite length_take; lia).
  unfold group. rewrite length_app. cbn [length]. replace ((length a + S (length b)) * bl - S i * bl)%nat with (bl * length b)%nat by nia.
  change (a ++ x :: b) with (a ++ [x] ++ b). rewrite app_assoc, cat_app, cat_app. cbn [length]. rewrite Nat2Z.inj_mul.
  pose proof (cat_bound bl b Hb). rewrite Z.div_add_l, (Z.div_small (cat bl b)) by (done || apply Z.pow_nonzero; lia).
  change (cat bl [x]) with (0 * 2 ^ Z.of_nat bl + x). rewrite Z.mul_1_r, Z.mul_0_l, Z.add_0_l, Z.add_0_r, Z.add_comm, Z_mod_plus_full. by apply Z.mod_small.
Qed.

Section Packing.
#[local] Existing Instance little_endian_host.

(** Shifting in an index of at most 25 bits from its four bytes. *)
Lemma compress_group_spec acc bl pad x : (9 <= bl <= 25)%nat -> ((bl + 7) / 8 + pad = 4)%nat -> in_u (Z.of_nat bl) x ->
  compress_group acc bl pad 4 (be_bytes 4 x) = u32 (acc * 2 ^ Z.of_nat bl + x).
Proof.
  intros Hbl Hp Hx. unfold compress_group.
  assert (forall j, (j < 4)%nat -> nth j (be_bytes 4 x) 0 = byte_at x (8 * (Z.of_nat 4 - Z.of_nat j - 1))) as Hn.
  { intros j Hj. rewrite be_bytes_map. do 4 (destruct j as [|j]; [done|]). lia. }
  assert (forall k, 0 <= k -> (byte_at x k .& (((u32 (1 << Z.of_nat bl) - 1) >> k) .& 0xFF)) << k = x .& (255 << k)) as Hk.
  { intros k Hk. rewrite (wrap_id 32 (1 << _)).
    2: { rewrite Z.shiftl_1_l. unfold in_u. split; [apply Z.pow_nonneg; lia|]. apply Z.pow_lt_mono_r; lia. }
    rewrite Z.shiftl_1_l. change (2 ^ Z.of_nat bl - 1) with (Z.pred (2 ^ Z.of_nat bl)). rewrite <- Z.ones_equiv.
    unfold byte_at. change 256 with (2 ^ 8). change 255 with (Z.ones 8). rewrite <- Z.land_ones, <- Z.shiftr_div_pow2 by lia.
    assert (x = x .& Z.ones (Z.of_nat bl)) as Ex by (rewrite Z.land_ones by lia; symmetry; by apply Z.mod_small).
    rewrite Ex at 2. apply Z.bits_inj'. intros j Hj. destruct (decide (j < k)) as [Hlt|Hge].
    - rewrite Z.shiftl_spec_low by lia. rewrite !Z.land_spec, (Z.shiftl_spec_low _ k) by lia. by rewrite andb_false_r.
    - rewrite Z.shiftl_spec by lia. rewrite !Z.land_spec, !Z.shiftl_spec, !Z.shiftr_spec by lia. replace (j - k + k) with j by lia.
      by destruct (Z.testbit x j), (Z.testbit (Z.ones 8) (j - k)), (Z.testbit (Z.ones (Z.of_nat bl)) j). }
  rewrite (Z.add_comm _ x).
  assert (u32 (x + acc * 2 ^ Z.of_nat bl) = u32 (acc << Z.of_nat bl) .| x) as ->.
  { rewrite Z.shiftl_mul_pow2 by lia. unfold wrap. assert (2 ^ 32 = 2 ^ Z.of_nat bl * 2 ^ (32 - Z.of_nat bl)) as E by (rewrite <- Z.pow_add_r by lia; f_equal; lia).
    pose proof (pow2_pos (Z.of_nat bl) ltac:(lia)) as P1. pose proof (pow2_pos (32 - Z.of_nat bl) ltac:(lia)) as P2.
    rewrite E, (Z.mul_comm acc), Z.mul_mod_distr_l, (Z.mul_comm (2 ^ Z.of_nat bl) (acc mod _)), Z.lor_comm by lia. rewrite lor_add_disjoint by (done || lia).
    rewrite (Z.mul_comm (2 ^ Z.of_nat bl) acc).
    rewrite (Z.rem_mul_r (x + _)) by lia. rewrite Z_mod_plus_full, Z.div_add by lia. destruct Hx.
    rewrite (Z.mod_small x), (Z.div_small x), Z.add_0_l by lia. ring. }
  set (a := u32 _). destruct pad as [|[|[|pad]]]; cbn [seq fold_left Nat.sub].
  4: { exfalso. ndm. }
  all: rewrite !Hn by lia; rewrite !Hk by lia; rewrite <- ?Z.lor_assoc, <- ?Z.land_lor_distr_r.
  all: assert (forall n, 0 <= n -> Z.of_nat bl <= n -> x .& Z.ones n = x) as Hid
    by (intros n ? ?; rewrite Z.land_ones by lia; apply Z.mod_small; destruct Hx; split; [done|];
        eapply Z.lt_le_trans; [eassumption|]; apply Z.pow_le_mono_r; lia).
  all: f_equal. 1: apply (Hid 32). 3: apply (Hid 24). 5: apply (Hid 16). all: ndm.
Qed.

Lemma be_bytes_cons n v : be_bytes (S n) v = byte_at v (8 * Z.of_nat n) :: be_bytes n v.
Proof.
  rewrite !be_bytes_map. cbn [seq map]. f_equal; [f_equal; lia|]. rewrite <- seq_shift, map_map. apply map_ext. intros x. f_equal. lia.
Qed.

Lemma compress_loop_spec bl pad m pre l ab : (9 <= bl <= 25)%nat -> ((bl + 7) / 8 + pad = 4)%nat ->
  Forall (in_u (Z.of_nat bl)) (pre ++ l) -> (ab + bl * length l = 8 * m)%nat -> (ab <= 32)%nat -> (ab <= bl * length pre)%nat ->
  compress_loop m bl pad 4 ab (u32 (cat bl pre)) (index_part l) = Some (be_bytes m (cat bl (pre ++ l))).
Proof.
  intros Hbl Hp. revert pre l ab. induction m as [|m IH]; intros pre l ab Hl Hm Hab Hpre; [done|]. cbn [compress_loop].
  assert (forall pre l ab, Forall (in_u (Z.of_nat bl)) (pre ++ l) -> (ab + bl * length l = 8 * S m)%nat -> (8 <= ab <= 32)%nat -> (ab <= bl * length pre)%nat ->
    (let? rest := compress_loop m bl pad 4 (ab - 8) (u32 (cat bl pre)) (index_part l) in
     Some (u8 ((u32 (cat bl pre) >> Z.of_nat (ab - 8)) .& 255) :: rest)) = Some (be_bytes (S m) (cat bl (pre ++ l)))) as Step.
  { clear pre l ab Hl Hm Hab Hpre. intros pre l ab Hl Hm Hab Hpre. rewrite IH by (done || lia). f_equal. rewrite be_bytes_cons. f_equal.
    apply Forall_app in Hl as [_ Hl]. pose proof (cat_bound bl l Hl) as Bl. unfold byte_at. rewrite cat_app.
    replace (8 * Z.of_nat m) with (Z.of_nat bl * Z.of_nat (length l) + Z.of_nat (ab - 8)) by lia.
    rewrite Z.pow_add_r, <- Z.div_div by (lia || apply Z.pow_nonzero; lia || apply pow2_pos; lia).
    rewrite Z.div_add_l by (apply Z.pow_nonzero; lia). rewrite (Z.div_small (cat bl l)), Z.add_0_r by done.
    change 255 with (Z.ones 8). change 256 with (2 ^ 8). unfold wrap. rewrite <- !Z.land_ones, <- Z.shiftr_div_pow2 by lia.
    apply Z.bits_inj'. intros j Hj. repeat (rewrite Z.land_spec || rewrite Z.shiftr_spec by lia). destruct (decide (j < 8)).
    - rewrite (Z.ones_spec_low 32) by lia. rewrite (Z.ones_spec_low 8) by lia. by rewrite !andb_true_r.
    - rewrite (Z.ones_spec_high 8) by lia. by rewrite !andb_false_r. }
  destruct (Nat.ltb_spec ab 8) as [Hlt|Hge]; [|apply Step; done || lia].
  destruct l as [|x l]; [cbn [length] in Hm; lia|]. cbn [index_part map concat]. fold (index_part l).
  rewrite read_at_start by (by rewrite length_be_bytes). rewrite drop_app_length' by (by rewrite length_be_bytes).
  assert (in_u (Z.of_nat bl) x) as Hx by (apply Forall_app in Hl as [_ Hl]; by apply Forall_cons_iff in Hl as [? _]).
  rewrite compress_group_spec by done.
  assert (u32 (u32 (cat bl pre) * 2 ^ Z.of_nat bl + x) = u32 (cat bl (pre ++ [x]))) as ->.
  { rewrite cat_app. change (cat bl [x]) with (0 * 2 ^ Z.of_nat bl + x). cbn [length]. rewrite Z.mul_0_l, Z.add_0_l, Z.mul_1_r.
    unfold wrap. by rewrite <- Zplus_mod_idemp_l, Zmult_mod_idemp_l, Zplus_mod_idemp_l. }
  assert (pre ++ x :: l = (pre ++ [x]) ++ l) as E by (by rewrite <- app_assoc). rewrite E in *. cbn [length] in Hm.
  apply Step; [done|lia|lia|]. rewrite length_app. cbn [length]. lia.
Qed.

Context `{Allocator} (M : memory_ok).

(** What the solver writes for a list of indices is what the verifier reads back. *)
Lemma minimal_roundtrip (p : equihash_params) (K cbl max_len : nat) (idx : list Z) :
  good_params p K cbl -> length idx = (2 ^ K)%nat -> Forall (in_u (Z.of_nat (cbl + 1))) idx -> (solution_width p <= max_len)%nat ->
  exists soln, eh_get_minimal_from_indices idx cbl max_len = Some (Some soln) /\ length soln = solution_width p /\ bytes soln /\
    eh_get_indices_from_minimal soln cbl (2 ^ K) = Some (idx, false).
Proof.
  intros G Hl Hi Hmax. pose proof (gp_cbl _ _ _ G) as Hc. pose proof (gp_solution _ _ _ G) as Hs.
  unfold eh_get_minimal_from_indices. unfold sizeof_eh_index.
  assert ((cbl + 1 + 7) / 8 <= 4)%nat as H4 by ndm. rewrite (proj2 (Nat.leb_le _ _) H4). cbn [negb]. rewrite (M _). cbn [negb]. rewrite Hl.
  assert ((cbl + 1) * (2 ^ K * 4) / (8 * 4) = solution_width p)%nat as -> by (symmetry; apply Nat.div_unique_exact; [lia|]; nia).
  rewrite (proj2 (Nat.ltb_ge max_len _)) by done.
  assert (concat (map eh_index_to_array idx) = index_part idx) as ->.
  { unfold index_part. f_equal. apply map_ext. intros x. change (eh_index_to_array x) with (zcl_write_u32_be x). apply write_u32_be_bytes. }
  unfold eh_compress_array. rewrite (proj2 (Nat.leb_le 8 (cbl + 1))), (proj2 (Nat.leb_le (7 + (cbl + 1)) (8 * 4))) by lia. cbn [negb].
  replace ((cbl + 1 + 7) / 8 + (4 - (cbl + 1 + 7) / 8))%nat with 4%nat by lia. rewrite index_part_length, Hl.
  assert ((cbl + 1) * (4 * 2 ^ K) / (8 * 4) = solution_width p)%nat as -> by (symmetry; apply Nat.div_unique_exact; [lia|]; nia).
  rewrite Nat.eqb_refl. cbn [negb]. rewrite <- (wrap_id 32 0) by done. change 0 with (cat (cbl + 1) []) at 1.
  rewrite (compress_loop_spec (cbl + 1) _ _ [] idx 0) by (done || lia || (rewrite Hl; lia)). cbn [app].
  eexists. split; [reflexivity|]. split; [apply length_be_bytes|]. split; [apply be_digits_bytes|].
  pose proof (indices_from_minimal_spec M p K cbl G _ (be_digits_bytes (solution_width p) (cat (cbl + 1) idx)) (length_be_bytes _ _)) as E.
  rewrite (gp_cbits _ _ _ G) in E. rewrite E.
  do 2 f_equal. unfold solution_indices. rewrite length_be_bytes, Hs.
  rewrite be_val_bytes; [|pose proof (cat_bound (cbl + 1) idx Hi) as B; rewrite Hl in B; replace (8 * Z.of_nat (solution_width p)) with (Z.of_nat (cbl + 1) * Z.of_nat (2 ^ K)) by lia; done].
  apply list_eq. intros i. rewrite list_lookup_fmap. destruct (decide (i < 2 ^ K)%nat) as [Hlt|Hge].
  - rewrite lookup_seq_lt by done. cbn. destruct (lookup_lt_is_Some_2 idx i) as [x Ex]; [lia|]. rewrite Ex. f_equal.
    rewrite <- Hl. by apply cat_group.
  - rewrite lookup_seq_ge by lia. cbn. by rewrite lookup_ge_None_2 by lia.
Qed.
End Packing.

(** ** The consensus predicate *)

Section Predicate.
#[local] Existing Instance little_endian_host.
Context `{Allocator} (M : memory_ok).

(** The bytes of a header without its solution, and the personalisation that binds
    the parameters. *)
Definition header_challenge (h : block_header) : list Z :=
  digits_of 8 4 (u32 (nVersion h)) ++ hashPrevBlock h ++ hashMerkleRoot h ++ hashFinalSaplingRoot h ++
  digits_of 8 4 (nTime h) ++ digits_of 8 4 (nBits h) ++ nNonce h.
Definition pow_personal (N K : nat) : list Z := ZcashPoW ++ digits_of 8 4 (Z.of_nat N) ++ digits_of 8 4 (Z.of_nat K).
Definition pow_initial (p : equihash_params) : list Z :=
  Rfc7693.initial (Z.of_nat (hash_output p)) [] (replicate 16 0) (pow_personal (eh_N p) (eh_K p)).

Lemma le32_into_bytes v : le32_into v = digits_of 8 4 v.
Proof.
  unfold le32_into. rewrite digits_of_byte_at. cbn [seq map]. unfold byte_at, wrap. change 0xff with (Z.ones 8).
  rewrite !Z.land_ones, !Z.shiftr_div_pow2 by lia. change (2 ^ 8) with 256. rewrite !Z.mod_mod by lia. by rewrite Z.div_1_r.
Qed.

Lemma initialise_state_spec p K cbl : good_params p K cbl ->
  exists state, equihash_initialise_state p = Some state /\ absorbed (pow_initial p) (Z.of_nat (hash_output p)) state [].
Proof.
  intros G. unfold equihash_initialise_state. rewrite !write_u32_le_bytes. pose proof (gp_out64 _ _ _ G).
  destruct (init_salt_personal_spec (Z.of_nat (hash_output p)) None None (Some (pow_personal (eh_N p) (eh_K p)))) as (state & E & A); [lia|cbn; lia|].
  by exists state.
Qed.

Lemma pow_initial_length p : length (pow_initial p) = 8%nat.
Proof. done. Qed.

Lemma solution_read h : header_wf h -> read_at (nSolution h) 0 (Z.to_nat (nSolutionSize h)) = Some (solution h) /\ bytes (solution h) /\
  length (solution h) = Z.to_nat (nSolutionSize h).
Proof.
  intros W. destruct (wf_solution h W) as [Hb Hl]. pose proof (wf_size h W) as Hs. unfold read_at, len in *.
  rewrite (proj2 (Nat.leb_le _ _)) by lia. rewrite drop_0. split; [done|]. split; [by apply Forall_take|].
  unfold solution. rewrite length_take. lia.
Qed.

(** The predicate hashes the header bytes and verifies the solution. *)
Lemma verify_equihash_run h N K : header_wf h -> equihash_solution_params (Z.to_nat (nSolutionSize h)) = Some (N, K) ->
  exists p ok, equihash_params_init N K = Some p /\
    domain_consensus_verify_equihash_solution (Some h) true = Some (ZCL_OK (ok, false)) /\
    (ok = true <-> equihash_valid p K (N / (K + 1)) (pow_initial p) (header_challenge h) (solution_indices K (N / (K + 1)) (solution h))).
Proof.
  intros W E. destruct (solution_params_good _ _ _ E) as (p & Ep & G & Hw). exists p.
  destruct (initialise_state_spec p K _ G) as (state & Es & A).
  unfold domain_consensus_verify_equihash_solution. cbn [negb]. rewrite E, Ep, Es. rewrite !le32_into_bytes.
  destruct (solution_read h W) as (-> & Hb & Hl). set (base := blake2b_update _ (nNonce h)).
  assert (absorbed (pow_initial p) (Z.of_nat (hash_output p)) base (header_challenge h)) as Ab.
  { unfold header_challenge. rewrite <- (app_nil_l (digits_of 8 4 (u32 (nVersion h)) ++ _)), !app_assoc.
    unfold base. by repeat apply (update_absorbed _ _ (pow_initial_length p)). }
  destruct (is_valid_solution_spec M p K _ G _ _ base (pow_initial_length p) Ab (solution h) Hb ltac:(by rewrite Hl)) as (ok & -> & Hok).
  by exists ok.
Qed.

Lemma slice_mid (a b c : list Z) k n : k = length a -> n = length b -> take n (drop k (a ++ b ++ c)) = b.
Proof. intros -> ->. by rewrite drop_app_length, take_app_length. Qed.

Lemma read_u32_le_mid a v c : in_u 32 v -> bytes c -> zcl_read_u32_le (drop (length a) (a ++ digits_of 8 4 v ++ c)) = v.
Proof.
  intros Hv Hc. rewrite drop_app_length, read_u32_le_bytes.
  - rewrite take_app_length' by (by rewrite length_digits_of). rewrite digits_val_of by lia. by apply Z.mod_small.
  - apply Forall_app. split; [by apply digits_of_digits|done].
  - rewrite length_app, length_digits_of. lia.
Qed.

Lemma challenge_fields h : header_wf h -> let c := header_challenge h in
  len c = BLOCK_HEADER_SIZE /\ zcl_read_i32_le c = nVersion h /\ take 32 (drop 4 c) = hashPrevBlock h /\
  take 32 (drop 36 c) = hashMerkleRoot h /\ take 32 (drop 68 c) = hashFinalSaplingRoot h /\
  zcl_read_u32_le (drop 100 c) = nTime h /\ zcl_read_u32_le (drop 104 c) = nBits h /\ take 32 (drop 108 c) = nNonce h.
Proof.
  intros [Wv [Bp Lp] [Br Lr] [Bs Ls] Wt Wb [Bn Ln] _ _]. unfold len in *. unfold header_challenge.
  set (v := digits_of 8 4 (u32 (nVersion h))). set (t := digits_of 8 4 (nTime h)). set (b := digits_of 8 4 (nBits h)).
  assert (length v = 4 /\ length t = 4 /\ length b = 4)%nat as (Lv & Lt & Lb) by (unfold v, t, b; by rewrite !length_digits_of).
  assert (forall x, bytes (digits_of 8 4 x)) as Bd by (intros; by apply digits_of_digits).
  split_and!.
  - rewrite !length_app. unfold BLOCK_HEADER_SIZE. lia.
  - unfold zcl_read_i32_le. match goal with |- context [zcl_read_u32_le (v ++ ?l)] => pose proof (read_u32_le_mid [] (u32 (nVersion h)) l) as E end.
    cbn [length app] in E. rewrite drop_0 in E. unfold v. rewrite E; [|apply wrap_range; lia|repeat (apply Forall_app; split); done || apply Bd]. by apply swrap_wrap.
  - apply slice_mid; lia.
  - rewrite (app_assoc v). apply slice_mid; rewrite ?length_app; lia.
  - rewrite (app_assoc v), (app_assoc (v ++ _)). apply slice_mid; rewrite ?length_app; lia.
  - rewrite (app_assoc v), (app_assoc (v ++ _)), (app_assoc ((v ++ _) ++ _)).
    replace 100%nat with (length (((v ++ hashPrevBlock h) ++ hashMerkleRoot h) ++ hashFinalSaplingRoot h)) by (rewrite !length_app; lia).
    apply read_u32_le_mid; [done|]. repeat (apply Forall_app; split); done || apply Bd.
  - rewrite (app_assoc v), (app_assoc (v ++ _)), (app_assoc ((v ++ _) ++ _)), (app_assoc (((v ++ _) ++ _) ++ _)).
    replace 104%nat with (length ((((v ++ hashPrevBlock h) ++ hashMerkleRoot h) ++ hashFinalSaplingRoot h) ++ t)) by (rewrite !length_app; lia).
    by apply read_u32_le_mid.
  - rewrite !app_assoc. rewrite <- (app_nil_r (nNonce h)) at 1. apply slice_mid; rewrite ?length_app; lia.
Qed.

(** The registry unpacks exactly the bytes that were packed. *)
Lemma registry_delegates h : header_wf h ->
  registry_equihash_200_9_verify (Some (header_challenge h)) (Some (solution h)) = check_equihash_solution (Some h).
Proof.
  intros W. destruct (solution_read h W) as (Er & Hb & Hl). pose proof (wf_size h W) as Hs.
  destruct (challenge_fields h W) as (Lc & Ev & Ep & Erh & Es & Et & Eb & En).
  unfold registry_equihash_200_9_verify, check_equihash_solution. rewrite Lc, Ev, Ep, Erh, Es, Et, Eb, En. rewrite Z.eqb_refl.
  assert (len (solution h) = nSolutionSize h) as Ls by (unfold len; lia). rewrite Ls.
  rewrite (proj2 (Z.ltb_ge MAX_SOLUTION_SIZE _)) by lia. change (BLOCK_HEADER_SIZE =? 0) with false. cbn [orb]. rewrite orb_false_r.
  destruct (Z.eqb_spec (nSolutionSize h) 0) as [E0|_]; unfold domain_consensus_verify_equihash_solution; cbn [nVersion hashPrevBlock hashMerkleRoot
    hashFinalSaplingRoot nTime nBits nNonce nSolution nSolutionSize]; cbn [negb].
  - rewrite E0. done.
  - rewrite Er. assert (read_at (memcpy_at (Block.nSolution block_header_init) 0 (solution h)) 0 (Z.to_nat (nSolutionSize h)) = Some (solution h)) as ->; [|done].
    unfold memcpy_at. rewrite take_0, app_nil_l. by apply read_at_start.
Qed.

End Predicate.

(** C14: the proof-of-work predicate is Equihash. On a little-endian host with memory,
    for every well-formed header: a solution size other than the four of the consensus
    is an error; otherwise the code reads no byte outside its buffers, no assertion
    fails, and it answers [true] exactly when the indices packed in the solution solve
    the generalised birthday problem for the header's bytes: [2^K] distinct indices
    whose BLAKE2b pieces XOR to zero, every aligned block of [2^r] of them having
    [r * N/(K+1)] leading zero bits and its first half lexicographically before its
    second. Verification through the registry, which packs the header into bytes and
    back, gives the same answer. *)
Theorem equihash_predicate_spec `{Allocator} (h : block_header) :
  let host : HostOrder := little_endian_host in
  memory_ok -> header_wf h ->
  match equihash_solution_params (Z.to_nat (nSolutionSize h)) with
  | None => domain_consensus_verify_equihash_solution (Some h) true = Some (ZCL_ERR EQUIHASH_ERR_BAD_SOL_SIZE)
  | Some (N, K) =>
      exists p ok, equihash_params_init N K = Some p /\
      domain_consensus_verify_equihash_solution (Some h) true = Some (ZCL_OK (ok, false)) /\
      (ok = true <->
       equihash_valid p K (N / (K + 1)) (pow_initial p) (header_challenge h) (solution_indices K (N / (K + 1)) (solution h)))
  end /\
  registry_equihash_200_9_verify (Some (header_challenge h)) (Some (solution h)) = check_equihash_solution (Some h).
Proof.
  intros host M W. split; [|by apply registry_delegates].
  destruct (equihash_solution_params _) as [[N K]|] eqn:E; [by apply verify_equihash_run|].
  unfold domain_consensus_verify_equihash_solution. by rewrite E.
Qed.

Section PowExample.
#[local] Existing Instance little_endian_host.
#[local] Instance pow_alloc : Allocator := fun _ => true.

(** A solution for the regression-test parameters (48, 5). *)
Definition sample_solution : list Z :=
  [0; 41; 11; 178; 192; 127; 113; 217; 148; 14; 244; 108; 58; 199; 39; 45; 209; 116; 0; 182; 69; 179; 115; 190; 205; 191;
   188; 69; 213; 28; 207; 148; 124; 42; 173; 106].
Definition sample_header (bits : Z) : block_header :=
  mk_header 4 (replicate 32 0) (replicate 32 1) (replicate 32 0) 1478403829 bits (replicate 32 0)
    (sample_solution ++ replicate 1308 0) 36.

Example sample_accepted : domain_consensus_verify_equihash_solution (Some (sample_header 0x207fffff)) true = Some (ZCL_OK (true, false)).
Proof. vm_compute. reflexivity. Qed.
Example sample_refused : domain_consensus_verify_equihash_solution (Some (sample_header 0x207ffffe)) true = Some (ZCL_OK (false, false)).
Proof. vm_compute. reflexivity. Qed.

Lemma equihash_predicate_spec_witness :
  exists p, equihash_params_init 48 5 = Some p /\
    equihash_valid p 5 8 (pow_initial p) (header_challenge (sample_header 0x207fffff))
      (solution_indices 5 8 (solution (sample_header 0x207fffff))).
Proof.
  destruct (equihash_predicate_spec (sample_header 0x207fffff)) as [V _].
  - intros n. reflexivity.
  - repeat (split || apply bytes_check || done).
  - destruct V as (p & ok & Ep & Ev & Hok). exists p. split; [exact Ep|]. apply Hok.
    pose proof sample_accepted as E. rewrite Ev in E. by injection E.
Defined.
End PowExample.
