(* ===== verification/CryptoRegistry.v ===== *)
(** * The crypto scheme registry

    Model of [core/modules/crypto_registry]: the table of verifier and hash
    implementations, which constructors fill before [main] in an order the language
    does not fix and from which block validation takes its Equihash verifier. The
    slot array is a finite map from ids, a null slot being absent; a registration
    is one compare-and-exchange on a slot, so a sequence of registrations is the
    sequence of their exchanges. *)

From Stdlib Require Import String.
From stdpp Require Import base tactics list numbers option gmap sorting.
From Stdlib Require Import ZArith Lia.
From S2P Require Import Prelude Serialize ByteOrder Params Script Hash Blake2b Transaction Block Equihash.
#[local] Open Scope Z_scope.
#[local] Open Scope list_scope.

Definition CRYPTO_HASH_SHA256 : Z := 1.
Definition CRYPTO_HASH_SHA3_256 : Z := 2.
Definition CRYPTO_HASH_BLAKE2B_256 : Z := 3.
Definition CRYPTO_SIG_ECDSA_SECP256K1 : Z := 100.
Definition CRYPTO_SIG_ED25519 : Z := 101.
Definition CRYPTO_ZK_GROTH16_BLS12_381 : Z := 200.
Definition CRYPTO_PROOF_EQUIHASH_200_9 : Z := 201.
Definition CRYPTO_SCHEME_MAX : Z := 1000.

Inductive crypto_scheme_status :=
| CRYPTO_STATUS_UNREGISTERED | CRYPTO_STATUS_ACTIVE | CRYPTO_STATUS_DEPRECATED | CRYPTO_STATUS_RETIRED.
(** [CRYPTO_KIND_OTHER] is any other value of the enumeration's integer type. *)
Inductive crypto_scheme_kind := CRYPTO_KIND_HASH | CRYPTO_KIND_SIG | CRYPTO_KIND_ZK | CRYPTO_KIND_OTHER.

#[export] Instance crypto_scheme_kind_eq_dec : EqDecision crypto_scheme_kind.
Proof. solve_decision. Defined.

(** The member of the union that is set: a hash of a byte string; a signature
    verifier over key, message and signature; a proof verifier over public inputs
    and proof, whose answer carries the allocation-failure flag and is [None] on
    undefined behaviour. *)
Inductive crypto_fn :=
| FN_NULL
| FN_HASH (f : list Z -> option (list Z))
| FN_SIG (f : list Z -> list Z -> list Z -> bool)
| FN_ZK (f : option (list Z) -> option (list Z) -> option (bool * bool)).

Record crypto_scheme := mk_scheme {
  sc_id : Z; sc_kind : crypto_scheme_kind; sc_status : crypto_scheme_status;
  sc_name : option string; sc_impl : option string; sc_fn : crypto_fn }.

(** [g_schemes] and the counters, which are [size_t]. *)
Record registry := mk_registry {
  g_schemes : gmap Z crypto_scheme; g_count_total : Z; g_count_hash : Z; g_count_sig : Z; g_count_zk : Z }.
Definition empty_registry : registry := mk_registry ∅ 0 0 0 0.

Definition counter_for_kind (kind : crypto_scheme_kind) (r : registry) : option Z :=
  match kind with
  | CRYPTO_KIND_HASH => Some (g_count_hash r)
  | CRYPTO_KIND_SIG => Some (g_count_sig r)
  | CRYPTO_KIND_ZK => Some (g_count_zk r)
  | CRYPTO_KIND_OTHER => None
  end.

Definition status_is_valid (s : crypto_scheme_status) : bool :=
  match s with CRYPTO_STATUS_UNREGISTERED => false | _ => true end.
Definition scheme_id_out_of_range (scheme : crypto_scheme) : bool :=
  (sc_id scheme <=? 0) || (CRYPTO_SCHEME_MAX <=? sc_id scheme).
Definition empty_label (s : option string) : bool :=
  match s with None | Some EmptyString => true | Some _ => false end.
Definition scheme_missing_tag (scheme : crypto_scheme) : Z :=
  if empty_label (sc_name scheme) then 1 else if empty_label (sc_impl scheme) then 2 else 0.
Definition fn_is_null (f : crypto_fn) : bool := match f with FN_NULL => true | _ => false end.

(** [atomic_fetch_add] on the total and on the counter of the kind. *)
Definition count_registration (kind : crypto_scheme_kind) (r : registry) : registry :=
  let bump k c := if decide (k = kind) then u64 (c + 1) else c in
  mk_registry (g_schemes r) (u64 (g_count_total r + 1)) (bump CRYPTO_KIND_HASH (g_count_hash r))
    (bump CRYPTO_KIND_SIG (g_count_sig r)) (bump CRYPTO_KIND_ZK (g_count_zk r)).

Definition crypto_registry_register (scheme : option crypto_scheme) (r : registry) : registry * bool :=
  match scheme with
  | None => (r, false)
  | Some scheme =>
      if scheme_id_out_of_range scheme then (r, false)
      else match counter_for_kind (sc_kind scheme) r with
           | None => (r, false)
           | Some _ =>
               if negb (status_is_valid (sc_status scheme)) then (r, false)
               else if scheme_missing_tag scheme =? 1 then (r, false)
               else if scheme_missing_tag scheme =? 2 then (r, false)
               else if fn_is_null (sc_fn scheme) then (r, false)
               else
                 match g_schemes r !! sc_id scheme with
                 | Some _ => (r, false)
                 | None =>
                     (count_registration (sc_kind scheme)
                        (mk_registry (<[sc_id scheme := scheme]> (g_schemes r)) (g_count_total r) (g_count_hash r)
                           (g_count_sig r) (g_count_zk r)), true)
                 end
           end
  end.

Definition crypto_registry_lookup (id : Z) (r : registry) : option crypto_scheme :=
  if (id <=? 0) || (CRYPTO_SCHEME_MAX <=? id) then None else g_schemes r !! id.

Definition usable_status (s : crypto_scheme_status) : bool :=
  match s with CRYPTO_STATUS_ACTIVE | CRYPTO_STATUS_DEPRECATED => true | _ => false end.
Definition crypto_registry_is_usable (id : Z) (r : registry) : bool :=
  match crypto_registry_lookup id r with None => false | Some s => usable_status (sc_status s) end.

Definition crypto_registry_count (r : registry) : Z := g_count_total r.
Definition crypto_registry_count_by_kind (kind : crypto_scheme_kind) (r : registry) : Z := default 0 (counter_for_kind kind r).

(** ** The schemes of the program *)

Section Schemes.
Context `{Allocator} `{HostOrder}.

(** [None] is the result -1. *)
Definition registry_sha256 (data : list Z) : option (list Z) := Some (sha256_finalize (sha256_write (sha256_init fresh_ctx) data)).
Definition registry_blake2b_256 (data : list Z) : option (list Z) := default None (blake2b 32 data None).

Definition g_sha256_scheme : crypto_scheme :=
  mk_scheme CRYPTO_HASH_SHA256 CRYPTO_KIND_HASH CRYPTO_STATUS_ACTIVE (Some "sha256"%string)
    (Some "in-tree core/modules/crypto/src/sha256.c"%string) (FN_HASH registry_sha256).
Definition g_blake2b_scheme : crypto_scheme :=
  mk_scheme CRYPTO_HASH_BLAKE2B_256 CRYPTO_KIND_HASH CRYPTO_STATUS_ACTIVE (Some "blake2b-256"%string)
    (Some "in-tree core/modules/crypto/src/blake2b.c"%string) (FN_HASH registry_blake2b_256).
Definition g_equihash_scheme : crypto_scheme :=
  mk_scheme CRYPTO_PROOF_EQUIHASH_200_9 CRYPTO_KIND_ZK CRYPTO_STATUS_ACTIVE (Some "equihash-200-9"%string)
    (Some "sealed core/consensus/src/equihash.c (via this shim)"%string) (FN_ZK registry_equihash_200_9_verify).

End Schemes.

(** ** What the registry promises *)

(** A scheme that registration takes into a free slot. *)
Definition acceptable (s : crypto_scheme) : bool :=
  negb (scheme_id_out_of_range s) && negb (bool_decide (sc_kind s = CRYPTO_KIND_OTHER)) && status_is_valid (sc_status s) &&
  negb (empty_label (sc_name s)) && negb (empty_label (sc_impl s)) && negb (fn_is_null (sc_fn s)).

Definition register_all (l : list crypto_scheme) (r : registry) : registry :=
  foldl (fun r s => fst (crypto_registry_register (Some s) r)) r l.

(** The first acceptable scheme with an id. *)
Definition first_with (id : Z) (l : list crypto_scheme) : option crypto_scheme :=
  List.find (fun s => acceptable s && (sc_id s =? id)) l.

Definition of_kind (k : crypto_scheme_kind) (m : gmap Z crypto_scheme) : gmap Z crypto_scheme :=
  filter (fun x => sc_kind (snd x) = k) m.

(** The counters count the slots, and every slot holds a well-formed scheme. *)
Record registry_inv (r : registry) : Prop := {
  ri_slots : forall id s, g_schemes r !! id = Some s -> sc_id s = id /\ acceptable s = true;
  ri_total : g_count_total r = u64 (Z.of_nat (base.size (g_schemes r)));
  ri_kind : forall k c, counter_for_kind k r = Some c -> c = u64 (Z.of_nat (base.size (of_kind k (g_schemes r)))) }.

Lemma empty_inv : registry_inv empty_registry.
Proof.
  split; [done|done|]. intros k c. unfold of_kind. cbn [g_schemes empty_registry]. rewrite map_filter_empty, map_size_empty.
  by destruct k; intros [= <-].
Qed.

(** Registration in one equation. *)
Lemma register_unfold s r : crypto_registry_register (Some s) r =
  if acceptable s && bool_decide (g_schemes r !! sc_id s = None)
  then (count_registration (sc_kind s) (mk_registry (<[sc_id s := s]> (g_schemes r)) (g_count_total r) (g_count_hash r) (g_count_sig r) (g_count_zk r)), true)
  else (r, false).
Proof.
  unfold crypto_registry_register, acceptable, scheme_missing_tag.
  destruct (scheme_id_out_of_range s); [done|].
  destruct (sc_kind s) eqn:Ek; cbn [counter_for_kind]; rewrite ?(bool_decide_eq_true_2 _ eq_refl), ?bool_decide_eq_false_2 by done; [..|done].
  all: destruct (status_is_valid (sc_status s)), (empty_label (sc_name s)), (empty_label (sc_impl s)), (fn_is_null (sc_fn s)); try done.
  all: by destruct (g_schemes r !! sc_id s).
Qed.

Lemma wrap_succ w n : 0 <= w -> wrap w (wrap w n + 1) = wrap w (n + 1).
Proof. intros. unfold wrap. by rewrite Zplus_mod_idemp_l. Qed.

Lemma of_kind_insert k id s m : m !! id = None ->
  base.size (of_kind k (<[id := s]> m)) = (base.size (of_kind k m) + if decide (k = sc_kind s) then 1 else 0)%nat.
Proof.
  intros Hn. unfold of_kind. destruct (decide (k = sc_kind s)) as [->|Hne].
  - rewrite map_filter_insert_True by done. rewrite map_size_insert_None; [lia|]. apply map_lookup_filter_None. by left.
  - rewrite map_filter_insert_not' ; [lia| |]; cbn; [congruence|]. intros y Hy. congruence.
Qed.

Lemma register_inv s r : registry_inv r -> registry_inv (fst (crypto_registry_register (Some s) r)).
Proof.
  intros [Hs Ht Hk]. rewrite register_unfold. destruct (acceptable s) eqn:Ea; [|by split].
  destruct (decide (g_schemes r !! sc_id s = None)) as [Hn|Hn]; [rewrite bool_decide_eq_true_2 by done|by rewrite bool_decide_eq_false_2 by done; split].
  cbn [andb fst]. split.
  - intros id s' E. cbn in E. apply lookup_insert_Some in E as [[<- <-]|[_ E]]; [done|by apply Hs].
  - cbn [count_registration g_count_total g_schemes]. rewrite Ht, wrap_succ, map_size_insert_None by (done || lia). f_equal. lia.
  - intros k c E. cbn [count_registration g_schemes]. rewrite of_kind_insert by done. rewrite Nat2Z.inj_add.
    destruct k; [..|done]; cbn in E; injection E as <-.
    1: specialize (Hk CRYPTO_KIND_HASH _ eq_refl). 2: specialize (Hk CRYPTO_KIND_SIG _ eq_refl). 3: specialize (Hk CRYPTO_KIND_ZK _ eq_refl).
    all: rewrite Hk; case_decide; [rewrite wrap_succ by lia; done|by rewrite Z.add_0_r].
Qed.

Lemma register_lookup s r id : g_schemes (fst (crypto_registry_register (Some s) r)) !! id =
  match g_schemes r !! id with Some x => Some x | None => if acceptable s && (sc_id s =? id) then Some s else None end.
Proof.
  rewrite register_unfold. destruct (acceptable s); cbn [andb fst]; [|by destruct (g_schemes r !! id)].
  case_bool_decide as Hn; cbn [fst count_registration g_schemes].
  - destruct (Z.eqb_spec (sc_id s) id) as [<-|Hne]; [by rewrite lookup_insert_eq, Hn|]. rewrite lookup_insert_ne by done. by destruct (g_schemes r !! id).
  - destruct (g_schemes r !! id) eqn:E; [done|]. destruct (Z.eqb_spec (sc_id s) id) as [<-|]; done.
Qed.

Lemma register_all_lookup l r id :
  g_schemes (register_all l r) !! id = match g_schemes r !! id with Some x => Some x | None => first_with id l end.
Proof.
  unfold register_all, first_with. revert r. induction l as [|s l IH]; intros r; cbn [foldl List.find]; [by destruct (_ !! _)|].
  rewrite IH, register_lookup. destruct (g_schemes r !! id); [done|]. by destruct (acceptable s && (sc_id s =? id)).
Qed.

Lemma register_all_inv l r : registry_inv r -> registry_inv (register_all l r).
Proof. unfold register_all. revert r. induction l as [|s l IH]; intros r Hr; [done|]. by apply IH, register_inv. Qed.

Lemma acceptable_range s : acceptable s = true -> 0 < sc_id s < CRYPTO_SCHEME_MAX.
Proof.
  unfold acceptable, scheme_id_out_of_range. rewrite !andb_true_iff, negb_true_iff, orb_false_iff, Z.leb_gt, Z.leb_gt. lia.
Qed.

Lemma lookup_slots r id : registry_inv r -> crypto_registry_lookup id r = g_schemes r !! id.
Proof.
  intros Hr. unfold crypto_registry_lookup. destruct ((id <=? 0) || (CRYPTO_SCHEME_MAX <=? id)) eqn:E; [|done].
  destruct (g_schemes r !! id) as [s|] eqn:El; [|done]. destruct (ri_slots r Hr id s El) as [<- Ha]. apply acceptable_range in Ha.
  apply orb_true_iff in E. rewrite Z.leb_le, Z.leb_le in E. lia.
Qed.

(** Distinct ids: the first scheme with an id is the only one. *)
Lemma first_with_perm l l' id : l ≡ₚ l' -> NoDup (map sc_id l) -> first_with id l = first_with id l'.
Proof.
  intros Hp. unfold first_with. induction Hp as [|x l l' _ IH|x y l|l l1 l2 Hp1 IH1 Hp2 IH2]; intros Hn; [done|..].
  - cbn in *. inversion Hn; subst. by rewrite IH.
  - cbn in *. inversion Hn as [|? ? Hy Hn']; subst. destruct (acceptable y && (sc_id y =? id)) eqn:Ey, (acceptable x && (sc_id x =? id)) eqn:Ex; try done.
    apply andb_true_iff in Ex as [_ Ex], Ey as [_ Ey]. apply Z.eqb_eq in Ex, Ey. exfalso. apply Hy. rewrite Ex, Ey. apply list_elem_of_here.
  - rewrite IH1 by done. apply IH2. assert (map sc_id l ≡ₚ map sc_id l1) as E by (by apply fmap_Permutation). by rewrite <- E.
Qed.

(** The registry is a write-once table. Whatever is registered in whatever order, a
    look-up returns the first acceptable scheme that was registered under the id (or null
    if there is none, or if the id is out of range); a scheme found once is found after
    every further registration, so callers may cache it; the counters are the numbers of
    registered schemes, in all and of each kind; and registering schemes with distinct ids
    gives the same table in every order, as the constructors of a program run in none. *)
Theorem registry_spec (l l' : list crypto_scheme) :
  let r := register_all l empty_registry in
  (forall id, crypto_registry_lookup id r = first_with id l) /\
  (forall id s, crypto_registry_lookup id r = Some s -> acceptable s = true /\ sc_id s = id /\ crypto_registry_lookup id (register_all l' r) = Some s) /\
  crypto_registry_count r = u64 (Z.of_nat (base.size (g_schemes r))) /\
  (forall k, k <> CRYPTO_KIND_OTHER -> crypto_registry_count_by_kind k r = u64 (Z.of_nat (base.size (of_kind k (g_schemes r))))) /\
  (l ≡ₚ l' -> NoDup (map sc_id l) -> g_schemes (register_all l' empty_registry) = g_schemes r).
Proof.
  intros r. pose proof (register_all_inv l _ empty_inv) as Hr. fold r in Hr.
  assert (forall id, g_schemes r !! id = first_with id l) as Hl by (intros id; unfold r; by rewrite register_all_lookup).
  split; [intros id; by rewrite lookup_slots|]. split; [|split; [apply Hr|split]].
  - intros id s E. rewrite lookup_slots in E by done. destruct (ri_slots r Hr id s E) as [Hi Ha]. split_and!; [done..|].
    rewrite lookup_slots by (by apply register_all_inv). by rewrite register_all_lookup, E.
  - intros k Hk. unfold crypto_registry_count_by_kind. destruct (counter_for_kind k r) as [c|] eqn:E; [by apply (ri_kind r Hr)|by destruct k].
  - intros Hp Hn. apply map_eq. intros id. rewrite Hl, register_all_lookup. cbn. symmetry. by apply first_with_perm.
Qed.

Section Witness.
#[local] Instance registry_alloc : Allocator := fun _ => true.
#[local] Instance registry_host : HostOrder := false.

(** The three schemes registered backwards; a second Equihash scheme is refused. *)
Lemma registry_spec_witness :
  g_schemes (register_all [g_equihash_scheme; g_blake2b_scheme; g_sha256_scheme] empty_registry) =
  g_schemes (register_all [g_sha256_scheme; g_blake2b_scheme; g_equihash_scheme] empty_registry).
Proof.
  apply (registry_spec [g_sha256_scheme; g_blake2b_scheme; g_equihash_scheme] [g_equihash_scheme; g_blake2b_scheme; g_sha256_scheme]).
  - assert (forall (a b c : crypto_scheme), [a; b; c] ≡ₚ [c; b; a]) as Hp by (intros; solve_Permutation). apply Hp.
  - change (NoDup [1; 3; 201]). by apply (bool_decide_eq_true_1 (NoDup [1; 3; 201])).
Defined.
End Witness.
