(* ===== verification/CheckBlock.v ===== *)
(** * Block checks

    Model of [core/consensus/src/check_block.c], of the body part of
    [check_block_impl] and the coinbase-height rule in
    [core/modules/validation/src/check_block.c], of
    [core/modules/validation/src/check_transaction.c], and of the
    [validation_state] they report through
    ([core/params/include/consensus/validation.h]). *)

From Stdlib Require Import String.
From stdpp Require Import base tactics list numbers option.
From Stdlib Require Import ZArith Lia.
From S2P Require Import Prelude Serialize ByteOrder Params Script Hash OversizeTable Transaction.
From S2P Require Import Merkle TxCheck TxContext Block.
#[local] Open Scope Z_scope.
#[local] Open Scope list_scope.
#[local] Open Scope check_scope.

(** ** Validation state *)

Inductive validation_mode := MODE_VALID | MODE_INVALID | MODE_ERROR.

Definition REJECT_INVALID : Z := 0x10.
Definition REJECT_OBSOLETE : Z := 0x11.
Definition REJECT_CHECKPOINT : Z := 0x43.
Definition MAX_REJECT_REASON : nat := 256.

(** The debug message, which every caller leaves empty, is omitted. *)
Record validation_state := mk_state {
  mode : validation_mode; st_dos : Z; st_reason : string; reject_code : Z; corruption_possible : bool }.

Definition validation_state_init : validation_state := mk_state MODE_VALID 0 EmptyString 0 false.

(** [strncpy] into the fixed buffer. *)
Definition copy_reason (reason : string) : string := substring 0 (MAX_REJECT_REASON - 1) reason.

(** Returns the state and [ret]; [None] is the signed overflow of the score. *)
Definition validation_state_dos (s : validation_state) (level : Z) (ret : bool) (code : Z) (reason : string)
    (corruption : bool) : option (validation_state * bool) :=
  match mode s with
  | MODE_ERROR => Some (mk_state MODE_ERROR (st_dos s) (copy_reason reason) code corruption, ret)
  | _ => let? d := s32 (st_dos s + level) in
         Some (mk_state MODE_INVALID d (copy_reason reason) code corruption, ret)
  end.

Definition validation_state_invalid (s : validation_state) (ret : bool) (code : Z) (reason : string) :
    option (validation_state * bool) :=
  validation_state_dos s 0 ret code reason false.

Definition validation_state_error (s : validation_state) (reason : string) : validation_state * bool :=
  (mk_state MODE_ERROR (st_dos s)
     (match mode s with MODE_VALID => copy_reason reason | _ => st_reason s end)
     (reject_code s) (corruption_possible s), false).

(** A check that may reject through the state: [false] ends the caller. *)
Definition vcheck : Type := validation_state -> option (validation_state * bool).
Definition vpass : vcheck := fun s => Some (s, true).
Definition vand (m k : vcheck) : vcheck := fun s =>
  let? r := m s in let '(s, ok) := r in if ok then k s else Some (s, false).
Fixpoint vall {A} (f : A -> vcheck) (l : list A) : vcheck :=
  match l with [] => vpass | x :: l => vand (f x) (vall f l) end.

(** [REJECT_IF(true, ...)], [REJECT_CORRUPT_IF(true, ...)], [REJECT_FATAL(...)]. *)
Definition reject (dos : Z) (reason : string) (corruption : bool) : vcheck :=
  fun s => validation_state_dos s dos false REJECT_INVALID reason corruption.
Definition reject_fatal (reason : string) : vcheck := fun s => Some (validation_state_error s reason).

(** ** Pure block checks *)

(** The codes of [domain_consensus_check_block_err]. *)
Inductive check_block_err :=
| CHECK_BLOCK_ERR_NULL_ARG | CHECK_BLOCK_ERR_BAD_BLK_LENGTH | CHECK_BLOCK_ERR_BAD_CB_MISSING
| CHECK_BLOCK_ERR_BAD_CB_MULTIPLE | CHECK_BLOCK_ERR_BAD_TXNMRKLROOT | CHECK_BLOCK_ERR_BAD_TXNS_DUP
| CHECK_BLOCK_ERR_BAD_BLK_SIGOPS | CHECK_BLOCK_ERR_OUT_OF_MEMORY.

Definition DOMAIN_GENEROUS_BLOCK_TXN_LIMIT : Z := 2000000.
Definition DOMAIN_MAX_BLOCK_SIGOPS : Z := 20000.
Definition DOMAIN_CONSENSUS_SIGOP_COUNT_FLAGS : Z := SCRIPT_VERIFY_CHECKDATASIG_SIGOPS.

Section Checks.
Context `{Allocator} `{HostOrder}.

(** A null block leaves the reason and the score as the caller set them, which is
    empty and zero. *)
Definition domain_consensus_check_block_merkle_root (blk : option block) : check check_block_err :=
  match blk with
  | None => check_fail CHECK_BLOCK_ERR_NULL_ARG EmptyString 0
  | Some b =>
      fail_when (0 <? len (vtx b)) && negb (alloc_ok (len (vtx b) * 32))
        with CHECK_BLOCK_ERR_OUT_OF_MEMORY, "out-of-memory", 0;;
      let? r := merkle_root_mutated_in_place (map tx_hash (vtx b)) in
      let '(merkle_root, mutated) := r in
      fail_when negb (uint256_eq (hashMerkleRoot (header b)) merkle_root)
        with CHECK_BLOCK_ERR_BAD_TXNMRKLROOT, "bad-txnmrklroot", 100;;
      fail_when mutated with CHECK_BLOCK_ERR_BAD_TXNS_DUP, "bad-txns-duplicate", 100;;
      check_ok
  end.

Definition domain_consensus_check_block_size_and_coinbase (blk : option block) : check check_block_err :=
  match blk with
  | None => check_fail CHECK_BLOCK_ERR_NULL_ARG EmptyString 0
  | Some b =>
      match vtx b with
      | [] => check_fail CHECK_BLOCK_ERR_BAD_BLK_LENGTH "bad-blk-length" 100
      | cb :: rest =>
          fail_when DOMAIN_GENEROUS_BLOCK_TXN_LIMIT <? len (vtx b)
            with CHECK_BLOCK_ERR_BAD_BLK_LENGTH, "bad-blk-length", 100;;
          fail_when negb (transaction_is_coinbase cb)
            with CHECK_BLOCK_ERR_BAD_CB_MISSING, "bad-cb-missing", 100;;
          fail_when existsb transaction_is_coinbase rest
            with CHECK_BLOCK_ERR_BAD_CB_MULTIPLE, "bad-cb-multiple", 100;;
          check_ok
      end
  end.

(** [n_sig_ops += (unsigned int)tx_sig_ops] in 32 bits; a failed count adds
    nothing. *)
Fixpoint sig_ops_loop (n_sig_ops : Z) (l : list transaction) : option Z :=
  match l with
  | [] => Some n_sig_ops
  | tx :: l =>
      let? r := domain_consensus_tx_legacy_sig_op_count (Some tx) DOMAIN_CONSENSUS_SIGOP_COUNT_FLAGS true in
      match r with
      | ZCL_OK c => sig_ops_loop (u32 (n_sig_ops + u32 c)) l
      | ZCL_ERR _ => sig_ops_loop n_sig_ops l
      end
  end.

Definition domain_consensus_check_block_sigops (blk : option block) : check check_block_err :=
  match blk with
  | None => check_fail CHECK_BLOCK_ERR_NULL_ARG EmptyString 0
  | Some b =>
      let? n_sig_ops := sig_ops_loop 0 (vtx b) in
      fail_when DOMAIN_MAX_BLOCK_SIGOPS <? n_sig_ops with CHECK_BLOCK_ERR_BAD_BLK_SIGOPS, "bad-blk-sigops", 100;;
      check_ok
  end.

(** ** The wrappers *)

(** [check_transaction_ctx]; the metrics and events it also emits are not
    modelled. *)
Definition check_transaction_ctx (tx : transaction) (ctx : domain_tx_check_context) : vcheck := fun s =>
  let? r := domain_consensus_check_transaction_structural (Some tx) ctx in
  match r with
  | ZCL_OK _ => Some (s, true)
  | ZCL_ERR f => reject (dos f) (reject_reason f) false s
  end.
Definition check_transaction (tx : transaction) : vcheck := check_transaction_ctx tx DOMAIN_TX_CTX_STANDALONE.
Definition check_transaction_in_block (tx : transaction) : vcheck := check_transaction_ctx tx DOMAIN_TX_CTX_BLOCK.

(** A domain check reported through the state. *)
Definition report {E} (r : check E) (fatal : E -> bool) (corruption : bool) : vcheck := fun s =>
  let? res := r in
  match res with
  | ZCL_OK _ => Some (s, true)
  | ZCL_ERR f => if fatal (code f) then reject_fatal "out-of-memory" s
                 else reject (dos f) (reject_reason f) corruption s
  end.

Definition is_out_of_memory (e : check_block_err) : bool :=
  match e with CHECK_BLOCK_ERR_OUT_OF_MEMORY => true | _ => false end.

(** [check_block_impl] after the header check. *)
Definition check_block_body (b : block) (check_merkle_root check_size_limits : bool) : vcheck :=
  vand
    (if check_merkle_root
     then report (domain_consensus_check_block_merkle_root (Some b)) is_out_of_memory true
     else vpass)
    (if check_size_limits then
       vand (report (domain_consensus_check_block_size_and_coinbase (Some b)) (fun _ => false) false)
         (vand (vall check_transaction_in_block (vtx b))
            (report (domain_consensus_check_block_sigops (Some b)) (fun _ => false) true))
     else vpass).

End Checks.

(** ** The coinbase height *)

(** [while (h > 0)]: the magnitude of a non-negative [int], little-endian. *)
Fixpoint height_bytes (fuel : nat) (h : Z) : list Z :=
  match fuel with
  | O => []
  | S fuel => if 0 <? h then (h .& 0xff) :: height_bytes fuel (h >> 8) else []
  end.
Definition height_num (h : Z) : list Z :=
  let num := height_bytes 4 h in
  if (0 <? len num) && negb (last num 0 .& 0x80 =? 0) then num ++ [0] else num.

(** [data[0]] of an empty script is not read: an empty script is refused first. *)
Definition bip34_check_coinbase_height (coinbase : transaction) (nHeight : Z) : bool :=
  match vin coinbase with
  | [] => false
  | i :: _ =>
      let sig := script_sig i in
      if nHeight <=? 0 then true
      else if script_size sig =? 0 then false
      else if (1 <=? nHeight) && (nHeight <=? 16) && (sdata sig 0 =? 0x50 + nHeight) then true
      else
        let num := height_num nHeight in
        let expect := len num :: num in
        if script_size sig <? len expect then false
        else memcmp (take (length expect) sig) expect =? 0
  end.

Definition check_block_coinbase_height_matches (coinbase : option transaction) (nHeight : Z) : bool :=
  match coinbase with None => true | Some cb => bip34_check_coinbase_height cb nHeight end.

(** ** What an accepted block body satisfies *)

(** [judges m P]: started on a valid state without score, [m] is defined; it
    leaves the state alone and passes when [P] holds, and otherwise marks the
    state invalid with a score of at most 100. *)
Definition judges (m : vcheck) (P : Prop) : Prop :=
  forall s, mode s = MODE_VALID -> st_dos s = 0 ->
  (m s = Some (s, true) /\ P) \/
  ((exists s', m s = Some (s', false) /\ mode s' = MODE_INVALID /\ 0 <= st_dos s' <= 100) /\ ~ P).

Lemma judges_iff m P Q : judges m P -> (P <-> Q) -> judges m Q.
Proof. intros Hm E s Hs Hd. destruct (Hm s Hs Hd) as [[? ?]|[? ?]]; [left|right]; tauto. Qed.

#[export] Instance judges_proper : Proper (eq ==> iff ==> iff) judges.
Proof. intros m ? <- P Q E. split; intros Hm; [|symmetry in E]; by eapply judges_iff. Qed.

Lemma judges_pass : judges vpass True.
Proof. intros s _ _. by left. Qed.

Lemma judges_and m k P Q : judges m P -> (P -> judges k Q) -> judges (vand m k) (P /\ Q).
Proof.
  intros Hm Hk s Hs Hd. unfold vand. destruct (Hm s Hs Hd) as [[-> HP]|[(s' & -> & ?) HP]].
  - destruct (Hk HP s Hs Hd) as [[-> ?]|[? ?]]; [left|right]; tauto.
  - right. split; [by exists s'|tauto].
Qed.

Lemma judges_all {A} (f : A -> vcheck) (P : A -> Prop) l :
  Forall (fun x => judges (f x) (P x)) l -> judges (vall f l) (Forall P l).
Proof.
  induction 1 as [|x l Hx _ IH]; cbn [vall].
  - eapply judges_iff; [apply judges_pass|]. by split.
  - eapply judges_iff; [by apply judges_and; [exact Hx|intros _; exact IH]|]. by rewrite Forall_cons_iff.
Qed.

(** Scores a state can absorb. *)
Definition scored {E} (r : check E) : Prop := forall f, r = Some (ZCL_ERR f) -> 0 <= dos f <= 100.

Lemma scored_ok {E} : scored (@check_ok E).
Proof. intros f [=]. Qed.
Lemma scored_fail {E} (e : E) reason d : 0 <= d <= 100 -> scored (check_fail e reason d).
Proof. by intros Hd f [= <-]. Qed.
Lemma scored_if {E} (b : bool) (r k : check E) : scored r -> scored k -> scored (if b then r else k).
Proof. by destruct b. Qed.
Lemma scored_let {A E} (m : option A) (k : A -> check E) : (forall a, scored (k a)) -> scored (let? x := m in k x).
Proof. intros Hk. destruct m; [apply Hk|]. intros f [=]. Qed.

(** Walk down a chain of checks. *)
Ltac scored :=
  repeat match goal with
  | |- scored check_ok => apply scored_ok
  | |- scored (check_fail _ _ _) => apply scored_fail; lia
  | |- scored (if _ then _ else _) => apply scored_if
  | |- scored (let? x := _ in _) => apply scored_let; intros ?
  end.

Section Scores.
Context `{Allocator} `{HostOrder}.

Lemma scored_coinbase tx : scored (tx_structural_check_coinbase_restrictions tx).
Proof. unfold tx_structural_check_coinbase_restrictions. scored. destruct (vin tx); [intros f [=]|scored]. Qed.
Lemma scored_duplicates tx : scored (tx_structural_check_duplicate_inputs_and_js_nullifiers tx).
Proof.
  unfold tx_structural_check_duplicate_inputs_and_js_nullifiers, tx_structural_check_duplicate_spend_nullifiers.
  scored. apply scored_coinbase.
Qed.
Lemma scored_inputs v js k : (forall v, scored (k v)) -> scored (input_loop v js k).
Proof. intros Hk. revert v. induction js as [|jsd js IH]; intros v; cbn [input_loop]; [done|]. scored. done. Qed.
Lemma scored_joinsplits v js k : scored k -> scored (joinsplit_loop v js k).
Proof. intros Hk. revert v. induction js as [|jsd js IH]; intros v; cbn [joinsplit_loop]; [done|]. scored. done. Qed.
Lemma scored_vout v l k : (forall v, scored (k v)) -> scored (vout_loop v l k).
Proof. intros Hk. revert v. induction l as [|o l IH]; intros v; cbn [vout_loop]; [done|]. scored. done. Qed.

Lemma scored_values tx : scored (tx_structural_check_vout_values tx).
Proof.
  apply scored_vout. intros v. unfold tx_structural_check_value_balance, tx_structural_check_joinsplit_values,
    tx_structural_check_input_totals. scored.
  all: apply scored_joinsplits, scored_inputs; intros; scored; apply scored_duplicates.
Qed.

Lemma scored_structural tx ctx : scored (domain_consensus_check_transaction_structural (Some tx) ctx).
Proof.
  cbn [domain_consensus_check_transaction_structural]. unfold tx_structural_check_versions,
    tx_structural_check_input_output_presence, tx_structural_check_serialized_size.
  cbn zeta. scored; apply scored_values.
Qed.

Lemma judges_report {E} (r : check E) fatal corruption P :
  decides r P -> scored r -> (forall f, r = Some (ZCL_ERR f) -> fatal (code f) = false) ->
  judges (report r fatal corruption) P.
Proof.
  intros Hr Hs Hf s Hm Hd. unfold report. destruct Hr as [[-> HP]|[[f Ef] HP]]; [by left|].
  right. split; [|done]. rewrite Ef, (Hf f Ef). specialize (Hs f Ef). unfold reject, validation_state_dos. rewrite Hm, Hd.
  rewrite s32_ok by lia. eexists. split; [done|]. cbn. split; [done|lia].
Qed.

Definition block_ids (b : block) : list uint256 := map tx_hash (vtx b).

(** The first transaction is a coinbase, and no other is. *)
Definition coinbase_first (l : list transaction) : Prop :=
  exists cb rest, l = cb :: rest /\ transaction_is_coinbase cb = true /\
    Forall (fun tx => transaction_is_coinbase tx = false) rest.

Record block_body_valid (b : block) : Prop := {
  bv_root : hashMerkleRoot (header b) = merkle_root (block_ids b);
  bv_unmutated : muts (block_ids b) (depth (block_ids b)) = false;
  bv_coinbase : coinbase_first (vtx b);
  bv_count : len (vtx b) <= DOMAIN_GENEROUS_BLOCK_TXN_LIMIT;
  bv_transactions : Forall (structurally_valid DOMAIN_TX_CTX_BLOCK) (vtx b);
  bv_sigops : sum_list (map (tx_sig_ops DOMAIN_CONSENSUS_SIGOP_COUNT_FLAGS) (vtx b)) <= DOMAIN_MAX_BLOCK_SIGOPS;
}.

Context (M : memory_ok) (b : block) (W : block_wf b).

Lemma merkle_root_decides :
  decides (domain_consensus_check_block_merkle_root (Some b))
    (hashMerkleRoot (header b) = merkle_root (block_ids b) /\
     muts (block_ids b) (depth (block_ids b)) = false /\ True).
Proof.
  unfold domain_consensus_check_block_merkle_root. rewrite (M _), andb_false_r. fold (block_ids b).
  rewrite merkle_root_value. cbn iota beta zeta. destruct W as [Wh [_ Wt]].
  apply decides_fail; [|intros _; apply decides_fail; [done|intros _; apply decides_ok]].
  rewrite negb_false_iff. apply uint256_eq_true. rewrite merkle_root_length.
  - destruct (wf_root _ Wh) as [_ Hl]. unfold len in Hl. lia.
  - apply Forall_map. eapply Forall_impl; [|exact Wt]. intros tx [_ E]. cbn. rewrite E. apply hash256_length.
Qed.

Lemma existsb_false {A} (p : A -> bool) l : existsb p l = false <-> Forall (fun x => p x = false) l.
Proof.
  induction l as [|x l IH]; cbn [existsb]; [split; [constructor|done]|]. by rewrite orb_false_iff, Forall_cons_iff, IH.
Qed.

Lemma size_and_coinbase_decides :
  decides (domain_consensus_check_block_size_and_coinbase (Some b))
    (len (vtx b) <= DOMAIN_GENEROUS_BLOCK_TXN_LIMIT /\ coinbase_first (vtx b)).
Proof.
  unfold domain_consensus_check_block_size_and_coinbase, coinbase_first. destruct (vtx b) as [|cb rest] eqn:V.
  { right. split; [by eexists|]. by intros (_ & ? & ? & ? & _). }
  apply decides_fail; [apply Z.ltb_ge|intros _].
  eapply decides_iff.
  - eapply (decides_fail _ _ _ _ _ _ (transaction_is_coinbase cb = true)); [apply negb_false_iff|intros _].
    apply decides_fail; [apply existsb_false|intros _; apply decides_ok].
  - split; [intros (? & ? & _); by exists cb, rest|]. by intros (? & ? & [= <- <-] & ? & ?).
Qed.

Lemma sig_ops_loop_spec n l :
  Forall tx_wf l -> 0 <= n -> n + 20 * sum_list (map (fun tx => len (tx_enc tx)) l) < 2 ^ 32 ->
  sig_ops_loop n l = Some (n + sum_list (map (tx_sig_ops DOMAIN_CONSENSUS_SIGOP_COUNT_FLAGS) l)).
Proof.
  intros Hl. revert n. induction Hl as [|tx l Wx Hl IH]; intros n Hn Hm; cbn [sig_ops_loop map sum_list] in *.
  { by rewrite Z.add_0_r. }
  destruct (legacy_count_spec tx DOMAIN_CONSENSUS_SIGOP_COUNT_FLAGS Wx) as [-> Hc].
  assert (0 <= sum_list (map (fun tx => len (tx_enc tx)) l)).
  { apply sum_list_nonneg, Forall_map, Forall_forall. intros x _. apply (len_nonneg (A:=Z)). }
  rewrite (wrap_id 32 (tx_sig_ops _ tx)) by (unfold in_u; lia). rewrite wrap_id by (unfold in_u; lia).
  rewrite IH by lia. f_equal. lia.
Qed.

(** The part of the wire format the transactions take. *)
Lemma transactions_in_block : sum_list (map (fun tx => len (tx_enc tx)) (vtx b)) <= len (block_enc b).
Proof.
  unfold block_enc, vec_enc. rewrite !len_app. pose proof (len_nonneg (block_header_enc (header b))).
  pose proof (len_nonneg (compact_size_enc (len (vtx b)))).
  etrans; [apply (len_concat_map tx_enc (fun tx => len (tx_enc tx))); done|]. lia.
Qed.

Lemma sigops_decides : 20 * len (block_enc b) < 2 ^ 32 ->
  decides (domain_consensus_check_block_sigops (Some b))
    (sum_list (map (tx_sig_ops DOMAIN_CONSENSUS_SIGOP_COUNT_FLAGS) (vtx b)) <= DOMAIN_MAX_BLOCK_SIGOPS /\ True).
Proof.
  intros Hl. unfold domain_consensus_check_block_sigops. pose proof transactions_in_block.
  rewrite sig_ops_loop_spec; [|eapply Forall_impl; [|exact (proj2 (proj2 W))]; by intros ? []|lia|lia].
  apply decides_fail; [apply Z.ltb_ge|intros _; apply decides_ok].
Qed.

Lemma transactions_judged :
  judges (vall check_transaction_in_block (vtx b)) (Forall (structurally_valid DOMAIN_TX_CTX_BLOCK) (vtx b)).
Proof.
  apply judges_all. eapply Forall_impl; [|exact (proj2 (proj2 W))]. intros tx [Wx _].
  intros s. exact (judges_report _ (fun _ => false) false _ (structural_decides tx Wx M DOMAIN_TX_CTX_BLOCK)
    (scored_structural tx _) (fun _ _ => eq_refl) s).
Qed.

Lemma body_judged : 20 * len (block_enc b) < 2 ^ 32 ->
  judges (check_block_body b true true) (block_body_valid b).
Proof.
  intros Hl. unfold check_block_body. eapply judges_iff.
  - apply judges_and; [apply judges_report; [apply merkle_root_decides| |]|intros _].
    + unfold domain_consensus_check_block_merkle_root. scored. destruct a. scored.
    + intros f. unfold domain_consensus_check_block_merkle_root. rewrite (M _), andb_false_r, merkle_root_value.
      cbn iota beta. destruct (negb _); [by intros [= <-]|]. destruct (muts _ _); [by intros [= <-]|intros [=]].
    + apply judges_and; [apply judges_report; [apply size_and_coinbase_decides| |done]|intros _].
      * unfold domain_consensus_check_block_size_and_coinbase. destruct (vtx b); scored.
      * apply judges_and; [exact transactions_judged|intros _].
        apply judges_report; [by apply sigops_decides| |done].
        unfold domain_consensus_check_block_sigops. scored.
  - split; [intros ((? & ? & _) & (? & ?) & ? & ? & _); by split|]. intros []. by split_and!.
Qed.

End Scores.

Section BodyWitness.
#[local] Instance body_alloc : Allocator := fun _ => true.
#[local] Instance body_host : HostOrder := false.

Definition sample_coinbase : transaction :=
  mk_tx false 1 0 [mk_tx_in outpoint_set_null [0x51; 0x00] UINT32_MAX] [mk_tx_out 1250000000 [0x51]] 0 0 0 [] [] []
    uint256_set_null (replicate 64 0) (replicate 64 0) uint256_set_null.
Lemma sample_coinbase_wf : tx_wf sample_coinbase.
Proof. split; try done; try (split; [by vm_compute|]); repeat constructor; vm_compute; congruence. Qed.

End BodyWitness.
