(* ===== verification/Coinbase.v ===== *)
(** * The coinbase transaction

    Model of [core/consensus/src/coinbase.c] and of the steps of
    [create_new_block_locked] ([core/modules/mining/src/miner.c]) that finish the
    coinbase it builds. *)

From Stdlib Require Import String.
From stdpp Require Import base tactics list numbers option.
From Stdlib Require Import ZArith Lia.
From S2P Require Import Prelude Serialize ByteOrder Params Script Hash OversizeTable Transaction.
From S2P Require Import Merkle TxCheck TxContext Block CheckBlock.
#[local] Open Scope Z_scope.
#[local] Open Scope list_scope.

Inductive coinbase_err :=
| DOMAIN_CONSENSUS_COINBASE_ERR_NULL_OUT | DOMAIN_CONSENSUS_COINBASE_ERR_NULL_PARAMS
| DOMAIN_CONSENSUS_COINBASE_ERR_NULL_SCRIPT | DOMAIN_CONSENSUS_COINBASE_ERR_NEG_HEIGHT
| DOMAIN_CONSENSUS_COINBASE_ERR_HEIGHT_RANGE | DOMAIN_CONSENSUS_COINBASE_ERR_NEG_FEES
| DOMAIN_CONSENSUS_COINBASE_ERR_NEG_SUBSIDY | DOMAIN_CONSENSUS_COINBASE_ERR_NOT_PREALLOC.

Definition DCB_HEIGHT_MAX : Z := 0x00FFFFFF.

(** [while (v)] on 32 bits: at most four turns. *)
Fixpoint scriptnum_loop (fuel : nat) (v : Z) : list Z :=
  match fuel with
  | O => []
  | S fuel => if v =? 0 then [] else u8 (v .& 0xff) :: scriptnum_loop fuel (v >> 8)
  end.

Definition dcb_scriptnum_serialize (value : Z) : list Z :=
  let buf := scriptnum_loop 4 value in
  if (0 <? len buf) && negb (List.last buf 0 .& 0x80 =? 0) then buf ++ [0x00] else buf.

(** The pushes append at offset [off] of [out->data]; [out] is the script so far. *)
Definition dcb_push_height (out : script) (n_height : Z) : script :=
  if n_height =? 0 then out ++ [0x00]
  else if (1 <=? n_height) && (n_height <=? 16) then out ++ [u8 (0x50 + n_height)]
  else let buf := dcb_scriptnum_serialize (u32 n_height) in out ++ u8 (len buf) :: buf.

Definition dcb_push_scriptnum (out : script) (value : Z) : script :=
  let buf := dcb_scriptnum_serialize value in out ++ u8 (len buf) :: buf.

(** [out] says whether the target script is not null; the result is its new
    content, whose size fits the [uint16_t] of [struct script]. *)
Definition domain_consensus_coinbase_script_sig_placeholder (n_height : Z) (out : bool) :
    zcl_result coinbase_err script :=
  reject_if (negb out) as DOMAIN_CONSENSUS_COINBASE_ERR_NULL_OUT ;;
  reject_if (n_height <? 0) as DOMAIN_CONSENSUS_COINBASE_ERR_NEG_HEIGHT ;;
  reject_if (DCB_HEIGHT_MAX <? n_height) as DOMAIN_CONSENSUS_COINBASE_ERR_HEIGHT_RANGE ;;
  ZCL_OK (dcb_push_height [] n_height ++ [OP_0]).

Definition domain_consensus_coinbase_script_sig_with_extra_nonce (n_height extra_nonce : Z) (out : bool) :
    zcl_result coinbase_err script :=
  reject_if (negb out) as DOMAIN_CONSENSUS_COINBASE_ERR_NULL_OUT ;;
  reject_if (n_height <? 0) as DOMAIN_CONSENSUS_COINBASE_ERR_NEG_HEIGHT ;;
  reject_if (DCB_HEIGHT_MAX <? n_height) as DOMAIN_CONSENSUS_COINBASE_ERR_HEIGHT_RANGE ;;
  ZCL_OK (dcb_push_scriptnum (dcb_push_height [] n_height) extra_nonce).

Record coinbase_inputs := {
  n_height : Z; subsidy : Z; total_fees : Z; miner_script : option script; params : option consensus_params }.

Definition dcb_build_reject_bad_inputs (inputs : option coinbase_inputs) (out_tx : option transaction) :
    zcl_result coinbase_err unit :=
  match out_tx, inputs with
  | None, _ => ZCL_ERR DOMAIN_CONSENSUS_COINBASE_ERR_NULL_OUT
  | _, None => ZCL_ERR DOMAIN_CONSENSUS_COINBASE_ERR_NULL_PARAMS
  | Some _, Some i =>
      match params i, miner_script i with
      | None, _ => ZCL_ERR DOMAIN_CONSENSUS_COINBASE_ERR_NULL_PARAMS
      | _, None => ZCL_ERR DOMAIN_CONSENSUS_COINBASE_ERR_NULL_SCRIPT
      | Some _, Some _ =>
          reject_if (n_height i <? 0) as DOMAIN_CONSENSUS_COINBASE_ERR_NEG_HEIGHT ;;
          reject_if (DCB_HEIGHT_MAX <? n_height i) as DOMAIN_CONSENSUS_COINBASE_ERR_HEIGHT_RANGE ;;
          reject_if (total_fees i <? 0) as DOMAIN_CONSENSUS_COINBASE_ERR_NEG_FEES ;;
          reject_if (subsidy i <? 0) as DOMAIN_CONSENSUS_COINBASE_ERR_NEG_SUBSIDY ;;
          ZCL_OK tt
      end
  end.

Section Build.
Context `{Allocator} `{HostOrder}.

(** [version] and [version_group_id] per epoch. *)
Definition epoch_version (tx : transaction) (sapling overwinter : bool) : Z * Z :=
  if sapling then (SAPLING_TX_VERSION, SAPLING_VERSION_GROUP_ID)
  else if overwinter then (OVERWINTER_TX_VERSION, OVERWINTER_VERSION_GROUP_ID)
  else (version tx, version_group_id tx).

(** [None]: the overflow of [subsidy + total_fees] or a failed assertion. *)
Definition domain_consensus_coinbase_build (inputs : option coinbase_inputs) (out_tx : option transaction) :
    option (zcl_result coinbase_err transaction) :=
  match dcb_build_reject_bad_inputs inputs out_tx, inputs, out_tx with
  | ZCL_ERR e, _, _ => Some (ZCL_ERR e)
  | ZCL_OK _, Some i, Some tx =>
      match vin tx, vout tx with
      | [vin0], [vout0] =>
          match domain_consensus_coinbase_script_sig_placeholder (n_height i) true with
          | ZCL_ERR e => Some (ZCL_ERR e)
          | ZCL_OK sig =>
              let vin0 := mk_tx_in (mk_outpoint uint256_set_null 0xffffffff) sig (sequence vin0) in
              let? value := s64 (subsidy i + total_fees i) in
              let? script := miner_script i in
              let? p := params i in
              let vout0 := mk_tx_out value script in
              let? sapling := consensus_network_upgrade_active p (n_height i) UPGRADE_SAPLING in
              let? overwinter :=
                if sapling then Some false
                else consensus_network_upgrade_active p (n_height i) UPGRADE_OVERWINTER in
              let '(v, g) := epoch_version tx sapling overwinter in
              Some (ZCL_OK (transaction_compute_hash
                (mk_tx (overwintered tx) v g [vin0] [vout0] (lock_time tx) 0 (value_balance tx)
                   (v_shielded_spend tx) (v_shielded_output tx) (v_joinsplit tx) (joinsplit_pubkey tx)
                   (joinsplit_sig tx) (binding_sig tx) (tx_hash tx))))
          end
      | _, _ => Some (ZCL_ERR DOMAIN_CONSENSUS_COINBASE_ERR_NOT_PREALLOC)
      end
  | _, _, _ => None
  end.

(** The miner allocates one input and one output, builds, and then sets the flag
    the builder leaves alone; the transaction hash is not computed again. *)
Definition miner_fresh_coinbase : option transaction :=
  match transaction_alloc 1 1 with
  | Some (vin, vout) =>
      Some (mk_tx false 1 0 vin vout 0 0 0 [] [] [] uint256_set_null (replicate 64 0) (replicate 64 0) uint256_set_null)
  | None => None
  end.
Definition miner_set_overwintered (tx : transaction) : transaction :=
  mk_tx (if version_group_id tx =? 0 then overwintered tx else true) (version tx) (version_group_id tx) (vin tx)
    (vout tx) (lock_time tx) (expiry_height tx) (value_balance tx) (v_shielded_spend tx) (v_shielded_output tx)
    (v_joinsplit tx) (joinsplit_pubkey tx) (joinsplit_sig tx) (binding_sig tx) (tx_hash tx).

End Build.

(** ** The height in the coinbase script *)

Lemma height_bytes_val fuel h : 0 <= h < 2 ^ (8 * Z.of_nat fuel) -> 
  digits_val 8 (height_bytes fuel h) = h /\ bytes (height_bytes fuel h) /\ (length (height_bytes fuel h) <= fuel)%nat.
Proof.
  revert h. induction fuel as [|fuel IH]; intros h Hh; cbn [height_bytes].
  { assert (h = 0) as -> by (change (2 ^ (8 * Z.of_nat 0)) with 1 in Hh; lia). split; [done|split; [constructor|done]]. }
  destruct (Z.ltb_spec 0 h); [|assert (h = 0) as -> by lia; split; [done|split; [constructor|cbn; lia]]].
  rewrite Z.shiftr_div_pow2 by lia. change 0xff with (Z.ones 8). rewrite Z.land_ones by lia.
  rewrite Nat2Z.inj_succ, <- Z.add_1_r, Z.mul_add_distr_l, Z.pow_add_r in Hh by lia.
  pose proof (pow2_pos (8 * Z.of_nat fuel) ltac:(lia)).
  destruct (IH (h / 2 ^ 8)) as (E & B & L).
  { split; [apply Z.div_pos; lia|]. apply Z.div_lt_upper_bound; lia. }
  cbn [digits_val length]. rewrite E. split; [|split; [constructor; [by apply wrap_range|done]|lia]].
  pose proof (Z.div_mod h (2 ^ 8) ltac:(lia)). lia.
Qed.

Lemma height_num_val h : 0 <= h < 2 ^ 32 ->
  digits_val 8 (height_num h) = h /\ bytes (height_num h) /\ len (height_num h) <= 5.
Proof.
  intros Hh. destruct (height_bytes_val 4 h) as (E & B & L); [exact Hh|]. unfold height_num, len in *. cbn zeta.
  destruct (_ && _); [|split_and!; done || lia]. rewrite digits_val_app, E, length_app by done.
  cbn [digits_val length]. split_and!; [lia|apply digits_app; [done|repeat constructor; done]|lia].
Qed.

Lemma scriptnum_loop_height fuel v : 0 <= v -> scriptnum_loop fuel v = height_bytes fuel v.
Proof.
  revert v. induction fuel as [|fuel IH]; intros v Hv; cbn [scriptnum_loop height_bytes]; [done|].
  destruct (Z.eqb_spec v 0) as [->|]; [done|]. rewrite (proj2 (Z.ltb_lt 0 v)) by lia.
  rewrite IH by (apply Z.shiftr_nonneg; lia). f_equal. change 0xff with (Z.ones 8). rewrite Z.land_ones by lia.
  apply wrap_id. by apply wrap_range.
Qed.

Lemma dcb_serialize_height v : 0 <= v -> dcb_scriptnum_serialize v = height_num v.
Proof. intros Hv. unfold dcb_scriptnum_serialize, height_num. by rewrite scriptnum_loop_height. Qed.

(** The prefix of a coinbase script that commits to a positive height. *)
Definition commits (sig : script) (h : Z) : Prop :=
  (1 <= h <= 16 /\ sdata sig 0 = 0x50 + h) \/
  exists rest, sig = (len (height_num h) :: height_num h) ++ rest.

Lemma bip34_commits cb i rest h : vin cb = i :: rest -> 0 < h ->
  bip34_check_coinbase_height cb h = true <-> script_sig i <> [] /\ commits (script_sig i) h.
Proof.
  intros V Hh. unfold bip34_check_coinbase_height, commits. rewrite V, (proj2 (Z.leb_gt h 0)) by lia.
  destruct (Z.eqb_spec (script_size (script_sig i)) 0) as [E|E].
  { split; [done|]. intros [Hn _]. exfalso. apply Hn. unfold script_size in E. destruct (script_sig i); [done|]. cbn in E. lia. }
  assert (script_sig i <> []) as Hn by (intros F; apply E; by rewrite F).
  destruct ((1 <=? h) && (h <=? 16) && (sdata (script_sig i) 0 =? 0x50 + h)) eqn:F.
  { split; [|done]. intros _. split; [done|]. left. rewrite !andb_true_iff, !Z.leb_le, Z.eqb_eq in F. tauto. }
  set (expect := len (height_num h) :: height_num h). unfold script_size, len.
  assert ((1 <= h <= 16 /\ sdata (script_sig i) 0 = 0x50 + h) -> False) as F'.
  { intros [H1 H2]. rewrite !andb_false_iff, !Z.leb_gt, Z.eqb_neq in F. lia. }
  destruct (Z.ltb_spec (Z.of_nat (length (script_sig i))) (Z.of_nat (length expect))) as [Hs|Hs].
  - split; [done|]. intros [_ [?|[r Hr]]]; [done|]. rewrite Hr, length_app in Hs. lia.
  - rewrite Z.eqb_eq. split.
    + intros Hc. apply memcmp_eq in Hc; [|rewrite length_take; lia]. split; [done|]. right.
      exists (drop (length expect) (script_sig i)). by rewrite <- Hc, take_drop at 1.
    + intros [_ [?|[r Hr]]]; [done|]. rewrite Hr, take_app_length. apply memcmp_refl.
Qed.

(** A coinbase script commits to at most one height. *)
Lemma commits_unique sig h h' : 0 < h < 2 ^ 31 -> 0 < h' < 2 ^ 31 -> commits sig h -> commits sig h' -> h = h'.
Proof.
  intros Hh Hh'. destruct (height_num_val h ltac:(lia)) as (E & _ & L). destruct (height_num_val h' ltac:(lia)) as (E' & _ & L').
  intros [[H1 H2]|[r ->]] [[H3 H4]|[r' Hr']].
  - lia.
  - subst sig. change (len (height_num h') = 0x50 + h) in H2. lia.
  - change (len (height_num h) = 0x50 + h') in H4. lia.
  - cbn [app] in Hr'. injection Hr' as Hlen Hrest.
    assert (height_num h = height_num h') as Hn; [|congruence].
    apply (f_equal (take (length (height_num h)))) in Hrest. rewrite take_app_length in Hrest.
    unfold len in Hlen. apply Nat2Z.inj in Hlen. by rewrite Hlen, take_app_length in Hrest.
Qed.

Lemma push_height_commits h rest : 0 < h <= DCB_HEIGHT_MAX -> commits (dcb_push_height [] h ++ rest) h.
Proof.
  unfold DCB_HEIGHT_MAX. intros Hh. unfold dcb_push_height, commits. rewrite (proj2 (Z.eqb_neq h 0)) by lia.
  destruct (Z.leb_spec 1 h), (Z.leb_spec h 16); cbn [andb app]; try lia.
  - left. split; [lia|]. unfold sdata. cbn. apply wrap_id. unfold in_u. lia.
  - right. exists rest. rewrite (wrap_id 32 h) by (unfold in_u; lia). rewrite dcb_serialize_height by lia.
    destruct (height_num_val h ltac:(lia)) as (_ & _ & L).
    rewrite wrap_id by (pose proof (len_nonneg (height_num h)); unfold in_u; lia). done.
Qed.

Lemma push_height_size h : 0 <= h <= DCB_HEIGHT_MAX ->
  bytes (dcb_push_height [] h) /\ 1 <= len (dcb_push_height [] h) <= 6.
Proof.
  unfold DCB_HEIGHT_MAX. intros Hh. unfold dcb_push_height. destruct (h =? 0); [by repeat constructor|].
  destruct (_ && _).
  { split; [|done]. constructor; [by apply wrap_range|constructor]. }
  rewrite (wrap_id 32 h) by (unfold in_u; lia). rewrite dcb_serialize_height by lia.
  destruct (height_num_val h ltac:(lia)) as (_ & B & L). pose proof (len_nonneg (height_num h)).
  cbn [app]. split; [constructor; [by apply wrap_range|done]|]. unfold len in *. cbn [length]. lia.
Qed.

(** ** The coinbase of a template *)

Section Template.
Context `{Allocator} `{HostOrder}.

(** The transaction a template starts from, with its form, script and output. *)
Definition template_coinbase (ow : bool) (v g : Z) (sig s : script) (amount : Z) (h : uint256) : transaction :=
  mk_tx ow v g [mk_tx_in outpoint_set_null sig UINT32_MAX] [mk_tx_out amount s] 0 0 0 [] [] []
    uint256_set_null (replicate 64 0) (replicate 64 0) h.

(** The form of an epoch. *)
Definition template_form (p : consensus_params) (h : Z) : bool * Z * Z :=
  if sapling_at p h then (true, SAPLING_TX_VERSION, SAPLING_VERSION_GROUP_ID)
  else if overwinter_at p h then (true, OVERWINTER_TX_VERSION, OVERWINTER_VERSION_GROUP_ID)
  else (false, 1, 0).

Definition valid_form (f : bool * Z * Z) : Prop :=
  f = (true, SAPLING_TX_VERSION, SAPLING_VERSION_GROUP_ID) \/
  f = (true, OVERWINTER_TX_VERSION, OVERWINTER_VERSION_GROUP_ID) \/ f = (false, 1, 0).

Lemma template_form_valid p h : valid_form (template_form p h).
Proof. unfold template_form, valid_form. destruct (sapling_at p h), (overwinter_at p h); auto. Qed.

Lemma null_u256 : u256 uint256_set_null.
Proof. split; [apply bytes_check; reflexivity|reflexivity]. Qed.

(** Also without the flag, whatever the version, when there is no version group. *)
Lemma template_wf_any ow v g sig s amount h :
  valid_form (ow, v, g) \/ (ow = false /\ g = 0 /\ (v = SAPLING_TX_VERSION \/ v = OVERWINTER_TX_VERSION \/ v = 1)) ->
  script_wf sig -> script_wf s -> in_s 64 amount -> tx_wf (template_coinbase ow v g sig s amount h).
Proof.
  intros Hf Hsig Hs Ha. assert (tx_in_wf (mk_tx_in outpoint_set_null sig UINT32_MAX)) as Hi.
  { split; [split; [exact null_u256|split; vm_compute; congruence]|]. split; [done|split; vm_compute; congruence]. }
  assert (vec_wf MAX_TX_INPUTS tx_in_wf [mk_tx_in outpoint_set_null sig UINT32_MAX]) as Vi
    by (split; [vm_compute; congruence|by constructor]).
  assert (vec_wf MAX_TX_OUTPUTS tx_out_wf [mk_tx_out amount s]) as Vo
    by (split; [vm_compute; congruence|constructor; [by split|constructor]]).
  assert (in_u 32 0 /\ in_s 64 0) as [Z32 Z64] by (split; split; vm_compute; congruence).
  destruct Hf as [[[= -> -> ->]|[[= -> -> ->]|[= -> -> ->]]]|(-> & -> & [-> |[-> | ->]])].
  all: split; [split; vm_compute; congruence|reflexivity|exact Vi|exact Vo|exact Z32|exact Z32 || reflexivity
    |exact Z64 || reflexivity| | | |split; reflexivity|reflexivity].
  all: try reflexivity; (split; [vm_compute; congruence|apply Forall_nil_2 || exact (List.Forall_nil _)]).
Qed.

Lemma template_wf ow v g sig s amount h :
  valid_form (ow, v, g) -> script_wf sig -> script_wf s -> in_s 64 amount ->
  tx_wf (template_coinbase ow v g sig s amount h).
Proof. intros Hf. apply template_wf_any. by left. Qed.

(** The wire format of a transparent transaction beside its inputs and outputs. *)
Lemma transparent_enc_len tx : v_shielded_spend tx = [] -> v_shielded_output tx = [] -> v_joinsplit tx = [] ->
  len (tx_enc tx) <= 100 + len (vec_enc tx_in_enc (vin tx)) + len (vec_enc tx_out_enc (vout tx)).
Proof.
  intros Es Eo Ej. unfold tx_enc, has_shielded. rewrite Es, Eo, Ej. change (len (@nil spend_description)) with 0.
  change (len (@nil output_description)) with 0. change (len (@nil js_description)) with 0.
  cbn [Z.ltb Z.compare orb]. rewrite andb_false_r, !len_app, len_le4.
  assert (len (header_enc tx) <= 8) by (unfold header_enc; destruct (overwintered tx); sizes; lia).
  assert (forall A (enc : A -> list Z), len (vec_enc enc []) = 1) as Hv by done.
  destruct (is_v3 tx || is_v4 tx), (is_v4 tx), (version tx <? 2); rewrite ?len_app, ?Hv, ?len_le4, ?len_le8s;
    change (len (@nil Z)) with 0; lia.
Qed.

Lemma template_enc_len ow v g sig s amount h :
  valid_form (ow, v, g) -> script_wf sig -> script_wf s -> in_s 64 amount ->
  len (tx_enc (template_coinbase ow v g sig s amount h)) <= 20200.
Proof.
  intros Hf Hsig Hs Ha. pose proof (template_wf ow v g sig s amount h Hf Hsig Hs Ha) as W.
  set (t := template_coinbase ow v g sig s amount h) in *.
  assert (vec_wf 1 tx_in_wf (vin t)) as Hi by (split; [vm_compute; congruence|exact (proj2 (wf_vin t W))]).
  assert (vec_wf 1 tx_out_wf (vout t)) as Ho by (split; [vm_compute; congruence|exact (proj2 (wf_vout t W))]).
  pose proof (transparent_enc_len t eq_refl eq_refl eq_refl) as Ht. clearbody t.
  pose proof (vec_enc_len_le tx_in_enc tx_in_wf 10049 1 (vin t) ltac:(lia) tx_in_enc_len_le Hi).
  pose proof (vec_enc_len_le tx_out_enc tx_out_wf 10017 1 (vout t) ltac:(lia) tx_out_enc_len_le Ho).
  lia.
Qed.

(** It passes the structural checks, alone and in a block, and those of its epoch. *)
Lemma template_valid ctx ow v g sig s amount h :
  valid_form (ow, v, g) -> script_wf sig -> 2 <= len sig <= 100 -> script_wf s -> money amount ->
  structurally_valid ctx (template_coinbase ow v g sig s amount h).
Proof.
  intros Hf Hsig Hl Hs Ha.
  assert (in_s 64 amount) as Ha' by (unfold in_s; small_money).
  pose proof (template_enc_len ow v g sig s amount h Hf Hsig Hs Ha') as Hn.
  split; cbn [vin vout v_joinsplit v_shielded_spend v_shielded_output value_balance template_coinbase].
  - unfold version_valid. destruct Hf as [[= -> -> ->]|[[= -> -> ->]|[= -> -> ->]]]; cbn;
      [split; [vm_compute; congruence|split; [auto|done]]..|vm_compute; congruence].
  - by left.
  - by left.
  - left. unfold MAX_TX_SIZE_AFTER_SAPLING. lia.
  - done.
  - unfold amounts, out_terms. cbn. split; [constructor; [exact Ha|constructor; [small_money|constructor]]|small_money].
  - unfold amounts, shielded_in_terms. cbn. split; [constructor; [small_money|constructor]|small_money].
  - constructor.
  - cbn. apply list.NoDup_singleton.
  - constructor.
  - constructor.
  - unfold coinbase_valid. cbn. split_and!; try done. by intros i [= <-].
Qed.

Lemma template_epoch p ht sig s amount h :
  epochs_ordered p -> script_wf sig -> script_wf s -> in_s 64 amount ->
  let '(ow, v, g) := template_form p ht in
  epoch_valid p ht (template_coinbase ow v g sig s amount h).
Proof.
  intros Ho Hsig Hs Ha. destruct (template_form p ht) as [[ow v] g] eqn:F.
  pose proof (template_form_valid p ht) as Hf. rewrite F in Hf.
  pose proof (template_enc_len ow v g sig s amount h Hf Hsig Hs Ha) as Hn. clear Hf.
  unfold epoch_valid, template_form in *. destruct (sapling_at p ht).
  - injection F as <- <- <-. split; [done|]. split; [done|]. split; vm_compute; congruence.
  - split; [|unfold MAX_TX_SIZE_BEFORE_SAPLING; lia]. destruct (overwinter_at p ht); injection F as <- <- <-; [|done].
    split; [done|]. split; [done|]. vm_compute. congruence.
Qed.

Lemma compute_hash_cases tx : exists h, transaction_compute_hash tx = with_hash tx h.
Proof.
  unfold transaction_compute_hash. destruct (transaction_hash_serialized (Some tx) true) as [h|]; [by exists h|].
  exists (tx_hash tx). by destruct tx.
Qed.

(** What the builder makes of a fresh transaction: all but the flag, then the id. *)
Lemma build_runs i p s : memory_ok ->
  params i = Some p -> miner_script i = Some s -> 0 <= n_height i <= DCB_HEIGHT_MAX ->
  0 <= subsidy i -> 0 <= total_fees i -> subsidy i + total_fees i <= MAX_MONEY ->
  exists tx0, miner_fresh_coinbase = Some tx0 /\
  let '(_, v, g) := template_form p (n_height i) in
  domain_consensus_coinbase_build (Some i) (Some tx0) =
    Some (ZCL_OK (transaction_compute_hash (template_coinbase false v g (dcb_push_height [] (n_height i) ++ [OP_0]) s
      (subsidy i + total_fees i) uint256_set_null))).
Proof.
  intros M Ep Es Hh Hsub Hfee Hsum. unfold miner_fresh_coinbase, transaction_alloc. rewrite !array_alloc_ok by done.
  change ((MAX_TX_INPUTS <? 1) || (MAX_TX_OUTPUTS <? 1)) with false. cbn iota beta.
  exists (mk_tx false 1 0 [tx_in_init] [tx_out_set_null] 0 0 0 [] [] [] uint256_set_null (replicate 64 0)
    (replicate 64 0) uint256_set_null). split; [reflexivity|].
  unfold domain_consensus_coinbase_build, dcb_build_reject_bad_inputs. rewrite Ep, Es.
  rewrite (proj2 (Z.ltb_ge (n_height i) 0)), (proj2 (Z.ltb_ge DCB_HEIGHT_MAX (n_height i))),
    (proj2 (Z.ltb_ge (total_fees i) 0)), (proj2 (Z.ltb_ge (subsidy i) 0)) by lia.
  cbn [vin vout]. cbn iota beta. unfold domain_consensus_coinbase_script_sig_placeholder. cbn [negb].
  rewrite (proj2 (Z.ltb_ge (n_height i) 0)), (proj2 (Z.ltb_ge DCB_HEIGHT_MAX (n_height i))) by lia.
  cbn iota beta zeta. rewrite s64_ok by small_money. rewrite !upgrade_active_ok by (done || lia).
  fold (sapling_at p (n_height i)) (overwinter_at p (n_height i)). unfold template_form.
  by destruct (sapling_at p (n_height i)); [|destruct (overwinter_at p (n_height i))].
Qed.

(** The flag that the miner sets afterwards gives it the form of its epoch. *)
Lemma set_overwintered_form p ht sig s amount h :
  let '(ow, v, g) := template_form p ht in
  miner_set_overwintered (template_coinbase false v g sig s amount h) = template_coinbase ow v g sig s amount h.
Proof. unfold template_form. by destruct (sapling_at p ht); [|destruct (overwinter_at p ht)]. Qed.

Lemma build_form i p s : memory_ok ->
  params i = Some p -> miner_script i = Some s -> 0 <= n_height i <= DCB_HEIGHT_MAX ->
  0 <= subsidy i -> 0 <= total_fees i -> subsidy i + total_fees i <= MAX_MONEY ->
  exists tx0 tx h, miner_fresh_coinbase = Some tx0 /\
  domain_consensus_coinbase_build (Some i) (Some tx0) = Some (ZCL_OK tx) /\
  let '(ow, v, g) := template_form p (n_height i) in
  miner_set_overwintered tx =
    template_coinbase ow v g (dcb_push_height [] (n_height i) ++ [OP_0]) s (subsidy i + total_fees i) h.
Proof.
  intros M Ep Es Hh Hsub Hfee Hsum. destruct (build_runs i p s M Ep Es Hh Hsub Hfee Hsum) as (tx0 & E0 & E1).
  pose proof (set_overwintered_form p (n_height i)) as F. destruct (template_form p (n_height i)) as [[ow v] g].
  match type of E1 with _ = Some (ZCL_OK (transaction_compute_hash ?t)) => destruct (compute_hash_cases t) as [h E] end.
  rewrite E in E1. exists tx0. eexists. exists h. split; [exact E0|]. split; [exact E1|]. apply F.
Qed.

(** The encoding without the flag does not show the version group, so the id of a
    transaction whose group is already set is that of the same one without it. *)
Lemma unflagged_id v g sig s amount h : memory_ok ->
  v = SAPLING_TX_VERSION \/ v = OVERWINTER_TX_VERSION \/ v = 1 -> script_wf sig -> script_wf s -> in_s 64 amount ->
  transaction_compute_hash (template_coinbase false v g sig s amount h) =
  template_coinbase false v g sig s amount (hash256 (tx_enc (template_coinbase false v g sig s amount h))).
Proof.
  intros M Hv Hsig Hs Ha.
  assert (tx_wf (template_coinbase false v 0 sig s amount h)) as W by (apply template_wf_any; auto).
  pose proof (compute_hash_spec _ M W) as E. unfold transaction_compute_hash in *.
  change (transaction_hash_serialized (Some (template_coinbase false v g sig s amount h)) true)
    with (transaction_hash_serialized (Some (template_coinbase false v 0 sig s amount h)) true).
  destruct (transaction_hash_serialized _ _) as [d|]; [|injection E as E]; [|].
  - injection E as ->. reflexivity.
  - rewrite E. reflexivity.
Qed.

(** The flag shows in the top bit of the first word. *)
Lemma flag_shows v g sig s amount h h' : v = SAPLING_TX_VERSION \/ v = OVERWINTER_TX_VERSION ->
  tx_enc (template_coinbase false v g sig s amount h) <> tx_enc (template_coinbase true v g sig s amount h').
Proof.
  intros Hv E. apply (f_equal (take 4)) in E. by destruct Hv as [-> | ->].
Qed.

End Template.

(** C30: a block template starts from a valid coinbase, when the allocator does not fail. For every height up to the
    builder's cap, every miner script and every reward within the money range,
    building on a freshly allocated transaction succeeds; with the flag the miner
    sets, the result is well formed, a coinbase that pays exactly the reward,
    structurally valid, of the form its epoch demands, and its script commits to
    the height as the contextual block check requires, also after the extra nonce
    is put in. No script commits to two different heights. *)
Theorem coinbase_template_valid `{Allocator} `{HostOrder} i p s ctx :
  memory_ok -> epochs_ordered p ->
  params i = Some p -> miner_script i = Some s -> script_wf s -> 0 <= n_height i <= DCB_HEIGHT_MAX ->
  0 <= subsidy i -> 0 <= total_fees i -> subsidy i + total_fees i <= MAX_MONEY ->
  (exists tx0 tx, miner_fresh_coinbase = Some tx0 /\
   domain_consensus_coinbase_build (Some i) (Some tx0) = Some (ZCL_OK tx) /\
   let t := miner_set_overwintered tx in
   tx_wf t /\ transaction_is_coinbase t = true /\ vout t = [mk_tx_out (subsidy i + total_fees i) s] /\
   structurally_valid ctx t /\ epoch_valid p (n_height i) t /\
   bip34_check_coinbase_height t (n_height i) = true) /\
  (forall en tx rest, 0 <= en < 2 ^ 32 ->
   exists sig, domain_consensus_coinbase_script_sig_with_extra_nonce (n_height i) en true = ZCL_OK sig /\
   2 <= len sig <= 100 /\
   (vin tx = mk_tx_in outpoint_set_null sig UINT32_MAX :: rest ->
    bip34_check_coinbase_height tx (n_height i) = true)) /\
  (forall cb h h', 0 < h < 2 ^ 31 -> 0 < h' < 2 ^ 31 ->
   bip34_check_coinbase_height cb h = true -> bip34_check_coinbase_height cb h' = true -> h = h').
Proof.
  intros M Ho Ep Es Hs Hh Hsub Hfee Hsum.
  assert (forall tx sig rest, vin tx = mk_tx_in outpoint_set_null sig UINT32_MAX :: rest ->
    (exists r, sig = dcb_push_height [] (n_height i) ++ r) -> bip34_check_coinbase_height tx (n_height i) = true) as Hb.
  { intros tx sig rest V [r ->]. destruct (Z.eq_dec (n_height i) 0) as [E|].
    - unfold bip34_check_coinbase_height. by rewrite V, E.
    - apply (bip34_commits tx _ rest _ V); [lia|]. cbn [script_sig]. split; [|apply push_height_commits; lia].
      destruct (push_height_size (n_height i) Hh) as [_ [Hp _]]. intros E. apply app_eq_nil in E as [E _].
      rewrite E in Hp. done. }
  destruct (push_height_size (n_height i) Hh) as [Hpb Hpl]. split; [|split].
  - destruct (build_form i p s M Ep Es Hh Hsub Hfee Hsum) as (tx0 & tx & h & E0 & E1 & E2).
    exists tx0, tx. split; [exact E0|]. split; [exact E1|]. cbn zeta.
    pose proof (template_form_valid p (n_height i)) as Hf.
    pose proof (template_epoch p (n_height i) (dcb_push_height [] (n_height i) ++ [OP_0]) s (subsidy i + total_fees i) h Ho) as He.
    destruct (template_form p (n_height i)) as [[ow v] g]. rewrite E2.
    assert (script_wf (dcb_push_height [] (n_height i) ++ [OP_0])) as Hsig.
    { split; [apply digits_app; [done|repeat constructor; done]|].
      unfold MAX_SCRIPT_SIZE, script_size, len in *. rewrite length_app. cbn [length]. lia. }
    assert (in_s 64 (subsidy i + total_fees i)) as Ha by (unfold in_s; small_money).
    split; [by apply template_wf|]. split; [reflexivity|]. split; [reflexivity|].
    split; [apply template_valid; try done; [rewrite len_app; change (len [OP_0]) with 1; lia|lia]|].
    split; [by apply He|]. eapply Hb; [reflexivity|]. by eexists.
  - intros en tx rest Hen. eexists. unfold domain_consensus_coinbase_script_sig_with_extra_nonce. cbn [negb].
    rewrite (proj2 (Z.ltb_ge (n_height i) 0)), (proj2 (Z.ltb_ge DCB_HEIGHT_MAX (n_height i))) by lia.
    split; [reflexivity|]. unfold dcb_push_scriptnum. rewrite dcb_serialize_height by lia.
    destruct (height_num_val en Hen) as (_ & _ & Ln). pose proof (len_nonneg (height_num en)). split.
    + rewrite len_app. unfold len in *. cbn [length]. lia.
    + intros V. eapply Hb; [exact V|]. by eexists.
  - intros cb h h' Hh1 Hh2 B1 B2. destruct (vin cb) as [|i0 rest] eqn:V.
    { unfold bip34_check_coinbase_height in B1. by rewrite V in B1. }
    apply (bip34_commits _ _ _ _ V) in B1 as [_ B1]; [|lia]. apply (bip34_commits _ _ _ _ V) in B2 as [_ B2]; [|lia].
    exact (commits_unique _ _ _ Hh1 Hh2 B1 B2).
Qed.

(** C40: the id of a template's coinbase is the one of its encoding before the miner sets
    the overwintered flag. When the allocator does not fail, for every height up to the builder's cap, every miner script and
    every reward within the money range: the flag leaves the id that the builder computed;
    before Overwinter it changes nothing, so the id is right; from Overwinter on it changes
    the encoding, so the id that the template carries is right only if two different
    encodings have the same double SHA-256; computing it again, as the mining loops do,
    gives the right one. *)
Theorem template_coinbase_id `{Allocator} `{HostOrder} i p s :
  memory_ok -> epochs_ordered p ->
  params i = Some p -> miner_script i = Some s -> script_wf s -> 0 <= n_height i <= DCB_HEIGHT_MAX ->
  0 <= subsidy i -> 0 <= total_fees i -> subsidy i + total_fees i <= MAX_MONEY ->
  exists tx0 tx, miner_fresh_coinbase = Some tx0 /\
  domain_consensus_coinbase_build (Some i) (Some tx0) = Some (ZCL_OK tx) /\
  let t := miner_set_overwintered tx in
  tx_hash t = hash256 (tx_enc tx) /\
  (overwinter_at p (n_height i) = false -> t = tx) /\
  (overwinter_at p (n_height i) = true -> tx_enc tx <> tx_enc t) /\
  transaction_compute_hash t = with_hash t (hash256 (tx_enc t)).
Proof.
  intros M Ho Ep Es Hs Hh Hsub Hfee Hsum. destruct (build_runs i p s M Ep Es Hh Hsub Hfee Hsum) as (tx0 & E0 & E1).
  destruct (push_height_size (n_height i) Hh) as [Hpb Hpl]. set (sig := dcb_push_height [] (n_height i) ++ [OP_0]) in *.
  assert (script_wf sig) as Hsig.
  { split; [apply digits_app; [done|repeat constructor; done]|].
    unfold sig, MAX_SCRIPT_SIZE, script_size, len in *. rewrite length_app. cbn [length]. lia. }
  assert (in_s 64 (subsidy i + total_fees i)) as Ha by (unfold in_s; small_money).
  pose proof (fun h => set_overwintered_form p (n_height i) sig s (subsidy i + total_fees i) h) as F.
  pose proof (template_form_valid p (n_height i)) as Hf.
  assert (let '(ow, v, _) := template_form p (n_height i) in
    ow = overwinter_at p (n_height i) /\ (ow = true -> v = SAPLING_TX_VERSION \/ v = OVERWINTER_TX_VERSION)) as Hov.
  { pose proof (Ho (n_height i)) as O. unfold template_form. destruct (sapling_at p (n_height i)); [rewrite O by done; auto|].
    destruct (overwinter_at p (n_height i)); auto. done. }
  destruct (template_form p (n_height i)) as [[ow v] g]. destruct Hov as [<- Hov].
  rewrite unflagged_id in E1; [|done| |done..].
  2:{ destruct Hf as [[= _ -> _]|[[= _ -> _]|[= _ -> _]]]; auto. }
  exists tx0. eexists. split; [exact E0|]. split; [exact E1|]. cbv zeta. rewrite F. split_and!.
  - reflexivity.
  - by intros ->.
  - intros ->. by apply flag_shows, Hov.
  - apply compute_hash_spec; [done|]. by apply template_wf.
Qed.

Section CoinbaseWitness.
#[local] Instance coinbase_alloc : Allocator := fun _ => true.
#[local] Instance coinbase_host : HostOrder := false.

Definition sample_inputs : coinbase_inputs :=
  {| n_height := 707000; subsidy := 78125000; total_fees := 1000; miner_script := Some [0x51]; params := Some main_params |}.

Lemma coinbase_template_valid_witness :
  exists tx0 tx, miner_fresh_coinbase = Some tx0 /\
    domain_consensus_coinbase_build (Some sample_inputs) (Some tx0) = Some (ZCL_OK tx) /\
    bip34_check_coinbase_height (miner_set_overwintered tx) 707000 = true.
Proof.
  destruct (coinbase_template_valid sample_inputs main_params [0x51] DOMAIN_TX_CTX_STANDALONE (fun _ => eq_refl)
    (proj1 networks_ordered) eq_refl eq_refl) as ((tx0 & tx & E0 & E1 & _ & _ & _ & _ & _ & B) & _).
  - split; [apply bytes_check; reflexivity|vm_compute; congruence].
  - split; vm_compute; congruence.
  - vm_compute. congruence.
  - vm_compute. congruence.
  - vm_compute. congruence.
  - exists tx0, tx. split; [exact E0|split; [exact E1|exact B]].
Defined.

(** Mainnet after Sapling: the id differs from the hash of the encoding. *)
Lemma template_coinbase_id_witness :
  exists tx0 tx, miner_fresh_coinbase = Some tx0 /\
    domain_consensus_coinbase_build (Some sample_inputs) (Some tx0) = Some (ZCL_OK tx) /\
    tx_hash (miner_set_overwintered tx) = hash256 (tx_enc tx) /\ tx_enc tx <> tx_enc (miner_set_overwintered tx).
Proof.
  destruct (template_coinbase_id sample_inputs main_params [0x51] (fun _ => eq_refl) (proj1 networks_ordered) eq_refl eq_refl)
    as (tx0 & tx & E0 & E1 & E2 & _ & E3 & _).
  - split; [apply bytes_check; reflexivity|vm_compute; congruence].
  - split; vm_compute; congruence.
  - vm_compute. congruence.
  - vm_compute. congruence.
  - vm_compute. congruence.
  - exists tx0, tx. split; [exact E0|split; [exact E1|split; [exact E2|]]]. apply E3. vm_compute. reflexivity.
Defined.
End CoinbaseWitness.
