(* ===== verification/Coins.v ===== *)
(** * Coins and undo records

    Model of [core/consensus/src/coins_math.c], of the construction, copying and
    compression wrappers around it ([core/modules/coins/src/coins.c],
    [compressor.c]), of the undo records of [core/modules/coins/include/coins/undo.h]
    and of the part of [contexts/wallet/modules/keys] (public keys) they use. *)

From stdpp Require Import base tactics list numbers option.
From Stdlib Require Import ZArith Lia.
From S2P Require Import Prelude Serialize ByteOrder Params Script Hash Transaction.
#[local] Open Scope Z_scope.
#[local] Open Scope list_scope.

(** ** Coins *)

(** The outputs of one transaction that are still unspent; a spent or
    unspendable output is the null output. *)
Record coins := mk_coins { is_coinbase : bool; c_vout : list tx_out; c_height : Z; c_version : Z }.

Definition coins_init : coins := mk_coins false [] 0 0.
Definition coins_free (c : coins) : coins := mk_coins (is_coinbase c) [] (c_height c) (c_version c).
Definition with_vout (c : coins) (l : list tx_out) : coins := mk_coins (is_coinbase c) l (c_height c) (c_version c).

(** A null pointer is [None]. *)
Definition coins_math_is_pruned (c : option coins) : bool :=
  match c with None => true | Some c => forallb tx_out_is_null (c_vout c) end.

Definition coins_math_is_available (c : option coins) (pos : Z) : bool :=
  match c with
  | None => false
  | Some c => match c_vout c !! Z.to_nat pos with Some o => negb (tx_out_is_null o) | None => false end
  end.

(** The new record and the result. *)
Definition coins_math_spend (c : coins) (pos : Z) : coins * bool :=
  match c_vout c !! Z.to_nat pos with
  | None => (c, false)
  | Some o =>
      if tx_out_is_null o then (c, false)
      else (with_vout c (<[Z.to_nat pos := tx_out_set_null]> (c_vout c)), true)
  end.

(** [num_vout] runs down while the last output is null. *)
Fixpoint cleanup_loop (num_vout : nat) (l : list tx_out) : nat :=
  match num_vout with
  | O => O
  | S n => match l !! n with
           | Some o => if tx_out_is_null o then cleanup_loop n l else num_vout
           | None => num_vout
           end
  end.
Definition coins_math_cleanup (c : coins) : coins :=
  with_vout c (take (cleanup_loop (length (c_vout c)) (c_vout c)) (c_vout c)).

(** ** Undo records *)

Definition SCRIPT_COMPRESS_SPECIAL_SCRIPTS : Z := 6.

Record tx_in_undo := mk_tx_in_undo { u_txout : tx_out; u_coinbase : bool; u_height : Z; u_version : Z }.
Definition tx_in_undo_init : tx_in_undo := mk_tx_in_undo tx_out_set_null false 0 0.

Inductive coins_math_err :=
| COINS_MATH_ERR_NULL_COINS | COINS_MATH_ERR_NULL_UNDO | COINS_MATH_ERR_OUT_OF_RANGE | COINS_MATH_ERR_ALREADY_SPENT.

Definition coins_math_capture_undo (c : option coins) (pos : Z) (undo : option tx_in_undo) :
    zcl_result coins_math_err (coins * tx_in_undo) :=
  match c, undo with
  | None, _ => ZCL_ERR COINS_MATH_ERR_NULL_COINS
  | _, None => ZCL_ERR COINS_MATH_ERR_NULL_UNDO
  | Some c, Some undo =>
      match c_vout c !! Z.to_nat pos with
      | None => ZCL_ERR COINS_MATH_ERR_OUT_OF_RANGE
      | Some o =>
          reject_if tx_out_is_null o as COINS_MATH_ERR_ALREADY_SPENT ;;
          let c := fst (coins_math_spend c pos) in
          ZCL_OK (c, if coins_math_is_pruned (Some c)
                     then mk_tx_in_undo o (is_coinbase c) (u32 (c_height c)) (c_version c)
                     else mk_tx_in_undo o (u_coinbase undo) (u_height undo) (u_version undo))
      end
  end.

(** ** Amounts *)

Fixpoint strip_zeros (fuel : nat) (n e : Z) : Z * Z :=
  match fuel with
  | O => (n, e)
  | S fuel => if (n mod 10 =? 0) && (e <? 9) then strip_zeros fuel (n / 10) (e + 1) else (n, e)
  end.

Definition coins_math_compress_amount (n : Z) : Z :=
  if n =? 0 then 0 else
  let '(n, e) := strip_zeros 10 n 0 in
  if e <? 9 then
    let d := n mod 10 in let n := n / 10 in u64 (1 + (n * 9 + d - 1) * 10 + e)
  else u64 (1 + (n - 1) * 10 + 9).

Fixpoint scale10 (e : nat) (n : Z) : Z := match e with O => n | S e => scale10 e (u64 (n * 10)) end.

Definition coins_math_decompress_amount (x : Z) : Z :=
  if x =? 0 then 0 else
  let x := x - 1 in
  let e := x mod 10 in
  let x := x / 10 in
  scale10 (Z.to_nat e)
    (if e <? 9 then let d := x mod 9 + 1 in u64 (x / 9 * 10 + d) else u64 (x + 1)).

(** ** Public keys *)

(** libsecp256k1: parsing a serialised key and serialising a point, compressed
    or not. *)
Class Secp256k1 := {
  secp_point : Type;
  secp_ec_pubkey_parse : list Z -> option secp_point;
  secp_ec_pubkey_serialize : bool -> secp_point -> list Z;
}.

Definition PUBLIC_KEY_SIZE : Z := 65.

(** The [size] bytes in use of [struct pubkey]. *)
Abbreviation pubkey := (list Z).
Definition pubkey_is_valid (pk : pubkey) : bool := 0 <? len pk.
Definition pubkey_set (data : list Z) : pubkey := take (Z.to_nat PUBLIC_KEY_SIZE) data.

Section Codec.
Context `{Allocator} `{HostOrder} `{Secp256k1}.

Definition pubkey_is_fully_valid (pk : pubkey) : bool :=
  pubkey_is_valid pk && match secp_ec_pubkey_parse pk with Some _ => true | None => false end.

Definition pubkey_decompress (pk : pubkey) : option pubkey :=
  if negb (pubkey_is_valid pk) then None
  else match secp_ec_pubkey_parse pk with
       | None => None
       | Some p => Some (pubkey_set (secp_ec_pubkey_serialize false p))
       end.

(** ** Scripts *)

(** [memcpy] of [n] bytes from [s->data + i]. *)
Definition chunk (s : list Z) (i n : nat) : list Z := take n (drop i s).

Definition script_is_compressed_p2pk (s : script) : bool :=
  (script_size s =? 35) && (sdata s 0 =? 33) && (sdata s 34 =? OP_CHECKSIG) &&
  ((sdata s 1 =? 0x02) || (sdata s 1 =? 0x03)).

Definition script_is_uncompressed_p2pk_pattern (s : script) : bool :=
  (script_size s =? 67) && (sdata s 0 =? 65) && (sdata s 66 =? OP_CHECKSIG) && (sdata s 1 =? 0x04).

(** The bytes written to [out]; the arguments are not null. *)
Definition coins_math_script_compress (s : script) : option (list Z) :=
  if script_is_p2pkh s then Some (0x00 :: chunk s 3 20)
  else if script_is_p2sh s then Some (0x01 :: chunk s 2 20)
  else if script_is_compressed_p2pk s then Some (sdata s 1 :: chunk s 2 32)
  else if script_is_uncompressed_p2pk_pattern s then
    let pk := pubkey_set (chunk s 1 65) in
    if negb (pubkey_is_fully_valid pk) then None
    else Some ((0x04 .| (sdata s 64 .& 0x01)) :: chunk s 2 32)
  else None.

Definition coins_math_script_decompress (n_size : Z) (input : list Z) : option script :=
  if n_size =? 0x00 then
    Some (OP_DUP :: OP_HASH160 :: 20 :: chunk input 0 20 ++ [OP_EQUALVERIFY; OP_CHECKSIG])
  else if n_size =? 0x01 then Some (OP_HASH160 :: 20 :: chunk input 0 20 ++ [OP_EQUAL])
  else if (n_size =? 0x02) || (n_size =? 0x03) then Some (33 :: u8 n_size :: chunk input 0 32 ++ [OP_CHECKSIG])
  else if (n_size =? 0x04) || (n_size =? 0x05) then
    match pubkey_decompress (pubkey_set (u8 (n_size - 2) :: chunk input 0 32)) with
    | None => None
    | Some pk => if negb (len pk =? 65) then None else Some (65 :: pk ++ [OP_CHECKSIG])
    end
  else None.

Definition coins_math_script_compress_special_size (n_size : Z) : Z :=
  if (n_size =? 0) || (n_size =? 1) then 20
  else if (n_size =? 2) || (n_size =? 3) || (n_size =? 4) || (n_size =? 5) then 32
  else 0.

(** The wrappers of [compressor.c]. *)
Definition script_compress (s : script) : option (list Z) := coins_math_script_compress s.
Definition script_decompress (nSize : Z) (input : list Z) : option script := coins_math_script_decompress nSize input.
Definition script_compress_special_size (nSize : Z) : Z := coins_math_script_compress_special_size nSize.
Definition compress_amount (n : Z) : Z := coins_math_compress_amount n.
Definition decompress_amount (x : Z) : Z := coins_math_decompress_amount x.

(** ** Wire format of the undo records *)

(** [stream_write_varint]; its local buffer never overflows ([varint_tmp_spec]). *)
Definition write_varint (n : Z) : writer := fun s => default (s, false) (stream_write_varint n s).

Definition compressed_txout_serialize (o : tx_out) : writer :=
  write_varint (compress_amount (u64 (value o))) &&w
  match script_compress (script_pub_key o) with
  | Some comp => stream_write_bytes comp
  | None =>
      write_varint (script_size (script_pub_key o) + SCRIPT_COMPRESS_SPECIAL_SCRIPTS) &&w
      stream_write_bytes (script_pub_key o)
  end.

Definition compressed_txout_deserialize : reader tx_out :=
  read compressed_val <- stream_read_varint;
  let value := i64 (decompress_amount compressed_val) in
  read nSize <- stream_read_varint;
  if nSize <? SCRIPT_COMPRESS_SPECIAL_SCRIPTS then
    let special_sz := script_compress_special_size nSize in
    rfail_if (special_sz =? 0) (
    read buf <- stream_read_bytes special_sz;
    match script_decompress nSize buf with
    | None => rfail
    | Some s => rret (mk_tx_out value s)
    end)
  else
    let script_len := nSize - SCRIPT_COMPRESS_SPECIAL_SCRIPTS in
    rfail_if (MAX_SCRIPT_SIZE <? script_len) (
    read s <- stream_read_bytes script_len;
    rret (mk_tx_out value s)).

Definition tx_in_undo_serialize (u : tx_in_undo) : writer :=
  write_varint (u_height u * 2 + (if u_coinbase u then 1 else 0)) &&w
  (if 0 <? u_height u then write_varint (u64 (u_version u)) else wdone) &&w
  compressed_txout_serialize (u_txout u).

(** [u] is the record read into; a zero height leaves its version alone. *)
Definition tx_in_undo_deserialize (u : tx_in_undo) : reader tx_in_undo :=
  read code <- stream_read_varint;
  let height := u32 (code / 2) in
  let coinbase := negb (code .& 1 =? 0) in
  read version <- (if 0 <? height then read v <- stream_read_varint; rret (i32 v) else rret (u_version u));
  read txout <- compressed_txout_deserialize;
  rret (mk_tx_in_undo txout coinbase height version).

Definition tx_undo : Type := list tx_in_undo.
Definition tx_undo_init : tx_undo := [].
Definition sizeof_tx_in_undo : Z := 10032.
Definition tx_undo_alloc (n : Z) : option tx_undo :=
  if array_alloc n sizeof_tx_in_undo then Some (replicate (Z.to_nat n) tx_in_undo_init) else None.
Definition tx_undo_free (u : tx_undo) : tx_undo := [].

Definition tx_undo_serialize (u : tx_undo) : writer :=
  stream_write_compact_size (len u) &&w write_all tx_in_undo_serialize u.

Definition tx_undo_deserialize : reader tx_undo :=
  read n <- stream_read_compact_size;
  rcheck (fun s => stream_remaining s / 3 <? n) (
  match tx_undo_alloc n with
  | None => rfail
  | Some _ => read_elems (Z.to_nat n) (tx_in_undo_deserialize tx_in_undo_init)
  end).

Record block_undo := mk_block_undo { vtxundo : list tx_undo; old_sprout_tree_root : uint256 }.
Definition block_undo_init : block_undo := mk_block_undo [] uint256_set_null.
Definition sizeof_tx_undo : Z := 16.
Definition block_undo_alloc (u : block_undo) (n : Z) : option block_undo :=
  if array_alloc n sizeof_tx_undo
  then Some (mk_block_undo (replicate (Z.to_nat n) tx_undo_init) (old_sprout_tree_root u)) else None.
Definition block_undo_free (u : block_undo) : block_undo := mk_block_undo [] (old_sprout_tree_root u).

Definition block_undo_serialize (u : block_undo) : writer :=
  stream_write_compact_size (len (vtxundo u)) &&w
  write_all tx_undo_serialize (vtxundo u) &&w
  stream_write_bytes (old_sprout_tree_root u).

Definition block_undo_deserialize (u : block_undo) : reader block_undo :=
  read n <- stream_read_compact_size;
  rcheck (fun s => stream_remaining s <? n) (
  match block_undo_alloc u n with
  | None => rfail
  | Some _ =>
      read l <- read_elems (Z.to_nat n) tx_undo_deserialize;
      read root <- stream_read_bytes 32;
      rret (mk_block_undo l root)
  end).

(** ** Construction and copying *)

(** [coins_alloc]: the record and whether memory was there. *)
Definition coins_alloc (c : coins) (num_outputs : Z) : coins * bool :=
  if array_alloc num_outputs sizeof_tx_out
  then (with_vout c (replicate (Z.to_nat num_outputs) tx_out_set_null), true)
  else (with_vout c [], false).

Definition coins_cleanup (c : coins) : coins := coins_math_cleanup c.

Definition coins_from_transaction (tx : transaction) (height : Z) : coins * bool :=
  let c := mk_coins (transaction_is_coinbase tx) [] height (version tx) in
  if 65536 <? len (vout tx) then (c, false)
  else
    let '(c, ok) := coins_alloc c (len (vout tx)) in
    if negb ok then (c, false)
    else
      let fill o := if script_is_unspendable (script_pub_key o) then tx_out_set_null else o in
      (coins_cleanup (with_vout c (map fill (vout tx))), true).

Definition coins_spend (c : coins) (pos : Z) : coins * bool := coins_math_spend c pos.
Definition coins_is_available (c : coins) (pos : Z) : bool := coins_math_is_available (Some c) pos.
Definition coins_is_pruned (c : coins) : bool := coins_math_is_pruned (Some c).

Definition coins_copy (src : coins) : coins :=
  if (0 <? len (c_vout src)) && negb (alloc_ok (len (c_vout src) * sizeof_tx_out)) then with_vout src [] else src.

End Codec.

(** ** Amounts *)

Lemma strip_zeros_spec fuel n e m e' :
  0 < n -> 0 <= e <= 9 -> 9 - e < Z.of_nat fuel -> strip_zeros fuel n e = (m, e') ->
  n = m * 10 ^ (e' - e) /\ 0 < m /\ e <= e' <= 9 /\ (m mod 10 = 0 -> e' = 9).
Proof.
  revert n e. induction fuel as [|fuel IH]; intros n e Hn He Hf E; [lia|]. cbn [strip_zeros] in E.
  destruct (Z.eqb_spec (n mod 10) 0) as [Hm|Hm]; cbn [andb] in E.
  - destruct (Z.ltb_spec e 9).
    + assert (n = 10 * (n / 10)) as En by zdm.
      destruct (IH (n / 10) (e + 1) ltac:(zdm) ltac:(lia) ltac:(lia) E) as (E1 & ? & ? & ?).
      split_and!; [|lia..|done]. replace (e' - e) with (Z.succ (e' - (e + 1))) by lia.
      rewrite Z.pow_succ_r by lia. lia.
    + injection E as <- <-. rewrite Z.sub_diag. lia.
  - injection E as <- <-. rewrite Z.sub_diag. lia.
Qed.

Lemma scale10_spec e n : 0 <= n -> n * 10 ^ Z.of_nat e < 2 ^ 64 -> scale10 e n = n * 10 ^ Z.of_nat e.
Proof.
  revert n. induction e as [|e IH]; intros n Hn Hb; [cbn; lia|]. cbn [scale10].
  rewrite Nat2Z.inj_succ, Z.pow_succ_r in * by lia. assert (0 < 10 ^ Z.of_nat e) by (apply Z.pow_pos_nonneg; lia).
  rewrite wrap_id by (unfold in_u; nia). rewrite IH by nia. lia.
Qed.

Definition MAX_COMPRESSIBLE : Z := 2 * 10 ^ 18.

Lemma amount_roundtrip n : 0 <= n <= MAX_COMPRESSIBLE -> decompress_amount (compress_amount n) = n.
Proof.
  unfold decompress_amount, compress_amount, MAX_COMPRESSIBLE. intros Hn. unfold coins_math_compress_amount.
  destruct (Z.eqb_spec n 0) as [->|Hn0]; [done|].
  destruct (strip_zeros 10 n 0) as [m e] eqn:E.
  destruct (strip_zeros_spec 10 n 0 m e ltac:(lia) ltac:(lia) ltac:(lia) E) as (En & Hm & He & Hd).
  rewrite Z.sub_0_r in En. assert (0 < 10 ^ e) by (apply Z.pow_pos_nonneg; lia). assert (m <= n) by nia.
  assert (n < 2 ^ 64) by lia. unfold coins_math_decompress_amount. destruct (Z.ltb_spec e 9).
  - assert (m mod 10 <> 0) by lia. set (x := (m / 10 * 9 + m mod 10 - 1) * 10 + e).
    assert (0 <= m / 10 * 9 + m mod 10 - 1 < 2 ^ 64 / 10 - 1) by zdm.
    replace (1 + (m / 10 * 9 + m mod 10 - 1) * 10 + e) with (1 + x) by (subst x; lia).
    rewrite wrap_id by (unfold in_u; subst x; lia). rewrite (proj2 (Z.eqb_neq _ _)) by (subst x; lia).
    replace (1 + x - 1) with x by lia.
    assert (x mod 10 = e) as -> by (subst x; zdm). assert (x / 10 = m / 10 * 9 + m mod 10 - 1) as -> by (subst x; zdm).
    rewrite (proj2 (Z.ltb_lt e 9)) by done.
    assert ((m / 10 * 9 + m mod 10 - 1) mod 9 = m mod 10 - 1) as -> by zdm.
    assert ((m / 10 * 9 + m mod 10 - 1) / 9 = m / 10) as -> by zdm.
    replace (m / 10 * 10 + (m mod 10 - 1 + 1)) with m by zdm. rewrite wrap_id by (unfold in_u; lia).
    rewrite scale10_spec by (rewrite ?Z2Nat.id by lia; lia). rewrite Z2Nat.id by lia. lia.
  - assert (e = 9) as -> by lia. change (10 ^ 9) with 1000000000 in *.
    rewrite wrap_id by (unfold in_u; lia). rewrite (proj2 (Z.eqb_neq _ _)) by lia.
    replace (1 + (m - 1) * 10 + 9 - 1) with ((m - 1) * 10 + 9) by lia.
    clear E Hd. assert (((m - 1) * 10 + 9) mod 10 = 9) as -> by zdm.
    assert (((m - 1) * 10 + 9) / 10 = m - 1) as -> by zdm.
    rewrite Z.ltb_irrefl, wrap_id by (unfold in_u; lia). rewrite scale10_spec by (change (10 ^ Z.of_nat (Z.to_nat 9)) with 1000000000; lia).
    change (10 ^ Z.of_nat (Z.to_nat 9)) with 1000000000. lia.
Qed.

Lemma compress_amount_range n : in_u 64 (compress_amount n).
Proof.
  unfold compress_amount, coins_math_compress_amount. destruct (n =? 0); [by split|].
  destruct (strip_zeros 10 n 0) as [m e]. destruct (e <? 9); apply wrap_range; lia.
Qed.

(** ** Scripts *)

Lemma drop_nth (s : list Z) i : (i < length s)%nat -> drop i s = nth i s 0 :: drop (S i) s.
Proof. revert i. induction s as [|x s IH]; intros [|i] Hi; cbn in *; try lia; [done|]. apply IH. lia. Qed.

Lemma chunk_length s i n : (i + n <= length s)%nat -> length (chunk s i n) = n.
Proof. intros. unfold chunk. rewrite length_take, length_drop. lia. Qed.
Lemma chunk_bytes s i n : bytes s -> bytes (chunk s i n).
Proof. intros. by apply digits_take, digits_drop. Qed.

Lemma chunk_drop s i n : drop i s = chunk s i n ++ drop (i + n) s.
Proof. unfold chunk. by rewrite <- drop_drop, take_drop. Qed.

Lemma chunk_all (s : list Z) n : length s = n -> chunk s 0 n = s.
Proof. intros <-. unfold chunk. rewrite drop_0. by apply take_ge. Qed.

Ltac shape_hyps :=
  repeat match goal with
  | H : _ && _ = true |- _ => apply andb_prop in H as [H ?]
  | H : (_ =? _) = true |- _ => apply Z.eqb_eq in H
  | H : script_size ?s = _ |- _ => apply (f_equal Z.to_nat) in H; unfold script_size in H; rewrite Nat2Z.id in H
  end; unfold sdata in *;
  repeat match goal with
  | H : context [Z.to_nat ?k] |- _ => let v := eval vm_compute in (Z.to_nat k) in change (Z.to_nat k) with v in H
  | |- context [Z.to_nat ?k] => let v := eval vm_compute in (Z.to_nat k) in change (Z.to_nat k) with v
  end.

Ltac peel s i := rewrite (drop_nth s i) by lia.

(** The four shapes, as bytes. *)
Lemma p2pkh_frame s : script_is_p2pkh s = true ->
  s = OP_DUP :: OP_HASH160 :: 20 :: chunk s 3 20 ++ [OP_EQUALVERIFY; OP_CHECKSIG] /\ length s = 25%nat.
Proof.
  unfold script_is_p2pkh. intros E. shape_hyps. split; [|done]. rewrite <- (drop_0 s) at 1.
  peel s 0%nat. peel s 1%nat. peel s 2%nat. rewrite (chunk_drop s 3 20). cbn [Nat.add].
  peel s 23%nat. peel s 24%nat. rewrite (drop_ge s 25) by lia. congruence.
Qed.

Lemma p2sh_frame s : script_is_p2sh s = true ->
  s = OP_HASH160 :: 20 :: chunk s 2 20 ++ [OP_EQUAL] /\ length s = 23%nat.
Proof.
  unfold script_is_p2sh. intros E. shape_hyps. split; [|done]. rewrite <- (drop_0 s) at 1.
  peel s 0%nat. peel s 1%nat. rewrite (chunk_drop s 2 20). cbn [Nat.add].
  peel s 22%nat. rewrite (drop_ge s 23) by lia. congruence.
Qed.

Lemma compressed_p2pk_frame s : script_is_compressed_p2pk s = true ->
  s = 33 :: sdata s 1 :: chunk s 2 32 ++ [OP_CHECKSIG] /\ length s = 35%nat /\ (sdata s 1 = 2 \/ sdata s 1 = 3).
Proof.
  unfold script_is_compressed_p2pk. intros E. apply andb_prop in E as [E Ht]. apply orb_prop in Ht.
  rewrite !Z.eqb_eq in Ht. shape_hyps. split_and!; [|done..]. rewrite <- (drop_0 s) at 1.
  peel s 0%nat. peel s 1%nat. rewrite (chunk_drop s 2 32). cbn [Nat.add].
  peel s 34%nat. rewrite (drop_ge s 35) by lia. congruence.
Qed.

Lemma uncompressed_p2pk_frame s : script_is_uncompressed_p2pk_pattern s = true ->
  s = 65 :: chunk s 1 65 ++ [OP_CHECKSIG] /\ chunk s 1 65 = 4 :: chunk s 2 32 ++ chunk s 34 32 /\ length s = 67%nat.
Proof.
  unfold script_is_uncompressed_p2pk_pattern. intros E. shape_hyps.
  assert (drop 1 s = 4 :: chunk s 2 32 ++ chunk s 34 32 ++ [OP_CHECKSIG]) as D.
  { peel s 1%nat. rewrite (chunk_drop s 2 32), (chunk_drop s (2 + 32) 32). cbn [Nat.add].
    peel s 66%nat. rewrite (drop_ge s 67) by lia. congruence. }
  assert (chunk s 1 65 = 4 :: chunk s 2 32 ++ chunk s 34 32) as C.
  { unfold chunk at 1. rewrite D, app_assoc. cbn [take]. f_equal. apply take_app_length'.
    rewrite length_app, !chunk_length by lia. done. }
  split_and!; [|done|done]. rewrite C. rewrite <- (drop_0 s) at 1. peel s 0%nat. rewrite D. cbn [app].
  rewrite <- app_assoc. congruence.
Qed.

(** What [secp256k1.h] documents of the two functions: an uncompressed key is
    four, X and Y; its compressed form is the parity of Y (2 or 3) and X; parsing
    either form of a key gives the same point, and a compressed key parses to a
    point with that X and that parity. *)
Class SecpLaws `{Secp256k1} : Prop := {
  parse_uncompressed x y p : length x = 32%nat -> length y = 32%nat ->
    secp_ec_pubkey_parse (4 :: x ++ y) = Some p ->
    secp_ec_pubkey_serialize false p = 4 :: x ++ y /\
    secp_ec_pubkey_parse (2 + nth 31 y 0 mod 2 :: x) = Some p;
  parse_compressed h x p : h = 2 \/ h = 3 -> length x = 32%nat -> secp_ec_pubkey_parse (h :: x) = Some p ->
    exists y, secp_ec_pubkey_serialize false p = 4 :: x ++ y /\ length y = 32%nat /\ nth 31 y 0 mod 2 = h - 2;
}.

Section Scripts.
Context `{Secp256k1}.

(** Compressing and decompressing gives the script back. *)
Definition script_restored (s : script) : Prop :=
  match script_compress s with
  | None => True
  | Some [] => False
  | Some (n :: payload) => script_decompress n payload = Some s
  end.

(** A valid uncompressed key whose last two bytes differ in parity. *)
Definition parity_byte_differs (s : script) : Prop :=
  script_is_uncompressed_p2pk_pattern s = true /\ pubkey_is_fully_valid (chunk s 1 65) = true /\
  sdata s 64 mod 2 <> sdata s 65 mod 2.

Lemma tag_value b : 0x04 .| (b .& 0x01) = 4 + b mod 2.
Proof.
  change 0x01 with (Z.ones 1). rewrite Z.land_ones by lia. change (2 ^ 1) with 2.
  pose proof (Z.mod_pos_bound b 2 ltac:(lia)). assert (b mod 2 = 0 \/ b mod 2 = 1) as [-> | ->] by lia; done.
Qed.

Lemma chunk_nth s i n k : (k < n)%nat -> nth k (chunk s i n) 0 = nth (i + k) s 0.
Proof.
  intros Hk. unfold chunk. revert i n k Hk. induction s as [|x s IH]; intros i n k Hk.
  - rewrite drop_nil, take_nil. by destruct k, (i + _)%nat.
  - destruct i as [|i]; cbn [drop Nat.add]; [|by apply IH]. destruct n as [|n]; [lia|]. cbn [take].
    destruct k as [|k]; [done|]. cbn. rewrite <- (drop_0 s). rewrite IH by lia. done.
Qed.

Lemma pubkey_set_id k : (length k <= 65)%nat -> pubkey_set k = k.
Proof. intros E. unfold pubkey_set. apply take_ge. by change (Z.to_nat PUBLIC_KEY_SIZE) with 65%nat. Qed.

(** The tag and payload of a compressed script. *)
Lemma script_compress_shape s p : bytes s -> script_compress s = Some p ->
  exists n payload, p = n :: payload /\ 0 <= n < SCRIPT_COMPRESS_SPECIAL_SCRIPTS /\
    arr (script_compress_special_size n) payload /\ script_compress_special_size n <> 0.
Proof.
  intros Hb. unfold script_compress, coins_math_script_compress, SCRIPT_COMPRESS_SPECIAL_SCRIPTS.
  assert (forall i n, (i + n <= length s)%nat -> arr (Z.of_nat n) (chunk s i n)) as Hc.
  { intros i n Hn. split; [by apply chunk_bytes|]. unfold len. by rewrite chunk_length. }
  destruct (script_is_p2pkh s) eqn:E1; [|destruct (script_is_p2sh s) eqn:E2; [|destruct (script_is_compressed_p2pk s) eqn:E3;
    [|destruct (script_is_uncompressed_p2pk_pattern s) eqn:E4; [|done]]]].
  - intros [= <-]. apply p2pkh_frame in E1 as [_ L]. eexists _, _. split; [done|]. split; [lia|].
    split; [apply (Hc 3%nat 20%nat); lia|done].
  - intros [= <-]. apply p2sh_frame in E2 as [_ L]. eexists _, _. split; [done|]. split; [lia|].
    split; [apply (Hc 2%nat 20%nat); lia|done].
  - intros [= <-]. apply compressed_p2pk_frame in E3 as (_ & L & Ht). eexists _, _. split; [done|].
    assert (arr 32 (chunk s 2 32)) by (apply (Hc 2%nat 32%nat); lia).
    by destruct Ht as [-> | ->]; (split; [lia|]).
  - destruct (negb _); [done|]. intros [= <-]. apply uncompressed_p2pk_frame in E4 as (_ & _ & L). eexists _, _. split; [done|].
    assert (arr 32 (chunk s 2 32)) by (apply (Hc 2%nat 32%nat); lia).
    rewrite tag_value. pose proof (Z.mod_pos_bound (sdata s 64) 2 ltac:(lia)).
    assert (sdata s 64 mod 2 = 0 \/ sdata s 64 mod 2 = 1) as [-> | ->] by lia; by (split; [lia|]).
Qed.

Lemma fully_valid_parse k : length k = 65%nat ->
  pubkey_is_fully_valid k = true <-> exists p, secp_ec_pubkey_parse k = Some p.
Proof.
  intros L. unfold pubkey_is_fully_valid, pubkey_is_valid, len. rewrite L. cbn [andb Z.ltb Z.compare Z.of_nat].
  destruct (secp_ec_pubkey_parse k); split; [eauto|done|done|by intros []].
Qed.

(** The fourth shape: what decompression makes of the stored parity bit. *)
Lemma uncompressed_restored `{!SecpLaws} s : script_is_uncompressed_p2pk_pattern s = true ->
  pubkey_is_fully_valid (chunk s 1 65) = true ->
  script_decompress (4 + sdata s 64 mod 2) (chunk s 2 32) = Some s <-> sdata s 64 mod 2 = sdata s 65 mod 2.
Proof.
  intros E V. destruct (uncompressed_p2pk_frame s E) as (F & C & L). rewrite C in V, F.
  assert (length (chunk s 2 32) = 32%nat /\ length (chunk s 34 32) = 32%nat) as [Lx Ly] by (rewrite !chunk_length; lia).
  assert (sdata s 65 = nth 31 (chunk s 34 32) 0) as N by (rewrite chunk_nth by lia; done).
  apply fully_valid_parse in V as [p Hp]; [|cbn [length]; rewrite length_app; lia].
  destruct (parse_uncompressed _ _ p Lx Ly Hp) as [Hs Hc]. rewrite <- N in Hc.
  pose proof (Z.mod_pos_bound (sdata s 64) 2 ltac:(lia)). pose proof (Z.mod_pos_bound (sdata s 65) 2 ltac:(lia)).
  set (b := sdata s 64 mod 2) in *. set (b' := sdata s 65 mod 2) in *.
  unfold script_decompress, coins_math_script_decompress.
  assert ((4 + b =? 0) = false /\ (4 + b =? 1) = false /\ (4 + b =? 2) || (4 + b =? 3) = false /\ (4 + b =? 4) || (4 + b =? 5) = true)
    as (-> & -> & -> & ->) by (assert (b = 0 \/ b = 1) as [-> | ->] by lia; done).
  rewrite wrap_id by (unfold in_u; lia). replace (4 + b - 2) with (2 + b) by lia. rewrite (chunk_all _ 32 Lx).
  rewrite pubkey_set_id by (cbn [length]; lia).
  unfold pubkey_decompress. change (pubkey_is_valid (2 + b :: chunk s 2 32)) with (0 <? len (2 + b :: chunk s 2 32)).
  rewrite (proj2 (Z.ltb_lt _ _)) by (unfold len; cbn [length]; lia). cbn [negb].
  split.
  - destruct (secp_ec_pubkey_parse (2 + b :: chunk s 2 32)) as [q|] eqn:Q; [|done].
    destruct (parse_compressed (2 + b) _ q ltac:(lia) Lx Q) as (y & Sq & Lq & Par).
    rewrite Sq, pubkey_set_id by (cbn [length]; rewrite length_app; lia).
    destruct (negb _); [done|]. intros [= Eq]. pose proof (eq_trans Eq F) as G. injection G as G.
    apply app_inv_tail, app_inv_head in G. subst y. rewrite <- N in Par. fold b' in Par. lia.
  - intros Hb. rewrite Hb, Hc, Hs, pubkey_set_id by (cbn [length]; rewrite length_app; lia).
    assert ((len (4 :: chunk s 2 32 ++ chunk s 34 32) =? 65) = true) as ->.
    { apply Z.eqb_eq. unfold len. cbn [length]. rewrite length_app. lia. }
    cbn [negb]. f_equal. rewrite F at 3. done.
Qed.

Lemma restored_spec `{!SecpLaws} s : bytes s -> script_restored s <-> ~ parity_byte_differs s.
Proof.
  intros Hb. unfold script_restored, script_compress, coins_math_script_compress, parity_byte_differs.
  destruct (script_is_p2pkh s) eqn:E1; [|destruct (script_is_p2sh s) eqn:E2; [|destruct (script_is_compressed_p2pk s) eqn:E3;
    [|destruct (script_is_uncompressed_p2pk_pattern s) eqn:E4]]].
  - apply p2pkh_frame in E1 as [F L]. split; [intros _ (U & _)|intros _].
    + apply uncompressed_p2pk_frame in U. lia.
    + change (script_decompress 0 (chunk s 3 20)) with
        (Some (OP_DUP :: OP_HASH160 :: 20 :: chunk (chunk s 3 20) 0 20 ++ [OP_EQUALVERIFY; OP_CHECKSIG])).
      rewrite (chunk_all (chunk s 3 20)) by (apply chunk_length; lia). by rewrite F at 2.
  - apply p2sh_frame in E2 as [F L]. split; [intros _ (U & _)|intros _].
    + apply uncompressed_p2pk_frame in U. lia.
    + change (script_decompress 1 (chunk s 2 20)) with (Some (OP_HASH160 :: 20 :: chunk (chunk s 2 20) 0 20 ++ [OP_EQUAL])).
      rewrite (chunk_all (chunk s 2 20)) by (apply chunk_length; lia). by rewrite F at 2.
  - apply compressed_p2pk_frame in E3 as (F & L & T). split; [intros _ (U & _)|intros _].
    + apply uncompressed_p2pk_frame in U. lia.
    + assert (script_decompress (sdata s 1) (chunk s 2 32) = Some (33 :: sdata s 1 :: chunk (chunk s 2 32) 0 32 ++ [OP_CHECKSIG])) as ->
        by (by destruct T as [-> | ->]).
      rewrite (chunk_all (chunk s 2 32)) by (apply chunk_length; lia). by rewrite <- F.
  - pose proof (uncompressed_p2pk_frame s E4) as (_ & _ & L).
    rewrite pubkey_set_id by (rewrite chunk_length; lia). destruct (pubkey_is_fully_valid (chunk s 1 65)) eqn:V; cbn [negb].
    + rewrite tag_value, (uncompressed_restored s E4 V). split; [by intros -> (_ & _ & ?)|]. intros N.
      destruct (decide (sdata s 64 mod 2 = sdata s 65 mod 2)); tauto.
    + split; [|done]. intros _ (_ & ? & _). done.
  - split; [|done]. intros _ (? & _). done.
Qed.

End Scripts.

(** C34: script compression, as the undo and coin records use it. A compressed
    script is a tag below six and a payload of exactly the size the reader
    expects for that tag. Decompression gives the script back for the
    pay-to-public-key-hash, pay-to-script-hash and compressed public-key shapes,
    for scripts stored raw, and for an uncompressed public key exactly when the
    byte the parity is read from (the last but one of the key) agrees in parity
    with the last byte of the key, which carries the parity of Y: for any other
    valid uncompressed key the script read back is not the one written. *)
Theorem script_codec_spec `{SecpLaws} s : bytes s ->
  (forall p, script_compress s = Some p ->
   exists n payload, p = n :: payload /\ 0 <= n < SCRIPT_COMPRESS_SPECIAL_SCRIPTS /\
   len payload = script_compress_special_size n) /\
  (script_restored s <-> ~ parity_byte_differs s).
Proof.
  intros Hb. split; [|by apply restored_spec].
  intros p E. destruct (script_compress_shape s p Hb E) as (n & pay & -> & Hn & [_ Hl] & _). eauto.
Qed.

(** A group in which Y is its parity, to run the codec on. *)
Section ToyKeys.
Definition toy_parse (k : list Z) : option (list Z * Z) :=
  match k with
  | h :: r =>
      if (h =? 4) && (length r =? 64)%nat && (bool_decide (take 31 (drop 32 r) = replicate 31 0)) &&
         ((nth 63 r 0 =? 0) || (nth 63 r 0 =? 1)) then Some (take 32 r, nth 63 r 0)
      else if ((h =? 2) || (h =? 3)) && (length r =? 32)%nat then Some (r, h - 2)
      else None
  | [] => None
  end.
#[local] Instance toy_secp : Secp256k1 := {
  secp_ec_pubkey_parse := toy_parse;
  secp_ec_pubkey_serialize compressed p :=
    if compressed : bool then (2 + snd p) :: fst p else 4 :: fst p ++ replicate 31 0 ++ [snd p];
}.

#[local] Instance toy_laws : SecpLaws.
Proof.
  split.
  - intros x y p Lx Ly. cbn [secp_ec_pubkey_parse toy_secp toy_parse]. rewrite length_app, Lx, Ly. cbn [Nat.eqb Z.eqb andb Nat.add].
    rewrite drop_app_length' by done. rewrite take_app_length' by done. rewrite app_nth2 by lia. rewrite Lx. cbn [Nat.sub].
    case_bool_decide as E; [|done]. cbn [andb orb]. destruct ((nth 31 y 0 =? 0) || (nth 31 y 0 =? 1)) eqn:B; [|done].
    intros [= <-]. cbn [secp_ec_pubkey_serialize toy_secp fst snd]. split.
    + do 2 f_equal. rewrite <- E. rewrite <- (take_drop 31 y) at 3. f_equal.
      rewrite (drop_nth y 31) by lia. by rewrite drop_ge by lia.
    + assert (nth 31 y 0 = 0 \/ nth 31 y 0 = 1) as [-> | ->] by (apply orb_prop in B; rewrite !Z.eqb_eq in B; done);
        reflexivity.
  - intros h x p Hh Lx. cbn [secp_ec_pubkey_parse toy_secp toy_parse]. rewrite Lx.
    destruct Hh as [-> | ->]; cbn; intros [= <-]; cbn; eexists (replicate 31 0 ++ [_]); by repeat split.
Qed.

Lemma script_codec_spec_witness :
  let key y := 65 :: 4 :: replicate 32 7 ++ replicate 31 0 ++ [y; OP_CHECKSIG] in
  script_restored (key 0) /\ ~ script_restored (key 1).
Proof.
  intros key. split.
  - apply (script_codec_spec (key 0)); [apply bytes_check; reflexivity|]. intros (_ & _ & N). by apply N.
  - intros R. apply (script_codec_spec (key 1)) in R; [|apply bytes_check; reflexivity]. apply R.
    split; [reflexivity|]. split; [reflexivity|]. by vm_compute.
Defined.
End ToyKeys.

(** ** The wire format of undo records *)

Section UndoWire.
Context `{Allocator} `{HostOrder} `{Secp256k1}.

Definition script_cenc (s : script) : list Z :=
  match script_compress s with
  | Some comp => comp
  | None => varint_enc (script_size s + SCRIPT_COMPRESS_SPECIAL_SCRIPTS) ++ s
  end.
Definition txout_cenc (o : tx_out) : list Z := varint_enc (compress_amount (value o)) ++ script_cenc (script_pub_key o).
Definition undo_enc (u : tx_in_undo) : list Z :=
  varint_enc (u_height u * 2 + (if u_coinbase u then 1 else 0)) ++
  (if 0 <? u_height u then varint_enc (u64 (u_version u)) else []) ++ txout_cenc (u_txout u).
Definition block_undo_enc (u : block_undo) : list Z :=
  vec_enc (vec_enc undo_enc) (vtxundo u) ++ old_sprout_tree_root u.

(** A spent output as the chain can hold it. *)
Definition spent_wf (o : tx_out) : Prop :=
  0 <= value o <= MAX_COMPRESSIBLE /\ script_wf (script_pub_key o) /\ script_restored (script_pub_key o).

(** The version is kept only beside a height. *)
Record undo_wf (u : tx_in_undo) : Prop := {
  wf_u_txout : spent_wf (u_txout u);
  wf_u_height : in_u 32 (u_height u);
  wf_u_version : in_s 32 (u_version u);
  wf_u_bare : u_height u = 0 -> u_version u = 0;
}.
Definition block_undo_wf (u : block_undo) : Prop :=
  vec_wf UINT32_MAX (vec_wf UINT32_MAX undo_wf) (vtxundo u) /\ u256 (old_sprout_tree_root u).

Lemma varint_enc_nonempty n : 1 <= len (varint_enc n).
Proof. unfold varint_enc, len. rewrite length_app. cbn [length]. lia. Qed.

Lemma writes_varint n : in_u 64 n -> writes (write_varint n) (varint_enc n).
Proof.
  intros Hn. assert (writes (write_each (varint_enc n)) (varint_enc n)) as W by (apply writes_each, varint_enc_bytes, Hn).
  intros s. unfold write_varint, stream_write_varint. rewrite varint_tmp_spec by done. apply W.
Qed.

Lemma script_plus6 s : script_wf s -> in_u 64 (script_size s + SCRIPT_COMPRESS_SPECIAL_SCRIPTS).
Proof. intros [_ Hs]. unfold in_u, SCRIPT_COMPRESS_SPECIAL_SCRIPTS, script_size, MAX_SCRIPT_SIZE in *. lia. Qed.

Lemma writes_txout o : spent_wf o -> writes (compressed_txout_serialize o) (txout_cenc o).
Proof.
  intros (Hv & Hs & _). unfold compressed_txout_serialize, txout_cenc, script_cenc.
  rewrite wrap_id by (unfold in_u, MAX_COMPRESSIBLE in *; lia).
  apply writes_seq; [apply writes_varint, compress_amount_range|].
  destruct (script_compress (script_pub_key o)) as [p|] eqn:E.
  - destruct (script_compress_shape _ _ (proj1 Hs) E) as (n & pay & -> & Hn & [Hb _] & _). apply writes_bytes.
    unfold SCRIPT_COMPRESS_SPECIAL_SCRIPTS in *. constructor; [unfold in_u; lia|done].
  - apply writes_seq; [by apply writes_varint, script_plus6|apply writes_bytes, Hs].
Qed.

Lemma reads_txout o : spent_wf o -> reads compressed_txout_deserialize (txout_cenc o) o.
Proof.
  intros (Hv & Hs & Hr). unfold compressed_txout_deserialize, txout_cenc, script_cenc.
  eapply reads_bind; [apply reads_varint, compress_amount_range|].
  rewrite amount_roundtrip by done. rewrite swrap_id by (unfold in_s, MAX_COMPRESSIBLE in *; lia).
  unfold script_restored in Hr. destruct (script_compress (script_pub_key o)) as [p|] eqn:E.
  - destruct (script_compress_shape _ _ (proj1 Hs) E) as (n & pay & -> & Hn & Hp & Hz).
    assert (varint_enc n = [n]) as Ev.
    { unfold varint_enc, SCRIPT_COMPRESS_SPECIAL_SCRIPTS in *. rewrite (proj2 (Z.leb_le n 0x7f)) by lia. cbn [app]. f_equal. apply Z.mod_small. lia. }
    change (n :: pay) with ([n] ++ pay). rewrite <- Ev. unfold SCRIPT_COMPRESS_SPECIAL_SCRIPTS in *.
    eapply reads_bind; [apply reads_varint; unfold in_u; lia|]. rewrite (proj2 (Z.ltb_lt n 6)) by lia.
    apply reads_fail_if; [by apply Z.eqb_neq|]. rewrite <- (app_nil_r pay).
    eapply reads_bind; [by apply reads_arr|]. rewrite Hr. destruct o. apply reads_ret.
  - eapply reads_bind; [by apply reads_varint, script_plus6|]. destruct Hs as [Hb Hl].
    unfold SCRIPT_COMPRESS_SPECIAL_SCRIPTS. replace (script_size (script_pub_key o) + 6 - 6) with (script_size (script_pub_key o)) by lia.
    rewrite (proj2 (Z.ltb_ge _ _)) by (unfold script_size; lia).
    apply reads_fail_if; [by apply Z.ltb_ge|]. eapply reads_map; [by apply reads_arr|]. by destruct o.
Qed.

Lemma i32_u64 v : in_s 32 v -> i32 (u64 v) = v.
Proof.
  intros Hv. transitivity (i32 v); [|by apply swrap_id]. unfold swrap, wrap. cbv zeta.
  by rewrite (Z.mod_mod_divide v (2 ^ 64) (2 ^ 32)) by (by exists (2 ^ 32)).
Qed.

Lemma undo_code u : undo_wf u ->
  let code := u_height u * 2 + (if u_coinbase u then 1 else 0) in
  in_u 64 code /\ u32 (code / 2) = u_height u /\ negb (code .& 1 =? 0) = u_coinbase u.
Proof.
  intros [_ [Hu1 Hu2] _ _]. cbv zeta. split; [unfold in_u; destruct (u_coinbase u); lia|]. split.
  - rewrite <- (wrap_id 32 (u_height u)) at 2 by (unfold in_u; lia). f_equal. destruct (u_coinbase u); zdm.
  - change 1 with (Z.ones 1) at 2. rewrite Z.land_ones by lia. change (2 ^ 1) with 2.
    destruct (u_coinbase u); [apply negb_true_iff, Z.eqb_neq|apply negb_false_iff, Z.eqb_eq]; zdm.
Qed.

Lemma writes_undo u : undo_wf u -> writes (tx_in_undo_serialize u) (undo_enc u).
Proof.
  intros W. destruct (undo_code u W) as (Hc & _ & _). apply writes_seq; [by apply writes_varint|].
  apply writes_seq; [|apply writes_txout, W]. apply writes_if. intros _. apply writes_varint. apply wrap_range. lia.
Qed.

Lemma reads_undo u : undo_wf u -> reads (tx_in_undo_deserialize tx_in_undo_init) (undo_enc u) u.
Proof.
  intros W. destruct (undo_code u W) as (Hc & Hh & Hb). unfold tx_in_undo_deserialize, undo_enc.
  eapply reads_bind; [by apply reads_varint|]. rewrite Hh, Hb. eapply reads_bind.
  - apply (reads_if _ _ _ (u_version u)).
    + intros _. eapply reads_map; [apply reads_varint, wrap_range; lia|]. apply i32_u64, W.
    + intros Hz. apply Z.ltb_ge in Hz. destruct W as [_ [? _] _ Hbare]. cbn. apply Hbare. lia.
  - eapply reads_map; [apply reads_txout, W|]. by destruct u.
Qed.

Lemma script_cenc_len s : script_wf s -> 1 <= len (script_cenc s).
Proof.
  intros [Hb Hs]. unfold script_cenc. destruct (script_compress s) as [p|] eqn:E.
  - destruct (script_compress_shape _ _ Hb E) as (n & pay & -> & _). unfold len. cbn [length]. lia.
  - rewrite len_app. pose proof (varint_enc_nonempty (script_size s + SCRIPT_COMPRESS_SPECIAL_SCRIPTS)).
    pose proof (len_nonneg s). lia.
Qed.

Lemma undo_enc_len u : undo_wf u -> 3 <= len (undo_enc u).
Proof.
  intros [(_ & Hs & _) _ _ _]. unfold undo_enc, txout_cenc. rewrite !len_app.
  pose proof (varint_enc_nonempty (u_height u * 2 + (if u_coinbase u then 1 else 0))).
  pose proof (varint_enc_nonempty (compress_amount (value (u_txout u)))). pose proof (script_cenc_len _ Hs).
  match goal with |- context [len ?x] => lazymatch x with if _ then _ else _ => pose proof (len_nonneg x) end end. lia.
Qed.

(** A guard that a stream with room for the encoding passes. *)
Lemma reads_room {A} (p : byte_stream -> bool) (k : reader A) e v :
  (forall s, len e <= stream_remaining s -> p s = false) -> reads k e v -> reads (rcheck p k) e v.
Proof.
  intros Hp Hk s rest Hwf He Hu. unfold rcheck, rfail_if. rewrite Hp; [eauto|].
  rewrite stream_remaining_unread, Hu, len_app by done. pose proof (len_nonneg rest). lia.
Qed.

Lemma vec_room {A} d (enc : A -> list Z) max (P : A -> Prop) l e :
  vec_wf max P l -> (forall x, P x -> d <= len (enc x)) -> len l * d <= len (concat (map enc l) ++ e).
Proof.
  intros [_ HP] Hd. rewrite len_app. pose proof (len_nonneg e).
  assert (len l * d <= len (concat (map enc l))); [|lia]. apply concat_len_ge. eapply Forall_impl; [|exact HP]. auto.
Qed.

Lemma count_range {A} max (P : A -> Prop) l : vec_wf max P l -> max <= UINT32_MAX -> in_u 64 (len l).
Proof. intros [Hl _] Hm. unfold in_u, UINT32_MAX, len in *. lia. Qed.

Section UndoRead.
Context (M : memory_ok).

Lemma writes_tx_undo u : vec_wf UINT32_MAX undo_wf u -> writes (tx_undo_serialize u) (vec_enc undo_enc u).
Proof. intros W. by eapply writes_vec; [apply writes_undo|exact W|]. Qed.

Lemma reads_tx_undo u : vec_wf UINT32_MAX undo_wf u -> reads tx_undo_deserialize (vec_enc undo_enc u) u.
Proof.
  intros W. unfold tx_undo_deserialize, vec_enc.
  eapply reads_bind; [eapply reads_compact_size, count_range; [exact W|done]|].
  apply reads_room.
  - intros s Hs. apply Z.ltb_ge, Z.div_le_lower_bound; [done|]. rewrite <- (app_nil_r (concat _)) in Hs.
    pose proof (vec_room 3 undo_enc _ _ u [] W undo_enc_len). lia.
  - unfold tx_undo_alloc. rewrite array_alloc_ok by done. unfold len. rewrite Nat2Z.id. apply reads_elems.
    destruct W as [_ HP]. eapply Forall_impl; [|exact HP]. apply reads_undo.
Qed.

Lemma reads_block_undo u u0 : block_undo_wf u -> reads (block_undo_deserialize u0) (block_undo_enc u) u.
Proof.
  intros [W Hr]. unfold block_undo_deserialize, block_undo_enc.
  change (vec_enc (vec_enc undo_enc) (vtxundo u)) with
    (compact_size_enc (len (vtxundo u)) ++ concat (map (vec_enc undo_enc) (vtxundo u))). rewrite <- app_assoc.
  eapply reads_bind; [eapply reads_compact_size, count_range; [exact W|done]|].
  apply reads_room.
  - intros s Hs. apply Z.ltb_ge. enough (len (vtxundo u) * 1 <= len (concat (map (vec_enc undo_enc) (vtxundo u)) ++ old_sprout_tree_root u)) by lia.
    eapply vec_room; [exact W|]. intros x _. unfold vec_enc. rewrite len_app. pose proof (len_compact (len x)).
    pose proof (len_nonneg (concat (map undo_enc x))). lia.
  - unfold block_undo_alloc. rewrite array_alloc_ok by done. unfold len. rewrite Nat2Z.id. destruct W as [_ HP].
    eapply reads_bind; [apply reads_elems; eapply Forall_impl; [|exact HP]; apply reads_tx_undo|].
    eapply reads_map; [by apply reads_arr|]. by destruct u.
Qed.

Lemma writes_block_undo u : block_undo_wf u -> writes (block_undo_serialize u) (block_undo_enc u).
Proof.
  intros [W Hr]. unfold block_undo_serialize, block_undo_enc.
  eapply writes_vec_seq; [apply writes_tx_undo|exact W|done|by eapply writes_arr].
Qed.

End UndoRead.
End UndoWire.

(** Undo records survive the disk. For a block undo whose spent outputs carry
    an amount the chain can hold and a script that compression restores, and whose
    records keep a version only beside a height, the serialiser appends exactly
    the encoding, and the deserialiser, on any stream that continues with it,
    returns the record and consumes exactly those bytes: its plausibility guards
    never refuse a record the node wrote. Amounts up to twenty billion coins
    survive the decimal compression. *)
Theorem undo_record_roundtrip `{Allocator} `{HostOrder} `{Secp256k1} u u0 :
  memory_ok -> block_undo_wf u ->
  (forall s, stream_wf s -> owns_data s = true -> error s = false -> size s + len (block_undo_enc u) < 2 ^ 64 ->
   exists s', block_undo_serialize u s = (s', true) /\ data s' = data s ++ block_undo_enc u) /\
  (forall s rest, stream_wf s -> error s = false -> unread s = block_undo_enc u ++ rest ->
   block_undo_deserialize u0 s = (advance s (len (block_undo_enc u)), Some u)) /\
  (forall n, 0 <= n <= MAX_COMPRESSIBLE -> decompress_amount (compress_amount n) = n).
Proof.
  intros M W. split_and!.
  - intros s Hs Ho He Hf. destruct (writes_block_undo u W s Hs Hf) as [Hw Hok]. specialize (Hok Ho He M).
    destruct (block_undo_serialize u s) as [s' ok]. cbn in Hok. subst ok. exists s'. split; [done|]. apply Hw.
  - intros s rest Hs He Hu. by apply (reads_block_undo M u u0 W s rest).
  - apply amount_roundtrip.
Qed.

Section UndoWitness.
#[local] Instance undo_alloc : Allocator := fun _ => true.
#[local] Instance undo_host : HostOrder := false.
#[local] Instance undo_secp : Secp256k1 := toy_secp.

(** A spent coinbase output paying to a key hash, and one with a raw script. *)
Definition sample_undo : block_undo :=
  mk_block_undo
    [[mk_tx_in_undo (mk_tx_out 1250000000 (OP_DUP :: OP_HASH160 :: 20 :: replicate 20 9 ++ [OP_EQUALVERIFY; OP_CHECKSIG])) true 478544 4;
      mk_tx_in_undo (mk_tx_out 1 [OP_1]) false 0 0]; []] (replicate 32 3).

Lemma sample_undo_wf : block_undo_wf sample_undo.
Proof.
  split; [|by split; [apply bytes_check; vm_compute; reflexivity|]]. split; [vm_compute; congruence|].
  constructor; [|constructor; [|constructor]].
  - split; [vm_compute; congruence|]. constructor; [|constructor; [|constructor]].
    + split; [|by split|by split|by vm_compute]. split; [by split|]. split; [|reflexivity].
      split; [apply bytes_check; vm_compute; reflexivity|vm_compute; congruence].
    + split; [|by split|by split|by vm_compute]. split; [by split|]. split; [|exact I].
      split; [apply bytes_check; vm_compute; reflexivity|vm_compute; congruence].
  - split; [vm_compute; congruence|constructor].
Qed.

Lemma undo_record_roundtrip_witness :
  block_undo_deserialize block_undo_init (stream_init_from_data (block_undo_enc sample_undo ++ [7])) =
    (advance (stream_init_from_data (block_undo_enc sample_undo ++ [7])) (len (block_undo_enc sample_undo)), Some sample_undo).
Proof.
  destruct (undo_record_roundtrip sample_undo block_undo_init (fun _ => eq_refl) sample_undo_wf) as (_ & R & _).
  apply (R _ [7]); [|reflexivity|reflexivity].
  apply stream_from_data_wf; [apply bytes_check; vm_compute; reflexivity|by vm_compute].
Defined.
End UndoWitness.

(** ** Spending *)

Lemma is_available_spec c pos :
  coins_is_available c pos = true <-> exists o, c_vout c !! Z.to_nat pos = Some o /\ tx_out_is_null o = false.
Proof.
  unfold coins_is_available, coins_math_is_available. destruct (c_vout c !! Z.to_nat pos) as [o|].
  - rewrite negb_true_iff. split; [by exists o|by intros (? & [= <-] & ?)].
  - split; [done|by intros (? & ? & _)].
Qed.

Lemma is_pruned_spec c : coins_is_pruned c = true <-> forall pos, 0 <= pos -> coins_is_available c pos = false.
Proof.
  unfold coins_is_pruned, coins_math_is_pruned. rewrite forallb_forall. split.
  - intros Hn pos _. apply not_true_iff_false. rewrite is_available_spec. intros (o & Hl & Ho).
    apply list_elem_of_lookup_2, list_elem_of_In in Hl. apply Hn in Hl. congruence.
  - intros Ha o Ho. apply list_elem_of_In, list_elem_of_lookup in Ho as [i Hi].
    specialize (Ha (Z.of_nat i) ltac:(lia)). apply not_true_iff_false in Ha. rewrite is_available_spec, Nat2Z.id in Ha.
    destruct (tx_out_is_null o) eqn:E; [done|]. exfalso. apply Ha. eauto.
Qed.
