(* ===== verification/CoinsMap.v ===== *)
(** * The coins hash table

    Model of the open-addressed hash table of
    [core/modules/coins/include/coins/coins_view.h] and [src/coins_view.c] (and of
    its test hook, [coins_fault.c]), and the proof that it is a finite map. A
    pointer to an entry is the index of its bucket; an unoccupied bucket is [None]. *)

From stdpp Require Import base tactics list numbers option gmap.
From Stdlib Require Import ZArith Lia.
From S2P Require Import Prelude Serialize ByteOrder Params Script Hash Transaction Coins.
#[local] Open Scope Z_scope.
#[local] Open Scope list_scope.

Definition COINS_CACHE_DIRTY : Z := 1.
Definition COINS_CACHE_FRESH : Z := 2.

Record coins_cache_entry := mk_entry { e_coins : coins; e_flags : Z }.
Definition fresh_entry : coins_cache_entry := mk_entry coins_init 0.

Abbreviation bucket := (option (uint256 * coins_cache_entry)).
Record coins_map := mk_map { buckets : list bucket; m_size : nat; degraded_hash : bool }.

Definition num_buckets (m : coins_map) : nat := length (buckets m).

Definition COINS_MAP_INITIAL_BUCKETS : nat := Z.to_nat 4096.
Definition COINS_MAP_LOAD_FACTOR_NUM : nat := 3.
Definition COINS_MAP_LOAD_FACTOR_DEN : nat := 4.
Definition sizeof_coins_map_entry : Z := 80.

Definition coins_map_init : coins_map := mk_map [] 0 false.
Definition coins_map_free (m : coins_map) : coins_map := mk_map [] 0 (degraded_hash m).

(** The test hook may change the hash of an empty table only. *)
Definition coins_fault_arm_map_hash_collapse (m : coins_map) (on : bool) : coins_map * bool :=
  if (m_size m =? 0)%nat then (mk_map (buckets m) (m_size m) on, true) else (m, false).

Section Table.
Context `{Allocator} `{HostOrder}.

(** [memcpy] of the first eight bytes into a [uint64_t]. *)
Definition coins_map_hash (txid : uint256) : Z := load_object 8 (take 8 txid).

Definition coins_map_bucket_of (m : coins_map) (txid : uint256) : Z :=
  if degraded_hash m then 0 else coins_map_hash txid.

(** [idx]: the first bucket of a probe, and the [i]-th one after it. *)
Definition home (m : coins_map) (n : nat) (txid : uint256) : nat :=
  Z.to_nat (coins_map_bucket_of m txid mod Z.of_nat n).
Definition probe_slot (n idx i : nat) : nat := (idx + i) mod n.

(** The loop of [coins_map_find]: the matching bucket, if it comes before the
    first unoccupied one; [fuel] buckets are left to look at, from the [i]-th. *)
Fixpoint find_loop (b : list bucket) (txid : uint256) (idx i fuel : nat) : option nat :=
  match fuel with
  | O => None
  | S fuel =>
      let slot := probe_slot (length b) idx i in
      match b !! slot with
      | Some (Some (k, _)) => if uint256_cmp k txid =? 0 then Some slot else find_loop b txid idx (S i) fuel
      | _ => None
      end
  end.

Definition coins_map_find (m : coins_map) (txid : uint256) : option nat :=
  if (num_buckets m =? 0)%nat then None
  else find_loop (buckets m) txid (home m (num_buckets m) txid) 0 (num_buckets m).

(** The loop that looks for an unoccupied bucket. *)
Fixpoint free_loop (b : list bucket) (idx i fuel : nat) : option nat :=
  match fuel with
  | O => None
  | S fuel =>
      let slot := probe_slot (length b) idx i in
      match b !! slot with
      | Some None => Some slot
      | _ => free_loop b idx (S i) fuel
      end
  end.

(** One turn of the loop over the old buckets, with [m->size++]. *)
Definition rehash_step (m : coins_map) (acc : list bucket * nat) (e : bucket) : list bucket * nat :=
  let '(b, size) := acc in
  match e with
  | None => (b, size)
  | Some (k, v) =>
      match free_loop b (home m (length b) k) 0 (length b) with
      | Some slot => (<[slot := Some (k, v)]> b, S size)
      | None => (b, size)
      end
  end.

(** Without memory the table stays as it is. *)
Definition coins_map_rehash (m : coins_map) (new_num_buckets : nat) : coins_map :=
  if alloc_ok (Z.of_nat new_num_buckets * sizeof_coins_map_entry) then
    let '(b, size) := fold_left (rehash_step m) (buckets m) (replicate new_num_buckets None, 0%nat) in
    mk_map b size (degraded_hash m)
  else m.

(** The outer [None] is a division by zero ([h % m->num_buckets] after a first
    allocation that failed); the inner one is the null pointer. *)
Definition coins_map_insert (m : coins_map) (txid : uint256) : option (coins_map * option nat) :=
  match coins_map_find m txid with
  | Some slot => Some (m, Some slot)
  | None =>
      let m :=
        if (num_buckets m =? 0)%nat ||
           (num_buckets m * COINS_MAP_LOAD_FACTOR_NUM <=? m_size m * COINS_MAP_LOAD_FACTOR_DEN)%nat
        then coins_map_rehash m (if (num_buckets m =? 0)%nat then COINS_MAP_INITIAL_BUCKETS else num_buckets m * 2)
        else m in
      if (num_buckets m =? 0)%nat then None
      else match free_loop (buckets m) (home m (num_buckets m) txid) 0 (num_buckets m) with
           | Some slot =>
               Some (mk_map (<[slot := Some (txid, fresh_entry)]> (buckets m)) (S (m_size m)) (degraded_hash m), Some slot)
           | None => Some (m, None)
           end
  end.

(** [while (m->buckets[next].occupied)]: the entry is taken out and put into the
    first unoccupied bucket from its home. [None] when [fuel] turns are not enough. *)
Fixpoint shift_loop (m : coins_map) (fuel : nat) (b : list bucket) (size next : nat) : option (list bucket * nat) :=
  match b !! next with
  | Some (Some (k, v)) =>
      match fuel with
      | O => None
      | S fuel =>
          let b := <[next := None]> b in
          let size := (size - 1)%nat in
          let '(b, size) :=
            match free_loop b (home m (length b) k) 0 (length b) with
            | Some rs => (<[rs := Some (k, v)]> b, S size)
            | None => (b, size)
            end in
          shift_loop m fuel b size (probe_slot (length b) next 1)
      end
  | _ => Some (b, size)
  end.

(** The loop of [coins_map_erase] looks for the entry as [coins_map_find] does.
    [None] would be a shift that does not end. *)
Definition coins_map_erase (m : coins_map) (txid : uint256) : option (coins_map * bool) :=
  match coins_map_find m txid with
  | None => Some (m, false)
  | Some slot =>
      let b := <[slot := None]> (buckets m) in
      let? r := shift_loop m (num_buckets m) b (m_size m - 1) (probe_slot (num_buckets m) slot 1) in
      Some (mk_map (fst r) (snd r) (degraded_hash m), true)
  end.

Definition coins_map_count (m : coins_map) : nat := m_size m.

(** Reading and writing an entry through a pointer to it. *)
Definition entry_at (m : coins_map) (slot : nat) : option coins_cache_entry :=
  match buckets m !! slot with Some (Some (_, e)) => Some e | _ => None end.
Definition set_entry (m : coins_map) (slot : nat) (e : coins_cache_entry) : coins_map :=
  match buckets m !! slot with
  | Some (Some (k, _)) => mk_map (<[slot := Some (k, e)]> (buckets m)) (m_size m) (degraded_hash m)
  | _ => m
  end.

End Table.

(** ** Circular arithmetic *)

Section Circle.
Context (n : nat).
#[local] Open Scope nat_scope.

(** The number of steps from [h] to [q]. *)
Definition dist (h q : nat) : nat := if decide (h <= q) then q - h else q + n - h.

Lemma slot_cases h i : h < n -> i <= n -> probe_slot n h i = if decide (h + i < n) then h + i else h + i - n.
Proof.
  intros Hh Hi. unfold probe_slot. destruct (decide (h + i < n)); [by apply Nat.mod_small|].
  replace (h + i) with (h + i - n + 1 * n) at 1 by lia. rewrite Nat.Div0.mod_add. apply Nat.mod_small. lia.
Qed.

Ltac circle :=
  intros; repeat (rewrite slot_cases by lia); unfold dist in *; repeat case_decide; try lia.

Lemma slot_lt h i : h < n -> i <= n -> probe_slot n h i < n.
Proof. circle. Qed.
Lemma dist_lt h q : h < n -> q < n -> dist h q < n.
Proof. circle. Qed.
Lemma slot_dist h q : h < n -> q < n -> probe_slot n h (dist h q) = q.
Proof. intros Hh Hq. pose proof (dist_lt h q Hh Hq). circle. Qed.
Lemma dist_slot h i : h < n -> i < n -> dist h (probe_slot n h i) = i.
Proof. circle. Qed.
Lemma dist_refl h : dist h h = 0.
Proof. circle. Qed.
Lemma dist_inj s x y : s < n -> x < n -> y < n -> dist s x = dist s y -> x = y.
Proof. circle. Qed.
Lemma dist_next s x : s < n -> x < n -> S (dist s x) < n -> dist s (probe_slot n x 1) = S (dist s x).
Proof. circle. Qed.

(** A probe from [h] to [q] that passes [x] and avoids the empty bucket [e] ends
    between the two, seen from any [s] from which [x] comes before [e]. *)
Lemma probe_between s e h q x i :
  s < n -> e < n -> h < n -> q < n -> i < dist h q -> probe_slot n h i = x ->
  (forall j, j < dist h q -> probe_slot n h j <> e) -> q <> e -> dist s x < dist s e ->
  S (dist s x) <= dist s q < dist s e.
Proof.
  intros Hs He Hh Hq Hi <- Hav Hqe. pose proof (dist_lt h q Hh Hq).
  specialize (Hav (i + dist (probe_slot n h i) e)).
  rewrite (slot_cases h i) in * by lia.
  assert (dist (if decide (h + i < n) then h + i else h + i - n) e < n) by (apply dist_lt; [case_decide|]; lia).
  destruct (decide (i + dist (if decide (h + i < n) then h + i else h + i - n) e < dist h q)) as [Hlt|Hge].
  - exfalso. apply Hav; [done|]. circle.
  - circle.
Qed.

End Circle.

(** ** Buckets as a finite map *)

Definition occupied (b : list bucket) (s : nat) : Prop := exists x, b !! s = Some (Some x).

Fixpoint count (b : list bucket) : nat :=
  match b with [] => 0 | None :: b => count b | Some _ :: b => S (count b) end.

(** The buckets hold the entries of [M], each key in one bucket. *)
Record holds (b : list bucket) (M : gmap uint256 coins_cache_entry) : Prop := {
  holds_repr k e : M !! k = Some e <-> exists q, b !! q = Some (Some (k, e));
  holds_unique q q' k e e' : b !! q = Some (Some (k, e)) -> b !! q' = Some (Some (k, e')) -> q = q';
  holds_keys q k e : b !! q = Some (Some (k, e)) -> length k = 32%nat;
}.

Lemma lookup_update (b : list bucket) p x q y : (p < length b)%nat ->
  <[p := x]> b !! q = Some y <-> (q = p /\ y = x) \/ (q <> p /\ b !! q = Some y).
Proof.
  intros Hp. destruct (decide (q = p)) as [->|N].
  - rewrite list_lookup_insert_eq by done. split; [intros [= <-]; by left|by intros [[_ ->]|[? _]]].
  - rewrite list_lookup_insert_ne by congruence. split; [by right|by intros [[? _]|[_ ?]]].
Qed.

Lemma lookup_lt (b : list bucket) q y : b !! q = Some y -> (q < length b)%nat.
Proof. apply lookup_lt_Some. Qed.

Lemma holds_place b M p k e : holds b M -> b !! p = Some None -> M !! k = None -> length k = 32%nat ->
  holds (<[p := Some (k, e)]> b) (<[k := e]> M).
Proof.
  intros [R U K] Hp Hk L. pose proof (lookup_lt _ _ _ Hp) as Lp.
  assert (forall q e', b !! q = Some (Some (k, e')) -> False) as Fr.
  { intros q e' Hq. rewrite (proj2 (R k e')) in Hk; [done|eauto]. }
  split.
  - intros k' e'. setoid_rewrite (lookup_update b p _ _ _ Lp). destruct (decide (k' = k)) as [->|N].
    + rewrite lookup_insert_eq. split; [intros [= ->]; eauto|]. intros (q & [[-> [= ->]]|[_ Hq]]); [done|].
      exfalso. eauto.
    + rewrite lookup_insert_ne by done. rewrite R. split.
      * intros (q & Hq). exists q. right. split; [congruence|done].
      * intros (q & [[_ [= ? ?]]|[_ Hq]]); [done|eauto].
  - intros q q' k' e1 e2. rewrite !(lookup_update b p _ _ _ Lp).
    intros [[-> [= -> ->]]|[N1 H1]] [[-> E2]|[N2 H2]]; [done|exfalso; eauto|injection E2 as -> ->; exfalso; eauto|eauto].
  - intros q k' e'. rewrite (lookup_update b p _ _ _ Lp). intros [[_ [= -> ->]]|[_ H1]]; [done|eauto].
Qed.

Lemma holds_remove b M p k e : holds b M -> b !! p = Some (Some (k, e)) -> holds (<[p := None]> b) (delete k M).
Proof.
  intros [R U K] Hp. pose proof (lookup_lt _ _ _ Hp) as Lp. split.
  - intros k' e'. setoid_rewrite (lookup_update b p _ _ _ Lp). destruct (decide (k' = k)) as [->|N].
    + rewrite lookup_delete_eq. split; [done|]. intros (q & [[_ ?]|[N Hq]]); [done|]. exfalso. apply N. eauto.
    + rewrite lookup_delete_ne by done. rewrite R. split; [intros (q & Hq)|intros (q & [[_ ?]|[_ Hq]]); [done|eauto]].
      exists q. right. split; [congruence|done].
  - intros q q' k' e1 e2. rewrite !(lookup_update b p _ _ _ Lp). intros [[_ ?]|[_ H1]]; [done|].
    intros [[_ ?]|[_ H2]]; [done|eauto].
  - intros q k' e'. rewrite (lookup_update b p _ _ _ Lp). intros [[_ ?]|[_ H1]]; [done|eauto].
Qed.

Lemma holds_write b M p k e e' : holds b M -> b !! p = Some (Some (k, e)) ->
  holds (<[p := Some (k, e')]> b) (<[k := e']> M).
Proof.
  intros Hb Hp. pose proof (lookup_lt _ _ _ Hp) as Lp.
  rewrite <- (insert_delete_eq M k), <- (list_insert_insert_eq b p (Some (k, e')) None). apply holds_place.
  - by eapply holds_remove.
  - by apply list_lookup_insert_eq.
  - apply lookup_delete_eq.
  - by eapply holds_keys.
Qed.

Lemma holds_empty n : holds (replicate n None) ∅.
Proof.
  assert (forall q x, replicate n (None : bucket) !! q = Some (Some x) -> False) as F.
  { intros q x Hq. by apply lookup_replicate in Hq as [? _]. }
  split; [intros k e|intros; exfalso; eauto..]. rewrite lookup_empty. split; [done|]. intros [q Hq]. exfalso. eauto.
Qed.

Lemma count_place b p x : b !! p = Some None -> count (<[p := Some x]> b) = S (count b).
Proof.
  revert p. induction b as [|o b IH]; intros [|p] Hp; cbn in *; [done..|by injection Hp as ->|].
  destruct o; rewrite IH by done; done.
Qed.
Lemma count_remove b p x : b !! p = Some (Some x) -> count b = S (count (<[p := None]> b)).
Proof.
  revert p. induction b as [|o b IH]; intros [|p] Hp; cbn in *; [done..|by injection Hp as ->|].
  destruct o; rewrite (IH p) by done; done.
Qed.
Lemma count_write b p x y : b !! p = Some (Some x) -> count (<[p := Some y]> b) = count b.
Proof.
  revert p. induction b as [|o b IH]; intros [|p] Hp; cbn in *; [done..|by injection Hp as ->|].
  destruct o; [f_equal|]; by apply IH.
Qed.
Lemma count_replicate n : count (replicate n None) = 0%nat.
Proof. induction n; [done|]. cbn. done. Qed.
Lemma count_le b : (count b <= length b)%nat.
Proof. induction b as [|[|] b IH]; cbn; lia. Qed.
Lemma count_room b : (count b < length b)%nat -> exists q, b !! q = Some None.
Proof.
  induction b as [|[x|] b IH]; cbn; intros Hc; [lia| |by exists 0%nat]. destruct IH as [q Hq]; [lia|]. by exists (S q).
Qed.

(** ** Probing *)

Section Probe.
Context (n : nat) (hm : uint256 -> nat).
Context (Hh : forall k, (hm k < n)%nat).
#[local] Open Scope nat_scope.

(** Every bucket between an entry's home and the entry is occupied; an entry in
    [U] may also have buckets in [A] on its way. *)
Definition reaches (U A : nat -> Prop) (b : list bucket) : Prop :=
  forall q k e, b !! q = Some (Some (k, e)) ->
  forall i, i < dist n (hm k) q ->
  occupied b (probe_slot n (hm k) i) \/ (U q /\ A (probe_slot n (hm k) i)).

Definition nowhere : nat -> Prop := fun _ => False.

Lemma occupied_none b s : b !! s = Some None -> ~ occupied b s.
Proof. intros E [x Hx]. congruence. Qed.

Lemma occupied_or b s : s < length b -> occupied b s \/ b !! s = Some None.
Proof. intros Hs. destruct (b !! s) as [[x|]|] eqn:E; [left; by exists x|by right|]. apply lookup_ge_None in E. lia. Qed.

Lemma occupied_place b p x s : p < length b -> occupied b s -> occupied (<[p := Some x]> b) s.
Proof.
  intros Hp [y Hy]. destruct (decide (s = p)) as [->|N]; [exists x; by apply list_lookup_insert_eq|].
  exists y. by rewrite list_lookup_insert_ne by congruence.
Qed.

(** What a search finds. *)
Lemma find_loop_some b txid i fuel s M : holds b M -> length txid = 32 ->
  find_loop b txid (hm txid) i fuel = Some s -> exists e, b !! s = Some (Some (txid, e)).
Proof.
  intros Hb L. revert i. induction fuel as [|fuel IH]; intros i; [done|]. cbn [find_loop].
  destruct (b !! probe_slot (length b) (hm txid) i) as [[[k e]|]|] eqn:E; [|done..].
  destruct (uint256_cmp k txid =? 0)%Z eqn:C; [|apply IH]. intros [= <-].
  apply uint256_eq_true in C; [|by rewrite (holds_keys _ _ Hb _ _ _ E)]. subst k. by exists e.
Qed.

Lemma find_loop_none b txid i fuel q e : length b = n -> reaches nowhere nowhere b -> i + fuel = n ->
  find_loop b txid (hm txid) i fuel = None -> b !! q = Some (Some (txid, e)) -> dist n (hm txid) q < i.
Proof.
  intros Lb R. revert i. induction fuel as [|fuel IH]; intros i Hi; cbn [find_loop].
  - intros _ Hq. apply lookup_lt in Hq as Lq. pose proof (dist_lt n (hm txid) q (Hh _)). lia.
  - intros F Hq. apply lookup_lt in Hq as Lq. rewrite Lb in *.
    destruct (decide (dist n (hm txid) q = i)) as [D|D].
    + rewrite <- D, slot_dist, Hq in F by (auto || lia).
      by rewrite (uint256_eq_refl txid : (uint256_cmp txid txid =? 0)%Z = true) in F.
    + destruct (decide (dist n (hm txid) q < i)) as [Hl|Hl]; [done|].
      destruct (R q txid e Hq i ltac:(lia)) as [[[k e'] Ho]|[[] _]]. rewrite Ho in F.
      destruct (uint256_cmp k txid =? 0)%Z eqn:C; [done|]. apply IH in F; [lia|lia|done].
Qed.

(** What a search for room finds. *)
Lemma free_loop_some b idx i fuel s : length b = n -> free_loop b idx i fuel = Some s ->
  exists j, i <= j < i + fuel /\ s = probe_slot n idx j /\ b !! s = Some None /\
  forall j', i <= j' < j -> ~ b !! probe_slot n idx j' = Some None.
Proof.
  intros Lb. revert i. induction fuel as [|fuel IH]; intros i; [done|]. cbn [free_loop]. rewrite Lb.
  assert (free_loop b idx (S i) fuel = Some s -> ~ b !! probe_slot n idx i = Some None ->
    exists j, i <= j < i + S fuel /\ s = probe_slot n idx j /\ b !! s = Some None /\
    forall j', i <= j' < j -> ~ b !! probe_slot n idx j' = Some None) as Step.
  { intros F N. destruct (IH _ F) as (j & Hj & Es & Hs & Hocc). exists j. split; [lia|]. split; [done|]. split; [done|].
    intros j' Hj'. destruct (decide (j' = i)) as [->|]; [done|]. apply Hocc. lia. }
  destruct (b !! probe_slot n idx i) as [[x|]|] eqn:E; [intros F; by apply Step| |intros F; by apply Step].
  intros [= <-]. exists i. split; [lia|]. split; [done|]. split; [done|]. lia.
Qed.

Lemma free_loop_none b idx i fuel j : length b = n -> free_loop b idx i fuel = None -> i <= j < i + fuel ->
  ~ b !! probe_slot n idx j = Some None.
Proof.
  intros Lb. revert i. induction fuel as [|fuel IH]; intros i F Hj; [lia|]. cbn [free_loop] in F. rewrite Lb in F.
  destruct (decide (j = i)) as [->|N].
  - by destruct (b !! probe_slot n idx i) as [[x|]|].
  - apply (IH (S i)); [|lia]. by destruct (b !! probe_slot n idx i) as [[x|]|].
Qed.

(** If some bucket is unoccupied, room is found, no later than there. *)
Lemma free_loop_room b idx q : length b = n -> idx < n -> b !! q = Some None ->
  exists s j, free_loop b idx 0 n = Some s /\ j <= dist n idx q /\ s = probe_slot n idx j /\ b !! s = Some None /\
  forall j', j' < j -> occupied b (probe_slot n idx j').
Proof.
  intros Lb Hi Hq. apply lookup_lt in Hq as Lq. rewrite Lb in Lq. pose proof (dist_lt n idx q Hi Lq).
  destruct (free_loop b idx 0 n) as [s|] eqn:F.
  - destruct (free_loop_some _ _ _ _ _ Lb F) as (j & Hj & Es & Hs & Hocc). exists s, j. split; [done|]. split.
    + destruct (decide (j <= dist n idx q)); [done|]. exfalso. apply (Hocc (dist n idx q)); [lia|]. by rewrite slot_dist.
    + split; [done|]. split; [done|]. intros j' Hj'.
      destruct (occupied_or b (probe_slot n idx j')) as [|N]; [rewrite Lb; apply slot_lt; lia|done|].
      exfalso. apply (Hocc j'); [lia|done].
  - exfalso. apply (free_loop_none _ _ _ _ (dist n idx q) Lb F); [lia|]. by rewrite slot_dist.
Qed.

Lemma reaches_place U A b k e s j : length b = n -> j < n -> reaches U A b -> s = probe_slot n (hm k) j ->
  b !! s = Some None -> (forall j', j' < j -> occupied b (probe_slot n (hm k) j')) ->
  reaches U A (<[s := Some (k, e)]> b).
Proof.
  intros Lb Hj R Es Hs Hocc q k' e'. apply lookup_lt in Hs as Ls. rewrite (lookup_update b s _ _ _ Ls).
  intros [[-> [= -> ->]]|[N Hq]] i Hi.
  - left. apply occupied_place; [done|]. apply Hocc. by rewrite Es, dist_slot in Hi by auto.
  - destruct (R q k' e' Hq i Hi) as [Ho|Ho]; [left; by apply occupied_place|by right].
Qed.

(** Taking an entry out of a run that ends before the empty bucket [E]: only
    entries between the two lose a bucket of their way. *)
Lemma reaches_remove (U A U' A' : nat -> Prop) b s p E x :
  length b = n -> s < n -> reaches U A b -> b !! p = Some (Some x) -> b !! E = Some None -> ~ A E ->
  dist n s p < dist n s E ->
  (forall q, U q -> q <> p -> U' q) -> (forall q, A q -> A' q) -> A' p ->
  (forall q, q < n -> S (dist n s p) <= dist n s q < dist n s E -> U' q) ->
  reaches U' A' (<[p := None]> b).
Proof.
  intros Lb Hs R Hp HE NA Hpe HU HA Ap HUp q k e. apply lookup_lt in Hp as Lp. rewrite (lookup_update b p _ _ _ Lp).
  intros [[_ ?]|[N Hq]]; [done|]. intros i Hi.
  apply lookup_lt in Hq as Lq. apply lookup_lt in HE as LE. rewrite Lb in *.
  destruct (decide (probe_slot n (hm k) i = p)) as [Ep|Np].
  - right. rewrite Ep. split; [|done]. apply HUp; [done|].
    apply (probe_between n s E (hm k) q p i); try done; [|congruence].
    intros j Hj Ej. destruct (R q k e Hq j Hj) as [Ho|[_ Ha]]; rewrite Ej in *; [by apply (occupied_none _ _ HE)|done].
  - destruct (R q k e Hq i Hi) as [[y Hy]|[Hu Ha]].
    + left. exists y. by rewrite list_lookup_insert_ne by congruence.
    + right. eauto.
Qed.

End Probe.

(** ** The table as a finite map *)

Section Refine.
Context `{Allocator} `{HostOrder}.

Definition table_homes (m : coins_map) : uint256 -> nat := home m (num_buckets m).

Record coins_map_repr (m : coins_map) (M : gmap uint256 coins_cache_entry) : Prop := {
  repr_holds : holds (buckets m) M;
  repr_reaches : reaches (num_buckets m) (table_homes m) nowhere nowhere (buckets m);
  repr_size : m_size m = count (buckets m);
  repr_min : num_buckets m = 0%nat \/ (4 <= num_buckets m)%nat;
}.

(** At least one bucket is unoccupied, once there are any. *)
Definition has_room (m : coins_map) : Prop := num_buckets m = 0%nat \/ (m_size m < num_buckets m)%nat.

Lemma home_lt m n k : (0 < n)%nat -> (home m n k < n)%nat.
Proof.
  intros Hn. unfold home. pose proof (Z.mod_pos_bound (coins_map_bucket_of m k) (Z.of_nat n) ltac:(lia)). lia.
Qed.

Lemma init_repr : coins_map_repr coins_map_init ∅.
Proof. split; [apply (holds_empty 0)|done|done|by left]. Qed.

Lemma holds_get b M s k e : holds b M -> b !! s = Some (Some (k, e)) -> M !! k = Some e.
Proof. intros Hb E. apply (holds_repr _ _ Hb). eauto. Qed.

(** *** Find *)

Lemma find_repr m M k : coins_map_repr m M -> length k = 32%nat ->
  match coins_map_find m k with
  | Some s => exists e, buckets m !! s = Some (Some (k, e)) /\ M !! k = Some e
  | None => M !! k = None
  end.
Proof.
  intros [Hb Hr _ _] L. unfold coins_map_find. destruct (Nat.eqb_spec (num_buckets m) 0) as [E|E].
  - destruct (M !! k) as [e|] eqn:EM; [|done]. apply (holds_repr _ _ Hb) in EM as [q Hq]. apply lookup_lt in Hq.
    unfold num_buckets in E. lia.
  - destruct (find_loop _ _ _ _ _) as [s|] eqn:F.
    + eapply (find_loop_some (table_homes m)) in F as [e He]; [|exact Hb|done]. eauto using holds_get.
    + destruct (M !! k) as [e|] eqn:EM; [|done]. apply (holds_repr _ _ Hb) in EM as [q Hq]. exfalso.
      pose proof (find_loop_none (num_buckets m) (table_homes m) (fun k => home_lt m (num_buckets m) k ltac:(lia)) _ _ _ _ q e
        eq_refl Hr (Nat.add_0_l _) F Hq). lia.
Qed.

(** *** Writing through a pointer *)

Ltac table_simpl :=
  unfold table_homes, num_buckets in *; cbn [buckets m_size degraded_hash] in *; rewrite ?length_insert, ?length_replicate in *.

Lemma reaches_write n hm U A b s k e e' : reaches n hm U A b -> b !! s = Some (Some (k, e)) ->
  reaches n hm U A (<[s := Some (k, e')]> b).
Proof.
  intros R Hs q k' e1. apply lookup_lt in Hs as Ls. rewrite (lookup_update b s _ _ _ Ls).
  assert (forall i, occupied b i -> occupied (<[s := Some (k, e')]> b) i) as Occ by (intros; by apply occupied_place).
  intros [[-> [= -> ->]]|[_ Hq]] i Hi; [destruct (R s k e Hs i Hi)|destruct (R q k' e1 Hq i Hi)]; auto.
Qed.

Lemma set_entry_repr m M s k e e' : coins_map_repr m M -> buckets m !! s = Some (Some (k, e)) ->
  coins_map_repr (set_entry m s e') (<[k := e']> M) /\ num_buckets (set_entry m s e') = num_buckets m /\
  m_size (set_entry m s e') = m_size m /\ buckets (set_entry m s e') !! s = Some (Some (k, e')) /\
  degraded_hash (set_entry m s e') = degraded_hash m.
Proof.
  intros [Hb Hr Hz Hm] Hs. unfold set_entry, num_buckets, entry_at in *. rewrite Hs. cbn. rewrite length_insert. split_and!; [|done|done| |done].
  - split; table_simpl.
    + by eapply holds_write.
    + apply (reaches_write _ _ _ _ _ _ _ _ _ Hr Hs).
    + by rewrite (count_write _ _ _ _ Hs).
    + done.
  - apply list_lookup_insert_eq. by eapply lookup_lt.
Qed.

(** *** Putting a new entry into a table that has room *)

Lemma place_repr m M k e : coins_map_repr m M -> (m_size m < num_buckets m)%nat -> M !! k = None -> length k = 32%nat ->
  exists s, free_loop (buckets m) (home m (num_buckets m) k) 0 (num_buckets m) = Some s /\
  coins_map_repr (mk_map (<[s := Some (k, e)]> (buckets m)) (S (m_size m)) (degraded_hash m)) (<[k := e]> M) /\
  <[s := Some (k, e)]> (buckets m) !! s = Some (Some (k, e)).
Proof.
  intros [Hb Hr Hz Hm] Room Hk L. rewrite Hz in *.
  assert (0 < length (buckets m))%nat as Lpos by (unfold num_buckets in Room; lia).
  destruct (count_room (buckets m) Room) as [q Hq].
  destruct (free_loop_room (num_buckets m) (buckets m) (home m (num_buckets m) k) q eq_refl) as (s & j & F & Hj & Es & Hs & Hocc);
    [apply home_lt; lia|done|].
  exists s. split; [done|]. split.
  - split; table_simpl.
    + by apply holds_place.
    + apply lookup_lt in Hq as Lq.
      pose proof (dist_lt (length (buckets m)) (home m (length (buckets m)) k) q (home_lt m _ k Lpos) Lq).
      eapply (reaches_place (length (buckets m)) (home m (length (buckets m)))) with (j := j); try done; [|lia].
      intros k'. by apply home_lt.
    + by rewrite count_place.
    + done.
  - apply list_lookup_insert_eq. by eapply lookup_lt.
Qed.

(** *** Rehashing *)

Lemma count_app b1 b2 : count (b1 ++ b2) = (count b1 + count b2)%nat.
Proof. induction b1 as [|[x|] b1 IH]; cbn; lia. Qed.

(** The old buckets moved so far are the contents of the new table. *)
Lemma rehash_fold m n l1 l2 M b M1 : (4 <= n)%nat -> holds (l1 ++ l2) M -> (count (l1 ++ l2) <= n)%nat ->
  coins_map_repr (mk_map b (count l1) (degraded_hash m)) M1 -> length b = n ->
  (forall k e, M1 !! k = Some e <-> exists q, l1 !! q = Some (Some (k, e))) ->
  exists b', fold_left (rehash_step m) l2 (b, count l1) = (b', count (l1 ++ l2)) /\ length b' = n /\
  coins_map_repr (mk_map b' (count (l1 ++ l2)) (degraded_hash m)) M.
Proof.
  intros Hn Hb Hc. revert l1 b M1 Hb Hc. induction l2 as [|o l2 IH]; intros l1 b M1 Hb Hc R Lb HM.
  - exists b. rewrite app_nil_r in *. split; [done|]. split; [done|]. replace M with M1; [done|].
    apply map_eq. intros k. apply option_eq. intros e. rewrite HM. symmetry. apply Hb.
  - rewrite cons_middle, app_assoc in Hb, Hc |- *. cbn [fold_left].
    assert (forall q x, (l1 ++ [o]) !! q = Some (Some x) <-> l1 !! q = Some (Some x) \/ (q = length l1 /\ o = Some x)) as Snoc.
    { intros q x. destruct (decide (q < length l1)%nat).
      - rewrite lookup_app_l by done. split; [by left|]. intros [?|[-> _]]; [done|lia].
      - rewrite lookup_app_r by lia. rewrite (lookup_ge_None_2 l1 q) by lia.
        destruct (q - length l1)%nat as [|j] eqn:Ej; cbn.
        + split; [intros [= ->]; right; split; [lia|done]|]. intros [?|[_ ->]]; done.
        + split; [done|]. intros [?|[-> _]]; [done|lia]. }
    destruct o as [[k e]|].
    + assert (M1 !! k = None) as Fresh.
      { destruct (M1 !! k) as [e'|] eqn:E; [|done]. apply HM in E as [q Hq]. exfalso.
        assert (q = length l1); [|apply lookup_lt in Hq; lia].
        eapply (holds_unique _ _ Hb q (length l1) k).
        - apply lookup_app_l_Some. apply Snoc. by left.
        - apply lookup_app_l_Some. apply Snoc. by right. }
      rewrite count_app in Hc.
      destruct (place_repr _ M1 k e R) as (s & F & R' & _); cbn [m_size buckets degraded_hash] in *; unfold num_buckets in *; cbn [buckets] in *.
      * rewrite Lb. rewrite count_app in Hc. cbn in Hc. lia.
      * done.
      * eapply (holds_keys _ _ Hb (length l1)). apply lookup_app_l_Some. apply Snoc. by right.
      * unfold rehash_step at 2. change (home m (length b) k) with (home (mk_map b (count l1) (degraded_hash m)) (length b) k). rewrite F.
        replace (S (count l1)) with (count (l1 ++ [Some (k, e)])) in * by (rewrite count_app; cbn; lia).
        apply (IH _ _ (<[k := e]> M1)); [done| |exact R'|by rewrite length_insert|].
        -- rewrite count_app. exact Hc.
        -- intros k' e'. destruct (decide (k' = k)) as [->|N].
           ++ rewrite lookup_insert_eq. split.
              ** intros [= ->]. exists (length l1). apply Snoc. by right.
              ** intros [q Hq]. apply Snoc in Hq as [Hq|[_ [= ->]]]; [|done].
                 rewrite (proj2 (HM k e')) in Fresh by eauto. done.
           ++ rewrite lookup_insert_ne, HM by done. split; intros [q Hq]; exists q.
              ** apply Snoc. by left.
              ** apply Snoc in Hq as [Hq|[_ [= ? ?]]]; [done|congruence].
    + replace (count l1) with (count (l1 ++ [None])) in * by (rewrite count_app; cbn; lia).
      apply (IH _ _ M1); [done|done|exact R|done|]. intros k e. rewrite HM.
      split; intros [q Hq]; exists q; [apply Snoc; by left|]. by apply Snoc in Hq as [Hq|[_ ?]].
Qed.

Lemma rehash_repr m M n : coins_map_repr m M -> (4 <= n)%nat -> (num_buckets m <= n)%nat ->
  alloc_ok (Z.of_nat n * sizeof_coins_map_entry) = true ->
  coins_map_repr (coins_map_rehash m n) M /\ num_buckets (coins_map_rehash m n) = n /\
  m_size (coins_map_rehash m n) = m_size m /\ degraded_hash (coins_map_rehash m n) = degraded_hash m.
Proof.
  intros R Hn Hle Ha. unfold coins_map_rehash. rewrite Ha. destruct R as [Hb Hr Hz Hm].
  destruct (rehash_fold m n [] (buckets m) M (replicate n None) ∅ Hn Hb) as (b' & F & Lb' & R').
  - cbn [app]. pose proof (count_le (buckets m)). unfold num_buckets in *. lia.
  - split; table_simpl; [apply holds_empty| |by rewrite count_replicate|by right].
    intros q k e Hq. by apply lookup_replicate in Hq as [? _].
  - apply length_replicate.
  - intros k e. rewrite lookup_empty. split; [done|intros [q Hq]; done].
  - cbn [app] in *. change (count []) with 0%nat in F. rewrite F. cbn. rewrite Hz. done.
Qed.

(** *** Insert *)

Definition default_entry (M : gmap uint256 coins_cache_entry) (k : uint256) : coins_cache_entry :=
  default fresh_entry (M !! k).

Lemma insert_default M k e : M !! k = Some e -> <[k := default_entry M k]> M = M.
Proof. intros E. unfold default_entry. rewrite E. by apply insert_id. Qed.

Lemma insert_present m M k : coins_map_repr m M -> length k = 32%nat -> is_Some (M !! k) ->
  exists s, coins_map_insert m k = Some (m, Some s) /\ buckets m !! s = Some (Some (k, default_entry M k)).
Proof.
  intros R L [e He]. pose proof (find_repr m M k R L) as F. unfold coins_map_insert.
  destruct (coins_map_find m k) as [s|]; [|congruence]. destruct F as (e' & Hs & E). exists s.
  unfold default_entry. rewrite E. done.
Qed.

(** With memory an insertion always gives an entry, the old one if there is one. *)
Lemma insert_repr m M k : memory_ok -> coins_map_repr m M -> has_room m -> length k = 32%nat ->
  exists m' s, coins_map_insert m k = Some (m', Some s) /\
  coins_map_repr m' (<[k := default_entry M k]> M) /\ has_room m' /\ degraded_hash m' = degraded_hash m /\
  buckets m' !! s = Some (Some (k, default_entry M k)).
Proof.
  intros Mem R Room L. destruct (M !! k) as [e|] eqn:E.
  { destruct (insert_present m M k R L) as (s & Ei & Hs); [eauto|]. exists m, s. rewrite (insert_default M k e E). done. }
  pose proof (find_repr m M k R L) as F. unfold coins_map_insert, default_entry. rewrite E. cbn [default].
  destruct (coins_map_find m k) as [s|]; [by destruct F as (e' & _ & ?); congruence|]. clear F.
  set (big := (num_buckets m =? 0)%nat || _).
  set (m1 := if big then _ else m).
  assert (coins_map_repr m1 M /\ (m_size m1 < num_buckets m1)%nat /\ (S (m_size m1) < num_buckets m1)%nat /\
    degraded_hash m1 = degraded_hash m) as (R1 & Room1 & Room2 & D1).
  { destruct R as [Hb Hr Hz Hm] eqn:ER. pose proof (count_le (buckets m)) as Hc. unfold m1.
    destruct big eqn:B; subst big.
    - destruct (Nat.eqb_spec (num_buckets m) 0) as [E0|E0].
      + destruct (rehash_repr m M COINS_MAP_INITIAL_BUCKETS R) as (R1 & N1 & S1 & D1); [vm_compute; lia|lia|apply Mem|].
        rewrite N1, S1, Hz. unfold num_buckets in *. change COINS_MAP_INITIAL_BUCKETS with (Z.to_nat 4096). split_and!; done || lia.
      + destruct (rehash_repr m M (num_buckets m * 2) R) as (R1 & N1 & S1 & D1); [lia|lia|apply Mem|].
        rewrite N1, S1, Hz. unfold num_buckets in *. split_and!; done || lia.
    - apply orb_false_elim in B as [B1 B2]. apply Nat.eqb_neq in B1. apply Nat.leb_gt in B2.
      unfold COINS_MAP_LOAD_FACTOR_NUM, COINS_MAP_LOAD_FACTOR_DEN in B2. split_and!; done || lia. }
  assert ((num_buckets m1 =? 0)%nat = false) as -> by (apply Nat.eqb_neq; lia).
  destruct (place_repr m1 M k fresh_entry R1 Room1 E L) as (s & F & R2 & Hs). rewrite F.
  eexists _, s. split; [done|]. split; [exact R2|]. split; [|split; [done|exact Hs]].
  right. unfold num_buckets in *. cbn. rewrite length_insert. done.
Qed.

(** Whatever the allocator does, an insertion that returns a table returns one with
    the same contents, but for a fresh entry if a pointer comes back; it fails to
    return only when the very first allocation fails. *)
Lemma insert_any m M k : coins_map_repr m M -> has_room m -> length k = 32%nat ->
  match coins_map_insert m k with
  | None => num_buckets m = 0%nat /\ alloc_ok (4096 * sizeof_coins_map_entry) = false
  | Some (m', None) => coins_map_repr m' M /\ M !! k = None
  | Some (m', Some s) =>
      coins_map_repr m' (<[k := default_entry M k]> M) /\ buckets m' !! s = Some (Some (k, default_entry M k))
  end.
Proof.
  intros R Room L. destruct (M !! k) as [e|] eqn:E.
  { destruct (insert_present m M k R L) as (s & -> & Hs); [eauto|]. by rewrite (insert_default M k e E). }
  pose proof (find_repr m M k R L) as F. unfold coins_map_insert, default_entry. rewrite E. cbn [default].
  destruct (coins_map_find m k) as [s|]; [by destruct F as (e' & _ & ?); congruence|]. clear F.
  assert (forall m1, coins_map_repr m1 M -> (num_buckets m1 <> 0)%nat ->
    match free_loop (buckets m1) (home m1 (num_buckets m1) k) 0 (num_buckets m1) with
    | Some s => coins_map_repr (mk_map (<[s := Some (k, fresh_entry)]> (buckets m1)) (S (m_size m1)) (degraded_hash m1))
                  (<[k := fresh_entry]> M) /\ <[s := Some (k, fresh_entry)]> (buckets m1) !! s = Some (Some (k, fresh_entry))
    | None => coins_map_repr m1 M /\ None = None :> option coins_cache_entry
    end) as Place.
  { intros m1 R1 N1. destruct (decide (m_size m1 < num_buckets m1)%nat) as [Hl|Hl].
    - destruct (place_repr m1 M k fresh_entry R1 Hl E L) as (s & -> & R2 & Hs). done.
    - destruct (free_loop _ _ _ _) as [s|] eqn:F; [|done]. exfalso.
      destruct (free_loop_some (num_buckets m1) _ _ _ _ _ eq_refl F) as (_ & _ & _ & Hs & _).
      destruct R1 as [_ _ Hz _]. rewrite Hz in Hl. pose proof (count_place _ _ (k, fresh_entry) Hs).
      pose proof (count_le (<[s := Some (k, fresh_entry)]> (buckets m1))). rewrite length_insert in *. unfold num_buckets in *. lia. }
  set (m1 := if _ : bool then coins_map_rehash m _ else m).
  assert (coins_map_repr m1 M /\ (num_buckets m1 = 0%nat -> num_buckets m = 0%nat /\ alloc_ok (4096 * sizeof_coins_map_entry) = false))
    as [R1 Z1].
  { unfold m1. destruct (_ || _) eqn:B.
    - set (n := if (num_buckets m =? 0)%nat then _ else _).
      assert ((4 <= n)%nat /\ (num_buckets m <= n)%nat) as [Hn Hle].
      { destruct (repr_min _ _ R); subst n; destruct (Nat.eqb_spec (num_buckets m) 0);
          change COINS_MAP_INITIAL_BUCKETS with (Z.to_nat 4096) in *; lia. }
      destruct (alloc_ok (Z.of_nat n * sizeof_coins_map_entry)) eqn:A.
      + destruct (rehash_repr m M n R Hn Hle A) as (R1 & N1 & _). split; [done|]. lia.
      + unfold coins_map_rehash. rewrite A. split; [done|]. intros Z. split; [done|].
        subst n. rewrite Z in A. exact A.
    - apply orb_false_elim in B as [B1 _]. apply Nat.eqb_neq in B1. done. }
  destruct (Nat.eqb_spec (num_buckets m1) 0) as [N|N]; [auto|]. specialize (Place m1 R1 N).
  destruct (free_loop _ _ _ _); apply Place || (split; [done|done]).
Qed.

(** *** Erase *)

Section Shift.
Context (m : coins_map) (n slot E : nat) (M : gmap uint256 coins_cache_entry).
Context (Hs : (slot < n)%nat) (HE : (E < n)%nat).

(** Seen from the erased bucket: the bucket at step [p] is next, [E] is the first
    unoccupied one after it; entries before [p] are where they belong, entries in
    between may have buckets before [p] on their way. *)
Record shifting (b : list bucket) (next : nat) : Prop := {
  sh_holds : holds b M;
  sh_length : length b = n;
  sh_next : (next < n)%nat;
  sh_end : b !! E = Some None;
  sh_le : (1 <= dist n slot next <= dist n slot E)%nat;
  sh_run q : (q < n)%nat -> (dist n slot next <= dist n slot q < dist n slot E)%nat -> occupied b q;
  sh_reaches : reaches n (home m n) (fun q => (q < n /\ dist n slot next <= dist n slot q < dist n slot E)%nat)
                 (fun q => (dist n slot q < dist n slot next)%nat) b;
}.

Lemma shift_step b next k v : shifting b next -> b !! next = Some (Some (k, v)) ->
  exists rs, free_loop (<[next := None]> b) (home m n k) 0 n = Some rs /\
  shifting (<[rs := Some (k, v)]> (<[next := None]> b)) (probe_slot n next 1) /\
  count (<[rs := Some (k, v)]> (<[next := None]> b)) = count b /\
  dist n slot (probe_slot n next 1) = S (dist n slot next).
Proof.
  intros [Hb Lb Hn Hend Hle Hrun Hr] Hk.
  assert (forall k, (home m n k < n)%nat) as Hh by (intros; apply home_lt; lia).
  assert (next <> E) as NE by (intros ->; congruence).
  assert (dist n slot next <> dist n slot E) as ND by (intros D; by apply dist_inj in D).
  pose proof (dist_lt n slot E Hs HE).
  assert (dist n slot (probe_slot n next 1) = S (dist n slot next)) as Dn by (apply dist_next; lia).
  assert (length (<[next := None]> b) = n) as Lb1 by (by rewrite length_insert).
  assert (<[next := None]> b !! next = Some None) as Hnext by (apply list_lookup_insert_eq; lia).
  assert (reaches n (home m n) (fun q => (q < n /\ S (dist n slot next) <= dist n slot q < dist n slot E)%nat)
            (fun q => (dist n slot q < S (dist n slot next))%nat) (<[next := None]> b)) as Hr1.
  { eapply (reaches_remove n (home m n) Hh _ _ _ _ b slot next E (k, v) Lb Hs Hr Hk Hend); cbn; try lia.
    intros q [Lq Hq] Nq. destruct (decide (dist n slot q = dist n slot next)) as [D|]; [|lia].
    exfalso. apply Nq. by apply (dist_inj n slot). }
  destruct (free_loop_room n _ (home m n k) next Lb1 (Hh k) Hnext) as (rs & j & F & Hj & Ers & Hrs & Hocc).
  assert (rs <> E) as NrE.
  { intros ->. destruct (decide (j = dist n (home m n k) next)) as [->|Nj].
    - rewrite slot_dist in Ers by (done || apply Hh). congruence.
    - destruct (Hr next k v Hk j ltac:(lia)) as [Ho|[_ Ha]].
      + rewrite <- Ers in Ho. by apply (occupied_none _ _ Hend).
      + rewrite <- Ers in Ha. lia. }
  assert (holds (<[next := None]> b) (delete k M)) as Hb1 by (by eapply holds_remove).
  assert (M !! k = Some v) as Mk by (by eapply holds_get).
  exists rs. split; [done|]. split; [|split; [|done]].
  - split.
    + rewrite <- (insert_delete_id M k v Mk). apply holds_place; [done|done|apply lookup_delete_eq|exact (holds_keys _ _ Hb _ _ _ Hk)].
    + by rewrite !length_insert.
    + apply slot_lt; lia.
    + rewrite !list_lookup_insert_ne by congruence. done.
    + lia.
    + rewrite Dn. intros q Hq Hd. assert (q <> next) by (intros ->; lia).
      destruct (Hrun q Hq ltac:(lia)) as [x Hx]. apply occupied_place; [apply lookup_lt in Hrs; done|].
      exists x. by rewrite list_lookup_insert_ne by congruence.
    + rewrite Dn. pose proof (dist_lt n (home m n k) next (Hh k) Hn).
      eapply (reaches_place n (home m n) Hh) with (j := j); try done; lia.
  - rewrite (count_place _ _ _ Hrs). by rewrite (count_remove b next (k, v) Hk).
Qed.

(** The loop ends at [E], with every entry where a search finds it. *)
Lemma shift_loop_repr fuel b next : shifting b next -> (dist n slot E - dist n slot next <= fuel)%nat ->
  exists b', shift_loop m fuel b (count b) next = Some (b', count b') /\
  length b' = n /\ count b' = count b /\ holds b' M /\ reaches n (home m n) nowhere nowhere b'.
Proof.
  revert b next. induction fuel as [|fuel IH]; intros b next Sh Hf.
  - destruct Sh as [Hb Lb Hn Hend Hle Hrun Hr]. assert (next = E) as -> by (apply (dist_inj n slot); lia || done).
    exists b. cbn [shift_loop]. rewrite Hend. split_and!; try done. intros q k e Hq i Hi.
    destruct (Hr q k e Hq i Hi) as [Ho|[Hu _]]; [by left|lia].
  - destruct (b !! next) as [[[k v]|]|] eqn:Hk.
    + destruct (shift_step b next k v Sh Hk) as (rs & F & Sh' & C & D). cbn [shift_loop]. rewrite Hk, length_insert, (sh_length _ _ Sh).
      rewrite F. replace (S (count b - 1)) with (count (<[rs := Some (k, v)]> (<[next := None]> b))).
      * destruct (IH _ _ Sh') as (b' & Hl & ? & Hc & ?); [lia|]. exists b'. rewrite !length_insert, (sh_length _ _ Sh). split; [exact Hl|]. rewrite Hc, C. done.
      * rewrite C. pose proof (count_remove b next _ Hk). lia.
    + destruct Sh as [Hb Lb Hn Hend Hle Hrun Hr].
      assert (next = E) as ->.
      { apply (dist_inj n slot); [done..|]. destruct (decide (dist n slot next < dist n slot E)%nat); [|lia].
        exfalso. eapply occupied_none; [exact Hk|]. apply Hrun; lia. }
      exists b. cbn [shift_loop]. rewrite Hend. split_and!; try done. intros q k e Hq i Hi.
      destruct (Hr q k e Hq i Hi) as [Ho|[Hu _]]; [by left|lia].
    + apply lookup_ge_None in Hk. destruct Sh. lia.
Qed.

End Shift.

(** The first unoccupied bucket after [slot]. *)
Lemma first_room n b slot : length b = n -> (slot < n)%nat -> occupied b slot -> (exists q, b !! q = Some None) ->
  exists E, (E < n)%nat /\ b !! E = Some None /\ (1 <= dist n slot E)%nat /\
  forall q, (q < n)%nat -> (dist n slot q < dist n slot E)%nat -> occupied b q.
Proof.
  intros Lb Hs Ho [q Hq].
  destruct (free_loop_room n b slot q Lb Hs Hq) as (E & j & _ & Hj & EE & HE & Hocc).
  apply lookup_lt in HE as LE. apply lookup_lt in Hq as Lq. rewrite Lb in *.
  pose proof (dist_lt n slot q Hs Lq). assert (dist n slot E = j) as D by (rewrite EE; apply dist_slot; lia).
  exists E. split_and!; [done|done| |].
  - destruct j; [|lia]. exfalso. apply (occupied_none _ _ HE). rewrite EE.
    rewrite slot_cases by lia. rewrite Nat.add_0_r. by rewrite decide_True by done.
  - intros q' Hq' Hd. rewrite <- (slot_dist n slot q') by done. apply Hocc. lia.
Qed.

Lemma erase_repr m M k : coins_map_repr m M -> has_room m -> length k = 32%nat ->
  exists m', coins_map_erase m k = Some (m', bool_decide (is_Some (M !! k))) /\
  coins_map_repr m' (delete k M) /\ num_buckets m' = num_buckets m /\ has_room m' /\ degraded_hash m' = degraded_hash m.
Proof.
  intros R Room L. pose proof (find_repr m M k R L) as F. unfold coins_map_erase.
  destruct (coins_map_find m k) as [slot|].
  2:{ exists m. rewrite F. rewrite bool_decide_false by (by intros [? ?]). by rewrite delete_id. }
  destruct F as (e & Hslot & HM). rewrite HM, bool_decide_true by eauto.
  destruct R as [Hb Hr Hz Hm]. apply lookup_lt in Hslot as Ls. set (n := num_buckets m) in *.
  change (length (buckets m)) with n in Ls.
  assert (m_size m < n)%nat as Room' by (destruct Room; subst n; lia).
  destruct (first_room n (buckets m) slot eq_refl Ls) as (E & LE & HE & D1 & Hrun);
    [by exists (k, e)|apply count_room; by rewrite <- Hz|].
  assert (E <> slot) as NE by (intros ->; congruence).
  assert (forall k, (home m n k < n)%nat) as Hh by (intros; apply home_lt; lia).
  assert (dist n slot (probe_slot n slot 1) = 1%nat) as Dn.
  { rewrite dist_next by (rewrite ?dist_refl; (done || pose proof (dist_lt n slot E Ls LE); lia)). by rewrite dist_refl. }
  assert (shifting m n slot E (delete k M) (<[slot := None]> (buckets m)) (probe_slot n slot 1)) as Sh.
  { split.
    - by eapply holds_remove.
    - by rewrite length_insert.
    - apply slot_lt; lia.
    - by rewrite list_lookup_insert_ne by congruence.
    - rewrite Dn. lia.
    - rewrite Dn. intros q Hq Hd. assert (q <> slot) by (intros ->; rewrite dist_refl in Hd; lia).
      destruct (Hrun q Hq ltac:(lia)) as [x Hx]. exists x. by rewrite list_lookup_insert_ne by congruence.
    - rewrite Dn.
      eapply (reaches_remove n (home m n) Hh _ _ _ _ (buckets m) slot slot E (k, e) eq_refl Ls Hr Hslot HE);
        rewrite ?dist_refl; unfold nowhere; try done; lia. }
  pose proof (dist_lt n slot E Ls LE).
  destruct (shift_loop_repr m n slot E (delete k M) Ls LE n _ _ Sh) as (b' & Hl & Lb' & C & Hb' & Hr'); [lia|].
  pose proof (count_remove _ _ _ Hslot) as Cr. rewrite Hz, Cr.
  replace (S (count (<[slot := None]> (buckets m))) - 1)%nat with (count (<[slot := None]> (buckets m))) by lia.
  rewrite Hl. cbn [fst snd]. eexists. split; [done|]. unfold has_room, num_buckets in *. cbn [buckets m_size degraded_hash].
  rewrite Lb'. split_and!; [|done|right; lia|done].
  split; unfold table_homes, num_buckets; cbn [buckets m_size degraded_hash]; rewrite ?Lb'; done || by right; lia.
Qed.

(** *** Counting *)

Lemma holds_tail o b M : holds (o :: b) M ->
  holds b (match o with Some (k, _) => delete k M | None => M end).
Proof.
  intros Hb. destruct o as [[k e]|].
  - pose proof (holds_remove _ _ 0 k e Hb eq_refl) as [R U K]. cbn in *. split.
    + intros k' e'. rewrite R. split; [intros [[|q] Hq]; [done|eauto]|intros [q Hq]; by exists (S q)].
    + intros q q' k' e1 e2 H1 H2. by specialize (U (S q) (S q') k' e1 e2 H1 H2) as [= ].
    + intros q k' e'. apply (K (S q)).
  - destruct Hb as [R U K]. split.
    + intros k' e'. rewrite R. split; [intros [[|q] Hq]; [done|eauto]|intros [q Hq]; by exists (S q)].
    + intros q q' k' e1 e2 H1 H2. by specialize (U (S q) (S q') k' e1 e2 H1 H2) as [= ].
    + intros q k' e'. apply (K (S q)).
Qed.

Lemma holds_count b M : holds b M -> count b = base.size M.
Proof.
  revert M. induction b as [|o b IH]; intros M Hb.
  - cbn. symmetry. apply map_size_empty_iff, map_empty. intros k. destruct (M !! k) eqn:E; [|done].
    apply (holds_repr _ _ Hb) in E as [q Hq]. done.
  - apply holds_tail in Hb as Ht. destruct o as [[k e]|]; cbn [count]; rewrite (IH _ Ht); [|done].
    assert (M !! k = Some e) as E by (by apply (holds_get _ _ 0 k e Hb)).
    rewrite map_size_delete_Some by eauto.
    assert (base.size M <> 0%nat); [|lia]. intros Z. apply map_size_empty_iff in Z. by rewrite Z in E.
Qed.

(** ** Running a sequence of operations *)

(** Look up; insert and write through the pointer; erase. *)
Inductive map_op :=
| OpFind (k : uint256)
| OpWrite (k : uint256) (e : coins_cache_entry)
| OpErase (k : uint256).
Definition op_key (o : map_op) : uint256 := match o with OpFind k | OpWrite k _ | OpErase k => k end.

(** What the caller sees: the entry found (before the write) or whether one was erased. *)
Inductive map_answer := Found (e : option coins_cache_entry) | Erased (b : bool).

Definition table_step (m : coins_map) (o : map_op) : option (coins_map * map_answer) :=
  match o with
  | OpFind k => Some (m, Found (coins_map_find m k ≫= entry_at m))
  | OpWrite k e =>
      let? r := coins_map_insert m k in
      match r with
      | (m, Some s) => Some (set_entry m s e, Found (entry_at m s))
      | (m, None) => Some (m, Found None)
      end
  | OpErase k => let? r := coins_map_erase m k in Some (fst r, Erased (snd r))
  end.

Definition map_step (M : gmap uint256 coins_cache_entry) (o : map_op) : gmap uint256 coins_cache_entry * map_answer :=
  match o with
  | OpFind k => (M, Found (M !! k))
  | OpWrite k e => (<[k := e]> M, Found (Some (default_entry M k)))
  | OpErase k => (delete k M, Erased (bool_decide (is_Some (M !! k))))
  end.

Fixpoint table_run (m : coins_map) (ops : list map_op) : option (coins_map * list map_answer) :=
  match ops with
  | [] => Some (m, [])
  | o :: ops =>
      let? r := table_step m o in
      let? s := table_run (fst r) ops in
      Some (fst s, snd r :: snd s)
  end.
Fixpoint map_run (M : gmap uint256 coins_cache_entry) (ops : list map_op) :
    gmap uint256 coins_cache_entry * list map_answer :=
  match ops with
  | [] => (M, [])
  | o :: ops =>
      let '(M, a) := map_step M o in
      let '(M, l) := map_run M ops in (M, a :: l)
  end.

Lemma entry_at_some m s k e : buckets m !! s = Some (Some (k, e)) -> entry_at m s = Some e.
Proof. unfold entry_at. by intros ->. Qed.

Lemma step_refines m M o : memory_ok -> coins_map_repr m M -> has_room m -> length (op_key o) = 32%nat ->
  exists m', table_step m o = Some (m', snd (map_step M o)) /\ coins_map_repr m' (fst (map_step M o)) /\ has_room m'.
Proof.
  intros Mem R Room L. destruct o as [k|k e|k]; cbn [op_key table_step map_step fst snd] in *.
  - exists m. split; [|done]. do 3 f_equal. pose proof (find_repr m M k R L) as F.
    destruct (coins_map_find m k) as [s|]; cbn; [|by symmetry]. destruct F as (e & Hs & ->). by eapply entry_at_some.
  - destruct (insert_repr m M k Mem R Room L) as (m' & s & -> & R' & Room' & _ & Hs). cbn.
    destruct (set_entry_repr m' _ s k _ e R' Hs) as (R2 & N2 & S2 & _). rewrite insert_insert_eq in R2.
    exists (set_entry m' s e). rewrite (entry_at_some _ _ _ _ Hs). split; [done|]. split; [done|].
    unfold has_room. by rewrite N2, S2.
  - destruct (erase_repr m M k R Room L) as (m' & -> & R' & _ & Room' & _). by exists m'.
Qed.

Lemma run_refines ops m M : memory_ok -> coins_map_repr m M -> has_room m -> Forall (fun o => length (op_key o) = 32%nat) ops ->
  exists m', table_run m ops = Some (m', snd (map_run M ops)) /\ coins_map_repr m' (fst (map_run M ops)) /\ has_room m'.
Proof.
  intros Mem R Room Hops. revert m M R Room. induction Hops as [|o ops L _ IH]; intros m M R Room; [by exists m|].
  cbn [table_run map_run]. destruct (step_refines m M o Mem R Room L) as (m1 & -> & R1 & Room1). cbn [fst snd].
  destruct (map_step M o) as [M1 a]. cbn [fst snd] in *.
  destruct (IH m1 M1 R1 Room1) as (m2 & -> & R2 & Room2). destruct (map_run M1 ops) as [M2 l]. by exists m2.
Qed.

End Refine.

(** C33: the coins hash table is a finite map. With memory available, any sequence
    of look-ups, insertions (with a write through the pointer obtained) and
    erasures on an initially empty table terminates and answers exactly as the
    same sequence on a finite map does, through every collision, rehash and
    back-shift, and with the hash collapsed to one bucket as well; the table's
    size is the number of entries. Whatever the allocator answers, an insertion
    into a table in use loses nothing: it yields an entry or the null pointer and
    keeps every other entry; only the insertion into a table without buckets whose
    first allocation fails has no result (it divides by zero). *)
Theorem coins_map_refines `{Allocator} `{HostOrder} (collapse : bool) ops :
  Forall (fun o => length (op_key o) = 32%nat) ops ->
  let m0 := fst (coins_fault_arm_map_hash_collapse coins_map_init collapse) in
  (memory_ok -> exists m, table_run m0 ops = Some (m, snd (map_run ∅ ops)) /\
     coins_map_repr m (fst (map_run ∅ ops)) /\ coins_map_count m = base.size (fst (map_run ∅ ops))) /\
  (forall m M k, coins_map_repr m M -> has_room m -> length k = 32%nat ->
   match coins_map_insert m k with
   | Some (m', Some s) => coins_map_repr m' (<[k := default_entry M k]> M) /\ entry_at m' s = Some (default_entry M k)
   | Some (m', None) => coins_map_repr m' M /\ M !! k = None
   | None => num_buckets m = 0%nat /\ alloc_ok (4096 * sizeof_coins_map_entry) = false
   end).
Proof.
  intros Hops m0. split.
  - intros Mem. destruct (run_refines ops m0 ∅ Mem) as (m & Hr & R & _); [by split; [apply (holds_empty 0)|..|left]|by left|done|].
    exists m. split; [done|]. split; [done|]. unfold coins_map_count. rewrite (repr_size _ _ R). apply holds_count, R.
  - intros m M k R Room L. pose proof (insert_any m M k R Room L) as I.
    destruct (coins_map_insert m k) as [[m' [s|]]|]; [|done..]. destruct I as [R' Hs]. split; [done|]. by eapply entry_at_some.
Qed.

Section MapWitness.
#[local] Instance map_alloc : Allocator := fun _ => true.
#[local] Instance map_host : HostOrder := false.

(** Two keys in the same bucket, the first erased: the second is still found. *)
Lemma coins_map_refines_witness :
  let k1 := replicate 32 1 in let k2 := replicate 31 1 ++ [2] in
  exists m, table_run coins_map_init [OpWrite k1 fresh_entry; OpWrite k2 (mk_entry coins_init 1); OpErase k1; OpFind k2; OpFind k1] =
    Some (m, [Found (Some fresh_entry); Found (Some fresh_entry); Erased true; Found (Some (mk_entry coins_init 1)); Found None]).
Proof.
  intros k1 k2.
  destruct (coins_map_refines false [OpWrite k1 fresh_entry; OpWrite k2 (mk_entry coins_init 1); OpErase k1; OpFind k2; OpFind k1])
    as [R _]; [repeat constructor|].
  destruct (R (fun _ => eq_refl)) as (m & E & _). exists m. exact E.
Defined.
End MapWitness.
