(* ===== verification/UtxoCommitment.v ===== *)
(** * The incremental commitment to the set of unspent outputs

    Model of [core/modules/coins/src/utxo_commitment.c], the part that does not
    read the database: a set of unspent outputs is the exclusive or of their
    SHA-256 hashes and their number. *)

From stdpp Require Import base tactics list numbers option.
From Stdlib Require Import ZArith Lia.
From S2P Require Import Prelude ByteOrder Hash Transaction.
#[local] Open Scope Z_scope.
#[local] Open Scope list_scope.
#[local] Open Scope cint_scope.

Definition UTXO_COMMITMENT_SERIALIZED_SIZE : nat := 40.

Record utxo_commitment := mk_commitment { accumulator : list Z; uc_count : Z }.

(** [(uint8_t)((v >> (8 * i)) & 0xFF)] for each [i] below [n]. *)
Definition le_at (n : nat) (v : Z) : list Z := map (fun i => u8 ((v >> (8 * Z.of_nat i)) .& 0xFF)) (seq 0 n).

(** The process-wide switch that turns tracking off. *)
Class CommitmentSkip := g_utxo_commitment_skip : bool.

Section Commitment.
Context `{HostOrder} `{CommitmentSkip}.

(** The 48 bytes that stand for an output. *)
Definition utxo_preimage (txid : uint256) (vout value height : Z) : list Z :=
  txid ++ le_at 4 vout ++ le_at 8 (u64 value) ++ le_at 4 (u32 height).
Definition hash_utxo (txid : uint256) (vout value height : Z) : list Z :=
  sha256_digest (utxo_preimage txid vout value height).

Definition xor32 (dst src : list Z) : list Z := zip_with Z.lxor dst src.

Definition utxo_commitment_init : utxo_commitment := mk_commitment (replicate 32 0) 0.

Definition utxo_commitment_add (uc : utxo_commitment) (txid : uint256) (vout value height : Z) : utxo_commitment :=
  if g_utxo_commitment_skip then uc
  else mk_commitment (xor32 (accumulator uc) (hash_utxo txid vout value height)) (u64 (uc_count uc + 1)).

Definition utxo_commitment_remove (uc : utxo_commitment) (txid : uint256) (vout value height : Z) : utxo_commitment :=
  if g_utxo_commitment_skip then uc
  else mk_commitment (xor32 (accumulator uc) (hash_utxo txid vout value height))
         (if 0 <? uc_count uc then uc_count uc - 1 else uc_count uc).

Definition utxo_commitment_merge (dst src : utxo_commitment) : utxo_commitment :=
  mk_commitment (xor32 (accumulator dst) (accumulator src)) (u64 (uc_count dst + uc_count src)).

Definition utxo_commitment_serialize (uc : utxo_commitment) : list Z := accumulator uc ++ le_at 8 (uc_count uc).

(** [uc->count |= (uint64_t)buf[32 + i] << (8 * i)] for each [i]. *)
Definition utxo_commitment_deserialize (buf : list Z) : option utxo_commitment :=
  if (length buf <? UTXO_COMMITMENT_SERIALIZED_SIZE)%nat then None
  else Some (mk_commitment (take 32 buf) (fold_left (fun c i => c .| u64 (nth i (drop 32 buf) 0 << (8 * Z.of_nat i))) (seq 0 8) 0)).

Definition utxo_commitment_equal (a b : utxo_commitment) : bool :=
  (uc_count a =? uc_count b) && (memcmp (accumulator a) (accumulator b) =? 0).

End Commitment.

(** ** The commitment as a function of the set *)

Record utxo_item := mk_item { it_txid : uint256; it_vout : Z; it_value : Z; it_height : Z }.

Definition item_wf (x : utxo_item) : Prop :=
  u256 (it_txid x) /\ in_u 32 (it_vout x) /\ in_s 64 (it_value x) /\ in_s 32 (it_height x).

Lemma le_at_digits n v : le_at n v = digits_of 8 n v.
Proof.
  unfold le_at. rewrite digits_of_byte_at. apply map_ext. intros i. unfold byte_at, wrap.
  change 0xFF with (Z.ones 8). rewrite Z.land_ones, Z.shiftr_div_pow2 by lia. by rewrite Z.mod_mod.
Qed.

Lemma le_at_length n v : length (le_at n v) = n.
Proof. unfold le_at. by rewrite length_map, length_seq. Qed.

Lemma le_at_inj n v w : in_u (8 * Z.of_nat n) v -> in_u (8 * Z.of_nat n) w -> le_at n v = le_at n w -> v = w.
Proof.
  intros Hv Hw E. rewrite !le_at_digits in E. apply (f_equal (digits_val 8)) in E.
  rewrite !digits_val_of in E by lia. by rewrite !Z.mod_small in E by (unfold in_u in *; lia).
Qed.

Lemma wrap_signed_inj w v v' : 0 < w -> in_s w v -> in_s w v' -> wrap w v = wrap w v' -> v = v'.
Proof.
  unfold in_s, wrap. intros Hw Hv Hv' E.
  assert (2 ^ w = 2 * 2 ^ (w - 1)) as P by (rewrite <- Z.pow_succ_r by lia; f_equal; lia).
  rewrite P in E. pose proof (pow2_pos (w - 1) ltac:(lia)). set (m := 2 ^ (w - 1)) in *.
  pose proof (Z.div_mod v (2 * m) ltac:(lia)). pose proof (Z.div_mod v' (2 * m) ltac:(lia)).
  set (q := v / (2 * m)) in *. set (q' := v' / (2 * m)) in *.
  assert (v - v' = 2 * m * (q - q')) as D by lia. clearbody m q q'.
  destruct (Z.lt_trichotomy q q') as [L|[->|L]]; [|lia|].
  - pose proof (Z.mul_le_mono_nonneg_l 1 (q' - q) (2 * m) ltac:(lia) ltac:(lia)). lia.
  - pose proof (Z.mul_le_mono_nonneg_l 1 (q - q') (2 * m) ltac:(lia) ltac:(lia)). lia.
Qed.

Section Set_hash.
Context `{HostOrder} `{CommitmentSkip}.

Definition item_hash (x : utxo_item) : list Z := hash_utxo (it_txid x) (it_vout x) (it_value x) (it_height x).
Definition item_preimage (x : utxo_item) : list Z := utxo_preimage (it_txid x) (it_vout x) (it_value x) (it_height x).

Lemma item_preimage_inj x y : item_wf x -> item_wf y -> item_preimage x = item_preimage y -> x = y.
Proof.
  destruct x as [t n v h], y as [t' n' v' h']. intros ([_ L] & Hn & Hv & Hh) ([_ L'] & Hn' & Hv' & Hh') E.
  cbn [it_txid it_vout it_value it_height] in *.
  unfold item_preimage, utxo_preimage in E. cbn [it_txid it_vout it_value it_height] in E. unfold len in *.
  apply app_inj_1 in E as [-> E]; [|lia].
  apply app_inj_1 in E as [En E]; [|by rewrite !le_at_length]. apply app_inj_1 in E as [Ev Eh]; [|by rewrite !le_at_length].
  apply le_at_inj in En as ->; [|done..].
  apply le_at_inj in Ev; [|by apply wrap_range..]. apply (wrap_signed_inj 64) in Ev as ->; [|done..].
  apply le_at_inj in Eh; [|by apply wrap_range..]. by apply (wrap_signed_inj 32) in Eh as ->.
Qed.

(** Exclusive or on byte strings. *)
Lemma xor32_comm a b : xor32 a b = xor32 b a.
Proof. unfold xor32. revert b. induction a as [|x a IH]; intros [|y b]; cbn; [done..|]. by rewrite IH, Z.lxor_comm. Qed.
Lemma xor32_assoc a b c : xor32 (xor32 a b) c = xor32 a (xor32 b c).
Proof.
  unfold xor32. revert b c. induction a as [|x a IH]; intros [|y b] [|z c]; cbn; [done..|]. by rewrite IH, Z.lxor_assoc.
Qed.
Lemma xor32_zero a n : length a = n -> xor32 a (replicate n 0) = a.
Proof. intros <-. unfold xor32. induction a as [|x a IH]; cbn; [done|]. by rewrite IH, Z.lxor_0_r. Qed.
Lemma xor32_self a : xor32 a a = replicate (length a) 0.
Proof. unfold xor32. induction a as [|x a IH]; cbn; [done|]. by rewrite IH, Z.lxor_nilpotent. Qed.
Lemma xor32_length a b n : length a = n -> length b = n -> length (xor32 a b) = n.
Proof. intros. unfold xor32. rewrite length_zip_with. lia. Qed.
Lemma xor32_bytes a b : bytes a -> bytes b -> bytes (xor32 a b).
Proof.
  unfold xor32. intros Ha. revert b. induction Ha as [|x a Hx _ IH]; intros [|y b] Hb; cbn; try constructor.
  - inversion Hb; subst. by apply lxor_range.
  - inversion Hb; subst. by apply IH.
Qed.

Lemma sha256_digest_length data : length (sha256_digest data) = 32%nat.
Proof.
  unfold sha256_digest, sha256_finalize, sha256_finalize_no_padding.
  change (negb (0 =? 0)) with false. cbn iota beta delta [andb default]. apply emit_be_length.
Qed.
Lemma item_hash_length x : length (item_hash x) = 32%nat.
Proof. apply sha256_digest_length. Qed.

Definition item_add (uc : utxo_commitment) (x : utxo_item) : utxo_commitment :=
  utxo_commitment_add uc (it_txid x) (it_vout x) (it_value x) (it_height x).
Definition item_remove (uc : utxo_commitment) (x : utxo_item) : utxo_commitment :=
  utxo_commitment_remove uc (it_txid x) (it_vout x) (it_value x) (it_height x).

(** What is committed to: the exclusive or over a list of outputs, and its length. *)
Definition items_xor (l : list utxo_item) : list Z := foldr (fun x acc => xor32 acc (item_hash x)) (replicate 32 0) l.
Definition commitment_of (l : list utxo_item) : utxo_commitment := mk_commitment (items_xor l) (u64 (len l)).

Lemma items_xor_length l : length (items_xor l) = 32%nat.
Proof. induction l; [done|]. cbn [items_xor foldr]. apply xor32_length; [done|apply item_hash_length]. Qed.

#[export] Instance items_xor_permutation : Proper (Permutation ==> eq) items_xor.
Proof.
  intros l l' P. unfold items_xor.
  apply (foldr_permutation eq); [solve_proper| |done]. intros j1 a1 j2 a2 acc _ _ _.
  rewrite !xor32_assoc. f_equal. apply xor32_comm.
Qed.

#[export] Instance commitment_of_permutation : Proper (Permutation ==> eq) commitment_of.
Proof. intros l l' P. unfold commitment_of, len. by rewrite P. Qed.

Lemma items_xor_app l l' : items_xor (l ++ l') = xor32 (items_xor l) (items_xor l').
Proof.
  induction l as [|x l IH]; cbn [app items_xor foldr].
  - rewrite xor32_comm. symmetry. apply xor32_zero, items_xor_length.
  - fold (items_xor l) (items_xor (l ++ l')). rewrite IH, !xor32_assoc. f_equal. apply xor32_comm.
Qed.

Lemma commitment_of_add l x : g_utxo_commitment_skip = false ->
  utxo_commitment_add (commitment_of l) (it_txid x) (it_vout x) (it_value x) (it_height x) = commitment_of (x :: l).
Proof.
  intros S. unfold utxo_commitment_add. rewrite S. unfold commitment_of. cbn [accumulator uc_count]. f_equal.
  unfold wrap, len. rewrite Zplus_mod_idemp_l. f_equal. cbn [length]. lia.
Qed.

Lemma commitment_of_remove l l' x : g_utxo_commitment_skip = false -> len l < 2 ^ 64 -> l ≡ₚ x :: l' ->
  utxo_commitment_remove (commitment_of l) (it_txid x) (it_vout x) (it_value x) (it_height x) = commitment_of l'.
Proof.
  intros Skip L P. pose proof (Permutation_length P) as Lp. cbn [length] in Lp.
  rewrite P. unfold utxo_commitment_remove. rewrite Skip. unfold commitment_of. cbn [accumulator uc_count].
  unfold len in *. cbn [length]. rewrite !wrap_id by (unfold in_u; lia). f_equal.
  - cbn [items_xor foldr]. fold (item_hash x) (items_xor l'). rewrite xor32_assoc, xor32_self, item_hash_length.
    apply xor32_zero, items_xor_length.
  - destruct (Z.ltb_spec 0 (Z.of_nat (S (length l')))); lia.
Qed.

Lemma commitment_of_merge l l' : utxo_commitment_merge (commitment_of l) (commitment_of l') = commitment_of (l ++ l').
Proof.
  unfold utxo_commitment_merge, commitment_of. cbn [accumulator uc_count]. rewrite items_xor_app. f_equal.
  unfold wrap. rewrite <- Zplus_mod. f_equal. unfold len. rewrite length_app. lia.
Qed.

Lemma commitment_bytes_roundtrip uc rest : length (accumulator uc) = 32%nat -> in_u 64 (uc_count uc) ->
  utxo_commitment_deserialize (utxo_commitment_serialize uc ++ rest) = Some uc.
Proof.
  destruct uc as [acc c]. cbn [accumulator uc_count]. intros L Hc. unfold utxo_commitment_deserialize, utxo_commitment_serialize. cbn [accumulator uc_count].
  rewrite le_at_digits, <- app_assoc. rewrite (take_app_length' acc _ 32), (drop_app_length' acc _ 32) by done.
  rewrite !length_app, length_digits_of, L. rewrite (proj2 (Nat.ltb_ge _ _)) by (unfold UTXO_COMMITMENT_SERIALIZED_SIZE; lia).
  do 2 f_equal. trans (digits_val 8 (digits_of 8 8 c)); [|rewrite digits_val_of by lia; by apply Z.mod_small].
  rewrite <- (fold_bytes_val 8) by (done || by apply digits_of_digits).
  cbn [seq fold_left]. by rewrite !app_nth1 by (rewrite length_digits_of; lia).
Qed.

Lemma commitment_equal_spec l l' : utxo_commitment_equal (commitment_of l) (commitment_of l') = true <-> commitment_of l = commitment_of l'.
Proof.
  unfold utxo_commitment_equal, commitment_of. cbn [accumulator uc_count]. rewrite andb_true_iff, !Z.eqb_eq. split.
  - intros [-> E]. f_equal. apply memcmp_eq; [|done]. by rewrite !items_xor_length.
  - intros [= -> ->]. by rewrite memcmp_refl.
Qed.

End Set_hash.

(** C32: the incremental commitment is a function of the set of unspent outputs.
    While tracking is on, adding an output to the commitment of a set gives the
    commitment of the larger set and removing one that is in the set gives that of
    the smaller; the order of the outputs does not matter; merging a child's
    commitment into its parent's gives that of the union; serialising and
    deserialising is the identity, whatever follows in the buffer; equality is
    decided by both fields; and two outputs that differ in id, index, amount or
    height never have the same 48 hashed bytes. But a child whose count starts at
    zero does not count the removal of one of its parent's outputs: merging the
    delta of a child that replaces [x] by [y] gives the accumulator of the
    resulting set with a count that is one too high. *)
Theorem commitment_is_set_hash `{HostOrder} `{CommitmentSkip} l x :
  g_utxo_commitment_skip = false -> len l + 2 < 2 ^ 64 ->
  item_add (commitment_of l) x = commitment_of (x :: l) /\
  item_remove (commitment_of (x :: l)) x = commitment_of l /\
  (forall l', l ≡ₚ l' -> commitment_of l = commitment_of l') /\
  (forall l', utxo_commitment_merge (commitment_of l) (commitment_of l') = commitment_of (l ++ l')) /\
  (forall rest, utxo_commitment_deserialize (utxo_commitment_serialize (commitment_of l) ++ rest) = Some (commitment_of l)) /\
  (forall l', utxo_commitment_equal (commitment_of l) (commitment_of l') = true <-> commitment_of l = commitment_of l') /\
  (forall y, item_wf x -> item_wf y -> item_preimage x = item_preimage y -> x = y) /\
  (forall y, let delta := item_add (item_remove utxo_commitment_init x) y in
   let merged := utxo_commitment_merge (commitment_of (x :: l)) delta in
   accumulator merged = accumulator (commitment_of (y :: l)) /\ uc_count merged = len (x :: y :: l)).
Proof.
  intros Skip L. split_and!.
  - by apply commitment_of_add.
  - apply commitment_of_remove; [done| |done]. unfold len in *. cbn [length]. lia.
  - by intros l' ->.
  - apply commitment_of_merge.
  - intros rest. apply commitment_bytes_roundtrip; [apply items_xor_length|by apply wrap_range].
  - apply commitment_equal_spec.
  - intros y. apply item_preimage_inj.
  - intros y. cbv zeta. unfold item_add, item_remove, utxo_commitment_add, utxo_commitment_remove. rewrite Skip.
    unfold utxo_commitment_merge, commitment_of, len in *. cbn [accumulator uc_count utxo_commitment_init length]. split.
    + cbn [items_xor foldr]. fold (items_xor l) (item_hash x) (item_hash y).
      assert (forall z, xor32 (replicate 32 0) (item_hash z) = item_hash z) as Zl.
      { intros z. rewrite xor32_comm. apply xor32_zero, item_hash_length. }
      by rewrite Zl, xor32_assoc, <- (xor32_assoc (item_hash x)), xor32_self, item_hash_length, Zl.
    + change (0 <? 0) with false. cbn iota. change (u64 (0 + 1)) with 1.
      rewrite (wrap_id 64 (Z.of_nat (S (length l)))) by (unfold in_u; lia). rewrite wrap_id by (unfold in_u; lia). lia.
Qed.

Section CommitmentWitness.
#[local] Instance commitment_host : HostOrder := false.
#[local] Instance commitment_on : CommitmentSkip := false.

Lemma commitment_is_set_hash_witness :
  let x := mk_item (replicate 32 7) 1 5000 12 in
  item_remove (item_add utxo_commitment_init x) x = utxo_commitment_init.
Proof.
  intros x. destruct (@commitment_is_set_hash _ commitment_on [] x eq_refl ltac:(done)) as (A & R & _).
  change utxo_commitment_init with (commitment_of []). rewrite A. exact R.
Defined.
End CommitmentWitness.
