(* ===== verification/IncrementalTree.v ===== *)
(** * Incremental note-commitment trees

    Model of [core/modules/sapling/src/incremental_merkle_tree.c] and its header: the
    frontier of an append-only Merkle tree, its memoised root, its wire format, and
    the witness that keeps one leaf's authentication path up to date. *)

From stdpp Require Import base tactics list numbers option.
From Stdlib Require Import ZArith Lia.
From S2P Require Import Prelude Serialize ByteOrder Hash Transaction.
#[local] Open Scope Z_scope.
#[local] Open Scope list_scope.
#[local] Open Scope cint_scope.
#[local] Open Scope zres_scope.
#[local] Open Scope stream_scope.

Definition INCREMENTAL_MERKLE_TREE_DEPTH : nat := 29.
Definition INCREMENTAL_MERKLE_TREE_DEPTH_TESTING : nat := 4.
Definition SAPLING_INCREMENTAL_MERKLE_TREE_DEPTH : nat := 32.
Definition MAX_TREE_DEPTH : nat := 32.
Definition MAX_WITNESS_FILLS : nat := 64.

(** ** Hash functions *)

(** The Pedersen hash of [pedersen_hash.c], elliptic-curve arithmetic. *)
Class Pedersen := pedersen_merkle_hash : nat -> uint256 -> uint256 -> uint256.

Definition sapling_uncommitted : uint256 := 1 :: replicate 31 0.

(** The pairs of functions a tree points to. *)
Inductive tree_fns := SHA256_COMPRESS | PEDERSEN.
#[export] Instance tree_fns_eq_dec : EqDecision tree_fns.
Proof. solve_decision. Defined.

(** ** Data *)

(** An absent hash keeps its bytes in C, which nothing reads. [memo] is the root
    cached for the next caller. *)
Record incremental_merkle_tree := mk_tree {
  depth : nat;
  left : option uint256;
  right : option uint256;
  parents : list (option uint256);
  num_parents : nat;
  fns : tree_fns;
  memo : option uint256;
}.

Definition set_leaves (t : incremental_merkle_tree) (l r : option uint256) : incremental_merkle_tree :=
  mk_tree (depth t) l r (parents t) (num_parents t) (fns t) (memo t).
Definition set_parents (t : incremental_merkle_tree) (ps : list (option uint256)) (n : nat) : incremental_merkle_tree :=
  mk_tree (depth t) (left t) (right t) ps n (fns t) (memo t).
Definition set_memo (t : incremental_merkle_tree) (m : option uint256) : incremental_merkle_tree :=
  mk_tree (depth t) (left t) (right t) (parents t) (num_parents t) (fns t) m.

(** The [has_parent] and [parents] of an array of [MAX_TREE_DEPTH] slots. *)
Definition parent_at (t : incremental_merkle_tree) (i : nat) : option (option uint256) := parents t !! i.
Definition set_parent (t : incremental_merkle_tree) (i : nat) (p : option uint256) (n : nat) : option incremental_merkle_tree :=
  if bool_decide (i < MAX_TREE_DEPTH)%nat then Some (set_parents t (<[i := p]> (parents t)) n) else None.

Section Tree.
Context `{HostOrder} `{Pedersen}.

Definition sha256_compress_combine (a b : uint256) (d : nat) : uint256 :=
  default [] (sha256_finalize_no_padding (sha256_write (sha256_write (sha256_init fresh_ctx) a) b) 0).
Definition sha256_compress_uncommitted : uint256 := replicate 32 0.

Definition pedersen_combine (a b : uint256) (d : nat) : uint256 := pedersen_merkle_hash d a b.
Definition pedersen_uncommitted : uint256 := sapling_uncommitted.

Definition combine (f : tree_fns) : uint256 -> uint256 -> nat -> uint256 :=
  match f with SHA256_COMPRESS => sha256_compress_combine | PEDERSEN => pedersen_combine end.
Definition uncommitted (f : tree_fns) : uint256 :=
  match f with SHA256_COMPRESS => sha256_compress_uncommitted | PEDERSEN => pedersen_uncommitted end.

(** ** Construction *)

Definition tree_root_invalidate (t : incremental_merkle_tree) : incremental_merkle_tree := set_memo t None.

(** [None]: the assertion on the depth fails. *)
Definition tree_init (d : nat) (f : tree_fns) : option incremental_merkle_tree :=
  if bool_decide (d <= MAX_TREE_DEPTH)%nat
  then Some (mk_tree d None None (replicate MAX_TREE_DEPTH None) 0 f None) else None.

Definition sprout_tree_init : option incremental_merkle_tree := tree_init INCREMENTAL_MERKLE_TREE_DEPTH SHA256_COMPRESS.
Definition sapling_testing_tree_init : option incremental_merkle_tree := tree_init INCREMENTAL_MERKLE_TREE_DEPTH_TESTING PEDERSEN.
Definition sapling_tree_init : option incremental_merkle_tree := tree_init SAPLING_INCREMENTAL_MERKLE_TREE_DEPTH PEDERSEN.

(** ** Empty roots *)

(** Level [d + n] from the empty root of level [d]. *)
Fixpoint empty_loop (f : tree_fns) (n d : nat) (current : uint256) : uint256 :=
  match n with O => current | S n => empty_loop f n (S d) (combine f current current d) end.

(** The table filled once, entries [d] to [d + n]. *)
Fixpoint load_loop (n d : nat) (root : uint256) : list uint256 :=
  match n with O => [root] | S n => root :: load_loop n (S d) (pedersen_combine root root d) end.
Definition load_sapling_empty_roots : list uint256 := load_loop MAX_TREE_DEPTH 0 pedersen_uncommitted.

Definition empty_root_at_depth (t : incremental_merkle_tree) (d : nat) : option uint256 :=
  match fns t with
  | PEDERSEN => load_sapling_empty_roots !! d
  | SHA256_COMPRESS => Some (empty_loop (fns t) d 0 (uncommitted (fns t)))
  end.

Definition incremental_tree_empty_root (t : incremental_merkle_tree) : option uint256 := empty_root_at_depth t (depth t).

(** ** Appending *)

(** The loop from index [i] on, with [n] turns left; when they run out [combined] is lost. *)
Fixpoint append_loop (n i : nat) (t : incremental_merkle_tree) (combined : uint256) : option incremental_merkle_tree :=
  match n with
  | O => Some t
  | S n =>
      if bool_decide (i < num_parents t)%nat then
        let? p := parent_at t i in
        match p with
        | Some h =>
            let? t := set_parent t i None (num_parents t) in
            append_loop n (S i) t (combine (fns t) h combined (S i))
        | None => set_parent t i (Some combined) (num_parents t)
        end
      else set_parent t i (Some combined) (S i)
  end.

Definition incremental_tree_append (t : incremental_merkle_tree) (obj : uint256) : option incremental_merkle_tree :=
  let t := tree_root_invalidate t in
  match left t, right t with
  | None, _ => Some (set_leaves t (Some obj) (right t))
  | Some _, None => Some (set_leaves t (left t) (Some obj))
  | Some l, Some r => append_loop (depth t) 0 (set_leaves t (Some obj) None) (combine (fns t) l r 0)
  end.

(** ** The root *)

Definition filler_next (t : incremental_merkle_tree) (d : nat) : option uint256 := empty_root_at_depth t d.

Fixpoint root_loop (t : incremental_merkle_tree) (n i : nat) (root : uint256) : option uint256 :=
  match n with
  | O => Some root
  | S n =>
      let? p := parent_at t i in
      let? next := (match p with
                    | Some h => Some (combine (fns t) h root (S i))
                    | None => let? empty := empty_root_at_depth t (S i) in Some (combine (fns t) root empty (S i))
                    end) in
      root_loop t n (S i) next
  end.

Fixpoint pad_loop (t : incremental_merkle_tree) (n d : nat) (root : uint256) : option uint256 :=
  match n with
  | O => Some root
  | S n => let? empty := empty_root_at_depth t d in pad_loop t n (S d) (combine (fns t) root empty d)
  end.

Definition leaf_or_filler (t : incremental_merkle_tree) (o : option uint256) : option uint256 :=
  match o with Some h => Some h | None => filler_next t 0 end.

(** The tree comes back with the memo filled. *)
Definition incremental_tree_root (t : incremental_merkle_tree) : option (incremental_merkle_tree * uint256) :=
  match memo t with
  | Some r => Some (t, r)
  | None =>
      let? l := leaf_or_filler t (left t) in
      let? r := leaf_or_filler t (right t) in
      let? root := root_loop t (num_parents t) 0 (combine (fns t) l r 0) in
      let? root := pad_loop t (depth t - S (num_parents t)) (S (num_parents t)) root in
      Some (set_memo t (Some root), root)
  end.

(** ** Size *)

Definition flag (o : option uint256) : Z := match o with Some _ => 1 | None => 0 end.

Fixpoint size_loop (t : incremental_merkle_tree) (n i : nat) (ret : Z) : option Z :=
  match n with
  | O => Some ret
  | S n =>
      let? p := parent_at t i in
      size_loop t n (S i) (match p with Some _ => u64 (ret + (1 << Z.of_nat (S i))) | None => ret end)
  end.

Definition incremental_tree_size (t : incremental_merkle_tree) : option Z :=
  size_loop t (num_parents t) 0 (flag (left t) + flag (right t)).

Fixpoint all_parents (t : incremental_merkle_tree) (n i : nat) : option bool :=
  match n with
  | O => Some true
  | S n => let? p := parent_at t i in match p with Some _ => all_parents t n (S i) | None => Some false end
  end.

(** [depth - 1] is a [size_t]: a depth of zero is never complete. *)
Definition incremental_tree_is_complete (t : incremental_merkle_tree) : option bool :=
  match left t, right t with
  | Some _, Some _ =>
      if negb (Z.of_nat (num_parents t) =? u64 (Z.of_nat (depth t) - 1)) then Some false
      else all_parents t (num_parents t) 0
  | _, _ => Some false
  end.

(** ** Wire format *)

(** An optional hash: a discriminant and, if set, 32 bytes. *)
Definition write_optional `{Allocator} (o : option uint256) : writer :=
  stream_write_u8 (flag o) &&w match o with Some h => stream_write h | None => wdone end.
Definition read_optional : reader (option uint256) :=
  read disc <- stream_read_u8;
  if negb (disc =? 0) then read h <- stream_read 32; rret (Some h) else rret None.

Definition incremental_tree_serialize `{Allocator} (t : incremental_merkle_tree) : writer :=
  write_optional (left t) &&w write_optional (right t) &&w
  stream_write_compact_size (Z.of_nat (num_parents t)) &&w
  write_all write_optional (take (num_parents t) (parents t)).

Definition wfcheck (t : incremental_merkle_tree) : bool :=
  if bool_decide (depth t <= num_parents t)%nat then false
  else if bool_decide (0 < num_parents t)%nat && (flag (default None (parent_at t (num_parents t - 1))) =? 0) then false
  else match left t with
       | None => if flag (right t) =? 1 then false else negb (bool_decide (0 < num_parents t)%nat)
       | Some _ => true
       end.

(** Into a tree that has its depth and functions. What a failed read leaves in the
    tree is not kept: the callers discard it. *)
Definition incremental_tree_deserialize (t : incremental_merkle_tree) : reader incremental_merkle_tree :=
  let t := tree_root_invalidate t in
  read l <- read_optional;
  read r <- read_optional;
  read num <- stream_read_compact_size;
  rfail_if (Z.of_nat MAX_TREE_DEPTH <? num) (
  read ps <- read_elems (Z.to_nat num) read_optional;
  let t := set_parents (set_leaves t l r) (ps ++ replicate (MAX_TREE_DEPTH - length ps) None) (Z.to_nat num) in
  if wfcheck t then rret t else rfail).

(** ** Checkpoints *)

Inductive sapling_ckpt_verdict :=
| SAPLING_CKPT_OK | SAPLING_CKPT_STALE_ABOVE_TIP | SAPLING_CKPT_REORG | SAPLING_CKPT_ROOT_MISMATCH | SAPLING_CKPT_ROOT_UNKNOWN.

(** A hash that is not known, or a null pointer, is [None]. *)
Definition sapling_ckpt_verify_binding (ckpt_height : Z) (ckpt_root ckpt_block_hash : option uint256) (tip_height : Z)
    (expected_block_hash : option uint256) (expected_hash_known : bool)
    (expected_root : option uint256) (expected_root_known : bool) : sapling_ckpt_verdict :=
  if tip_height <? ckpt_height then SAPLING_CKPT_STALE_ABOVE_TIP
  else if (match ckpt_block_hash with
           | None => false
           | Some h =>
               negb (memcmp h (replicate 32 0) =? 0) &&
               match expected_block_hash with
               | None => true
               | Some e => negb expected_hash_known || negb (memcmp h e =? 0)
               end
           end) then SAPLING_CKPT_REORG
  else match expected_root with
       | None => SAPLING_CKPT_ROOT_UNKNOWN
       | Some e =>
           if negb expected_root_known then SAPLING_CKPT_ROOT_UNKNOWN
           else match ckpt_root with
                | None => SAPLING_CKPT_ROOT_MISMATCH
                | Some r => if negb (memcmp r e =? 0) then SAPLING_CKPT_ROOT_MISMATCH else SAPLING_CKPT_OK
                end
       end.

End Tree.

(** ** The tree of a list of leaves *)

Section Spec.
Context `{HostOrder} `{Pedersen}.
Variable f : tree_fns.

(** The root of height [d] over leaves [l], the missing ones uncommitted. *)
Fixpoint subtree (d : nat) (l : list uint256) : uint256 :=
  match d with
  | O => default (uncommitted f) (head l)
  | S d => combine f (subtree d (take (2 ^ d) l)) (subtree d (drop (2 ^ d) l)) d
  end.

Lemma pow2_nonzero d : (2 ^ d <> 0)%nat.
Proof. apply Nat.pow_nonzero. lia. Qed.

Lemma subtree_pair d l1 l2 : length l1 = (2 ^ d)%nat ->
  subtree (S d) (l1 ++ l2) = combine f (subtree d l1) (subtree d l2) d.
Proof. intros L. cbn [subtree]. rewrite <- L, take_app_length, drop_app_length. done. Qed.

Lemma subtree_left d l : (length l <= 2 ^ d)%nat -> subtree (S d) l = combine f (subtree d l) (subtree d []) d.
Proof. intros L. cbn [subtree]. by rewrite take_ge, drop_ge. Qed.

Lemma empty_loop_spec n d : empty_loop f n d (subtree d []) = subtree (n + d) [].
Proof.
  revert d. induction n as [|n IH]; intros d; [done|]. cbn [empty_loop].
  rewrite <- (subtree_left d []) by (cbn; lia). rewrite IH. f_equal. lia.
Qed.

End Spec.

Section Frontier.
Context `{HostOrder} `{Pedersen}.

Lemma load_loop_spec n d i : (i <= n)%nat -> load_loop n d (subtree PEDERSEN d []) !! i = Some (subtree PEDERSEN (i + d) []).
Proof.
  revert d i. induction n as [|n IH]; intros d [|i] Hi; cbn [load_loop lookup list_lookup]; [done|lia|done|].
  change (pedersen_combine ?a ?a d) with (combine PEDERSEN a a d). rewrite <- (subtree_left PEDERSEN d []) by (cbn; lia).
  rewrite IH by lia. do 2 f_equal. lia.
Qed.

Lemma empty_root_spec t d : (d <= MAX_TREE_DEPTH)%nat -> empty_root_at_depth t d = Some (subtree (fns t) d []).
Proof.
  intros Hd. unfold empty_root_at_depth. destruct (fns t).
  - f_equal. rewrite (empty_loop_spec SHA256_COMPRESS d 0). f_equal. lia.
  - unfold load_sapling_empty_roots. change pedersen_uncommitted with (subtree PEDERSEN 0 []). rewrite load_loop_spec by done.
    do 2 f_equal. lia.
Qed.

(** The hashes [ps], for levels [d] and up, cover the leaves [l]: the hash of level
    [d] is that of the last [2 ^ d] leaves. *)
Inductive frontier (f : tree_fns) : nat -> list (option uint256) -> list uint256 -> Prop :=
| frontier_nil d : frontier f d [] []
| frontier_none d ps l : frontier f (S d) ps l -> frontier f d (None :: ps) l
| frontier_some d ps l l2 : frontier f (S d) ps l -> length l2 = (2 ^ d)%nat ->
    frontier f d (Some (subtree f d l2) :: ps) (l ++ l2).

Lemma frontier_empty f d n : frontier f d (replicate n None) [].
Proof. revert d. induction n; intros d; cbn; constructor; auto. Qed.

Lemma frontier_all_none f d ps l : frontier f d ps l -> (forall i h, ps !! i <> Some (Some h)) -> l = [].
Proof.
  induction 1 as [|d ps l _ IH|d ps l l2]; intros N; [done| |].
  - apply IH. intros i h. apply (N (S i)).
  - by destruct (N 0%nat (subtree f d l2)).
Qed.

(** A hash at index [j] accounts for at least its own leaves. *)
Lemma frontier_length_ge f d ps l j h : frontier f d ps l -> ps !! j = Some (Some h) -> (2 ^ (d + j) <= length l)%nat.
Proof.
  intros F. revert j. induction F as [|d ps l _ IH|d ps l l2 _ IH L]; intros [|j] E; cbn in E; try done.
  - specialize (IH _ E). by replace (d + S j)%nat with (S d + j)%nat by lia.
  - rewrite length_app, L. replace (d + 0)%nat with d by lia. lia.
  - specialize (IH _ E). rewrite length_app. replace (d + S j)%nat with (S d + j)%nat by lia. lia.
Qed.

(** With [m] levels at most there are fewer than [2 ^ (d + m)] leaves, and as many as
    can be exactly when every level has its hash. *)
Lemma frontier_length_le f d ps l m : frontier f d ps l -> (forall i h, ps !! i = Some (Some h) -> (i < m)%nat) ->
  (length l + 2 ^ d <= 2 ^ (d + m))%nat /\
  ((length l + 2 ^ d = 2 ^ (d + m))%nat <-> forall i, (i < m)%nat -> exists h, ps !! i = Some (Some h)).
Proof.
  intros F. revert m. induction F as [d|d ps l F IH|d ps l l2 F IH L]; intros m B.
  - assert (2 ^ d <= 2 ^ (d + m))%nat by (apply Nat.pow_le_mono_r; lia). split; [done|].
    cbn [length Nat.add]. split.
    + intros E i Hi. apply Nat.pow_inj_r in E; lia.
    + intros A. destruct m; [by rewrite Nat.add_0_r|]. destruct (A 0%nat ltac:(lia)). done.
  - destruct m as [|m].
    + assert (l = []) as ->.
      { eapply frontier_all_none; [exact F|]. intros i h E. specialize (B (S i) h E). lia. }
      rewrite Nat.add_0_r. split; [done|]. split; [intros _ i Hi; lia|done].
    + destruct (IH m) as [Le _]; [intros i h E; specialize (B (S i) h E); lia|].
      rewrite <- Nat.add_succ_comm. pose proof (pow2_nonzero d). cbn [Nat.pow] in *. split; [lia|]. split; [lia|].
      intros A. destruct (A 0%nat ltac:(lia)). done.
  - destruct m as [|m]; [specialize (B 0%nat _ eq_refl); lia|].
    destruct (IH m) as [Le Eq]; [intros i h E; specialize (B (S i) h E); lia|].
    rewrite <- Nat.add_succ_comm, length_app, L. cbn [Nat.pow] in *. split; [lia|].
    transitivity (length l + (2 ^ d + (2 ^ d + 0)) = 2 ^ (S d + m))%nat; [lia|]. rewrite Eq. split.
    + intros A [|i] Hi; [by eexists|apply (A i); lia].
    + intros A i Hi. apply (A (S i)). lia.
Qed.

(** Climbing [n] levels from a node of level [d]: right siblings are taken from the
    leaves [rest] where the frontier has none. *)
Fixpoint climb (f : tree_fns) (n d : nat) (ps : list (option uint256)) (root : uint256) (rest : list uint256) : uint256 :=
  match n with
  | O => root
  | S n =>
      match ps with
      | Some h :: ps => climb f n (S d) ps (combine f h root d) rest
      | _ => climb f n (S d) (tail ps) (combine f root (subtree f d (take (2 ^ d) rest)) d) (drop (2 ^ d) rest)
      end
  end.

Lemma frontier_nonempty f d ps l : frontier f d ps l -> l <> [] -> (2 ^ d <= length l)%nat.
Proof.
  induction 1 as [|d ps l _ IH|d ps l l2 _ _ L]; intros N; [done| |rewrite length_app; lia].
  specialize (IH N). cbn [Nat.pow] in IH. lia.
Qed.

Lemma frontier_some_inv f d h ps l : frontier f d (Some h :: ps) l ->
  exists l1 l2, l = l1 ++ l2 /\ frontier f (S d) ps l1 /\ length l2 = (2 ^ d)%nat /\ h = subtree f d l2.
Proof.
  set (q := Some h :: ps). intros F. assert (q = Some h :: ps) as E by done. clearbody q.
  destruct F as [| |d ps' l l2 F L]; [done..|]. exists l, l2. by simplify_eq.
Qed.

Lemma frontier_tail f d ps l : frontier f d ps l -> match ps with Some _ :: _ => True | _ => frontier f (S d) (tail ps) l end.
Proof. by intros [|? ? ? ?|]; cbn; [constructor|..]. Qed.

Lemma climb_spec f n d ps l1 l2 rest : frontier f d ps l1 ->
  (length l2 = 2 ^ d \/ length l2 <= 2 ^ d /\ rest = [])%nat -> (l2 = [] -> l1 = []) ->
  (length (l1 ++ l2 ++ rest) <= 2 ^ (d + n))%nat ->
  climb f n d ps (subtree f d l2) rest = subtree f (d + n) (l1 ++ l2 ++ rest).
Proof.
  revert d ps l1 l2 rest. induction n as [|n IH]; intros d ps l1 l2 rest F L2 Ne Le.
  { rewrite Nat.add_0_r in *. rewrite !length_app in Le. pose proof (pow2_nonzero d). cbn [climb].
    assert (l1 = []) as ->.
    { destruct (decide (l1 = [])) as [|N]; [done|]. pose proof (frontier_nonempty _ _ _ _ F N).
      destruct l2; [by apply Ne|]. cbn in Le. lia. }
    assert (rest = []) as -> by (destruct L2 as [?|[_ ?]]; [apply length_zero_iff_nil; lia|done]). by rewrite app_nil_r. }
  rewrite <- Nat.add_succ_comm in *.
  assert (match ps with Some _ :: _ => True | _ =>
    climb f n (S d) (tail ps) (combine f (subtree f d l2) (subtree f d (take (2 ^ d) rest)) d) (drop (2 ^ d) rest) =
    subtree f (S d + n) (l1 ++ l2 ++ rest) end) as Gap.
  { pose proof (frontier_tail _ _ _ _ F) as F'. destruct ps as [|[h|] ps]; [|done|].
    all: rewrite <- (take_drop (2 ^ d) rest) at 3; rewrite (app_assoc l2).
    all: replace (combine f (subtree f d l2) (subtree f d (take (2 ^ d) rest)) d) with (subtree f (S d) (l2 ++ take (2 ^ d) rest));
      [apply IH|destruct L2 as [L2|[L2 ->]]; [by apply subtree_pair|by rewrite take_nil, app_nil_r; apply subtree_left]];
      [exact F'| |intros [E _]%app_eq_nil; by apply Ne|by rewrite <- app_assoc, take_drop].
    all: rewrite length_app, length_take; cbn [Nat.pow]; destruct L2 as [L2|[L2 ->]]; [|right; rewrite drop_nil; split; [cbn; lia|done]].
    all: destruct (decide (2 ^ d <= length rest)%nat); [left; lia|right; split; [lia|apply drop_ge; lia]]. }
  cbn [climb]. destruct ps as [|[h|] ps]; [exact Gap| |exact Gap].
  apply frontier_some_inv in F as (l3 & l4 & -> & F' & L4 & ->). rewrite <- subtree_pair by done.
  rewrite <- app_assoc, (app_assoc l4). apply IH; [done| | |by rewrite <- !app_assoc in *].
  - rewrite length_app, L4. cbn [Nat.pow]. destruct L2 as [L2|[L2 ->]]; [left|right]; split_and?; lia || done.
  - intros [E _]%app_eq_nil. subst l4. cbn in L4. by destruct (pow2_nonzero d).
Qed.

Lemma frontier_skip f i d ps l : (forall j, (j < i)%nat -> ps !! j = Some None) -> frontier f (i + d) (drop i ps) l -> frontier f d ps l.
Proof.
  revert d ps. induction i as [|i IH]; intros d ps N F; [done|]. destruct ps as [|p ps].
  - rewrite drop_nil in F. inversion F. constructor.
  - specialize (N 0%nat ltac:(lia)) as E. injection E as ->. constructor. apply IH.
    + intros j Hj. apply (N (S j)). lia.
    + by rewrite <- Nat.add_succ_comm.
Qed.

(** *** Trees that hold the leaves [l] *)

Definition leaves_ok (lo ro : option uint256) (l1 l2 : list uint256) : Prop :=
  match lo, ro with
  | None, None => l1 = [] /\ l2 = []
  | Some a, None => l2 = [a]
  | Some a, Some b => l2 = [a; b]
  | None, Some _ => False
  end.

(** What [wfcheck] tests of the hashes kept. *)
Record slots_ok (ps : list (option uint256)) (n : nat) : Prop := {
  so_slots : length ps = MAX_TREE_DEPTH;
  so_bound i h : ps !! i = Some (Some h) -> (i < n)%nat;
  so_top : n = 0%nat \/ exists h, ps !! (n - 1)%nat = Some (Some h);
}.

Record tree_repr (t : incremental_merkle_tree) (l : list uint256) : Prop := {
  tr_depth : (1 <= depth t <= MAX_TREE_DEPTH)%nat;
  tr_slots : slots_ok (parents t) (num_parents t);
  tr_fit : (length l <= 2 ^ depth t)%nat;
  tr_leaves : exists l1 l2, l = l1 ++ l2 /\ frontier (fns t) 1 (parents t) l1 /\ leaves_ok (left t) (right t) l1 l2;
  tr_memo r : memo t = Some r -> r = subtree (fns t) (depth t) l;
}.

Definition same_shape (t t' : incremental_merkle_tree) : Prop := depth t' = depth t /\ fns t' = fns t.

Lemma slots_insert ps n i c : slots_ok ps n -> (i < n)%nat -> slots_ok (<[i := Some c]> ps) n.
Proof.
  intros [L B T] Hi. split.
  - by rewrite length_insert.
  - intros j h E. destruct (decide (i = j)) as [->|N]; [done|]. rewrite list_lookup_insert_ne in E by done. by eapply B.
  - right. destruct T as [->|[h E]]; [lia|]. destruct (decide (i = n - 1)%nat) as [->|N].
    + exists c. apply list_lookup_insert_eq. by eapply lookup_lt_Some.
    + exists h. by rewrite list_lookup_insert_ne.
Qed.

Lemma slots_grow ps n c : length ps = MAX_TREE_DEPTH -> (forall i h, ps !! i = Some (Some h) -> (i < n)%nat) -> (n < MAX_TREE_DEPTH)%nat ->
  slots_ok (<[n := Some c]> ps) (S n).
Proof.
  intros L B Hn. split.
  - by rewrite length_insert.
  - intros j h E. destruct (decide (n = j)) as [->|N]; [lia|]. rewrite list_lookup_insert_ne in E by done. specialize (B _ _ E). lia.
  - right. exists c. replace (S n - 1)%nat with n by lia. apply list_lookup_insert_eq. lia.
Qed.

Lemma append_loop_spec n i t l l2 : (i + n = depth t)%nat -> (depth t <= MAX_TREE_DEPTH)%nat -> length (parents t) = MAX_TREE_DEPTH ->
  (forall j, (j < i)%nat -> parents t !! j = Some None) -> (forall j h, parents t !! j = Some (Some h) -> (j < num_parents t)%nat) ->
  (i <= num_parents t)%nat -> ((i < num_parents t)%nat -> exists h, parents t !! (num_parents t - 1)%nat = Some (Some h)) ->
  frontier (fns t) (S i) (drop i (parents t)) l -> length l2 = (2 ^ S i)%nat -> (length (l ++ l2) < 2 ^ depth t)%nat ->
  exists ps np, append_loop n i t (subtree (fns t) (S i) l2) = Some (set_parents t ps np) /\ slots_ok ps np /\ frontier (fns t) 1 ps (l ++ l2).
Proof.
  revert i t l l2. induction n as [|n IH]; intros i t l l2 Hn Hd L N B Hi T F L2 Fit.
  { exfalso. rewrite length_app, L2 in Fit. assert (i = depth t) as -> by lia. cbn [Nat.pow] in Fit. lia. }
  cbn [append_loop]. unfold parent_at, set_parent. rewrite (bool_decide_true (i < MAX_TREE_DEPTH)%nat) by lia.
  destruct (lookup_lt_is_Some_2 (parents t) i ltac:(lia)) as [p E]. rewrite E.
  rewrite (drop_S _ _ _ E) in F.
  assert (p = None -> frontier (fns t) 1 (<[i := Some (subtree (fns t) (S i) l2)]> (parents t)) (l ++ l2)) as Store.
  { intros ->. apply (frontier_skip _ i).
    - intros j Hj. rewrite list_lookup_insert_ne by lia. by apply N.
    - rewrite (drop_S _ (Some (subtree (fns t) (S i) l2)) i) by (apply list_lookup_insert_eq; lia).
      rewrite drop_insert_lt by lia. rewrite Nat.add_1_r. constructor; [by apply frontier_tail in F|done]. }
  destruct (bool_decide_reflect (i < num_parents t)%nat) as [Hp|Hp].
  - destruct p as [h|].
    + apply frontier_some_inv in F as (l3 & l4 & -> & F' & L4 & ->). rewrite <- subtree_pair by done.
      destruct (IH (S i) (set_parents t (<[i := None]> (parents t)) (num_parents t)) l3 (l4 ++ l2)) as (ps & np & E' & S' & F2).
      * cbn [depth set_parents]. lia.
      * done.
      * by rewrite <- L; apply length_insert.
      * intros j Hj. cbn [parents set_parents]. destruct (decide (j = i)) as [->|]; [apply list_lookup_insert_eq; lia|].
        rewrite list_lookup_insert_ne by lia. apply N. lia.
      * cbn [parents num_parents set_parents]. intros j h Eh. destruct (decide (i = j)) as [->|]; [done|].
        rewrite list_lookup_insert_ne in Eh by done. by eapply B.
      * done.
      * cbn [parents num_parents set_parents]. intros Hlt. destruct (T ltac:(lia)) as [h Eh]. exists h.
        by rewrite list_lookup_insert_ne by lia.
      * cbn [parents fns set_parents]. by rewrite drop_insert_lt by lia.
      * rewrite length_app, L4, L2. cbn [Nat.pow]. lia.
      * by rewrite app_assoc.
      * cbn [fns set_parents] in *. exists ps, np. rewrite E'. split_and!; [done|done|]. by rewrite <- app_assoc.
    + eexists _, _. split; [reflexivity|]. split; [|by apply Store]. apply slots_insert; [|done]. split; [exact L|exact B|right; by apply T].
  - assert (p = None) as -> by (destruct p as [h|]; [|done]; by specialize (B _ _ E)).
    eexists _, _. split; [reflexivity|]. split; [|by apply Store]. apply slots_grow; [done| |lia].
    intros j h Eh. specialize (B j h Eh). lia.
Qed.

(** *** The operations on them *)

Lemma tree_init_spec d f : (1 <= d <= MAX_TREE_DEPTH)%nat ->
  exists t, tree_init d f = Some t /\ tree_repr t [] /\ depth t = d /\ fns t = f.
Proof.
  intros Hd. unfold tree_init. rewrite bool_decide_true by lia. eexists. split; [reflexivity|].
  split; [|by split]. assert (forall i (h : uint256), replicate MAX_TREE_DEPTH None !! i <> Some (Some h)) as N.
  { intros i h E. by apply lookup_replicate in E as [[=] _]. }
  split; cbn [depth parents num_parents fns left right memo].
  - done.
  - split; [by rewrite length_replicate|intros i h E; by destruct (N i h)|by left].
  - cbn. lia.
  - exists [], []. split_and!; [done|apply frontier_empty|by split].
  - done.
Qed.

Lemma append_spec t l obj : tree_repr t l -> (length l < 2 ^ depth t)%nat ->
  exists t', incremental_tree_append t obj = Some t' /\ tree_repr t' (l ++ [obj]) /\ same_shape t t'.
Proof.
  intros [Hd S Hf (l1 & l2 & -> & F & Lv) Hm] Lt. unfold incremental_tree_append, tree_root_invalidate, same_shape.
  set (t0 := set_memo t None). change (left t0) with (left t). change (right t0) with (right t).
  rewrite !length_app in *. unfold leaves_ok in Lv.
  destruct (left t) as [a|], (right t) as [b|]; cbn [set_leaves]; [| | |destruct Lv as [-> ->]]; [subst l2..| |].
  - change (fns t0) with (fns t). change (depth t0) with (depth t).
    assert (combine (fns t) a b 0 = subtree (fns t) 1 [a; b]) as -> by (by rewrite (subtree_pair (fns t) 0 [a] [b])).
    destruct (append_loop_spec (depth t) 0 (set_leaves t0 (Some obj) None) l1 [a; b]) as (ps & np & E & S' & F');
      [done|cbn; lia|by apply S|intros; lia|apply S|cbn; lia|..|done|done|rewrite length_app; done|].
    { cbn. intros Hp. destruct (so_top _ _ S) as [E|]; [lia|done]. }
    change (fns (set_leaves t0 (Some obj) None)) with (fns t) in E. rewrite E. eexists. split; [reflexivity|]. split; [|by split].
    split; cbn [depth parents num_parents fns left right memo set_parents set_leaves set_memo t0]; [done|done| |by exists (l1 ++ [a; b]), [obj]|done].
    rewrite !length_app in *. cbn in *. lia.
  - eexists. split; [reflexivity|]. split; [|by split].
    split; cbn [depth parents num_parents fns left right memo set_parents set_leaves set_memo t0]; [done|done| |exists l1, [a; obj]; by rewrite <- app_assoc|done].
    rewrite !length_app in *. cbn in *. lia.
  - done.
  - eexists. split; [reflexivity|]. split; [|by split].
    split; cbn [depth parents num_parents fns left right memo set_parents set_leaves set_memo t0]; [done|done|cbn in *; lia|by exists [], [obj]|done].
Qed.

Lemma leaf_spec t o : leaf_or_filler t o = Some (subtree (fns t) 0 (option_list o)).
Proof. destruct o; [done|]. apply (empty_root_spec t 0), Nat.le_0_l. Qed.

Lemma leaves_pair t l1 l2 : leaves_ok (left t) (right t) l1 l2 ->
  combine (fns t) (subtree (fns t) 0 (option_list (left t))) (subtree (fns t) 0 (option_list (right t))) 0 = subtree (fns t) 1 l2 /\
  (length l2 <= 2)%nat /\ (l2 = [] -> l1 = []).
Proof. unfold leaves_ok. destruct (left t), (right t); [intros ->|intros ->|done|intros [-> ->]]; (split; [done|cbn; split; [lia|done]]). Qed.

(** The two loops of the root climb to the top. *)
Lemma root_loop_climb t n i root : (depth t <= MAX_TREE_DEPTH)%nat -> (i + n < depth t)%nat -> length (parents t) = MAX_TREE_DEPTH ->
  forall m, m = (depth t - S (i + n))%nat -> (forall j h, (i + n <= j)%nat -> parents t !! j <> Some (Some h)) ->
  (let? r := root_loop t n i root in pad_loop t m (S (i + n)) r) = Some (climb (fns t) (n + m) (S i) (drop i (parents t)) root []).
Proof.
  intros Hd Hn L m Hm N. revert i root Hn Hm N. induction n as [|n IH]; intros i root Hn Hm N; cbn [root_loop].
  - rewrite Nat.add_0_r in *. cbn [Nat.add]. assert (i + m < MAX_TREE_DEPTH)%nat as Hi by lia. clear Hn Hm. revert i root N Hi.
    induction m as [|m IHm]; intros i root N Hi; [done|].
    cbn [pad_loop climb]. rewrite empty_root_spec by lia. destruct (lookup_lt_is_Some_2 (parents t) i ltac:(lia)) as [p E].
    rewrite (drop_S _ _ _ E). destruct p as [h|]; [by destruct (N i h)|]. rewrite take_nil, drop_nil. apply IHm; [|lia].
    intros j h Hj. apply N. lia.
  - destruct (lookup_lt_is_Some_2 (parents t) i ltac:(lia)) as [p E]. unfold parent_at. rewrite E, (drop_S _ _ _ E). cbn [Nat.add climb].
    rewrite <- Nat.add_succ_comm in *. destruct p as [h|]; [by apply IH|]. rewrite empty_root_spec by lia.
    rewrite take_nil, drop_nil. by apply IH.
Qed.

Lemma repr_num_parents t l : tree_repr t l -> (num_parents t < depth t)%nat.
Proof.
  intros [Hd [_ _ T] Hf (l1 & l2 & -> & F & Lv) _]. destruct T as [->|[h E]]; [lia|].
  pose proof (frontier_length_ge _ _ _ _ _ _ F E) as Le. destruct (leaves_pair t l1 l2 Lv) as (_ & _ & Ne).
  rewrite length_app in Hf. destruct l2 as [|x l2]; [by rewrite Ne in Le by done; pose proof (pow2_nonzero (1 + (num_parents t - 1))); cbn in *; lia|].
  cbn [length] in Hf. apply (Nat.pow_lt_mono_r_iff 2); [lia|]. destruct (num_parents t) as [|n]; [cbn in *; lia|].
  replace (1 + (S n - 1))%nat with (S n) in Le by lia. lia.
Qed.

Lemma root_spec t l : tree_repr t l ->
  exists t', incremental_tree_root t = Some (t', subtree (fns t) (depth t) l) /\ tree_repr t' l /\
  memo t' = Some (subtree (fns t) (depth t) l) /\ t' = set_memo t (memo t').
Proof.
  intros R. pose proof (repr_num_parents t l R) as Hn. destruct R as [Hd S Hf (l1 & l2 & -> & F & Lv) Hm]. unfold incremental_tree_root.
  destruct (memo t) as [r|] eqn:Em.
  { rewrite <- (Hm r eq_refl). exists t. split_and!; [done| |done|by rewrite Em; destruct t; cbn in *; subst].
    split; [done|done|done|by exists l1, l2|]. intros r'. rewrite Em. apply Hm. }
  rewrite !leaf_spec. destruct (leaves_pair t l1 l2 Lv) as (E & L2 & Ne). rewrite E.
  assert (exists root, root_loop t (num_parents t) 0 (subtree (fns t) 1 l2) = Some root /\
    pad_loop t (depth t - Datatypes.S (num_parents t)) (Datatypes.S (num_parents t)) root = Some (subtree (fns t) (depth t) (l1 ++ l2))) as (root & -> & ->).
  { pose proof (root_loop_climb t (num_parents t) 0 (subtree (fns t) 1 l2) ltac:(lia) ltac:(lia) (so_slots _ _ S) _ eq_refl) as C.
    cbn [Nat.add] in C. destruct (root_loop t (num_parents t) 0 _) as [root|].
    - exists root. split; [done|]. rewrite C; [|intros j h Hj Ej; apply (so_bound _ _ S) in Ej; lia]. f_equal.
      rewrite drop_0, (climb_spec _ _ _ _ l1); [|done|right; by split|done|rewrite app_nil_r].
      + rewrite app_nil_r. f_equal. lia.
      + by replace (1 + (num_parents t + (depth t - Datatypes.S (num_parents t))))%nat with (depth t) by lia.
    - exfalso. enough (@None uint256 = Some (climb (fns t) (num_parents t + (depth t - Datatypes.S (num_parents t))) 1 (drop 0 (parents t)) (subtree (fns t) 1 l2) [])) by done.
      apply C. intros j h Hj Ej. apply (so_bound _ _ S) in Ej. lia. }
  eexists. split; [reflexivity|]. split_and!; [|done|done].
  split; [done|done|done|by exists l1, l2|]. by intros r [= <-].
Qed.

Lemma size_loop_spec t n i ret l : (i + n = num_parents t)%nat -> slots_ok (parents t) (num_parents t) -> (num_parents t <= MAX_TREE_DEPTH)%nat ->
  frontier (fns t) (S i) (drop i (parents t)) l -> 0 <= ret -> ret + len l < 2 ^ 64 -> size_loop t n i ret = Some (ret + len l).
Proof.
  intros Hn So Hm. revert i ret l Hn. induction n as [|n IH]; intros i ret l Hn F Hr Hl; cbn [size_loop].
  - assert (l = []) as ->; [|unfold len; cbn; f_equal; lia].
    eapply frontier_all_none; [exact F|]. intros j h E. rewrite lookup_drop in E. apply (so_bound _ _ So) in E. lia.
  - destruct (lookup_lt_is_Some_2 (parents t) i) as [p E]; [rewrite (so_slots _ _ So); lia|]. unfold parent_at. rewrite E.
    rewrite (drop_S _ _ _ E) in F. destruct p as [h|]; [|by apply IH; [lia|apply frontier_tail in F|..]].
    apply frontier_some_inv in F as (l3 & l4 & -> & F & L4 & _). unfold len in *. rewrite length_app in *.
    assert (1 << Z.of_nat (S i) = Z.of_nat (length l4)) as ->.
    { rewrite L4, Z.shiftl_1_l, Nat2Z.inj_pow. done. }
    rewrite wrap_id by (unfold in_u; lia). rewrite (IH (S i) _ l3) by (done || lia). f_equal. lia.
Qed.

Lemma pow_depth_bound d : (d <= MAX_TREE_DEPTH)%nat -> Z.of_nat (2 ^ d) <= 2 ^ 32.
Proof.
  intros Hd. rewrite Nat2Z.inj_pow. change (Z.of_nat 2) with 2. apply Z.pow_le_mono_r; [lia|].
  change 32 with (Z.of_nat MAX_TREE_DEPTH). lia.
Qed.

Lemma size_spec t l : tree_repr t l -> incremental_tree_size t = Some (len l).
Proof.
  intros R. pose proof (repr_num_parents t l R) as Hn. destruct R as [Hd So Hf (l1 & l2 & -> & F & Lv) _]. unfold incremental_tree_size.
  pose proof (pow_depth_bound (depth t) ltac:(lia)).
  assert (flag (left t) + flag (right t) = len l2) as ->.
  { unfold leaves_ok in Lv. destruct (left t), (right t); [subst..|done|destruct Lv; subst]; done. }
  rewrite length_app in Hf. rewrite (size_loop_spec t (num_parents t) 0 (len l2) l1); unfold len; rewrite ?length_app; [f_equal; lia|done|done|lia|done|lia..].
Qed.

Lemma all_parents_spec t n i : (i + n <= length (parents t))%nat ->
  exists b, all_parents t n i = Some b /\ (b = true <-> forall j, (i <= j < i + n)%nat -> exists h, parents t !! j = Some (Some h)).
Proof.
  revert i. induction n as [|n IH]; intros i Hn; cbn [all_parents].
  { exists true. split; [done|]. split; [lia|done]. }
  destruct (lookup_lt_is_Some_2 (parents t) i ltac:(lia)) as [p E]. unfold parent_at. rewrite E. destruct p as [h|].
  - destruct (IH (S i) ltac:(lia)) as (b & -> & Hb). exists b. split; [done|]. rewrite Hb. split; intros A j Hj.
    + destruct (decide (j = i)) as [->|]; [by eexists|]. apply A. lia.
    + apply A. lia.
  - exists false. split; [done|]. split; [done|]. intros A. destruct (A i ltac:(lia)) as [h E']. congruence.
Qed.

Lemma is_complete_spec t l : tree_repr t l -> incremental_tree_is_complete t = Some (bool_decide (length l = 2 ^ depth t)%nat).
Proof.
  intros R. pose proof (repr_num_parents t l R) as Hn. destruct R as [Hd So Hf (l1 & l2 & -> & F & Lv) _]. unfold incremental_tree_is_complete.
  destruct (frontier_length_le _ _ _ _ (depth t - 1) F) as [Le Eq].
  { intros j h E. apply (so_bound _ _ So) in E. lia. }
  replace (1 + (depth t - 1))%nat with (depth t) in * by lia. change (2 ^ 1)%nat with 2%nat in *.
  assert ((length l2 <= 1)%nat -> Some false = Some (bool_decide (length (l1 ++ l2) = 2 ^ depth t)%nat)) as Short.
  { intros L2. rewrite bool_decide_false; [done|]. rewrite length_app. lia. }
  unfold leaves_ok in Lv. destruct (left t) as [a|], (right t) as [b|]; [subst l2|apply Short; by subst..|destruct Lv; subst; apply Short; cbn; lia].
  assert (length (l1 ++ [a; b]) = 2 ^ depth t <-> (length l1 + 2 = 2 ^ depth t))%nat as Ew by (rewrite length_app; cbn; lia).
  rewrite wrap_id by (unfold in_u; pose proof (proj2 Hd) as Hd2; change (depth t <= 32)%nat in Hd2; lia).
  destruct (Z.eqb_spec (Z.of_nat (num_parents t)) (Z.of_nat (depth t) - 1)) as [En|En]; cbn [negb].
  - destruct (all_parents_spec t (num_parents t) 0) as (r & -> & Hr); [rewrite (so_slots _ _ So); lia|]. f_equal.
    apply eq_true_iff_eq. rewrite bool_decide_eq_true, Hr, Ew, Eq. split; intros A j Hj; apply A; lia.
  - rewrite bool_decide_false; [done|]. rewrite Ew, Eq. intros A.
    destruct (A (depth t - 2)%nat ltac:(lia)) as [h E]. apply (so_bound _ _ So) in E. lia.
Qed.

(** *** The wire format *)

Definition optional_enc (o : option uint256) : list Z := match o with Some h => 1 :: h | None => [0] end.
Definition optional_arr (o : option uint256) : Prop := match o with Some h => arr 32 h | None => True end.

Lemma writes_optional `{Allocator} o : optional_arr o -> writes (write_optional o) (optional_enc o).
Proof.
  intros Ho. unfold write_optional. destruct o as [h|]; cbn [flag optional_enc].
  - apply (writes_seq _ _ [1] h); [by apply writes_u8|]. destruct Ho as [Hb _]. by apply stream_write_writes.
  - apply (writes_seq _ _ [0] []); [by apply writes_u8|apply writes_done].
Qed.

Lemma reads_optional o : optional_arr o -> reads read_optional (optional_enc o) o.
Proof.
  intros Ho. unfold read_optional. destruct o as [h|]; cbn [optional_enc].
  - apply (reads_bind _ _ [1] h 1); [by apply reads_u8|]. cbn [Z.eqb negb]. eapply reads_map; [|reflexivity].
    by apply (reads_arr 32).
  - apply (reads_bind _ _ [0] [] 0); [by apply reads_u8|]. apply reads_ret.
Qed.

Definition tree_enc (t : incremental_merkle_tree) : list Z :=
  optional_enc (left t) ++ optional_enc (right t) ++ compact_size_enc (Z.of_nat (num_parents t)) ++
  concat (map optional_enc (take (num_parents t) (parents t))).

(** A tree as it is read: into one of depth [d] with functions [f], no root cached. *)
Record tree_valid (d : nat) (f : tree_fns) (t : incremental_merkle_tree) : Prop := {
  tv_depth : depth t = d;
  tv_fns : fns t = f;
  tv_memo : memo t = None;
  tv_wf : wfcheck t = true;
  tv_max : (d <= MAX_TREE_DEPTH)%nat;
  tv_slots : slots_ok (parents t) (num_parents t);
  tv_hashes : optional_arr (left t) /\ optional_arr (right t) /\ Forall optional_arr (parents t);
}.

Lemma wfcheck_depth t : wfcheck t = true -> (num_parents t < depth t)%nat.
Proof. unfold wfcheck. case_bool_decide; [done|lia]. Qed.

Lemma slots_split ps n : slots_ok ps n -> (n <= MAX_TREE_DEPTH)%nat -> take n ps ++ replicate (MAX_TREE_DEPTH - n) None = ps.
Proof.
  intros So Hn. rewrite <- (take_drop n ps) at 2. f_equal. apply replicate_as_Forall_2; [by rewrite length_drop, (so_slots _ _ So)|].
  apply Forall_lookup. intros i x E. rewrite lookup_drop in E. destruct x as [h|]; [|done].
  apply (so_bound _ _ So) in E. lia.
Qed.

#[export] Program Instance tree_codec `{Allocator} (t0 : incremental_merkle_tree) :
  Codec (tree_valid (depth t0) (fns t0)) incremental_tree_serialize (incremental_tree_deserialize t0) := { codec_enc := tree_enc }.
Next Obligation.
  intros ? t0 t [Ed Ef Em Wf Hm So (Hl & Hr & Hp)]. apply wfcheck_depth in Wf.
  unfold incremental_tree_serialize, tree_enc. change (depth t0 <= 32)%nat in Hm.
  apply writes_seq; [by apply writes_optional|]. apply writes_seq; [by apply writes_optional|].
  apply writes_seq; [apply writes_compact_size; unfold in_u; lia|]. apply writes_all.
  apply Forall_take. eapply Forall_impl; [|exact Hp]. intros o. apply writes_optional.
Qed.
Next Obligation.
  intros ? t0 t [Ed Ef Em Wf Hm So (Hl & Hr & Hp)]. pose proof (wfcheck_depth t Wf) as Hn.
  unfold incremental_tree_deserialize, tree_enc. change (depth t0 <= 32)%nat in Hm.
  eapply reads_bind; [by apply reads_optional|]. eapply reads_bind; [by apply reads_optional|].
  eapply reads_bind; [apply reads_compact_size; unfold in_u; lia|].
  apply reads_fail_if; [apply Z.ltb_ge; change MAX_TREE_DEPTH with 32%nat; lia|]. rewrite Nat2Z.id.
  rewrite <- (app_nil_r (concat _)). eapply reads_bind.
  { replace (num_parents t) with (length (take (num_parents t) (parents t))) at 1; [apply reads_elems|].
    - apply Forall_take. eapply Forall_impl; [|exact Hp]. intros o. apply reads_optional.
    - rewrite length_take, (so_slots _ _ So). change MAX_TREE_DEPTH with 32%nat. lia. }
  rewrite length_take, (so_slots _ _ So), Nat.min_l by (change MAX_TREE_DEPTH with 32%nat; lia).
  rewrite slots_split by (done || (change MAX_TREE_DEPTH with 32%nat; lia)).
  match goal with |- context [wfcheck ?x] => replace x with t end; [rewrite Wf; apply reads_ret|].
  destruct t as [d l r ps n f m]. cbn in *. by subst.
Qed.

(** A tree with leaves passes the checks, whatever root it has cached. *)
Lemma repr_valid t l : tree_repr t l -> optional_arr (left t) /\ optional_arr (right t) /\ Forall optional_arr (parents t) ->
  tree_valid (depth t) (fns t) (set_memo t None).
Proof.
  intros R Ha. pose proof (repr_num_parents t l R) as Hn. destruct R as [Hd So Hf (l1 & l2 & -> & F & Lv) Hm].
  split; cbn [depth fns memo set_memo left right parents num_parents]; try done; [|lia].
  unfold wfcheck. cbn [depth fns memo set_memo left right parents num_parents parent_at]. rewrite bool_decide_false by lia.
  assert (forall h, parents t !! (num_parents t - 1)%nat = Some (Some h) -> l1 <> []) as Ne.
  { intros h E. pose proof (frontier_length_ge _ _ _ _ _ _ F E). intros ->. pose proof (pow2_nonzero (1 + (num_parents t - 1))). cbn [length] in *. lia. }
  destruct (so_top _ _ So) as [->|[h E]].
  - cbn [bool_decide andb]. unfold leaves_ok in Lv. by destruct (left t), (right t).
  - unfold parent_at. cbn [parents set_memo]. rewrite E. cbn [default flag Z.eqb]. rewrite andb_false_r.
    unfold leaves_ok in Lv. specialize (Ne h E). destruct (left t), (right t); try done. by destruct Lv.
Qed.

Lemma valid_repr t l : tree_repr t l -> tree_repr (set_memo t None) l.
Proof. intros [? ? ? ? ?]. split; try done. Qed.

(** *** Runs *)

Lemma root_of_repr t l : tree_repr t l -> exists t', incremental_tree_root t = Some (t', subtree (fns t) (depth t) l) /\ tree_repr t' l /\ same_shape t t'.
Proof. intros R. destruct (root_spec t l R) as (t' & E & R' & _ & Et). exists t'. split_and!; [done|done|rewrite Et; done..]. Qed.

(** A client appends leaves and asks for the root in any order. *)
Inductive tree_op := Append (obj : uint256) | Root.
Definition tree_step (t : incremental_merkle_tree) (op : tree_op) : option incremental_merkle_tree :=
  match op with
  | Append obj => incremental_tree_append t obj
  | Root => let? r := incremental_tree_root t in Some (fst r)
  end.
Fixpoint tree_run (t : incremental_merkle_tree) (ops : list tree_op) : option incremental_merkle_tree :=
  match ops with [] => Some t | op :: ops => let? t := tree_step t op in tree_run t ops end.
Definition leaves_of (ops : list tree_op) : list uint256 :=
  concat (map (fun op => match op with Append obj => [obj] | Root => [] end) ops).

Lemma tree_run_spec ops t l : tree_repr t l -> (length (l ++ leaves_of ops) <= 2 ^ depth t)%nat ->
  exists t', tree_run t ops = Some t' /\ tree_repr t' (l ++ leaves_of ops) /\ same_shape t t'.
Proof.
  revert t l. induction ops as [|op ops IH]; intros t l R Le; cbn [tree_run]; [exists t; by rewrite app_nil_r|].
  assert (exists t1 l1, tree_step t op = Some t1 /\ tree_repr t1 l1 /\ same_shape t t1 /\ l ++ leaves_of (op :: ops) = l1 ++ leaves_of ops) as
    (t1 & l1 & -> & R1 & [Sd Sf] & El).
  { destruct op as [obj|]; cbn [tree_step].
    - change (leaves_of (Append obj :: ops)) with ([obj] ++ leaves_of ops) in *. rewrite !length_app in Le. cbn [length] in Le.
      destruct (append_spec t l obj R ltac:(lia)) as (t1 & -> & R1 & Sh). exists t1, (l ++ [obj]). by rewrite <- app_assoc.
    - destruct (root_of_repr t l R) as (t1 & -> & R1 & Sh). by exists t1, l. }
  rewrite El in *. destruct (IH t1 l1 R1) as (t' & E & R' & Sd' & Sf'); [by rewrite Sd|].
  exists t'. split_and!; [done|done|split; congruence].
Qed.

Lemma tree_enc_small d f t : tree_valid d f t -> len (tree_enc t) <= 2000.
Proof.
  intros [? ? _ _ Hm So (Hl & Hr & Hp)]. assert (forall o, optional_arr o -> len (optional_enc o) <= 33) as Ho.
  { intros [h|]; [|done]. intros [_ E]. unfold len in *. cbn. lia. }
  unfold tree_enc. unfold len in *. rewrite !length_app. pose proof (Ho _ Hl). pose proof (Ho _ Hr).
  pose proof (compact_size_enc_length (Z.of_nat (num_parents t))) as Ec.
  assert (compact_size_sizeof (Z.of_nat (num_parents t)) <= 9) by (unfold compact_size_sizeof; repeat case_match; lia).
  assert (forall ps, Forall optional_arr ps -> Z.of_nat (length (concat (map optional_enc ps))) <= 33 * Z.of_nat (length ps)) as Hc.
  { induction 1 as [|o ps Hx _ IH]; [done|]. cbn [map concat length]. rewrite length_app. specialize (Ho _ Hx). lia. }
  specialize (Hc (take (num_parents t) (parents t)) ltac:(by apply Forall_take)). rewrite length_take, (so_slots _ _ So) in Hc.
  change MAX_TREE_DEPTH with 32%nat in Hc. lia.
Qed.

Lemma tree_enc_length d f t : tree_valid d f t -> len (tree_enc t) <= 16777216.
Proof. intros V. pose proof (tree_enc_small d f t V). lia. Qed.

(** *** Hash widths *)

Definition fns_arr (f : tree_fns) : Prop := forall a b k, arr 32 a -> arr 32 b -> arr 32 (combine f a b k).

Lemma sha256_fns_arr : fns_arr SHA256_COMPRESS.
Proof.
  intros a b k _ _. cbn [combine]. unfold sha256_compress_combine, sha256_finalize_no_padding. cbn [Z.eqb negb andb default]. split.
  - unfold id, emit_be. generalize (seq 0 8). intros q. induction q as [|i q IH]; [constructor|]. cbn [map concat].
    apply digits_app; [|exact IH]. rewrite write_u32_be_bytes. apply be_bytes_bytes.
  - unfold len, id. by rewrite emit_be_length.
Qed.

Lemma uncommitted_arr f : arr 32 (uncommitted f).
Proof. destruct f; (split; [apply bytes_check; reflexivity|reflexivity]). Qed.

Lemma subtree_arr f d l : fns_arr f -> Forall (arr 32) l -> arr 32 (subtree f d l).
Proof.
  intros Hf. revert l. induction d as [|d IH]; intros l Hl; cbn [subtree].
  - destruct Hl; [apply uncommitted_arr|done].
  - apply Hf; apply IH; [by apply Forall_take|by apply Forall_drop].
Qed.

Lemma frontier_arr f d ps l : fns_arr f -> frontier f d ps l -> Forall (arr 32) l -> Forall optional_arr ps.
Proof.
  intros Hf. induction 1 as [|d ps l _ IH|d ps l l2 _ IH _]; intros Hl; [constructor|constructor; [done|by apply IH]|].
  apply Forall_app in Hl as [Hl H2]. constructor; [by apply subtree_arr|by apply IH].
Qed.

Lemma repr_arr t l : fns_arr (fns t) -> tree_repr t l -> Forall (arr 32) l ->
  optional_arr (left t) /\ optional_arr (right t) /\ Forall optional_arr (parents t).
Proof.
  intros Hf [_ _ _ (l1 & l2 & -> & F & Lv) _] Hl. apply Forall_app in Hl as [H1 H2].
  pose proof (frontier_arr _ _ _ _ Hf F H1). unfold leaves_ok in Lv.
  destruct (left t), (right t); [subst l2..|done|]; cbn [optional_arr]; [| |done].
  - inversion H2 as [|? ? Ha H2']. by inversion H2'.
  - by inversion H2.
Qed.

End Frontier.

(** C19: the incremental tree is the Merkle tree of everything appended. Start from an
    empty tree of any depth up to 32 with either pair of functions, append at most
    [2 ^ depth] leaves and ask for roots in between, in any order. No operation
    leaves its arrays; the root is that of the full binary tree of that depth over
    the leaves, missing ones uncommitted (so the cached root is never stale, and
    asking again gives the same); the empty root is that of no leaves; the size is
    the number of leaves and the tree is complete exactly when it is full. If the
    hash function returns 32 bytes, the tree written to a stream reads back into
    any tree of that depth, with no root cached, whatever follows. *)
Theorem incremental_tree_spec `{HostOrder} `{Pedersen} `{Allocator} (d : nat) (f : tree_fns) (ops : list tree_op) :
  (1 <= d <= MAX_TREE_DEPTH)%nat -> (length (leaves_of ops) <= 2 ^ d)%nat ->
  exists t0 t, tree_init d f = Some t0 /\ tree_run t0 ops = Some t /\ depth t = d /\ fns t = f /\
  (exists t', incremental_tree_root t = Some (t', subtree f d (leaves_of ops)) /\
   incremental_tree_root t' = Some (t', subtree f d (leaves_of ops))) /\
  incremental_tree_empty_root t = Some (subtree f d []) /\
  incremental_tree_size t = Some (len (leaves_of ops)) /\
  incremental_tree_is_complete t = Some (bool_decide (length (leaves_of ops) = 2 ^ d)%nat) /\
  (fns_arr f -> Forall (arr 32) (leaves_of ops) -> forall t1 s s' rest, depth t1 = d -> fns t1 = f ->
   stream_wf s -> size s + 16777216 < 2 ^ 64 -> bytes rest -> len (data s' ++ rest) < 2 ^ 64 ->
   incremental_tree_serialize t s = (s', true) ->
   exists enc, data s' = data s ++ enc /\
   incremental_tree_deserialize t1 (stream_init_from_data (enc ++ rest)) =
     (advance (stream_init_from_data (enc ++ rest)) (len enc), Some (set_memo t None))).
Proof.
  intros Hd Hl. destruct (tree_init_spec d f Hd) as (t0 & E0 & R0 & D0 & F0).
  destruct (tree_run_spec ops t0 [] R0) as (t & E & R & Sd & Sf); [by rewrite D0|]. rewrite D0 in Sd. rewrite F0 in Sf.
  exists t0, t. split_and!; [done..| | | | |].
  - destruct (root_spec t _ R) as (t' & Er & R' & Em & _). rewrite Sf, Sd in *. exists t'. split; [done|].
    unfold incremental_tree_root. by rewrite Em.
  - unfold incremental_tree_empty_root. rewrite empty_root_spec by (rewrite Sd; lia). by rewrite Sf, Sd.
  - by apply size_spec.
  - rewrite (is_complete_spec t _ R). by rewrite Sd.
  - intros Hf Ha t1 s s' rest E1 F1 Hs Hsz Hrest Hfit Hw.
    pose proof (repr_valid t _ R (repr_arr t _ ltac:(by rewrite Sf) R Ha)) as V. rewrite Sd, Sf, <- E1, <- F1 in V.
    exact (codec_roundtrips (H0 := tree_codec t1) (fun v Hv => tree_enc_length _ _ v Hv) _ s s' rest V Hs Hsz Hrest Hfit Hw).
Qed.

Section TreeWitness.
#[local] Instance tree_host : HostOrder := false.
#[local] Instance tree_alloc : Allocator := fun _ => true.
(** Some function of two hashes and a level with 32 bytes as its result. *)
#[local] Instance mixing : Pedersen := fun k a b => zip_with (fun x y => (x + 3 * y + Z.of_nat k + 1) mod 256) a b.

Definition leaf (x : Z) : uint256 := x :: replicate 31 0.
Definition sample_ops : list tree_op := [Append (leaf 1); Root; Append (leaf 2); Append (leaf 3); Root].

Lemma incremental_tree_spec_witness :
  exists t0 t t', tree_init 2 PEDERSEN = Some t0 /\ tree_run t0 sample_ops = Some t /\
  incremental_tree_root t = Some (t', pedersen_combine (pedersen_combine (leaf 1) (leaf 2) 0) (pedersen_combine (leaf 3) sapling_uncommitted 0) 1) /\
  incremental_tree_size t = Some 3 /\ incremental_tree_is_complete t = Some false.
Proof.
  destruct (incremental_tree_spec 2 PEDERSEN sample_ops) as (t0 & t & E0 & E & _ & _ & (t' & Er & _) & _ & Es & Ec & _);
    [unfold MAX_TREE_DEPTH; lia|cbn; lia|].
  exists t0, t, t'. split_and!; [exact E0|exact E|exact Er|exact Es|exact Ec].
Defined.
End TreeWitness.
