(* ===== verification/IncrementalWitness.v ===== *)
(** * Witnesses of the note-commitment trees

    Model of the second half of [core/modules/sapling/src/incremental_merkle_tree.c]:
    a witness freezes a tree and follows the leaves that come after it, so that the
    authentication path of the frozen tree's last leaf stays current. *)

From stdpp Require Import base tactics list numbers option.
From Stdlib Require Import ZArith Lia.
From S2P Require Import Prelude Serialize ByteOrder Hash Transaction IncrementalTree.
#[local] Open Scope Z_scope.
#[local] Open Scope list_scope.
#[local] Open Scope cint_scope.
#[local] Open Scope zres_scope.
#[local] Open Scope stream_scope.

(** [filled] has the [num_filled] roots in use. *)
Record incremental_witness := mk_witness {
  w_tree : incremental_merkle_tree;
  filled : list uint256;
  cursor : option incremental_merkle_tree;
  cursor_depth : nat;
}.

Definition with_cursor (w : incremental_witness) (c : option incremental_merkle_tree) : incremental_witness :=
  mk_witness (w_tree w) (filled w) c (cursor_depth w).
Definition with_depth (t : incremental_merkle_tree) (d : nat) : incremental_merkle_tree :=
  mk_tree d (left t) (right t) (parents t) (num_parents t) (fns t) (memo t).

(** The level of the [skip]-th missing right sibling. *)
Fixpoint next_loop (t : incremental_merkle_tree) (n d s : nat) : option nat :=
  match n with
  | O => Some (d + 1 + s)%nat
  | S n =>
      let? p := parent_at t d in
      match p, s with
      | None, O => Some (d + 1)%nat
      | None, S s => next_loop t n (S d) s
      | Some _, _ => next_loop t n (S d) s
      end
  end.
Definition next_depth (t : incremental_merkle_tree) (skip : nat) : option nat :=
  match right t, skip with
  | None, O => Some 0%nat
  | None, S s => next_loop t (num_parents t) 0 s
  | Some _, _ => next_loop t (num_parents t) 0 skip
  end.

Section Witness.
Context `{HostOrder} `{Pedersen}.

Definition incremental_witness_init (tree : incremental_merkle_tree) : option incremental_witness :=
  let? d := next_depth tree 0 in Some (mk_witness tree [] None d).

Definition push_filled (l : list uint256) (h : uint256) : list uint256 :=
  if bool_decide (length l < MAX_WITNESS_FILLS)%nat then l ++ [h] else l.

Definition incremental_witness_append (w : incremental_witness) (obj : uint256) : option incremental_witness :=
  match cursor w with
  | Some c =>
      let? c := incremental_tree_append c obj in
      let? complete := incremental_tree_is_complete c in
      if complete then
        let? r := incremental_tree_root c in
        let fl := push_filled (filled w) (snd r) in
        let? d := next_depth (w_tree w) (length fl) in
        Some (mk_witness (w_tree w) fl None d)
      else Some (mk_witness (w_tree w) (filled w) (Some c) (cursor_depth w))
  | None =>
      let? d := next_depth (w_tree w) (length (filled w)) in
      if Nat.eqb d 0 then
        let fl := push_filled (filled w) obj in
        let? d := next_depth (w_tree w) (length fl) in
        Some (mk_witness (w_tree w) fl None d)
      else
        let? c := tree_init d (fns (w_tree w)) in
        let? c := incremental_tree_append c obj in
        Some (mk_witness (w_tree w) (filled w) (Some c) d)
  end.

(** ** The root *)

Definition witness_root_depth0_sides (w : incremental_witness) : uint256 * uint256 :=
  let t := w_tree w in
  (default (uncommitted (fns t)) (left t),
   match right t with
   | Some r => r
   | None => if negb (bool_decide (filled w = [])) || negb (bool_decide (cursor w = None))
             then default (uncommitted (fns t)) (head (filled w)) else uncommitted (fns t)
   end).

(** The root of the cursor is cached in the cursor; the index moves past what was used. *)
Definition witness_root_take_filler (w : incremental_witness) (filled_idx d : nat) : option (incremental_witness * nat * uint256) :=
  match filled w !! filled_idx with
  | Some h => Some (w, S filled_idx, h)
  | None =>
      match cursor w with
      | Some c =>
          if Nat.eqb filled_idx (length (filled w)) then
            let? r := incremental_tree_root c in Some (with_cursor w (Some (fst r)), S filled_idx, snd r)
          else let? h := empty_root_at_depth (w_tree w) d in Some (w, filled_idx, h)
      | None => let? h := empty_root_at_depth (w_tree w) d in Some (w, filled_idx, h)
      end
  end.

(** Whether the tree has a left sibling at index [i]. *)
Definition parent_if (t : incremental_merkle_tree) (i : nat) : option (option uint256) :=
  if bool_decide (i < num_parents t)%nat then parent_at t i else Some None.

(** A turn is taken while a parent or a level is left. *)
Fixpoint witness_root_loop (fuel i d fi : nat) (w : incremental_witness) (root : uint256) : option (incremental_witness * uint256) :=
  match fuel with
  | O => None
  | S fuel =>
      let t := w_tree w in
      if bool_decide (i < num_parents t)%nat || bool_decide (d < depth t)%nat then
        let? p := parent_if t i in
        let? r := (match p with
                   | Some h => Some (w, fi, combine (fns t) h root d)
                   | None => let? q := witness_root_take_filler w fi d in
                             let '(w, fi, h) := q in Some (w, fi, combine (fns t) root h d)
                   end) in
        let '(w, fi, root) := r in
        if bool_decide (depth t <= S d)%nat then Some (w, root) else witness_root_loop fuel (S i) (S d) fi w root
      else Some (w, root)
  end.

Definition filled_start (w : incremental_witness) : nat :=
  match right (w_tree w) with Some _ => 0 | None => if bool_decide (0 < length (filled w))%nat then 1 else 0 end.

Definition incremental_witness_root (w : incremental_witness) : option (incremental_witness * uint256) :=
  let t := w_tree w in
  let '(l, r) := witness_root_depth0_sides w in
  witness_root_loop (S (depth t)) 0 1 (filled_start w) w (combine (fns t) l r 0).

(** ** The authentication path *)

(** The levels above the first: siblings with their position bits. The loop fills every
    level, so the padding after it in C has nothing to do. *)
Fixpoint path_loop (n i fi : nat) (w : incremental_witness) : option (incremental_witness * list (uint256 * Z)) :=
  match n with
  | O => Some (w, [])
  | S n =>
      let? p := parent_if (w_tree w) i in
      let? r := (match p with
                 | Some h => Some (w, fi, (h, 1))
                 | None => let? q := witness_root_take_filler w fi (S i) in
                           let '(w, fi, h) := q in Some (w, fi, (h, 0))
                 end) in
      let '(w, fi, e) := r in
      let? q := path_loop n (S i) fi w in
      Some (fst q, e :: snd q)
  end.

(** The sibling of the last leaf, its bit, and the index of the next root in [filled]. *)
Definition path_base (w : incremental_witness) : option (uint256 * Z * nat) :=
  let t := w_tree w in
  match right t with
  | Some _ => let? l := left t in Some (l, 1, 0%nat)
  | None =>
      match filled w with
      | h :: _ => Some (h, 0, 1%nat)
      | [] => Some (uncommitted (fns t), 0, 0%nat)
      end
  end.

(** The path as the levels written, for a tree of positive depth. *)
Definition auth_path (w : incremental_witness) : option (incremental_witness * list (uint256 * Z)) :=
  let? b := path_base w in
  let '(h, bit, fi) := b in
  let? r := path_loop (depth (w_tree w) - 1) 0 fi w in
  Some (fst r, (h, bit) :: snd r).

(** [None] in the result: the tree has no leaf. *)
Definition incremental_witness_merkle_path (w : incremental_witness) : option (incremental_witness * option (list Z)) :=
  let t := w_tree w in
  let? n := incremental_tree_size t in
  if n =? 0 then Some (w, None)
  else
    let? r := auth_path w in
    Some (fst r, Some (u8 (Z.of_nat (depth t)) :: concat (map (fun e => fst e ++ [snd e]) (take (depth t) (snd r))))).

(** ** Wire format *)

Definition write_cursor `{Allocator} (o : option incremental_merkle_tree) : writer :=
  match o with
  | Some c => stream_write_u8 1 &&w incremental_tree_serialize c
  | None => stream_write_u8 0
  end.

Definition incremental_witness_serialize `{Allocator} (w : incremental_witness) : writer :=
  incremental_tree_serialize (w_tree w) &&w
  stream_write_compact_size (len (filled w)) &&w
  write_all stream_write (filled w) &&w
  write_cursor (cursor w).

(** A blank tree of the caller's depth and functions is read into. A look-up outside
    the slots cannot happen here and counts as a failure. *)
Definition blank_tree (d : nat) (f : tree_fns) : incremental_merkle_tree := mk_tree d None None (replicate MAX_TREE_DEPTH None) 0 f None.

Definition incremental_witness_deserialize (d : nat) (f : tree_fns) : reader incremental_witness :=
  rfail_if (bool_decide (d = 0)%nat || bool_decide (MAX_TREE_DEPTH < d)%nat) (
  read t <- incremental_tree_deserialize (blank_tree d f);
  read num <- stream_read_compact_size;
  rfail_if (Z.of_nat MAX_WITNESS_FILLS <? num) (
  read fl <- read_elems (Z.to_nat num) (stream_read 32);
  read disc <- stream_read_u8;
  read c <- (if negb (disc =? 0) then read c <- incremental_tree_deserialize (blank_tree d f); rret (Some c) else rret None);
  match next_depth t (length fl) with
  | None => rfail
  | Some cd => rret (mk_witness t fl (option_map (fun c => tree_root_invalidate (with_depth c cd)) c) cd)
  end)).

End Witness.

(** ** The missing siblings *)

(** Their levels, from [d] up to [d + n - 1]. *)
Fixpoint gap_list (n d : nat) (ps : list (option uint256)) : list nat :=
  match n with
  | O => []
  | S n => match ps with Some _ :: ps => gap_list n (S d) ps | _ => d :: gap_list n (S d) (tail ps) end
  end.
Definition gaps (t : incremental_merkle_tree) : list nat :=
  match right t with Some _ => [] | None => [0%nat] end ++ gap_list (depth t - 1) 1 (parents t).
(** The leaves that fill them. *)
Fixpoint room (gs : list nat) : nat := match gs with [] => 0 | g :: gs => 2 ^ g + room gs end.

Lemma gap_list_none n d ps k g : (forall i h, ps !! i <> Some (Some h)) -> gap_list n d ps !! k = Some g -> g = (d + k)%nat.
Proof.
  revert d ps k. induction n as [|n IH]; intros d ps k N E; [by destruct k|]. cbn [gap_list] in E.
  assert (match ps with Some _ :: _ => False | _ => True end) as Hh by (destruct ps as [|[h|] ps]; [done|by destruct (N 0%nat h)|done]).
  assert (forall k, (d :: gap_list n (S d) (tail ps)) !! k = Some g -> g = (d + k)%nat) as Go.
  { intros [|k'] E'; cbn in E'; [injection E'; lia|]. apply IH in E'; [lia|]. intros i h. destruct ps as [|p ps]; [done|]. apply (N (S i)). }
  destruct ps as [|[h|] ps]; [by apply Go|done|by apply Go].
Qed.

Lemma gap_list_cons_none n d ps : ps !! 0%nat = Some None -> gap_list (S n) d ps = d :: gap_list n (S d) (drop 1 ps).
Proof. by destruct ps as [|[h|] ps]. Qed.
Lemma gap_list_cons_some n d ps h : ps !! 0%nat = Some (Some h) -> gap_list (S n) d ps = gap_list n (S d) (drop 1 ps).
Proof. by destruct ps as [|[h'|] ps]. Qed.
Lemma gap_list_end n d : gap_list (S n) d [] = d :: gap_list n (S d) [].
Proof. done. Qed.

Lemma gap_list_length n d ps : (length (gap_list n d ps) <= n)%nat.
Proof.
  revert d ps. induction n as [|n IH]; intros d ps; [done|]. cbn [gap_list].
  destruct ps as [|[h|] ps]; cbn [length]; [pose proof (IH (S d) (tail [])); lia|pose proof (IH (S d) ps); lia|pose proof (IH (S d) (tail (None :: ps))); lia].
Qed.

Section Spec.
Context `{HostOrder} `{Pedersen}.

(** The gaps and the frontier share out the leaves of a full tree. *)
Lemma gap_list_room f n d ps l : frontier f d ps l -> (forall i h, ps !! i = Some (Some h) -> (i < n)%nat) ->
  (length l + room (gap_list n d ps) + 2 ^ d = 2 ^ (d + n))%nat.
Proof.
  revert d ps l. induction n as [|n IH]; intros d ps l F B.
  { rewrite (frontier_all_none _ _ _ _ F) by (intros i h E; specialize (B _ _ E); lia). cbn. by rewrite Nat.add_0_r. }
  rewrite <- Nat.add_succ_comm. cbn [gap_list]. pose proof (frontier_tail _ _ _ _ F) as Ft.
  assert (forall ps', frontier f (S d) ps' l -> (forall i h, ps' !! i = Some (Some h) -> (i < n)%nat) ->
    (length l + room (d :: gap_list n (S d) ps') + 2 ^ d = 2 ^ (S d + n))%nat) as Go.
  { intros ps' F' B'. specialize (IH _ _ _ F' B'). cbn [room]. change (2 ^ S d)%nat with (2 ^ d + (2 ^ d + 0))%nat in IH. lia. }
  destruct ps as [|[h|] ps]; [by apply Go| |apply Go; [done|intros i h E; specialize (B (S i) h E); lia]].
  apply frontier_some_inv in F as (l1 & l2 & -> & F & L & _). specialize (IH _ _ _ F ltac:(intros i h' E; specialize (B (S i) h' E); lia)).
  rewrite length_app, L. change (2 ^ S d)%nat with (2 ^ d + (2 ^ d + 0))%nat in IH. lia.
Qed.

Lemma next_loop_spec t n d s : (d + n = num_parents t)%nat -> (num_parents t < depth t)%nat -> slots_ok (parents t) (num_parents t) ->
  (depth t <= MAX_TREE_DEPTH)%nat ->
  exists g, next_loop t n d s = Some g /\ forall g', gap_list (depth t - 1 - d) (S d) (drop d (parents t)) !! s = Some g' -> g' = g.
Proof.
  intros Hn Hd So Hm. revert d s Hn. induction n as [|n IH]; intros d s Hn; cbn [next_loop].
  - exists (d + 1 + s)%nat. split; [done|]. intros g' E. apply gap_list_none in E; [lia|].
    intros i h Ei. rewrite lookup_drop in Ei. apply (so_bound _ _ So) in Ei. lia.
  - destruct (lookup_lt_is_Some_2 (parents t) d) as [p E]; [rewrite (so_slots _ _ So); lia|]. unfold parent_at. rewrite E.
    rewrite (drop_S _ _ _ E). replace (depth t - 1 - d)%nat with (S (depth t - 1 - S d)) by lia.
    destruct (IH (S d) s ltac:(lia)) as (g & Eg & Hg).
    destruct p as [h|]; cbn [gap_list tail].
    + exists g. split; [done|exact Hg].
    + destruct s as [|s]; [exists (d + 1)%nat; split; [done|]; intros g' [= <-]; lia|].
      destruct (IH (S d) s ltac:(lia)) as (g2 & Eg2 & Hg2). exists g2. split; [done|exact Hg2].
Qed.

Lemma next_depth_spec t l k : tree_repr t l ->
  exists g, next_depth t k = Some g /\ forall g', gaps t !! k = Some g' -> g' = g.
Proof.
  intros R. pose proof (repr_num_parents t l R) as Hn. destruct R as [Hd So _ _ _].
  assert (forall s, exists g, next_loop t (num_parents t) 0 s = Some g /\ forall g', gap_list (depth t - 1) 1 (parents t) !! s = Some g' -> g' = g) as L.
  { intros s. destruct (next_loop_spec t (num_parents t) 0 s eq_refl Hn So ltac:(lia)) as (g & E & Hg). exists g. split; [done|].
    by rewrite Nat.sub_0_r, drop_0 in Hg. }
  unfold next_depth, gaps. destruct (right t); [apply L|]. destruct k as [|s]; [|apply L].
  exists 0%nat. split; [done|]. by intros g' [= <-].
Qed.

Lemma gaps_room t l : tree_repr t l -> (length l + room (gaps t) = 2 ^ depth t)%nat \/ l = [].
Proof.
  intros R. pose proof (repr_num_parents t l R) as Hn. destruct R as [Hd So _ (l1 & l2 & -> & F & Lv) _].
  pose proof (gap_list_room _ (depth t - 1) 1 _ _ F ltac:(intros i h E; apply (so_bound _ _ So) in E; lia)) as G.
  replace (1 + (depth t - 1))%nat with (depth t) in G by lia. change (2 ^ 1)%nat with 2%nat in G. unfold gaps, leaves_ok in *.
  destruct (left t), (right t); [subst l2..|done|destruct Lv as [-> ->]; by right]; left; rewrite length_app; cbn [app room length Nat.pow] in *; lia.
Qed.

(** The roots [fl] are those of consecutive runs of the leaves that fill the first gaps. *)
Inductive full (f : tree_fns) : list nat -> list uint256 -> list uint256 -> Prop :=
| full_nil gs : full f gs [] []
| full_cons g gs fl r1 r2 : length r1 = (2 ^ g)%nat -> full f gs fl r2 -> full f (g :: gs) (subtree f g r1 :: fl) (r1 ++ r2).

Lemma full_snoc f gs fl r g r2 : full f gs fl r -> gs !! length fl = Some g -> length r2 = (2 ^ g)%nat ->
  full f gs (fl ++ [subtree f g r2]) (r ++ r2).
Proof.
  intros Fu. revert g r2. induction Fu as [[|g0 gs]|g0 gs fl r1 r' L Fu IH]; intros g r2 E L2; cbn in E.
  - done.
  - injection E as ->. cbn [app]. rewrite <- (app_nil_r r2) at 2. constructor; [done|constructor].
  - cbn [app]. rewrite <- app_assoc. constructor; [done|by apply IH].
Qed.

Lemma full_room f gs fl r : full f gs fl r -> (length fl <= length gs /\ (length fl = length gs -> length r = room gs))%nat.
Proof.
  induction 1 as [gs|g gs fl r1 r L Fu [Le IH]]; cbn [length room].
  - split; [lia|]. by destruct gs.
  - split; [lia|]. intros E. rewrite length_app, IH by lia. lia.
Qed.

(** The cursor holds what has come of the next gap. *)
Definition cursor_ok (f : tree_fns) (c : option incremental_merkle_tree) (og : option nat) (r : list uint256) : Prop :=
  match c with
  | None => r = []
  | Some c => exists g, og = Some g /\ (1 <= g)%nat /\ depth c = g /\ fns c = f /\ tree_repr c r /\ (0 < length r < 2 ^ g)%nat
  end.

(** The witness of the last of the leaves [l], after the leaves [r]. *)
Record witness_repr (w : incremental_witness) (l r : list uint256) : Prop := {
  wr_tree : tree_repr (w_tree w) l;
  wr_nonempty : l <> [];
  wr_fit : (length (l ++ r) <= 2 ^ depth (w_tree w))%nat;
  wr_leaves : exists r1 r2, r = r1 ++ r2 /\ full (fns (w_tree w)) (gaps (w_tree w)) (filled w) r1 /\
    cursor_ok (fns (w_tree w)) (cursor w) (gaps (w_tree w) !! length (filled w)) r2;
  wr_depth : next_depth (w_tree w) (length (filled w)) = Some (cursor_depth w);
}.

Lemma gaps_bound t l : tree_repr t l -> (length (gaps t) <= depth t)%nat /\ forall k g, gaps t !! k = Some g -> (g < depth t)%nat.
Proof.
  intros R. destruct R as [Hd _ _ _ _]. unfold gaps. split.
  - rewrite length_app. pose proof (gap_list_length (depth t - 1) 1 (parents t)). destruct (right t); cbn [length]; lia.
  - assert (forall n d ps k g, gap_list n d ps !! k = Some g -> (g < d + n)%nat) as B.
    { clear. induction n as [|n IH]; intros d ps k g E; [by destruct k|]. rewrite <- Nat.add_succ_comm. cbn [gap_list] in E.
      assert (forall ps', (d :: gap_list n (S d) ps') !! k = Some g -> (g < S d + n)%nat) as Go.
      { intros ps' E'. destruct k as [|k]; [injection E'; lia|by apply IH in E']. }
      destruct ps as [|[h|] ps]; [by eapply Go|by apply IH in E|by eapply Go]. }
    intros k g E. destruct (right t); cbn [app] in E; [apply B in E; lia|].
    destruct k as [|k]; [injection E as <-; lia|]. apply B in E. lia.
Qed.

Lemma witness_init_spec t l : tree_repr t l -> l <> [] ->
  exists w, incremental_witness_init t = Some w /\ witness_repr w l [] /\ w_tree w = t.
Proof.
  intros R Ne. unfold incremental_witness_init. destruct (next_depth_spec t l 0 R) as (g & E & _). rewrite E.
  eexists. split; [reflexivity|]. split; [|done]. split; cbn [w_tree filled cursor cursor_depth length]; [done|done| |exists [], []; split_and!; [done|constructor|done]|exact E].
  rewrite app_nil_r. apply R.
Qed.

Lemma witness_append_spec w l r obj : witness_repr w l r -> (length (l ++ r) < 2 ^ depth (w_tree w))%nat ->
  exists w', incremental_witness_append w obj = Some w' /\ witness_repr w' l (r ++ [obj]) /\ w_tree w' = w_tree w.
Proof.
  intros [R Ne Fit (r1 & r2 & -> & Fu & Cu) Dep] Lt. set (t := w_tree w) in *. unfold incremental_witness_append. fold t.
  destruct (gaps_bound t l R) as [Gl Gb]. pose proof (proj2 (tr_depth _ _ R)) as Hm. change (depth t <= 32)%nat in Hm.
  assert (length (l ++ ((r1 ++ r2) ++ [obj])) <= 2 ^ depth t)%nat as Fit' by (rewrite !length_app in *; cbn [length]; lia).
  destruct (full_room _ _ _ _ Fu) as [Fl Fr].
  assert (forall r3, r2 ++ [obj] = r3 -> forall g, gaps t !! length (filled w) = Some g -> length r3 = (2 ^ g)%nat ->
    exists w', (let? d := next_depth t (length (push_filled (filled w) (subtree (fns t) g r3))) in
      Some (mk_witness t (push_filled (filled w) (subtree (fns t) g r3)) None d)) = Some w' /\ witness_repr w' l ((r1 ++ r2) ++ [obj]) /\ w_tree w' = t) as Push.
  { intros r3 E3 g Eg L3. unfold push_filled. rewrite bool_decide_true by (apply lookup_lt_Some in Eg; unfold MAX_WITNESS_FILLS; lia).
    destruct (next_depth_spec t l (length (filled w ++ [subtree (fns t) g r3])) R) as (g' & E' & _). rewrite E'.
    eexists. split; [reflexivity|]. split; [|done]. split; cbn [w_tree filled cursor cursor_depth]; [done|done|done| |exact E'].
    exists (r1 ++ r3), []. split; [by rewrite <- app_assoc, E3, app_nil_r|]. split; [by apply full_snoc|done]. }
  destruct (cursor w) as [c|]; cbn [cursor_ok] in Cu.
  - destruct Cu as (g & Eg & Hg & Dc & Fc & Rc & Lr). destruct (append_spec c r2 obj Rc ltac:(rewrite Dc; lia)) as (c' & E & Rc' & [Sd Sf]).
    rewrite E, (is_complete_spec c' _ Rc'). rewrite Sd, Dc. case_bool_decide as L.
    + destruct (root_spec c' _ Rc') as (c2 & Er & _). rewrite Er, Sf, Sd, Dc, Fc. cbn [fst snd]. by apply Push.
    + eexists. split; [reflexivity|]. split; [|done]. split; cbn [w_tree filled cursor cursor_depth]; [done|done|done| |exact Dep].
      exists r1, (r2 ++ [obj]). split; [by rewrite app_assoc|]. split; [done|]. exists g. split_and!; try done; try congruence.
      * rewrite length_app. cbn. lia.
      * pose proof (tr_fit _ _ Rc') as Ft. rewrite Sd, Dc in Ft. lia.
  - subst r2. cbn [app] in *. rewrite Dep. destruct (next_depth_spec t l (length (filled w)) R) as (g & E & Hg). rewrite Dep in E. injection E as Ec. rewrite Ec in *.
    assert (gaps t !! length (filled w) = Some g) as Eg.
    { destruct (lookup_lt_is_Some_2 (gaps t) (length (filled w))) as [g' E'].
      - destruct (decide (length (filled w) = length (gaps t))) as [El|]; [|lia]. specialize (Fr El).
        destruct (gaps_room t l R) as [Gr|]; [|done]. rewrite !length_app in Lt. cbn [length] in Lt. lia.
      - by rewrite E', (Hg g' E'). }
    destruct (Nat.eqb_spec g 0) as [->|Ng].
    + apply (Push [obj] eq_refl 0%nat Eg eq_refl).
    + specialize (Gb _ _ Eg). destruct (tree_init_spec g (fns t)) as (c0 & E0 & R0 & D0 & F0); [change MAX_TREE_DEPTH with 32%nat; lia|]. rewrite E0.
      assert (2 <= 2 ^ g)%nat as Hg2 by (change 2%nat with (2 ^ 1)%nat at 1; apply Nat.pow_le_mono_r; lia).
      destruct (append_spec c0 [] obj R0) as (c & E & Rc & [Sd Sf]); [rewrite D0; cbn; lia|]. rewrite E.
      eexists. split; [reflexivity|]. split; [|done]. split; cbn [w_tree filled cursor cursor_depth]; [done|done|done| |exact Dep].
      exists r1, [obj]. split; [by rewrite app_nil_r|]. split; [done|]. exists g. split_and!; try done; try congruence; cbn [length app]; lia.
Qed.

(** ** Climbing through a witness *)

(** The same witness but for the root cached in its cursor. *)
Definition cursor_le (c c' : option incremental_merkle_tree) : Prop :=
  match c, c' with
  | None, None => True
  | Some c, Some c' => same_shape c c' /\ forall r, tree_repr c r -> tree_repr c' r
  | _, _ => False
  end.
Definition witness_le (w w' : incremental_witness) : Prop := w' = with_cursor w (cursor w') /\ cursor_le (cursor w) (cursor w').

Lemma witness_le_refl w : witness_le w w.
Proof. split; [by destruct w|]. destruct (cursor w); [|done]. by split. Qed.

Lemma witness_le_trans w1 w2 w3 : witness_le w1 w2 -> witness_le w2 w3 -> witness_le w1 w3.
Proof.
  intros [E1 L1] [E2 L2]. split; [rewrite E2, E1; done|]. unfold cursor_le in *.
  destruct (cursor w1), (cursor w2), (cursor w3); try done. destruct L1 as [[] L1], L2 as [[] L2].
  split; [split; congruence|auto].
Qed.

Lemma witness_le_fields w w' : witness_le w w' -> w_tree w' = w_tree w /\ filled w' = filled w /\ cursor_depth w' = cursor_depth w.
Proof. intros [E _]. by rewrite E. Qed.

Lemma witness_le_repr w w' l r : witness_le w w' -> witness_repr w l r -> witness_repr w' l r.
Proof.
  intros Hle [R Ne Fit (r1 & r2 & -> & Fu & Cu) Dep]. destruct (witness_le_fields _ _ Hle) as (Et & Ef & Ed). destruct Hle as [_ Lc].
  split; rewrite ?Et, ?Ef, ?Ed; try done. exists r1, r2. split_and!; [done|done|]. unfold cursor_le, cursor_ok in *.
  destruct (cursor w) as [c|], (cursor w') as [c'|]; try done. destruct Cu as (g & ? & ? & ? & ? & Rc & ?), Lc as [[] Lc].
  exists g. split_and!; auto; try congruence; lia.
Qed.

Lemma root_le c r : tree_repr c r -> exists c', incremental_tree_root c = Some (c', subtree (fns c) (depth c) r) /\ cursor_le (Some c) (Some c').
Proof.
  intros R. destruct (root_spec c r R) as (c' & E & _ & _ & Es). exists c'. split; [done|]. split; [by rewrite Es|].
  intros r' R'. destruct (root_spec c r' R') as (c2 & E2 & R2 & _). congruence.
Qed.

(** From index [fi] of [filled] on, the witness supplies the gaps [gl] with the leaves [rest]. *)
Definition supplies (w : incremental_witness) (fi : nat) (gl : list nat) (rest : list uint256) : Prop :=
  let f := fns (w_tree w) in
  ((fi <= length (filled w))%nat /\ exists r1 r2, rest = r1 ++ r2 /\ full f gl (drop fi (filled w)) r1 /\
   cursor_ok f (cursor w) (gl !! (length (filled w) - fi)%nat) r2) \/
  (rest = [] /\ (length (filled w) <= fi)%nat /\ (fi = length (filled w) -> cursor w = None)).

Lemma take_filler_spec w fi g gl rest : supplies w fi (g :: gl) rest -> (g <= MAX_TREE_DEPTH)%nat ->
  exists w' fi', witness_root_take_filler w fi g = Some (w', fi', subtree (fns (w_tree w)) g (take (2 ^ g) rest)) /\
  witness_le w w' /\ supplies w' fi' gl (drop (2 ^ g) rest).
Proof.
  intros Su Hg. unfold witness_root_take_filler. set (f := fns (w_tree w)).
  assert (rest = [] -> (length (filled w) <= fi)%nat -> (fi = length (filled w) -> cursor w = None) ->
    exists w' fi', (let? h := empty_root_at_depth (w_tree w) g in Some (w, fi, h)) = Some (w', fi', subtree f g (take (2 ^ g) rest)) /\
    witness_le w w' /\ supplies w' fi' gl (drop (2 ^ g) rest)) as Empty.
  { intros -> Lf Hc. rewrite empty_root_spec by done. rewrite take_nil, drop_nil. exists w, fi. split_and!; [done|apply witness_le_refl|by right]. }
  destruct Su as [(Lf & r1 & r2 & -> & Fu & Cu)|(-> & Lf & Hc)].
  - destruct (filled w !! fi) as [h|] eqn:E.
    + rewrite (drop_S _ _ _ E) in Fu. inversion Fu as [|? ? ? r3 r4 L3 Fu']; subst. exists w, (S fi).
      rewrite <- app_assoc, <- L3, take_app_length, drop_app_length. split_and!; [done|apply witness_le_refl|]. left.
      pose proof (lookup_lt_Some _ _ _ E). split; [lia|]. exists r4, r2. split_and!; [done|done|].
      by replace (length (filled w) - fi)%nat with (S (length (filled w) - S fi)) in Cu by lia.
    + apply lookup_ge_None in E. assert (fi = length (filled w)) as -> by lia. rewrite drop_ge in Fu by done.
      inversion Fu; subst. rewrite Nat.sub_diag in Cu. cbn [app] in *. destruct (cursor w) as [c|] eqn:Ec; cbn [cursor_ok] in Cu.
      * rewrite Nat.eqb_refl. destruct Cu as (g' & [= <-] & Hg1 & Dc & Fc & Rc & Lr). destruct (root_le c r2 Rc) as (c' & -> & Le).
        rewrite Dc, Fc, take_ge, drop_ge by lia. cbn [fst snd]. eexists _, _. split; [reflexivity|]. split; [split; [done|cbn; by rewrite Ec]|].
        right. split_and!; [done|cbn; lia|cbn; lia].
      * apply Empty; [done|lia|done].
  - assert (filled w !! fi = None) as -> by (apply lookup_ge_None; lia). destruct (cursor w) as [c|] eqn:Ec; [|by apply Empty].
    destruct (Nat.eqb_spec fi (length (filled w))) as [E|]; [by specialize (Hc E)|by apply Empty].
Qed.

(** The path and the root climb the same levels, [n] of them from index [i] on. *)
Fixpoint fold_path (f : tree_fns) (d : nat) (node : uint256) (path : list (uint256 * Z)) : uint256 :=
  match path with
  | [] => node
  | (sibling, bit) :: path => fold_path f (S d) (if bit =? 0 then combine f node sibling d else combine f sibling node d) path
  end.
Fixpoint position (d : nat) (path : list (uint256 * Z)) : Z :=
  match path with [] => 0 | e :: path => snd e * 2 ^ Z.of_nat d + position (S d) path end.

Lemma parent_if_spec t i : slots_ok (parents t) (num_parents t) -> (i < MAX_TREE_DEPTH)%nat -> exists p, parent_if t i = Some p /\ parents t !! i = Some p.
Proof.
  intros So Hi. unfold parent_if. destruct (lookup_lt_is_Some_2 (parents t) i) as [p E]; [by rewrite (so_slots _ _ So)|].
  exists p. split; [|done]. case_bool_decide; [done|]. destruct p as [h|]; [|done]. by apply (so_bound _ _ So) in E.
Qed.

Lemma witness_root_loop_spec w n i fi root rest l : tree_repr (w_tree w) l -> (1 <= n)%nat -> (i + n = depth (w_tree w) - 1)%nat ->
  supplies w fi (gap_list n (S i) (drop i (parents (w_tree w)))) rest ->
  forall fuel, (n < fuel)%nat ->
  exists w', witness_root_loop fuel i (S i) fi w root =
    Some (w', climb (fns (w_tree w)) n (S i) (drop i (parents (w_tree w))) root rest) /\ witness_le w w'.
Proof.
  intros R. revert w i fi root rest R. induction n as [|n IH]; intros w i fi root rest R Hn Hi Su fuel Hf; [lia|]. destruct fuel as [|fuel]; [lia|].
  cbn [witness_root_loop]. pose proof (tr_depth _ _ R) as [Hd1 Hd2]. set (t := w_tree w) in *.
  rewrite (bool_decide_true (S i < depth t)%nat) by lia. rewrite orb_true_r.
  destruct (parent_if_spec t i (tr_slots _ _ R) ltac:(lia)) as (p & -> & E). rewrite (drop_S _ _ _ E) in Su |- *. cbn [climb].
  assert (forall w' fi' root', w_tree w' = t -> supplies w' fi' (gap_list n (S (S i)) (drop (S i) (parents t))) (match p with Some _ => rest | None => drop (2 ^ S i) rest end) ->
    exists w2, (if bool_decide (depth t <= S (S i))%nat then Some (w', root') else witness_root_loop fuel (S i) (S (S i)) fi' w' root') =
    Some (w2, climb (fns t) n (S (S i)) (drop (S i) (parents t)) root' (match p with Some _ => rest | None => drop (2 ^ S i) rest end)) /\ witness_le w' w2) as Next.
  { intros w' fi' root' Et Su'. case_bool_decide as B.
    - assert (n = 0%nat) as -> by lia. exists w'. split; [done|apply witness_le_refl].
    - rewrite <- Et in Su' |- *. apply IH; [by rewrite Et|lia|rewrite Et; lia|done|lia]. }
  destruct p as [h|]; cbn [gap_list tail] in *; cbn iota beta.
  - by apply Next.
  - destruct (take_filler_spec w fi (S i) _ rest Su ltac:(lia)) as (w' & fi' & -> & Le & Su'). cbn iota beta.
    destruct (witness_le_fields _ _ Le) as (Et & _). destruct (Next w' fi' (combine (fns t) root (subtree (fns t) (S i) (take (2 ^ S i) rest)) (S i)) Et Su') as (w2 & E2 & Le2).
    exists w2. split; [exact E2|]. by eapply witness_le_trans.
Qed.

Lemma path_loop_spec n w i fi rest l l1 : tree_repr (w_tree w) l -> (i + n = depth (w_tree w) - 1)%nat ->
  supplies w fi (gap_list n (S i) (drop i (parents (w_tree w)))) rest -> frontier (fns (w_tree w)) (S i) (drop i (parents (w_tree w))) l1 ->
  exists w' path, path_loop n i fi w = Some (w', path) /\ witness_le w w' /\ length path = n /\
  (forall root, fold_path (fns (w_tree w)) (S i) root path = climb (fns (w_tree w)) n (S i) (drop i (parents (w_tree w))) root rest) /\
  position (S i) path = len l1.
Proof.
  revert w i fi rest l1. induction n as [|n IH]; intros w i fi rest l1 R Hi Su F; cbn [path_loop].
  { exists w, []. split_and!; [done|apply witness_le_refl|done|done|]. assert (l1 = []) as ->; [|done].
    eapply frontier_all_none; [exact F|]. intros j h E. rewrite lookup_drop in E. apply (so_bound _ _ (tr_slots _ _ R)) in E.
    pose proof (repr_num_parents _ _ R). lia. }
  pose proof (tr_depth _ _ R) as [Hd1 Hd2]. set (t := w_tree w) in *.
  destruct (parent_if_spec t i (tr_slots _ _ R) ltac:(lia)) as (p & -> & E). rewrite (drop_S _ _ _ E) in Su, F |- *. cbn [climb].
  destruct p as [h|]; cbn [gap_list tail] in *; cbn iota beta.
  - apply frontier_some_inv in F as (l2 & l3 & -> & F & L3 & ->).
    destruct (IH w (S i) fi rest l2 R ltac:(fold t; lia) Su F) as (w' & path & -> & Le & Lp & Fp & Pp). cbn [fst snd].
    exists w', ((subtree (fns t) (S i) l3, 1) :: path). split_and!; [done|done|by cbn; rewrite Lp| |].
    + intros root. cbn [fold_path Z.eqb]. apply Fp.
    + cbn [position snd]. rewrite Pp. unfold len. rewrite length_app, L3, Nat2Z.inj_add, Nat2Z.inj_pow. change (Z.of_nat 2) with 2. lia.
  - destruct (take_filler_spec w fi (S i) _ rest Su ltac:(lia)) as (w1 & fi' & -> & Le1 & Su'). cbn iota beta.
    destruct (witness_le_fields _ _ Le1) as (Et & _). apply frontier_tail in F. cbn [tail] in F. fold t in Et. rewrite <- Et in Su', F.
    destruct (IH w1 (S i) fi' _ l1 ltac:(by rewrite Et) ltac:(rewrite Et; lia) Su' F) as (w' & path & -> & Le & Lp & Fp & Pp). cbn [fst snd]. rewrite Et in Fp.
    eexists w', (_ :: path). split_and!; [reflexivity|by eapply witness_le_trans|by cbn; rewrite Lp| |].
    + intros root. cbn [fold_path Z.eqb]. apply Fp.
    + cbn [position snd]. rewrite Pp. lia.
Qed.

(** *** The base of the climb *)

Lemma witness_base w l r : witness_repr w l r ->
  let t := w_tree w in
  exists l1 l2 r0 rest h bit,
  l = l1 ++ l2 /\ r = r0 ++ rest /\ frontier (fns t) 1 (parents t) l1 /\ (l2 = [] -> l1 = []) /\
  (length (l2 ++ r0) = 2 \/ length (l2 ++ r0) <= 2 /\ rest = [])%nat /\
  combine (fns t) (fst (witness_root_depth0_sides w)) (snd (witness_root_depth0_sides w)) 0 = subtree (fns t) 1 (l2 ++ r0) /\
  supplies w (filled_start w) (gap_list (depth t - 1) 1 (parents t)) rest /\
  path_base w = Some (h, bit, filled_start w) /\ bit = len l - 1 - len l1 /\
  exists node, list.last l = Some node /\ (if bit =? 0 then combine (fns t) node h 0 else combine (fns t) h node 0) = subtree (fns t) 1 (l2 ++ r0).
Proof.
  intros [R Ne Fit (r1 & r2 & -> & Fu & Cu) Dep] t. destruct (tr_leaves _ _ R) as (l1 & l2 & -> & F & Lv). fold t in F, Lv, Fu, Cu.
  unfold witness_root_depth0_sides, filled_start, path_base, leaves_ok, gaps in *. fold t. exists l1, l2.
  destruct (left t) as [a|] eqn:El, (right t) as [b|] eqn:Er; [subst l2..|done|destruct Lv; by subst].
  - exists [], (r1 ++ r2), a, 1. cbn [fst snd default]. rewrite last_app.
    split_and!; [done|done|done|done|by left| | |done|unfold len; rewrite length_app; cbn [length]; lia|by exists b].
    + by rewrite (subtree_pair (fns t) 0 [a] [b]).
    + left. split; [lia|]. exists r1, r2. rewrite drop_0, Nat.sub_0_r. by split_and!.
  - cbn [app] in Fu, Cu. rewrite last_app. cbn [list.last].
    destruct (filled w) as [|h fl] eqn:Ef; cbn [fst snd default head length Nat.ltb Nat.leb].
    + inversion Fu; subst. cbn [length lookup list_lookup] in Cu.
      destruct (cursor w) as [c|] eqn:Ec; cbn [cursor_ok] in Cu; [destruct Cu as (g & [= <-] & ? & _); lia|subst r2].
      exists [], [], (uncommitted (fns t)), 0. cbn [app]. rewrite !bool_decide_true by done. cbn [negb orb].
      split_and!; [done..|right; cbn; split; [lia|done]| | |done|unfold len; rewrite length_app; cbn [length]; lia|exists a; split; [done|]].
      * done.
      * right. rewrite Ef. split_and!; [done|cbn; lia|done].
      * done.
    + inversion Fu as [|? ? ? r3 r4 L3 Fu']; subst. destruct r3 as [|x [|]]; [done| |done].
      exists [x], (r4 ++ r2), x, 0. rewrite (bool_decide_true (0 < S (length fl))%nat) by lia. rewrite bool_decide_false by done. cbn [negb orb app].
      split_and!; [done|done|done|done|by left| | |done|unfold len; rewrite length_app; cbn [length]; lia|exists a; split; [done|]].
      * by rewrite (subtree_pair (fns t) 0 [a] [x]).
      * left. rewrite Ef. cbn [length]. split; [lia|]. exists r4, r2. cbn [drop]. rewrite Nat.sub_succ, Nat.sub_0_r. by split_and!.
      * by rewrite (subtree_pair (fns t) 0 [a] [x]).
Qed.

Lemma witness_root_spec w l r : witness_repr w l r ->
  exists w', incremental_witness_root w = Some (w', subtree (fns (w_tree w)) (depth (w_tree w)) (l ++ r)) /\ witness_le w w'.
Proof.
  intros W. destruct (witness_base w l r W) as (l1 & l2 & r0 & rest & h & bit & -> & -> & F & Nl & L2 & Eb & Su & _). cbv zeta in *.
  pose proof (wr_tree _ _ _ W) as R. pose proof (tr_depth _ _ R) as Hd. set (t := w_tree w) in *. unfold incremental_witness_root. fold t.
  destruct (witness_root_depth0_sides w) as [x y]. cbn [fst snd] in Eb. rewrite Eb.
  assert (climb (fns t) (depth t - 1) 1 (parents t) (subtree (fns t) 1 (l2 ++ r0)) rest = subtree (fns t) (depth t) ((l1 ++ l2) ++ r0 ++ rest)) as Ec.
  { rewrite (climb_spec _ _ _ _ l1); [|done|exact L2|by intros [-> _]%app_eq_nil; apply Nl|].
    - rewrite <- !app_assoc. f_equal. lia.
    - pose proof (wr_fit _ _ _ W) as Fit. fold t in Fit. rewrite <- !app_assoc in *. by replace (1 + (depth t - 1))%nat with (depth t) by lia. }
  destruct (decide (depth t = 1%nat)) as [D1|D1].
  - exists w. split; [|apply witness_le_refl]. rewrite <- Ec, D1. cbn [witness_root_loop Nat.sub climb]. fold t. rewrite D1.
    pose proof (repr_num_parents _ _ R) as Hn. fold t in Hn. rewrite !bool_decide_false by lia. done.
  - destruct (witness_root_loop_spec w (depth t - 1) 0 (filled_start w) (subtree (fns t) 1 (l2 ++ r0)) rest (l1 ++ l2) R) with (fuel := Datatypes.S (depth t)) as (w' & E & Le);
      [lia|fold t; lia|by rewrite drop_0|lia|]. fold t in E. rewrite drop_0, Ec in E. by exists w'.
Qed.

Lemma auth_path_spec w l r : witness_repr w l r ->
  exists w' path node, auth_path w = Some (w', path) /\ witness_le w w' /\ length path = depth (w_tree w) /\ list.last l = Some node /\
  fold_path (fns (w_tree w)) 0 node path = subtree (fns (w_tree w)) (depth (w_tree w)) (l ++ r) /\ position 0 path = len l - 1.
Proof.
  intros W. destruct (witness_base w l r W) as (l1 & l2 & r0 & rest & h & bit & -> & -> & F & Nl & L2 & _ & Su & Ep & Ebit & node & Enode & Eb). cbv zeta in *.
  pose proof (wr_tree _ _ _ W) as R. pose proof (tr_depth _ _ R) as Hd. set (t := w_tree w) in *. unfold auth_path. fold t. rewrite Ep.
  destruct (path_loop_spec (depth t - 1) w 0 (filled_start w) rest (l1 ++ l2) l1 R ltac:(fold t; lia)) as (w' & path & -> & Le & Lp & Fp & Pp);
    [by rewrite drop_0|by rewrite drop_0|]. fold t in Fp. rewrite drop_0 in Fp. cbn [fst snd].
  exists w', ((h, bit) :: path), node. split_and!; [done|done|cbn [length]; lia|done| |].
  - cbn [fold_path]. rewrite Eb, Fp, (climb_spec _ _ _ _ l1); [|done|exact L2|by intros [-> _]%app_eq_nil; apply Nl|].
    + rewrite <- !app_assoc. f_equal. lia.
    + pose proof (wr_fit _ _ _ W) as Fit. fold t in Fit. rewrite <- !app_assoc in *. by replace (1 + (depth t - 1))%nat with (depth t) by lia.
  - cbn [position snd]. rewrite Pp, Ebit. cbn [Z.of_nat Z.pow]. lia.
Qed.

(** ** Runs and the wire format *)

Fixpoint witness_run (w : incremental_witness) (l : list uint256) : option incremental_witness :=
  match l with [] => Some w | x :: l => let? w := incremental_witness_append w x in witness_run w l end.

Lemma witness_run_spec r' w l r : witness_repr w l r -> (length (l ++ r ++ r') <= 2 ^ depth (w_tree w))%nat ->
  exists w', witness_run w r' = Some w' /\ witness_repr w' l (r ++ r') /\ w_tree w' = w_tree w.
Proof.
  revert w r. induction r' as [|x r' IH]; intros w r W Fit; cbn [witness_run]; [exists w; by rewrite app_nil_r|].
  destruct (witness_append_spec w l r x W) as (w1 & -> & W1 & E1); [rewrite !length_app in *; cbn [length] in Fit; lia|].
  destruct (IH w1 (r ++ [x]) W1) as (w' & E & W' & E'); [by rewrite E1, <- (app_assoc r)|].
  exists w'. rewrite <- app_assoc in W'. split_and!; [done|done|congruence].
Qed.

(** Without the cached roots. *)
Definition forget (w : incremental_witness) : incremental_witness :=
  mk_witness (set_memo (w_tree w) None) (filled w) (option_map (fun c => set_memo c None) (cursor w)) (cursor_depth w).

Lemma full_arr f gs fl r : fns_arr f -> full f gs fl r -> Forall (arr 32) r -> Forall (arr 32) fl.
Proof.
  intros Hf. induction 1 as [|g gs fl r1 r2 _ _ IH]; intros Hr; [constructor|]. apply Forall_app in Hr as [H1 H2].
  constructor; [by apply subtree_arr|by apply IH].
Qed.

Definition cursor_enc (o : option incremental_merkle_tree) : list Z := match o with Some c => 1 :: tree_enc c | None => [0] end.
Definition witness_enc (w : incremental_witness) : list Z :=
  tree_enc (w_tree w) ++ compact_size_enc (len (filled w)) ++ concat (filled w) ++ cursor_enc (cursor w).

Lemma valid_depth g d f c : tree_valid g f c -> (g <= d <= MAX_TREE_DEPTH)%nat -> tree_valid d f (with_depth c d).
Proof.
  intros [Ed Ef Em Wf Hm So Ha] Hd. pose proof (wfcheck_depth _ Wf) as Hn. split; cbn [depth fns memo left right parents num_parents with_depth]; try done; [|lia].
  unfold wfcheck in *. cbn [depth fns memo left right parents num_parents with_depth]. rewrite !bool_decide_false in * by lia. exact Wf.
Qed.

(** The parts of a witness, written and read back. *)
Record witness_valid (d : nat) (f : tree_fns) (w : incremental_witness) : Prop := {
  wv_depth : (1 <= d <= MAX_TREE_DEPTH)%nat;
  wv_tree : tree_valid d f (w_tree w);
  wv_filled : Forall (arr 32) (filled w);
  wv_max : (length (filled w) <= MAX_WITNESS_FILLS)%nat;
  wv_cursor : match cursor w with Some c => depth c = cursor_depth w /\ (cursor_depth w <= d)%nat /\ tree_valid (cursor_depth w) f c | None => True end;
  wv_next : next_depth (w_tree w) (length (filled w)) = Some (cursor_depth w);
}.

#[export] Program Instance witness_codec `{Allocator} (d : nat) (f : tree_fns) :
  Codec (witness_valid d f) incremental_witness_serialize (incremental_witness_deserialize d f) := { codec_enc := witness_enc }.
Next Obligation.
  intros ? d f w [Hd Vt Ha Hl Vc Nx]. unfold incremental_witness_serialize, witness_enc.
  apply writes_seq; [by apply (codec_writes (Codec := tree_codec (blank_tree d f)))|].
  apply writes_seq; [apply writes_compact_size; unfold in_u, len; change MAX_WITNESS_FILLS with 64%nat in Hl; lia|].
  apply writes_seq.
  - rewrite <- (map_id (filled w)) at 2. apply writes_all. eapply Forall_impl; [|exact Ha]. intros h [Hb _]. by apply stream_write_writes.
  - destruct (cursor w) as [c|]; cbn [write_cursor cursor_enc]; [|by apply writes_u8]. destruct Vc as (Ed & Hc & Vc).
    apply (writes_seq _ _ [1]); [by apply writes_u8|]. by apply (codec_writes (Codec := tree_codec (blank_tree (cursor_depth w) f))).
Qed.
Next Obligation.
  intros ? d f w [Hd Vt Ha Hl Vc Nx]. unfold incremental_witness_deserialize, witness_enc. change MAX_WITNESS_FILLS with 64%nat in *.
  apply reads_fail_if; [rewrite !bool_decide_false by lia; done|].
  eapply reads_bind; [by apply (codec_reads (Codec := tree_codec (blank_tree d f)))|].
  eapply reads_bind; [apply reads_compact_size; unfold in_u, len; lia|].
  apply reads_fail_if; [apply Z.ltb_ge; unfold len; lia|].
  eapply reads_bind.
  { unfold len. rewrite Nat2Z.id. rewrite <- (map_id (filled w)) at 2. apply reads_elems. eapply Forall_impl; [|exact Ha].
    intros h Hh. by apply (reads_arr 32). }
  rewrite Nx. destruct w as [t fl [c|] cd]; cbn [cursor cursor_enc w_tree filled cursor_depth option_map] in *.
  - destruct Vc as (Ed & Hc & Vc). apply (reads_bind _ _ [1] (tree_enc c) 1); [by apply reads_u8|]. cbn [Z.eqb negb].
    rewrite <- (app_nil_r (tree_enc c)). eapply reads_bind.
    + eapply reads_map; [|reflexivity]. change (tree_enc c) with (tree_enc (with_depth c d)).
      apply (codec_reads (Codec := tree_codec (blank_tree d f))). eapply valid_depth; [exact Vc|by cbn; lia].
    + cbn [option_map]. match goal with |- context [tree_root_invalidate ?x] => replace (tree_root_invalidate x) with c end; [apply reads_ret|]. destruct Vc as [? ? Em _ _ _ _]. destruct c. cbn in *. by subst.
  - apply (reads_bind _ _ [0] [] 0); [by apply reads_u8|]. apply (reads_bind _ _ [] [] None); apply reads_ret.
Qed.

Lemma next_depth_memo t m k : next_depth (set_memo t m) k = next_depth t k.
Proof.
  assert (forall n d s, next_loop (set_memo t m) n d s = next_loop t n d s) as L.
  { induction n as [|n IH]; intros d s; cbn [next_loop]; [done|]. change (parent_at (set_memo t m) d) with (parent_at t d).
    destruct (parent_at t d) as [[h|]|]; [apply IH|destruct s; [done|apply IH]|done]. }
  unfold next_depth. change (right (set_memo t m)) with (right t). change (num_parents (set_memo t m)) with (num_parents t).
  destruct (right t), k; auto.
Qed.

Lemma repr_witness_valid w l r : fns_arr (fns (w_tree w)) -> witness_repr w l r -> Forall (arr 32) (l ++ r) ->
  witness_valid (depth (w_tree w)) (fns (w_tree w)) (forget w).
Proof.
  intros Hf [R Ne Fit (r1 & r2 & -> & Fu & Cu) Dep] Ha. apply Forall_app in Ha as [Hl Hr]. apply Forall_app in Hr as [H1 H2].
  destruct (gaps_bound _ _ R) as [Gl Gb]. destruct (full_room _ _ _ _ Fu) as [Fl _]. pose proof (tr_depth _ _ R) as Hd. change MAX_TREE_DEPTH with 32%nat in Hd.
  split; cbn [forget w_tree filled cursor cursor_depth].
  - done.
  - apply (repr_valid _ l); [done|]. by apply (repr_arr _ l).
  - by eapply full_arr.
  - change MAX_WITNESS_FILLS with 64%nat. lia.
  - destruct (cursor w) as [c|]; cbn [option_map cursor_ok] in *; [|done]. destruct Cu as (g & Eg & Hg & Dc & Fc & Rc & Lr).
    destruct (next_depth_spec _ l (length (filled w)) R) as (g' & E' & Hg'). rewrite Dep in E'. injection E' as ->. rewrite <- (Hg' _ Eg).
    split_and!; [exact Dc|specialize (Gb _ _ Eg); lia|]. rewrite <- Fc, <- Dc. apply (repr_valid _ r2); [done|]. apply (repr_arr _ r2); [by rewrite Fc|done..].
  - by rewrite next_depth_memo.
Qed.

Lemma witness_enc_length d f w : witness_valid d f w -> len (witness_enc w) <= 16777216.
Proof.
  intros [Hd Vt Ha Hl Vc _]. assert (forall d f t, tree_valid d f t -> len (tree_enc t) <= 100000) as Ht.
  { intros d' f' t V. pose proof (tree_enc_small d' f' t V). lia. }
  unfold witness_enc, len in *. rewrite !length_app. pose proof (Ht _ _ _ Vt).
  pose proof (compact_size_enc_length (Z.of_nat (length (filled w)))) as Ec.
  assert (compact_size_sizeof (Z.of_nat (length (filled w))) <= 9) by (unfold compact_size_sizeof; repeat case_match; lia).
  assert (forall fl, Forall (arr 32) fl -> Z.of_nat (length (concat fl)) = 32 * Z.of_nat (length fl)) as Hc.
  { induction 1 as [|h fl [_ Hh] _ IH]; [done|]. cbn [concat length]. unfold len in Hh. rewrite length_app. lia. }
  rewrite Nat2Z.inj_add, Nat2Z.inj_add, Nat2Z.inj_add. rewrite (Hc _ Ha). change MAX_WITNESS_FILLS with 64%nat in Hl.
  assert (Z.of_nat (length (cursor_enc (cursor w))) <= 100001); [|lia].
  destruct (cursor w) as [c|]; cbn [cursor_enc length]; [|lia]. destruct Vc as (_ & _ & Vc). pose proof (Ht _ _ _ Vc). lia.
Qed.

End Spec.

(** C20: a witness stays a valid membership proof. Freeze a tree of any depth up to
    32 with at least one leaf, and replay into its witness the leaves that come
    after it, up to the capacity of the tree. No step leaves its arrays; the root
    computed from the witness is that of the tree with all the leaves, the same as
    the root of the tree they are appended to; the authentication path has [depth]
    siblings, hashing the last leaf of the frozen tree up along it gives that root,
    and its position bits are the leaf's index; the 33 bytes of each level follow
    the depth in the encoded path. If the hash function returns 32 bytes, the
    witness written to a stream reads back as the same one, cached roots aside. *)
Theorem incremental_witness_spec `{HostOrder} `{Pedersen} `{Allocator} (d : nat) (f : tree_fns) (ops : list tree_op) (l : list uint256) :
  (1 <= d <= MAX_TREE_DEPTH)%nat -> leaves_of ops <> [] -> (length (leaves_of ops ++ l) <= 2 ^ d)%nat ->
  let root := subtree f d (leaves_of ops ++ l) in
  exists t0 t w0 w, tree_init d f = Some t0 /\ tree_run t0 ops = Some t /\ incremental_witness_init t = Some w0 /\ witness_run w0 l = Some w /\
  (exists w', incremental_witness_root w = Some (w', root)) /\
  (exists t1 t2, tree_run t (map Append l) = Some t1 /\ incremental_tree_root t1 = Some (t2, root)) /\
  (exists w' path node, incremental_witness_merkle_path w =
     Some (w', Some (Z.of_nat d :: concat (map (fun e => fst e ++ [snd e]) path))) /\
   length path = d /\ list.last (leaves_of ops) = Some node /\ fold_path f 0 node path = root /\ position 0 path = len (leaves_of ops) - 1) /\
  (fns_arr f -> Forall (arr 32) (leaves_of ops ++ l) -> forall s s' rest,
   stream_wf s -> size s + 16777216 < 2 ^ 64 -> bytes rest -> len (data s' ++ rest) < 2 ^ 64 ->
   incremental_witness_serialize w s = (s', true) ->
   exists enc, data s' = data s ++ enc /\
   incremental_witness_deserialize d f (stream_init_from_data (enc ++ rest)) =
     (advance (stream_init_from_data (enc ++ rest)) (len enc), Some (forget w))).
Proof.
  intros Hd Ne Fit root. destruct (tree_init_spec d f Hd) as (t0 & E0 & R0 & D0 & F0).
  destruct (tree_run_spec ops t0 [] R0) as (t & E & R & Sd & Sf); [rewrite D0; rewrite length_app in Fit; cbn [app]; lia|]. cbn [app] in R.
  rewrite D0 in Sd. rewrite F0 in Sf. destruct (witness_init_spec t _ R Ne) as (w0 & Ew0 & W0 & Et0).
  destruct (witness_run_spec l w0 _ [] W0) as (w & Ew & W & Et); [by rewrite Et0, Sd|]. cbn [app] in W. rewrite Et0 in Et.
  exists t0, t, w0, w. split_and!; [done..| | | |].
  - destruct (witness_root_spec w _ _ W) as (w' & Er & _). exists w'. by rewrite Er, Et, Sd, Sf.
  - assert (leaves_of (map Append l) = l) as El by (clear; induction l as [|x l IH]; [done|]; cbn; by f_equal).
    destruct (tree_run_spec (map Append l) t _ R) as (t1 & E1 & R1 & Sd1 & Sf1); [by rewrite El, Sd|]. rewrite El in R1.
    destruct (root_spec t1 _ R1) as (t2 & E2 & _). exists t1, t2. split; [done|]. by rewrite E2, Sd1, Sf1, Sd, Sf.
  - destruct (auth_path_spec w _ _ W) as (w' & path & node & Ep & _ & Lp & En & Fp & Pp). rewrite Et, Sd, Sf in *.
    exists w', path, node. split_and!; [|done..]. unfold incremental_witness_merkle_path. rewrite Et, (size_spec t _ R), Sd.
    destruct (Z.eqb_spec (len (leaves_of ops)) 0) as [El|_]; [by destruct (leaves_of ops)|]. rewrite Ep. cbn [fst snd].
    rewrite take_ge by lia. do 4 f_equal. apply wrap_id. change MAX_TREE_DEPTH with 32%nat in Hd. unfold in_u. lia.
  - intros Hf Ha s s' rest Hs Hsz Hrest Hfit Hw.
    pose proof (repr_witness_valid w _ _ ltac:(by rewrite Et, Sf) W Ha) as V. rewrite Et, Sd, Sf in V.
    assert (incremental_witness_serialize (forget w) = incremental_witness_serialize w) as Es by (by destruct w as [? ? [] ?]). rewrite <- Es in Hw.
    exact (codec_roundtrips (H0 := witness_codec d f) (fun v Hv => witness_enc_length _ _ v Hv) _ s s' rest V Hs Hsz Hrest Hfit Hw).
Qed.

Section WitnessExample.
#[local] Existing Instance tree_host.
#[local] Existing Instance tree_alloc.
#[local] Existing Instance mixing.

Lemma incremental_witness_spec_witness :
  exists t0 t w0 w w', tree_init 3 PEDERSEN = Some t0 /\ tree_run t0 sample_ops = Some t /\ incremental_witness_init t = Some w0 /\
  witness_run w0 [leaf 4; leaf 5; leaf 6] = Some w /\
  incremental_witness_root w = Some (w', subtree PEDERSEN 3 [leaf 1; leaf 2; leaf 3; leaf 4; leaf 5; leaf 6]).
Proof.
  destruct (incremental_witness_spec 3 PEDERSEN sample_ops [leaf 4; leaf 5; leaf 6]) as (t0 & t & w0 & w & E0 & E & Ew0 & Ew & (w' & Er) & _);
    [unfold MAX_TREE_DEPTH; lia|done|cbn; lia|].
  exists t0, t, w0, w, w'. split_and!; [exact E0|exact E|exact Ew0|exact Ew|exact Er].
Defined.
End WitnessExample.
