(* ===== verification/CoinsView.v ===== *)
(** * The coins cache

    Model of the cache of [core/modules/coins/src/coins_view.c] over a backing view:
    a table of [CoinsMap] in front of another view, which may itself be a cache.
    The backing view is an instance of a class with the fields of
    [struct coins_view_vtable]; a second class states what the cache relies on, and
    the cache is an instance of both. *)

From stdpp Require Import base tactics list numbers option gmap.
From Stdlib Require Import ZArith Lia.
From S2P Require Import Prelude Serialize ByteOrder Params Script Hash Transaction IncrementalTree.
From S2P Require Import Coins CoinsMap UtxoCommitment.
#[local] Open Scope Z_scope.
#[local] Open Scope list_scope.
#[local] Open Scope cint_scope.
#[local] Open Scope zres_scope.

Definition SIZE_MAX : Z := 2 ^ 64 - 1.

Inductive coins_anchor_pool := COINS_ANCHOR_SPROUT | COINS_ANCHOR_SAPLING.
Inductive coins_anchor_lookup_result :=
| COINS_ANCHOR_ERROR | COINS_ANCHOR_MISSING | COINS_ANCHOR_FOUND | COINS_ANCHOR_HISTORY_INCOMPLETE.

(** The hooks of a view; a null hook is [None]. Every hook returns the view's next
    state, or no result where its behaviour is undefined. [get_coins] fills a record
    or leaves it alone; [batch_write] takes the entries it applies out of the
    map it is given, which it returns, and says whether it succeeded. *)
Class CoinsViewVtable (V : Type) := {
  vt_get_coins : option (V -> uint256 -> option (V * option coins));
  vt_get_best_block : option (V -> option (V * option uint256));
  vt_batch_write : option (V -> coins_map -> uint256 -> option (V * coins_map * bool));
  (** The verdict on a note-commitment root and the tree it fills in, if it does. *)
  vt_get_anchor : option (V -> coins_anchor_pool -> uint256 -> coins_anchor_lookup_result * option incremental_merkle_tree);
  (** What a flush does when the view is a cache: the child's commitment is merged
      into it. Other views are left alone. *)
  vt_merge : V -> utxo_commitment -> V;
}.

Definition coins_view_get_coins `{CoinsViewVtable V} (cv : V) (txid : uint256) : option (V * option coins) :=
  match vt_get_coins with Some f => f cv txid | None => Some (cv, None) end.
Definition coins_view_get_best_block `{CoinsViewVtable V} (cv : V) : option (V * option uint256) :=
  match vt_get_best_block with Some f => f cv | None => Some (cv, None) end.

Definition coins_view_get_anchor `{CoinsViewVtable V} (cv : V) (pool : coins_anchor_pool) (root : uint256) :
    coins_anchor_lookup_result * option incremental_merkle_tree :=
  match vt_get_anchor with Some f => f cv pool root | None => (COINS_ANCHOR_HISTORY_INCOMPLETE, None) end.

Record coins_view_cache (V : Type) := mk_cache {
  c_base : V; cache_coins : coins_map; hash_block : uint256; cached_coins_usage : Z; commitment : utxo_commitment;
}.
Arguments mk_cache {V}. Arguments c_base {V}. Arguments cache_coins {V}. Arguments hash_block {V}.
Arguments cached_coins_usage {V}. Arguments commitment {V}.

Section Cache.
Context `{Allocator} `{HostOrder} `{CommitmentSkip} {V : Type} `{CoinsViewVtable V}.
Abbreviation cache := (coins_view_cache V).

Definition with_base (c : cache) (b : V) : cache :=
  mk_cache b (cache_coins c) (hash_block c) (cached_coins_usage c) (commitment c).
Definition with_map (c : cache) (m : coins_map) : cache :=
  mk_cache (c_base c) m (hash_block c) (cached_coins_usage c) (commitment c).
Definition with_usage (c : cache) (u : Z) : cache :=
  mk_cache (c_base c) (cache_coins c) (hash_block c) u (commitment c).
Definition with_commitment (c : cache) (uc : utxo_commitment) : cache :=
  mk_cache (c_base c) (cache_coins c) (hash_block c) (cached_coins_usage c) uc.

Definition coins_view_cache_init (backing : V) : cache :=
  mk_cache backing coins_map_init uint256_set_null 0 utxo_commitment_init.

Definition coins_view_cache_free (c : cache) : cache :=
  with_usage (with_map c (coins_map_free (cache_coins c))) 0.

Definition coins_view_cache_account_vout_resize (c : cache) (old_count new_count : Z) : cache :=
  if new_count <=? old_count then c
  else
    let count := new_count - old_count in
    if (SIZE_MAX / sizeof_tx_out <? count) || (SIZE_MAX - count * sizeof_tx_out <? cached_coins_usage c)
    then with_usage c SIZE_MAX
    else with_usage c (cached_coins_usage c + count * sizeof_tx_out).

Definition coins_view_cache_memory_usage (c : option cache) : Z :=
  match c with
  | None => 0
  | Some c =>
      let n := Z.of_nat (num_buckets (cache_coins c)) in
      if SIZE_MAX / sizeof_coins_map_entry <? n then SIZE_MAX
      else
        let buckets := n * sizeof_coins_map_entry in
        if SIZE_MAX - buckets <? cached_coins_usage c then SIZE_MAX else cached_coins_usage c + buckets
  end.

(** [new_entry->coins = coins], and the growth accounted for. *)
Definition store_coins (c : cache) (slot : nat) (v : coins) : option cache :=
  let? e := entry_at (cache_coins c) slot in
  Some (coins_view_cache_account_vout_resize
    (with_map c (set_entry (cache_coins c) slot (mk_entry v (e_flags e)))) 0 (len (c_vout v))).

Definition coins_view_cache_get_coins (c : cache) (txid : uint256) : option (cache * option coins) :=
  match coins_map_find (cache_coins c) txid with
  | Some slot =>
      let? e := entry_at (cache_coins c) slot in
      Some (c, if coins_is_pruned (e_coins e) then None else Some (coins_copy (e_coins e)))
  | None =>
      let? r := coins_view_get_coins (c_base c) txid in
      let c := with_base c (fst r) in
      match snd r with
      | None => Some (c, None)
      | Some fetched =>
          let? r := coins_map_insert (cache_coins c) txid in
          let c := with_map c (fst r) in
          match snd r with
          | None => Some (c, None)
          | Some slot =>
              let? c := store_coins c slot fetched in
              Some (c, if coins_is_pruned fetched then None else Some (coins_copy fetched))
          end
      end
  end.

Definition coins_view_cache_have_coins (c : cache) (txid : uint256) : option (cache * bool) :=
  match coins_map_find (cache_coins c) txid with
  | Some slot => let? e := entry_at (cache_coins c) slot in Some (c, negb (coins_is_pruned (e_coins e)))
  | None =>
      let? r := coins_view_get_coins (c_base c) txid in
      Some (with_base c (fst r), match snd r with Some _ => true | None => false end)
  end.

Definition coins_view_cache_invalidate (c : cache) (txid : uint256) : option (cache * bool) :=
  let? r := coins_map_erase (cache_coins c) txid in
  Some (with_map c (fst r), snd r).

Definition coins_view_cache_set_best_block (c : cache) (hash : uint256) : cache :=
  mk_cache (c_base c) (cache_coins c) hash (cached_coins_usage c) (commitment c).

Definition coins_view_cache_get_best_block (c : cache) : option (cache * uint256) :=
  let? c :=
    (if uint256_is_null (hash_block c) then
       let? r := coins_view_get_best_block (c_base c) in
       Some (coins_view_cache_set_best_block (with_base c (fst r)) (default (hash_block c) (snd r)))
     else Some c) in
  Some (c, hash_block c).

Definition mark (flags : Z) (e : coins_cache_entry) : coins_cache_entry := mk_entry (e_coins e) (e_flags e .| flags).

(** The pointer returned is the entry's slot. *)
Definition coins_view_cache_modify (c : cache) (txid : uint256) : option (cache * option nat) :=
  match coins_map_find (cache_coins c) txid with
  | Some slot =>
      let? e := entry_at (cache_coins c) slot in
      Some (with_map c (set_entry (cache_coins c) slot (mark COINS_CACHE_DIRTY e)), Some slot)
  | None =>
      let? r := coins_map_insert (cache_coins c) txid in
      let c := with_map c (fst r) in
      match snd r with
      | None => Some (c, None)
      | Some slot =>
          let? e := entry_at (cache_coins c) slot in
          let? r := coins_view_get_coins (c_base c) txid in
          let c := with_base c (fst r) in
          let v := default (e_coins e) (snd r) in
          let? c := store_coins c slot v in
          Some (with_map c (set_entry (cache_coins c) slot (mark COINS_CACHE_DIRTY (mk_entry v (e_flags e)))), Some slot)
      end
  end.

Definition coins_view_cache_modify_new (c : cache) (txid : uint256) : option (cache * option nat) :=
  let? r := coins_map_insert (cache_coins c) txid in
  let c := with_map c (fst r) in
  match snd r with
  | None => Some (c, None)
  | Some slot =>
      let? e := entry_at (cache_coins c) slot in
      Some (with_map c (set_entry (cache_coins c) slot (mark (COINS_CACHE_DIRTY .| COINS_CACHE_FRESH) e)), Some slot)
  end.

(** *** A cache as a view *)

Definition cvc_get_coins (self : cache) (txid : uint256) : option (cache * option coins) :=
  coins_view_cache_get_coins self txid.
Definition cvc_get_anchor (self : cache) (pool : coins_anchor_pool) (root : uint256) :
    coins_anchor_lookup_result * option incremental_merkle_tree := coins_view_get_anchor (c_base self) pool root.
Definition cvc_get_best_block (self : cache) : option (cache * option uint256) :=
  let? r := coins_view_cache_get_best_block self in Some (fst r, Some (snd r)).

(** One bucket of the loop of [cvc_batch_write]: the parent, the bucket with its
    coins moved out, and whether the parent had room. The branches for pruned and
    for other records differ in a counter for the log only. *)
Definition write_bucket (parent : cache) (b : bucket) : option (cache * bucket * bool) :=
  match b with
  | None => Some (parent, b, true)
  | Some (txid, e) =>
      if e_flags e .& COINS_CACHE_DIRTY =? 0 then Some (parent, b, true)
      else
        let? r := coins_map_insert (cache_coins parent) txid in
        let parent := with_map parent (fst r) in
        match snd r with
        | None => Some (parent, b, false)
        | Some slot =>
            let? dest := entry_at (cache_coins parent) slot in
            let old_count := len (c_vout (e_coins dest)) in
            let dest := mark COINS_CACHE_DIRTY (mk_entry (e_coins e) (e_flags dest)) in
            let parent := with_map parent (set_entry (cache_coins parent) slot dest) in
            Some (coins_view_cache_account_vout_resize parent old_count (len (c_vout (e_coins e))),
                  Some (txid, mk_entry coins_init (e_flags e)), true)
        end
  end.

Fixpoint write_buckets (parent : cache) (l : list bucket) : option (cache * list bucket * bool) :=
  match l with
  | [] => Some (parent, [], true)
  | b :: l =>
      let? r := write_bucket parent b in
      match r with
      | (parent, b, false) => Some (parent, b :: l, false)
      | (parent, b, true) =>
          let? r := write_buckets parent l in
          match r with (parent, l, ok) => Some (parent, b :: l, ok) end
      end
  end.

Definition cvc_batch_write (parent : cache) (map_coins : coins_map) (hash : uint256) : option (cache * coins_map * bool) :=
  let? r := write_buckets parent (buckets map_coins) in
  match r with
  | (parent, l, ok) =>
      let map_coins := mk_map l (m_size map_coins) (degraded_hash map_coins) in
      if ok
      then Some (if uint256_is_null hash then parent else coins_view_cache_set_best_block parent hash, map_coins, true)
      else Some (parent, map_coins, false)
  end.

(** The flush; a failed one keeps the entries. *)
Definition coins_view_cache_flush_for_testing (c : cache) : option (cache * bool) :=
  match vt_batch_write with
  | None => Some (c, false)
  | Some batch_write =>
      let? r := batch_write (c_base c) (cache_coins c) (hash_block c) in
      match r with
      | (parent, m, true) =>
          Some (mk_cache (vt_merge parent (commitment c)) coins_map_init (hash_block c) 0 utxo_commitment_init, true)
      | (parent, m, false) => Some (with_map (with_base c parent) m, false)
      end
  end.

(** *** Recomputing the commitment *)

Fixpoint add_outputs (txid : uint256) (height : Z) (v : coins) (i : nat) (l : list tx_out) (uc : utxo_commitment) :
    utxo_commitment :=
  match l with
  | [] => uc
  | o :: l =>
      add_outputs txid height v (Datatypes.S i) l
        (if negb (coins_is_available v (u32 (Z.of_nat i))) then uc
         else utxo_commitment_add uc txid (u32 (Z.of_nat i)) (value o) height)
  end.

Definition add_bucket (uc : utxo_commitment) (b : bucket) : utxo_commitment :=
  match b with
  | None => uc
  | Some (txid, e) =>
      let v := e_coins e in
      if coins_is_pruned v then uc else add_outputs txid (c_height v) v 0 (c_vout v) uc
  end.

Definition coins_view_cache_recompute_commitment (c : cache) : utxo_commitment :=
  fold_left add_bucket (buckets (cache_coins c)) utxo_commitment_init.

(** *** Inputs *)

(** The output pointed to; the null pointer is [None]. *)
Definition coins_view_cache_get_output_for (c : cache) (i : tx_in) : option (cache * option tx_out) :=
  let txid := op_hash (prevout i) in
  let output (v : coins) : option tx_out :=
    match c_vout v !! Z.to_nat (op_n (prevout i)) with
    | None => None
    | Some o => if tx_out_is_null o then None else Some o
    end in
  match coins_map_find (cache_coins c) txid with
  | Some slot => let? e := entry_at (cache_coins c) slot in Some (c, output (e_coins e))
  | None =>
      let? r := coins_view_get_coins (c_base c) txid in
      let c := with_base c (fst r) in
      match snd r with
      | None => Some (c, None)
      | Some v =>
          let? r := coins_map_insert (cache_coins c) txid in
          let c := with_map c (fst r) in
          match snd r with
          | None => Some (c, None)
          | Some slot =>
              let? c := store_coins c slot v in
              Some (with_map c (set_entry (cache_coins c) slot (mk_entry v 0)), output v)
          end
      end
  end.

Fixpoint inputs_present (c : cache) (l : list tx_in) : option (cache * bool) :=
  match l with
  | [] => Some (c, true)
  | i :: l =>
      let? r := coins_view_cache_get_output_for c i in
      match snd r with None => Some (fst r, false) | Some _ => inputs_present (fst r) l end
  end.

Definition coins_view_cache_have_inputs (c : cache) (tx : transaction) : option (cache * bool) :=
  if transaction_is_coinbase tx then Some (c, true) else inputs_present c (vin tx).

(** The loop over the inputs, from the total so far; the result [-1] is [None]. *)
Fixpoint input_values (c : cache) (value0 : Z) (l : list tx_in) : option (cache * option Z) :=
  match l with
  | [] => Some (c, Some value0)
  | i :: l =>
      let? r := coins_view_cache_get_output_for c i in
      match snd r with
      | None => Some (fst r, None)
      | Some o =>
          if negb (MoneyRange (value o)) then Some (fst r, None)
          else
            let? total := s64 (value0 + value o) in
            if negb (MoneyRange total) then Some (fst r, None) else input_values (fst r) total l
      end
  end.

Fixpoint vpub_new_values (value0 : Z) (l : list js_description) : option (option Z) :=
  match l with
  | [] => Some (Some value0)
  | js :: l =>
      let? total := s64 (value0 + vpub_new js) in
      if negb (MoneyRange total) then Some None else vpub_new_values total l
  end.

Definition coins_view_cache_get_value_in (c : cache) (tx : transaction) : option (cache * Z) :=
  if transaction_is_coinbase tx then Some (c, 0)
  else
    let? r := input_values c 0 (vin tx) in
    let c := fst r in
    match snd r with
    | None => Some (c, -1)
    | Some total =>
        let? r :=
          (if 0 <=? value_balance tx then
             let? total := s64 (total + value_balance tx) in
             Some (if negb (MoneyRange total) then None else Some total)
           else Some (Some total)) in
        match r with
        | None => Some (c, -1)
        | Some total =>
            let? r := vpub_new_values total (v_joinsplit tx) in
            Some (c, default (-1) r)
        end
    end.

End Cache.

(** A cache can itself back a cache. *)
#[export] Instance coins_view_cache_as_view `{Allocator} `{HostOrder} `{CommitmentSkip} `{CoinsViewVtable V} :
  CoinsViewVtable (coins_view_cache V) := {
  vt_get_coins := Some cvc_get_coins;
  vt_get_best_block := Some cvc_get_best_block;
  vt_batch_write := Some cvc_batch_write;
  vt_get_anchor := Some cvc_get_anchor;
  vt_merge := fun parent uc => with_commitment parent (utxo_commitment_merge (commitment parent) uc);
}.

(** ** What a view shows *)

(** A record without live outputs shows as no record. *)
Definition live (v : coins) : option coins := if coins_is_pruned v then None else Some v.
Definition dirty (e : coins_cache_entry) : bool := negb (e_flags e .& COINS_CACHE_DIRTY =? 0).
Definition overlay (M : gmap uint256 coins_cache_entry) (below : uint256 -> option coins) (k : uint256) : option coins :=
  match M !! k with Some e => live (e_coins e) | None => below k end.
(** The dirty entries of a table, over what is below them. *)
Definition written (M : gmap uint256 coins_cache_entry) (below : uint256 -> option coins) (k : uint256) : option coins :=
  match M !! k with Some e => if dirty e then live (e_coins e) else below k | None => below k end.

(** What a cache relies on in the view behind it: reading shows the records
    [view_coins], none of them pruned, and changes nothing that can be seen; a
    batch write that succeeds puts the dirty entries over them. *)
Class CoinsViewLaws (V : Type) `{HostOrder} `{CoinsViewVtable V} := {
  view_ok : V -> Prop;
  view_coins : V -> uint256 -> option coins;
  view_best : V -> uint256;
  same_view (v v' : V) : Prop :=
    (forall k, length k = 32%nat -> view_coins v k = view_coins v' k) /\ view_best v = view_best v';
  view_best_length v : view_ok v -> length (view_best v) = 32%nat;
  view_live v k w : view_ok v -> length k = 32%nat -> view_coins v k = Some w -> coins_is_pruned w = false;
  view_get v k : view_ok v -> length k = 32%nat ->
    exists v', coins_view_get_coins v k = Some (v', view_coins v k) /\ view_ok v' /\ same_view v v';
  view_get_best v : view_ok v ->
    exists v' o, coins_view_get_best_block v = Some (v', o) /\ default uint256_set_null o = view_best v /\
    view_ok v' /\ same_view v v';
  view_write f v m M h v' m' : vt_batch_write = Some f -> view_ok v -> coins_map_repr m M -> length h = 32%nat ->
    f v m h = Some (v', m', true) ->
    view_ok v' /\ (forall k, length k = 32%nat -> view_coins v' k = written M (view_coins v) k) /\
    view_best v' = (if uint256_is_null h then view_best v else h);
  view_merge v uc : view_ok v -> view_ok (vt_merge v uc) /\ same_view v (vt_merge v uc);
}.

#[export] Instance same_view_equivalence `{CoinsViewLaws V} : Equivalence same_view.
Proof.
  split.
  - done.
  - intros v v' [E B]. split; [intros; symmetry; auto|done].
  - intros v1 v2 v3 [E B] [E' B']. split; [intros; etrans; [by apply E|by apply E']|congruence].
Qed.

(** ** What a cache shows *)

Section CacheSpec.
Context `{Allocator} `{HostOrder} `{CommitmentSkip} {V : Type} `{!CoinsViewVtable V} `{!CoinsViewLaws V} (Mem : memory_ok).
Abbreviation cache := (coins_view_cache V).

Definition cache_coins_at (c : cache) (k : uint256) : option coins :=
  match coins_map_find (cache_coins c) k with
  | Some s => e ← entry_at (cache_coins c) s; live (e_coins e)
  | None => view_coins (c_base c) k
  end.
Definition cache_best (c : cache) : uint256 :=
  if uint256_is_null (hash_block c) then view_best (c_base c) else hash_block c.

(** The table is [M], and what is not dirty in it agrees with the view behind. *)
Record cache_repr (c : cache) (M : gmap uint256 coins_cache_entry) : Prop := {
  cr_base : view_ok (c_base c);
  cr_map : coins_map_repr (cache_coins c) M;
  cr_room : has_room (cache_coins c);
  cr_clean k e : M !! k = Some e -> dirty e = false -> live (e_coins e) = view_coins (c_base c) k;
  cr_hash : length (hash_block c) = 32%nat;
}.
Definition cache_ok (c : cache) : Prop := exists M, cache_repr c M.

Lemma cache_coins_at_repr c M k : cache_repr c M -> length k = 32%nat ->
  cache_coins_at c k = overlay M (view_coins (c_base c)) k.
Proof.
  intros R L. unfold cache_coins_at, overlay. pose proof (find_repr _ _ k (cr_map _ _ R) L) as F.
  destruct (coins_map_find (cache_coins c) k) as [s|]; [|by rewrite F].
  destruct F as (e & Hs & ->). by rewrite (entry_at_some _ _ _ _ Hs).
Qed.

Lemma uint256_null_eq h : uint256_is_null h = true -> length h = 32%nat -> h = uint256_set_null.
Proof.
  unfold uint256_is_null, uint256_set_null. intros N <-. induction h as [|b h IH]; [done|]. cbn in *.
  apply andb_true_iff in N as [->%Z.eqb_eq N]. by rewrite <- IH.
Qed.

Lemma coins_copy_id v : coins_copy v = v.
Proof. unfold coins_copy. rewrite Mem. by rewrite andb_false_r. Qed.

Lemma live_some v w : live v = Some w -> w = v /\ coins_is_pruned w = false.
Proof. unfold live. destruct (coins_is_pruned v) eqn:E; [done|]. by intros [= ->]. Qed.
Lemma live_id v : coins_is_pruned v = false -> live v = Some v.
Proof. unfold live. by intros ->. Qed.

(** Changes to the other fields show nothing. *)
Definition same_store (c c' : cache) : Prop :=
  c_base c' = c_base c /\ cache_coins c' = cache_coins c /\ hash_block c' = hash_block c.
Lemma account_store c a b : same_store c (coins_view_cache_account_vout_resize c a b) /\
  commitment (coins_view_cache_account_vout_resize c a b) = commitment c.
Proof. unfold coins_view_cache_account_vout_resize. by repeat case_match. Qed.
Lemma same_store_repr c c' M : same_store c c' -> cache_repr c M -> cache_repr c' M.
Proof. intros (E1 & E2 & E3) [B Mp Ro Cl Hh]. split; rewrite ?E1, ?E2, ?E3; done. Qed.

Lemma key_length m M k e : coins_map_repr m M -> M !! k = Some e -> length k = 32%nat.
Proof. intros R E. apply (holds_repr _ _ (repr_holds _ _ R)) in E as [q Hq]. eapply holds_keys; [apply R|exact Hq]. Qed.

(** The base may move to a state that shows the same. *)
Lemma with_base_repr c M b : cache_repr c M -> view_ok b -> same_view (c_base c) b -> cache_repr (with_base c b) M.
Proof.
  intros [B Mp Ro Cl Hh] Hb [Eb _]. split; cbn; [done..| |done].
  intros k e Hk D. rewrite <- Eb by (by eapply key_length). by apply Cl.
Qed.

(** *** Pointers into the table *)

Definition points (m : coins_map) (s : nat) (k : uint256) (e : coins_cache_entry) : Prop := buckets m !! s = Some (Some (k, e)).

Lemma points_entry m s k e : points m s k e -> entry_at m s = Some e.
Proof. apply entry_at_some. Qed.

Lemma set_entry_points m M s k e e' : coins_map_repr m M -> has_room m -> points m s k e ->
  coins_map_repr (set_entry m s e') (<[k := e']> M) /\ has_room (set_entry m s e') /\ points (set_entry m s e') s k e'.
Proof.
  intros R Room P. destruct (set_entry_repr m M s k e e' R P) as (R' & N & Z & P' & _). split_and!; [done| |done].
  unfold has_room. by rewrite N, Z.
Qed.

Lemma set_entry_id m s k e : points m s k e -> set_entry m s e = m.
Proof. unfold set_entry, points. intros P. rewrite P, list_insert_id by done. by destruct m. Qed.

Lemma find_points m M k : coins_map_repr m M -> length k = 32%nat ->
  match coins_map_find m k with
  | Some s => exists e, points m s k e /\ M !! k = Some e
  | None => M !! k = None
  end.
Proof. apply find_repr. Qed.

Lemma insert_points m M k : coins_map_repr m M -> has_room m -> length k = 32%nat ->
  exists m' s, coins_map_insert m k = Some (m', Some s) /\ points m' s k (default_entry M k) /\
  coins_map_repr m' (<[k := default_entry M k]> M) /\ has_room m'.
Proof. intros R Room L. destruct (insert_repr m M k Mem R Room L) as (m' & s & E & R' & Room' & _ & P).
  exists m', s. split_and!; [exact E|exact P|exact R'|exact Room']. Qed.

Lemma mark_dirty f e : dirty (mark (COINS_CACHE_DIRTY .| f) e) = true.
Proof.
  unfold dirty, mark, COINS_CACHE_DIRTY. cbn [e_flags]. apply negb_true_iff, Z.eqb_neq.
  rewrite Z.land_lor_distr_l, Z.land_lor_distr_l. rewrite !Z.lor_eq_0_iff. by intros (_ & ? & _).
Qed.

Lemma store_spec (c : cache) s k e v : points (cache_coins c) s k e ->
  exists c', store_coins c s v = Some c' /\ c_base c' = c_base c /\ hash_block c' = hash_block c /\
  commitment c' = commitment c /\ cache_coins c' = set_entry (cache_coins c) s (mk_entry v (e_flags e)).
Proof.
  intros P. unfold store_coins. rewrite (points_entry _ _ _ _ P). eexists. split; [reflexivity|].
  match goal with |- context [coins_view_cache_account_vout_resize ?c ?a ?b] => destruct (account_store c a b) as [(-> & -> & ->) ->] end.
  done.
Qed.

(** Writing a dirty entry through a pointer. *)
Lemma write_repr c M s k e e' : cache_repr c M -> points (cache_coins c) s k e -> dirty e' = true ->
  cache_repr (with_map c (set_entry (cache_coins c) s e')) (<[k := e']> M) /\
  points (set_entry (cache_coins c) s e') s k e'.
Proof.
  intros [B Mp Ro Cl Hh] P D. destruct (set_entry_points _ _ s k e e' Mp Ro P) as (R & Room & P').
  split; [|done]. split; cbn; [done..| |done]. intros k' e1. destruct (decide (k' = k)) as [->|N].
  - rewrite lookup_insert_eq. intros [= <-]. congruence.
  - rewrite lookup_insert_ne by done. apply Cl.
Qed.

(** Storing what the view behind shows for a key that is not in the table. *)
Lemma fetch_repr c M k v : cache_repr c M -> length k = 32%nat -> M !! k = None -> view_coins (c_base c) k = Some v ->
  exists m s c', coins_map_insert (cache_coins c) k = Some (m, Some s) /\ store_coins (with_map c m) s v = Some c' /\
  cache_repr c' (<[k := mk_entry v 0]> M) /\ points (cache_coins c') s k (mk_entry v 0) /\
  c_base c' = c_base c /\ commitment c' = commitment c /\ hash_block c' = hash_block c.
Proof.
  intros R L Hk Hv. pose proof R as [B Mp Ro Cl Hh].
  destruct (insert_points _ _ k Mp Ro L) as (m & s & E & P & R' & Room').
  assert (default_entry M k = fresh_entry) as Df by (unfold default_entry; by rewrite Hk). rewrite Df in *.
  destruct (set_entry_points _ _ s k _ (mk_entry v 0) R' Room' P) as (R2 & Room2 & P2). rewrite insert_insert_eq in R2.
  destruct (store_spec (with_map c m) s k _ v P) as (c' & St & Eb & Eh & Ec & Em). exists m, s, c'.
  split_and!; [done|done| |rewrite Em; exact P2|done..].
  split; rewrite ?Eb, ?Em, ?Eh; cbn; [done..| |done].
  intros k' e1. destruct (decide (k' = k)) as [->|N].
  - rewrite lookup_insert_eq. intros [= <-] _. cbn. rewrite Hv. apply live_id. exact (view_live _ _ _ B L Hv).
  - rewrite lookup_insert_ne by done. apply Cl.
Qed.

(** *** Reading *)

(** What the cache shows, in terms of its table. *)
Definition shows (c : cache) (M : gmap uint256 coins_cache_entry) : uint256 -> option coins := overlay M (view_coins (c_base c)).

(** The records of a table stay in it. *)
Definition retains (M M' : gmap uint256 coins_cache_entry) : Prop :=
  forall k e, M !! k = Some e -> exists e', M' !! k = Some e' /\ e_coins e' = e_coins e.

Lemma retains_refl M : retains M M.
Proof. intros k e E. by exists e. Qed.
Lemma retains_trans M1 M2 M3 : retains M1 M2 -> retains M2 M3 -> retains M1 M3.
Proof. intros R1 R2 k e E. destruct (R1 k e E) as (e1 & E1 & <-). destruct (R2 k e1 E1) as (e2 & E2 & <-). by exists e2. Qed.
Lemma retains_insert M k e : (forall e0, M !! k = Some e0 -> e_coins e = e_coins e0) -> retains M (<[k := e]> M).
Proof.
  intros H' k' e' E. destruct (decide (k' = k)) as [->|N].
  - rewrite lookup_insert_eq. exists e. split; [done|]. by apply H'.
  - rewrite lookup_insert_ne by done. by exists e'.
Qed.

(** A step that changes nothing that can be seen. *)
Definition quiet (c c' : cache) (M M' : gmap uint256 coins_cache_entry) : Prop :=
  cache_repr c' M' /\ (forall k, length k = 32%nat -> shows c M k = shows c' M' k) /\
  view_best (c_base c) = view_best (c_base c') /\ hash_block c' = hash_block c /\ commitment c' = commitment c /\
  retains M M'.

Lemma quiet_trans c1 c2 c3 M1 M2 M3 : quiet c1 c2 M1 M2 -> quiet c2 c3 M2 M3 -> quiet c1 c3 M1 M3.
Proof.
  intros (R1 & S1 & B1 & H1' & C1 & T1) (R2 & S2 & B2 & H2' & C2 & T2). split_and!; [done| |congruence..|by eapply retains_trans].
  intros k L. etrans; [by apply S1|by apply S2].
Qed.

Lemma quiet_refl c M : cache_repr c M -> quiet c c M M.
Proof. intros R. split_and!; try done. apply retains_refl. Qed.

Lemma shows_same_base c b M k : same_view (c_base c) b -> length k = 32%nat -> shows c M k = shows (with_base c b) M k.
Proof. intros [E _] L. unfold shows, overlay. cbn. by rewrite E by done. Qed.

Lemma base_quiet c M b : cache_repr c M -> view_ok b -> same_view (c_base c) b -> quiet c (with_base c b) M M.
Proof.
  intros R Hb Eb. split_and!; [by apply with_base_repr| |by apply Eb|done..|apply retains_refl]. intros k L. by apply shows_same_base.
Qed.

(** Reading a record: the miss is filled from the view behind. *)
Lemma fetch_quiet c M k v : cache_repr c M -> length k = 32%nat -> M !! k = None -> view_coins (c_base c) k = Some v ->
  exists m s c', coins_map_insert (cache_coins c) k = Some (m, Some s) /\ store_coins (with_map c m) s v = Some c' /\
  quiet c c' M (<[k := mk_entry v 0]> M) /\ points (cache_coins c') s k (mk_entry v 0).
Proof.
  intros R L Hk Hv. destruct (fetch_repr c M k v R L Hk Hv) as (m & s & c' & E & St & R' & P & Eb & Ec & Eh).
  exists m, s, c'. split_and!; [done|done| |done]. split_and!; [done| |by rewrite Eb|done|done|apply retains_insert; intros; congruence].
  intros k' L'. unfold shows, overlay. rewrite Eb. destruct (decide (k' = k)) as [->|N].
  - rewrite lookup_insert_eq, Hk. cbn. rewrite live_id; [done|]. exact (view_live _ _ _ (cr_base _ _ R) L Hv).
  - by rewrite lookup_insert_ne by done.
Qed.

Lemma shows_live c M k v : cache_repr c M -> length k = 32%nat -> shows c M k = Some v -> coins_is_pruned v = false.
Proof.
  intros R L. unfold shows, overlay. destruct (M !! k) as [e|].
  - intros E. by apply live_some in E as [-> ?].
  - intros E. exact (view_live _ _ _ (cr_base _ _ R) L E).
Qed.

Lemma get_coins_spec c M k : cache_repr c M -> length k = 32%nat ->
  exists c' M', coins_view_cache_get_coins c k = Some (c', shows c M k) /\ quiet c c' M M'.
Proof.
  intros R L. unfold coins_view_cache_get_coins, shows, overlay. pose proof (find_points _ _ k (cr_map _ _ R) L) as F.
  destruct (coins_map_find (cache_coins c) k) as [s|].
  - destruct F as (e & P & ->). rewrite (points_entry _ _ _ _ P). exists c, M. split; [|by apply quiet_refl].
    unfold live. by rewrite coins_copy_id.
  - rewrite F. destruct (view_get (c_base c) k (cr_base _ _ R) L) as (b & E & Hb & Sb). rewrite E. cbn [fst snd].
    pose proof (base_quiet c M b R Hb Sb) as Q. pose proof (proj1 Q) as Rb.
    destruct (view_coins (c_base c) k) as [v|] eqn:Ev; [|by exists (with_base c b), M].
    assert (view_coins b k = Some v) as Ev' by (rewrite <- Ev; symmetry; by apply Sb).
    destruct (fetch_quiet (with_base c b) M k v Rb L F Ev') as (m & s & c' & Ei & St & Q' & _).
    rewrite Ei. cbn [fst snd]. rewrite St. exists c'. eexists. split; [|by eapply quiet_trans].
    rewrite coins_copy_id. by rewrite (view_live _ _ _ Hb L Ev').
Qed.

Lemma have_coins_spec c M k : cache_repr c M -> length k = 32%nat ->
  exists c', coins_view_cache_have_coins c k = Some (c', bool_decide (is_Some (shows c M k))) /\ quiet c c' M M.
Proof.
  intros R L. unfold coins_view_cache_have_coins, shows, overlay. pose proof (find_points _ _ k (cr_map _ _ R) L) as F.
  destruct (coins_map_find (cache_coins c) k) as [s|].
  - destruct F as (e & P & ->). rewrite (points_entry _ _ _ _ P). exists c. split; [|by apply quiet_refl].
    unfold live. by destruct (coins_is_pruned (e_coins e)).
  - rewrite F. destruct (view_get (c_base c) k (cr_base _ _ R) L) as (b & E & Hb & Sb). rewrite E. cbn [fst snd].
    exists (with_base c b). split; [|by apply base_quiet]. by destruct (view_coins (c_base c) k).
Qed.

Lemma get_best_spec c M : cache_repr c M ->
  exists c', coins_view_cache_get_best_block c = Some (c', cache_best c) /\ cache_best c' = cache_best c /\
  cache_repr c' M /\ (forall k, length k = 32%nat -> shows c M k = shows c' M k) /\ commitment c' = commitment c.
Proof.
  intros R. unfold coins_view_cache_get_best_block, cache_best. destruct (uint256_is_null (hash_block c)) eqn:N.
  - destruct (view_get_best (c_base c) (cr_base _ _ R)) as (b & o & E & Eo & Hb & Sb). rewrite E. cbn [fst snd].
    pose proof (base_quiet c M b R Hb Sb) as (Rb & Sh & _ & _ & _).
    assert (hash_block c = uint256_set_null) as En by (apply uint256_null_eq; [done|apply R]).
    set (c' := coins_view_cache_set_best_block (with_base c b) (default (hash_block c) o)).
    assert (hash_block c' = view_best (c_base c)) as Eh by (cbn; by rewrite En).
    exists c'. split; [by rewrite Eh|]. split.
    { rewrite Eh. cbn. destruct (uint256_is_null (view_best (c_base c))); [|done]. symmetry. apply Sb. }
    split; [|split; [exact Sh|reflexivity]]. destruct Rb as [B Mp Ro Cl Hh]. split; [exact B|exact Mp|exact Ro|exact Cl|].
    rewrite Eh. apply view_best_length, R.
  - exists c. by rewrite N.
Qed.

(** *** Inputs *)

(** The live output an outpoint names. *)
Definition output_at (f : uint256 -> option coins) (op : outpoint) : option tx_out :=
  v ← f (op_hash op); o ← c_vout v !! Z.to_nat (op_n op); if tx_out_is_null o then None else Some o.

Lemma output_live v n :
  match c_vout v !! n with None => None | Some o => if tx_out_is_null o then None else Some o end =
  (w ← live v; o ← c_vout w !! n; if tx_out_is_null o then None else Some o).
Proof.
  unfold live. destruct (coins_is_pruned v) eqn:E; cbn; [|by destruct (c_vout v !! n)].
  destruct (c_vout v !! n) as [o|] eqn:Eo; [|done]. unfold coins_is_pruned, coins_math_is_pruned in E.
  rewrite forallb_forall in E. rewrite E; [done|]. apply list_elem_of_In, list_elem_of_lookup. eauto.
Qed.

Lemma get_output_spec c M i : cache_repr c M -> length (op_hash (prevout i)) = 32%nat ->
  exists c' M', coins_view_cache_get_output_for c i = Some (c', output_at (shows c M) (prevout i)) /\ quiet c c' M M'.
Proof.
  intros R L. unfold coins_view_cache_get_output_for, output_at. cbv zeta. set (k := op_hash (prevout i)) in *.
  pose proof (find_points _ _ k (cr_map _ _ R) L) as F. unfold shows, overlay.
  destruct (coins_map_find (cache_coins c) k) as [s|].
  - destruct F as (e & P & ->). rewrite (points_entry _ _ _ _ P). exists c, M. split; [|by apply quiet_refl].
    by rewrite output_live.
  - rewrite F. destruct (view_get (c_base c) k (cr_base _ _ R) L) as (b & E & Hb & Sb). rewrite E. cbn [fst snd].
    pose proof (base_quiet c M b R Hb Sb) as Q. pose proof (proj1 Q) as Rb.
    destruct (view_coins (c_base c) k) as [v|] eqn:Ev; [|by exists (with_base c b), M].
    assert (view_coins b k = Some v) as Ev' by (rewrite <- Ev; symmetry; by apply Sb).
    destruct (fetch_quiet (with_base c b) M k v Rb L F Ev') as (m & s & c' & Ei & St & Q' & P).
    rewrite Ei. cbn [fst snd]. rewrite St. eexists _, _. split.
    { rewrite output_live, live_id; [reflexivity|]. exact (view_live _ _ _ Hb L Ev'). }
    eapply quiet_trans; [exact Q|]. eapply quiet_trans; [exact Q'|]. rewrite (set_entry_id _ _ _ _ P).
    assert (with_map c' (cache_coins c') = c') as -> by (by destruct c'). apply quiet_refl, Q'.
Qed.

Definition inputs_wf (l : list tx_in) : Prop := Forall (fun i => length (op_hash (prevout i)) = 32%nat) l.

Lemma output_at_ext f g op : (forall k, length k = 32%nat -> f k = g k) -> length (op_hash op) = 32%nat -> output_at f op = output_at g op.
Proof. intros E L. unfold output_at. by rewrite E. Qed.

Lemma quiet_output c c' M M' i : quiet c c' M M' -> length (op_hash (prevout i)) = 32%nat ->
  output_at (shows c' M') (prevout i) = output_at (shows c M) (prevout i).
Proof. intros (_ & S & _) L. apply output_at_ext; [|done]. intros k Lk. symmetry. by apply S. Qed.

Lemma inputs_present_spec c M l : cache_repr c M -> inputs_wf l ->
  exists c' M', inputs_present c l = Some (c', forallb (fun i => bool_decide (is_Some (output_at (shows c M) (prevout i)))) l) /\
  quiet c c' M M'.
Proof.
  intros R W. revert c M R. induction W as [|i l L W IH]; intros c M R; [exists c, M; by split; [|apply quiet_refl]|].
  cbn [inputs_present forallb]. destruct (get_output_spec c M i R L) as (c1 & M1 & E & Q). rewrite E. cbn [fst snd].
  destruct (output_at (shows c M) (prevout i)) as [o|]; cbn; [|by exists c1, M1].
  destruct (IH c1 M1 (proj1 Q)) as (c2 & M2 & E2 & Q2). rewrite E2. exists c2, M2. split; [|by eapply quiet_trans].
  do 2 f_equal. clear -Q W. induction W as [|j l L W IH]; [done|]. cbn. f_equal; [|exact IH].
  by rewrite (quiet_output _ _ _ _ _ Q L).
Qed.

(** The outputs a transaction spends, if all are there. *)
Definition spent_outputs (f : uint256 -> option coins) (l : list tx_in) : option (list tx_out) :=
  mapM (fun i => output_at f (prevout i)) l.

Lemma spent_present f l :
  forallb (fun i => bool_decide (is_Some (output_at f (prevout i)))) l = bool_decide (is_Some (spent_outputs f l)).
Proof.
  unfold spent_outputs. induction l as [|i l IH]; [done|]. cbn. rewrite IH.
  destruct (output_at f (prevout i)); [|done]. cbn. by destruct (mapM _ l).
Qed.

(** What a running total makes of the terms that follow it. *)
Definition money_from (total : Z) (l : list Z) : option Z :=
  if forallb MoneyRange l && MoneyRange (total + sum_list l) then Some (total + sum_list l) else None.

Lemma money_from_cons total v l : 0 <= total <= MAX_MONEY ->
  money_from total (v :: l) = if MoneyRange v && MoneyRange (total + v) then money_from (total + v) l else None.
Proof.
  intros Ht. unfold money_from. cbn [forallb sum_list]. rewrite Z.add_assoc.
  destruct (MoneyRange v) eqn:Ev; [|done]. cbn [andb]. destruct (MoneyRange (total + v)) eqn:Et; [done|].
  apply MoneyRange_spec in Ev. apply MoneyRange_false in Et. destruct (forallb MoneyRange l) eqn:Ef; [|done]. cbn [andb].
  assert (0 <= sum_list l).
  { apply sum_list_nonneg, Forall_forall. intros x Hx. apply list_elem_of_In in Hx.
    pose proof (proj1 (forallb_forall _ _) Ef x Hx) as E. apply MoneyRange_spec in E. lia. }
  rewrite (proj2 (MoneyRange_false _)); [done|lia].
Qed.

Lemma money_from_nil total : 0 <= total <= MAX_MONEY -> money_from total [] = Some total.
Proof. intros Ht. unfold money_from. cbn [forallb sum_list andb]. rewrite Z.add_0_r. by rewrite (proj2 (MoneyRange_spec total) Ht). Qed.

Lemma money_from_range total l t : money_from total l = Some t -> 0 <= t <= MAX_MONEY.
Proof. unfold money_from. destruct (_ && _) eqn:E; [|done]. intros [= <-]. apply andb_true_iff in E as [_ E]. by apply MoneyRange_spec. Qed.

Lemma money_from_app total l l' : 0 <= total <= MAX_MONEY -> money_from total (l ++ l') = money_from total l ≫= fun t => money_from t l'.
Proof.
  revert total. induction l as [|v l IH]; intros total Ht; cbn [app].
  - by rewrite money_from_nil.
  - rewrite !money_from_cons by done. destruct (MoneyRange v && MoneyRange (total + v)) eqn:E; [|done].
    apply andb_true_iff in E as [_ E]. apply MoneyRange_spec in E. by apply IH.
Qed.

Lemma money_total_from l : money_total l = default (-1) (money_from 0 l).
Proof. unfold money_total, money_from. cbn [Z.add]. by destruct (_ && _). Qed.

Lemma spent_outputs_ext f g l : (forall k, length k = 32%nat -> f k = g k) -> inputs_wf l -> spent_outputs f l = spent_outputs g l.
Proof.
  intros E W. unfold spent_outputs. induction W as [|i l L W IH]; [done|]. cbn. rewrite IH. by rewrite (output_at_ext f g) by done.
Qed.

Lemma quiet_spent c c' M M' l : quiet c c' M M' -> inputs_wf l -> spent_outputs (shows c' M') l = spent_outputs (shows c M) l.
Proof. intros (_ & S & _) W. apply spent_outputs_ext; [|done]. intros k L. symmetry. by apply S. Qed.

Lemma input_values_spec c M total l : cache_repr c M -> inputs_wf l -> 0 <= total <= MAX_MONEY ->
  exists c' M', input_values c total l = Some (c', spent_outputs (shows c M) l ≫= fun outs => money_from total (map value outs)) /\
  quiet c c' M M'.
Proof.
  intros R W. revert c M R total. induction W as [|i l L W IH]; intros c M R total Ht.
  { exists c, M. split; [|by apply quiet_refl]. cbn [input_values]. unfold spent_outputs. cbn. by rewrite money_from_nil. }
  cbn [input_values]. destruct (get_output_spec c M i R L) as (c1 & M1 & E & Q). rewrite E. cbn [fst snd].
  unfold spent_outputs. cbn [mapM]. fold (spent_outputs (shows c M) l).
  destruct (output_at (shows c M) (prevout i)) as [o|]; cbn; [|by exists c1, M1].
  destruct (MoneyRange (value o)) eqn:Eo; cbn [negb].
  2:{ exists c1, M1. split; [|done]. destruct (spent_outputs (shows c M) l) as [outs|]; [|done]. cbn.
      rewrite money_from_cons by done. by rewrite Eo. }
  pose proof (proj1 (MoneyRange_spec _) Eo) as Ro. rewrite s64_ok by (unfold MAX_MONEY, COIN in *; lia).
  destruct (MoneyRange (total + value o)) eqn:Et; cbn [negb].
  - apply MoneyRange_spec in Et as Rt. destruct (IH c1 M1 (proj1 Q) _ Rt) as (c2 & M2 & E2 & Q2). rewrite E2.
    exists c2, M2. split; [|by eapply quiet_trans]. rewrite (quiet_spent _ _ _ _ _ Q W).
    destruct (spent_outputs (shows c M) l) as [outs|]; [|done]. cbn. rewrite money_from_cons by done. by rewrite Eo, Et.
  - exists c1, M1. split; [|done]. destruct (spent_outputs (shows c M) l) as [outs|]; [|done]. cbn.
    rewrite money_from_cons by done. by rewrite Eo, Et.
Qed.

Lemma vpub_new_values_spec total l : 0 <= total <= MAX_MONEY -> Forall (fun js => 0 <= vpub_new js <= 2 ^ 63 - 1 - MAX_MONEY) l ->
  vpub_new_values total l = Some (money_from total (map vpub_new l)).
Proof.
  intros Ht Hl. revert total Ht. induction Hl as [|js l Hv _ IH]; intros total Ht; cbn [vpub_new_values map].
  { by rewrite money_from_nil. }
  rewrite s64_ok by (unfold MAX_MONEY, COIN in *; lia). rewrite money_from_cons by done.
  destruct (MoneyRange (total + vpub_new js)) eqn:Et; cbn [negb]; [|by rewrite andb_false_r].
  apply MoneyRange_spec in Et as Rt. rewrite IH by done. by rewrite (proj2 (MoneyRange_spec (vpub_new js))) by lia.
Qed.

(** The shielded fields as the structural checks leave them. *)
Definition shielded_terms_ok (tx : transaction) : Prop :=
  - MAX_MONEY <= value_balance tx <= MAX_MONEY /\ Forall (fun js => 0 <= vpub_new js <= MAX_MONEY) (v_joinsplit tx).

Lemma get_value_in_spec c M tx : cache_repr c M -> transaction_is_coinbase tx = false -> inputs_wf (vin tx) -> shielded_terms_ok tx ->
  exists c' M', coins_view_cache_get_value_in c tx =
    Some (c', match spent_outputs (shows c M) (vin tx) with
              | None => -1
              | Some outs => money_total (map value outs ++ shielded_in_terms tx)
              end) /\ quiet c c' M M'.
Proof.
  intros R Nc W [Hb Hj]. unfold coins_view_cache_get_value_in. rewrite Nc.
  destruct (input_values_spec c M 0 (vin tx) R W) as (c1 & M1 & E & Q); [unfold MAX_MONEY, COIN; lia|]. rewrite E. cbn [fst snd].
  exists c1, M1. destruct (spent_outputs (shows c M) (vin tx)) as [outs|]; [|done]. cbn [mbind option_bind].
  rewrite money_total_from, money_from_app by (unfold MAX_MONEY, COIN; lia).
  destruct (money_from 0 (map value outs)) as [t|] eqn:Et; [|done]. cbn [mbind option_bind].
  apply money_from_range in Et as Rt. unfold shielded_in_terms.
  assert (Forall (fun js => 0 <= vpub_new js <= 2 ^ 63 - 1 - MAX_MONEY) (v_joinsplit tx)) as Hj'.
  { eapply Forall_impl; [exact Hj|]. intros js Hs. unfold MAX_MONEY, COIN in *. cbn beta in *. lia. }
  destruct (Z.leb_spec 0 (value_balance tx)) as [Hv|Hv]; cbn [app].
  - rewrite s64_ok by (unfold MAX_MONEY, COIN in *; lia). rewrite money_from_cons by done.
    rewrite (proj2 (MoneyRange_spec (value_balance tx))) by lia. cbn [andb].
    destruct (MoneyRange (t + value_balance tx)) eqn:E2; cbn [negb]; [|done]. apply MoneyRange_spec in E2.
    by rewrite vpub_new_values_spec by done.
  - by rewrite vpub_new_values_spec by done.
Qed.

(** *** Writing *)

Lemma set_entry_twice m s k e e1 e2 : points m s k e -> set_entry (set_entry m s e1) s e2 = set_entry m s e2.
Proof.
  unfold points, set_entry. intros P. rewrite P. cbn. rewrite list_lookup_insert_eq by (by eapply lookup_lt).
  by rewrite list_insert_insert_eq.
Qed.

(** A pointer to a dirty entry that shows what the cache showed. *)
Lemma modify_spec c M k : cache_repr c M -> length k = 32%nat ->
  exists c' s e, coins_view_cache_modify c k = Some (c', Some s) /\ points (cache_coins c') s k e /\ dirty e = true /\
  e_coins e = default coins_init (match M !! k with Some e0 => Some (e_coins e0) | None => view_coins (c_base c) k end) /\
  quiet c c' M (<[k := e]> M).
Proof.
  intros R L. unfold coins_view_cache_modify. pose proof (find_points _ _ k (cr_map _ _ R) L) as F.
  destruct (coins_map_find (cache_coins c) k) as [s|].
  - destruct F as (e & P & Ek). rewrite (points_entry _ _ _ _ P), Ek. pose proof (mark_dirty 0 e) as D.
    destruct (write_repr c M s k e _ R P D) as [R' P']. eexists _, s, _. split; [done|]. split; [exact P'|]. split; [exact D|].
    split; [done|]. split_and!; [exact R'| |done..|apply retains_insert; intros e0 E0; rewrite Ek in E0; by injection E0 as <-]. intros k' L'. unfold shows, overlay. cbn.
    destruct (decide (k' = k)) as [->|N]; [by rewrite lookup_insert_eq, Ek|by rewrite lookup_insert_ne by done].
  - rewrite F. destruct R as [B Mp Ro Cl Hh] eqn:ER. destruct (insert_points _ _ k Mp Ro L) as (m & s & E & P & R' & Room').
    assert (default_entry M k = fresh_entry) as Df by (unfold default_entry; by rewrite F). rewrite Df in *.
    rewrite E. cbn [fst snd with_map cache_coins c_base]. rewrite (points_entry _ _ _ _ P).
    destruct (view_get (c_base c) k B L) as (b & Eg & Hb & Sb). rewrite Eg. cbn [fst snd]. clear ER.
    set (v := default (e_coins fresh_entry) (view_coins (c_base c) k)).
    destruct (store_spec (with_base (with_map c m) b) s k _ v P) as (c1 & St & Eb & Eh & Ec & Em). rewrite St.
    set (e1 := mark COINS_CACHE_DIRTY (mk_entry v (e_flags fresh_entry))).
    destruct (set_entry_points m _ s k fresh_entry e1 R' Room' P) as (R2 & Room2 & P2). rewrite insert_insert_eq in R2.
    eexists _, s, e1. split; [reflexivity|]. unfold quiet, shows, overlay. cbn [cache_coins with_map c_base hash_block commitment].
    rewrite Eb, Eh, Ec, Em. cbn [cache_coins with_map with_base c_base hash_block commitment].
    rewrite (set_entry_twice _ _ _ _ _ _ P). split; [exact P2|]. split; [apply (mark_dirty 0)|]. split; [done|].
    split_and!; [| |by apply Sb|done..|apply retains_insert; intros; congruence].
    + split; cbn [cache_coins with_map c_base hash_block]; rewrite ?Eb, ?Em, ?Eh; cbn [cache_coins with_map with_base c_base hash_block];
        rewrite ?(set_entry_twice _ _ _ _ _ _ P); [done..| |done]. intros k' e'. destruct (decide (k' = k)) as [->|N].
      * rewrite lookup_insert_eq. intros [= <-]. pose proof (mark_dirty 0 (mk_entry v (e_flags fresh_entry)) : dirty e1 = true). congruence.
      * rewrite lookup_insert_ne by done. intros Hk D. rewrite <- (proj1 Sb) by exact (key_length _ _ _ _ Mp Hk). by apply Cl.
    + intros k' L'. destruct (decide (k' = k)) as [->|N].
      * rewrite lookup_insert_eq, F. subst e1 v. cbn. destruct (view_coins (c_base c) k) as [v|] eqn:Ev; [|done].
        symmetry. apply live_id. exact (view_live _ _ _ B L Ev).
      * rewrite lookup_insert_ne by done. destruct (M !! k'); [done|]. by apply Sb.
Qed.

(** Inserting a key and writing a dirty entry through the pointer obtained. *)
Lemma put_spec c M k : cache_repr c M -> length k = 32%nat ->
  exists m s, coins_map_insert (cache_coins c) k = Some (m, Some s) /\ points m s k (default_entry M k) /\
  forall e, dirty e = true -> cache_repr (with_map c (set_entry m s e)) (<[k := e]> M) /\ points (set_entry m s e) s k e.
Proof.
  intros [B Mp Ro Cl Hh] L. destruct (insert_points _ _ k Mp Ro L) as (m & s & E & P & R' & Room'). exists m, s.
  split; [done|]. split; [done|]. intros e D.
  destruct (set_entry_points m _ s k _ e R' Room' P) as (R2 & Room2 & P2). rewrite insert_insert_eq in R2.
  split; [|exact P2]. split; [exact B|exact R2|exact Room2| |exact Hh]. intros k' e'. destruct (decide (k' = k)) as [->|N].
  - rewrite lookup_insert_eq. intros [= <-]. congruence.
  - rewrite lookup_insert_ne by done. apply Cl.
Qed.

(** A pointer to a dirty entry; nothing is promised of what the cache shows for
    the key until it is written. *)
Lemma modify_new_spec c M k : cache_repr c M -> length k = 32%nat ->
  exists c' s e, coins_view_cache_modify_new c k = Some (c', Some s) /\ points (cache_coins c') s k e /\ dirty e = true /\
  e_coins e = e_coins (default_entry M k) /\
  cache_repr c' (<[k := e]> M) /\ c_base c' = c_base c /\ hash_block c' = hash_block c /\ commitment c' = commitment c.
Proof.
  intros R L. unfold coins_view_cache_modify_new. destruct (put_spec c M k R L) as (m & s & E & P & W).
  rewrite E. cbn [fst snd with_map cache_coins]. rewrite (points_entry _ _ _ _ P).
  pose proof (mark_dirty COINS_CACHE_FRESH (default_entry M k)) as D. destruct (W _ D) as [R' P'].
  eexists _, s, _. split; [reflexivity|]. split_and!; [exact P'|exact D|done|exact R'|done..].
Qed.

(** *** Flushing a child into a cache *)

Lemma shows_insert c M k e k' : shows c (<[k := e]> M) k' = if decide (k' = k) then live (e_coins e) else shows c M k'.
Proof.
  unfold shows, overlay. case_decide as D; [subst; by rewrite lookup_insert_eq|by rewrite lookup_insert_ne by done].
Qed.

Lemma shows_base c c' M k : c_base c' = c_base c -> shows c' M k = shows c M k.
Proof. unfold shows. by intros ->. Qed.

Lemma write_bucket_spec c M k e : cache_repr c M -> length k = 32%nat -> dirty e = true ->
  exists c' e' b, write_bucket c (Some (k, e)) = Some (c', b, true) /\ cache_repr c' (<[k := e']> M) /\ e_coins e' = e_coins e /\
  c_base c' = c_base c /\ hash_block c' = hash_block c /\ commitment c' = commitment c.
Proof.
  intros R L D. unfold write_bucket. unfold dirty in D. apply negb_true_iff in D. rewrite D.
  destruct (put_spec c M k R L) as (m & s & E & P & W). rewrite E. cbn [fst snd with_map cache_coins].
  rewrite (points_entry _ _ _ _ P).
  set (e' := mark _ _). destruct (W e' (mark_dirty 0 _)) as [R' _].
  match goal with |- context [coins_view_cache_account_vout_resize ?c ?a ?b] => destruct (account_store c a b) as [Es Ec] end.
  eexists _, e', _. split; [reflexivity|]. split; [by eapply same_store_repr|]. destruct Es as (E1 & _ & E3).
  split_and!; [done|by rewrite E1|by rewrite E3|by rewrite Ec].
Qed.

Lemma write_buckets_spec l M c Mp : cache_repr c Mp -> holds l M ->
  exists c' l' Mp', write_buckets c l = Some (c', l', true) /\ cache_repr c' Mp' /\
  (forall k, length k = 32%nat -> shows c' Mp' k = written M (shows c Mp) k) /\
  c_base c' = c_base c /\ hash_block c' = hash_block c /\ commitment c' = commitment c.
Proof.
  revert M c Mp. induction l as [|o l IH]; intros M c Mp R Hl.
  - exists c, [], Mp. split_and!; try done. intros k _. unfold written. destruct (M !! k) eqn:E; [|done].
    apply (holds_repr _ _ Hl) in E as [q Hq]. done.
  - pose proof (holds_tail _ _ _ Hl) as Ht. cbn [write_buckets].
    assert (forall c, (exists b, write_bucket c o = Some (c, b, true)) -> cache_repr c Mp ->
      (forall k, length k = 32%nat -> written M (shows c Mp) k = written (match o with Some (k, _) => delete k M | None => M end) (shows c Mp) k) ->
      exists c' l' Mp', (let? r := write_bucket c o in
        match r with
        | (parent, b, true) => let? r := write_buckets parent l in match r with (parent, l, ok) => Some (parent, b :: l, ok) end
        | (parent, b, false) => Some (parent, b :: l, false)
        end) = Some (c', l', true) /\ cache_repr c' Mp' /\
      (forall k, length k = 32%nat -> shows c' Mp' k = written M (shows c Mp) k) /\
      c_base c' = c_base c /\ hash_block c' = hash_block c /\ commitment c' = commitment c) as Skip.
    { intros c1 [b ->] R1 Hw. destruct (IH _ c1 Mp R1 Ht) as (c' & l' & Mp' & -> & R' & S' & Es).
      exists c', (b :: l'), Mp'. split; [done|]. split; [done|]. split; [|done]. intros k L. by rewrite S', Hw. }
    destruct o as [[k e]|]; [|apply Skip; [by eexists|done|done]].
    assert (M !! k = Some e) as Ek by (by apply (holds_get _ _ 0 k e Hl)).
    assert (length k = 32%nat) as L by (by eapply (holds_keys _ _ Hl 0)).
    destruct (dirty e) eqn:D.
    + clear Skip. destruct (write_bucket_spec c Mp k e R L D) as (c1 & e' & b & -> & R1 & Ee & Eb & Eh & Ec).
      destruct (IH _ c1 _ R1 Ht) as (c' & l' & Mp' & -> & R' & S' & Eb' & Eh' & Ec').
      eexists c', _, Mp'. split; [done|]. split; [done|]. split; [|split_and!; congruence].
      intros k' L'. rewrite S' by done. unfold written. destruct (decide (k' = k)) as [->|N].
      * rewrite lookup_delete_eq, Ek, D, shows_insert, decide_True by done. by rewrite Ee.
      * rewrite lookup_delete_ne by done. rewrite shows_insert, decide_False by done. by rewrite (shows_base c c1) by done.
    + apply Skip; [|done|].
      * unfold write_bucket. unfold dirty in D. apply negb_false_iff in D. rewrite D. by eexists.
      * intros k' L'. unfold written. destruct (decide (k' = k)) as [->|N].
        -- by rewrite lookup_delete_eq, Ek, D.
        -- by rewrite lookup_delete_ne by done.
Qed.

Lemma batch_write_spec c Mp m M h : cache_repr c Mp -> coins_map_repr m M -> length h = 32%nat ->
  exists c' m' Mp', cvc_batch_write c m h = Some (c', m', true) /\ cache_repr c' Mp' /\
  (forall k, length k = 32%nat -> shows c' Mp' k = written M (shows c Mp) k) /\
  cache_best c' = (if uint256_is_null h then cache_best c else h) /\ c_base c' = c_base c /\ commitment c' = commitment c.
Proof.
  intros R Rm Lh. unfold cvc_batch_write.
  destruct (write_buckets_spec _ _ c Mp R (repr_holds _ _ Rm)) as (c1 & l' & Mp' & -> & R1 & S1 & Eb & Eh & Ec).
  unfold cache_best. destruct (uint256_is_null h) eqn:N.
  - eexists c1, _, Mp'. split_and!; try done. by rewrite Eh, Eb.
  - eexists (coins_view_cache_set_best_block c1 h), _, Mp'. split; [done|]. split; [|split; [exact S1|split_and!; [|done..]]].
    + destruct R1 as [B1 Mp1 Ro1 Cl1 Hh1]. split; [exact B1|exact Mp1|exact Ro1|exact Cl1|exact Lh].
    + cbn [hash_block coins_view_cache_set_best_block]. by rewrite N.
Qed.

(** *** A cache keeps the contract it relies on *)

Lemma quiet_same c c' M M' : cache_repr c M -> quiet c c' M M' ->
  cache_ok c' /\ (forall k, length k = 32%nat -> cache_coins_at c k = cache_coins_at c' k) /\ cache_best c = cache_best c'.
Proof.
  intros R (R' & S & B & Hh & _). split; [by exists M'|]. split.
  - intros k L. rewrite (cache_coins_at_repr _ _ _ R L), (cache_coins_at_repr _ _ _ R' L). by apply S.
  - unfold cache_best. by rewrite Hh, B.
Qed.

#[local] Program Instance coins_view_cache_laws : CoinsViewLaws cache := {
  view_ok := cache_ok; view_coins := cache_coins_at; view_best := cache_best;
}.
Next Obligation.
  intros c [M R]. unfold cache_best. destruct (uint256_is_null _); [apply view_best_length|]; apply R.
Qed.
Next Obligation.
  intros c k w [M R] L. rewrite (cache_coins_at_repr _ _ _ R L). apply (shows_live _ _ _ _ R L).
Qed.
Next Obligation.
  intros c k [M R] L. rewrite (cache_coins_at_repr _ _ _ R L). destruct (get_coins_spec c M k R L) as (c' & M' & E & Q).
  exists c'. split; [exact E|]. by apply (quiet_same _ _ _ _ R Q).
Qed.
Next Obligation.
  intros c [M R]. destruct (get_best_spec c M R) as (c' & E & Eb & R' & S & _). exists c', (Some (cache_best c)).
  split; [cbn; unfold cvc_get_best_block; by rewrite E|]. split; [done|]. split; [by exists M|]. split; [|done].
  intros k L. rewrite (cache_coins_at_repr _ _ _ R L), (cache_coins_at_repr _ _ _ R' L). by apply S.
Qed.
Next Obligation.
  intros f c m M h c' m' [= <-] [Mp R] Rm Lh E. destruct (batch_write_spec c Mp m M h R Rm Lh) as (c1 & m1 & Mp' & E1 & R1 & S & B & _).
  rewrite E1 in E. injection E as <- <-. split; [by exists Mp'|]. split; [|done].
  intros k L. rewrite (cache_coins_at_repr _ _ _ R1 L). etrans; [by apply S|]. unfold written.
  by rewrite (cache_coins_at_repr _ _ _ R L).
Qed.
Next Obligation.
  intros c uc [M R]. split; [exists M; by eapply (same_store_repr c)|]. split; [|done]. done.
Qed.

(** *** Flushing *)

Lemma init_cache_repr v h uc : view_ok v -> length h = 32%nat -> cache_repr (mk_cache v coins_map_init h 0 uc) ∅.
Proof. intros Hv Lh. split; [exact Hv|apply init_repr|by left|done|exact Lh]. Qed.

Lemma flush_spec c M c' : cache_repr c M -> coins_view_cache_flush_for_testing c = Some (c', true) ->
  cache_ok c' /\ (forall k, length k = 32%nat -> cache_coins_at c' k = cache_coins_at c k) /\ cache_best c' = cache_best c /\
  view_ok (c_base c') /\ (forall k, length k = 32%nat -> view_coins (c_base c') k = cache_coins_at c k) /\
  view_best (c_base c') = cache_best c.
Proof.
  intros R. unfold coins_view_cache_flush_for_testing. destruct vt_batch_write as [f|] eqn:Ef; [|done].
  destruct (f _ _ _) as [[[v m] []]|] eqn:E; [|done..]. intros [= <-].
  destruct (view_write f _ _ M _ v m Ef (cr_base _ _ R) (cr_map _ _ R) (cr_hash _ _ R) E) as (Hv & Sv & Bv).
  destruct (view_merge v (commitment c) Hv) as (Hm & Sm & Bm).
  assert (forall k, length k = 32%nat -> view_coins (vt_merge v (commitment c)) k = cache_coins_at c k) as Sh.
  { intros k L. rewrite <- Sm, Sv, (cache_coins_at_repr _ _ _ R L) by done. unfold written, overlay.
    destruct (M !! k) as [e|] eqn:Ek; [|done]. destruct (dirty e) eqn:D; [done|]. symmetry. by eapply cr_clean. }
  pose proof (init_cache_repr (vt_merge v (commitment c)) (hash_block c) utxo_commitment_init Hm (cr_hash _ _ R)) as R'.
  assert (view_best (vt_merge v (commitment c)) = cache_best c) as Hb by (by rewrite <- Bm, Bv).
  split_and!; [by exists ∅| | |exact Hm|exact Sh|exact Hb].
  - intros k L. rewrite (cache_coins_at_repr _ _ _ R' L). unfold overlay. rewrite lookup_empty. by apply Sh.
  - unfold cache_best at 1. cbn [hash_block c_base]. rewrite Hb. unfold cache_best. by destruct (uint256_is_null (hash_block c)).
Qed.

End CacheSpec.

(** Reading through a cache is transparent. Over any view that keeps the
    contract, another cache included, looking up a record, asking whether it is
    there, checking a transaction's inputs and summing its input value answer
    exactly what the cache shows (its own live records over those of the view
    behind it; the value is the sum of the inputs and of the shielded amounts when
    every term and the total are amounts of money, and -1 otherwise), never do
    anything undefined, and leave a cache that shows the same, although each miss
    fills the table and may grow it. The best block is the cache's own or, before it
    has one, that of the view behind. *)
Theorem coins_cache_reads `{Allocator} `{HostOrder} `{CommitmentSkip} {V : Type} `{!CoinsViewVtable V} `{!CoinsViewLaws V}
    (Mem : memory_ok) (c : coins_view_cache V) k tx :
  cache_ok c -> length k = 32%nat -> inputs_wf (vin tx) ->
  let transparent {A} (r : option (coins_view_cache V * A)) (a : A) :=
    exists c', r = Some (c', a) /\ cache_ok c' /\ cache_best c' = cache_best c /\
    forall k, length k = 32%nat -> cache_coins_at c' k = cache_coins_at c k in
  transparent (coins_view_cache_get_coins c k) (cache_coins_at c k) /\
  transparent (coins_view_cache_have_coins c k) (bool_decide (is_Some (cache_coins_at c k))) /\
  transparent (coins_view_cache_get_best_block c) (cache_best c) /\
  transparent (coins_view_cache_have_inputs c tx)
    (transaction_is_coinbase tx || bool_decide (is_Some (spent_outputs (cache_coins_at c) (vin tx)))) /\
  (transaction_is_coinbase tx = false -> shielded_terms_ok tx ->
   transparent (coins_view_cache_get_value_in c tx)
     (match spent_outputs (cache_coins_at c) (vin tx) with
      | None => -1
      | Some outs => money_total (map value outs ++ shielded_in_terms tx)
      end)).
Proof.
  intros [M R] L W transparent.
  assert (forall {A} (r : option (coins_view_cache V * A)) c' M' a, r = Some (c', a) -> quiet c c' M M' -> transparent A r a) as T.
  { intros A r c' M' a E Q. exists c'. destruct (quiet_same c c' M M' R Q) as (Ok & S & B). split_and!; [done..|]. intros. symmetry. by apply S. }
  assert (spent_outputs (cache_coins_at c) (vin tx) = spent_outputs (shows c M) (vin tx)) as Es.
  { apply spent_outputs_ext; [|done]. intros k' L'. by apply cache_coins_at_repr. }
  rewrite Es, (cache_coins_at_repr _ _ _ R L). split_and!.
  - destruct (get_coins_spec Mem c M k R L) as (c' & M' & E & Q). by eapply T.
  - destruct (have_coins_spec c M k R L) as (c' & E & Q). by eapply T.
  - destruct (get_best_spec c M R) as (c' & E & B & R' & S & _). exists c'. split_and!; [done|by exists M|done|].
    intros k' L'. rewrite (cache_coins_at_repr _ _ _ R L'), (cache_coins_at_repr _ _ _ R' L'). symmetry. by apply S.
  - unfold coins_view_cache_have_inputs. destruct (transaction_is_coinbase tx); cbn [orb].
    + eapply T; [done|by apply quiet_refl].
    + destruct (inputs_present_spec Mem c M (vin tx) R W) as (c' & M' & E & Q). eapply T; [|exact Q]. rewrite E. do 2 f_equal.
      by rewrite spent_present.
  - intros Nc Sh. destruct (get_value_in_spec Mem c M tx R Nc W Sh) as (c' & M' & E & Q). by eapply T.
Qed.

(** C31: flushing loses nothing. Once a batch write has succeeded, over any view that
    keeps the contract, the view behind shows exactly what the cache showed, entries
    that were never modified (and so are not written) included, its best block is
    the cache's, and the emptied cache shows the same. Over another cache the batch
    write always succeeds when memory is available. *)
Theorem coins_cache_flush `{Allocator} `{HostOrder} `{CommitmentSkip} {V : Type} `{!CoinsViewVtable V} `{!CoinsViewLaws V} :
  (forall (c c' : coins_view_cache V), cache_ok c -> coins_view_cache_flush_for_testing c = Some (c', true) ->
   cache_ok c' /\ cache_best c' = cache_best c /\ view_best (c_base c') = cache_best c /\
   forall k, length k = 32%nat -> view_coins (c_base c') k = cache_coins_at c k /\ cache_coins_at c' k = cache_coins_at c k) /\
  (memory_ok -> forall (parent : coins_view_cache V) m M h, cache_ok parent -> coins_map_repr m M -> length h = 32%nat ->
   exists parent' m', cvc_batch_write parent m h = Some (parent', m', true) /\ cache_ok parent' /\
   (forall k, length k = 32%nat -> cache_coins_at parent' k = written M (cache_coins_at parent) k) /\
   cache_best parent' = (if uint256_is_null h then cache_best parent else h) /\ commitment parent' = commitment parent).
Proof.
  split.
  - intros c c' [M R] E. destruct (flush_spec c M c' R E) as (Ok & S & B & _ & Sv & Bv). split_and!; [done..|].
    intros k L. split; [by apply Sv|by apply S].
  - intros Mem c m M h [Mp R] Rm Lh. destruct (batch_write_spec Mem c Mp m M h R Rm Lh) as (c' & m' & Mp' & E & R' & S & B & _ & Ec).
    exists c', m'. split_and!; [done|by exists Mp'| |done..]. intros k L. rewrite (cache_coins_at_repr _ _ _ R' L).
    etrans; [by apply S|]. unfold written. by rewrite (cache_coins_at_repr _ _ _ R L).
Qed.

(** A view of nothing, with no hooks. *)
#[export] Instance no_view : CoinsViewVtable unit :=
  {| vt_get_coins := None; vt_get_best_block := None; vt_batch_write := None; vt_get_anchor := None; vt_merge v _ := v |}.
#[export] Program Instance no_view_laws `{HostOrder} : CoinsViewLaws unit :=
  {| view_ok _ := True; view_coins _ _ := None; view_best _ := uint256_set_null |}.
Next Obligation. done. Qed.
Next Obligation. done. Qed.
Next Obligation. intros ? v k _ _. by exists v. Qed.
Next Obligation. intros ? v _. by exists v, None. Qed.
Next Obligation. done. Qed.
Next Obligation. done. Qed.

Section ViewWitness.
#[local] Instance view_alloc : Allocator := fun _ => true.
#[local] Instance view_host : HostOrder := false.
#[local] Instance view_on : CommitmentSkip := false.

Definition sample_coins : coins := mk_coins false [mk_tx_out 7 [0x51]] 3 1.
Definition sample_txid : uint256 := replicate 32 9.

(** A cache over a cache over nothing, holding one dirty record. *)
Definition bottom : coins_view_cache unit := coins_view_cache_init tt.
Definition stacked : coins_view_cache (coins_view_cache unit) :=
  mk_cache bottom (mk_map [None; Some (sample_txid, mk_entry sample_coins 1); None; None] 1 false) sample_txid 10016 utxo_commitment_init.

Lemma stacked_repr : cache_repr (CoinsViewLaws0 := coins_view_cache_laws (fun _ => eq_refl)) stacked {[sample_txid := mk_entry sample_coins 1]}.
Proof.
  split.
  - exists ∅. by apply init_cache_repr.
  - split.
    + apply (holds_place (replicate 4 None) ∅ 1); [apply holds_empty|done..].
    + intros q k e Hq i Hi. destruct q as [|[|[|[|q]]]]; try done. injection Hq as <- <-. exfalso. vm_compute in Hi. lia.
    + done.
    + right. cbn. lia.
  - right. cbn. lia.
  - intros k e E D. apply lookup_singleton_Some in E as [_ <-]. done.
  - done.
Qed.

Lemma coins_cache_reads_witness :
  exists c', coins_view_cache_get_coins stacked sample_txid = Some (c', Some sample_coins) /\
  cache_coins_at (CoinsViewLaws0 := coins_view_cache_laws (fun _ => eq_refl)) c' sample_txid = Some sample_coins.
Proof.
  destruct (coins_cache_reads (CoinsViewLaws0 := coins_view_cache_laws (fun _ => eq_refl)) (fun _ => eq_refl) stacked sample_txid sample_tx)
    as ((c' & E & _ & _ & S) & _); [eexists; apply stacked_repr|done|repeat constructor|].
  exists c'. split; [exact E|]. exact (S sample_txid eq_refl).
Defined.

Lemma coins_cache_flush_witness :
  exists c', coins_view_cache_flush_for_testing stacked = Some (c', true) /\
  cache_coins_at (c_base c') sample_txid = Some sample_coins.
Proof.
  destruct (coins_cache_flush (V := coins_view_cache unit) (CoinsViewLaws0 := coins_view_cache_laws (fun _ => eq_refl))) as [F _].
  destruct (coins_view_cache_flush_for_testing stacked) as [[c' []]|] eqn:E; [|vm_compute in E; done..].
  exists c'. split; [done|]. destruct (F stacked c') as (_ & _ & _ & G); [eexists; apply stacked_repr|exact E|].
  apply (G sample_txid eq_refl).
Defined.
End ViewWitness.
