(* ===== verification/Shielded.v ===== *)
(** * Shielded requirements

    Model of [coins_view_cache_check_shielded_requirements] and its helpers in
    [core/modules/coins/src/coins_view.c]: every anchor of a transaction must be a
    root the chain has had, or one made by an earlier JoinSplit of the transaction. *)

From stdpp Require Import base tactics list numbers option.
From Stdlib Require Import ZArith Lia.
From S2P Require Import Prelude Serialize ByteOrder Hash Transaction TxCheck IncrementalTree.
From S2P Require Import Coins CoinsMap UtxoCommitment CoinsView.
#[local] Open Scope Z_scope.
#[local] Open Scope list_scope.
#[local] Open Scope cint_scope.
#[local] Open Scope zres_scope.

Inductive coins_shielded_requirements_result :=
| COINS_SHIELDED_REQUIREMENTS_OK
| COINS_SHIELDED_REQUIREMENTS_MISSING_ANCHOR
| COINS_SHIELDED_REQUIREMENTS_HISTORY_INCOMPLETE
| COINS_SHIELDED_REQUIREMENTS_STORE_ERROR.
#[export] Instance requirements_eq_dec : EqDecision coins_shielded_requirements_result.
Proof. solve_decision. Defined.

(** [struct sprout_intermediate]: a root and the tree that has it. *)
Abbreviation sprout_intermediate := (uint256 * incremental_merkle_tree)%type.
Definition sizeof_sprout_intermediate : Z := 1232.

(** The roots of the two pools over their leaves. *)
Abbreviation sprout_root := (subtree SHA256_COMPRESS INCREMENTAL_MERKLE_TREE_DEPTH).
Abbreviation sapling_root := (subtree PEDERSEN SAPLING_INCREMENTAL_MERKLE_TREE_DEPTH).

Section Requirements.
Context `{Allocator} `{HostOrder} `{Pedersen} {V : Type} `{!CoinsViewVtable V}.

(** The empty tree of the pool, when [root] is its root. *)
Definition anchor_is_empty (pool : coins_anchor_pool) (root : uint256) : option (option incremental_merkle_tree) :=
  let? tree := (match pool with COINS_ANCHOR_SPROUT => sprout_tree_init | COINS_ANCHOR_SAPLING => sapling_tree_init end) in
  let? empty := incremental_tree_empty_root tree in
  Some (if negb (uint256_eq root empty) then None else Some tree).

Definition anchor_result_map (r : coins_anchor_lookup_result) : coins_shielded_requirements_result :=
  match r with
  | COINS_ANCHOR_FOUND => COINS_SHIELDED_REQUIREMENTS_OK
  | COINS_ANCHOR_MISSING => COINS_SHIELDED_REQUIREMENTS_MISSING_ANCHOR
  | COINS_ANCHOR_HISTORY_INCOMPLETE => COINS_SHIELDED_REQUIREMENTS_HISTORY_INCOMPLETE
  | COINS_ANCHOR_ERROR => COINS_SHIELDED_REQUIREMENTS_STORE_ERROR
  end.

Definition anchor_requirement (base : V) (pool : coins_anchor_pool) (root : uint256) :
    option (coins_shielded_requirements_result * option incremental_merkle_tree) :=
  let? e := anchor_is_empty pool root in
  Some (match e with
        | Some tree => (anchor_result_map COINS_ANCHOR_FOUND, Some tree)
        | None => let '(ar, tree_out) := coins_view_get_anchor base pool root in (anchor_result_map ar, tree_out)
        end).

Definition alloc_sprout_intermediates (num_joinsplit : Z) : coins_shielded_requirements_result :=
  if 0 <? num_joinsplit then
    if SIZE_MAX / sizeof_sprout_intermediate <? num_joinsplit then COINS_SHIELDED_REQUIREMENTS_STORE_ERROR
    else if negb (alloc_ok (num_joinsplit * sizeof_sprout_intermediate)) then COINS_SHIELDED_REQUIREMENTS_STORE_ERROR
    else COINS_SHIELDED_REQUIREMENTS_OK
  else COINS_SHIELDED_REQUIREMENTS_OK.

(** The tree of the first intermediate root equal to the anchor. *)
Fixpoint find_intermediate (l : list sprout_intermediate) (anchor : uint256) : option incremental_merkle_tree :=
  match l with
  | [] => None
  | (root, tree) :: l => if uint256_eq root anchor then Some tree else find_intermediate l anchor
  end.

Fixpoint append_commitments (t : incremental_merkle_tree) (l : list uint256) : option incremental_merkle_tree :=
  match l with [] => Some t | c :: l => let? t := incremental_tree_append t c in append_commitments t l end.

(** Reading the tree of an anchor that was found without one is undefined. *)
Definition record_joinsplit_intermediate (base : V) (intermediates : list sprout_intermediate) (js : js_description) :
    option (list sprout_intermediate * coins_shielded_requirements_result) :=
  let record (tree : incremental_merkle_tree) :=
    let? tree := append_commitments tree (commitments js) in
    let? r := incremental_tree_root tree in
    Some (intermediates ++ [(snd r, fst r)], COINS_SHIELDED_REQUIREMENTS_OK) in
  match find_intermediate intermediates (js_anchor js) with
  | Some tree => record tree
  | None =>
      let? r := anchor_requirement base COINS_ANCHOR_SPROUT (js_anchor js) in
      match r with
      | (COINS_SHIELDED_REQUIREMENTS_OK, tree) => let? tree := tree in record tree
      | (result, _) => Some (intermediates, result)
      end
  end.

Fixpoint record_joinsplits (base : V) (intermediates : list sprout_intermediate) (l : list js_description) :
    option coins_shielded_requirements_result :=
  match l with
  | [] => Some COINS_SHIELDED_REQUIREMENTS_OK
  | js :: l =>
      let? r := record_joinsplit_intermediate base intermediates js in
      match r with
      | (intermediates, COINS_SHIELDED_REQUIREMENTS_OK) => record_joinsplits base intermediates l
      | (_, result) => Some result
      end
  end.

Fixpoint check_spends (base : V) (l : list spend_description) : option coins_shielded_requirements_result :=
  match l with
  | [] => Some COINS_SHIELDED_REQUIREMENTS_OK
  | sd :: l =>
      let? r := anchor_requirement base COINS_ANCHOR_SAPLING (sd_anchor sd) in
      match fst r with
      | COINS_SHIELDED_REQUIREMENTS_OK => check_spends base l
      | result => Some result
      end
  end.

Definition coins_view_cache_check_shielded_requirements (c : coins_view_cache V) (tx : transaction) :
    option coins_shielded_requirements_result :=
  if (len (v_joinsplit tx) =? 0) && (len (v_shielded_spend tx) =? 0) then Some COINS_SHIELDED_REQUIREMENTS_OK
  else match alloc_sprout_intermediates (len (v_joinsplit tx)) with
       | COINS_SHIELDED_REQUIREMENTS_OK =>
           let? r := record_joinsplits (c_base c) [] (v_joinsplit tx) in
           match r with
           | COINS_SHIELDED_REQUIREMENTS_OK => check_spends (c_base c) (v_shielded_spend tx)
           | result => Some result
           end
       | result => Some result
       end.

Definition coins_view_cache_have_joinsplit_requirements (c : coins_view_cache V) (tx : transaction) : option bool :=
  let? r := coins_view_cache_check_shielded_requirements c tx in
  Some (bool_decide (r = COINS_SHIELDED_REQUIREMENTS_OK)).

(** ** The requirement on leaves *)

(** What a store knows of the roots of the chain: the leaves under each Sprout root,
    and which Sapling roots there have been. *)
Class AnchorStore (base : V) := {
  sprout_leaves : uint256 -> coins_anchor_lookup_result * list uint256;
  sprout_found root t : coins_view_get_anchor base COINS_ANCHOR_SPROUT root = t ->
    fst t = fst (sprout_leaves root) /\
    (fst t = COINS_ANCHOR_FOUND -> sprout_root (snd (sprout_leaves root)) = root /\
     exists tree, snd t = Some tree /\ tree_repr tree (snd (sprout_leaves root)) /\
     depth tree = INCREMENTAL_MERKLE_TREE_DEPTH /\ fns tree = SHA256_COMPRESS);
}.

(** The verdict on a Sprout anchor, with the leaves under it. *)
Definition sprout_anchor `{!AnchorStore base} (known : list (list uint256)) (anchor : uint256) :
    coins_shielded_requirements_result * list uint256 :=
  match List.find (fun l => uint256_eq (sprout_root l) anchor) known with
  | Some l => (COINS_SHIELDED_REQUIREMENTS_OK, l)
  | None =>
      if uint256_eq anchor (sprout_root []) then (COINS_SHIELDED_REQUIREMENTS_OK, [])
      else (anchor_result_map (fst (sprout_leaves anchor)), snd (sprout_leaves anchor))
  end.

(** Each JoinSplit extends the tree of its anchor; later ones may build on it. *)
Fixpoint joinsplits_verdict `{!AnchorStore base} (known : list (list uint256)) (l : list js_description) : coins_shielded_requirements_result :=
  match l with
  | [] => COINS_SHIELDED_REQUIREMENTS_OK
  | js :: l =>
      match sprout_anchor known (js_anchor js) with
      | (COINS_SHIELDED_REQUIREMENTS_OK, leaves) => joinsplits_verdict (known ++ [leaves ++ commitments js]) l
      | (result, _) => result
      end
  end.

Definition spend_verdict (base : V) (sd : spend_description) : coins_shielded_requirements_result :=
  if uint256_eq (sd_anchor sd) (sapling_root []) then COINS_SHIELDED_REQUIREMENTS_OK
  else anchor_result_map (fst (coins_view_get_anchor base COINS_ANCHOR_SAPLING (sd_anchor sd))).

(** The first that is not fulfilled. *)
Fixpoint spends_verdict (base : V) (l : list spend_description) : coins_shielded_requirements_result :=
  match l with
  | [] => COINS_SHIELDED_REQUIREMENTS_OK
  | sd :: l => match spend_verdict base sd with COINS_SHIELDED_REQUIREMENTS_OK => spends_verdict base l | result => result end
  end.

Definition requirements_verdict (base : V) `{!AnchorStore base} (tx : transaction) : coins_shielded_requirements_result :=
  match joinsplits_verdict [] (v_joinsplit tx) with
  | COINS_SHIELDED_REQUIREMENTS_OK => spends_verdict base (v_shielded_spend tx)
  | result => result
  end.

(** ** The code implements it *)

Lemma empty_tree pool d f : (match pool with COINS_ANCHOR_SPROUT => sprout_tree_init | COINS_ANCHOR_SAPLING => sapling_tree_init end) = tree_init d f ->
  (1 <= d <= MAX_TREE_DEPTH)%nat -> forall root,
  exists t, anchor_is_empty pool root = Some (if uint256_eq root (subtree f d []) then Some t else None) /\
  tree_repr t [] /\ depth t = d /\ fns t = f.
Proof.
  intros E Hd root. unfold anchor_is_empty. rewrite E. destruct (tree_init_spec d f Hd) as (t & -> & R & Ed & Ef).
  unfold incremental_tree_empty_root. rewrite empty_root_spec by (rewrite Ed; lia). rewrite Ef, Ed. exists t.
  split_and!; [|done..]. by destruct (uint256_eq _ _).
Qed.

Lemma append_commitments_run t l : append_commitments t l = tree_run t (map Append l).
Proof. revert t. induction l as [|c l IH]; intros t; cbn; [done|]. destruct (incremental_tree_append t c); auto. Qed.

Lemma leaves_of_appends l : leaves_of (map Append l) = l.
Proof. induction l as [|x l IH]; [done|]. cbn. by f_equal. Qed.

(** The trees of the intermediates hold the leaves [known]. *)
Definition intermediates_ok (l : list sprout_intermediate) (known : list (list uint256)) : Prop :=
  Forall2 (fun x leaves => fst x = sprout_root leaves /\ tree_repr (snd x) leaves /\
    depth (snd x) = INCREMENTAL_MERKLE_TREE_DEPTH /\ fns (snd x) = SHA256_COMPRESS) l known.

Lemma find_intermediate_spec l known a : intermediates_ok l known ->
  match find_intermediate l a, List.find (fun l => uint256_eq (sprout_root l) a) known with
  | Some t, Some leaves => tree_repr t leaves /\ depth t = INCREMENTAL_MERKLE_TREE_DEPTH /\ fns t = SHA256_COMPRESS
  | None, None => True
  | _, _ => False
  end.
Proof.
  induction 1 as [|[r t] leaves l known (E & R & D & F) _ IH]; [done|]. cbn [find_intermediate List.find]. cbn [fst snd] in *. subst r.
  destruct (uint256_eq _ a); [done|exact IH].
Qed.

Lemma sprout_depth_ok : (2 <= INCREMENTAL_MERKLE_TREE_DEPTH <= MAX_TREE_DEPTH)%nat.
Proof. unfold INCREMENTAL_MERKLE_TREE_DEPTH, MAX_TREE_DEPTH. lia. Qed.
Lemma sapling_depth_ok : (1 <= SAPLING_INCREMENTAL_MERKLE_TREE_DEPTH <= MAX_TREE_DEPTH)%nat.
Proof. unfold SAPLING_INCREMENTAL_MERKLE_TREE_DEPTH, MAX_TREE_DEPTH. lia. Qed.
#[local] Opaque INCREMENTAL_MERKLE_TREE_DEPTH SAPLING_INCREMENTAL_MERKLE_TREE_DEPTH.

(** Room for [n] more leaves under every anchor. *)
Definition capacity (known : list (list uint256)) `{!AnchorStore base} (n : nat) : Prop :=
  Forall (fun l => length l + n <= 2 ^ INCREMENTAL_MERKLE_TREE_DEPTH)%nat known /\
  (n <= 2 ^ INCREMENTAL_MERKLE_TREE_DEPTH)%nat /\
  forall root, fst (sprout_leaves root) = COINS_ANCHOR_FOUND -> (length (snd (sprout_leaves root)) + n <= 2 ^ INCREMENTAL_MERKLE_TREE_DEPTH)%nat.

Lemma record_spec base `{!AnchorStore base} inter known js n : intermediates_ok inter known -> capacity known (length (commitments js) + n) ->
  exists inter', record_joinsplit_intermediate base inter js = Some (inter', fst (sprout_anchor known (js_anchor js))) /\
  (fst (sprout_anchor known (js_anchor js)) = COINS_SHIELDED_REQUIREMENTS_OK ->
   let known' := known ++ [snd (sprout_anchor known (js_anchor js)) ++ commitments js] in intermediates_ok inter' known' /\ capacity known' n).
Proof.
  intros Ok (Ck & C0 & Cs). unfold record_joinsplit_intermediate, sprout_anchor.
  assert (forall t leaves, tree_repr t leaves -> depth t = INCREMENTAL_MERKLE_TREE_DEPTH -> fns t = SHA256_COMPRESS ->
    (length leaves + (length (commitments js) + n) <= 2 ^ INCREMENTAL_MERKLE_TREE_DEPTH)%nat ->
    exists inter', (let? tree := append_commitments t (commitments js) in let? r := incremental_tree_root tree in
      Some (inter ++ [(snd r, fst r)], COINS_SHIELDED_REQUIREMENTS_OK)) = Some (inter', COINS_SHIELDED_REQUIREMENTS_OK) /\
    intermediates_ok inter' (known ++ [leaves ++ commitments js]) /\ capacity (known ++ [leaves ++ commitments js]) n) as Record.
  { intros t leaves R D F Fit. rewrite append_commitments_run.
    destruct (tree_run_spec (map Append (commitments js)) t leaves R) as (t1 & -> & R1 & D1 & F1); [rewrite leaves_of_appends, length_app, D; lia|].
    rewrite leaves_of_appends in R1. destruct (root_of_repr t1 _ R1) as (t2 & -> & R2 & D2 & F2). cbn [fst snd].
    eexists. split; [reflexivity|]. split.
    - apply Forall2_app; [done|]. constructor; [|constructor]. cbn [fst snd]. split_and!; [congruence|done|congruence..].
    - split_and!; [|lia|intros root E; specialize (Cs root E); lia]. apply Forall_app. split.
      + eapply Forall_impl; [|exact Ck]. cbn. intros l Hl. lia.
      + constructor; [rewrite length_app; lia|constructor]. }
  pose proof (find_intermediate_spec inter known (js_anchor js) Ok) as Fi.
  destruct (find_intermediate inter (js_anchor js)) as [t|], (List.find _ known) as [leaves|] eqn:Ef; try done.
  { destruct Fi as (R & D & F). destruct (Record t leaves R D F) as (i' & -> & Ri); [|exists i'; by split].
    apply List.find_some in Ef as [Hin _]. rewrite Forall_forall in Ck. by apply Ck. }
  unfold anchor_requirement.
  destruct (empty_tree COINS_ANCHOR_SPROUT INCREMENTAL_MERKLE_TREE_DEPTH SHA256_COMPRESS eq_refl ltac:(pose proof sprout_depth_ok; lia) (js_anchor js))
    as (t & -> & R & D & F).
  destruct (uint256_eq (js_anchor js) (sprout_root [])).
  { destruct (Record t [] R D F) as (i' & E & Ri); [cbn [length]; lia|]. exists i'. by split. }
  destruct (coins_view_get_anchor base COINS_ANCHOR_SPROUT (js_anchor js)) as [ar tree] eqn:Ea.
  destruct (sprout_found _ _ Ea) as [E1 E2]. cbn [fst snd] in *. rewrite <- E1 in *.
  destruct ar; cbn [anchor_result_map].
  1,2,4: by exists inter.
  destruct (E2 eq_refl) as (_ & tree' & -> & R' & D' & F').
  destruct (Record tree' _ R' D' F') as (i' & E & Ri); [by apply Cs|]. exists i'. by split.
Qed.

Definition new_commitments (l : list js_description) : nat := length (concat (map commitments l)).

Lemma record_joinsplits_spec base `{!AnchorStore base} l : forall inter known, intermediates_ok inter known -> capacity known (new_commitments l) ->
  record_joinsplits base inter l = Some (joinsplits_verdict known l).
Proof.
  induction l as [|js l IH]; intros inter known Ok Cap; [done|]. cbn [record_joinsplits joinsplits_verdict].
  unfold new_commitments in Cap. cbn [map concat] in Cap. rewrite length_app in Cap.
  destruct (record_spec base inter known js _ Ok Cap) as (inter' & -> & Next).
  destruct (sprout_anchor known (js_anchor js)) as [r leaves]. cbn [fst snd] in *. destruct r; try done.
  destruct (Next eq_refl) as [Ok' Cap']. by apply IH.
Qed.

Lemma check_spends_spec base l : check_spends base l = Some (spends_verdict base l).
Proof.
  induction l as [|sd l IH]; [done|]. cbn [check_spends spends_verdict]. unfold anchor_requirement, spend_verdict.
  destruct (empty_tree COINS_ANCHOR_SAPLING SAPLING_INCREMENTAL_MERKLE_TREE_DEPTH PEDERSEN eq_refl
    sapling_depth_ok (sd_anchor sd)) as (t & -> & _).
  destruct (uint256_eq _ _); [exact IH|]. destruct (coins_view_get_anchor _ _ _) as [ar tree]. cbn [fst].
  destruct ar; cbn [anchor_result_map]; done.
Qed.

End Requirements.

(** C21: the anchor check is the rule on leaves. Against a store that keeps with each
    Sprout root a tree whose leaves hash to it, and while the trees have room for the
    transaction's commitments, the check is never undefined and gives the verdict of
    the rule stated on lists of leaves: a JoinSplit's anchor must be the root of the
    leaves that an earlier JoinSplit of the same transaction has built (the first
    with that root), the root of no leaves or a root of the chain, and builds its own
    commitments on those leaves; a Sapling anchor must be the root of no leaves or a
    root of the chain; the first anchor that fails decides. Lack of memory is
    reported as a store error. *)
Theorem shielded_requirements_refine `{Allocator} `{HostOrder} `{Pedersen} {V : Type} `{!CoinsViewVtable V}
    (c : coins_view_cache V) `{!AnchorStore (c_base c)} tx :
  capacity [] (new_commitments (v_joinsplit tx)) ->
  coins_view_cache_check_shielded_requirements c tx =
    Some (match alloc_sprout_intermediates (len (v_joinsplit tx)) with
          | COINS_SHIELDED_REQUIREMENTS_OK => requirements_verdict (c_base c) tx
          | _ => COINS_SHIELDED_REQUIREMENTS_STORE_ERROR
          end) /\
  (memory_ok -> len (v_joinsplit tx) < 2 ^ 32 ->
   coins_view_cache_have_joinsplit_requirements c tx = Some true <->
   requirements_verdict (c_base c) tx = COINS_SHIELDED_REQUIREMENTS_OK).
Proof.
  intros Cap.
  assert (coins_view_cache_check_shielded_requirements c tx =
    Some (match alloc_sprout_intermediates (len (v_joinsplit tx)) with
          | COINS_SHIELDED_REQUIREMENTS_OK => requirements_verdict (c_base c) tx
          | _ => COINS_SHIELDED_REQUIREMENTS_STORE_ERROR
          end)) as E.
  { unfold coins_view_cache_check_shielded_requirements, requirements_verdict.
    destruct (_ && _) eqn:Z0.
    { apply andb_prop in Z0 as [Z1 Z2]. apply Z.eqb_eq in Z1, Z2. destruct (v_joinsplit tx); [|done]. by destruct (v_shielded_spend tx). }
    clear Z0. destruct (alloc_sprout_intermediates _) eqn:Al.
    - rewrite (record_joinsplits_spec (c_base c) _ [] []) by (done || constructor).
      destruct (joinsplits_verdict [] _); [apply check_spends_spec|done..].
    - unfold alloc_sprout_intermediates in Al. by repeat case_match.
    - unfold alloc_sprout_intermediates in Al. by repeat case_match.
    - done. }
  split; [exact E|]. intros Mem Hn. unfold coins_view_cache_have_joinsplit_requirements. rewrite E.
  assert (alloc_sprout_intermediates (len (v_joinsplit tx)) = COINS_SHIELDED_REQUIREMENTS_OK) as ->.
  { unfold alloc_sprout_intermediates. destruct (0 <? _); [|done]. destruct (Z.ltb_spec (SIZE_MAX / sizeof_sprout_intermediate) (len (v_joinsplit tx))) as [L|_].
    - exfalso. assert (2 ^ 32 <= SIZE_MAX / sizeof_sprout_intermediate) by (vm_compute; done). lia.
    - by rewrite Mem. }
  split; [intros [= B%bool_decide_eq_true]; done|intros ->; done].
Qed.

Section ShieldedWitness.
#[local] Existing Instance view_alloc.
#[local] Existing Instance view_host.
#[local] Existing Instance mixing.

#[local] Program Instance bare_store : AnchorStore (c_base bottom) := {| sprout_leaves _ := (COINS_ANCHOR_HISTORY_INCOMPLETE, []) |}.
Next Obligation. intros root t <-. by split. Qed.

Definition sample_js (anchor : uint256) (a b : Z) : js_description :=
  mk_js 0 0 anchor [] [leaf a; leaf b] [] [] [] true [] [].
(** The second JoinSplit builds on the first. *)
Definition chained_tx : transaction :=
  mk_tx true 4 SAPLING_VERSION_GROUP_ID [] [] 0 0 0 [] [] [sample_js (sprout_root []) 1 2; sample_js (sprout_root [leaf 1; leaf 2]) 3 4]
    uint256_set_null [] [] [].

Lemma shielded_requirements_refine_witness :
  coins_view_cache_have_joinsplit_requirements bottom chained_tx = Some true.
Proof.
  apply (shielded_requirements_refine bottom chained_tx).
  - assert (4 <= 2 ^ INCREMENTAL_MERKLE_TREE_DEPTH)%nat as L by (change 4%nat with (2 ^ 2)%nat; apply Nat.pow_le_mono_r; pose proof sprout_depth_ok; lia).
    split_and!; [constructor|exact L|]. intros root E. discriminate E.
  - intros n. reflexivity.
  - reflexivity.
  - unfold requirements_verdict. cbn [v_joinsplit chained_tx joinsplits_verdict js_anchor sample_js]. unfold sprout_anchor.
    cbn [List.find]. rewrite uint256_eq_refl. cbn [app commitments sample_js List.find]. rewrite uint256_eq_refl. reflexivity.
Defined.
End ShieldedWitness.
