(* ===== verification/UtxoSet.v ===== *)
(** * The set of unspent outputs

    What blocks do to the coins, without records, caches or tables: a finite map
    from outpoints to unspent outputs, and what a transaction takes from it and
    adds to it. [UpdateSpec] shows that the cache implements it. *)

From stdpp Require Import base tactics list numbers option gmap.
From Stdlib Require Import ZArith Lia.
From S2P Require Import Prelude Serialize ByteOrder Params Script Hash Transaction Coins CoinsMap UtxoCommitment CoinsView.
#[local] Open Scope Z_scope.
#[local] Open Scope list_scope.

Record utxo := mk_utxo { ut_out : tx_out; ut_coinbase : bool; ut_height : Z; ut_version : Z }.
Abbreviation utxo_set := (gmap (uint256 * nat) utxo).

Definition op_key (op : outpoint) : uint256 * nat := (op_hash op, Z.to_nat (op_n op)).

(** The unspent output a record has at an index. *)
Definition utxo_of (v : coins) (n : nat) : option utxo :=
  o ← c_vout v !! n; if tx_out_is_null o then None else Some (mk_utxo o (is_coinbase v) (c_height v) (c_version v)).

(** [U] lists the outputs that the records [f] show. *)
Record lists (f : uint256 -> option coins) (U : utxo_set) : Prop := {
  lists_lookup k n : length k = 32%nat -> U !! (k, n) = f k ≫= fun v => utxo_of v n;
  lists_keys k n u : U !! (k, n) = Some u -> length k = 32%nat;
}.

(** ** Operations *)

(** Taking the inputs one by one. *)
Fixpoint spend_set (U : utxo_set) (l : list tx_in) : option (list utxo * utxo_set) :=
  match l with
  | [] => Some ([], U)
  | i :: l =>
      u ← U !! op_key (prevout i);
      r ← spend_set (delete (op_key (prevout i)) U) l;
      Some (u :: fst r, snd r)
  end.

Definition spendable (o : tx_out) : bool := negb (script_is_unspendable (script_pub_key o) || tx_out_is_null o).
Definition created_utxo (tx : transaction) (h : Z) (o : tx_out) : utxo :=
  mk_utxo o (transaction_is_coinbase tx) h (version tx).
(** The outputs from index [n] on. *)
Fixpoint create_from (tx : transaction) (h : Z) (n : nat) (l : list tx_out) : utxo_set :=
  match l with
  | [] => ∅
  | o :: l =>
      if spendable o then <[(tx_hash tx, n) := created_utxo tx h o]> (create_from tx h (S n) l)
      else create_from tx h (S n) l
  end.
Definition created (tx : transaction) (h : Z) : utxo_set := create_from tx h 0 (vout tx).

Definition without_tx (k : uint256) (U : utxo_set) : utxo_set := filter (fun x => fst (fst x) <> k) U.

(** A transaction: what it spent and the set after it. *)
Definition connect_tx (U : utxo_set) (tx : transaction) (h : Z) : option (list utxo * utxo_set) :=
  r ← (if transaction_is_coinbase tx then Some ([], U) else spend_set U (vin tx));
  Some (fst r, created tx h ∪ without_tx (tx_hash tx) (snd r)).

Fixpoint connect_txs (U : utxo_set) (l : list transaction) (h : Z) : option (list (list utxo) * utxo_set) :=
  match l with
  | [] => Some ([], U)
  | tx :: l =>
      r ← connect_tx U tx h;
      q ← connect_txs (snd r) l h;
      Some (fst r :: fst q, snd q)
  end.

(** No output of the transaction is in the set. *)
Definition absent (k : uint256) (U : utxo_set) : Prop := forall n, U !! (k, n) = None.
(** The outputs of one transaction agree on what its record says of it. *)
Definition same_meta (u u' : utxo) : Prop :=
  ut_coinbase u = ut_coinbase u' /\ ut_height u = ut_height u' /\ ut_version u = ut_version u'.
Definition coherent (U : utxo_set) : Prop :=
  forall k n n' u u', U !! (k, n) = Some u -> U !! (k, n') = Some u' -> same_meta u u'.

(** ** Lookups *)

Lemma lists_coherent f U : lists f U -> coherent U.
Proof.
  intros [Hl Hk] k n n' u u' E E'. pose proof (Hk _ _ _ E) as L. rewrite Hl in E, E' by done.
  destruct (f k) as [v|]; [|done]. cbn in *. unfold utxo_of in *.
  destruct (c_vout v !! n) as [o|]; [|done]. destruct (c_vout v !! n') as [o'|]; [|done]. cbn in *.
  destruct (tx_out_is_null o); [done|]. destruct (tx_out_is_null o'); [done|]. by simplify_eq.
Qed.

Lemma create_from_lookup tx h n0 l k n :
  create_from tx h n0 l !! (k, n) =
  if decide (k = tx_hash tx /\ (n0 <= n)%nat) then
    o ← l !! (n - n0)%nat; if spendable o then Some (created_utxo tx h o) else None
  else None.
Proof.
  revert n0. induction l as [|o l IH]; intros n0; cbn [create_from]; [case_decide; [by rewrite lookup_nil|done]|].
  assert (create_from tx h (S n0) l !! (k, n) =
    if decide (k = tx_hash tx /\ (n0 < n)%nat) then o0 ← (o :: l) !! (n - n0)%nat; if spendable o0 then Some (created_utxo tx h o0) else None else None) as E.
  { rewrite IH. change (S n0 <= n)%nat with (n0 < n)%nat. destruct (decide (k = tx_hash tx /\ (n0 < n)%nat)) as [[Hk Hn]|_]; [|done].
    destruct (n - n0)%nat as [|d] eqn:D; [lia|].
    by replace (n - S n0)%nat with d by lia. }
  destruct (decide ((k, n) = (tx_hash tx, n0))) as [[= -> ->]|N].
  - rewrite decide_True by (split; [done|lia]). rewrite Nat.sub_diag.
    change ((o :: l) !! 0%nat) with (Some o). cbn [mbind option_bind]. destruct (spendable o); [by rewrite lookup_insert_eq|].
    rewrite E. by rewrite decide_False by (intros [_ ?]; lia).
  - assert ((if spendable o then <[(tx_hash tx, n0) := created_utxo tx h o]> (create_from tx h (S n0) l) else create_from tx h (S n0) l) !! (k, n) =
      create_from tx h (S n0) l !! (k, n)) as -> by (destruct (spendable o); [by rewrite lookup_insert_ne by congruence|done]).
    rewrite E. destruct (decide (k = tx_hash tx)) as [->|Nk].
    + assert (n <> n0) by congruence. destruct (decide (n0 < n)%nat).
      * by rewrite !decide_True by (split; [done|lia]).
      * by rewrite !decide_False by (intros [_ ?]; lia).
    + by rewrite !decide_False by (by intros [? _]).
Qed.

Lemma created_lookup tx h k n :
  created tx h !! (k, n) =
  if decide (k = tx_hash tx) then o ← vout tx !! n; if spendable o then Some (created_utxo tx h o) else None else None.
Proof.
  unfold created. rewrite create_from_lookup, Nat.sub_0_r. destruct (decide (k = tx_hash tx)).
  - by rewrite decide_True by (split; [done|lia]).
  - by rewrite decide_False by (by intros [? _]).
Qed.

Lemma without_lookup k0 U k n : without_tx k0 U !! (k, n) = if decide (k = k0) then None else U !! (k, n).
Proof.
  unfold without_tx. case_decide as D.
  - subst. apply map_lookup_filter_None. right. intros u _. cbn. congruence.
  - destruct (U !! (k, n)) as [u|] eqn:E; [apply map_lookup_filter_Some; by split|apply map_lookup_filter_None; by left].
Qed.

Lemma connect_lookup tx h U k n :
  (created tx h ∪ without_tx (tx_hash tx) U) !! (k, n) =
  if decide (k = tx_hash tx) then o ← vout tx !! n; if spendable o then Some (created_utxo tx h o) else None
  else U !! (k, n).
Proof.
  case_decide as D.
  - subst. destruct (o ← vout tx !! n; _) as [u|] eqn:E.
    + apply lookup_union_Some_l. by rewrite created_lookup, decide_True.
    + apply lookup_union_None. rewrite created_lookup, without_lookup, !decide_True by done. done.
  - rewrite lookup_union_r by (by rewrite created_lookup, decide_False). by rewrite without_lookup, decide_False.
Qed.

Lemma without_absent k U : absent k U -> without_tx k U = U.
Proof.
  intros A. apply map_eq. intros [k' n]. rewrite without_lookup. case_decide; [|done]. subst. symmetry. apply A.
Qed.

(** ** Facts about spending *)

Lemma spend_set_lookup U l us U' k : spend_set U l = Some (us, U') ->
  U' !! k = if decide (k ∈ map (op_key ∘ prevout) l) then None else U !! k.
Proof.
  revert U us U'. induction l as [|i l IH]; intros U us U'; cbn [spend_set map].
  { intros [= <- <-]. rewrite decide_False; [done|]. by apply not_elem_of_nil. }
  destruct (U !! op_key (prevout i)) as [u|] eqn:E; [|done]. cbn [mbind option_bind].
  destruct (spend_set (delete _ U) l) as [[us1 U1]|] eqn:S; [|done]. cbn. intros [= <- <-]. rewrite (IH _ _ _ S).
  destruct (decide (k ∈ map (op_key ∘ prevout) l)) as [D|D].
  - rewrite decide_True; [done|]. by apply elem_of_cons; right.
  - destruct (decide (k = op_key (prevout i))) as [->|N].
    + rewrite decide_True by (by apply elem_of_cons; left). apply lookup_delete_eq.
    + rewrite decide_False by (by intros [|]%elem_of_cons). by apply lookup_delete_ne.
Qed.

Lemma spend_set_subset U l us U' : spend_set U l = Some (us, U') -> U' ⊆ U.
Proof.
  intros S. apply map_subseteq_spec. intros k u E. rewrite (spend_set_lookup _ _ _ _ _ S) in E. by case_decide.
Qed.

Lemma absent_subset k U U' : U' ⊆ U -> absent k U -> absent k U'.
Proof. intros S A n. by eapply lookup_weaken_None. Qed.

Lemma coherent_subset U U' : U' ⊆ U -> coherent U -> coherent U'.
Proof. intros S C k n n' u u' E E'. eapply C; eapply lookup_weaken; done. Qed.

(** ** Totals *)

Definition total (U : utxo_set) : Z := map_fold (fun _ u z => value (ut_out u) + z) 0 U.
Definition utxo_values (l : list utxo) : Z := sum_list (map (fun u => value (ut_out u)) l).

Lemma total_insert U k u : U !! k = None -> total (<[k := u]> U) = value (ut_out u) + total U.
Proof. intros E. unfold total. rewrite map_fold_insert_L; [done| |done]. intros. lia. Qed.

Lemma total_delete U k u : U !! k = Some u -> total U = value (ut_out u) + total (delete k U).
Proof. intros E. rewrite <- (insert_delete_id U k u) at 1 by done. apply total_insert, lookup_delete_eq. Qed.

Lemma spend_set_total U l us U' : spend_set U l = Some (us, U') -> total U = utxo_values us + total U'.
Proof.
  revert U us U'. induction l as [|i l IH]; intros U us U'; cbn [spend_set]; [by intros [= <- <-]|].
  destruct (U !! op_key (prevout i)) as [u|] eqn:E; [|done]. cbn [mbind option_bind].
  destruct (spend_set (delete _ U) l) as [[us1 U1]|] eqn:S; [|done]. cbn. intros [= <- <-].
  rewrite (total_delete _ _ _ E), (IH _ _ _ S). unfold utxo_values. cbn. lia.
Qed.

Definition created_value (tx : transaction) : Z := sum_list (map value (base.filter (fun o => spendable o = true) (vout tx))).

Lemma create_from_total tx h n l W : absent (tx_hash tx) W ->
  total (create_from tx h n l ∪ W) = sum_list (map value (base.filter (fun o => spendable o = true) l)) + total W.
Proof.
  intros A. revert n. induction l as [|o l IH]; intros n; cbn [create_from]; [by rewrite map_empty_union|].
  rewrite filter_cons. destruct (spendable o) eqn:So; [rewrite decide_True by done|rewrite decide_False by done; apply IH].
  cbn [map sum_list]. rewrite <- insert_union_l, total_insert; [rewrite IH; cbn; lia|].
  apply lookup_union_None. split; [|apply A]. rewrite create_from_lookup. by rewrite decide_False by (intros [_ ?]; lia).
Qed.

Lemma connect_tx_total U tx h us U' : absent (tx_hash tx) U -> connect_tx U tx h = Some (us, U') ->
  total U' = total U - utxo_values us + created_value tx.
Proof.
  intros A. unfold connect_tx, created. destruct (transaction_is_coinbase tx).
  - cbn. intros [= <- <-]. rewrite without_absent, create_from_total by done. unfold utxo_values, created_value. cbn. lia.
  - destruct (spend_set U (vin tx)) as [[us1 U1]|] eqn:S; [|done]. cbn. intros [= <- <-].
    apply spend_set_subset in S as Sub. rewrite without_absent, create_from_total by (by eapply absent_subset).
    rewrite (spend_set_total _ _ _ _ S). unfold created_value. lia.
Qed.

(** ** The commitment to a set *)

Definition item_of (x : (uint256 * nat) * utxo) : utxo_item :=
  mk_item (fst (fst x)) (Z.of_nat (snd (fst x))) (value (ut_out (snd x))) (ut_height (snd x)).
Definition items (U : utxo_set) : list utxo_item := map item_of (map_to_list U).
Definition committed `{HostOrder} (U : utxo_set) : utxo_commitment := commitment_of (items U).

Lemma items_insert U k u : U !! k = None -> items (<[k := u]> U) ≡ₚ item_of (k, u) :: items U.
Proof. intros E. unfold items. by rewrite map_to_list_insert. Qed.

Lemma items_delete U k u : U !! k = Some u -> items U ≡ₚ item_of (k, u) :: items (delete k U).
Proof. intros E. rewrite <- (insert_delete_id U k u) at 1 by done. apply items_insert, lookup_delete_eq. Qed.

Lemma items_size U : len (items U) = Z.of_nat (base.size U).
Proof. unfold len, items. by rewrite length_map, length_map_to_list. Qed.

(** ** Well-formed sets *)

(** What holds of the outputs of a chain. *)
Record set_wf (U : utxo_set) : Prop := {
  wf_coherent : coherent U;
  wf_height k u : U !! k = Some u -> 0 < ut_height u < 2 ^ 31;
  wf_live k u : U !! k = Some u -> tx_out_is_null (ut_out u) = false;
  wf_index k n u : U !! (k, n) = Some u -> Z.of_nat n < 65536;
}.

Lemma set_wf_subset U U' : U' ⊆ U -> set_wf U -> set_wf U'.
Proof.
  intros S [C Hh Hl Hi]. split; [by eapply coherent_subset|..]; intros; [eapply Hh|eapply Hl|eapply Hi]; by eapply lookup_weaken.
Qed.

Lemma connect_wf U tx h us U' : set_wf U -> 0 < h < 2 ^ 31 -> len (vout tx) <= 65536 -> connect_tx U tx h = Some (us, U') -> set_wf U'.
Proof.
  intros W Hh Hl E.
  assert (exists U1, U1 ⊆ U /\ U' = created tx h ∪ without_tx (tx_hash tx) U1) as (U1 & S & ->).
  { unfold connect_tx in E. destruct (transaction_is_coinbase tx); [injection E as _ <-; by exists U|].
    destruct (spend_set U (vin tx)) as [[us1 U1]|] eqn:Es; [|done]. injection E as _ <-. exists U1. split; [|done]. by eapply spend_set_subset. }
  apply (set_wf_subset _ _ S) in W as [C Ht Hv Hi]. clear E S.
  assert (forall k n u, (created tx h ∪ without_tx (tx_hash tx) U1) !! (k, n) = Some u ->
    (k = tx_hash tx /\ exists o, vout tx !! n = Some o /\ spendable o = true /\ u = created_utxo tx h o) \/
    (k <> tx_hash tx /\ U1 !! (k, n) = Some u)) as Cases.
  { intros k n u. rewrite connect_lookup. case_decide as D; [|by right]. intros E. left. split; [done|].
    destruct (vout tx !! n) as [o|]; [|done]. cbn in E. destruct (spendable o) eqn:So; [|done]. exists o. by injection E as <-. }
  split.
  - intros k n n' u u' E E'. apply Cases in E as [(Ek & o & _ & _ & ->)|[Nk E]], E' as [(Ek' & o' & _ & _ & ->)|[Nk' E']]; try done.
    by eapply C.
  - intros [k n] u E. apply Cases in E as [(_ & o & _ & _ & ->)|[_ E]]; [done|by eapply Ht].
  - intros [k n] u E. apply Cases in E as [(_ & o & _ & So & ->)|[_ E]]; [|by eapply Hv].
    unfold spendable in So. apply negb_true_iff, orb_false_iff in So. apply So.
  - intros k n u E. apply Cases in E as [(_ & o & Eo & _ & _)|[_ E]]; [|by eapply Hi].
    apply lookup_lt_Some in Eo. unfold len in Hl. lia.
Qed.
