(* ===== verification/UpdateCoins.v ===== *)
(** * Applying a transaction to the coins

    Model of [core/modules/validation/src/update_coins.c] and of [disconnect_block]
    in [connect_block.c], the two directions in which blocks change the coins. *)

From stdpp Require Import base tactics list numbers option gmap.
From Stdlib Require Import ZArith Lia.
From S2P Require Import Prelude Serialize ByteOrder Params Script Hash Transaction TxCheck Block Coins CoinsMap.
From S2P Require Import UtxoCommitment CoinsView.
#[local] Open Scope Z_scope.
#[local] Open Scope list_scope.
#[local] Open Scope cint_scope.
#[local] Open Scope zres_scope.

Section Update.
Context `{Allocator} `{HostOrder} `{CommitmentSkip} {V : Type} `{!CoinsViewVtable V}.
Abbreviation cache := (coins_view_cache V).

(** Writing [vout] and [num_vout] of the entry pointed to. *)
Definition set_coins (c : cache) (slot : nat) (v : coins) : option cache :=
  let? e := entry_at (cache_coins c) slot in
  Some (with_map c (set_entry (cache_coins c) slot (mk_entry v (e_flags e)))).

(** [realloc] of [vout] to [new_size] outputs, the new ones null. *)
Definition resize_vout (v : coins) (new_size : Z) : coins :=
  with_vout v (take (Z.to_nat new_size) (c_vout v) ++
               replicate (Z.to_nat (new_size - len (c_vout v))) tx_out_set_null).

(** Whether the array has the output now. [nPos + 1] is an [unsigned int]: a size of
    zero, which C leaves undefined, is [None]. *)
Definition grow_entry_vout_for_spend (c : cache) (slot : nat) (nPos : Z) : option (cache * bool) :=
  let? e := entry_at (cache_coins c) slot in
  let v := e_coins e in
  if len (c_vout v) <=? nPos then
    let new_size := u32 (nPos + 1) in
    if new_size =? 0 then None
    else if negb (alloc_ok (new_size * sizeof_tx_out)) then Some (c, false)
    else
      let? c' := set_coins c slot (resize_vout v new_size) in
      Some (coins_view_cache_account_vout_resize c' (len (c_vout v)) new_size, true)
  else Some (c, true).

(** The outputs from [vi] on; whether all live ones were in range. *)
Fixpoint add_new_outputs_to_commitment (uc : utxo_commitment) (txid : uint256) (nHeight : Z) (vi : Z) (l : list tx_out) :
    utxo_commitment * bool :=
  match l with
  | [] => (uc, true)
  | o :: l =>
      if tx_out_is_null o then add_new_outputs_to_commitment uc txid nHeight (vi + 1) l
      else if negb (MoneyRange (value o)) then (uc, false)
      else add_new_outputs_to_commitment (utxo_commitment_add uc txid (u32 vi) (value o) nHeight) txid nHeight (vi + 1) l
  end.

(** The body of the loop over the inputs: the undo record, or a failure. *)
Definition spend_input (c : cache) (i : tx_in) (undo : tx_in_undo) : option (cache * option tx_in_undo) :=
  let txid := op_hash (prevout i) in
  let nPos := op_n (prevout i) in
  let? r := coins_view_cache_modify c txid in
  match r with
  | (c, None) => Some (c, None)
  | (c, Some slot) =>
      let? r := grow_entry_vout_for_spend c slot nPos in
      match r with
      | (c, false) => Some (c, None)
      | (c, true) =>
          let? e := entry_at (cache_coins c) slot in
          let? o := c_vout (e_coins e) !! Z.to_nat nPos in
          if tx_out_is_null o then Some (c, None)
          else if negb (MoneyRange (value o)) then Some (c, None)
          else
            let c := with_commitment c (utxo_commitment_remove (commitment c) txid nPos (value o) (c_height (e_coins e))) in
            match coins_math_capture_undo (Some (e_coins e)) nPos (Some undo) with
            | ZCL_ERR _ => Some (c, None)
            | ZCL_OK (v, undo) => let? c := set_coins c slot v in Some (c, Some undo)
            end
      end
  end.

(** The records allocated for the inputs are filled one by one. *)
Fixpoint spend_inputs (c : cache) (l : list tx_in) (undos : tx_undo) : option (cache * option tx_undo) :=
  match l, undos with
  | i :: l, u :: undos =>
      let? r := spend_input c i u in
      match r with
      | (c, None) => Some (c, None)
      | (c, Some u) =>
          let? r := spend_inputs c l undos in
          Some (fst r, option_map (cons u) (snd r))
      end
  | _, _ => Some (c, Some [])
  end.

Definition create_outputs (tx : transaction) (c : cache) (nHeight : Z) : option (cache * bool) :=
  let? r := coins_view_cache_modify_new c (tx_hash tx) in
  match r with
  | (c, None) => Some (c, false)
  | (c, Some slot) =>
      let? e := entry_at (cache_coins c) slot in
      let old_size := len (c_vout (e_coins e)) in
      let '(v, ok) := coins_from_transaction tx nHeight in
      let? c := set_coins c slot v in
      if negb ok then Some (c, false)
      else
        let c := coins_view_cache_account_vout_resize c old_size (len (c_vout v)) in
        let '(uc, ok) := add_new_outputs_to_commitment (commitment c) (tx_hash tx) nHeight 0 (c_vout v) in
        Some (with_commitment c uc, ok)
  end.

(** The undo record comes back when the update succeeds; a coinbase leaves the one
    passed in alone. *)
Definition update_coins_with_undo (tx : transaction) (c : cache) (txundo : tx_undo) (nHeight : Z) :
    option (cache * option tx_undo) :=
  let? r :=
    (if transaction_is_coinbase tx then Some (c, Some txundo)
     else match tx_undo_alloc (len (vin tx)) with
          | None => Some (c, None)
          | Some undos => spend_inputs c (vin tx) undos
          end) in
  match r with
  | (c, None) => Some (c, None)
  | (c, Some undos) =>
      let? r := create_outputs tx c nHeight in
      Some (fst r, if snd r then Some undos else None)
  end.

Definition update_coins (tx : transaction) (c : cache) (nHeight : Z) : option cache :=
  let? r := update_coins_with_undo tx c tx_undo_init nHeight in Some (fst r).

(** ** Disconnecting *)

(** The array is extended to the output restored, unless the index cannot be real. *)
Definition grow_entry_vout_for_restore (c : cache) (slot : nat) (n : Z) : option (cache * bool) :=
  let? e := entry_at (cache_coins c) slot in
  let v := e_coins e in
  if len (c_vout v) <=? n then
    if MAX_BLOCK_SIZE <=? n then Some (c, false)
    else
      let new_size := u32 (n + 1) in
      if negb (alloc_ok (new_size * sizeof_tx_out)) then Some (c, false)
      else
        let? c' := set_coins c slot (resize_vout v new_size) in
        Some (coins_view_cache_account_vout_resize c' (len (c_vout v)) new_size, true)
  else Some (c, true).

Definition restore_input (c : cache) (i : tx_in) (undo : tx_in_undo) : option (cache * bool) :=
  let n := op_n (prevout i) in
  let? r := coins_view_cache_modify c (op_hash (prevout i)) in
  match r with
  | (c, None) => Some (c, false)
  | (c, Some slot) =>
      let? r := grow_entry_vout_for_restore c slot n in
      match r with
      | (c, false) => Some (c, false)
      | (c, true) =>
          let? e := entry_at (cache_coins c) slot in
          let v := e_coins e in
          let vout := <[Z.to_nat n := u_txout undo]> (c_vout v) in
          let v := if 0 <? u_height undo
                   then mk_coins (u_coinbase undo) vout (i32 (u_height undo)) (u_version undo)
                   else with_vout v vout in
          Some (with_map c (set_entry (cache_coins c) slot (mark COINS_CACHE_DIRTY (mk_entry v (e_flags e)))), true)
      end
  end.

(** The loops run from the last to the first: over reversed lists. *)
Fixpoint restore_inputs (c : cache) (l : list (tx_in * tx_in_undo)) : option (cache * bool) :=
  match l with
  | [] => Some (c, true)
  | (i, u) :: l =>
      let? r := restore_input c i u in
      match r with (c, false) => Some (c, false) | (c, true) => restore_inputs c l end
  end.

(** The entry of the transaction becomes a dirty record without outputs; a failed
    look-up is passed over. *)
Definition remove_outputs (c : cache) (txid : uint256) : option cache :=
  let? r := coins_view_cache_modify c txid in
  match r with
  | (c, None) => Some c
  | (c, Some slot) =>
      let? e := entry_at (cache_coins c) slot in
      Some (with_map c (set_entry (cache_coins c) slot (mark COINS_CACHE_DIRTY (mk_entry coins_init (e_flags e)))))
  end.

(** A transaction and, but for the first of a block, its undo record. *)
Definition disconnect_tx (c : cache) (tx : transaction) (txundo : option tx_undo) : option (cache * bool) :=
  let? r :=
    (match txundo with
     | None => Some (c, true)
     | Some u =>
         if negb (len u =? len (vin tx)) then Some (c, false)
         else restore_inputs c (rev (zip (vin tx) u))
     end) in
  match r with
  | (c, false) => Some (c, false)
  | (c, true) => let? c := remove_outputs c (tx_hash tx) in Some (c, true)
  end.

Fixpoint disconnect_txs (c : cache) (l : list (transaction * option tx_undo)) : option (cache * bool) :=
  match l with
  | [] => Some (c, true)
  | (tx, u) :: l =>
      let? r := disconnect_tx c tx u in
      match r with (c, false) => Some (c, false) | (c, true) => disconnect_txs c l end
  end.

(** [prev]: the hash of the previous block, when the index has it. *)
Definition disconnect_block (blk : block) (prev : option uint256) (c : cache) (blockundo : block_undo) : option (cache * bool) :=
  if negb (len (vtxundo blockundo) =? len (vtx blk) - 1) then Some (c, false)
  else
    let? r := disconnect_txs c (rev (zip (vtx blk) (None :: map Some (vtxundo blockundo)))) in
    match r with
    | (c, false) => Some (c, false)
    | (c, true) => Some (match prev with Some h => coins_view_cache_set_best_block c h | None => c end, true)
    end.

End Update.
