(* ===== verification/UpdateSpec.v ===== *)
(** * The coins cache implements the set of unspent outputs

    Connecting a transaction ([update_coins_with_undo]) and disconnecting it
    ([disconnect_block]) on any cache do to the outputs the cache shows what
    [UtxoSet] does to a finite map, with the commitment kept in step. *)

From stdpp Require Import base tactics list numbers option gmap.
From Stdlib Require Import ZArith Lia.
From S2P Require Import Prelude Serialize ByteOrder Params Script Hash Transaction TxCheck Block Coins CoinsMap.
From S2P Require Import UtxoCommitment CoinsView UtxoSet UpdateCoins.
#[local] Open Scope Z_scope.
#[local] Open Scope list_scope.
#[local] Open Scope cint_scope.
#[local] Open Scope zres_scope.

Lemma pruned_utxo v : coins_is_pruned v = true <-> forall n, utxo_of v n = None.
Proof.
  unfold coins_is_pruned, coins_math_is_pruned, utxo_of. rewrite forallb_forall. split.
  - intros F n. destruct (c_vout v !! n) as [o|] eqn:E; [|done]. cbn. rewrite F; [done|].
    apply list_elem_of_In, list_elem_of_lookup. eauto.
  - intros F o Ho. apply list_elem_of_In, list_elem_of_lookup in Ho as [n E]. specialize (F n). rewrite E in F. cbn in F.
    by destruct (tx_out_is_null o).
Qed.

Lemma unpruned_utxo v : coins_is_pruned v = false -> exists n u, utxo_of v n = Some u.
Proof.
  unfold coins_is_pruned, coins_math_is_pruned. intros F.
  assert (exists n o, c_vout v !! n = Some o /\ tx_out_is_null o = false) as (n & o & E & N).
  { induction (c_vout v) as [|o l IH]; [done|]. cbn in F. destruct (tx_out_is_null o) eqn:N; [|by exists 0%nat, o].
    destruct (IH F) as (n & o' & E & N'). by exists (S n), o'. }
  exists n. unfold utxo_of. rewrite E. cbn. rewrite N. eauto.
Qed.

Lemma live_utxo v n : (live v ≫= fun v => utxo_of v n) = utxo_of v n.
Proof. unfold live. destruct (coins_is_pruned v) eqn:E; [|done]. symmetry. by apply (proj1 (pruned_utxo v)). Qed.

Section Spec.
Context `{Allocator} `{HostOrder} `{CommitmentSkip} {V : Type} `{!CoinsViewVtable V} `{!CoinsViewLaws V} (Mem : memory_ok).
Abbreviation cache := (coins_view_cache V).

(** The cache has table [M] and lists [U]. *)
Record tracks (c : cache) (M : gmap uint256 coins_cache_entry) (U : utxo_set) : Prop := {
  tr_repr : cache_repr c M;
  tr_lists : lists (shows c M) U;
}.

(** Two caches that agree on everything but their table and its accounting. *)
Definition same_frame (c c' : cache) : Prop := cache_best c' = cache_best c /\ commitment c' = commitment c.
Lemma same_frame_trans c1 c2 c3 : same_frame c1 c2 -> same_frame c2 c3 -> same_frame c1 c3.
Proof. unfold same_frame. intuition congruence. Qed.

Lemma quiet_tracks c c' M M' U : tracks c M U -> quiet c c' M M' -> tracks c' M' U /\ same_frame c c'.
Proof.
  intros [R [Hl Hk]] (R' & S & B & Hh & C & _). split; [split; [done|split; [|done]]|split].
  - intros k n L. rewrite <- S by done. by apply Hl.
  - unfold cache_best. by rewrite Hh, B.
  - done.
Qed.

Lemma tracks_utxo c M U k n : tracks c M U -> length k = 32%nat -> U !! (k, n) = shows c M k ≫= fun v => utxo_of v n.
Proof. intros [_ [Hl _]] L. by apply Hl. Qed.

(** A pointer to a dirty entry that holds the record of [k]. *)
Lemma modify_tracks c M U k : tracks c M U -> length k = 32%nat ->
  exists c' s e M', coins_view_cache_modify c k = Some (c', Some s) /\ points (cache_coins c') s k e /\ dirty e = true /\
  tracks c' M' U /\ same_frame c c' /\ (forall n, U !! (k, n) = utxo_of (e_coins e) n) /\ retains M M' /\ M' !! k = Some e.
Proof.
  intros T L. destruct (modify_spec Mem c M k (tr_repr _ _ _ T) L) as (c' & s & e & E & P & D & _ & Q).
  destruct (quiet_tracks _ _ _ _ _ T Q) as [T' F]. exists c', s, e, (<[k := e]> M). split_and!; try done; [|apply Q|apply lookup_insert_eq].
  intros n. rewrite (tracks_utxo _ _ _ k n T' L), shows_insert, decide_True by done. apply live_utxo.
Qed.

(** Writing a dirty entry through a pointer: the record of [k] is replaced. *)
Lemma write_tracks c c' M U k s e e' U' : tracks c M U -> points (cache_coins c) s k e -> dirty e' = true ->
  same_store (with_map c (set_entry (cache_coins c) s e')) c' ->
  (forall n, U' !! (k, n) = utxo_of (e_coins e') n) -> (forall k' n, k' <> k -> U' !! (k', n) = U !! (k', n)) ->
  tracks c' (<[k := e']> M) U' /\ points (cache_coins c') s k e' /\ cache_best c' = cache_best c.
Proof.
  intros [R [Hl Hk]] P D Es Hn Ho. destruct (write_repr c M s k e e' R P D) as [R' P'].
  pose proof (same_store_repr _ _ _ Es R') as R2. destruct Es as (Eb & Em & Eh). cbn in Eb, Em, Eh.
  assert (length k = 32%nat) as L.
  { eapply holds_keys; [apply (repr_holds _ _ (cr_map _ _ R))|exact P]. }
  split; [split; [done|split]|].
  - intros k' n L'. rewrite shows_insert. case_decide as Dk.
    + subst. rewrite live_utxo. apply Hn.
    + rewrite Ho by done. rewrite (shows_base c c') by done. by apply Hl.
  - intros k' n u E. destruct (decide (k' = k)) as [->|N]; [done|]. rewrite Ho in E by done. by eapply Hk.
  - rewrite Em. split; [done|]. unfold cache_best. by rewrite Eb, Eh.
Qed.

Lemma set_coins_eq (c : cache) s k e v : points (cache_coins c) s k e ->
  set_coins c s v = Some (with_map c (set_entry (cache_coins c) s (mk_entry v (e_flags e)))).
Proof. intros P. unfold set_coins. by rewrite (points_entry _ _ _ _ P). Qed.

Lemma account_set (c : cache) a b c0 : same_store c0 c -> same_store c0 (coins_view_cache_account_vout_resize c a b).
Proof.
  intros (E1 & E2 & E3). destruct (account_store c a b) as [(F1 & F2 & F3) _]. split_and!; congruence.
Qed.

(** *** Growing the array shows nothing *)

Lemma resize_utxo v n k : utxo_of (resize_vout v n) k = if decide (Z.of_nat k < n) then utxo_of v k else None.
Proof.
  unfold utxo_of, resize_vout. cbn [with_vout c_vout is_coinbase c_height c_version].
  destruct (decide (k < length (take (Z.to_nat n) (c_vout v)))%nat) as [Hk|Hk].
  - rewrite lookup_app_l by done. rewrite length_take in Hk. rewrite lookup_take_lt by lia. by rewrite decide_True by lia.
  - rewrite lookup_app_r by lia. rewrite length_take in Hk.
    destruct (replicate _ _ !! _) as [o|] eqn:E.
    + apply lookup_replicate in E as [-> E]. cbn. case_decide; [|done].
      rewrite length_take in E. by rewrite lookup_ge_None_2 by (unfold len in *; lia).
    + cbn. case_decide; [|done]. apply lookup_replicate_None in E. rewrite length_take in E.
      by rewrite lookup_ge_None_2 by (unfold len in *; lia).
Qed.

Lemma resize_grow v n k : len (c_vout v) <= n -> utxo_of (resize_vout v n) k = utxo_of v k.
Proof.
  intros Hn. rewrite resize_utxo. case_decide; [done|]. unfold utxo_of. by rewrite lookup_ge_None_2 by (unfold len in *; lia).
Qed.

(** *** Spending an input *)

(** A place of the table with an emptied output. *)
Definition nulled (M : gmap uint256 coins_cache_entry) (x : uint256 * nat) : Prop :=
  exists e, M !! fst x = Some e /\ c_vout (e_coins e) !! snd x = Some tx_out_set_null.

Lemma retains_nulled M M' x : retains M M' -> nulled M x -> nulled M' x.
Proof. intros R (e & E & N). destruct (R _ _ E) as (e' & E' & C). exists e'. by rewrite C. Qed.

(** From [M] to [M'], whatever was emptied and the inputs [l] are, but for the outputs
    of [t]. *)
Definition empties (t : option uint256) (l : list tx_in) (M M' : gmap uint256 coins_cache_entry) : Prop :=
  forall x, t <> Some (fst x) -> nulled M x \/ x ∈ map (op_key ∘ prevout) l -> nulled M' x.

Lemma empties_app t l l' M1 M2 M3 : empties t l M1 M2 -> empties t l' M2 M3 -> empties t (l ++ l') M1 M3.
Proof. intros E1 E2 x N Hx. apply E2; [done|]. rewrite map_app, elem_of_app in Hx. destruct Hx as [Hx|[Hx|Hx]]; [left; apply E1; tauto..|by right]. Qed.
Lemma empties_weaken t l M M' : empties None l M M' -> empties t l M M'.
Proof. intros E x _. by apply E. Qed.

(** What the undo record keeps of the output spent: the record's own fields only
    when no other output of the transaction is left. *)
Definition undo_for (U : utxo_set) (k : uint256) (un : tx_in_undo) (u : utxo) : Prop :=
  u_txout un = ut_out u /\
  ((absent k U /\ u_coinbase un = ut_coinbase u /\ u_height un = u32 (ut_height u) /\ u_version un = ut_version u) \/
   ((exists n u', U !! (k, n) = Some u') /\ u_height un = 0)).

Definition outpoint_ok (op : outpoint) : Prop := length (op_hash op) = 32%nat /\ 0 <= op_n op < UINT32_MAX.

Lemma capture_spec v n o un : c_vout v !! Z.to_nat n = Some o -> tx_out_is_null o = false ->
  exists v' un', coins_math_capture_undo (Some v) n (Some un) = ZCL_OK (v', un') /\
  (forall k, utxo_of v' k = if decide (k = Z.to_nat n) then None else utxo_of v k) /\
  c_vout v' = <[Z.to_nat n := tx_out_set_null]> (c_vout v) /\ u_txout un' = o /\
  (coins_is_pruned v' = true -> u_coinbase un' = is_coinbase v /\ u_height un' = u32 (c_height v) /\ u_version un' = c_version v) /\
  (coins_is_pruned v' = false -> u_height un' = u_height un).
Proof.
  intros E N. unfold coins_math_capture_undo, coins_math_spend. rewrite E, N. cbn [fst].
  set (v' := with_vout v _). exists v'. eexists. split; [reflexivity|]. split.
  { intros k. unfold v', utxo_of. cbn [with_vout c_vout is_coinbase c_height c_version]. case_decide as D.
    - subst. by rewrite list_lookup_insert_eq by (by eapply lookup_lt_Some).
    - by rewrite list_lookup_insert_ne by done. }
  split; [done|]. unfold coins_is_pruned. destruct (coins_math_is_pruned (Some v')); by split_and!.
Qed.

Lemma spend_input_spec c M U i : tracks c M U -> outpoint_ok (prevout i) ->
  match U !! op_key (prevout i) with
  | Some u =>
      if MoneyRange (value (ut_out u)) then
        exists c' M' un, spend_input c i tx_in_undo_init = Some (c', Some un) /\
        tracks c' M' (delete (op_key (prevout i)) U) /\ undo_for (delete (op_key (prevout i)) U) (op_hash (prevout i)) un u /\
        cache_best c' = cache_best c /\ commitment c' = item_remove (commitment c) (item_of (op_key (prevout i), u)) /\
        empties None [i] M M'
      else exists c', spend_input c i tx_in_undo_init = Some (c', None)
  | None => exists c', spend_input c i tx_in_undo_init = Some (c', None)
  end.
Proof.
  intros T [L Hn]. unfold spend_input, op_key. cbv zeta. set (k := op_hash (prevout i)) in *. set (n := op_n (prevout i)) in *.
  destruct (modify_tracks c M U k T L) as (c1 & s & e & M1 & E & P & D & T1 & [B1 C1] & Ho & Hr & He). rewrite E.
  unfold grow_entry_vout_for_spend. rewrite (points_entry _ _ _ _ P). rewrite (Ho (Z.to_nat n)).
  destruct (Z.leb_spec (len (c_vout (e_coins e))) n) as [Hl|Hl].
  - rewrite wrap_id by (unfold in_u, UINT32_MAX in *; lia). destruct (Z.eqb_spec (n + 1) 0); [lia|]. rewrite Mem. cbn [negb].
    rewrite (set_coins_eq _ _ _ _ _ P). set (e' := mk_entry _ _).
    assert (utxo_of (e_coins e) (Z.to_nat n) = None) as ->.
    { unfold utxo_of. by rewrite lookup_ge_None_2 by (unfold len in Hl; lia). }
    match goal with |- context [coins_view_cache_account_vout_resize ?c ?a ?b] => set (c2 := coins_view_cache_account_vout_resize c a b) end.
    destruct (write_tracks c1 c2 M1 U k s e e' U) as (_ & P2 & _); [done|done|done|by apply account_set|..].
    { intros j. rewrite Ho. symmetry. apply resize_grow. lia. }
    { done. }
    rewrite (points_entry _ _ _ _ P2). subst e'. cbn [e_coins].
    unfold resize_vout. cbn [with_vout c_vout]. rewrite lookup_app_r by (rewrite length_take; unfold len in *; lia).
    rewrite lookup_replicate_2 by (rewrite length_take; unfold len in *; lia). by exists c2.
  - rewrite (points_entry _ _ _ _ P). destruct (lookup_lt_is_Some_2 (c_vout (e_coins e)) (Z.to_nat n)) as [o Eo]; [unfold len in Hl; lia|].
    rewrite Eo. unfold utxo_of at 1. rewrite Eo. cbn [mbind option_bind]. destruct (tx_out_is_null o) eqn:N; [by exists c1|]. cbn [ut_out].
    destruct (MoneyRange (value o)); cbn [negb]; [|by exists c1].
    destruct (capture_spec (e_coins e) n o tx_in_undo_init Eo N) as (v' & un & Ec & Hv & Hc & Eun & Hp & Hnp). rewrite Ec.
    unfold set_coins. cbn [with_commitment cache_coins]. rewrite (points_entry _ _ _ _ P).
    set (e' := mk_entry v' (e_flags e)). eexists _, (<[k := e']> M1), un. split; [reflexivity|].
    set (c' := with_map _ _). set (U' := delete (k, Z.to_nat n) U).
    assert (forall j, U' !! (k, j) = utxo_of v' j) as Hu.
    { intros j. rewrite Hv, <- Ho. unfold U'. case_decide as Dj; [subst; apply lookup_delete_eq|].
      apply lookup_delete_ne. congruence. }
    destruct (write_tracks c1 c' M1 U k s e e' U') as (T' & _ & B'); [done|done|done|done|exact Hu| |].
    { intros k' j Nk. apply lookup_delete_ne. congruence. }
    split; [done|]. split; [|split; [by rewrite B'|split]].
    + split; [done|]. cbn [ut_coinbase ut_height ut_version]. destruct (coins_is_pruned v') eqn:Pv.
      * left. split; [intros j; rewrite Hu; by apply (proj1 (pruned_utxo v'))|by apply Hp].
      * right. split; [|by apply Hnp]. destruct (unpruned_utxo v' Pv) as (j & u' & Eu). exists j, u'. by rewrite Hu.
    + subst c'. cbn [with_map with_commitment commitment]. rewrite C1. unfold item_remove, item_of.
      cbn [fst snd it_txid it_vout it_value it_height ut_out ut_height]. by rewrite Z2Nat.id by lia.
    + intros [k' j] _ Hx. unfold nulled. cbn [fst snd]. destruct (decide (k' = k)) as [->|Nk].
      * exists e'. split; [apply lookup_insert_eq|]. subst e'. cbn [e_coins]. rewrite Hc. destruct (decide (j = Z.to_nat n)) as [->|Nj].
        { apply list_lookup_insert_eq. by eapply lookup_lt_Some. }
        rewrite list_lookup_insert_ne by done. destruct Hx as [Hx|Hx]; [|apply list_elem_of_singleton in Hx; change ((k, j) = (k, Z.to_nat n)) in Hx; congruence].
        destruct (retains_nulled _ _ _ Hr Hx) as (e0 & E0 & N0). cbn [fst snd] in *. congruence.
      * destruct Hx as [Hx|Hx]; [|apply list_elem_of_singleton in Hx; change ((k', j) = (k, Z.to_nat n)) in Hx; congruence].
        destruct (retains_nulled _ _ _ Hr Hx) as (e0 & E0 & N0). exists e0. by rewrite lookup_insert_ne.
Qed.

(** *** The inputs of a transaction *)

Inductive undone : utxo_set -> list tx_in -> tx_undo -> list utxo -> Prop :=
| undone_nil U : undone U [] [] []
| undone_cons U i l un uns u us :
    U !! op_key (prevout i) = Some u ->
    undo_for (delete (op_key (prevout i)) U) (op_hash (prevout i)) un u ->
    undone (delete (op_key (prevout i)) U) l uns us ->
    undone U (i :: l) (un :: uns) (u :: us).

(** With tracking on, the commitment follows the set from [U] to [U']. *)
Definition follows (uc : utxo_commitment) (U : utxo_set) (uc' : utxo_commitment) (U' : utxo_set) : Prop :=
  g_utxo_commitment_skip = false -> Z.of_nat (base.size U) < 2 ^ 64 -> uc = committed U -> uc' = committed U'.

Lemma follows_remove uc U k u : U !! k = Some u -> follows uc U (item_remove uc (item_of (k, u))) (delete k U).
Proof.
  intros E Skip Sz ->. unfold item_remove, committed. apply commitment_of_remove; [done| |by apply items_delete].
  by rewrite items_size.
Qed.

Lemma spend_inputs_spec c M U l : tracks c M U -> Forall (fun i => outpoint_ok (prevout i)) l ->
  match spend_set U l with
  | Some (us, U') =>
      if forallb (fun u => MoneyRange (value (ut_out u))) us then
        exists c' M' uns, spend_inputs c l (replicate (length l) tx_in_undo_init) = Some (c', Some uns) /\
        tracks c' M' U' /\ undone U l uns us /\ cache_best c' = cache_best c /\ follows (commitment c) U (commitment c') U' /\
        empties None l M M'
      else exists c', spend_inputs c l (replicate (length l) tx_in_undo_init) = Some (c', None)
  | None => exists c', spend_inputs c l (replicate (length l) tx_in_undo_init) = Some (c', None)
  end.
Proof.
  intros T W. revert c M U T. induction W as [|i l Hi W IH]; intros c M U T; cbn [spend_set length replicate spend_inputs].
  { exists c, M, []. split; [done|]. split; [done|]. split; [constructor|]. split; [done|]. split; [by intros ? ? ?|].
    intros x _ [Hx|Hx]; [done|]. by apply not_elem_of_nil in Hx. }
  pose proof (spend_input_spec c M U i T Hi) as Sp.
  destruct (U !! op_key (prevout i)) as [u|] eqn:Eu; cbn [mbind option_bind]; [|by destruct Sp as [c' ->]; exists c'].
  destruct (MoneyRange (value (ut_out u))) eqn:Mu.
  2:{ destruct Sp as [c' ->]. destruct (spend_set _ l) as [[us U']|]; cbn; rewrite ?Mu; by exists c'. }
  destruct Sp as (c1 & M1 & un & -> & T1 & Un & B1 & C1 & N1). specialize (IH c1 M1 _ T1).
  destruct (spend_set (delete (op_key (prevout i)) U) l) as [[us U']|] eqn:S; cbn [mbind option_bind fst snd forallb];
    [|by destruct IH as [c' ->]; exists c'].
  rewrite Mu. cbn [andb]. destruct (forallb _ us); [|by destruct IH as [c' ->]; exists c'].
  destruct IH as (c' & M' & uns & -> & T' & Us & B' & F & N'). exists c', M', (un :: uns). split; [done|]. split; [done|].
  split; [by econstructor|]. split; [congruence|]. split; [|by apply (empties_app _ [i] l M M1 M')]. intros Skip Sz Ec. apply F; [done| |].
  - rewrite map_size_delete_Some by done. lia.
  - rewrite C1. by apply follows_remove.
Qed.

(** *** The outputs of a transaction *)

Lemma cleanup_null n l k o : (cleanup_loop n l <= k < n)%nat -> l !! k = Some o -> tx_out_is_null o = true.
Proof.
  induction n as [|n IH]; intros Hk E; [lia|]. cbn [cleanup_loop] in Hk.
  destruct (l !! n) as [o'|] eqn:En; [|lia]. destruct (tx_out_is_null o') eqn:N; [|lia].
  destruct (decide (k = n)) as [->|]; [congruence|]. apply IH; [lia|done].
Qed.

Lemma cleanup_le n l : (cleanup_loop n l <= n)%nat.
Proof. induction n as [|n IH]; cbn; [done|]. repeat case_match; lia. Qed.

Lemma cleanup_utxo v n : utxo_of (coins_cleanup v) n = utxo_of v n.
Proof.
  unfold coins_cleanup, coins_math_cleanup, utxo_of. cbn [with_vout c_vout is_coinbase c_height c_version].
  set (m := cleanup_loop _ _). destruct (decide (n < m)%nat); [by rewrite lookup_take_lt|].
  rewrite lookup_take_ge by lia. destruct (c_vout v !! n) as [o|] eqn:E; [|done]. cbn.
  rewrite (cleanup_null (length (c_vout v)) (c_vout v) n o); [done| |done]. apply lookup_lt_Some in E. subst m. lia.
Qed.

Lemma from_transaction_spec tx h : len (vout tx) <= 65536 ->
  exists v, coins_from_transaction tx h = (v, true) /\
  (forall n, utxo_of v n = o ← vout tx !! n; if spendable o then Some (created_utxo tx h o) else None) /\
  len (c_vout v) <= 65536 /\ is_coinbase v = transaction_is_coinbase tx /\ c_height v = h /\ c_version v = version tx.
Proof.
  intros Hl. unfold coins_from_transaction. destruct (Z.ltb_spec 65536 (len (vout tx))); [lia|].
  unfold coins_alloc. rewrite array_alloc_ok by done. cbn [negb]. eexists. split; [reflexivity|]. split_and!; [|..|done|done|done].
  - intros n. rewrite cleanup_utxo. unfold utxo_of. cbn [with_vout c_vout is_coinbase c_height c_version].
    setoid_rewrite list_lookup_fmap. destruct (vout tx !! n) as [o|]; [|done]. cbn. unfold spendable.
    destruct (script_is_unspendable (script_pub_key o)); [done|]. by destruct (tx_out_is_null o).
  - unfold coins_cleanup, coins_math_cleanup. cbn [with_vout c_vout]. unfold len in *. rewrite length_take, length_map. lia.
Qed.

Lemma from_transaction_over tx h : 65536 < len (vout tx) -> exists v, coins_from_transaction tx h = (v, false).
Proof. intros Hl. unfold coins_from_transaction. destruct (Z.ltb_spec 65536 (len (vout tx))); [by eexists|lia]. Qed.

Definition outputs_in_range (tx : transaction) : bool := forallb (fun o => negb (spendable o) || MoneyRange (value o)) (vout tx).

Lemma forallb_lookup {A} (p : A -> bool) l : forallb p l = true <-> forall n x, l !! n = Some x -> p x = true.
Proof.
  rewrite forallb_forall. split.
  - intros F n x E. apply F, list_elem_of_In, list_elem_of_lookup. eauto.
  - intros F x E. apply list_elem_of_In, list_elem_of_lookup in E as [n E]. by eapply F.
Qed.

Lemma add_new_outputs_ok uc k h vi l :
  snd (add_new_outputs_to_commitment uc k h vi l) = forallb (fun o => tx_out_is_null o || MoneyRange (value o)) l.
Proof.
  revert uc vi. induction l as [|o l IH]; intros uc vi; cbn [add_new_outputs_to_commitment forallb]; [done|].
  destruct (tx_out_is_null o); cbn [orb andb]; [apply IH|]. destruct (MoneyRange (value o)); cbn [negb andb]; [apply IH|done].
Qed.

(** The outputs of a record go into the commitment one by one. *)
Lemma add_new_outputs_follows tx h k vi l W U' : g_utxo_commitment_skip = false -> Z.of_nat (vi + length l) < 2 ^ 32 ->
  forallb (fun o => tx_out_is_null o || MoneyRange (value o)) l = true ->
  (forall n, (vi <= n)%nat -> W !! (k, n) = None) ->
  (forall k' n, U' !! (k', n) = if decide (k' = k /\ (vi <= n)%nat) then
     o ← l !! (n - vi)%nat; if tx_out_is_null o then None else Some (created_utxo tx h o) else W !! (k', n)) ->
  fst (add_new_outputs_to_commitment (committed W) k h (Z.of_nat vi) l) = committed U'.
Proof.
  intros Skip. revert vi W. induction l as [|o l IH]; intros vi W Hl Hr HW HU; cbn [add_new_outputs_to_commitment].
  - cbn. f_equal. apply map_eq. intros [k' n]. rewrite HU. case_decide as D; [|done]. destruct D as [-> D]. cbn. rewrite lookup_nil. cbn. by apply HW.
  - cbn [forallb length] in *. apply andb_true_iff in Hr as [Hr Hr'].
    replace (Z.of_nat vi + 1) with (Z.of_nat (S vi)) by lia.
    assert (forall n, (S vi <= n)%nat -> (o :: l) !! (n - vi)%nat = l !! (n - S vi)%nat) as Sh.
    { intros n Hn. by replace (n - vi)%nat with (S (n - S vi)) by lia. }
    destruct (tx_out_is_null o) eqn:N; cbn [orb] in Hr; rewrite ?Hr; cbn [negb].
    + apply IH; [lia|done|intros; apply HW; lia|]. intros k' n. rewrite HU.
      destruct (decide (k' = k)) as [->|Nk]; [|by rewrite !decide_False by (by intros [? _])].
      destruct (decide (vi = n)) as [->|Nn].
      * rewrite decide_True by (split; [done|lia]). rewrite decide_False by (intros [_ ?]; lia). rewrite Nat.sub_diag. cbn. rewrite N. symmetry. by apply HW.
      * destruct (decide (vi < n)%nat).
        -- rewrite !decide_True by (split; [done|lia]). by rewrite Sh by lia.
        -- by rewrite !decide_False by (intros [_ ?]; lia).
    + assert (utxo_commitment_add (committed W) k (u32 (Z.of_nat vi)) (value o) h = committed (<[(k, vi) := created_utxo tx h o]> W)) as ->.
      { unfold committed. rewrite items_insert by (by apply HW). rewrite wrap_id by (unfold in_u; lia).
        by rewrite <- commitment_of_add by done. }
      apply IH; [lia|done|intros; rewrite lookup_insert_ne by (intros [= ]; lia); apply HW; lia|]. intros k' n. rewrite HU.
      destruct (decide (k' = k)) as [->|Nk]; [|rewrite !decide_False by (by intros [? _]); by rewrite lookup_insert_ne by congruence].
      destruct (decide (vi = n)) as [->|Nn].
      * rewrite decide_True by (split; [done|lia]). rewrite decide_False by (intros [_ ?]; lia). rewrite Nat.sub_diag. cbn. by rewrite N, lookup_insert_eq.
      * rewrite lookup_insert_ne by congruence. destruct (decide (vi < n)%nat).
        -- rewrite !decide_True by (split; [done|lia]). by rewrite Sh by lia.
        -- by rewrite !decide_False by (intros [_ ?]; lia).
Qed.

Lemma create_outputs_spec c M U tx h : tracks c M U -> length (tx_hash tx) = 32%nat ->
  let U' := created tx h ∪ without_tx (tx_hash tx) U in
  if (len (vout tx) <=? 65536) && outputs_in_range tx then
    exists c' M', create_outputs tx c h = Some (c', true) /\ tracks c' M' U' /\ cache_best c' = cache_best c /\
    (absent (tx_hash tx) U -> follows (commitment c) U (commitment c') U') /\ empties (Some (tx_hash tx)) [] M M'
  else exists c', create_outputs tx c h = Some (c', false).
Proof.
  intros T L U'. unfold create_outputs. set (k := tx_hash tx) in *.
  destruct (modify_new_spec Mem c M k (tr_repr _ _ _ T) L) as (c1 & s & e & -> & P & D & _ & R1 & Eb & Eh & Ec).
  rewrite (points_entry _ _ _ _ P).
  destruct (Z.leb_spec (len (vout tx)) 65536) as [Hl|Hl]; cbn [andb].
  2:{ destruct (from_transaction_over tx h Hl) as [v ->]. rewrite (set_coins_eq _ _ _ _ _ P). by eexists. }
  destruct (from_transaction_spec tx h Hl) as (v & -> & Hv & Lv & _). rewrite (set_coins_eq _ _ _ _ _ P). cbn [negb].
  match goal with |- context [coins_view_cache_account_vout_resize ?c ?a ?b] => set (c2 := coins_view_cache_account_vout_resize c a b);
    pose proof (account_set c a b c (conj eq_refl (conj eq_refl eq_refl))) as Es; pose proof (proj2 (account_store c a b)) as Ec2 end.
  fold c2 in Es, Ec2. cbn [with_map commitment] in Ec2.
  pose proof (add_new_outputs_ok (commitment c2) k h 0 (c_vout v)) as Ok.
  assert (outputs_in_range tx = forallb (fun o => tx_out_is_null o || MoneyRange (value o)) (c_vout v)) as ->.
  { apply eq_true_iff_eq. unfold outputs_in_range. rewrite !forallb_lookup. split; intros F n o E.
    - specialize (Hv n). unfold utxo_of in Hv. rewrite E in Hv. cbn in Hv. destruct (tx_out_is_null o); [done|].
      destruct (vout tx !! n) as [o'|] eqn:E'; [|done]. cbn in Hv. specialize (F n o' E').
      destruct (spendable o'); [|done]. by injection Hv as ->.
    - specialize (Hv n). rewrite E in Hv. cbn in Hv. destruct (spendable o); [|done]. unfold utxo_of in Hv.
      destruct (c_vout v !! n) as [o'|] eqn:E'; [|done]. cbn in Hv. specialize (F n o' E').
      destruct (tx_out_is_null o'); [done|]. injection Hv as -> _ _ _. done. }
  destruct (add_new_outputs_to_commitment _ _ _ _ _) as [uc ok] eqn:Ea. cbn [snd] in Ok. subst ok.
  destruct (forallb _ (c_vout v)) eqn:Hr; [|by eexists].
  eexists _, (<[k := mk_entry v (e_flags e)]> (<[k := e]> M)). split; [reflexivity|].
  set (c3 := with_commitment c2 uc).
  destruct T as [R [Hlk Hkk]]. destruct (write_repr c1 _ s k e (mk_entry v (e_flags e)) R1 P D) as [R2 _].
  assert (same_store (with_map c1 (set_entry (cache_coins c1) s (mk_entry v (e_flags e)))) c3) as Es3 by exact Es.
  split; [|split; [|split]].
  - split; [by eapply same_store_repr|]. destruct Es3 as (F1 & _). cbn in F1. split.
    + intros k' n L'. unfold U'. rewrite connect_lookup. fold k. rewrite insert_insert_eq, shows_insert. case_decide as Dk.
      * subst. rewrite live_utxo. by rewrite Hv.
      * rewrite (shows_base c c3) by exact (eq_trans F1 Eb). by apply Hlk.
    + intros k' n u E. unfold U' in E. rewrite connect_lookup in E. case_decide; [by subst|by eapply Hkk].
  - destruct Es3 as (F1 & _ & F3). unfold cache_best. rewrite F1, F3. cbn [with_map c_base hash_block]. by rewrite Eb, Eh.
  - intros A Skip Sz Ecm. cbn [c3 with_commitment commitment]. rewrite Ec2, Ec, Ecm in Ea.
    replace uc with (fst (add_new_outputs_to_commitment (committed U) k h (Z.of_nat 0) (c_vout v))) by (change (Z.of_nat 0) with 0; by rewrite Ea).
    apply (add_new_outputs_follows tx); [done|unfold len in Lv; cbn; lia|done|intros; apply A|].
    intros k' n. unfold U'. rewrite connect_lookup. fold k. destruct (decide (k' = k)) as [->|Nk].
    + rewrite decide_True by (split; [done|lia]). rewrite Nat.sub_0_r, <- Hv. unfold utxo_of.
      specialize (Hv n). unfold utxo_of in Hv. destruct (c_vout v !! n) as [o|]; [|done]. cbn in *.
      destruct (tx_out_is_null o); [done|]. destruct (vout tx !! n) as [o'|]; [|done]. cbn in Hv.
      destruct (spendable o'); [|done]. injection Hv as -> E1 E2 E3. unfold created_utxo. congruence.
    + by rewrite decide_False by (by intros [? _]).
  - intros [k' n] Nk [(e0 & E0 & N0)|Hx]; [|by apply not_elem_of_nil in Hx]. cbn [fst snd] in *. exists e0. cbn [fst snd].
    by rewrite !lookup_insert_ne by (intros <-; by apply Nk).
Qed.

(** *** A transaction *)

Definition tx_ids_ok (tx : transaction) : Prop :=
  length (tx_hash tx) = 32%nat /\ (transaction_is_coinbase tx = false -> Forall (fun i => outpoint_ok (prevout i)) (vin tx)).
(** The amounts and the number of outputs that the update itself checks. *)
Definition tx_amounts_ok (us : list utxo) (tx : transaction) : bool :=
  forallb (fun u => MoneyRange (value (ut_out u))) us && (len (vout tx) <=? 65536) && outputs_in_range tx.

Lemma absent_after_spend U l us U' k : spend_set U l = Some (us, U') -> absent k U -> absent k U'.
Proof. intros S. by eapply absent_subset, spend_set_subset. Qed.

Lemma spend_set_size U l us U' : spend_set U l = Some (us, U') -> (base.size U' <= base.size U)%nat.
Proof. intros S. apply map_subseteq_size. by eapply spend_set_subset. Qed.

Lemma update_coins_spec c M U tx txundo h : tracks c M U -> tx_ids_ok tx ->
  match connect_tx U tx h with
  | Some (us, U') =>
      if tx_amounts_ok us tx then
        exists c' M' uns, update_coins_with_undo tx c txundo h = Some (c', Some uns) /\ tracks c' M' U' /\
        cache_best c' = cache_best c /\ (absent (tx_hash tx) U -> follows (commitment c) U (commitment c') U') /\
        (if transaction_is_coinbase tx then uns = txundo else undone U (vin tx) uns us) /\
        empties (Some (tx_hash tx)) (if transaction_is_coinbase tx then [] else vin tx) M M'
      else exists c', update_coins_with_undo tx c txundo h = Some (c', None)
  | None => exists c', update_coins_with_undo tx c txundo h = Some (c', None)
  end.
Proof.
  intros T [L W]. unfold update_coins_with_undo, connect_tx, tx_amounts_ok.
  destruct (transaction_is_coinbase tx); cbn [mbind option_bind fst snd forallb andb].
  - pose proof (create_outputs_spec c M U tx h T L) as Sp. cbv zeta in Sp.
    destruct (_ && _); [|destruct Sp as [c' ->]; by exists c'].
    destruct Sp as (c' & M' & -> & T' & B' & F & N'). exists c', M', txundo. by split_and!.
  - unfold tx_undo_alloc. rewrite array_alloc_ok by done. replace (Z.to_nat (len (vin tx))) with (length (vin tx)) by (unfold len; lia).
    pose proof (spend_inputs_spec c M U (vin tx) T (W eq_refl)) as Sp.
    destruct (spend_set U (vin tx)) as [[us U1]|] eqn:S; cbn [mbind option_bind fst snd]; [|by destruct Sp as [c' ->]; exists c'].
    destruct (forallb _ us); cbn [andb]; [|by destruct Sp as [c' ->]; exists c'].
    destruct Sp as (c1 & M1 & uns & -> & T1 & Un & B1 & F1 & N1).
    pose proof (create_outputs_spec c1 M1 U1 tx h T1 L) as Sp. cbv zeta in Sp.
    destruct (_ && _); [|destruct Sp as [c' ->]; by exists c'].
    destruct Sp as (c' & M' & -> & T' & B' & F & N'). exists c', M', uns. split_and!; [done|done|congruence| |done|].
    2:{ rewrite <- (app_nil_r (vin tx)). eapply empties_app; [by apply empties_weaken|done]. }
    intros A Skip Sz Ec. apply F; [by eapply absent_after_spend|done| |by apply F1].
    pose proof (spend_set_size _ _ _ _ S). lia.
Qed.

(** *** Restoring an input *)

Lemma utxo_of_insert v n o k : (n < length (c_vout v))%nat ->
  utxo_of (with_vout v (<[n := o]> (c_vout v))) k =
  if decide (k = n) then (if tx_out_is_null o then None else Some (mk_utxo o (is_coinbase v) (c_height v) (c_version v)))
  else utxo_of v k.
Proof.
  intros Hn. unfold utxo_of. cbn [with_vout c_vout is_coinbase c_height c_version]. case_decide.
  - subst. by rewrite list_lookup_insert_eq.
  - by rewrite list_lookup_insert_ne by done.
Qed.

(** The record with the metadata of the undo record put in. *)
Lemma utxo_of_meta cb h ver v k : utxo_of (mk_coins cb (c_vout v) h ver) k =
  (fun u => mk_utxo (ut_out u) cb h ver) <$> utxo_of v k.
Proof. unfold utxo_of. cbn. destruct (c_vout v !! k) as [o|]; [|done]. cbn. by destruct (tx_out_is_null o). Qed.

Lemma restore_input_spec c M U i un u : tracks c M U -> outpoint_ok (prevout i) -> op_n (prevout i) < MAX_BLOCK_SIZE ->
  U !! op_key (prevout i) = None -> undo_for U (op_hash (prevout i)) un u ->
  tx_out_is_null (ut_out u) = false -> 0 < ut_height u < 2 ^ 31 -> coherent (<[op_key (prevout i) := u]> U) ->
  exists c' M', restore_input c i un = Some (c', true) /\ tracks c' M' (<[op_key (prevout i) := u]> U) /\ cache_best c' = cache_best c /\
  commitment c' = commitment c.
Proof.
  intros T [L Hn] Hm Hno [Et Hun] Hnn Hh Coh. unfold restore_input, op_key in *. cbv zeta.
  set (k := op_hash (prevout i)) in *. set (n := op_n (prevout i)) in *. set (nn := Z.to_nat n) in *.
  destruct (modify_tracks c M U k T L) as (c1 & s & e & M1 & E & P & D & T1 & [B1 C1] & Ho & _). rewrite E.
  assert (exists c2 M2 e2, grow_entry_vout_for_restore c1 s n = Some (c2, true) /\ tracks c2 M2 U /\ points (cache_coins c2) s k e2 /\ dirty e2 = true /\
    cache_best c2 = cache_best c1 /\ commitment c2 = commitment c1 /\
    (nn < length (c_vout (e_coins e2)))%nat /\ forall j, U !! (k, j) = utxo_of (e_coins e2) j) as (c2 & M2 & e2 & -> & T2 & P2 & D2 & B2 & C2 & Ln & Ho2).
  { unfold grow_entry_vout_for_restore. rewrite (points_entry _ _ _ _ P). destruct (Z.leb_spec (len (c_vout (e_coins e))) n) as [Hl|Hl].
    - destruct (Z.leb_spec MAX_BLOCK_SIZE n); [lia|]. cbv zeta. rewrite wrap_id by (unfold in_u, UINT32_MAX in *; lia).
      rewrite Mem. cbn [negb]. rewrite (set_coins_eq _ _ _ _ _ P). set (e' := mk_entry _ _).
      match goal with |- context [coins_view_cache_account_vout_resize ?c ?a ?b] => set (c2 := coins_view_cache_account_vout_resize c a b);
        pose proof (proj2 (account_store c a b)) as Ec2 end.
      assert (forall j, U !! (k, j) = utxo_of (e_coins e') j) as Hu.
      { intros j. rewrite Ho. symmetry. apply resize_grow. lia. }
      destruct (write_tracks c1 c2 M1 U k s e e' U) as (T2 & P2 & B2); [done|done|done|by apply account_set|exact Hu|done|].
      exists c2, (<[k := e']> M1), e'. split_and!; [done|done|done|done|done|exact Ec2| |exact Hu].
      subst e'. cbn [e_coins]. unfold resize_vout. cbn [with_vout c_vout]. rewrite length_app, length_take, length_replicate.
      unfold len in *. subst nn. lia.
    - exists c1, M1, e. split_and!; try done. unfold len in Hl. subst nn. lia. }
  rewrite (points_entry _ _ _ _ P2).
  set (v' := if 0 <? u_height un then _ else _).
  eexists _, _. split; [reflexivity|].
  assert (forall j, <[(k, nn) := u]> U !! (k, j) = utxo_of v' j) as Hu.
  { intros j. subst v'. rewrite Et. set (v2 := with_vout (e_coins e2) (<[nn := ut_out u]> (c_vout (e_coins e2)))).
    assert (forall j, utxo_of v2 j = if decide (j = nn) then Some (mk_utxo (ut_out u) (is_coinbase (e_coins e2)) (c_height (e_coins e2)) (c_version (e_coins e2))) else U !! (k, j)) as H2.
    { intros j'. unfold v2. rewrite utxo_of_insert by done. rewrite Hnn, Ho2. done. }
    destruct Hun as [(Ab & E1 & E2 & E3)|[(j0 & u0 & E0) Hz]].
    - rewrite E1, E2, E3. rewrite wrap_id by (unfold in_u; lia). destruct (Z.ltb_spec 0 (ut_height u)); [|lia].
      change (<[nn := ut_out u]> (c_vout (e_coins e2))) with (c_vout v2). rewrite utxo_of_meta, H2.
      rewrite swrap_id by (unfold in_s; lia || lia). destruct (decide (j = nn)) as [->|Nj].
      + rewrite lookup_insert_eq. by destruct u.
      + rewrite lookup_insert_ne by congruence. by rewrite Ab.
    - rewrite Hz. cbn [Z.ltb Z.compare]. fold v2. rewrite H2. destruct (decide (j = nn)) as [->|Nj].
      + rewrite lookup_insert_eq. f_equal. assert (j0 <> nn) as N0 by (intros ->; congruence).
        destruct (Coh k nn j0 u u0) as (F1 & F2 & F3); [apply lookup_insert_eq|by rewrite lookup_insert_ne by congruence|].
        rewrite Ho2 in E0. unfold utxo_of in E0. destruct (c_vout (e_coins e2) !! j0); [|done]. cbn in E0.
        destruct (tx_out_is_null _); [done|]. injection E0 as <-. cbn in *. destruct u. cbn in *. by subst.
      + by rewrite lookup_insert_ne by congruence. }
  match goal with |- context [set_entry (cache_coins c2) s ?x] => set (e3 := x) end.
  destruct (write_tracks c2 (with_map c2 (set_entry (cache_coins c2) s e3)) M2 U k s e2 e3 (<[(k, nn) := u]> U)) as (T3 & P3 & B3);
    [done|done|apply (mark_dirty 0)|done|exact Hu|intros; by rewrite lookup_insert_ne by congruence|].
  split_and!; [exact T3|congruence|cbn; congruence].
Qed.

(** *** Disconnecting a transaction *)

Lemma restore_inputs_app c l l' : restore_inputs c (l ++ l') =
  let? r := restore_inputs c l in match r with (c, false) => Some (c, false) | (c, true) => restore_inputs c l' end.
Proof.
  revert c. induction l as [|[i u] l IH]; intros c; [done|]. cbn [app restore_inputs].
  destruct (restore_input c i u) as [[c1 []]|]; [apply IH|done..].
Qed.

(** Only outputs of transaction [t]. *)
Definition only_tx (t : uint256) (X : utxo_set) : Prop := forall k n, k <> t -> X !! (k, n) = None.

Lemma union_lookup_other t X U k n : only_tx t X -> k <> t -> (X ∪ U) !! (k, n) = U !! (k, n).
Proof. intros O N. by rewrite lookup_union_r by (by apply O). Qed.

Lemma undo_for_union t X U k un u : only_tx t X -> k <> t -> undo_for U k un u -> undo_for (X ∪ U) k un u.
Proof.
  intros O N [E Hu]. split; [done|]. destruct Hu as [[A M0]|[(n & u' & E0) Hz]].
  - left. split; [|done]. intros n. rewrite (union_lookup_other t) by done. apply A.
  - right. split; [|done]. exists n, u'. by rewrite (union_lookup_other t).
Qed.

Lemma restore_inputs_spec t X l uns us U U1 : undone U l uns us -> spend_set U l = Some (us, U1) ->
  Forall (fun i => outpoint_ok (prevout i)) l -> only_tx t X -> absent t U -> set_wf U -> coherent (X ∪ U) ->
  forall c M, tracks c M (X ∪ U1) ->
  exists c' M', restore_inputs c (rev (zip l uns)) = Some (c', true) /\ tracks c' M' (X ∪ U) /\ cache_best c' = cache_best c /\
  commitment c' = commitment c.
Proof.
  intros Un. revert U1. induction Un as [U|U i l un uns u us Eu Hu Un IH]; intros U1 S Ok O A W Coh c M T.
  { injection S as ->. exists c, M. by split_and!. }
  cbn [spend_set] in S. rewrite Eu in S. cbn [mbind option_bind] in S.
  destruct (spend_set (delete (op_key (prevout i)) U) l) as [[us' U1']|] eqn:S1; [|done]. injection S as Eus ->. rewrite Eus in *.
  inversion Ok as [|? ? Hi Ok']; subst.
  assert (op_hash (prevout i) <> t) as Nt by (intros Et; pose proof (A (snd (op_key (prevout i)))) as An; unfold op_key in *; cbn in *; congruence).
  assert (delete (op_key (prevout i)) U ⊆ U) as Sub by apply delete_subseteq.
  destruct (IH U1 eq_refl Ok' O) with (c := c) (M := M) as (c1 & M1 & E1 & T1 & B1 & C1);
    [by eapply absent_subset|by eapply set_wf_subset| |done|].
  { eapply coherent_subset; [|exact Coh]. by apply map_union_mono_l. }
  cbn [zip zip_with rev]. rewrite restore_inputs_app, E1. cbn [restore_inputs].
  assert (<[op_key (prevout i) := u]> (X ∪ delete (op_key (prevout i)) U) = X ∪ U) as EU.
  { rewrite insert_union_r by (apply O; exact Nt). by rewrite insert_delete_id. }
  destruct (restore_input_spec c1 M1 _ i un u T1 Hi) as (c2 & M2 & E2 & T2 & B2 & C2).
  - pose proof (wf_index _ W _ _ _ Eu). unfold MAX_BLOCK_SIZE. unfold op_key in *. cbn in *. lia.
  - unfold op_key. rewrite (union_lookup_other t) by done. apply lookup_delete_eq.
  - by eapply undo_for_union.
  - by eapply wf_live.
  - by eapply wf_height.
  - by rewrite EU.
  - rewrite E2. exists c2, M2. rewrite EU in T2. split_and!; [done|done|congruence|congruence].
Qed.

Lemma remove_outputs_spec c M U k : tracks c M U -> length k = 32%nat ->
  exists c' M', remove_outputs c k = Some c' /\ tracks c' M' (without_tx k U) /\ cache_best c' = cache_best c /\ commitment c' = commitment c.
Proof.
  intros T L. unfold remove_outputs. destruct (modify_tracks c M U k T L) as (c1 & s & e & M1 & -> & P & D & T1 & [B1 C1] & Ho & _).
  rewrite (points_entry _ _ _ _ P). set (e' := mark _ _).
  destruct (write_tracks c1 (with_map c1 (set_entry (cache_coins c1) s e')) M1 U k s e e' (without_tx k U)) as (T2 & _ & B2);
    [done|done|apply (mark_dirty 0)|done|..].
  - intros n. rewrite without_lookup, decide_True by done. done.
  - intros k' n N. by rewrite without_lookup, decide_False.
  - eexists _, _. split; [reflexivity|]. split_and!; [exact T2|congruence|done].
Qed.

Definition undo_ok (U : utxo_set) (tx : transaction) (o : option tx_undo) (us : list utxo) : Prop :=
  match o with
  | None => transaction_is_coinbase tx = true
  | Some uns => transaction_is_coinbase tx = false /\ undone U (vin tx) uns us
  end.

Lemma undone_length U l uns us : undone U l uns us -> length uns = length l.
Proof. induction 1; cbn; congruence. Qed.

Lemma disconnect_tx_spec c M U tx o us U' h : set_wf U -> absent (tx_hash tx) U -> tx_ids_ok tx -> 
  connect_tx U tx h = Some (us, U') -> undo_ok U tx o us -> tracks c M U' ->
  exists c' M', disconnect_tx c tx o = Some (c', true) /\ tracks c' M' U /\ cache_best c' = cache_best c /\ commitment c' = commitment c.
Proof.
  intros W A [L Ok] Ec Hu T. set (t := tx_hash tx) in *.
  assert (only_tx t (created tx h)) as O by (intros k n N; by rewrite created_lookup, decide_False).
  assert (forall c M, tracks c M (created tx h ∪ U) ->
    exists c' M', (let? c' := remove_outputs c t in Some (c', true)) = Some (c', true) /\ tracks c' M' U /\
    cache_best c' = cache_best c /\ commitment c' = commitment c) as Remove.
  { intros c1 M1 T1. destruct (remove_outputs_spec c1 M1 _ t T1 L) as (c' & M' & -> & T' & B' & C').
    exists c', M'. split_and!; [done| |done..]. replace U with (without_tx t (created tx h ∪ U)); [done|].
    apply map_eq. intros [k n]. rewrite without_lookup. case_decide; [subst; symmetry; apply A|]. by apply (union_lookup_other t). }
  unfold disconnect_tx, connect_tx, undo_ok in *. destruct o as [uns|].
  - destruct Hu as [Nc Un]. rewrite Nc in Ec. destruct (spend_set U (vin tx)) as [[us1 U1]|] eqn:S; [|done].
    injection Ec as -> <-. fold t in T. cbn [snd] in T. rewrite without_absent in T by (by eapply absent_after_spend).
    unfold len. rewrite (undone_length _ _ _ _ Un), Z.eqb_refl. cbn [negb].
    destruct (restore_inputs_spec t (created tx h) _ _ _ _ _ Un S (Ok Nc) O A W) with (c := c) (M := M) as (c1 & M1 & -> & T1 & B1 & C1);
      [|done|].
    { intros k n n' u u'. destruct (decide (k = t)) as [->|N].
      - unfold t. intros E E'. apply lookup_union_Some_raw in E as [E|[_ E]]; [|by rewrite A in E].
        apply lookup_union_Some_raw in E' as [E'|[_ E']]; [|by rewrite A in E']. rewrite created_lookup, decide_True in E, E' by done.
        destruct (vout tx !! n) as [o|]; [|done]. destruct (vout tx !! n') as [o'|]; [|done]. cbn in *.
        destruct (spendable o), (spendable o'); by simplify_eq.
      - rewrite !(union_lookup_other t) by done. by apply (wf_coherent _ W). }
    destruct (Remove c1 M1 T1) as (c' & M' & E & T' & B' & C'). exists c', M'. split_and!; [done|done|congruence|congruence].
  - rewrite Hu in Ec. cbn [mbind option_bind fst snd] in Ec. injection Ec as <- <-. rewrite without_absent in T by done. by apply (Remove c M T).
Qed.

(** *** A run of transactions *)

(** The transactions [l], with their undo records, take [U] to [U']. *)
Inductive connected (h : Z) : utxo_set -> list (transaction * option tx_undo) -> utxo_set -> Prop :=
| connected_nil U : connected h U [] U
| connected_cons U tx o us U1 l U' :
    tx_ids_ok tx -> absent (tx_hash tx) U -> len (vout tx) <= 65536 ->
    connect_tx U tx h = Some (us, U1) -> undo_ok U tx o us ->
    connected h U1 l U' -> connected h U ((tx, o) :: l) U'.

Lemma disconnect_txs_app c l l' : disconnect_txs c (l ++ l') =
  let? r := disconnect_txs c l in match r with (c, false) => Some (c, false) | (c, true) => disconnect_txs c l' end.
Proof.
  revert c. induction l as [|[tx o] l IH]; intros c; [done|]. cbn [app disconnect_txs].
  destruct (disconnect_tx c tx o) as [[c1 []]|]; [apply IH|done..].
Qed.

Lemma connected_wf h U l U' : 0 < h < 2 ^ 31 -> connected h U l U' -> set_wf U -> set_wf U'.
Proof. intros Hh. induction 1 as [|U tx o us U1 l U' _ _ Hl Ec _ _ IH]; [done|]. intros W. apply IH. by eapply connect_wf. Qed.

Lemma disconnect_txs_spec h U l U' : 0 < h < 2 ^ 31 -> connected h U l U' -> set_wf U ->
  forall c M, tracks c M U' ->
  exists c' M', disconnect_txs c (rev l) = Some (c', true) /\ tracks c' M' U /\ cache_best c' = cache_best c /\ commitment c' = commitment c.
Proof.
  intros Hh. induction 1 as [|U tx o us U1 l U' Ok A Hl Ec Hu Cn IH]; intros W c M T; [by exists c, M; split_and!|].
  destruct (IH (connect_wf _ _ _ _ _ W Hh Hl Ec) c M T) as (c1 & M1 & E1 & T1 & B1 & C1).
  destruct (disconnect_tx_spec c1 M1 U tx o us U1 h W A Ok Ec Hu T1) as (c2 & M2 & E2 & T2 & B2 & C2).
  cbn [rev]. rewrite disconnect_txs_app, E1. cbn [disconnect_txs]. rewrite E2. exists c2, M2. split_and!; [done|done|congruence|congruence].
Qed.

Definition cache_lists (c : cache) (U : utxo_set) : Prop := exists M, tracks c M U.

End Spec.

(** C18: updating the coins with a transaction is spending and creating in a finite
    map. On any cache over any view that keeps the contract and with memory
    available, [update_coins_with_undo] succeeds exactly when every input names an
    unspent output of the set the cache lists (an output already taken by an
    earlier input of the same transaction included), the amounts spent and created
    are amounts of money and there are at most 65536 outputs. It then lists the set
    without the spent outputs and with the spendable new ones, the undo records
    carry what undoing needs, the best block is untouched, and the commitment, if
    it was that of the set before and the id is new, is that of the set after. When
    it fails it says so; it is never undefined. *)
Theorem update_coins_refines `{Allocator} `{HostOrder} `{CommitmentSkip} {V : Type} `{!CoinsViewVtable V} `{!CoinsViewLaws V}
    (c : coins_view_cache V) U tx txundo h :
  memory_ok -> cache_lists c U -> tx_ids_ok tx ->
  match connect_tx U tx h with
  | Some (us, U') =>
      if tx_amounts_ok us tx then
        exists c' uns, update_coins_with_undo tx c txundo h = Some (c', Some uns) /\ cache_lists c' U' /\
        cache_best c' = cache_best c /\ (absent (tx_hash tx) U -> follows (commitment c) U (commitment c') U') /\
        (if transaction_is_coinbase tx then uns = txundo else undone U (vin tx) uns us)
      else exists c', update_coins_with_undo tx c txundo h = Some (c', None)
  | None => exists c', update_coins_with_undo tx c txundo h = Some (c', None)
  end.
Proof.
  intros Mem [M T] Ok. pose proof (update_coins_spec Mem c M U tx txundo h T Ok) as Sp.
  destruct (connect_tx U tx h) as [[us U']|]; [|done]. destruct (tx_amounts_ok us tx); [|done].
  destruct Sp as (c' & M' & uns & E & T' & B & F & Un & _). exists c', uns. split; [done|]. split; [by exists M'|done].
Qed.

Section UpdateWitness.
#[local] Existing Instance view_alloc.
#[local] Existing Instance view_host.
#[local] Existing Instance view_on.
#[local] Existing Instance coins_view_cache_laws.

Definition sample_set : utxo_set := {[(sample_txid, 0%nat) := mk_utxo (mk_tx_out 7 [0x51]) false 3 1]}.
Definition spending_tx : transaction :=
  mk_tx false 1 0 [mk_tx_in (mk_outpoint sample_txid 0) [] UINT32_MAX] [mk_tx_out 5 [0x52]; mk_tx_out 1 [0x6a]] 0 0 0 [] [] []
    uint256_set_null (replicate 64 0) (replicate 64 0) (replicate 32 5).

Definition stacked_laws : CoinsViewLaws (coins_view_cache unit) := coins_view_cache_laws (fun _ => eq_refl).

Lemma stacked_lists : cache_lists (CoinsViewLaws0 := stacked_laws) stacked sample_set.
Proof.
  exists {[sample_txid := mk_entry sample_coins 1]}. split; [exact stacked_repr|]. split.
  - intros k n L. unfold shows, overlay, sample_set. destruct (decide (k = sample_txid)) as [->|N].
    + rewrite lookup_singleton_eq. change (live (e_coins (mk_entry sample_coins 1))) with (Some sample_coins).
      cbn [mbind option_bind]. destruct n as [|n]; [by rewrite lookup_singleton_eq|].
      by rewrite lookup_singleton_ne by done.
    + rewrite (lookup_singleton_ne sample_txid k) by done. by rewrite lookup_singleton_ne by congruence.
  - intros k n u E. unfold sample_set in E. by apply lookup_singleton_Some in E as [[= <- <-] _].
Qed.

Lemma spending_tx_ids : tx_ids_ok spending_tx.
Proof. split; [done|]. intros _. repeat constructor; done. Qed.

(** What it does to the set: the second output is unspendable. *)
Lemma spending_tx_effect :
  match connect_tx sample_set spending_tx 4 with
  | Some (us, U') =>
      tx_amounts_ok us spending_tx = true /\ U' !! (sample_txid, 0%nat) = None /\
      U' !! (replicate 32 5, 0%nat) = Some (mk_utxo (mk_tx_out 5 [0x52]) false 4 1) /\ U' !! (replicate 32 5, 1%nat) = None
  | None => False
  end.
Proof.
  unfold connect_tx. change (transaction_is_coinbase spending_tx) with false. cbn [spend_set vin spending_tx].
  unfold sample_set, op_key. cbn [op_hash op_n prevout]. change (Z.to_nat 0) with 0%nat. rewrite lookup_singleton_eq.
  cbn [mbind option_bind fst snd]. split; [reflexivity|]. rewrite !connect_lookup. cbn [tx_hash spending_tx].
  rewrite (decide_False (P := sample_txid = _)) by done. rewrite !decide_True by done.
  split; [apply lookup_delete_eq|]. split; reflexivity.
Qed.

Lemma update_coins_refines_witness :
  exists c' uns U', update_coins_with_undo spending_tx stacked [] 4 = Some (c', Some uns) /\
  cache_lists (CoinsViewLaws0 := stacked_laws) c' U' /\
  U' !! (sample_txid, 0%nat) = None /\ U' !! (replicate 32 5, 0%nat) = Some (mk_utxo (mk_tx_out 5 [0x52]) false 4 1) /\
  U' !! (replicate 32 5, 1%nat) = None.
Proof.
  pose proof (update_coins_refines (CoinsViewLaws0 := stacked_laws) stacked sample_set spending_tx [] 4 (fun _ => eq_refl) stacked_lists spending_tx_ids) as R.
  pose proof spending_tx_effect as F.
  destruct (connect_tx sample_set spending_tx 4) as [[us U']|]; [|done]. destruct F as (Ok & F). rewrite Ok in R.
  destruct R as (c' & uns & R & T & _). exists c', uns, U'. split; [exact R|]. split; [exact T|exact F].
Defined.
End UpdateWitness.
