(* ===== verification/SigEncoding.v ===== *)
(** * Script errors and signature encodings

    Model of [core/modules/script/include/script/script_error.h],
    [sighashtype.h], [sigencoding.h] and [core/modules/script/src/sigencoding.c]:
    the encoding gates that run before every signature check. Every array read
    is checked: a read outside the signature is [UB]. *)

From stdpp Require Import base tactics list numbers option.
From Stdlib Require Import ZArith Lia.
From S2P Require Import Prelude Script.

(** ** Results of the script engine *)

Inductive ScriptError :=
  | SCRIPT_ERR_OK | SCRIPT_ERR_UNKNOWN_ERROR | SCRIPT_ERR_EVAL_FALSE | SCRIPT_ERR_OP_RETURN
  | SCRIPT_ERR_SCRIPT_SIZE | SCRIPT_ERR_PUSH_SIZE | SCRIPT_ERR_OP_COUNT | SCRIPT_ERR_STACK_SIZE
  | SCRIPT_ERR_SIG_COUNT | SCRIPT_ERR_PUBKEY_COUNT | SCRIPT_ERR_VERIFY | SCRIPT_ERR_EQUALVERIFY
  | SCRIPT_ERR_CHECKMULTISIGVERIFY | SCRIPT_ERR_CHECKSIGVERIFY | SCRIPT_ERR_CHECKDATASIGVERIFY
  | SCRIPT_ERR_NUMEQUALVERIFY | SCRIPT_ERR_BAD_OPCODE | SCRIPT_ERR_DISABLED_OPCODE
  | SCRIPT_ERR_INVALID_STACK_OPERATION | SCRIPT_ERR_INVALID_ALTSTACK_OPERATION
  | SCRIPT_ERR_UNBALANCED_CONDITIONAL | SCRIPT_ERR_NEGATIVE_LOCKTIME | SCRIPT_ERR_UNSATISFIED_LOCKTIME
  | SCRIPT_ERR_SIG_HASHTYPE | SCRIPT_ERR_SIG_DER | SCRIPT_ERR_MINIMALDATA | SCRIPT_ERR_SIG_PUSHONLY
  | SCRIPT_ERR_SIG_HIGH_S | SCRIPT_ERR_SIG_NULLDUMMY | SCRIPT_ERR_PUBKEYTYPE | SCRIPT_ERR_CLEANSTACK
  | SCRIPT_ERR_SIG_NULLFAIL | SCRIPT_ERR_DISCOURAGE_UPGRADABLE_NOPS | SCRIPT_ERR_ERROR_COUNT.

#[export] Instance ScriptError_eq_dec : EqDecision ScriptError.
Proof. solve_decision. Defined.

(** A function that returns [true] with its effects ([Done]), or [false] after
    [set_script_error] ([Fail]); [UB] is a read or write outside an array, a
    failed [assert] or an undefined signed operation. *)
Inductive outcome (A : Type) := Done (a : A) | Fail (e : ScriptError) | UB.
Arguments Done {A} a.
Arguments Fail {A} e.
Arguments UB {A}.

Definition obind {A B} (m : outcome A) (k : A -> outcome B) : outcome B :=
  match m with Done a => k a | Fail e => Fail e | UB => UB end.

Declare Scope outcome_scope.
Notation "'do' x '<-' m ';' k" := (obind m (fun x => k)) (at level 100, x pattern, m at level 99, k at level 200, right associativity) : outcome_scope.
Notation "'fail_if' b 'as' e ';;' k" := (if b then Fail e else k) (at level 100, b at level 99, e at level 99, k at level 200, right associativity) : outcome_scope.
#[global] Open Scope outcome_scope.

(** An operation of the C abstract machine that may be undefined. *)
Definition defined {A} (o : option A) : outcome A := match o with Some a => Done a | None => UB end.

(** [flags & bit] as a condition. *)
Definition has_flag (flags bit : Z) : bool := negb (flags .& bit =? 0).

Definition SCRIPT_VERIFY_STRICTENC : Z := 2 ^ 1.
Definition SCRIPT_VERIFY_LOW_S : Z := 2 ^ 3.
Definition SCRIPT_VERIFY_NULLDUMMY : Z := 2 ^ 4.
Definition SCRIPT_VERIFY_SIGPUSHONLY : Z := 2 ^ 5.
Definition SCRIPT_VERIFY_MINIMALDATA : Z := 2 ^ 6.
Definition SCRIPT_VERIFY_DISCOURAGE_UPGRADABLE_NOPS : Z := 2 ^ 7.
Definition SCRIPT_VERIFY_CLEANSTACK : Z := 2 ^ 8.
Definition SCRIPT_VERIFY_CHECKLOCKTIMEVERIFY : Z := 2 ^ 9.
Definition SCRIPT_VERIFY_NULLFAIL : Z := 2 ^ 10.

(** ** Hash types *)

Definition SIGHASH_ALL : Z := 1.
Definition SIGHASH_NONE : Z := 2.
Definition SIGHASH_SINGLE : Z := 3.
Definition SIGHASH_ANYONECANPAY : Z := 0x80.

(** [~(uint32_t)SIGHASH_ANYONECANPAY] *)
Definition not_anyonecanpay : Z := u32 (Z.lnot SIGHASH_ANYONECANPAY).

Definition sighash_get_base_type (raw : Z) : Z := raw .& 0x1f.
Definition sighash_is_defined (raw : Z) : bool :=
  let base := raw .& not_anyonecanpay in (SIGHASH_ALL <=? base) && (base <=? SIGHASH_SINGLE).
Definition sighash_has_anyone_can_pay (raw : Z) : bool := negb (raw .& SIGHASH_ANYONECANPAY =? 0).
Definition sighash_with_anyone_can_pay (raw : Z) (acp : bool) : Z :=
  (raw .& not_anyonecanpay) .| (if acp then SIGHASH_ANYONECANPAY else 0).

(** ** DER structure *)

(** [sig[i]] *)
Definition byte_of (sig : list Z) (i : Z) : outcome Z :=
  if i <? 0 then UB else defined (sig !! Z.to_nat i).

Definition sig_len (sig : list Z) : Z := Z.of_nat (length sig).

Definition is_valid_signature_der_header (sig : list Z) : outcome bool :=
  let len := sig_len sig in
  if (len <? 8) || (72 <? len) then Done false
  else
    do b0 <- byte_of sig 0;
    if negb (b0 =? 0x30) then Done false
    else
      do b1 <- byte_of sig 1;
      if negb (b1 =? len - 2) then Done false else Done true.

Definition signature_r_integer_s_offset (sig : list Z) : outcome Z :=
  let len := sig_len sig in
  do b2 <- byte_of sig 2;
  if negb (b2 =? 0x02) then Done 0
  else
    do lenR <- byte_of sig 3;
    if lenR =? 0 then Done 0
    else
      do b4 <- byte_of sig 4;
      if negb (b4 .& 0x80 =? 0) then Done 0
      else if u64 (len - 7) <? lenR then Done 0
      else
        do padded <- (if (1 <? lenR) && (b4 =? 0x00)
                      then do b5 <- byte_of sig 5; Done (b5 .& 0x80 =? 0) else Done false);
        if (padded : bool) then Done 0 else Done (u32 (lenR + 4)).

Definition is_valid_signature_encoding (sig : list Z) : outcome bool :=
  let len := sig_len sig in
  do hdr <- is_valid_signature_der_header sig;
  if negb hdr then Done false
  else
    do startS <- signature_r_integer_s_offset sig;
    if startS =? 0 then Done false
    else
      do tag <- byte_of sig startS;
      if negb (tag =? 0x02) then Done false
      else
        do lenS <- byte_of sig (u32 (startS + 1));
        if lenS =? 0 then Done false
        else
          do s0 <- byte_of sig (u32 (startS + 2));
          if negb (s0 .& 0x80 =? 0) then Done false
          else if negb (u32 (u32 (startS + lenS) + 2) =? len) then Done false
          else
            do padded <- (if (1 <? lenS) && (s0 =? 0x00)
                          then do s1 <- byte_of sig (u32 (startS + 3)); Done (s1 .& 0x80 =? 0) else Done false);
            if (padded : bool) then Done false else Done true.

(** ** The three gates *)

(** [pubkey_check_low_s] is secp256k1's low-S test. *)
Class LowS := pubkey_check_low_s : list Z -> bool.

Section Gates.
Context `{LowS}.

Definition check_raw_signature_encoding (sig : list Z) (flags : Z) : outcome unit :=
  do ok <- is_valid_signature_encoding sig;
  fail_if negb ok as SCRIPT_ERR_SIG_DER;;
  fail_if has_flag flags SCRIPT_VERIFY_LOW_S && negb (pubkey_check_low_s sig) as SCRIPT_ERR_SIG_HIGH_S;;
  Done tt.

Definition check_data_signature_encoding (sig : list Z) (flags : Z) : outcome unit :=
  if sig_len sig =? 0 then Done tt else check_raw_signature_encoding sig flags.

(** [sig_get_hash_type]: the trailing byte, 0 for an empty signature. *)
Definition sig_get_hash_type (sig : list Z) : outcome Z :=
  if sig_len sig =? 0 then Done 0 else byte_of sig (sig_len sig - 1).

Definition check_transaction_signature_encoding (sig : list Z) (flags : Z) : outcome unit :=
  if sig_len sig =? 0 then Done tt
  else
    do _ <- check_raw_signature_encoding (take (length sig - 1) sig) flags;
    if has_flag flags SCRIPT_VERIFY_STRICTENC then
      do ht <- sig_get_hash_type sig;
      fail_if negb (sighash_is_defined ht) as SCRIPT_ERR_SIG_HASHTYPE;; Done tt
    else Done tt.

Definition check_pubkey_encoding (pubkey : list Z) (flags : Z) : outcome unit :=
  let len := sig_len pubkey in
  if has_flag flags SCRIPT_VERIFY_STRICTENC then
    if len =? 33 then
      do b0 <- byte_of pubkey 0;
      fail_if negb (b0 =? 0x02) && negb (b0 =? 0x03) as SCRIPT_ERR_PUBKEYTYPE;; Done tt
    else if len =? 65 then
      do b0 <- byte_of pubkey 0;
      fail_if negb (b0 =? 0x04) as SCRIPT_ERR_PUBKEYTYPE;; Done tt
    else Fail SCRIPT_ERR_PUBKEYTYPE
  else Done tt.

End Gates.

(** ** Specification *)

(** A positive DER integer body without redundant leading zero. *)
Definition der_integer (r : list Z) : Prop :=
  match r with
  | [] => False
  | [x] => x < 128
  | x :: y :: _ => x < 128 /\ (x = 0 -> 128 <= y)
  end.

(** SEQUENCE { INTEGER r, INTEGER s }, single-byte lengths, nothing after it. *)
Definition der_signature (sig : list Z) : Prop :=
  8 <= sig_len sig <= 72 /\
  exists r s, der_integer r /\ der_integer s /\
    sig = [0x30; sig_len sig - 2; 0x02; sig_len r] ++ r ++ [0x02; sig_len s] ++ s.

Lemma byte_of_ok sig i : 0 <= i < sig_len sig -> byte_of sig i = Done (nth (Z.to_nat i) sig 0).
Proof.
  unfold sig_len. intros Hi. unfold byte_of. destruct (Z.ltb_spec i 0); [lia|].
  destruct (lookup_lt_is_Some_2 sig (Z.to_nat i)) as [x Hx]; [lia|]. rewrite Hx. cbn.
  by rewrite (nth_lookup_Some _ _ _ _ Hx).
Qed.

Lemma byte_of_nat sig k i : k = Z.of_nat i -> k < sig_len sig -> byte_of sig k = Done (nth i sig 0).
Proof. intros -> Hi. rewrite byte_of_ok by lia. by rewrite Nat2Z.id. Qed.

Lemma byte_range sig i : bytes sig -> 0 <= nth i sig 0 < 256.
Proof.
  intros Hb. destruct (lt_dec i (length sig)) as [Hi|Hi].
  - apply lookup_lt_is_Some_2 in Hi as [x Hx]. rewrite (nth_lookup_Some _ _ _ _ Hx).
    by apply (digits_lookup 8 sig i).
  - rewrite nth_overflow by lia. lia.
Qed.

(** [der_integer] on a slice, read through indices. *)
Lemma der_integer_nth r :
  der_integer r <-> r <> [] /\ nth 0 r 0 < 128 /\ (1 < sig_len r -> nth 0 r 0 = 0 -> 128 <= nth 1 r 0).
Proof.
  unfold sig_len. destruct r as [|x [|y r]]; cbn [der_integer length nth].
  - split; [done|]. by intros (? & _).
  - split; [|by intros (_ & ? & _)]. intros. split_and!; [done|done|lia].
  - split; [|intros (? & ? & H); split; [done|]; intros; apply H; lia]. intros [? ?]. done.
Qed.

Lemma r_offset_spec sig : bytes sig -> 8 <= sig_len sig <= 72 ->
  let b i := nth i sig 0 in
  let ok := (b 2%nat =? 2) && negb (b 3%nat =? 0) && (b 4%nat <? 128) && (b 3%nat + 7 <=? sig_len sig) &&
            negb ((1 <? b 3%nat) && (b 4%nat =? 0) && (b 5%nat <? 128)) in
  signature_r_integer_s_offset sig = Done (if ok then b 3%nat + 4 else 0).
Proof.
  intros Hb Hl b ok. unfold ok, b, signature_r_integer_s_offset.
  pose proof (byte_range sig 3 Hb). pose proof (byte_range sig 4 Hb). pose proof (byte_range sig 5 Hb).
  rewrite (byte_of_nat sig 2 2), (byte_of_nat sig 3 3), (byte_of_nat sig 4 4), (byte_of_nat sig 5 5) by lia.
  cbn [obind].
  rewrite !land_80_byte by lia. rewrite (wrap_id 64) by (unfold in_u; lia).
  rewrite (wrap_id 32) by (unfold in_u; lia).
  destruct (nth 2 sig 0 =? 2); cbn; [|done]. destruct (nth 3 sig 0 =? 0); cbn; [done|].
  destruct (nth 4 sig 0 <? 128); cbn; [|done].
  replace (sig_len sig - 7 <? nth 3 sig 0) with (negb (nth 3 sig 0 + 7 <=? sig_len sig)) by (bool_cases; cbn; lia).
  destruct (_ <=? sig_len sig); cbn; [|done].
  destruct (1 <? nth 3 sig 0), (nth 4 sig 0 =? 0); cbn; try done.
  destruct (nth 5 sig 0 <? 128); done.
Qed.

Lemma nth_drop (l : list Z) k i : nth i (drop k l) 0 = nth (k + i) l 0.
Proof. apply nth_skipn. Qed.

Lemma nth_take_lt (l : list Z) k i : (i < k)%nat -> nth i (take k l) 0 = nth i l 0.
Proof.
  intros H. destruct (lt_dec i (length l)) as [Hl|Hl].
  - rewrite <- (take_drop k l) at 2. rewrite app_nth1; [done|]. rewrite length_take. lia.
  - rewrite !nth_overflow; [done|lia|]. rewrite length_take. lia.
Qed.

Lemma take2_drop (l : list Z) k :
  (k + 2 <= length l)%nat -> drop k l = [nth k l 0; nth (k + 1) l 0] ++ drop (k + 2) l.
Proof.
  intros H. rewrite <- (take_drop 2 (drop k l)) at 1. rewrite drop_drop. f_equal.
  rewrite <- (Nat.add_0_r k) at 2. rewrite <- !nth_drop.
  destruct (drop k l) as [|x [|y t]] eqn:E; [..|done]; apply (f_equal length) in E; rewrite length_drop in E; cbn in E; lia.
Qed.

(** The test as one boolean over the bytes; no read is out of bounds. *)
Definition der_bool (sig : list Z) : bool :=
  let L := sig_len sig in
  let b i := nth i sig 0 in
  let R := b 3%nat in
  let o := Z.to_nat R in
  (8 <=? L) && (L <=? 72) && (b 0%nat =? 0x30) && (b 1%nat =? L - 2) &&
  (b 2%nat =? 2) && negb (R =? 0) && (b 4%nat <? 128) && (R + 7 <=? L) &&
  negb ((1 <? R) && (b 4%nat =? 0) && (b 5%nat <? 128)) &&
  (b (o + 4)%nat =? 2) && negb (b (o + 5)%nat =? 0) && (b (o + 6)%nat <? 128) &&
  (R + b (o + 5)%nat + 6 =? L) &&
  negb ((1 <? b (o + 5)%nat) && (b (o + 6)%nat =? 0) && (b (o + 7)%nat <? 128)).

Lemma signature_encoding_bool sig : bytes sig -> is_valid_signature_encoding sig = Done (der_bool sig).
Proof.
  intros Hb. unfold is_valid_signature_encoding, is_valid_signature_der_header, der_bool.
  destruct (Z.leb_spec 8 (sig_len sig)) as [H8|]; [|by rewrite (proj2 (Z.ltb_lt (sig_len sig) 8)) by lia].
  destruct (Z.leb_spec (sig_len sig) 72) as [H72|];
    [|by rewrite (proj2 (Z.ltb_ge (sig_len sig) 8)), (proj2 (Z.ltb_lt 72 (sig_len sig))) by lia].
  rewrite (proj2 (Z.ltb_ge (sig_len sig) 8)), (proj2 (Z.ltb_ge 72 (sig_len sig))) by lia. cbn [orb andb].
  rewrite (byte_of_nat sig 0 0), (byte_of_nat sig 1 1) by lia. cbn [obind].
  destruct (nth 0 sig 0 =? 48); cbn [negb andb obind]; [|done].
  destruct (nth 1 sig 0 =? sig_len sig - 2); cbn [negb andb obind]; [|done].
  rewrite r_offset_spec by (done || lia). cbv zeta. cbn [obind].
  pose proof (byte_range sig 3 Hb).
  destruct (_ && negb (_ && _ && (nth 5 sig 0 <? 128))) eqn:E; [|done]. cbn [andb].
  assert (nth 3 sig 0 + 7 <= sig_len sig) as HR.
  { destruct (Z.leb_spec (nth 3 sig 0 + 7) (sig_len sig)); [done|]. by rewrite !andb_false_r in E. }
  clear E. destruct (Z.eqb_spec (nth 3 sig 0 + 4) 0); [lia|].
  set (o := Z.to_nat (nth 3 sig 0)). assert (nth 3 sig 0 = Z.of_nat o) as -> by (unfold o; lia).
  pose proof (byte_range sig (o + 5) Hb). pose proof (byte_range sig (o + 6) Hb). pose proof (byte_range sig (o + 7) Hb).
  rewrite !(wrap_id 32) by (unfold in_u; lia).
  rewrite (byte_of_nat sig (Z.of_nat o + 4) (o + 4)), (byte_of_nat sig (Z.of_nat o + 4 + 1) (o + 5)),
    (byte_of_nat sig (Z.of_nat o + 4 + 2) (o + 6)) by lia.
  cbn [obind]. rewrite (wrap_id 32 (Z.of_nat o + 4 + _)), (wrap_id 32 (_ + 2)) by (unfold in_u; lia). rewrite land_80_byte by lia.
  destruct (_ =? 2); cbn [negb andb]; [|done]. destruct (_ =? 0); cbn [negb andb]; [done|].
  destruct (_ <? 128); cbn [negb andb]; [|done].
  replace (Z.of_nat o + 4 + nth (o + 5) sig 0 + 2) with (Z.of_nat o + nth (o + 5) sig 0 + 6) by lia.
  destruct (Z.eqb_spec (Z.of_nat o + nth (o + 5) sig 0 + 6) (sig_len sig)) as [HL|]; cbn [negb andb]; [|done].
  destruct (Z.ltb_spec 1 (nth (o + 5) sig 0)) as [Hs|]; cbn [negb andb obind]; [|done].
  destruct (nth (o + 6) sig 0 =? 0); cbn [negb andb obind]; [|done].
  rewrite (byte_of_nat sig (Z.of_nat o + 4 + 3) (o + 7)) by lia. cbn [obind]. rewrite land_80_byte by lia.
  by destruct (_ <? 128).
Qed.

Lemma der_bool_spec sig : bytes sig -> der_bool sig = true <-> der_signature sig.
Proof.
  intros Hb. pose proof (byte_range sig 3 Hb) as HR.
  pose proof (byte_range sig (Z.to_nat (nth 3 sig 0) + 5) Hb) as HS. split.
  - unfold der_bool. rewrite !andb_true_iff, !Z.leb_le, !Z.eqb_eq, !negb_true_iff, !Z.eqb_neq, !Z.ltb_lt.
    set (o := Z.to_nat (nth 3 sig 0)) in *. unfold sig_len.
    intros (((((((((((((H8 & H72) & B0) & B1) & B2) & R0) & R1) & R2) & R3) & S2) & S0) & S1) & SL) & S3).
    split; [done|]. exists (take o (drop 4 sig)), (drop (o + 6) sig).
    assert (length (take o (drop 4 sig)) = o) as Lr by (rewrite length_take, length_drop; lia).
    assert (length (drop (o + 6) sig) = Z.to_nat (nth (o + 5) sig 0)) as Ls by (rewrite length_drop; lia).
    split_and!; [apply der_integer_nth..|].
    + unfold sig_len. rewrite Lr, !nth_take_lt, !nth_drop by lia. cbn [Nat.add]. split_and!; [|lia|].
      * intros E. rewrite E in Lr. cbn in Lr. lia.
      * intros. rewrite nth_take_lt, nth_drop by lia. cbn [Nat.add].
        apply andb_false_iff in R3 as [R3|R3]; [|by apply Z.ltb_ge in R3].
        apply andb_false_iff in R3 as [R3|R3]; [apply Z.ltb_ge in R3|apply Z.eqb_neq in R3]; lia.
    + unfold sig_len. rewrite Ls, !nth_drop, Nat.add_0_r. split_and!; [|lia|].
      * intros E. rewrite E in Ls. cbn in Ls. lia.
      * intros. replace (o + 6 + 1)%nat with (o + 7)%nat by lia.
        apply andb_false_iff in S3 as [S3|S3]; [|by apply Z.ltb_ge in S3].
        apply andb_false_iff in S3 as [S3|S3]; [apply Z.ltb_ge in S3|apply Z.eqb_neq in S3]; lia.
    + unfold sig_len. rewrite Lr, Ls, !Z2Nat.id by lia.
      change sig with (drop 0 sig) at 1. rewrite (take2_drop sig 0), (take2_drop sig (0 + 2)) by lia.
      cbn [Nat.add app]. rewrite B0, B1, B2. unfold sig_len. do 4 f_equal. { unfold o. lia. }
      rewrite <- (take_drop o (drop 4 sig)) at 1. f_equal. rewrite drop_drop, (Nat.add_comm 4 o).
      rewrite (take2_drop sig (o + 4)) by lia. rewrite S2. cbn [app].
      by replace (o + 4 + 1)%nat with (o + 5)%nat by lia; replace (o + 4 + 2)%nat with (o + 6)%nat by lia.
  - intros (Hl & r & s & Hr%der_integer_nth & Hs%der_integer_nth & E).
    assert (sig_len sig = sig_len r + sig_len s + 6) as HL.
    { unfold sig_len. rewrite E at 1. rewrite !length_app. cbn. lia. }
    destruct Hr as (R0 & R1 & R2), Hs as (S0 & S1 & S2).
    assert (0 < sig_len r) by (destruct r; unfold sig_len; cbn; [done|lia]).
    assert (0 < sig_len s) by (destruct s; unfold sig_len; cbn; [done|lia]).
    assert (nth 3 sig 0 = sig_len r) as E3 by (rewrite E; done).
    assert (forall i, nth (4 + i) sig 0 = nth i (r ++ [2; sig_len s] ++ s) 0) as En by (intros i; rewrite E at 1; done).
    set (o := length r). assert (sig_len r = Z.of_nat o) as Ho by done.
    assert (forall i, nth (o + 4 + i) sig 0 = nth i ([2; sig_len s] ++ s) 0) as Es.
    { intros i. replace (o + 4 + i)%nat with (4 + (o + i))%nat by lia. rewrite En, app_nth2 by lia. f_equal. lia. }
    assert (forall i, (i < o)%nat -> nth (4 + i) sig 0 = nth i r 0) as Er.
    { intros i Hi. rewrite En, app_nth1 by done. done. }
    assert (nth 0 sig 0 = 48 /\ nth 1 sig 0 = sig_len sig - 2 /\ nth 2 sig 0 = 2) as (B0 & B1 & B2).
    { rewrite E at 1 2 4. done. }
    pose proof (Er 0%nat ltac:(lia)) as E4. pose proof (Es 0%nat) as T. pose proof (Es 1%nat) as S5.
    pose proof (Es 2%nat) as S6. pose proof (Es 3%nat) as S7. cbn [Nat.add app nth] in E4, T, S5, S6, S7.
    rewrite Nat.add_0_r in T. rewrite <- Nat.add_assoc in S5, S6, S7. cbn [Nat.add] in S5, S6, S7.
    unfold der_bool. rewrite E3, Ho, Nat2Z.id, B0, B1, B2, E4, T, S5, S6, S7.
    rewrite !andb_true_iff, !Z.leb_le, !Z.eqb_eq, !negb_true_iff, !Z.eqb_neq, !Z.ltb_lt.
    split_and!; try lia.
    destruct (Z.ltb_spec 1 (Z.of_nat o)); [|done]. pose proof (Er 1%nat ltac:(lia)) as E5. cbn [Nat.add] in E5.
    rewrite E5. destruct (Z.eqb_spec (nth 0 r 0) 0); [|done]. cbn [andb]. apply Z.ltb_ge. apply R2; lia.
Qed.

(** Strict-DER acceptance is exactly SEQUENCE { INTEGER r, INTEGER s } with
    minimal positive integers, single-byte lengths and nothing left over, in 8
    to 72 bytes; the check never reads outside the signature. *)
Theorem signature_encoding_is_der sig :
  bytes sig ->
  exists ok, is_valid_signature_encoding sig = Done ok /\ (ok = true <-> der_signature sig).
Proof. intros Hb. exists (der_bool sig). split; [by apply signature_encoding_bool|by apply der_bool_spec]. Qed.

Lemma signature_encoding_is_der_witness :
  exists ok, is_valid_signature_encoding [0x30; 6; 2; 1; 1; 2; 1; 1] = Done ok /\
             (ok = true <-> der_signature [0x30; 6; 2; 1; 1; 2; 1; 1]).
Proof. apply (signature_encoding_is_der [0x30; 6; 2; 1; 1; 2; 1; 1]). repeat constructor; done. Defined.

(** ** Totality of the gates *)

(** [safe P m]: [m] is no undefined behaviour, and its results satisfy [P]. *)
Definition safe {A} (P : A -> Prop) (m : outcome A) : Prop :=
  match m with Done a => P a | Fail _ => True | UB => False end.

Lemma safe_bind {A B} (P : A -> Prop) (Q : B -> Prop) m (k : A -> outcome B) :
  safe P m -> (forall a, P a -> safe Q (k a)) -> safe Q (obind m k).
Proof. destruct m; cbn; auto. Qed.

Lemma safe_weaken {A} (P Q : A -> Prop) m : (forall a, P a -> Q a) -> safe P m -> safe Q m.
Proof. destruct m; cbn; auto. Qed.

Lemma safe_if {A} (P : A -> Prop) (b : bool) m1 m2 :
  (b = true -> safe P m1) -> (b = false -> safe P m2) -> safe P (if b then m1 else m2).
Proof. destruct b; auto. Qed.

Section GateSafety.
Context `{LowS}.

Lemma check_raw_safe sig flags : bytes sig -> safe (fun _ => der_signature sig) (check_raw_signature_encoding sig flags).
Proof.
  intros Hb. unfold check_raw_signature_encoding. rewrite signature_encoding_bool by done. cbn [obind].
  destruct (der_bool sig) eqn:E; cbn; [|done]. apply der_bool_spec in E; [|done]. by destruct (_ && _).
Qed.

Lemma check_data_sig_safe sig flags :
  bytes sig -> safe (fun _ => sig = [] \/ der_signature sig) (check_data_signature_encoding sig flags).
Proof.
  intros Hb. unfold check_data_signature_encoding, sig_len. destruct sig as [|x sig]; [by left|].
  cbn [length]. destruct (Z.eqb_spec (Z.of_nat (S (length sig))) 0); [lia|].
  eapply safe_weaken; [|by apply check_raw_safe]. auto.
Qed.

Lemma check_tx_sig_safe sig flags :
  bytes sig ->
  safe (fun _ => sig = [] \/ der_signature (take (length sig - 1) sig)) (check_transaction_signature_encoding sig flags).
Proof.
  intros Hb. unfold check_transaction_signature_encoding. destruct (Z.eqb_spec (sig_len sig) 0) as [Hz|Hz].
  { left. destruct sig; [done|]. unfold sig_len in Hz. cbn in Hz. lia. }
  eapply safe_bind; [by apply check_raw_safe, digits_take|]. intros [] Hd.
  destruct (has_flag _ _); [|by right]. unfold sig_get_hash_type.
  destruct (Z.eqb_spec (sig_len sig) 0); [done|]. rewrite byte_of_ok by (unfold sig_len in *; lia). cbn [obind].
  apply safe_if; [done|by right].
Qed.

Lemma check_pubkey_safe pubkey flags : bytes pubkey -> safe (fun _ => True) (check_pubkey_encoding pubkey flags).
Proof.
  intros Hb. unfold check_pubkey_encoding. destruct (has_flag _ _); [|done].
  destruct (Z.eqb_spec (sig_len pubkey) 33) as [E|_].
  { rewrite byte_of_ok by lia. cbn [obind]. by destruct (_ && _). }
  destruct (Z.eqb_spec (sig_len pubkey) 65) as [E|_]; [|done].
  rewrite byte_of_ok by lia. cbn [obind]. by destruct (negb _).
Qed.

End GateSafety.

(** With STRICTENC set, a public key is let through exactly when it is 33
    bytes with prefix 2 or 3 or 65 bytes with prefix 4; without it every byte
    string is. *)
Theorem pubkey_encoding_spec pubkey flags :
  check_pubkey_encoding pubkey flags = Done tt <->
  (has_flag flags SCRIPT_VERIFY_STRICTENC = true ->
   (sig_len pubkey = 33 /\ (head pubkey = Some 2 \/ head pubkey = Some 3)) \/
   (sig_len pubkey = 65 /\ head pubkey = Some 4)).
Proof.
  unfold check_pubkey_encoding. destruct (has_flag _ _); [|by split; [intros _ ?|]].
  assert (forall n, sig_len pubkey = n -> 0 < n -> exists x, head pubkey = Some x /\ byte_of pubkey 0 = Done x) as Hh.
  { intros n Hn Hp. destruct pubkey as [|x l]; unfold sig_len in Hn; cbn in Hn; [lia|]. by exists x. }
  destruct (Z.eqb_spec (sig_len pubkey) 33) as [E|N33].
  { destruct (Hh _ E ltac:(lia)) as (x & -> & ->). cbn [obind].
    destruct (Z.eqb_spec x 2), (Z.eqb_spec x 3); cbn; subst; split; try done; auto.
    intros Q. destruct (Q eq_refl) as [[_ [?|?]]|[? _]]; [congruence..|lia]. }
  destruct (Z.eqb_spec (sig_len pubkey) 65) as [E|N65].
  { destruct (Hh _ E ltac:(lia)) as (x & -> & ->). cbn [obind].
    destruct (Z.eqb_spec x 4); cbn; subst; split; try done; auto.
    intros Q. destruct (Q eq_refl) as [[? _]|[_ ?]]; [lia|congruence]. }
  split; [done|]. intros Q. destruct (Q eq_refl) as [[? _]|[? _]]; done.
Qed.
