(* ===== verification/Interp.v ===== *)
(** * The script interpreter

    Model of [core/consensus/src/script_interp.c] and of the execution stack of
    [core/modules/script/include/script/interpreter.h] and
    [core/modules/script/src/interpreter.c]. Every handler of the dispatch table
    is a definition of its own; [outcome] carries the three ways a handler ends.

    An execution stack is the list of its [count] items, bottom first. Reading
    below the bottom or above the top is [UB]. The callbacks of [sig_checker] are
    parameters. *)

From stdpp Require Import base tactics list numbers option.
From Stdlib Require Import ZArith Lia.
From S2P Require Import Prelude ByteOrder Hash Script SigEncoding.

(** ** Execution stacks *)

Definition MAX_STACK_ITEMS : Z := 1000.

Abbreviation item := (list Z) (only parsing).
Abbreviation stack := (list (list Z)) (only parsing).

Definition count (s : stack) : Z := Z.of_nat (length s).

(** [None] is the [false] return. *)
Definition stack_push (s : stack) (data : item) : option stack :=
  if (MAX_STACK_ITEMS <=? count s) || (MAX_SCRIPT_ELEMENT_SIZE <? Z.of_nat (length data)) then None
  else Some (s ++ [data]).

(** [stack_top(s, i)], with [i] negative. *)
Definition stack_top (s : stack) (i : Z) : outcome item :=
  let j := count s + i in
  if (j <? 0) || (count s <=? j) then UB else defined (s !! Z.to_nat j).

(** [stack_pop]: the handlers ignore its result; popping an empty stack leaves it. *)
Definition stack_pop (s : stack) : stack := take (length s - 1) s.

Definition stack_erase_at (s : stack) (idx : Z) : stack :=
  if count s <=? idx then s else take (Z.to_nat idx) s ++ drop (Z.to_nat idx + 1) s.

Definition stack_erase_range (s : stack) (from to : Z) : stack :=
  if (to <? from) || (count s <? to) then s else take (Z.to_nat from) s ++ drop (Z.to_nat to) s.

Definition stack_insert_at (s : stack) (idx : Z) (it : item) : option stack :=
  if (MAX_STACK_ITEMS <=? count s) || (count s <? idx) then None
  else Some (take (Z.to_nat idx) s ++ [it] ++ drop (Z.to_nat idx) s).

(** [stack_swap_items(stack_top(s, i), stack_top(s, j))] *)
Definition stack_swap_items (s : stack) (i j : Z) : outcome stack :=
  do a <- stack_top s i;
  do b <- stack_top s j;
  Done (<[Z.to_nat (count s + i) := b]> (<[Z.to_nat (count s + j) := a]> s)).

(** The loop [for (i = 0; i < size; i++)] of [cast_to_bool]. *)
Fixpoint cast_to_bool (d : item) : bool :=
  match d with
  | [] => false
  | x :: t => if negb (x =? 0) then negb ((length t =? 0)%nat && (x =? 0x80)) else cast_to_bool t
  end.

Definition stack_copy_active (src : stack) : option stack :=
  if MAX_STACK_ITEMS <? count src then None else Some src.

(** ** The signature checker *)

Record sig_checker := {
  check_sig : option (list Z -> list Z -> script -> Z -> bool);
  check_lock_time : option (Z -> bool);
  verify_signature : option (list Z -> list Z -> list Z -> bool);
}.

(** ** Interpreter state *)

(** The mutable fields of [struct script_eval_ctx]; [vf_exec] is its first
    [vf_exec_count] entries. The constant fields are section variables. *)
Record script_eval_ctx := mk_eval {
  c_stack : stack;
  c_altstack : stack;
  fExec : bool;
  nOpCount : Z;
  c_pc : Z;
  vf_exec : list bool;
}.

Definition set_stack (c : script_eval_ctx) (s : stack) : script_eval_ctx :=
  mk_eval s (c_altstack c) (fExec c) (nOpCount c) (c_pc c) (vf_exec c).
Definition set_altstack (c : script_eval_ctx) (s : stack) : script_eval_ctx :=
  mk_eval (c_stack c) s (fExec c) (nOpCount c) (c_pc c) (vf_exec c).
Definition set_vf (c : script_eval_ctx) (vf : list bool) : script_eval_ctx :=
  mk_eval (c_stack c) (c_altstack c) (fExec c) (nOpCount c) (c_pc c) vf.
Definition set_opcount (c : script_eval_ctx) (n : Z) : script_eval_ctx :=
  mk_eval (c_stack c) (c_altstack c) (fExec c) n (c_pc c) (vf_exec c).

Definition check_minimal_push (data : item) (opcode : Z) : bool :=
  let len := Z.of_nat (length data) in
  let d0 := nth 0 data 0 in
  if len =? 0 then opcode =? OP_0
  else if (len =? 1) && (1 <=? d0) && (d0 <=? 16) then opcode =? OP_1 + (d0 - 1)
  else if (len =? 1) && (d0 =? 0x81) then opcode =? OP_1NEGATE
  else if len <=? 75 then opcode =? len
  else if len <=? 255 then opcode =? OP_PUSHDATA1
  else if len <=? 65535 then opcode =? OP_PUSHDATA2
  else true.

(** [PUSH_OR_FAIL], [INSERT_OR_FAIL] and [SN_PUSH_OR_FAIL] *)
Definition or_stack_size {A} (r : option A) : outcome A :=
  match r with Some a => Done a | None => Fail SCRIPT_ERR_STACK_SIZE end.
Definition PUSH_OR_FAIL (s : stack) (data : item) : outcome stack := or_stack_size (stack_push s data).
Definition INSERT_OR_FAIL (s : stack) (idx : Z) (it : item) : outcome stack := or_stack_size (stack_insert_at s idx it).

Definition SN_PUSH_OR_FAIL (s : stack) (value : Z) : outcome stack :=
  do buf <- defined (script_num_serialize value SCRIPT_NUM_MAX_SIZE);
  or_stack_size (stack_push s buf).

(** [SN_FROM_TOP_N] and [SN_FROM_TOP] *)
Definition SN_FROM_TOP_N (s : stack) (idx : Z) (minimal : bool) (maxsz : Z) : outcome Z :=
  do it <- stack_top s idx;
  match script_num_from_bytes it minimal maxsz with
  | Some v => Done v
  | None => Fail SCRIPT_ERR_UNKNOWN_ERROR
  end.
Definition SN_FROM_TOP (s : stack) (idx : Z) (minimal : bool) : outcome Z :=
  SN_FROM_TOP_N s idx minimal SCRIPT_NUM_DEFAULT_MAX_SIZE.

Definition INVALID_STACK := SCRIPT_ERR_INVALID_STACK_OPERATION.

(** ** Handlers that read no flag *)

Definition vch_true : item := [1].

Definition evalop_push_bool (c : script_eval_ctx) (fSuccess : bool) : outcome script_eval_ctx :=
  do s <- PUSH_OR_FAIL (c_stack c) (if fSuccess then vch_true else []);
  Done (set_stack c s).

Definition evalop_verify_tail (c : script_eval_ctx) (fSuccess : bool) (code : ScriptError) : outcome script_eval_ctx :=
  if fSuccess then Done (set_stack c (stack_pop (c_stack c))) else Fail code.

Definition evalop_push_small_int (c : script_eval_ctx) (opcode : Z) : outcome script_eval_ctx :=
  do s <- SN_PUSH_OR_FAIL (c_stack c) (opcode - (OP_1 - 1));
  Done (set_stack c s).

Definition evalop_nop (c : script_eval_ctx) (opcode : Z) : outcome script_eval_ctx := Done c.

Definition evalop_if_notif (c : script_eval_ctx) (opcode : Z) : outcome script_eval_ctx :=
  do r <-
    (if fExec c then
       fail_if count (c_stack c) <? 1 as SCRIPT_ERR_UNBALANCED_CONDITIONAL;;
       do top <- stack_top (c_stack c) (-1);
       let fValue := cast_to_bool top in
       let fValue := if opcode =? OP_NOTIF then negb fValue else fValue in
       Done (set_stack c (stack_pop (c_stack c)), fValue)
     else Done (c, false));
  let '(c, fValue) := r in
  fail_if MAX_STACK_ITEMS <=? Z.of_nat (length (vf_exec c)) as SCRIPT_ERR_STACK_SIZE;;
  Done (set_vf c (vf_exec c ++ [fValue])).

(** [vf_exec[count - 1] = !vf_exec[count - 1]] *)
Definition flip_last (vf : list bool) : list bool :=
  take (length vf - 1) vf ++ map negb (drop (length vf - 1) vf).

Definition evalop_else (c : script_eval_ctx) (opcode : Z) : outcome script_eval_ctx :=
  fail_if (length (vf_exec c) =? 0)%nat as SCRIPT_ERR_UNBALANCED_CONDITIONAL;;
  Done (set_vf c (flip_last (vf_exec c))).

Definition evalop_endif (c : script_eval_ctx) (opcode : Z) : outcome script_eval_ctx :=
  fail_if (length (vf_exec c) =? 0)%nat as SCRIPT_ERR_UNBALANCED_CONDITIONAL;;
  Done (set_vf c (take (length (vf_exec c) - 1) (vf_exec c))).

Definition evalop_verify (c : script_eval_ctx) (opcode : Z) : outcome script_eval_ctx :=
  fail_if count (c_stack c) <? 1 as INVALID_STACK;;
  do top <- stack_top (c_stack c) (-1);
  if cast_to_bool top then Done (set_stack c (stack_pop (c_stack c))) else Fail SCRIPT_ERR_VERIFY.

Definition evalop_return (c : script_eval_ctx) (opcode : Z) : outcome script_eval_ctx := Fail SCRIPT_ERR_OP_RETURN.

Definition evalop_toaltstack (c : script_eval_ctx) (opcode : Z) : outcome script_eval_ctx :=
  fail_if count (c_stack c) <? 1 as INVALID_STACK;;
  do top <- stack_top (c_stack c) (-1);
  do alt <- PUSH_OR_FAIL (c_altstack c) top;
  Done (set_stack (set_altstack c alt) (stack_pop (c_stack c))).

Definition evalop_fromaltstack (c : script_eval_ctx) (opcode : Z) : outcome script_eval_ctx :=
  fail_if count (c_altstack c) <? 1 as SCRIPT_ERR_INVALID_ALTSTACK_OPERATION;;
  do top <- stack_top (c_altstack c) (-1);
  do s <- PUSH_OR_FAIL (c_stack c) top;
  Done (set_stack (set_altstack c (stack_pop (c_altstack c))) s).

Definition evalop_2drop (c : script_eval_ctx) (opcode : Z) : outcome script_eval_ctx :=
  fail_if count (c_stack c) <? 2 as INVALID_STACK;;
  Done (set_stack c (stack_pop (stack_pop (c_stack c)))).

Definition evalop_dup_over_pair (c : script_eval_ctx) (opcode : Z) : outcome script_eval_ctx :=
  let s := c_stack c in
  let depth := if opcode =? OP_2DUP then 2 else 4 in
  fail_if count s <? depth as INVALID_STACK;;
  do v1 <- stack_top s (- depth);
  do v2 <- stack_top s (1 - depth);
  do s <- PUSH_OR_FAIL s v1;
  do s <- PUSH_OR_FAIL s v2;
  Done (set_stack c s).

Definition evalop_3dup (c : script_eval_ctx) (opcode : Z) : outcome script_eval_ctx :=
  let s := c_stack c in
  fail_if count s <? 3 as INVALID_STACK;;
  do v1 <- stack_top s (-3);
  do v2 <- stack_top s (-2);
  do v3 <- stack_top s (-1);
  do s <- PUSH_OR_FAIL s v1;
  do s <- PUSH_OR_FAIL s v2;
  do s <- PUSH_OR_FAIL s v3;
  Done (set_stack c s).

Definition evalop_2rot (c : script_eval_ctx) (opcode : Z) : outcome script_eval_ctx :=
  let s := c_stack c in
  fail_if count s <? 6 as INVALID_STACK;;
  do v1 <- stack_top s (-6);
  do v2 <- stack_top s (-5);
  let s := stack_erase_range s (count s - 6) (count s - 4) in
  do s <- PUSH_OR_FAIL s v1;
  do s <- PUSH_OR_FAIL s v2;
  Done (set_stack c s).

Definition evalop_2swap (c : script_eval_ctx) (opcode : Z) : outcome script_eval_ctx :=
  fail_if count (c_stack c) <? 4 as INVALID_STACK;;
  do s <- stack_swap_items (c_stack c) (-4) (-2);
  do s <- stack_swap_items s (-3) (-1);
  Done (set_stack c s).

Definition evalop_ifdup (c : script_eval_ctx) (opcode : Z) : outcome script_eval_ctx :=
  let s := c_stack c in
  fail_if count s <? 1 as INVALID_STACK;;
  do top <- stack_top s (-1);
  if cast_to_bool top then do s <- PUSH_OR_FAIL s top; Done (set_stack c s) else Done c.

Definition evalop_depth (c : script_eval_ctx) (opcode : Z) : outcome script_eval_ctx :=
  do s <- SN_PUSH_OR_FAIL (c_stack c) (count (c_stack c));
  Done (set_stack c s).

Definition evalop_drop (c : script_eval_ctx) (opcode : Z) : outcome script_eval_ctx :=
  fail_if count (c_stack c) <? 1 as INVALID_STACK;;
  Done (set_stack c (stack_pop (c_stack c))).

Definition evalop_dup_over (c : script_eval_ctx) (opcode : Z) : outcome script_eval_ctx :=
  let s := c_stack c in
  let depth := if opcode =? OP_DUP then 1 else 2 in
  fail_if count s <? depth as INVALID_STACK;;
  do v <- stack_top s (- depth);
  do s <- PUSH_OR_FAIL s v;
  Done (set_stack c s).

Definition evalop_nip (c : script_eval_ctx) (opcode : Z) : outcome script_eval_ctx :=
  fail_if count (c_stack c) <? 2 as INVALID_STACK;;
  Done (set_stack c (stack_erase_at (c_stack c) (count (c_stack c) - 2))).

Definition evalop_rot (c : script_eval_ctx) (opcode : Z) : outcome script_eval_ctx :=
  fail_if count (c_stack c) <? 3 as INVALID_STACK;;
  do s <- stack_swap_items (c_stack c) (-3) (-2);
  do s <- stack_swap_items s (-2) (-1);
  Done (set_stack c s).

Definition evalop_swap (c : script_eval_ctx) (opcode : Z) : outcome script_eval_ctx :=
  fail_if count (c_stack c) <? 2 as INVALID_STACK;;
  do s <- stack_swap_items (c_stack c) (-2) (-1);
  Done (set_stack c s).

Definition evalop_tuck (c : script_eval_ctx) (opcode : Z) : outcome script_eval_ctx :=
  let s := c_stack c in
  fail_if count s <? 2 as INVALID_STACK;;
  do v <- stack_top s (-1);
  do s <- INSERT_OR_FAIL s (count s - 2) v;
  Done (set_stack c s).

Definition evalop_size (c : script_eval_ctx) (opcode : Z) : outcome script_eval_ctx :=
  let s := c_stack c in
  fail_if count s <? 1 as INVALID_STACK;;
  do top <- stack_top s (-1);
  do s <- SN_PUSH_OR_FAIL s (Z.of_nat (length top));
  Done (set_stack c s).

(** [size] and [memcmp] comparison of two items. *)
Definition item_equal (a b : item) : bool := bool_decide (a = b).

Definition evalop_equal (c : script_eval_ctx) (opcode : Z) : outcome script_eval_ctx :=
  let s := c_stack c in
  fail_if count s <? 2 as INVALID_STACK;;
  do v1 <- stack_top s (-2);
  do v2 <- stack_top s (-1);
  let fEqual := item_equal v1 v2 in
  let c := set_stack c (stack_pop (stack_pop s)) in
  do c <- evalop_push_bool c fEqual;
  if opcode =? OP_EQUALVERIFY then evalop_verify_tail c fEqual SCRIPT_ERR_EQUALVERIFY else Done c.

(** The booleans C stores into an [int64_t]. *)
Definition b2z (b : bool) : Z := if b then 1 else 0.

Definition binary_compare_value (opcode a b : Z) : Z :=
  if (opcode =? OP_NUMEQUAL) || (opcode =? OP_NUMEQUALVERIFY) then b2z (a =? b)
  else if opcode =? OP_NUMNOTEQUAL then b2z (negb (a =? b))
  else if opcode =? OP_LESSTHAN then b2z (a <? b)
  else if opcode =? OP_GREATERTHAN then b2z (b <? a)
  else if opcode =? OP_LESSTHANOREQUAL then b2z (a <=? b)
  else if opcode =? OP_GREATERTHANOREQUAL then b2z (b <=? a)
  else 0.

Definition binary_arith_value (opcode a b : Z) : option Z :=
  if opcode =? OP_ADD then s64 (a + b)
  else if opcode =? OP_SUB then s64 (a - b)
  else if opcode =? OP_BOOLAND then Some (b2z (negb (a =? 0) && negb (b =? 0)))
  else if opcode =? OP_BOOLOR then Some (b2z (negb (a =? 0) || negb (b =? 0)))
  else if opcode =? OP_MIN then Some (if a <? b then a else b)
  else if opcode =? OP_MAX then Some (if b <? a then a else b)
  else Some (binary_compare_value opcode a b).

(** The [switch] of [evalop_unary_arith]. *)
Definition unary_arith_value (opcode v : Z) : option Z :=
  if opcode =? OP_1ADD then s64 (v + 1)
  else if opcode =? OP_1SUB then s64 (v - 1)
  else if opcode =? OP_NEGATE then s64 (- v)
  else if opcode =? OP_ABS then (if v <? 0 then s64 (- v) else Some v)
  else if opcode =? OP_NOT then Some (b2z (v =? 0))
  else if opcode =? OP_0NOTEQUAL then Some (b2z (negb (v =? 0)))
  else Some v.

(** [evalop_hash_digest]: the digest, truncated to the returned length. *)
Definition evalop_hash_digest `{HostOrder} (opcode : Z) (top : item) : item :=
  if opcode =? OP_RIPEMD160 then ripemd160_finalize (ripemd160_write (ripemd160_init fresh_ctx) top)
  else if opcode =? OP_SHA1 then sha1_finalize (sha1_write (sha1_init fresh_ctx) top)
  else if opcode =? OP_SHA256 then sha256_finalize (sha256_write (sha256_init fresh_ctx) top)
  else if opcode =? OP_HASH160 then hash160 top
  else hash256 top.

Definition evalop_hash `{HostOrder} (c : script_eval_ctx) (opcode : Z) : outcome script_eval_ctx :=
  let s := c_stack c in
  fail_if count s <? 1 as INVALID_STACK;;
  do top <- stack_top s (-1);
  do s <- PUSH_OR_FAIL (stack_pop s) (evalop_hash_digest opcode top);
  Done (set_stack c s).

(** ** Handlers that read the constant fields of the context *)

Section Interpreter.
Context `{HostOrder, LowS}.
Variable the_script : script.
Variable flags : Z.
Variable checker : option sig_checker.
Variable consensus_branch_id : Z.

Definition fRequireMinimal : bool := has_flag flags SCRIPT_VERIFY_MINIMALDATA.

(** [checker && checker->check_sig && checker->check_sig(...)] and the like. *)
Definition call_check_sig (sig pubkey : item) : bool :=
  match checker with
  | Some k => match check_sig k with Some f => f sig pubkey the_script consensus_branch_id | None => false end
  | None => false
  end.
Definition lock_time_refused (lock_time : Z) : bool :=
  match checker with
  | Some k => match check_lock_time k with Some f => negb (f lock_time) | None => false end
  | None => false
  end.

Definition evalop_checklocktimeverify (c : script_eval_ctx) (opcode : Z) : outcome script_eval_ctx :=
  let s := c_stack c in
  if negb (has_flag flags SCRIPT_VERIFY_CHECKLOCKTIMEVERIFY) then
    fail_if has_flag flags SCRIPT_VERIFY_DISCOURAGE_UPGRADABLE_NOPS as SCRIPT_ERR_DISCOURAGE_UPGRADABLE_NOPS;;
    Done c
  else
    fail_if count s <? 1 as INVALID_STACK;;
    do nLockTime <- SN_FROM_TOP_N s (-1) fRequireMinimal 5;
    fail_if nLockTime <? 0 as SCRIPT_ERR_NEGATIVE_LOCKTIME;;
    fail_if lock_time_refused nLockTime as SCRIPT_ERR_UNSATISFIED_LOCKTIME;;
    Done c.

Definition evalop_upgradable_nop (c : script_eval_ctx) (opcode : Z) : outcome script_eval_ctx :=
  fail_if has_flag flags SCRIPT_VERIFY_DISCOURAGE_UPGRADABLE_NOPS as SCRIPT_ERR_DISCOURAGE_UPGRADABLE_NOPS;;
  Done c.

Definition evalop_pick_roll (c : script_eval_ctx) (opcode : Z) : outcome script_eval_ctx :=
  let s := c_stack c in
  fail_if count s <? 2 as INVALID_STACK;;
  do bn <- SN_FROM_TOP s (-1) fRequireMinimal;
  let n := script_num_get_int bn in
  let s := stack_pop s in
  fail_if (n <? 0) || (count s <=? n) as INVALID_STACK;;
  do v <- stack_top s (- n - 1);
  let s := if opcode =? OP_ROLL then stack_erase_at s (count s - n - 1) else s in
  do s <- PUSH_OR_FAIL s v;
  Done (set_stack c s).

Definition evalop_unary_arith (c : script_eval_ctx) (opcode : Z) : outcome script_eval_ctx :=
  let s := c_stack c in
  fail_if count s <? 1 as INVALID_STACK;;
  do bn <- SN_FROM_TOP s (-1) fRequireMinimal;
  do v <- defined (unary_arith_value opcode bn);
  do s <- SN_PUSH_OR_FAIL (stack_pop s) v;
  Done (set_stack c s).

Definition evalop_binary_arith (c : script_eval_ctx) (opcode : Z) : outcome script_eval_ctx :=
  let s := c_stack c in
  fail_if count s <? 2 as INVALID_STACK;;
  do bn1 <- SN_FROM_TOP s (-2) fRequireMinimal;
  do bn2 <- SN_FROM_TOP s (-1) fRequireMinimal;
  do v <- defined (binary_arith_value opcode bn1 bn2);
  do s <- SN_PUSH_OR_FAIL (stack_pop (stack_pop s)) v;
  let c := set_stack c s in
  if opcode =? OP_NUMEQUALVERIFY then
    do top <- stack_top s (-1);
    evalop_verify_tail c (cast_to_bool top) SCRIPT_ERR_NUMEQUALVERIFY
  else Done c.

Definition evalop_within (c : script_eval_ctx) (opcode : Z) : outcome script_eval_ctx :=
  let s := c_stack c in
  fail_if count s <? 3 as INVALID_STACK;;
  do bn1 <- SN_FROM_TOP s (-3) fRequireMinimal;
  do bn2 <- SN_FROM_TOP s (-2) fRequireMinimal;
  do bn3 <- SN_FROM_TOP s (-1) fRequireMinimal;
  let fValue := (bn2 <=? bn1) && (bn1 <? bn3) in
  evalop_push_bool (set_stack c (stack_pop (stack_pop (stack_pop s)))) fValue.

Definition evalop_checksig (c : script_eval_ctx) (opcode : Z) : outcome script_eval_ctx :=
  let s := c_stack c in
  fail_if count s <? 2 as INVALID_STACK;;
  do sig_item <- stack_top s (-2);
  do pk_item <- stack_top s (-1);
  do _ <- check_transaction_signature_encoding sig_item flags;
  do _ <- check_pubkey_encoding pk_item flags;
  let fSuccess := call_check_sig sig_item pk_item in
  fail_if negb fSuccess && has_flag flags SCRIPT_VERIFY_NULLFAIL && (0 <? Z.of_nat (length sig_item))
    as SCRIPT_ERR_SIG_NULLFAIL;;
  do c <- evalop_push_bool (set_stack c (stack_pop (stack_pop s))) fSuccess;
  if opcode =? OP_CHECKSIGVERIFY then evalop_verify_tail c fSuccess SCRIPT_ERR_CHECKSIGVERIFY else Done c.

Definition evalop_checkdatasig_verify (sig_item msg_item pk_item : item) : bool :=
  match checker with
  | Some k =>
      match verify_signature k with
      | Some f => (0 <? Z.of_nat (length sig_item)) &&
                  f sig_item pk_item (sha256_finalize (sha256_write (sha256_init fresh_ctx) msg_item))
      | None => false
      end
  | None => false
  end.

Definition evalop_checkdatasig (c : script_eval_ctx) (opcode : Z) : outcome script_eval_ctx :=
  let s := c_stack c in
  fail_if count s <? 3 as INVALID_STACK;;
  do sig_item <- stack_top s (-3);
  do msg_item <- stack_top s (-2);
  do pk_item <- stack_top s (-1);
  do _ <- check_data_signature_encoding sig_item flags;
  do _ <- check_pubkey_encoding pk_item flags;
  let fSuccess := evalop_checkdatasig_verify sig_item msg_item pk_item in
  fail_if negb fSuccess && has_flag flags SCRIPT_VERIFY_NULLFAIL && (0 <? Z.of_nat (length sig_item))
    as SCRIPT_ERR_SIG_NULLFAIL;;
  do c <- evalop_push_bool (set_stack c (stack_pop (stack_pop (stack_pop s)))) fSuccess;
  if opcode =? OP_CHECKDATASIGVERIFY then evalop_verify_tail c fSuccess SCRIPT_ERR_CHECKDATASIGVERIFY else Done c.

(** *** OP_CHECKMULTISIG *)

Record multisig_layout := {
  m_i : Z; m_ikey : Z; m_ikey2 : Z; m_isig : Z; m_nKeysCount : Z; m_nSigsCount : Z;
}.

Definition evalop_multisig_layout (c : script_eval_ctx) : outcome (script_eval_ctx * multisig_layout) :=
  let s := c_stack c in
  let i := 1 in
  fail_if count s <? i as INVALID_STACK;;
  do bnKeys <- SN_FROM_TOP s (- i) fRequireMinimal;
  let nKeysCount := script_num_get_int bnKeys in
  fail_if (nKeysCount <? 0) || (20 <? nKeysCount) as SCRIPT_ERR_PUBKEY_COUNT;;
  do n <- defined (s32 (nOpCount c + nKeysCount));
  let c := set_opcount c n in
  fail_if 201 <? n as SCRIPT_ERR_OP_COUNT;;
  let i := i + 1 in
  let ikey := i in
  let ikey2 := nKeysCount + 2 in
  let i := i + nKeysCount in
  fail_if count s <? i as INVALID_STACK;;
  do bnSigs <- SN_FROM_TOP s (- i) fRequireMinimal;
  let nSigsCount := script_num_get_int bnSigs in
  fail_if (nSigsCount <? 0) || (nKeysCount <? nSigsCount) as SCRIPT_ERR_SIG_COUNT;;
  let i := i + 1 in
  let isig := i in
  let i := i + nSigsCount in
  fail_if count s <? i as INVALID_STACK;;
  Done (c, {| m_i := i; m_ikey := ikey; m_ikey2 := ikey2; m_isig := isig;
              m_nKeysCount := nKeysCount; m_nSigsCount := nSigsCount |}).

(** [while ( *fSuccess && nSigsCount > 0)]: one iteration per key. *)
Fixpoint multisig_match_loop (fuel : nat) (s : stack) (isig ikey nSigsCount nKeysCount : Z) (fSuccess : bool) : outcome bool :=
  if fSuccess && (0 <? nSigsCount) then
    match fuel with
    | O => UB
    | S fuel =>
        do sig_item <- stack_top s (- isig);
        do pk_item <- stack_top s (- ikey);
        do _ <- check_transaction_signature_encoding sig_item flags;
        do _ <- check_pubkey_encoding pk_item flags;
        let fOk := call_check_sig sig_item pk_item in
        let isig := if fOk then isig + 1 else isig in
        let nSigsCount := if fOk then nSigsCount - 1 else nSigsCount in
        let ikey := ikey + 1 in
        let nKeysCount := nKeysCount - 1 in
        multisig_match_loop fuel s isig ikey nSigsCount nKeysCount
          (if nKeysCount <? nSigsCount then false else fSuccess)
    end
  else Done fSuccess.

Definition evalop_multisig_match (c : script_eval_ctx) (m : multisig_layout) : outcome bool :=
  multisig_match_loop (S (Z.to_nat (m_nKeysCount m))) (c_stack c) (m_isig m) (m_ikey m)
    (m_nSigsCount m) (m_nKeysCount m) true.

(** [while (i-- > 1)]: [n] is the number of arguments still to remove. *)
Fixpoint multisig_cleanup_loop (n : nat) (s : stack) (ikey2 : Z) (fSuccess : bool) : outcome stack :=
  match n with
  | O => Done s
  | S n =>
      do nullfail <-
        (if negb fSuccess && has_flag flags SCRIPT_VERIFY_NULLFAIL && (ikey2 =? 0)
         then do top <- stack_top s (-1); Done (0 <? Z.of_nat (length top)) else Done false);
      fail_if (nullfail : bool) as SCRIPT_ERR_SIG_NULLFAIL;;
      multisig_cleanup_loop n (stack_pop s) (if 0 <? ikey2 then ikey2 - 1 else ikey2) fSuccess
  end.

Definition evalop_multisig_cleanup (c : script_eval_ctx) (m : multisig_layout) (fSuccess : bool) : outcome script_eval_ctx :=
  do s <- multisig_cleanup_loop (Z.to_nat (m_i m - 1)) (c_stack c) (m_ikey2 m) fSuccess;
  fail_if count s <? 1 as INVALID_STACK;;
  do nulldummy <-
    (if has_flag flags SCRIPT_VERIFY_NULLDUMMY
     then do top <- stack_top s (-1); Done (0 <? Z.of_nat (length top)) else Done false);
  fail_if (nulldummy : bool) as SCRIPT_ERR_SIG_NULLDUMMY;;
  Done (set_stack c (stack_pop s)).

Definition evalop_checkmultisig (c : script_eval_ctx) (opcode : Z) : outcome script_eval_ctx :=
  do cm <- evalop_multisig_layout c;
  let '(c, m) := cm in
  do fSuccess <- evalop_multisig_match c m;
  do c <- evalop_multisig_cleanup c m fSuccess;
  do c <- evalop_push_bool c fSuccess;
  if opcode =? OP_CHECKMULTISIGVERIFY then evalop_verify_tail c fSuccess SCRIPT_ERR_CHECKMULTISIGVERIFY else Done c.

(** *** Dispatch *)

Definition script_eval_op_table : list (Z * (script_eval_ctx -> Z -> outcome script_eval_ctx)) :=
  [ (OP_1NEGATE, evalop_push_small_int) ] ++
  map (fun k => (OP_1 + Z.of_nat k, evalop_push_small_int)) (seq 0 16) ++
  [ (OP_NOP, evalop_nop); (OP_CHECKLOCKTIMEVERIFY, evalop_checklocktimeverify);
    (OP_NOP1, evalop_upgradable_nop) ] ++
  map (fun k => (OP_NOP3 + Z.of_nat k, evalop_upgradable_nop)) (seq 0 8) ++
  [ (OP_IF, evalop_if_notif); (OP_NOTIF, evalop_if_notif); (OP_ELSE, evalop_else); (OP_ENDIF, evalop_endif);
    (OP_VERIFY, evalop_verify); (OP_RETURN, evalop_return);
    (OP_TOALTSTACK, evalop_toaltstack); (OP_FROMALTSTACK, evalop_fromaltstack);
    (OP_2DROP, evalop_2drop); (OP_2DUP, evalop_dup_over_pair); (OP_3DUP, evalop_3dup);
    (OP_2OVER, evalop_dup_over_pair); (OP_2ROT, evalop_2rot); (OP_2SWAP, evalop_2swap);
    (OP_IFDUP, evalop_ifdup); (OP_DEPTH, evalop_depth); (OP_DROP, evalop_drop); (OP_DUP, evalop_dup_over);
    (OP_NIP, evalop_nip); (OP_OVER, evalop_dup_over); (OP_PICK, evalop_pick_roll); (OP_ROLL, evalop_pick_roll);
    (OP_ROT, evalop_rot); (OP_SWAP, evalop_swap); (OP_TUCK, evalop_tuck); (OP_SIZE, evalop_size);
    (OP_EQUAL, evalop_equal); (OP_EQUALVERIFY, evalop_equal);
    (OP_1ADD, evalop_unary_arith); (OP_1SUB, evalop_unary_arith); (OP_NEGATE, evalop_unary_arith);
    (OP_ABS, evalop_unary_arith); (OP_NOT, evalop_unary_arith); (OP_0NOTEQUAL, evalop_unary_arith);
    (OP_ADD, evalop_binary_arith); (OP_SUB, evalop_binary_arith); (OP_BOOLAND, evalop_binary_arith);
    (OP_BOOLOR, evalop_binary_arith); (OP_NUMEQUAL, evalop_binary_arith);
    (OP_NUMEQUALVERIFY, evalop_binary_arith); (OP_NUMNOTEQUAL, evalop_binary_arith);
    (OP_LESSTHAN, evalop_binary_arith); (OP_GREATERTHAN, evalop_binary_arith);
    (OP_LESSTHANOREQUAL, evalop_binary_arith); (OP_GREATERTHANOREQUAL, evalop_binary_arith);
    (OP_MIN, evalop_binary_arith); (OP_MAX, evalop_binary_arith); (OP_WITHIN, evalop_within);
    (OP_RIPEMD160, evalop_hash); (OP_SHA1, evalop_hash); (OP_SHA256, evalop_hash);
    (OP_HASH160, evalop_hash); (OP_HASH256, evalop_hash);
    (OP_CHECKSIG, evalop_checksig); (OP_CHECKSIGVERIFY, evalop_checksig);
    (OP_CHECKDATASIG, evalop_checkdatasig); (OP_CHECKDATASIGVERIFY, evalop_checkdatasig);
    (OP_CHECKMULTISIG, evalop_checkmultisig); (OP_CHECKMULTISIGVERIFY, evalop_checkmultisig) ].

Definition evalop_dispatch (c : script_eval_ctx) (opcode : Z) : outcome script_eval_ctx :=
  match find (fun e => fst e =? opcode) script_eval_op_table with
  | Some (_, fn) => fn c opcode
  | None => Fail SCRIPT_ERR_BAD_OPCODE
  end.

Definition evalop_branch_executing (c : script_eval_ctx) : bool := forallb id (vf_exec c).

Definition disabled_opcodes : list Z :=
  [OP_CAT; OP_SUBSTR; OP_LEFT; OP_RIGHT; OP_INVERT; OP_AND; OP_OR; OP_XOR; OP_2MUL; OP_2DIV; OP_MUL;
   OP_DIV; OP_MOD; OP_LSHIFT; OP_RSHIFT; OP_CODESEPARATOR].
Definition evalop_is_disabled (opcode : Z) : bool := existsb (Z.eqb opcode) disabled_opcodes.

Definition evalop_push_data (c : script_eval_ctx) (opcode : Z) (push_data : item) : outcome script_eval_ctx :=
  fail_if fRequireMinimal && negb (check_minimal_push push_data opcode) as SCRIPT_ERR_MINIMALDATA;;
  do s <- PUSH_OR_FAIL (c_stack c) push_data;
  Done (set_stack c s).

Definition evalop_step (c : script_eval_ctx) : outcome script_eval_ctx :=
  let exec := evalop_branch_executing c in
  match script_get_op the_script (c_pc c) true with
  | None => Fail SCRIPT_ERR_BAD_OPCODE
  | Some (pc, opcode, push_data) =>
      let c := mk_eval (c_stack c) (c_altstack c) exec (nOpCount c) pc (vf_exec c) in
      fail_if MAX_SCRIPT_ELEMENT_SIZE <? Z.of_nat (length push_data) as SCRIPT_ERR_PUSH_SIZE;;
      do n <- (if OP_16 <? opcode then defined (s32 (nOpCount c + 1)) else Done (nOpCount c));
      let c := set_opcount c n in
      fail_if (OP_16 <? opcode) && (201 <? n) as SCRIPT_ERR_OP_COUNT;;
      fail_if evalop_is_disabled opcode as SCRIPT_ERR_DISABLED_OPCODE;;
      do c <-
        (if exec && (0 <=? opcode) && (opcode <=? OP_PUSHDATA4) then evalop_push_data c opcode push_data
         else if exec || ((OP_IF <=? opcode) && (opcode <=? OP_ENDIF)) then evalop_dispatch c opcode
         else Done c);
      fail_if 1000 <? count (c_stack c) + count (c_altstack c) as SCRIPT_ERR_STACK_SIZE;;
      Done c
  end.

(** [while (ctx.pc < script->size)] *)
Fixpoint eval_loop (fuel : nat) (c : script_eval_ctx) : outcome script_eval_ctx :=
  if c_pc c <? script_size the_script then
    match fuel with
    | O => UB
    | S fuel => do c <- evalop_step c; eval_loop fuel c
    end
  else Done c.

(** [alloc]: whether [stack_init(&altstack)] succeeds; [stk]: [None] when
    [stack->items] is [NULL]. *)
Definition domain_consensus_eval_script (alloc : bool) (stk : option stack) : outcome stack :=
  fail_if negb alloc as SCRIPT_ERR_STACK_SIZE;;
  match stk with
  | None => Fail SCRIPT_ERR_STACK_SIZE
  | Some s =>
      fail_if MAX_SCRIPT_SIZE <? script_size the_script as SCRIPT_ERR_SCRIPT_SIZE;;
      do c <- eval_loop (length the_script) (mk_eval s [] false 0 0 []);
      fail_if negb (length (vf_exec c) =? 0)%nat as SCRIPT_ERR_UNBALANCED_CONDITIONAL;;
      Done (c_stack c)
  end.

End Interpreter.

Section Verify.
Context `{HostOrder, LowS}.
Variable flags : Z.
Variable checker : option sig_checker.
Variable consensus_branch_id : Z.
(** The answer of the [n]-th stack allocation. *)
Variable alloc : nat -> bool.

Definition script_stack_top_is_true (s : stack) : outcome unit :=
  fail_if count s =? 0 as SCRIPT_ERR_EVAL_FALSE;;
  do top <- stack_top s (-1);
  fail_if negb (cast_to_bool top) as SCRIPT_ERR_EVAL_FALSE;;
  Done tt.

(** [assert(b)] *)
Definition c_assert (b : bool) : outcome unit := if b then Done tt else UB.

Definition verify_p2sh_redeem_and_cleanstack (s stack_copy : stack) (script_sig script_pub_key : script) : outcome unit :=
  do s <-
    (if has_flag flags SCRIPT_VERIFY_P2SH && script_is_p2sh script_pub_key then
       fail_if negb (script_is_push_only script_sig) as SCRIPT_ERR_SIG_PUSHONLY;;
       match stack_copy_active stack_copy with
       | None => Fail SCRIPT_ERR_UNKNOWN_ERROR
       | Some s =>
           do _ <- c_assert (0 <? count s);
           do serialized <- stack_top s (-1);
           let pubkey2 := script_set serialized in
           let s := stack_pop s in
           do s <- domain_consensus_eval_script pubkey2 flags checker consensus_branch_id (alloc 4%nat) (Some s);
           do _ <- script_stack_top_is_true s;
           Done s
       end
     else Done s);
  if has_flag flags SCRIPT_VERIFY_CLEANSTACK then
    do _ <- c_assert (has_flag flags SCRIPT_VERIFY_P2SH);
    fail_if negb (count s =? 1) as SCRIPT_ERR_CLEANSTACK;;
    Done tt
  else Done tt.

Definition domain_consensus_verify_script (script_sig script_pub_key : script) : outcome unit :=
  fail_if has_flag flags SCRIPT_VERIFY_SIGPUSHONLY && negb (script_is_push_only script_sig) as SCRIPT_ERR_SIG_PUSHONLY;;
  fail_if negb (alloc 0%nat) || negb (alloc 1%nat) as SCRIPT_ERR_STACK_SIZE;;
  do s <- domain_consensus_eval_script script_sig flags checker consensus_branch_id (alloc 2%nat) (Some []);
  do stack_copy <-
    (if has_flag flags SCRIPT_VERIFY_P2SH then
       match stack_copy_active s with Some c => Done c | None => Fail SCRIPT_ERR_UNKNOWN_ERROR end
     else Done []);
  do s <- domain_consensus_eval_script script_pub_key flags checker consensus_branch_id (alloc 3%nat) (Some s);
  do _ <- script_stack_top_is_true s;
  verify_p2sh_redeem_and_cleanstack s stack_copy script_sig script_pub_key.

End Verify.

(** ** Limits and safety *)

Definition item_ok (d : item) : Prop := bytes d /\ Z.of_nat (length d) <= MAX_SCRIPT_ELEMENT_SIZE.
Record stack_ok (s : stack) : Prop := {
  so_items : Forall item_ok s;
  so_count : count s <= MAX_STACK_ITEMS;
}.
Record ctx_ok (c : script_eval_ctx) : Prop := {
  co_stack : stack_ok (c_stack c);
  co_alt : stack_ok (c_altstack c);
  co_ops : 0 <= nOpCount c <= 201;
  co_vf : Z.of_nat (length (vf_exec c)) <= MAX_STACK_ITEMS;
}.

(** What every handler guarantees: the limits hold, the cursor is untouched
    and the operation count does not go back. *)
Definition post (c c' : script_eval_ctx) : Prop :=
  ctx_ok c' /\ c_pc c' = c_pc c /\ nOpCount c <= nOpCount c'.

Create HintDb interp.
#[export] Hint Resolve co_stack co_alt so_items so_count : interp.

Lemma count_nonneg s : 0 <= count s.
Proof. unfold count. lia. Qed.

(** *** Stack operations *)

Lemma stack_top_lookup s i :
  - count s <= i < 0 -> exists x, s !! Z.to_nat (count s + i) = Some x /\ stack_top s i = Done x.
Proof.
  intros Hi. unfold stack_top. destruct (Z.ltb_spec (count s + i) 0); [lia|].
  destruct (Z.leb_spec (count s) (count s + i)); [lia|]. cbn.
  destruct (lookup_lt_is_Some_2 s (Z.to_nat (count s + i))) as [x Hx]; [unfold count in *; lia|].
  rewrite Hx. by exists x.
Qed.

Lemma stack_top_safe s i : stack_ok s -> - count s <= i < 0 -> safe item_ok (stack_top s i).
Proof.
  intros [Hs _] Hi. destruct (stack_top_lookup s i Hi) as (x & Hx & ->). by apply (Forall_lookup_1 _ _ _ _ Hs Hx).
Qed.

Lemma stack_pop_count s : 1 <= count s -> count (stack_pop s) = count s - 1.
Proof. unfold count, stack_pop. rewrite length_take. lia. Qed.

Lemma take_ok n s : stack_ok s -> stack_ok (take n s).
Proof.
  intros [H1 H2]. split; [by apply Forall_take|]. unfold count in *. rewrite length_take. lia.
Qed.
Lemma stack_pop_ok s : stack_ok s -> stack_ok (stack_pop s).
Proof. apply take_ok. Qed.

Lemma stack_push_safe s d :
  stack_ok s -> item_ok d -> safe (fun s' => stack_ok s' /\ s' = s ++ [d] /\ count s' = count s + 1) (PUSH_OR_FAIL s d).
Proof.
  intros [H1 H2] Hd. unfold PUSH_OR_FAIL, stack_push. destruct (Z.leb_spec MAX_STACK_ITEMS (count s)); [done|].
  destruct (_ <? _); [done|]. cbn. assert (count (s ++ [d]) = count s + 1) as E by (unfold count; rewrite length_app; cbn; lia).
  split_and!; [split|done|done]; [|lia]. apply Forall_app; auto.
Qed.

Lemma erase_ok s i j : stack_ok s -> (i <= j)%nat -> stack_ok (take i s ++ drop j s).
Proof.
  intros [H1 H2] Hij. split; [apply Forall_app; auto using Forall_take, Forall_drop|].
  unfold count in *. rewrite length_app, length_take, length_drop. lia.
Qed.
Lemma stack_erase_at_ok s i : stack_ok s -> stack_ok (stack_erase_at s i).
Proof. intros. unfold stack_erase_at. destruct (_ <=? _); [done|]. apply erase_ok; [done|lia]. Qed.
Lemma stack_erase_range_ok s i j : stack_ok s -> stack_ok (stack_erase_range s i j).
Proof.
  intros. unfold stack_erase_range. destruct (Z.ltb_spec j i); [done|]. destruct (_ <? _); [done|].
  apply erase_ok; [done|lia].
Qed.
Lemma stack_insert_at_safe s i d : stack_ok s -> item_ok d -> safe stack_ok (INSERT_OR_FAIL s i d).
Proof.
  intros [H1 H2] Hd. unfold INSERT_OR_FAIL, stack_insert_at. destruct (Z.leb_spec MAX_STACK_ITEMS (count s)); [done|].
  destruct (_ <? _); [done|]. split.
  - cbn. apply Forall_app; split; [by apply Forall_take|]. constructor; [done|]. by apply Forall_drop.
  - unfold count in *. cbn [app]. rewrite length_app, length_take. cbn [length]. rewrite length_drop. lia.
Qed.
Lemma stack_swap_safe s i j :
  stack_ok s -> - count s <= i < 0 -> - count s <= j < 0 ->
  safe (fun s' => stack_ok s' /\ count s' = count s) (stack_swap_items s i j).
Proof.
  intros Hs Hi Hj. unfold stack_swap_items.
  eapply safe_bind; [by apply stack_top_safe|]. intros a Ha. eapply safe_bind; [by apply stack_top_safe|].
  intros b Hb. destruct Hs as [H1 H2]. cbn. unfold count in *. rewrite !length_insert.
  split; [split|done]; [by repeat apply Forall_insert|]. unfold count. by rewrite !length_insert.
Qed.

Lemma sn_from_top_safe s i min maxsz :
  stack_ok s -> - count s <= i < 0 -> 0 < maxsz <= 5 ->
  safe (fun v => Z.abs v < 2 ^ (8 * maxsz - 1)) (SN_FROM_TOP_N s i min maxsz).
Proof.
  intros Hs Hi Hm. unfold SN_FROM_TOP_N. eapply safe_bind; [by apply stack_top_safe|]. intros d [Hd _].
  destruct (script_num_from_bytes d min maxsz) as [v|] eqn:E; [|done]. cbn.
  eapply script_num_from_bytes_range; eauto; lia.
Qed.

Lemma sn_push_safe s v :
  stack_ok s -> Z.abs v < 2 ^ 63 -> safe (fun s' => stack_ok s' /\ count s' = count s + 1) (SN_PUSH_OR_FAIL s v).
Proof.
  intros Hs Hv. unfold SN_PUSH_OR_FAIL.
  destruct (script_num_serialize_ok v) as (d & -> & Hd & Hl & _); [lia|]. cbn [obind defined].
  eapply safe_weaken; [|apply stack_push_safe; [done|split; [done|unfold MAX_SCRIPT_ELEMENT_SIZE; lia]]].
  cbn. intros s' (? & _ & ?). done.
Qed.

(** *** Handlers *)

Lemma post_stack c s : ctx_ok c -> stack_ok s -> post c (set_stack c s).
Proof. intros [H1 H2 H3 H4] Hs. by split; [split|]. Qed.
Lemma post_refl c : ctx_ok c -> post c c.
Proof. intros Hc. by split. Qed.
Lemma post_trans c1 c2 c3 : post c1 c2 -> post c2 c3 -> post c1 c3.
Proof. intros (? & ? & ?) (? & ? & ?). split_and!; [done|congruence|lia]. Qed.
Lemma post_ok c c' : post c c' -> ctx_ok c'.
Proof. by intros (? & _). Qed.

#[export] Hint Resolve stack_pop_ok stack_erase_at_ok stack_erase_range_ok post_stack post_refl : interp.

(** One step of a handler: a guard, a stack access, a push. *)
Ltac bounds :=
  repeat match goal with H : (_ <? _) = false |- _ => apply Z.ltb_ge in H end;
  repeat match goal with H : (_ || _) = false |- _ => apply orb_false_iff in H as [? ?] end;
  repeat match goal with
  | H : (_ <? _) = false |- _ => apply Z.ltb_ge in H
  | H : (_ <=? _) = false |- _ => apply Z.leb_gt in H
  end.
Ltac side :=
  first [ solve [eauto with interp]
        | bounds; lia
        | bounds; rewrite ?stack_pop_count by (rewrite ?stack_pop_count; lia); lia ].
Ltac hstep :=
  cbv beta zeta; cbn [obind defined];
  match goal with
  | |- safe _ (obind (obind _ _) _) => fail 1
  | |- safe _ (if ?b then Fail _ else _) => destruct b eqn:?; [exact I|]
  | |- safe _ (obind (if ?b then Fail _ else _) _) => destruct b eqn:?; [exact I|]
  | |- safe _ (Fail _) => exact I
  | |- safe _ (obind (stack_top _ _) _) => eapply safe_bind; [apply stack_top_safe; side|intros ? ?]
  | |- safe _ (obind (PUSH_OR_FAIL _ _) _) => eapply safe_bind; [apply stack_push_safe; side|intros ? (? & -> & ?)]
  | |- safe _ (obind (INSERT_OR_FAIL _ _ _) _) => eapply safe_bind; [apply stack_insert_at_safe; side|intros ? ?]
  | |- safe _ (obind (stack_swap_items _ _ _) _) => eapply safe_bind; [apply stack_swap_safe; side|intros ? [? ?]]
  | |- safe _ (Done _) => solve [cbn; eauto with interp]
  end.

Lemma nil_ok : item_ok [].
Proof. split; [constructor|]. cbn. unfold MAX_SCRIPT_ELEMENT_SIZE. lia. Qed.
Lemma true_ok : item_ok vch_true.
Proof. split; [by repeat constructor|]. cbn. unfold MAX_SCRIPT_ELEMENT_SIZE. lia. Qed.
#[export] Hint Resolve nil_ok true_ok : interp.

Lemma push_bool_safe c0 c b : post c0 c -> safe (post c0) (evalop_push_bool c b).
Proof.
  intros Hp. pose proof (post_ok _ _ Hp). unfold evalop_push_bool.
  eapply safe_bind; [apply stack_push_safe; [eauto with interp|destruct b; auto with interp]|].
  intros s (Hs & _). cbn. eapply post_trans; eauto with interp.
Qed.
Lemma verify_tail_safe c0 c b e : post c0 c -> safe (post c0) (evalop_verify_tail c b e).
Proof.
  intros Hp. pose proof (post_ok _ _ Hp). unfold evalop_verify_tail. destruct b; [|done]. cbn.
  eapply post_trans; eauto with interp.
Qed.

(** Push a boolean over the consumed arguments, then the *VERIFY tail. *)
Lemma push_verify_safe c s b (v : bool) e :
  ctx_ok c -> stack_ok s ->
  safe (post c) (do c <- evalop_push_bool (set_stack c s) b; if v then evalop_verify_tail c b e else Done c).
Proof.
  intros Hc Hs. eapply safe_bind; [apply push_bool_safe; eauto with interp|]. intros c' Hc'.
  destruct v; [by apply verify_tail_safe|done].
Qed.
#[export] Hint Resolve push_verify_safe push_bool_safe : interp.

Definition handler_safe (h : script_eval_ctx -> Z -> outcome script_eval_ctx) (op : Z) : Prop :=
  forall c, ctx_ok c -> safe (post c) (h c op).

Lemma stack_handlers_safe op :
  handler_safe evalop_nop op /\ handler_safe evalop_verify op /\ handler_safe evalop_return op /\
  handler_safe evalop_2drop op /\ handler_safe evalop_dup_over_pair op /\ handler_safe evalop_3dup op /\
  handler_safe evalop_2rot op /\ handler_safe evalop_2swap op /\ handler_safe evalop_ifdup op /\
  handler_safe evalop_drop op /\ handler_safe evalop_dup_over op /\ handler_safe evalop_nip op /\
  handler_safe evalop_rot op /\ handler_safe evalop_swap op /\ handler_safe evalop_tuck op /\
  handler_safe evalop_equal op.
Proof.
  split_and!; intros c Hc; pose proof (count_nonneg (c_stack c)).
  - cbn. eauto with interp.
  - unfold evalop_verify. repeat hstep. destruct (cast_to_bool _); cbn; eauto with interp.
  - done.
  - unfold evalop_2drop. repeat hstep.
  - unfold evalop_dup_over_pair. destruct (op =? OP_2DUP); repeat hstep.
  - unfold evalop_3dup. repeat hstep.
  - unfold evalop_2rot. repeat hstep.
  - unfold evalop_2swap. repeat hstep.
  - unfold evalop_ifdup. repeat hstep. destruct (cast_to_bool _); repeat hstep.
  - unfold evalop_drop. repeat hstep.
  - unfold evalop_dup_over. destruct (op =? OP_DUP); repeat hstep.
  - unfold evalop_nip. repeat hstep.
  - unfold evalop_rot. repeat hstep.
  - unfold evalop_swap. repeat hstep.
  - unfold evalop_tuck. repeat hstep.
  - unfold evalop_equal. repeat hstep. eauto 6 with interp.
Qed.

Lemma post_both c s a : ctx_ok c -> stack_ok s -> stack_ok a -> post c (set_stack (set_altstack c a) s).
Proof. intros [H1 H2 H3 H4] Hs Ha. by split; [split|]. Qed.
#[export] Hint Resolve post_both : interp.

Lemma sn_push_stack_safe c s v :
  ctx_ok c -> stack_ok s -> Z.abs v < 2 ^ 63 ->
  safe (post c) (do s <- SN_PUSH_OR_FAIL s v; Done (set_stack c s)).
Proof.
  intros Hc Hs Hv. eapply safe_bind; [by apply sn_push_safe|]. intros s' [Hs' _]. cbn. eauto with interp.
Qed.

Lemma number_handlers_safe op : 0 <= op < 256 ->
  handler_safe evalop_push_small_int op /\ handler_safe evalop_depth op /\ handler_safe evalop_size op.
Proof.
  intros Ho. split_and!; intros c Hc; pose proof (count_nonneg (c_stack c)).
  - apply sn_push_stack_safe; eauto with interp. unfold OP_1. lia.
  - apply sn_push_stack_safe; eauto with interp. pose proof (so_count _ (co_stack _ Hc)). unfold MAX_STACK_ITEMS in *. lia.
  - unfold evalop_size. repeat hstep. apply sn_push_stack_safe; eauto with interp.
    match goal with H : item_ok _ |- _ => destruct H as [_ H] end. unfold MAX_SCRIPT_ELEMENT_SIZE in *. lia.
Qed.

Lemma flip_last_length vf : length (flip_last vf) = length vf.
Proof. unfold flip_last. rewrite length_app, length_take, length_map, length_drop. lia. Qed.

Lemma post_vf c vf : ctx_ok c -> Z.of_nat (length vf) <= MAX_STACK_ITEMS -> post c (set_vf c vf).
Proof. intros [H1 H2 H3 H4] Hv. by split; [split|]. Qed.

Lemma flow_handlers_safe op :
  handler_safe evalop_if_notif op /\ handler_safe evalop_else op /\ handler_safe evalop_endif op /\
  handler_safe evalop_toaltstack op /\ handler_safe evalop_fromaltstack op.
Proof.
  split_and!; intros c Hc; pose proof (count_nonneg (c_stack c)); pose proof (co_vf _ Hc).
  - unfold evalop_if_notif. eapply (safe_bind (fun r => post c (fst r))).
    + destruct (fExec c); [|cbn; eauto with interp]. repeat hstep.
    + intros [c' v] Hp. cbn in Hp. destruct (Z.leb_spec MAX_STACK_ITEMS (Z.of_nat (length (vf_exec c')))); [done|].
      cbn. eapply post_trans; [done|]. apply post_vf; [by eapply post_ok|]. rewrite length_app. cbn. lia.
  - unfold evalop_else. destruct (_ =? 0)%nat; [done|]. apply post_vf; [done|]. by rewrite flip_last_length.
  - unfold evalop_endif. destruct (_ =? 0)%nat; [done|]. apply post_vf; [done|]. rewrite length_take. lia.
  - unfold evalop_toaltstack. repeat hstep.
  - unfold evalop_fromaltstack. pose proof (count_nonneg (c_altstack c)). repeat hstep.
Qed.

Section HandlerSafety.
Context `{HostOrder, LowS}.

Lemma digest_ok op d : item_ok d -> item_ok (evalop_hash_digest op d).
Proof.
  intros [Hb Hl]. assert (Z.of_nat (length d) < 2 ^ 61) as Hd by (unfold MAX_SCRIPT_ELEMENT_SIZE in *; lia).
  destruct (one_shot_digests d Hb Hd) as (E1 & E2 & E3).
  destruct (reference_digests d Hb) as ((? & B) & (? & ?) & (? & ?)).
  destruct (reference_digests _ B) as ((? & ?) & _ & (? & ?)).
  unfold sha256_digest in E1. unfold sha1_digest in E2. unfold ripemd160_digest in E3.
  unfold evalop_hash_digest, item_ok, MAX_SCRIPT_ELEMENT_SIZE. rewrite E1, E2, E3, hash160_spec, hash256_spec by done.
  repeat case_match; split; auto; lia.
Qed.

Lemma hash_safe op : handler_safe evalop_hash op.
Proof.
  intros c Hc. pose proof (count_nonneg (c_stack c)). unfold evalop_hash. repeat hstep.
  eapply safe_bind; [apply stack_push_safe; [side|by apply digest_ok]|]. intros s (? & _). cbn. eauto with interp.
Qed.

Variable the_script : script.
Variable flags : Z.
Variable checker : option sig_checker.
Variable consensus_branch_id : Z.

(** Numbers read with the default width are below [2^31] in magnitude. *)
Ltac hnum :=
  match goal with
  | |- safe _ (obind (SN_FROM_TOP _ _ _) _) =>
      unfold SN_FROM_TOP at 1, SCRIPT_NUM_DEFAULT_MAX_SIZE at 1;
      eapply safe_bind; [apply sn_from_top_safe; [side|side|lia]|intros ? ?]
  | |- safe _ (obind (SN_FROM_TOP_N _ _ _ _) _) =>
      eapply safe_bind; [apply sn_from_top_safe; [side|side|lia]|intros ? ?]
  end.

Lemma unary_value_defined op v : Z.abs v < 2 ^ 31 -> exists r, unary_arith_value op v = Some r /\ Z.abs r < 2 ^ 63.
Proof.
  intros Hv. unfold unary_arith_value, b2z. rewrite !s64_ok by lia.
  repeat case_match; (eexists; split; [done|lia]).
Qed.
Lemma binary_value_defined op a b :
  Z.abs a < 2 ^ 31 -> Z.abs b < 2 ^ 31 -> exists r, binary_arith_value op a b = Some r /\ Z.abs r < 2 ^ 63.
Proof.
  intros Ha Hb. unfold binary_arith_value, binary_compare_value, b2z. rewrite !s64_ok by lia.
  repeat case_match; (eexists; split; [done|lia]).
Qed.

Lemma arith_handlers_safe op :
  handler_safe (evalop_unary_arith flags) op /\ handler_safe (evalop_binary_arith flags) op /\
  handler_safe (evalop_within flags) op /\ handler_safe (evalop_pick_roll flags) op.
Proof.
  split_and!; intros c Hc; pose proof (count_nonneg (c_stack c)).
  - unfold evalop_unary_arith. repeat (hstep || hnum).
    destruct (unary_value_defined op a) as (r & -> & Hr); [done|]. cbn [obind defined].
    apply sn_push_stack_safe; eauto with interp.
  - unfold evalop_binary_arith. repeat (hstep || hnum).
    destruct (binary_value_defined op a a0) as (r & -> & Hr); [done..|]. cbn [obind defined].
    eapply safe_bind; [apply sn_push_safe; eauto with interp|]. intros s [Hs Hcs]. cbv zeta.
    destruct (op =? OP_NUMEQUALVERIFY); [|cbn; eauto with interp].
    pose proof (count_nonneg (stack_pop (stack_pop (c_stack c)))).
    eapply safe_bind; [apply stack_top_safe; [done|lia]|]. intros top _. apply verify_tail_safe. eauto with interp.
  - unfold evalop_within. repeat (hstep || hnum). apply push_bool_safe. eauto 7 with interp.
  - unfold evalop_pick_roll. repeat (hstep || hnum). destruct (op =? OP_ROLL); repeat hstep.
Qed.

Lemma nop_handlers_safe op :
  handler_safe (evalop_checklocktimeverify flags checker) op /\ handler_safe (evalop_upgradable_nop flags) op.
Proof.
  split; intros c Hc; pose proof (count_nonneg (c_stack c)).
  - unfold evalop_checklocktimeverify. destruct (negb _); repeat (hstep || hnum).
  - unfold evalop_upgradable_nop. repeat hstep.
Qed.

(** The encoding gates, on items of the stack. *)
Lemma gates_safe sig pk :
  item_ok sig -> item_ok pk ->
  safe (fun _ => True) (check_transaction_signature_encoding sig flags) /\
  safe (fun _ => True) (check_data_signature_encoding sig flags) /\
  safe (fun _ => True) (check_pubkey_encoding pk flags).
Proof.
  intros [Hs _] [Hp _]. split_and!; [eapply safe_weaken, check_tx_sig_safe|eapply safe_weaken, check_data_sig_safe|
    apply check_pubkey_safe]; done.
Qed.
Ltac hgates sig pk :=
  destruct (gates_safe sig pk ltac:(assumption) ltac:(assumption)) as (G1 & G2 & G3);
  eapply safe_bind; [first [exact G1 | exact G2]|]; intros [] _; eapply safe_bind; [exact G3|]; intros [] _;
  clear G1 G2 G3.

Lemma sig_handlers_safe op :
  handler_safe (evalop_checksig the_script flags checker consensus_branch_id) op /\
  handler_safe (evalop_checkdatasig flags checker) op.
Proof.
  split; intros c Hc; pose proof (count_nonneg (c_stack c)).
  - unfold evalop_checksig. repeat hstep. hgates a a0. repeat hstep. eauto 6 with interp.
  - unfold evalop_checkdatasig. repeat hstep. hgates a a1. repeat hstep. eauto 7 with interp.
Qed.

(** *** OP_CHECKMULTISIG *)

Definition layout_ok (s : stack) (m : multisig_layout) : Prop :=
  0 <= m_nSigsCount m <= m_nKeysCount m /\ m_nKeysCount m <= 20 /\ m_ikey m = 2 /\
  m_isig m = m_nKeysCount m + 3 /\ m_i m = m_nKeysCount m + m_nSigsCount m + 3 /\ m_i m <= count s.

Lemma multisig_layout_safe c :
  ctx_ok c ->
  safe (fun r => post c (fst r) /\ c_stack (fst r) = c_stack c /\ layout_ok (c_stack c) (snd r))
    (evalop_multisig_layout flags c).
Proof.
  intros Hc. pose proof (count_nonneg (c_stack c)). unfold evalop_multisig_layout.
  hstep. hnum. cbv beta zeta. destruct (_ || _) eqn:EK; [done|]. apply orb_false_iff in EK as [K1 K2].
  apply Z.ltb_ge in K1, K2. set (k := script_num_get_int a) in *. clearbody k.
  pose proof (co_ops _ Hc). rewrite s32_ok by lia. cbn [obind defined].
  destruct (Z.ltb_spec 201 (nOpCount c + k)); [done|]. hstep. hnum. cbv beta zeta.
  destruct (_ || _) eqn:ES; [done|]. apply orb_false_iff in ES as [S1 S2]. apply Z.ltb_ge in S1, S2.
  destruct (Z.ltb_spec (count (c_stack c)) (1 + 1 + k + 1 + script_num_get_int a0)) as [|EI]; [done|].
  cbn [safe fst snd]. split; [|split; [done|unfold layout_ok; cbn; lia]].
  split; [destruct Hc; split; cbn; auto; lia|cbn; lia].
Qed.

Lemma multisig_match_safe fuel s isig ikey nSigs nKeys b :
  stack_ok s -> 1 <= isig -> 1 <= ikey -> isig + nSigs - 1 <= count s -> ikey + nKeys - 1 <= count s ->
  (b = true -> nSigs <= nKeys) -> nKeys < Z.of_nat fuel ->
  safe (fun _ => True) (multisig_match_loop the_script flags checker consensus_branch_id fuel s isig ikey nSigs nKeys b).
Proof.
  intros Hs. revert isig ikey nSigs nKeys b. induction fuel as [|fuel IH]; intros isig ikey nSigs nKeys b H1' H2' H3' H4' Hb Hf;
    cbn [multisig_match_loop]; destruct b, (Z.ltb_spec 0 nSigs); cbn [andb]; try done; [specialize (Hb eq_refl); lia|].
  specialize (Hb eq_refl). repeat hstep. hgates a a0. cbv zeta.
  apply IH; try lia; destruct (call_check_sig _ _ _ _ _); try lia; destruct (Z.ltb_spec (nKeys - 1) (nSigs - 1));
    destruct (Z.ltb_spec (nKeys - 1) nSigs); try done; lia.
Qed.

Lemma multisig_cleanup_safe n s ikey2 b :
  stack_ok s -> Z.of_nat n <= count s -> safe stack_ok (multisig_cleanup_loop flags n s ikey2 b).
Proof.
  revert s ikey2. induction n as [|n IH]; intros s ikey2 Hs Hn; cbn [multisig_cleanup_loop]; [done|].
  eapply (safe_bind (fun _ => True)).
  - destruct (_ && _); [|done]. repeat hstep.
  - intros [] _; [done|]. apply IH; [eauto with interp|]. rewrite stack_pop_count by lia. lia.
Qed.

Lemma checkmultisig_safe op : handler_safe (evalop_checkmultisig the_script flags checker consensus_branch_id) op.
Proof.
  intros c Hc. unfold evalop_checkmultisig. eapply safe_bind; [by apply multisig_layout_safe|].
  intros [c1 m] (P1 & ES & L). cbn [fst snd] in *. pose proof (post_ok _ _ P1) as Hc1.
  destruct L as (? & ? & ? & ? & ? & ?). rewrite <- ES in *.
  eapply safe_bind; [apply multisig_match_safe; eauto with interp; lia|]. intros b _.
  unfold evalop_multisig_cleanup.
  eapply (safe_bind (post c)).
  - eapply safe_bind; [apply multisig_cleanup_safe; [eauto with interp|lia]|]. intros s Hs.
    pose proof (count_nonneg s). hstep. eapply (safe_bind (fun _ => True)).
    + destruct (has_flag _ _); [|done]. repeat hstep.
    + intros [] _; [done|]. cbn. eapply post_trans; [done|]. eauto with interp.
  - intros c2 P2. eapply safe_bind; [by apply push_bool_safe|]. intros c3 P3.
    destruct (op =? _); [by apply verify_tail_safe|done].
Qed.

(** *** Dispatch, step, loop *)

(** Select the conjunct of [pf] that is the goal. *)
Ltac pick pf :=
  let T := type of pf in
  lazymatch T with
  | _ /\ _ => first [pick (proj1 pf) | pick (proj2 pf)]
  | _ => lazymatch goal with |- ?G => constr_eq T G; exact pf end
  end.
Ltac opcode_range := split; vm_compute; [discriminate|reflexivity].
Ltac entry :=
  split; [opcode_range|];
  lazymatch goal with
  | |- handler_safe _ ?op =>
      first [ pick (stack_handlers_safe op) | pick (flow_handlers_safe op) | pick (arith_handlers_safe op)
            | pick (nop_handlers_safe op) | pick (sig_handlers_safe op) | pick (hash_safe op)
            | pick (checkmultisig_safe op) | pick (number_handlers_safe op ltac:(opcode_range)) ]
  end.

Lemma table_safe :
  Forall (fun e => 0 <= fst e < 256 /\ handler_safe (snd e) (fst e))
    (script_eval_op_table the_script flags checker consensus_branch_id).
Proof.
  unfold script_eval_op_table. cbn [seq map].
  repeat apply Forall_app_2; repeat (apply Forall_cons_2; cbn [fst snd]; [entry|]); apply Forall_nil_2.
Qed.

Lemma dispatch_safe c op : ctx_ok c -> safe (post c) (evalop_dispatch the_script flags checker consensus_branch_id c op).
Proof.
  intros Hc. unfold evalop_dispatch. destruct (find _ _) as [[o h]|] eqn:E; [|done].
  apply find_some in E as [Hin Heq%Z.eqb_eq]. cbn in Heq. subst o.
  pose proof table_safe as T. rewrite List.Forall_forall in T. by apply (T _ Hin).
Qed.

(** The opcode stream of a script from a cursor; [None] if it does not parse. *)
Fixpoint ops_from (fuel : nat) (pc : Z) : option (list Z) :=
  if pc <? script_size the_script then
    match fuel with
    | O => None
    | S fuel =>
        let? r := script_get_op the_script pc true in
        let? ops := ops_from fuel (fst (fst r)) in Some (snd (fst r) :: ops)
    end
  else Some [].

Definition op_cost (op : Z) : Z := b2z (OP_16 <? op).
Definition ops_cost (ops : list Z) : Z := foldr (fun op n => op_cost op + n) 0 ops.

(** One instruction, seen from outside. *)
Definition step_post (c c' : script_eval_ctx) : Prop :=
  ctx_ok c' /\ c_pc c < c_pc c' /\ count (c_stack c') + count (c_altstack c') <= 1000 /\
  exists op d, script_get_op the_script (c_pc c) true = Some (c_pc c', op, d) /\
               evalop_is_disabled op = false /\ nOpCount c + op_cost op <= nOpCount c'.

Lemma step_safe c :
  script_wf the_script -> ctx_ok c -> 0 <= c_pc c ->
  safe (step_post c) (evalop_step the_script flags checker consensus_branch_id c).
Proof.
  intros Hb Hc Hpc. unfold evalop_step. destruct (script_get_op _ _ _) as [[[pc op] d]|] eqn:E; [|done].
  destruct (get_op_spec _ _ _ _ _ _ Hb Hpc E) as (Hadv & _ & Hop & Hd & Hl). cbv zeta. cbn [nOpCount].
  pose proof (co_ops _ Hc) as Hn. destruct (_ <? Z.of_nat (length d)); [done|].
  eapply (safe_bind (fun n => n = nOpCount c + op_cost op)).
  { unfold op_cost. destruct (OP_16 <? op); [rewrite s32_ok by lia|]; cbn; lia. }
  intros n Hn'. destruct (_ && (201 <? n)) eqn:E2; [done|]. destruct (evalop_is_disabled op) eqn:Ed; [done|].
  set (c1 := set_opcount _ n). eapply (safe_bind (post c1)).
  { assert (ctx_ok c1) as Hc1.
    { destruct Hc. split; cbn; auto. unfold op_cost, b2z in Hn'.
      apply andb_false_iff in E2 as [E2|E2%Z.ltb_ge]; [rewrite E2 in Hn'; lia|].
      destruct (OP_16 <? op); lia. }
    destruct (_ && _ && _); [|destruct (_ || _); [by apply dispatch_safe|cbn; eauto with interp]].
    assert (item_ok d) by done. unfold evalop_push_data. destruct (_ && _); [done|]. repeat hstep. }
  intros c' (Hc' & Epc & Hops). destruct (Z.ltb_spec 1000 (count (c_stack c') + count (c_altstack c'))); [done|].
  cbn in Epc, Hops. cbn [safe]. unfold step_post. rewrite Epc.
  split; [done|]. split; [lia|]. split; [lia|]. exists op, d. split_and!; [done|done|lia].
Qed.

Definition eval_post (c : script_eval_ctx) (fuel : nat) (c' : script_eval_ctx) : Prop :=
  ctx_ok c' /\ count (c_stack c') + count (c_altstack c') <= 1000 /\
  exists ops, ops_from fuel (c_pc c) = Some ops /\ Forall (fun op => evalop_is_disabled op = false) ops /\
              nOpCount c + ops_cost ops <= nOpCount c'.

Lemma eval_loop_safe fuel c :
  script_wf the_script -> ctx_ok c -> 0 <= c_pc c -> script_size the_script - c_pc c <= Z.of_nat fuel ->
  count (c_stack c) + count (c_altstack c) <= 1000 ->
  safe (eval_post c fuel) (eval_loop the_script flags checker consensus_branch_id fuel c).
Proof.
  intros Hb. revert c. induction fuel as [|fuel IH]; intros c Hc Hpc Hf Ht; cbn [eval_loop];
    destruct (Z.ltb_spec (c_pc c) (script_size the_script)) as [Hlt|Hge]; try lia.
  - cbn. split_and!; [done|done|]. exists []. cbn [ops_from ops_cost foldr].
    rewrite (proj2 (Z.ltb_ge _ _)) by lia. split_and!; [done|constructor|lia].
  - eapply safe_bind; [by apply step_safe|]. intros c1 (Hc1 & Hadv & Ht1 & op & d & Eop & Hdis & Hcost).
    eapply safe_weaken; [|apply IH; [done|lia|lia|done]].
    intros c2 (Hc2 & Ht2 & ops & Eops & Hall & Hsum). split_and!; [done|done|].
    exists (op :: ops). cbn [ops_from]. rewrite (proj2 (Z.ltb_lt _ _)) by lia. rewrite Eop. cbn [fst snd].
    rewrite Eops. split_and!; [done|by constructor|]. cbn [ops_cost foldr]. fold (ops_cost ops). lia.
  - cbn. split_and!; [done|done|]. exists []. cbn [ops_from ops_cost foldr].
    rewrite (proj2 (Z.ltb_ge _ _)) by lia. split_and!; [done|constructor|lia].
Qed.

Definition script_ops : option (list Z) := ops_from (length the_script) 0.

Lemma eval_script_safe alloc s :
  bytes the_script -> stack_ok s ->
  safe (fun s' => stack_ok s' /\ script_size the_script <= MAX_SCRIPT_SIZE /\
                  exists ops, script_ops = Some ops /\ Forall (fun op => evalop_is_disabled op = false) ops /\
                              ops_cost ops <= 201)
    (domain_consensus_eval_script the_script flags checker consensus_branch_id alloc (Some s)).
Proof.
  intros Hb Hs. unfold domain_consensus_eval_script. destruct alloc; [|done]. cbn [negb].
  destruct (Z.ltb_spec MAX_SCRIPT_SIZE (script_size the_script)) as [|Hsz]; [done|].
  eapply safe_bind; [apply eval_loop_safe|].
  - by split.
  - split; cbn [c_stack c_altstack nOpCount vf_exec]; [done|split; [apply Forall_nil_2|done]|lia|done].
  - cbn. lia.
  - cbn. unfold script_size. lia.
  - cbn. pose proof (so_count _ Hs). unfold MAX_STACK_ITEMS in *. change (count []) with 0. lia.
  - intros c (Hc & Ht & ops & Eo & Hd & Hn). cbn in Hn. destruct (negb _); [done|]. cbn.
    split_and!; [by apply co_stack|done|]. exists ops. pose proof (co_ops _ Hc). split_and!; [done|done|lia].
Qed.

End HandlerSafety.
