(* ===== verification/InterpSpec.v ===== *)
(** * Properties of the script interpreter

    Claims about [eval_script] and [verify_script]: absence of undefined
    behaviour, static validity of accepted scripts, the meaning of the standard
    pay-to-public-key-hash template, and how acceptance depends on the
    verification flags. *)

From stdpp Require Import base tactics list numbers option.
From Stdlib Require Import ZArith Lia.
From S2P Require Import Prelude ByteOrder Hash Script SigEncoding Interp.

(** ** Undefined behaviour and limits *)

(** C3: [eval_script] always returns, without undefined behaviour (no stack
    access out of range, no overflow, no assertion), for every script, flags,
    checker and stack within the limits. When it succeeds the stack is within
    the limits again (at most 1000 items of at most 520 bytes), and the script
    is statically valid: at most 10000 bytes, it parses to the end, no opcode
    of it is disabled, executed or not, and at most 201 are not pushes. *)
Theorem eval_script_sound `{HostOrder, LowS} the_script flags checker branch alloc s :
  bytes the_script -> stack_ok s ->
  match domain_consensus_eval_script the_script flags checker branch alloc (Some s) with
  | Done s' =>
      stack_ok s' /\ script_size the_script <= MAX_SCRIPT_SIZE /\
      exists ops, script_ops the_script = Some ops /\
                  Forall (fun op => evalop_is_disabled op = false) ops /\ ops_cost ops <= 201
  | Fail _ => True
  | UB => False
  end.
Proof. apply eval_script_safe. Qed.

Section InterpExamples.
#[local] Instance le_host : HostOrder := false.
#[local] Instance no_low_s : LowS := fun _ => true.

Lemma eval_script_sound_witness :
  match domain_consensus_eval_script [OP_1; OP_DUP; OP_ADD] 0 None 0 true (Some []) with
  | Done s' =>
      stack_ok s' /\ script_size [OP_1; OP_DUP; OP_ADD] <= MAX_SCRIPT_SIZE /\
      exists ops, script_ops [OP_1; OP_DUP; OP_ADD] = Some ops /\
                  Forall (fun op => evalop_is_disabled op = false) ops /\ ops_cost ops <= 201
  | Fail _ => True
  | UB => False
  end.
Proof.
  apply (eval_script_sound [OP_1; OP_DUP; OP_ADD] 0 None 0 true []).
  - repeat constructor; done.
  - split; [constructor|done].
Defined.

Example eval_add : domain_consensus_eval_script [OP_1; OP_DUP; OP_ADD] 0 None 0 true (Some []) = Done [[2]].
Proof. reflexivity. Qed.
Example eval_disabled_unexecuted :
  domain_consensus_eval_script [OP_0; OP_IF; OP_CAT; OP_ENDIF; OP_1] 0 None 0 true (Some []) = Fail SCRIPT_ERR_DISABLED_OPCODE.
Proof. reflexivity. Qed.
End InterpExamples.

(** *** [verify_script] *)

Section VerifySafety.
Context `{HostOrder, LowS}.

Lemma p2sh_shape s : script_is_p2sh s = true -> exists t, s = OP_HASH160 :: t.
Proof.
  unfold script_is_p2sh. rewrite !andb_true_iff, !Z.eqb_eq. intros H1. destruct s as [|x t].
  - by destruct H1 as [[[? _] _] _].
  - destruct H1 as [[[_ E] _] _]. change (x = OP_HASH160) in E. subst x. by exists t.
Qed.

(** A pay-to-script-hash output fails on an empty stack: its first opcode
    needs an argument. This is what makes the [assert] unreachable. *)
Lemma p2sh_empty_stack spk flags checker branch alloc :
  script_is_p2sh spk = true -> exists e, domain_consensus_eval_script spk flags checker branch alloc (Some []) = Fail e.
Proof.
  intros [t ->]%p2sh_shape. unfold domain_consensus_eval_script. destruct alloc; [|by eexists]. cbn [negb].
  destruct (_ <? _); [by eexists|]. cbn [length eval_loop c_pc].
  assert ((0 <? script_size (OP_HASH160 :: t)) = true) as ->.
  { apply Z.ltb_lt. unfold script_size. cbn [length]. lia. }
  assert (script_get_op (OP_HASH160 :: t) 0 true = Some (1, OP_HASH160, [])) as E.
  { unfold script_get_op. destruct (Z.leb_spec (script_size (OP_HASH160 :: t)) 0) as [Hs|]; [|done].
    unfold script_size in Hs. cbn [length] in Hs. lia. }
  unfold evalop_step. cbn [c_pc]. rewrite E. by eexists.
Qed.

Lemma top_true_safe s : stack_ok s -> safe (fun _ => 1 <= count s) (script_stack_top_is_true s).
Proof.
  intros Hs. unfold script_stack_top_is_true. pose proof (count_nonneg s).
  destruct (Z.eqb_spec (count s) 0); [done|]. eapply safe_bind; [apply stack_top_safe; [done|lia]|].
  intros d _. destruct (negb _); [done|]. cbn. lia.
Qed.

Lemma verify_script_safe flags checker branch alloc ssig spk :
  bytes ssig -> bytes spk ->
  (has_flag flags SCRIPT_VERIFY_CLEANSTACK = true -> has_flag flags SCRIPT_VERIFY_P2SH = true) ->
  safe (fun _ => True) (domain_consensus_verify_script flags checker branch alloc ssig spk).
Proof.
  intros Hss Hsp Hfl. unfold domain_consensus_verify_script.
  destruct (_ && _); [done|]. destruct (_ || _); [done|].
  assert (stack_ok []) as Hnil by (split; [apply Forall_nil_2|done]).
  eapply safe_bind; [by apply eval_script_safe|]. intros s1 (H1 & _).
  assert (exists c, (if has_flag flags SCRIPT_VERIFY_P2SH
           then match stack_copy_active s1 with Some c => Done c | None => Fail SCRIPT_ERR_UNKNOWN_ERROR end
           else Done []) = Done c /\ (has_flag flags SCRIPT_VERIFY_P2SH = true -> c = s1)) as (c & -> & Ec).
  { destruct (has_flag flags SCRIPT_VERIFY_P2SH); [|exists []; split; [done|discriminate]]. unfold stack_copy_active. pose proof (so_count _ H1).
    destruct (Z.ltb_spec MAX_STACK_ITEMS (count s1)); [lia|by exists s1]. }
  cbn [obind].
  destruct (domain_consensus_eval_script spk flags checker branch (alloc 3%nat) (Some s1)) as [s2|e|] eqn:E2;
    [| done |]; pose proof (eval_script_safe spk flags checker branch (alloc 3%nat) s1 Hsp H1) as S2;
    rewrite E2 in S2; [|done].
  destruct S2 as (H2 & _). cbn [obind]. eapply safe_bind; [by apply top_true_safe|]. intros [] _.
  unfold verify_p2sh_redeem_and_cleanstack. eapply (safe_bind (fun s => True)).
  - destruct (has_flag flags SCRIPT_VERIFY_P2SH) eqn:Ef; cbn [andb]; [|done].
    destruct (script_is_p2sh spk) eqn:Ep; [|done]. rewrite (Ec eq_refl). destruct (negb _); [done|].
    unfold stack_copy_active. pose proof (so_count _ H1). destruct (Z.ltb_spec MAX_STACK_ITEMS (count s1)); [done|].
    assert (1 <= count s1) as Hne.
    { destruct s1; [|unfold count; cbn [length]; lia].
      destruct (p2sh_empty_stack spk flags checker branch (alloc 3%nat) Ep) as [e E]. by rewrite E in E2. }
    unfold c_assert. rewrite (proj2 (Z.ltb_lt _ _)) by lia. cbn [obind].
    eapply safe_bind; [apply stack_top_safe; [done|lia]|]. intros ser [Hser _]. cbv zeta.
    eapply safe_bind; [apply eval_script_safe; [by apply digits_take|by apply stack_pop_ok]|].
    intros s3 (Hs3 & _). eapply safe_bind; [by apply top_true_safe|]. done.
  - intros s _. destruct (has_flag flags SCRIPT_VERIFY_CLEANSTACK); [|done]. rewrite Hfl by done.
    cbn [c_assert obind]. by destruct (negb _).
Qed.

End VerifySafety.

(** C4: [verify_script] has no undefined behaviour and neither of its
    assertions can fire, for all scripts, checkers and allocation results, as
    long as CLEANSTACK is only used together with P2SH. *)
Theorem verify_script_defined `{HostOrder, LowS} flags checker branch alloc ssig spk :
  bytes ssig -> bytes spk ->
  (has_flag flags SCRIPT_VERIFY_CLEANSTACK = true -> has_flag flags SCRIPT_VERIFY_P2SH = true) ->
  domain_consensus_verify_script flags checker branch alloc ssig spk <> UB.
Proof.
  intros Hs Hp Hf E. pose proof (verify_script_safe flags checker branch alloc ssig spk Hs Hp Hf) as S.
  by rewrite E in S.
Qed.

Lemma verify_script_defined_witness :
  let _ : HostOrder := false in let _ : LowS := fun _ => true in
  domain_consensus_verify_script (SCRIPT_VERIFY_P2SH + SCRIPT_VERIFY_CLEANSTACK) None 0 (fun _ => true)
    [OP_1] [OP_HASH160; OP_EQUAL] <> UB.
Proof.
  intros H1 H2.
  apply (@verify_script_defined H1 H2 (SCRIPT_VERIFY_P2SH + SCRIPT_VERIFY_CLEANSTACK) None 0 (fun _ => true) [OP_1] [OP_HASH160; OP_EQUAL]);
    [repeat constructor; done|repeat constructor; done|reflexivity].
Defined.

(** ** Pay to public key hash *)

Definition p2pkh_script (h : list Z) : script := [OP_DUP; OP_HASH160; 20] ++ h ++ [OP_EQUALVERIFY; OP_CHECKSIG].

(** Stack operations at the top of a list written with the top last. *)
Lemma stack_top_app s t i x :
  t !! i = Some x -> stack_top (s ++ t) (Z.of_nat i - Z.of_nat (length t)) = Done x.
Proof.
  intros Hx. pose proof (lookup_lt_Some _ _ _ Hx) as Hi. unfold stack_top, count. rewrite length_app.
  destruct (Z.ltb_spec (Z.of_nat (length s + length t) + (Z.of_nat i - Z.of_nat (length t))) 0); [lia|].
  destruct (Z.leb_spec (Z.of_nat (length s + length t)) (Z.of_nat (length s + length t) + (Z.of_nat i - Z.of_nat (length t)))); [lia|].
  cbn [orb]. replace (Z.to_nat _) with (length s + i)%nat by lia. rewrite lookup_app_r by lia.
  by replace (length s + i - length s)%nat with i by lia; rewrite Hx.
Qed.
Lemma stack_pop_app s x : stack_pop (s ++ [x]) = s.
Proof. unfold stack_pop. rewrite length_app. cbn. by rewrite Nat.add_sub, take_app_length. Qed.
Lemma push_ok s d :
  count s < MAX_STACK_ITEMS -> Z.of_nat (length d) <= MAX_SCRIPT_ELEMENT_SIZE -> PUSH_OR_FAIL s d = Done (s ++ [d]).
Proof.
  intros Hs Hd. unfold PUSH_OR_FAIL, stack_push. rewrite (proj2 (Z.leb_gt _ _)) by lia.
  by rewrite (proj2 (Z.ltb_ge _ _)) by lia.
Qed.
Lemma push_full s d : count s = MAX_STACK_ITEMS -> PUSH_OR_FAIL s d = Fail SCRIPT_ERR_STACK_SIZE.
Proof. intros Hs. unfold PUSH_OR_FAIL, stack_push. by rewrite (proj2 (Z.leb_le _ _)) by lia. Qed.
Lemma count_snoc (s : stack) x : count (s ++ [x]) = count s + 1.
Proof. unfold count. rewrite length_app. cbn. lia. Qed.
Lemma top_snoc s x : stack_top (s ++ [x]) (-1) = Done x.
Proof. by apply (stack_top_app s [x] 0). Qed.
Lemma top2_snoc s x y : stack_top ((s ++ [x]) ++ [y]) (-2) = Done x.
Proof. rewrite <- app_assoc. by apply (stack_top_app s [x; y] 0). Qed.

Section P2PKH.
Context `{HostOrder, LowS}.
Variable flags : Z.
Variable checker : option sig_checker.
Variable branch : Z.

(** One executed instruction outside every conditional. *)
Lemma step_exec sc s alt b n pc pc' op d :
  script_get_op sc pc true = Some (pc', op, d) -> Z.of_nat (length d) <= MAX_SCRIPT_ELEMENT_SIZE ->
  0 <= op -> 0 <= n <= 200 -> evalop_is_disabled op = false ->
  evalop_step sc flags checker branch (mk_eval s alt b n pc []) =
  (do c <- (let c1 := mk_eval s alt true (n + op_cost op) pc' [] in
            if op <=? OP_PUSHDATA4 then evalop_push_data flags c1 op d
            else evalop_dispatch sc flags checker branch c1 op);
   fail_if 1000 <? count (c_stack c) + count (c_altstack c) as SCRIPT_ERR_STACK_SIZE;; Done c).
Proof.
  intros E Hd Hop Hn Hdis. unfold evalop_step, op_cost, b2z. cbn [c_pc]. rewrite E. cbv zeta. cbn [nOpCount].
  rewrite (proj2 (Z.ltb_ge MAX_SCRIPT_ELEMENT_SIZE _)) by lia. rewrite s32_ok by lia. rewrite Hdis.
  change (evalop_branch_executing _) with true. rewrite (proj2 (Z.leb_le 0 op)) by lia. cbn [andb orb].
  destruct (OP_16 <? op); cbn [obind defined andb]; [rewrite (proj2 (Z.ltb_ge 201 _)) by lia|rewrite Z.add_0_r]; done.
Qed.

Lemma dispatch_find sc c op h :
  find (fun e => fst e =? op) (script_eval_op_table sc flags checker branch) = Some (op, h) ->
  evalop_dispatch sc flags checker branch c op = h c op.
Proof. unfold evalop_dispatch. by intros ->. Qed.

(** The same for a handler that runs with a known handler. *)
Lemma step_handler sc s alt b n pc pc' op h :
  script_get_op sc pc true = Some (pc', op, []) -> OP_16 < op -> 0 <= n <= 200 -> evalop_is_disabled op = false ->
  find (fun e => fst e =? op) (script_eval_op_table sc flags checker branch) = Some (op, h) ->
  evalop_step sc flags checker branch (mk_eval s alt b n pc []) =
  (do c <- h (mk_eval s alt true (n + 1) pc' []) op;
   fail_if 1000 <? count (c_stack c) + count (c_altstack c) as SCRIPT_ERR_STACK_SIZE;; Done c).
Proof.
  intros E Hop Hn Hdis Hf. unfold OP_16 in *. rewrite (step_exec _ _ _ _ _ _ _ _ _ E) by (done || (cbn; lia)).
  unfold op_cost, OP_16, b2z. rewrite (proj2 (Z.ltb_lt _ _)) by lia. cbv zeta.
  rewrite (proj2 (Z.leb_gt op OP_PUSHDATA4)) by (unfold OP_PUSHDATA4; lia). by rewrite (dispatch_find _ _ _ _ Hf).
Qed.

Lemma eval_loop_step sc fuel c :
  c_pc c < script_size sc -> eval_loop sc flags checker branch (S fuel) c =
  (do c <- evalop_step sc flags checker branch c; eval_loop sc flags checker branch fuel c).
Proof. intros Hp. cbn [eval_loop]. by rewrite (proj2 (Z.ltb_lt _ _)) by lia. Qed.

Lemma digest_hash160 pk : evalop_hash_digest OP_HASH160 pk = hash160 pk.
Proof. unfold evalop_hash_digest. by repeat case_match. Qed.

Lemma p2pkh_ops h : length h = 20%nat ->
  script_size (p2pkh_script h) = 25 /\
  script_get_op (p2pkh_script h) 0 true = Some (1, OP_DUP, []) /\
  script_get_op (p2pkh_script h) 1 true = Some (2, OP_HASH160, []) /\
  script_get_op (p2pkh_script h) 2 true = Some (23, 20, h) /\
  script_get_op (p2pkh_script h) 23 true = Some (24, OP_EQUALVERIFY, []) /\
  script_get_op (p2pkh_script h) 24 true = Some (25, OP_CHECKSIG, []).
Proof.
  intros Hl. do 20 (destruct h as [|? h]; [done|]). destruct h; [|done].
  split_and!; reflexivity.
Qed.

Definition p2pkh_result (base : stack) (h sig pk : item) : outcome stack :=
  fail_if negb (item_equal (hash160 pk) h) as SCRIPT_ERR_EQUALVERIFY;;
  do _ <- check_transaction_signature_encoding sig flags;
  do _ <- check_pubkey_encoding pk flags;
  let ok := call_check_sig (p2pkh_script h) checker branch sig pk in
  fail_if negb ok && has_flag flags SCRIPT_VERIFY_NULLFAIL && (0 <? Z.of_nat (length sig)) as SCRIPT_ERR_SIG_NULLFAIL;;
  Done (base ++ [if ok then vch_true else []]).

(** The four handlers of the template on a stack whose top is known. *)
Ltac run := cbn [obind c_stack c_altstack set_stack]; rewrite ?top_snoc, ?top2_snoc, ?stack_pop_app; cbn [obind].
Ltac at_least n := rewrite (proj2 (Z.ltb_ge _ n)) by (rewrite ?count_snoc; lia).
Ltac fits := rewrite push_ok by (rewrite ?count_snoc; unfold MAX_STACK_ITEMS; done || lia); cbn [obind].

Lemma dup_snoc s alt b n pc vf x :
  count s <= 998 -> item_ok x ->
  evalop_dup_over (mk_eval (s ++ [x]) alt b n pc vf) OP_DUP = Done (mk_eval ((s ++ [x]) ++ [x]) alt b n pc vf).
Proof.
  intros Hs [_ Hx]. pose proof (count_nonneg s). unfold evalop_dup_over.
  change (OP_DUP =? OP_DUP) with true. cbv zeta iota. cbn [c_stack]. at_least 1. run. by fits.
Qed.

Lemma hash160_snoc s alt b n pc vf x :
  count s <= 999 -> item_ok x ->
  evalop_hash (mk_eval (s ++ [x]) alt b n pc vf) OP_HASH160 = Done (mk_eval (s ++ [hash160 x]) alt b n pc vf).
Proof.
  intros Hs Hx. pose proof (count_nonneg s). destruct (digest_ok OP_HASH160 x Hx) as [_ Hl].
  unfold evalop_hash. cbv zeta. cbn [c_stack]. at_least 1. run. fits. by rewrite digest_hash160.
Qed.

Lemma equalverify_snoc s alt b n pc vf x y :
  count s <= 998 ->
  evalop_equal (mk_eval ((s ++ [x]) ++ [y]) alt b n pc vf) OP_EQUALVERIFY =
  (fail_if negb (item_equal x y) as SCRIPT_ERR_EQUALVERIFY;; Done (mk_eval s alt b n pc vf)).
Proof.
  intros Hs. pose proof (count_nonneg s). unfold evalop_equal. cbv zeta. cbn [c_stack]. at_least 2. run.
  unfold evalop_push_bool. change (OP_EQUALVERIFY =? OP_EQUALVERIFY) with true.
  destruct (item_equal x y); run; fits; [|done]. unfold evalop_verify_tail. by run.
Qed.

Lemma checksig_snoc sc s b n pc vf sig pk :
  count s <= 997 ->
  evalop_checksig sc flags checker branch (mk_eval ((s ++ [sig]) ++ [pk]) [] b n pc vf) OP_CHECKSIG =
  (do _ <- check_transaction_signature_encoding sig flags;
   do _ <- check_pubkey_encoding pk flags;
   let ok := call_check_sig sc checker branch sig pk in
   fail_if negb ok && has_flag flags SCRIPT_VERIFY_NULLFAIL && (0 <? Z.of_nat (length sig)) as SCRIPT_ERR_SIG_NULLFAIL;;
   Done (mk_eval (s ++ [if ok then vch_true else []]) [] b n pc vf)).
Proof.
  intros Hs. pose proof (count_nonneg s). unfold evalop_checksig. cbv zeta. cbn [c_stack]. at_least 2. run.
  destruct (check_transaction_signature_encoding sig flags); cbn [obind]; try done.
  destruct (check_pubkey_encoding pk flags); cbn [obind]; try done.
  destruct (_ && _); [done|]. unfold evalop_push_bool. run. change (OP_CHECKSIG =? OP_CHECKSIGVERIFY) with false.
  destruct (call_check_sig _ _ _ _ _); by fits.
Qed.

(** Fetch and run an opcode whose handler is known; the item limit holds. *)
Ltac exec G h :=
  rewrite eval_loop_step, (step_handler _ _ _ _ _ _ _ _ h G) by (cbn [c_pc]; first [reflexivity | lia]);
  cbn [Z.add Pos.add Pos.succ].
Ltac limit :=
  cbn [obind c_stack c_altstack];
  rewrite (proj2 (Z.ltb_ge 1000 _)) by (change (count []) with 0; rewrite ?count_snoc; lia); cbn [obind].

Lemma p2pkh_eval base h sig pk :
  length h = 20%nat -> stack_ok (base ++ [sig; pk]) -> count base <= 996 ->
  domain_consensus_eval_script (p2pkh_script h) flags checker branch true (Some (base ++ [sig; pk])) =
  p2pkh_result base h sig pk.
Proof.
  intros Hh [Hi _] Hc. destruct (p2pkh_ops h Hh) as (Hsz & G0 & G1 & G2 & G3 & G4). pose proof (count_nonneg base).
  apply Forall_app in Hi as [_ Hi]. inversion_clear Hi as [|? ? Hsig Hi']. inversion_clear Hi' as [|? ? Hpk _].
  unfold domain_consensus_eval_script, p2pkh_result. rewrite Hsz. cbn [negb].
  change (MAX_SCRIPT_SIZE <? 25) with false. cbv iota.
  assert (length (p2pkh_script h) = 25)%nat as -> by (unfold script_size in Hsz; lia).
  set (sc := p2pkh_script h) in *.
  replace (base ++ [sig; pk]) with ((base ++ [sig]) ++ [pk]) by (by rewrite <- app_assoc).
  exec G0 (evalop_dup_over). rewrite dup_snoc by (done || (rewrite count_snoc; lia)). limit.
  exec G1 (evalop_hash). rewrite hash160_snoc by (done || (rewrite !count_snoc; lia)). limit.
  rewrite eval_loop_step, (step_exec _ _ _ _ _ _ _ _ _ G2) by (cbn [c_pc]; unfold MAX_SCRIPT_ELEMENT_SIZE; first [reflexivity | lia]).
  change (20 <=? OP_PUSHDATA4) with true. cbv zeta iota. unfold evalop_push_data.
  assert (check_minimal_push h 20 = true) as -> by (unfold check_minimal_push; rewrite Hh; reflexivity).
  rewrite andb_false_r. cbn [c_stack]. rewrite push_ok by (rewrite ?count_snoc; unfold MAX_STACK_ITEMS, MAX_SCRIPT_ELEMENT_SIZE; lia).
  unfold set_stack. cbn [c_altstack fExec nOpCount c_pc vf_exec]. change (0 + 1 + 1 + op_cost 20) with 2. limit.
  exec G3 (evalop_equal). rewrite equalverify_snoc by (rewrite !count_snoc; lia).
  destruct (item_equal _ _); cbn [negb]; [|done]. limit.
  exec G4 (evalop_checksig sc flags checker branch). rewrite checksig_snoc by lia.
  destruct (check_transaction_signature_encoding sig flags); cbn [obind]; try done.
  destruct (check_pubkey_encoding pk flags); cbn [obind]; try done. cbv zeta.
  destruct (_ && _); [done|]. limit. cbn [eval_loop c_pc]. rewrite Hsz. done.
Qed.

(** With more below, the template does not fit into the item limit: the copy of the key is
    item 1001, or the committed hash is. *)
Lemma p2pkh_full base h sig pk :
  length h = 20%nat -> stack_ok (base ++ [sig; pk]) -> 996 < count base ->
  domain_consensus_eval_script (p2pkh_script h) flags checker branch true (Some (base ++ [sig; pk])) =
  Fail SCRIPT_ERR_STACK_SIZE.
Proof.
  intros Hh [Hi Hn] Hc. destruct (p2pkh_ops h Hh) as (Hsz & G0 & G1 & G2 & _).
  apply Forall_app in Hi as [_ Hi]. inversion_clear Hi as [|? ? _ Hi']. inversion_clear Hi' as [|? ? Hpk _].
  unfold domain_consensus_eval_script. rewrite Hsz. cbn [negb].
  change (MAX_SCRIPT_SIZE <? 25) with false. cbv iota.
  assert (length (p2pkh_script h) = 25)%nat as -> by (unfold script_size in Hsz; lia).
  set (sc := p2pkh_script h) in *.
  replace (base ++ [sig; pk]) with ((base ++ [sig]) ++ [pk]) in * by (by rewrite <- app_assoc).
  rewrite !count_snoc in Hn. unfold MAX_STACK_ITEMS in Hn. exec G0 (evalop_dup_over).
  destruct (Z.eq_dec (count base) 998) as [Hb|Hb].
  - unfold evalop_dup_over. change (OP_DUP =? OP_DUP) with true. cbv zeta iota. cbn [c_stack]. at_least 1. run.
    by rewrite push_full by (rewrite !count_snoc; unfold MAX_STACK_ITEMS; lia).
  - rewrite dup_snoc by (done || (rewrite count_snoc; lia)). limit.
    exec G1 (evalop_hash). rewrite hash160_snoc by (done || (rewrite !count_snoc; lia)). limit.
    rewrite eval_loop_step, (step_exec _ _ _ _ _ _ _ _ _ G2) by (cbn [c_pc]; unfold MAX_SCRIPT_ELEMENT_SIZE; first [reflexivity | lia]).
    change (20 <=? OP_PUSHDATA4) with true. cbv zeta iota. unfold evalop_push_data.
    assert (check_minimal_push h 20 = true) as -> by (unfold check_minimal_push; rewrite Hh; reflexivity).
    rewrite andb_false_r. cbn [c_stack].
    by rewrite push_full by (rewrite !count_snoc; unfold MAX_STACK_ITEMS; lia).
Qed.

(** *** A lock before the rest of a script *)

(** Pushes [x] and has it checked as a lock time. *)
Definition timelock_script (x : item) : script := Z.of_nat (length x) :: x ++ [OP_CHECKLOCKTIMEVERIFY; OP_DROP].

Lemma timelock_ops x : (2 <= length x <= 5)%nat ->
  script_size (timelock_script x) = Z.of_nat (length x) + 3 /\
  script_get_op (timelock_script x) 0 true = Some (Z.of_nat (length x) + 1, Z.of_nat (length x), x) /\
  script_get_op (timelock_script x) (Z.of_nat (length x) + 1) true = Some (Z.of_nat (length x) + 2, OP_CHECKLOCKTIMEVERIFY, []) /\
  script_get_op (timelock_script x) (Z.of_nat (length x) + 2) true = Some (Z.of_nat (length x) + 3, OP_DROP, []).
Proof.
  intros Hl. destruct x as [|x0 [|x1 x]]; [cbn in Hl; lia..|].
  destruct x as [|x2 [|x3 [|x4 [|]]]]; [split_and!; reflexivity..|cbn in Hl; lia].
Qed.

Lemma timelock_drop x base fuel n : (1 <= fuel)%nat -> (2 <= length x <= 5)%nat -> 0 <= n <= 200 -> count base <= 999 ->
  eval_loop (timelock_script x) flags checker branch (S fuel) (mk_eval (base ++ [x]) [] true n (Z.of_nat (length x) + 2) []) =
  Done (mk_eval base [] true (n + 1) (Z.of_nat (length x) + 3) []).
Proof.
  intros Hf Hl Hn Hc. destruct (timelock_ops x Hl) as (Hsz & _ & _ & G2). pose proof (count_nonneg base).
  rewrite eval_loop_step by (cbn [c_pc]; lia). rewrite (step_handler _ _ _ _ _ _ _ _ evalop_drop G2) by first [reflexivity | lia].
  unfold evalop_drop. cbn [c_stack]. at_least 1. run. unfold set_stack. cbn [c_altstack fExec nOpCount c_pc vf_exec]. limit.
  destruct fuel; [lia|]. cbn [eval_loop c_pc]. rewrite Hsz. by rewrite Z.ltb_irrefl.
Qed.

Lemma timelock_eval base x lock :
  (2 <= length x <= 5)%nat -> stack_ok base ->
  script_num_from_bytes x (has_flag flags SCRIPT_VERIFY_MINIMALDATA) 5 = Some lock ->
  domain_consensus_eval_script (timelock_script x) flags checker branch true (Some base) =
  (fail_if 999 <? count base as SCRIPT_ERR_STACK_SIZE;;
   if has_flag flags SCRIPT_VERIFY_CHECKLOCKTIMEVERIFY then
     fail_if lock <? 0 as SCRIPT_ERR_NEGATIVE_LOCKTIME;;
     fail_if lock_time_refused checker lock as SCRIPT_ERR_UNSATISFIED_LOCKTIME;;
     Done base
   else
     fail_if has_flag flags SCRIPT_VERIFY_DISCOURAGE_UPGRADABLE_NOPS as SCRIPT_ERR_DISCOURAGE_UPGRADABLE_NOPS;;
     Done base).
Proof.
  intros Hl [Hi Hn] Hx. destruct (timelock_ops x Hl) as (Hsz & G0 & G1 & G2). pose proof (count_nonneg base).
  set (sc := timelock_script x) in *. unfold domain_consensus_eval_script. rewrite Hsz. cbn [negb].
  rewrite (proj2 (Z.ltb_ge MAX_SCRIPT_SIZE _)) by (unfold MAX_SCRIPT_SIZE; lia). cbv iota.
  assert (length sc = S (S (S (length x)))) as -> by (unfold script_size in Hsz; lia).
  assert (evalop_is_disabled (Z.of_nat (length x)) = false) as Hd.
  { assert (length x = 2 \/ length x = 3 \/ length x = 4 \/ length x = 5)%nat as [-> |[-> |[-> | ->]]] by lia; reflexivity. }
  rewrite eval_loop_step, (step_exec _ _ _ _ _ _ _ _ _ G0) by (cbn [c_pc]; unfold MAX_SCRIPT_ELEMENT_SIZE; first [exact Hd|lia]).
  unfold op_cost, OP_16, b2z. rewrite (proj2 (Z.leb_le _ OP_PUSHDATA4)), (proj2 (Z.ltb_ge 96 _)) by (unfold OP_PUSHDATA4; lia).
  cbv zeta iota. unfold evalop_push_data.
  assert (check_minimal_push x (Z.of_nat (length x)) = true) as ->.
  { unfold check_minimal_push. rewrite (proj2 (Z.eqb_neq _ 0)), (proj2 (Z.eqb_neq _ 1)), (proj2 (Z.leb_le _ 75)) by lia. by rewrite Z.eqb_refl. }
  rewrite andb_false_r. cbn [c_stack]. unfold MAX_STACK_ITEMS in Hn.
  destruct (Z.ltb_spec 999 (count base)); [by rewrite push_full by (unfold MAX_STACK_ITEMS; lia)|].
  rewrite push_ok by (unfold MAX_STACK_ITEMS, MAX_SCRIPT_ELEMENT_SIZE; lia).
  unfold set_stack. cbn [obind c_altstack fExec nOpCount c_pc vf_exec]. limit.
  rewrite eval_loop_step, (step_handler _ _ _ _ _ _ _ _ (evalop_checklocktimeverify flags checker) G1) by (cbn [c_pc]; first [reflexivity | lia]).
  rewrite Z.add_0_r. change (0 + 1) with 1. pose proof (timelock_drop x base (length x) 1 ltac:(lia) Hl ltac:(lia) ltac:(lia)) as Hdrop. fold sc in Hdrop.
  unfold evalop_checklocktimeverify. destruct (has_flag flags SCRIPT_VERIFY_CHECKLOCKTIMEVERIFY); cbn [negb].
  - cbn [c_stack]. at_least 1. unfold SN_FROM_TOP_N. rewrite top_snoc. cbn [obind]. unfold fRequireMinimal. rewrite Hx. cbn [obind].
    destruct (lock <? 0); [done|]. destruct (lock_time_refused checker lock); [done|]. limit. by rewrite Hdrop.
  - destruct (has_flag flags SCRIPT_VERIFY_DISCOURAGE_UPGRADABLE_NOPS); [done|]. limit. by rewrite Hdrop.
Qed.

End P2PKH.

(** C6: the pay-to-public-key-hash template means what it should, under every
    combination of flags, on every stack that ends in a signature and a key: it fails
    unless RIPEMD160(SHA256(key)) is the committed hash, then applies exactly the two
    encoding gates, asks the checker once about that signature, that key and the
    template as script code, enforces NULLFAIL, and leaves the verdict in place of the
    two arguments; except that with more than 996 items below the two, where the
    template would exceed the limit of 1000 items, it fails with that error. *)
Theorem p2pkh_meaning `{HostOrder, LowS} flags checker branch base h sig pk :
  length h = 20%nat -> stack_ok (base ++ [sig; pk]) ->
  script_is_p2pkh (p2pkh_script h) = true /\
  domain_consensus_eval_script (p2pkh_script h) flags checker branch true (Some (base ++ [sig; pk])) =
  (fail_if 996 <? count base as SCRIPT_ERR_STACK_SIZE;;
   fail_if negb (item_equal (Reference.ripemd160 (Reference.sha256 pk)) h) as SCRIPT_ERR_EQUALVERIFY;;
   do _ <- check_transaction_signature_encoding sig flags;
   do _ <- check_pubkey_encoding pk flags;
   let ok := call_check_sig (p2pkh_script h) checker branch sig pk in
   fail_if negb ok && has_flag flags SCRIPT_VERIFY_NULLFAIL && (0 <? Z.of_nat (length sig)) as SCRIPT_ERR_SIG_NULLFAIL;;
   Done (base ++ [if ok then vch_true else []])).
Proof.
  intros Hh Hs. split.
  - do 20 (destruct h as [|? h]; [done|]). by destruct h.
  - destruct (Z.ltb_spec 996 (count base)) as [Hc|Hc]; [by apply p2pkh_full|].
    rewrite p2pkh_eval by done. unfold p2pkh_result. rewrite hash160_spec; [done|..];
      destruct Hs as [Hi _]; apply Forall_app in Hi as [_ Hi]; apply Forall_cons_1 in Hi as [_ Hi];
      apply Forall_cons_1 in Hi as [[Hb Hl] _]; [done|]. unfold MAX_SCRIPT_ELEMENT_SIZE in Hl. lia.
Qed.

(** A checker that accepts, the hash of the key and another hash. *)
Lemma p2pkh_meaning_witness :
  let _ : HostOrder := false in let _ : LowS := fun _ => true in
  let yes := Some {| check_sig := Some (fun _ _ _ _ => true); check_lock_time := None; verify_signature := None |} in
  let h := Reference.ripemd160 (Reference.sha256 [2]) in
  domain_consensus_eval_script (p2pkh_script h) 0 yes 0 true (Some [[]; [2]]) = Done [vch_true] /\
  domain_consensus_eval_script (p2pkh_script (replicate 20 7)) 0 yes 0 true (Some [[]; [2]]) = Fail SCRIPT_ERR_EQUALVERIFY.
Proof.
  intros H1 H2 yes h. assert (stack_ok [[]; [2]]) as Hs.
  { split; [|done]. repeat apply Forall_cons_2; [apply nil_ok| |apply Forall_nil_2]. split; [by repeat constructor|done]. }
  split.
  - pose proof (proj2 (@p2pkh_meaning H1 H2 0 yes 0 [] h [] [2] eq_refl Hs)) as E.
    cbn [app] in E. rewrite E. vm_compute. reflexivity.
  - pose proof (proj2 (@p2pkh_meaning H1 H2 0 yes 0 [] (replicate 20 7) [] [2] eq_refl Hs)) as E.
    cbn [app] in E. rewrite E. vm_compute. reflexivity.
Defined.

(** ** Flags *)

(** [m ⊑ m']: when [m] succeeds, [m'] succeeds with the same result. *)
Definition accepts_less {A} (m m' : outcome A) : Prop := forall a, m = Done a -> m' = Done a.
#[local] Infix "⊑" := accepts_less (at level 70).

#[export] Instance accepts_less_pre {A} : PreOrder (@accepts_less A).
Proof. split; [by intros m a|]. intros m1 m2 m3 H1 H2 a Ha. auto. Qed.

Lemma less_bind {A B} (m m' : outcome A) (k k' : A -> outcome B) :
  m ⊑ m' -> (forall a, k a ⊑ k' a) -> obind m k ⊑ obind m' k'.
Proof. intros Hm Hk b. destruct m as [a| |]; cbn; try done. rewrite (Hm a eq_refl). apply Hk. Qed.
Lemma less_guard {A} (b b' : bool) e e' (m m' : outcome A) :
  (b' = true -> b = true) -> m ⊑ m' -> (if b then Fail e else m) ⊑ (if b' then Fail e' else m').
Proof. intros Hb Hm a. destruct b, b'; try done; [naive_solver|apply Hm]. Qed.
Lemma less_refl {A} (m : outcome A) : m ⊑ m.
Proof. reflexivity. Qed.
Lemma less_if {A} (b : bool) (m m' n n' : outcome A) : m ⊑ m' -> n ⊑ n' -> (if b then m else n) ⊑ (if b then m' else n').
Proof. by destruct b. Qed.

Lemma num_minimal_less d maxsz v (b b' : bool) :
  (b' = true -> b = true) -> script_num_from_bytes d b maxsz = Some v -> script_num_from_bytes d b' maxsz = Some v.
Proof.
  intros Hb. unfold script_num_from_bytes. destruct (maxsz <? _); [done|].
  destruct b, b'; cbn [andb]; try done; [by destruct (_ && _)|]. discriminate (Hb eq_refl).
Qed.

Section Flags.
Context `{HostOrder, LowS}.
Variable checker : option sig_checker.
Variable branch : Z.
(** [F] has every bit of [F']; CLTV may only be dropped where its opcode is
    not thereby turned into a discouraged NOP. *)
Variables F F' : Z.
Hypothesis subset : F' .& F = F'.
Hypothesis cltv_kept :
  has_flag F SCRIPT_VERIFY_CHECKLOCKTIMEVERIFY = true -> has_flag F' SCRIPT_VERIFY_DISCOURAGE_UPGRADABLE_NOPS = true ->
  has_flag F' SCRIPT_VERIFY_CHECKLOCKTIMEVERIFY = true.

Lemma has_flag_mono bit : has_flag F' bit = true -> has_flag F bit = true.
Proof.
  unfold has_flag. rewrite !negb_true_iff, !Z.eqb_neq. intros H1 H2. apply H1.
  by rewrite <- subset, <- Z.land_assoc, H2, Z.land_0_r.
Qed.

(** A guard that only strengthens with the flags. *)
Ltac gtighten :=
  apply less_guard;
  [first [ exact (fun x => x) | apply has_flag_mono
         | unfold fRequireMinimal; rewrite ?andb_true_iff; intuition auto using has_flag_mono ]|].

Lemma raw_less sig : check_raw_signature_encoding sig F ⊑ check_raw_signature_encoding sig F'.
Proof. unfold check_raw_signature_encoding. apply less_bind; [reflexivity|]. intros ok. gtighten. gtighten. done. Qed.
Lemma tx_sig_less sig : check_transaction_signature_encoding sig F ⊑ check_transaction_signature_encoding sig F'.
Proof.
  unfold check_transaction_signature_encoding. apply less_if; [reflexivity|]. apply less_bind; [apply raw_less|]. intros _.
  pose proof (has_flag_mono SCRIPT_VERIFY_STRICTENC) as M.
  destruct (has_flag F' SCRIPT_VERIFY_STRICTENC) eqn:E; [rewrite (M eq_refl); reflexivity|]. destruct (has_flag F SCRIPT_VERIFY_STRICTENC); [|reflexivity].
  intros a. destruct (sig_get_hash_type sig); cbn; try done. by destruct (negb _).
Qed.
Lemma data_sig_less sig : check_data_signature_encoding sig F ⊑ check_data_signature_encoding sig F'.
Proof. unfold check_data_signature_encoding. apply less_if; [reflexivity|]. apply raw_less. Qed.
Lemma pubkey_less pk : check_pubkey_encoding pk F ⊑ check_pubkey_encoding pk F'.
Proof.
  unfold check_pubkey_encoding. pose proof (has_flag_mono SCRIPT_VERIFY_STRICTENC) as M.
  destruct (has_flag F' SCRIPT_VERIFY_STRICTENC) eqn:E; [rewrite (M eq_refl); reflexivity|]. destruct (has_flag F SCRIPT_VERIFY_STRICTENC); [|reflexivity].
  intros []. done.
Qed.

Lemma num_less s i maxsz : SN_FROM_TOP_N s i (fRequireMinimal F) maxsz ⊑ SN_FROM_TOP_N s i (fRequireMinimal F') maxsz.
Proof.
  unfold SN_FROM_TOP_N. apply less_bind; [reflexivity|]. intros d v.
  destruct (script_num_from_bytes d (fRequireMinimal F) maxsz) as [w|] eqn:E; [|done].
  rewrite (num_minimal_less _ _ _ _ (fRequireMinimal F') (has_flag_mono _) E). by intros [= ->].
Qed.

(** The parts of a handler that do not depend on the flags are syntactically
    equal; the others have a lemma each. *)
Ltac same := lazymatch goal with |- ?x ⊑ ?y => constr_eq x y; reflexivity end.
Ltac part := first [ same | apply num_less | apply tx_sig_less | apply data_sig_less | apply pubkey_less ].
Ltac less := cbv zeta; repeat first [ same | gtighten | (apply less_bind; [part|intros ?]) ].

Definition handler_less (h h' : script_eval_ctx -> Z -> outcome script_eval_ctx) : Prop := forall c op, h c op ⊑ h' c op.

Lemma number_less :
  handler_less (evalop_pick_roll F) (evalop_pick_roll F') /\ handler_less (evalop_unary_arith F) (evalop_unary_arith F') /\
  handler_less (evalop_binary_arith F) (evalop_binary_arith F') /\ handler_less (evalop_within F) (evalop_within F').
Proof.
  split_and!; intros c op.
  - unfold evalop_pick_roll. less.
  - unfold evalop_unary_arith. less.
  - unfold evalop_binary_arith. less.
  - unfold evalop_within. less.
Qed.

Lemma nops_less :
  handler_less (evalop_upgradable_nop F) (evalop_upgradable_nop F') /\
  handler_less (evalop_checklocktimeverify F checker) (evalop_checklocktimeverify F' checker).
Proof.
  split; intros c op.
  - unfold evalop_upgradable_nop. less.
  - unfold evalop_checklocktimeverify. destruct (has_flag F' SCRIPT_VERIFY_CHECKLOCKTIMEVERIFY) eqn:E'.
    + rewrite (has_flag_mono _ E'). cbn [negb]. less.
    + destruct (has_flag F SCRIPT_VERIFY_CHECKLOCKTIMEVERIFY) eqn:E; cbn [negb].
      * destruct (has_flag F' SCRIPT_VERIFY_DISCOURAGE_UPGRADABLE_NOPS) eqn:D; [discriminate (cltv_kept eq_refl eq_refl)|].
        intros a. destruct (count _ <? 1); [done|]. destruct (SN_FROM_TOP_N _ _ _ _) as [v| |]; cbn; [|done..].
        destruct (v <? 0); [done|]. by destruct (lock_time_refused checker v).
      * less.
Qed.

Lemma sig_less sc :
  handler_less (evalop_checksig sc F checker branch) (evalop_checksig sc F' checker branch) /\
  handler_less (evalop_checkdatasig F checker) (evalop_checkdatasig F' checker).
Proof.
  split; intros c op.
  - unfold evalop_checksig. less.
  - unfold evalop_checkdatasig. less.
Qed.

Lemma match_less sc fuel s isig ikey nS nK b :
  multisig_match_loop sc F checker branch fuel s isig ikey nS nK b ⊑ multisig_match_loop sc F' checker branch fuel s isig ikey nS nK b.
Proof.
  revert isig ikey nS nK b. induction fuel as [|fuel IH]; intros; cbn [multisig_match_loop]; [reflexivity|].
  apply less_if; [|reflexivity]. less. apply IH.
Qed.

Lemma nullfail_less s n ikey2 b :
  multisig_cleanup_loop F n s ikey2 b ⊑ multisig_cleanup_loop F' n s ikey2 b.
Proof.
  revert s ikey2. induction n as [|n IH]; intros s ikey2; cbn [multisig_cleanup_loop]; [reflexivity|].
  pose proof (has_flag_mono SCRIPT_VERIFY_NULLFAIL) as M.
  destruct b; cbn [negb andb obind]; [apply IH|].
  destruct (has_flag F' SCRIPT_VERIFY_NULLFAIL) eqn:E.
  - rewrite (M eq_refl). apply less_bind; [reflexivity|]. intros nf. by apply less_guard.
  - cbn [andb obind]. destruct (has_flag F SCRIPT_VERIFY_NULLFAIL && (ikey2 =? 0)); cbn [obind]; [|apply IH].
    intros a. destruct (stack_top s (-1)); cbn; try done. destruct (0 <? _); [done|]. apply IH.
Qed.

Lemma multisig_less sc :
  handler_less (evalop_checkmultisig sc F checker branch) (evalop_checkmultisig sc F' checker branch).
Proof.
  intros c op. unfold evalop_checkmultisig. apply less_bind.
  { unfold evalop_multisig_layout. less. }
  intros [c1 m]. apply less_bind; [apply match_less|]. intros b. apply less_bind; [|reflexivity].
  unfold evalop_multisig_cleanup. apply less_bind; [apply nullfail_less|]. intros s. gtighten.
  pose proof (has_flag_mono SCRIPT_VERIFY_NULLDUMMY) as M. destruct (has_flag F' SCRIPT_VERIFY_NULLDUMMY) eqn:E.
  - by rewrite (M eq_refl).
  - cbn [obind]. destruct (has_flag F SCRIPT_VERIFY_NULLDUMMY); [|reflexivity].
    intros a. destruct (stack_top s (-1)); cbn; try done. by destruct (0 <? _).
Qed.

(** The two tables have the same opcodes and pointwise related handlers. *)
Lemma table_less sc :
  Forall2 (fun e e' => fst e = fst e' /\ handler_less (snd e) (snd e'))
    (script_eval_op_table sc F checker branch) (script_eval_op_table sc F' checker branch).
Proof.
  destruct number_less as (? & ? & ? & ?). destruct nops_less as (? & ?). destruct (sig_less sc) as (? & ?).
  pose proof (multisig_less sc). unfold script_eval_op_table. cbn [seq map].
  repeat apply Forall2_app; repeat (constructor; [cbn [fst snd]; split; [reflexivity|first [assumption | intros ? ?; same]]|]);
    constructor.
Qed.

Lemma dispatch_less sc c op : evalop_dispatch sc F checker branch c op ⊑ evalop_dispatch sc F' checker branch c op.
Proof.
  unfold evalop_dispatch. pose proof (table_less sc) as T.
  induction T as [|[o h] [o' h'] l l' [Eo Hh] T IH]; cbn [find fst]; [reflexivity|]. cbn in Eo, Hh. subst o'.
  destruct (o =? op); [apply Hh|apply IH].
Qed.

Lemma step_less sc c : evalop_step sc F checker branch c ⊑ evalop_step sc F' checker branch c.
Proof.
  unfold evalop_step. destruct (script_get_op _ _ _) as [[[pc op] d]|]; [|reflexivity]. cbv zeta.
  gtighten. apply less_bind; [reflexivity|]. intros n. gtighten. gtighten. apply less_bind; [|reflexivity].
  apply less_if; [|apply less_if; [apply dispatch_less|reflexivity]]. unfold evalop_push_data. less.
Qed.

Lemma loop_less sc fuel c : eval_loop sc F checker branch fuel c ⊑ eval_loop sc F' checker branch fuel c.
Proof.
  revert c. induction fuel as [|fuel IH]; intros c; cbn [eval_loop]; [reflexivity|].
  apply less_if; [|reflexivity]. apply less_bind; [apply step_less|apply IH].
Qed.

Lemma eval_less sc alloc stk :
  domain_consensus_eval_script sc F checker branch alloc stk ⊑ domain_consensus_eval_script sc F' checker branch alloc stk.
Proof.
  unfold domain_consensus_eval_script. gtighten. destruct stk; [|reflexivity]. gtighten.
  apply less_bind; [apply loop_less|reflexivity].
Qed.

(** [verify_script]: CLEANSTACK is a rule about P2SH-checked scripts, so [F']
    keeps P2SH if it keeps CLEANSTACK. *)
Hypothesis clean_with_p2sh :
  has_flag F' SCRIPT_VERIFY_CLEANSTACK = true -> has_flag F' SCRIPT_VERIFY_P2SH = true.

Definition cleanstack_rule (f : Z) (s : stack) : outcome unit :=
  if has_flag f SCRIPT_VERIFY_CLEANSTACK
  then do _ <- c_assert (has_flag f SCRIPT_VERIFY_P2SH); fail_if negb (count s =? 1) as SCRIPT_ERR_CLEANSTACK;; Done tt
  else Done tt.
Lemma cleanstack_less s : cleanstack_rule F s ⊑ cleanstack_rule F' s.
Proof.
  unfold cleanstack_rule. pose proof (has_flag_mono SCRIPT_VERIFY_CLEANSTACK) as M.
  destruct (has_flag F' SCRIPT_VERIFY_CLEANSTACK) eqn:E; [|by intros []].
  rewrite (M eq_refl), (clean_with_p2sh eq_refl), (has_flag_mono _ (clean_with_p2sh eq_refl)). reflexivity.
Qed.

Lemma verify_less alloc ssig spk :
  domain_consensus_verify_script F checker branch alloc ssig spk ⊑ domain_consensus_verify_script F' checker branch alloc ssig spk.
Proof.
  pose proof cleanstack_less as CL. pose proof clean_with_p2sh as CP.
  unfold domain_consensus_verify_script. gtighten. gtighten. apply less_bind; [apply eval_less|]. intros s1.
  pose proof (has_flag_mono SCRIPT_VERIFY_P2SH) as M. destruct (has_flag F' SCRIPT_VERIFY_P2SH) eqn:E.
  - rewrite (M eq_refl). apply less_bind; [reflexivity|]. intros copy. apply less_bind; [apply eval_less|]. intros s2.
    apply less_bind; [reflexivity|]. intros _. unfold verify_p2sh_redeem_and_cleanstack. rewrite E, (M eq_refl).
    apply less_bind; [|intros s3; specialize (CL s3); unfold cleanstack_rule in CL; by rewrite E, (M eq_refl) in CL]. apply less_if; [|reflexivity]. gtighten.
    destruct (stack_copy_active copy) as [s3|]; [|reflexivity]. apply less_bind; [reflexivity|]. intros _.
    apply less_bind; [reflexivity|]. intros ser. apply less_bind; [apply eval_less|reflexivity].
  - assert (has_flag F' SCRIPT_VERIFY_CLEANSTACK = false) as Ec.
    { destruct (has_flag F' SCRIPT_VERIFY_CLEANSTACK) eqn:Ec; [|done]. discriminate (CP eq_refl). }
    cbn [obind]. intros [] Ha.
    destruct (if has_flag F SCRIPT_VERIFY_P2SH then _ else _) as [copy| |]; cbn [obind] in Ha; [|done..].
    destruct (domain_consensus_eval_script spk F _ _ _ _) as [s2| |] eqn:E2; cbn [obind] in Ha; [|done..].
    rewrite (eval_less _ _ _ _ E2). cbn [obind]. destruct (script_stack_top_is_true s2); cbn [obind] in *; [|done..].
    unfold verify_p2sh_redeem_and_cleanstack. rewrite E, Ec. done.
Qed.

End Flags.

(** C5: verification flags only tighten: a spend accepted under a set of flags
    is accepted under every subset of it (that keeps P2SH where CLEANSTACK is
    kept), except that clearing CHECKLOCKTIMEVERIFY while keeping
    DISCOURAGE_UPGRADABLE_NOPS is not a relaxation. *)
Theorem verify_flags_monotone `{HostOrder, LowS} checker branch alloc F F' ssig spk :
  F' .& F = F' ->
  (has_flag F SCRIPT_VERIFY_CHECKLOCKTIMEVERIFY = true -> has_flag F' SCRIPT_VERIFY_DISCOURAGE_UPGRADABLE_NOPS = true ->
   has_flag F' SCRIPT_VERIFY_CHECKLOCKTIMEVERIFY = true) ->
  (has_flag F' SCRIPT_VERIFY_CLEANSTACK = true -> has_flag F' SCRIPT_VERIFY_P2SH = true) ->
  domain_consensus_verify_script F checker branch alloc ssig spk = Done tt ->
  domain_consensus_verify_script F' checker branch alloc ssig spk = Done tt.
Proof. intros H1 H2 H3. by apply verify_less. Qed.

Lemma verify_flags_monotone_witness :
  let _ : HostOrder := false in let _ : LowS := fun _ => true in
  domain_consensus_verify_script SCRIPT_VERIFY_P2SH None 0 (fun _ => true) [OP_1] [OP_NOP] = Done tt.
Proof.
  intros H1 H2.
  apply (@verify_flags_monotone H1 H2 None 0 (fun _ => true) (SCRIPT_VERIFY_P2SH + SCRIPT_VERIFY_CLEANSTACK)
           SCRIPT_VERIFY_P2SH [OP_1] [OP_NOP]); [reflexivity|discriminate|discriminate|reflexivity].
Defined.

