(* ===== verification/Sighash.v ===== *)
(** * Signature hashes

    Model of [core/consensus/src/sighash.c] with [sighash.h], and of the wrappers
    of [core/modules/validation/src/sighash.c]: what a transparent signature, a
    JoinSplit signature and the Sapling signatures of a transaction sign. The
    result of a stream write is ignored everywhere in this code, so a stream is
    threaded by [put], which drops the answer; data that C would read outside an
    array or uninitialised is [None]. *)

From stdpp Require Import base tactics list numbers option.
From Stdlib Require Import ZArith Lia.
From S2P Require Import Prelude Serialize ByteOrder Params Script Hash Blake2b Transaction SigEncoding.
#[local] Open Scope Z_scope.
#[local] Open Scope list_scope.

Definition NOT_AN_INPUT : Z := UINT32_MAX.

(** The personalisations "ZcashPrevoutHash", "ZcashSequencHash",
    "ZcashOutputsHash", "ZcashJSplitsHash", "ZcashSSpendsHash",
    "ZcashSOutputHash" and the prefix "ZcashSigHash". *)
Definition PREVOUTS_PERSONAL : list Z := [0x5a; 0x63; 0x61; 0x73; 0x68; 0x50; 0x72; 0x65; 0x76; 0x6f; 0x75; 0x74; 0x48; 0x61; 0x73; 0x68].
Definition SEQUENCE_PERSONAL : list Z := [0x5a; 0x63; 0x61; 0x73; 0x68; 0x53; 0x65; 0x71; 0x75; 0x65; 0x6e; 0x63; 0x48; 0x61; 0x73; 0x68].
Definition OUTPUTS_PERSONAL : list Z := [0x5a; 0x63; 0x61; 0x73; 0x68; 0x4f; 0x75; 0x74; 0x70; 0x75; 0x74; 0x73; 0x48; 0x61; 0x73; 0x68].
Definition JOINSPLITS_PERSONAL : list Z := [0x5a; 0x63; 0x61; 0x73; 0x68; 0x4a; 0x53; 0x70; 0x6c; 0x69; 0x74; 0x73; 0x48; 0x61; 0x73; 0x68].
Definition SHIELDED_SPENDS_PERSONAL : list Z := [0x5a; 0x63; 0x61; 0x73; 0x68; 0x53; 0x53; 0x70; 0x65; 0x6e; 0x64; 0x73; 0x48; 0x61; 0x73; 0x68].
Definition SHIELDED_OUTPUTS_PERSONAL : list Z := [0x5a; 0x63; 0x61; 0x73; 0x68; 0x53; 0x4f; 0x75; 0x74; 0x70; 0x75; 0x74; 0x48; 0x61; 0x73; 0x68].
Definition ZcashSigHash : list Z := [0x5a; 0x63; 0x61; 0x73; 0x68; 0x53; 0x69; 0x67; 0x48; 0x61; 0x73; 0x68].

Inductive sig_version := SIGVERSION_SPROUT | SIGVERSION_OVERWINTER | SIGVERSION_SAPLING.

Record precomputed_tx_data := mk_precomputed {
  hash_prevouts : uint256; hash_sequence : uint256; hash_outputs : uint256;
  hash_joinsplits : uint256; hash_shielded_spends : uint256; hash_shielded_outputs : uint256 }.

(** A write whose answer is dropped. *)
Definition put (w : writer) (s : byte_stream) : byte_stream := fst (w s).

Section Code.
Context `{Allocator} `{HostOrder}.

(** The context after the updates, and the digest of [hash_len] bytes; a digest
    that is not written would be read uninitialised. *)
Definition blake2b_personal_chunks (personal : list Z) (chunks : list (list Z)) : option uint256 :=
  let? ctx := blake2b_init_salt_personal 32 None None (Some personal) in
  let? r := blake2b_final (foldl blake2b_update ctx chunks) 32 in r.
Definition blake2b_hash_personal (data personal : list Z) : option uint256 :=
  blake2b_personal_chunks personal [data].

Definition put_each {A} (w : A -> writer) (l : list A) (s : byte_stream) : byte_stream :=
  foldl (fun s x => put (w x) s) s l.

Definition get_prevout_hash (tx : transaction) : option uint256 :=
  let s := put_each (fun i => outpoint_serialize (prevout i)) (vin tx) (stream_init 256) in
  blake2b_hash_personal (data s) PREVOUTS_PERSONAL.
Definition get_sequence_hash (tx : transaction) : option uint256 :=
  let s := put_each (fun i => stream_write_u32_le (sequence i)) (vin tx) (stream_init 256) in
  blake2b_hash_personal (data s) SEQUENCE_PERSONAL.
Definition get_outputs_hash (tx : transaction) : option uint256 :=
  let s := put_each tx_out_serialize (vout tx) (stream_init 256) in
  blake2b_hash_personal (data s) OUTPUTS_PERSONAL.

(** The bytes of an object of the transaction record, as they are in memory. *)
Definition js_chunks (js : js_description) : list (list Z) :=
  [store_object 8 (u64 (vpub_old js)); store_object 8 (u64 (vpub_new js)); js_anchor js] ++
  nullifiers js ++ commitments js ++ [js_ephemeral_key js; random_seed js] ++ macs js ++
  [take (Z.to_nat (if use_groth js then GROTH_PROOF_SIZE else PHGR_PROOF_SIZE)) (proof js)] ++ ciphertexts js.
Definition get_joinsplits_hash (tx : transaction) : option uint256 :=
  blake2b_personal_chunks JOINSPLITS_PERSONAL (concat (map js_chunks (v_joinsplit tx)) ++ [joinsplit_pubkey tx]).

(** The spend authorisation signature is not hashed. *)
Definition spend_chunks (sd : spend_description) : list (list Z) :=
  [sd_cv sd; sd_anchor sd; sd_nullifier sd; sd_rk sd; sd_zkproof sd].
Definition get_shielded_spends_hash (tx : transaction) : option uint256 :=
  blake2b_personal_chunks SHIELDED_SPENDS_PERSONAL (concat (map spend_chunks (v_shielded_spend tx))).

Definition output_chunks (od : output_description) : list (list Z) :=
  [od_cv od; od_cm od; od_ephemeral_key od; od_enc_ciphertext od; od_out_ciphertext od; od_zkproof od].
Definition get_shielded_outputs_hash (tx : transaction) : option uint256 :=
  blake2b_personal_chunks SHIELDED_OUTPUTS_PERSONAL (concat (map output_chunks (v_shielded_output tx))).

(** A digest, or the null hash for an empty array. *)
Definition unless_empty {A} (l : list A) (h : option uint256) : option uint256 :=
  if 0 <? len l then h else Some uint256_set_null.

Definition domain_consensus_precompute_tx_data (tx : transaction) : option precomputed_tx_data :=
  let? prevouts := get_prevout_hash tx in
  let? seqs := get_sequence_hash tx in
  let? outs := get_outputs_hash tx in
  let? js := unless_empty (v_joinsplit tx) (get_joinsplits_hash tx) in
  let? sp := unless_empty (v_shielded_spend tx) (get_shielded_spends_hash tx) in
  let? so := unless_empty (v_shielded_output tx) (get_shielded_outputs_hash tx) in
  Some (mk_precomputed prevouts seqs outs js sp so).

Definition domain_consensus_signature_hash_version (tx : transaction) : sig_version :=
  if overwintered tx then
    if version_group_id tx =? SAPLING_VERSION_GROUP_ID then SIGVERSION_SAPLING else SIGVERSION_OVERWINTER
  else SIGVERSION_SPROUT.

Definition tx_get_header (tx : transaction) : Z := u32 (version tx) .| (if overwintered tx then u32 (1 << 31) else 0).

(** [cache ? cache->field : get_hash(tx)] *)
Definition cached (cache : option precomputed_tx_data) (field : precomputed_tx_data -> uint256) (h : option uint256) : option uint256 :=
  match cache with Some c => Some (field c) | None => h end.

Definition base_is (hash_type base : Z) : bool := sighash_get_base_type hash_type =? base.

Definition sighash_overwinter_prevout_sequence (tx : transaction) (hash_type : Z) (cache : option precomputed_tx_data) :
    option (uint256 * uint256) :=
  let? prevouts := (if negb (sighash_has_anyone_can_pay hash_type) then cached cache hash_prevouts (get_prevout_hash tx)
                    else Some uint256_set_null) in
  let? seqs := (if negb (sighash_has_anyone_can_pay hash_type) && negb (base_is hash_type SIGHASH_SINGLE) &&
                   negb (base_is hash_type SIGHASH_NONE)
                then cached cache hash_sequence (get_sequence_hash tx) else Some uint256_set_null) in
  Some (prevouts, seqs).

Definition sighash_overwinter_outputs (tx : transaction) (nIn hash_type : Z) (cache : option precomputed_tx_data) : option uint256 :=
  if negb (base_is hash_type SIGHASH_SINGLE) && negb (base_is hash_type SIGHASH_NONE) then
    cached cache hash_outputs (get_outputs_hash tx)
  else if base_is hash_type SIGHASH_SINGLE && (nIn <? len (vout tx)) then
    let? o := vout tx !! Z.to_nat nIn in
    blake2b_hash_personal (data (put (tx_out_serialize o) (stream_init 256))) OUTPUTS_PERSONAL
  else Some uint256_set_null.

(** The [varlen] bytes of [varbuf]. *)
Definition sighash_script_compact_size (script_code : script) : list Z :=
  let size := script_size script_code in
  if size <? 0xfd then [u8 size]
  else if size <=? 0xffff then 0xfd :: store_object 2 (u16 size)
  else if size <=? 0xffffffff then 0xfe :: store_object 4 (u32 size)
  else 0xff :: store_object 8 (u64 size).

Definition sighash_overwinter_sapling (script_code : script) (tx : transaction) (nIn hash_type amount consensus_branch_id : Z)
    (cache : option precomputed_tx_data) (sigversion : sig_version) : option uint256 :=
  let? ps := sighash_overwinter_prevout_sequence tx hash_type cache in
  let? outs := sighash_overwinter_outputs tx nIn hash_type cache in
  let personalization := ZcashSigHash ++ store_object 4 consensus_branch_id in
  let? js := unless_empty (v_joinsplit tx) (cached cache hash_joinsplits (get_joinsplits_hash tx)) in
  let? sapling := (match sigversion with
                   | SIGVERSION_SAPLING =>
                       let? sp := unless_empty (v_shielded_spend tx) (cached cache hash_shielded_spends (get_shielded_spends_hash tx)) in
                       let? so := unless_empty (v_shielded_output tx) (cached cache hash_shielded_outputs (get_shielded_outputs_hash tx)) in
                       Some [sp; so]
                   | _ => Some []
                   end) in
  let? input := (if negb (nIn =? NOT_AN_INPUT) then
                   let? i := vin tx !! Z.to_nat nIn in
                   Some [op_hash (prevout i); store_object 4 (op_n (prevout i)); sighash_script_compact_size script_code; script_code;
                         store_object 8 (u64 amount); store_object 4 (sequence i)]
                 else Some []) in
  blake2b_personal_chunks personalization
    ([store_object 4 (tx_get_header tx); store_object 4 (version_group_id tx); fst ps; snd ps; outs; js] ++ sapling ++
     [store_object 4 (lock_time tx); store_object 4 (expiry_height tx)] ++
     (match sigversion with SIGVERSION_SAPLING => [store_object 8 (u64 (value_balance tx))] | _ => [] end) ++
     [store_object 4 hash_type] ++ input).

(** ** The legacy serialisation *)

Fixpoint sprout_inputs (n : nat) (i : Z) (script_code : script) (tx : transaction) (nIn hash_type : Z) (s : byte_stream) :
    option byte_stream :=
  match n with
  | O => Some s
  | S n =>
      let idx := if sighash_has_anyone_can_pay hash_type then nIn else i in
      let? inp := vin tx !! Z.to_nat idx in
      let s := put (outpoint_serialize (prevout inp)) s in
      let s := if negb (idx =? nIn) then put (stream_write_compact_size 0) s
               else put (stream_write_bytes script_code) (put (stream_write_compact_size (script_size script_code)) s) in
      let s := if negb (idx =? nIn) && (base_is hash_type SIGHASH_SINGLE || base_is hash_type SIGHASH_NONE)
               then put (stream_write_u32_le 0) s else put (stream_write_u32_le (sequence inp)) s in
      sprout_inputs n (i + 1) script_code tx nIn hash_type s
  end.

Definition sighash_sprout_write_inputs (script_code : script) (tx : transaction) (nIn hash_type : Z) (s : byte_stream) :
    option byte_stream :=
  let n_inputs := if sighash_has_anyone_can_pay hash_type then 1 else u32 (len (vin tx)) in
  sprout_inputs (Z.to_nat n_inputs) 0 script_code tx nIn hash_type (put (stream_write_compact_size n_inputs) s).

Fixpoint sprout_outputs (n : nat) (i : Z) (tx : transaction) (nIn hash_type : Z) (s : byte_stream) : option byte_stream :=
  match n with
  | O => Some s
  | S n =>
      let? s := (if base_is hash_type SIGHASH_SINGLE && negb (i =? nIn)
                 then Some (put (stream_write_compact_size 0) (put (stream_write_i64_le (-1)) s))
                 else let? o := vout tx !! Z.to_nat i in Some (put (tx_out_serialize o) s)) in
      sprout_outputs n (i + 1) tx nIn hash_type s
  end.

Definition sighash_sprout (script_code : script) (tx : transaction) (nIn hash_type : Z) : option uint256 :=
  let s := put (stream_write_u32_le (u32 (version tx))) (stream_init 256) in
  let? s := sighash_sprout_write_inputs script_code tx nIn hash_type s in
  let n_outputs := if base_is hash_type SIGHASH_NONE then 0
                   else if base_is hash_type SIGHASH_SINGLE then u32 (nIn + 1)
                   else u32 (len (vout tx)) in
  let s := put (stream_write_compact_size n_outputs) s in
  let? s := sprout_outputs (Z.to_nat n_outputs) 0 tx nIn hash_type s in
  let s := put (stream_write_u32_le (lock_time tx)) s in
  let s := if 2 <=? version tx then
             let s := put (stream_write_compact_size (len (v_joinsplit tx))) s in
             let s := put_each js_description_serialize (v_joinsplit tx) s in
             if 0 <? len (v_joinsplit tx)
             then put (stream_write_bytes (replicate 64 0)) (put (stream_write_bytes (joinsplit_pubkey tx)) s) else s
           else s in
  let s := put (stream_write_u32_le hash_type) s in
  Some (hash256 (data s)).

(** [Some None] is [return false]. *)
Definition domain_consensus_signature_hash (script_code : script) (tx : transaction) (n_in hash_type amount consensus_branch_id : Z)
    (cache : option precomputed_tx_data) : option (option uint256) :=
  if (len (vin tx) <=? n_in) && negb (n_in =? NOT_AN_INPUT) then Some None
  else
    match domain_consensus_signature_hash_version tx with
    | SIGVERSION_SPROUT =>
        if base_is hash_type SIGHASH_SINGLE && (len (vout tx) <=? n_in) then Some None
        else let? h := sighash_sprout script_code tx n_in hash_type in Some (Some h)
    | sigver =>
        let? h := sighash_overwinter_sapling script_code tx n_in hash_type amount consensus_branch_id cache sigver in
        Some (Some h)
    end.

(** The wrappers cast between two structures of the same layout. *)
Definition precompute_tx_data (tx : transaction) : option precomputed_tx_data := domain_consensus_precompute_tx_data tx.
Definition signature_hash_version (tx : transaction) : sig_version := domain_consensus_signature_hash_version tx.
Definition signature_hash (script_code : script) (tx : transaction) (nIn hash_type amount consensus_branch_id : Z)
    (cache : option precomputed_tx_data) : option (option uint256) :=
  domain_consensus_signature_hash script_code tx nIn hash_type amount consensus_branch_id cache.

End Code.
