(* ===== verification/SighashSpec.v ===== *)
(** * What a signature signs

    The preimages of ZIP 143 and ZIP 243 and of the legacy serialisation as byte
    lists, the proof that [signature_hash] hashes them, with and without the cached
    digests, and the proof that for Overwinter and Sapling transactions the hash
    determines, up to collisions among the data hashed, exactly the parts of the
    transaction that its hash type covers. *)

From stdpp Require Import base tactics list numbers option.
From Stdlib Require Import ZArith Lia.
From S2P Require Import Prelude Serialize ByteOrder Params Script Hash Blake2b Transaction SigEncoding Sighash.
#[local] Open Scope Z_scope.
#[local] Open Scope list_scope.

(** ** The preimages *)

(** BLAKE2b-256 with a personalisation. *)
Definition zhash (personal data : list Z) : uint256 := Rfc7693.digest 32 [] (replicate 16 0) personal data.

Definition prevouts_enc (tx : transaction) : list Z := concat (map (fun i => outpoint_enc (prevout i)) (vin tx)).
Definition sequences_enc (tx : transaction) : list Z := concat (map (fun i => le4 (sequence i)) (vin tx)).
Definition outputs_enc (tx : transaction) : list Z := concat (map tx_out_enc (vout tx)).
Definition joinsplits_enc (tx : transaction) : list Z := concat (map js_enc (v_joinsplit tx)) ++ joinsplit_pubkey tx.
Definition spend_core (sd : spend_description) : list Z :=
  sd_cv sd ++ sd_anchor sd ++ sd_nullifier sd ++ sd_rk sd ++ sd_zkproof sd.
Definition spends_enc (tx : transaction) : list Z := concat (map spend_core (v_shielded_spend tx)).
Definition shielded_outputs_enc (tx : transaction) : list Z := concat (map output_enc (v_shielded_output tx)).

(** A part that the hash type leaves out contributes the null hash. *)
Definition part (p : option (list Z * list Z)) : uint256 :=
  match p with Some (personal, data) => zhash personal data | None => uint256_set_null end.

Definition covers_inputs (ht : Z) : bool := negb (sighash_has_anyone_can_pay ht).
Definition covers_sequences (ht : Z) : bool :=
  covers_inputs ht && negb (base_is ht SIGHASH_SINGLE) && negb (base_is ht SIGHASH_NONE).
Definition covers_outputs (ht : Z) : bool := negb (base_is ht SIGHASH_SINGLE) && negb (base_is ht SIGHASH_NONE).

Definition keep {A} (b : bool) (a : A) : option A := if b then Some a else None.

(** The outputs covered: all, the one at the input's position, or none. *)
Definition covered_outputs (tx : transaction) (nIn ht : Z) : option (list tx_out) :=
  if covers_outputs ht then Some (vout tx)
  else if base_is ht SIGHASH_SINGLE then (fun o => [o]) <$> vout tx !! Z.to_nat nIn else None.

(** The parts hashed on their own, in the order of the preimage. *)
Definition prevouts_part tx ht := keep (covers_inputs ht) (PREVOUTS_PERSONAL, prevouts_enc tx).
Definition sequences_part tx ht := keep (covers_sequences ht) (SEQUENCE_PERSONAL, sequences_enc tx).
Definition outputs_part tx nIn ht := (fun l => (OUTPUTS_PERSONAL, concat (map tx_out_enc l))) <$> covered_outputs tx nIn ht.
Definition joinsplits_part tx := keep (0 <? len (v_joinsplit tx)) (JOINSPLITS_PERSONAL, joinsplits_enc tx).
Definition spends_part tx := keep (0 <? len (v_shielded_spend tx)) (SHIELDED_SPENDS_PERSONAL, spends_enc tx).
Definition shielded_outputs_part tx := keep (0 <? len (v_shielded_output tx)) (SHIELDED_OUTPUTS_PERSONAL, shielded_outputs_enc tx).

Definition is_sapling (tx : transaction) : bool := version_group_id tx =? SAPLING_VERSION_GROUP_ID.

Definition input_enc (script_code : script) (tx : transaction) (nIn amount : Z) : list Z :=
  if nIn =? NOT_AN_INPUT then []
  else match vin tx !! Z.to_nat nIn with
       | Some i => outpoint_enc (prevout i) ++ script_enc script_code ++ le8s amount ++ le4 (sequence i)
       | None => []
       end.

(** ZIP 143, with the additions of ZIP 243 for Sapling. *)
Definition zip_preimage (script_code : script) (tx : transaction) (nIn ht amount : Z) : list Z :=
  header_enc tx ++ part (prevouts_part tx ht) ++ part (sequences_part tx ht) ++ part (outputs_part tx nIn ht) ++
  part (joinsplits_part tx) ++
  (if is_sapling tx then part (spends_part tx) ++ part (shielded_outputs_part tx) else []) ++
  le4 (lock_time tx) ++ le4 (expiry_height tx) ++
  (if is_sapling tx then le8s (value_balance tx) else []) ++
  le4 ht ++ input_enc script_code tx nIn amount.

(** The legacy form: the transaction with the other scripts blanked, and the parts
    outside the hash type dropped or replaced. *)
Definition legacy_input (script_code : script) (nIn ht : Z) (i : nat) (inp : tx_in) : list Z :=
  let own := Z.of_nat i =? nIn in
  outpoint_enc (prevout inp) ++ script_enc (if own then script_code else []) ++
  le4 (if negb own && negb (covers_outputs ht) then 0 else sequence inp).
Definition legacy_inputs (script_code : script) (tx : transaction) (nIn ht : Z) : list Z :=
  if covers_inputs ht then compact_size_enc (len (vin tx)) ++ concat (imap (legacy_input script_code nIn ht) (vin tx))
  else compact_size_enc 1 ++ match vin tx !! Z.to_nat nIn with
                             | Some inp => legacy_input script_code nIn ht (Z.to_nat nIn) inp
                             | None => []
                             end.
Definition legacy_outputs (tx : transaction) (nIn ht : Z) : list tx_out :=
  if covers_outputs ht then vout tx
  else if base_is ht SIGHASH_SINGLE
  then replicate (Z.to_nat nIn) tx_out_set_null ++ match vout tx !! Z.to_nat nIn with Some o => [o] | None => [] end
  else [].
Definition legacy_preimage (script_code : script) (tx : transaction) (nIn ht : Z) : list Z :=
  le4 (version tx) ++ legacy_inputs script_code tx nIn ht ++ vec_enc tx_out_enc (legacy_outputs tx nIn ht) ++
  le4 (lock_time tx) ++
  (if version tx <? 2 then []
   else vec_enc js_enc (v_joinsplit tx) ++
        (if 0 <? len (v_joinsplit tx) then joinsplit_pubkey tx ++ replicate 64 0 else [])) ++
  le4 ht.

(** The signature hash; [None] is refused. *)
Definition sighash (script_code : script) (tx : transaction) (nIn ht amount branch : Z) : option uint256 :=
  if (len (vin tx) <=? nIn) && negb (nIn =? NOT_AN_INPUT) then None
  else if overwintered tx then Some (zhash (ZcashSigHash ++ le4 branch) (zip_preimage script_code tx nIn ht amount))
  else if base_is ht SIGHASH_SINGLE && (len (vout tx) <=? nIn) then None
  else Some (Reference.sha256 (Reference.sha256 (legacy_preimage script_code tx nIn ht))).

(** ** Streams whose answers are dropped *)

Section Streams.
Context `{Allocator} (M : memory_ok).

(** A stream that owns its buffer, without error, holding [bs]. *)
Definition holds (s : byte_stream) (bs : list Z) : Prop :=
  stream_wf s /\ error s = false /\ owns_data s = true /\ data s = bs.

Lemma holds_init n : 0 < n < 2 ^ 64 -> holds (stream_init n) [].
Proof.
  intros Hn. unfold stream_init. rewrite (proj2 (Z.ltb_lt 0 n)), M by lia.
  split_and!; try done; unfold stream_wf, size; cbn; split_and!; [constructor|lia..].
Qed.

Lemma put_writes w enc s bs : holds s bs -> writes w enc -> len bs + len enc < 2 ^ 64 -> holds (put w s) (bs ++ enc).
Proof.
  intros (W & E & O & D) Hw Hl. unfold put, len in *.
  destruct (Hw s W) as [H1 H2]; [unfold size; rewrite D; lia|]. specialize (H2 O E M).
  destruct (w s) as [s' []]; cbn in *; [|done]. destruct H1 as (W' & D' & R' & E' & O').
  split_and!; congruence || done.
Qed.

Lemma put_each_writes {A} (w : A -> writer) enc l s bs :
  holds s bs -> Forall (fun x => writes (w x) (enc x)) l -> len bs + len (concat (map enc l)) < 2 ^ 64 ->
  holds (put_each w l s) (bs ++ concat (map enc l)).
Proof.
  unfold put_each. revert s bs. induction l as [|x l IH]; intros s bs Hs Hf Hl; cbn in *; [by rewrite app_nil_r|].
  apply Forall_cons_iff in Hf as [Hx Hf]. rewrite len_app in Hl.
  assert (0 <= len (concat (map enc l))) by apply len_nonneg.
  rewrite app_assoc. apply IH; [|done|rewrite len_app; lia]. apply put_writes; [done..|lia].
Qed.

End Streams.

(** ** The code hashes the preimages *)

Section Code.
Context `{Allocator} (M : memory_ok).
#[local] Existing Instance little_endian_host.

Lemma personal_chunks_spec personal chunks : blake2b_personal_chunks personal chunks = Some (zhash personal (concat chunks)).
Proof.
  unfold blake2b_personal_chunks.
  destruct (init_salt_personal_spec 32 None None (Some personal) ltac:(lia) ltac:(cbn; lia)) as (ctx & -> & A).
  cbn [from_option id] in A. set (h0 := Rfc7693.initial _ _ _ _) in A. assert (length h0 = 8%nat) as L by done.
  pose proof (updates_absorbed h0 32 L _ _ chunks A) as A'. by rewrite (final_spec h0 32 L _ _ 32 A') by lia.
Qed.

Lemma hash_personal_spec data personal : blake2b_hash_personal data personal = Some (zhash personal data).
Proof. unfold blake2b_hash_personal. rewrite personal_chunks_spec. cbn [concat]. by rewrite app_nil_r. Qed.

(** A digest over a stream filled from an array. *)
Lemma stream_hash_spec {A} (w : A -> writer) enc (P : A -> Prop) max k personal l :
  (forall x, P x -> writes (w x) (enc x)) -> (forall x, P x -> len (enc x) <= k) -> 0 <= k -> vec_wf max P l -> max * k < 2 ^ 63 ->
  blake2b_hash_personal (data (put_each w l (stream_init 256))) personal = Some (zhash personal (concat (map enc l))).
Proof.
  intros Hw Hk Hk0 [Hl Hf] Hm. rewrite hash_personal_spec. do 2 f_equal.
  assert (len (concat (map enc l)) <= len l * k) by (apply concat_len_le; eapply Forall_impl; [|exact Hf]; auto).
  pose proof (len_nonneg l). destruct (put_each_writes M w enc l (stream_init 256) []) as (_ & _ & _ & D); [|..|done].
  - by apply holds_init.
  - eapply Forall_impl; [|exact Hf]. auto.
  - change (len (@nil Z)) with 0. nia.
Qed.

Section Tx.
Context (tx : transaction) (W : tx_wf tx).

Lemma prevout_hash_spec : get_prevout_hash tx = Some (zhash PREVOUTS_PERSONAL (prevouts_enc tx)).
Proof.
  apply (stream_hash_spec _ (fun i => outpoint_enc (prevout i)) tx_in_wf MAX_TX_INPUTS 36); [| |done|apply W|done].
  - intros i (Ho & _). by apply writes_outpoint.
  - intros i ((Hh & _) & _). unfold outpoint_enc. sizes. lia.
Qed.
Lemma sequence_hash_spec : get_sequence_hash tx = Some (zhash SEQUENCE_PERSONAL (sequences_enc tx)).
Proof.
  apply (stream_hash_spec _ (fun i => le4 (sequence i)) tx_in_wf MAX_TX_INPUTS 4); [| |done|apply W|done].
  - intros i _. apply writes_u32.
  - intros i _. by rewrite len_le4.
Qed.
Lemma outputs_hash_spec : get_outputs_hash tx = Some (zhash OUTPUTS_PERSONAL (outputs_enc tx)).
Proof.
  by apply (stream_hash_spec _ tx_out_enc tx_out_wf MAX_TX_OUTPUTS 10017); [apply writes_tx_out|apply tx_out_enc_len_le|..|apply W|].
Qed.

Lemma js_chunks_enc js : concat (js_chunks js) = js_enc js.
Proof.
  unfold js_chunks, js_enc, js_proof_size. rewrite !concat_app. cbn [concat]. rewrite !app_nil_r, <- !app_assoc. done.
Qed.

Lemma concat_chunks {A} (f : A -> list (list Z)) (enc : A -> list Z) l :
  (forall x, concat (f x) = enc x) -> concat (concat (map f l)) = concat (map enc l).
Proof. intros Hf. induction l as [|x l IH]; [done|]. cbn [map concat]. by rewrite concat_app, Hf, IH. Qed.

Lemma joinsplits_hash_spec : get_joinsplits_hash tx = Some (zhash JOINSPLITS_PERSONAL (joinsplits_enc tx)).
Proof.
  unfold get_joinsplits_hash. rewrite personal_chunks_spec, concat_app, (concat_chunks _ js_enc) by apply js_chunks_enc.
  cbn [concat]. by rewrite app_nil_r.
Qed.
Lemma spends_hash_spec : get_shielded_spends_hash tx = Some (zhash SHIELDED_SPENDS_PERSONAL (spends_enc tx)).
Proof.
  unfold get_shielded_spends_hash. rewrite personal_chunks_spec, (concat_chunks _ spend_core); [done|].
  intros sd. unfold spend_chunks, spend_core. cbn [concat]. by rewrite app_nil_r.
Qed.
Lemma shielded_outputs_hash_spec :
  get_shielded_outputs_hash tx = Some (zhash SHIELDED_OUTPUTS_PERSONAL (shielded_outputs_enc tx)).
Proof.
  unfold get_shielded_outputs_hash. rewrite personal_chunks_spec, (concat_chunks _ output_enc); [done|].
  intros od. unfold output_chunks, output_enc. cbn [concat]. by rewrite app_nil_r.
Qed.

(** The cached digests. *)
Definition precomputed : precomputed_tx_data :=
  mk_precomputed (zhash PREVOUTS_PERSONAL (prevouts_enc tx)) (zhash SEQUENCE_PERSONAL (sequences_enc tx))
    (zhash OUTPUTS_PERSONAL (outputs_enc tx)) (part (joinsplits_part tx)) (part (spends_part tx)) (part (shielded_outputs_part tx)).

Lemma unless_empty_spec {A} (l : list A) personal data :
  unless_empty l (Some (zhash personal data)) = Some (part (keep (0 <? len l) (personal, data))).
Proof. unfold unless_empty. by destruct (0 <? len l). Qed.

Lemma precompute_spec : precompute_tx_data tx = Some precomputed.
Proof.
  unfold precompute_tx_data, domain_consensus_precompute_tx_data.
  rewrite prevout_hash_spec, sequence_hash_spec, outputs_hash_spec, joinsplits_hash_spec, spends_hash_spec, shielded_outputs_hash_spec.
  by rewrite !unless_empty_spec.
Qed.

Context (cache : option precomputed_tx_data) (Hc : forall c, cache = Some c -> c = precomputed).

Lemma cached_spec field h : cached cache field (Some h) = Some (match cache with Some _ => field precomputed | None => h end).
Proof. destruct cache as [c|]; [|done]. by rewrite (Hc c eq_refl). Qed.

(** The transparent parts, from the cache or not. *)
Lemma prevout_sequence_spec ht :
  sighash_overwinter_prevout_sequence tx ht cache = Some (part (prevouts_part tx ht), part (sequences_part tx ht)).
Proof.
  unfold sighash_overwinter_prevout_sequence, prevouts_part, sequences_part, covers_sequences, covers_inputs.
  rewrite prevout_hash_spec, sequence_hash_spec, !cached_spec.
  destruct (sighash_has_anyone_can_pay ht), (base_is ht SIGHASH_SINGLE), (base_is ht SIGHASH_NONE), cache; done.
Qed.

Lemma outputs_part_spec nIn ht : 0 <= nIn ->
  sighash_overwinter_outputs tx nIn ht cache = Some (part (outputs_part tx nIn ht)).
Proof.
  intros Hn. unfold sighash_overwinter_outputs, outputs_part, covered_outputs. fold (covers_outputs ht).
  rewrite outputs_hash_spec, cached_spec. destruct (covers_outputs ht); [by destruct cache|].
  destruct (base_is ht SIGHASH_SINGLE); cbn [andb]; [|done].
  destruct (Z.ltb_spec nIn (len (vout tx))) as [Hl|Hl].
  - destruct (lookup_lt_is_Some_2 (vout tx) (Z.to_nat nIn)) as [o Ho]; [unfold len in Hl; lia|]. rewrite Ho. cbn [fmap option_fmap option_map].
    assert (vec_wf 1 tx_out_wf [o]) as Wo.
    { split; [done|]. constructor; [|constructor]. destruct (wf_vout tx W) as [_ F]. by eapply Forall_lookup_1. }
    by apply (stream_hash_spec tx_out_serialize tx_out_enc tx_out_wf 1 10017 _ [o]); [apply writes_tx_out|apply tx_out_enc_len_le|..].
  - by rewrite lookup_ge_None_2 by (unfold len in Hl; lia).
Qed.

Lemma script_compact_size_spec s : script_wf s -> sighash_script_compact_size s ++ s = script_enc s.
Proof.
  intros [_ Hs]. unfold sighash_script_compact_size, script_enc, compact_size_enc. f_equal.
  assert (0 <= script_size s <= 10000) by (unfold script_size, MAX_SCRIPT_SIZE in *; lia). bool_cases; try lia; try done.
  - by rewrite wrap_id by (unfold in_u; lia).
  - rewrite wrap_id by (unfold in_u; lia). done.
Qed.

Lemma sapling_parts_spec : overwintered tx = true ->
  (match domain_consensus_signature_hash_version tx with
   | SIGVERSION_SAPLING =>
       let? sp := unless_empty (v_shielded_spend tx) (cached cache hash_shielded_spends (get_shielded_spends_hash tx)) in
       let? so := unless_empty (v_shielded_output tx) (cached cache hash_shielded_outputs (get_shielded_outputs_hash tx)) in
       Some [sp; so]
   | _ => Some []
   end) = Some (if is_sapling tx then [part (spends_part tx); part (shielded_outputs_part tx)] else []).
Proof.
  intros Ho. unfold domain_consensus_signature_hash_version, is_sapling. rewrite Ho.
  destruct (version_group_id tx =? SAPLING_VERSION_GROUP_ID); [|done].
  rewrite spends_hash_spec, shielded_outputs_hash_spec, !cached_spec. unfold unless_empty, spends_part, shielded_outputs_part, precomputed.
  destruct cache; cbn [hash_shielded_spends hash_shielded_outputs]; unfold spends_part, shielded_outputs_part;
    by destruct (0 <? len (v_shielded_spend tx)), (0 <? len (v_shielded_output tx)).
Qed.

Lemma joinsplits_part_spec :
  unless_empty (v_joinsplit tx) (cached cache hash_joinsplits (get_joinsplits_hash tx)) = Some (part (joinsplits_part tx)).
Proof.
  rewrite joinsplits_hash_spec, cached_spec. unfold unless_empty, joinsplits_part. destruct cache; [cbn [hash_joinsplits precomputed]|];
    unfold joinsplits_part; by destruct (0 <? len (v_joinsplit tx)).
Qed.

Lemma overwinter_sapling_spec script_code nIn ht amount branch :
  overwintered tx = true -> script_wf script_code -> 0 <= nIn -> (nIn < len (vin tx) \/ nIn = NOT_AN_INPUT) ->
  sighash_overwinter_sapling script_code tx nIn ht amount branch cache (domain_consensus_signature_hash_version tx) =
  Some (zhash (ZcashSigHash ++ le4 branch) (zip_preimage script_code tx nIn ht amount)).
Proof.
  intros Ho Hs Hn Hr. unfold sighash_overwinter_sapling.
  rewrite prevout_sequence_spec, outputs_part_spec, joinsplits_part_spec, sapling_parts_spec by done. cbn [fst snd].
  assert (store_object 4 (tx_get_header tx) ++ store_object 4 (version_group_id tx) = header_enc tx) as Ehd.
  { unfold header_enc. rewrite Ho. f_equal. unfold tx_get_header. rewrite Ho. pose proof (header_value tx (wf_version tx W)) as Eh.
    rewrite Ho in Eh. change (u32 (1 << 31)) with (1 << 31). by rewrite Eh. }
  set (input := if negb (nIn =? NOT_AN_INPUT) then _ else _).
  assert (exists ch, input = Some ch /\ concat ch = input_enc script_code tx nIn amount) as (ch & -> & Ech).
  { subst input. unfold input_enc. destruct (Z.eqb_spec nIn NOT_AN_INPUT) as [->|Hne]; [by exists []|]. cbn [negb].
    destruct (lookup_lt_is_Some_2 (vin tx) (Z.to_nat nIn)) as [i ->]; [unfold len in Hr; lia|]. eexists. split; [done|].
    cbn [concat]. rewrite <- script_compact_size_spec by done. unfold outpoint_enc. rewrite app_nil_r, <- !app_assoc. done. }
  rewrite personal_chunks_spec. do 2 f_equal. unfold zip_preimage, domain_consensus_signature_hash_version. rewrite Ho, <- Ehd, <- Ech. fold (is_sapling tx).
  by destruct (is_sapling tx); cbn [app concat]; rewrite <- !app_assoc.
Qed.

(** ** The legacy serialisation *)

Lemma covers_outputs_neg ht : base_is ht SIGHASH_SINGLE || base_is ht SIGHASH_NONE = negb (covers_outputs ht).
Proof. unfold covers_outputs. by destruct (base_is ht SIGHASH_SINGLE), (base_is ht SIGHASH_NONE). Qed.

(** One input, from a stream that holds [bs]. *)
Lemma sprout_input_spec script_code nIn ht i inp s bs :
  tx_in_wf inp -> script_wf script_code -> holds s bs -> len bs < 2 ^ 63 ->
  let idx := Z.of_nat i in
  holds (let s := put (outpoint_serialize (prevout inp)) s in
         let s := if negb (idx =? nIn) then put (stream_write_compact_size 0) s
                  else put (stream_write_bytes script_code) (put (stream_write_compact_size (script_size script_code)) s) in
         if negb (idx =? nIn) && (base_is ht SIGHASH_SINGLE || base_is ht SIGHASH_NONE)
         then put (stream_write_u32_le 0) s else put (stream_write_u32_le (sequence inp)) s)
    (bs ++ legacy_input script_code nIn ht i inp) /\ len (legacy_input script_code nIn ht i inp) <= 10049.
Proof.
  intros (Ho & _ & Hq) Hs H0 Hl idx. rewrite covers_outputs_neg. unfold legacy_input. cbv zeta. fold idx. pose proof Hs as [Hb Hz].
  assert (len (outpoint_enc (prevout inp)) = 36) as L1 by (destruct Ho; unfold outpoint_enc; sizes; lia).
  pose proof (script_enc_len _ Hs) as L2. set (b := negb (idx =? nIn) && negb (covers_outputs ht)).
  assert (len (script_enc (if idx =? nIn then script_code else [])) <= 10009) as L3 by (destruct (idx =? nIn); [done|by vm_compute]).
  split; [|sizes; lia].
  pose proof (put_writes M _ _ _ _ H0 (writes_outpoint (prevout inp) Ho) ltac:(lia)) as H1.
  set (s1 := put (outpoint_serialize _) s) in *. set (s2 := if negb (idx =? nIn) then _ else _).
  assert (holds s2 ((bs ++ outpoint_enc (prevout inp)) ++ script_enc (if idx =? nIn then script_code else []))) as H2.
  { subst s2. destruct (idx =? nIn); cbn [negb].
    - unfold script_enc in *. rewrite app_assoc. pose proof (len_nonneg script_code). pose proof (len_compact (script_size script_code)).
      rewrite len_app in L2. apply put_writes; [done| |by apply writes_bytes|rewrite !len_app; lia].
      apply put_writes; [done..| |rewrite !len_app; lia]. apply writes_compact_size. unfold in_u, script_size, MAX_SCRIPT_SIZE in *. lia.
    - apply put_writes; [done..| |rewrite !len_app; cbn; lia]. by apply writes_compact_size. }
  replace (if b then put _ s2 else _) with (put (stream_write_u32_le (if b then 0 else sequence inp)) s2) by (by destruct b).
  rewrite !app_assoc. apply put_writes; [done..|apply writes_u32|rewrite !len_app, len_le4; lia].
Qed.

Lemma sprout_inputs_spec script_code nIn ht n i s bs :
  covers_inputs ht = true -> script_wf script_code -> holds s bs -> (i + n = length (vin tx))%nat ->
  len bs + Z.of_nat n * 10049 < 2 ^ 63 ->
  exists s', sprout_inputs n (Z.of_nat i) script_code tx nIn ht s = Some s' /\
    holds s' (bs ++ concat (imap (fun k => legacy_input script_code nIn ht (i + k)) (drop i (vin tx)))).
Proof.
  intros Hc' Hs. unfold covers_inputs in Hc'. apply negb_true_iff in Hc'. revert i s bs.
  induction n as [|n IH]; intros i s bs H0 Hn Hl.
  { exists s. split; [done|]. rewrite drop_ge by lia. cbn. by rewrite app_nil_r. }
  cbn [sprout_inputs]. rewrite Hc', Nat2Z.id. destruct (lookup_lt_is_Some_2 (vin tx) i) as [inp Hi]; [lia|]. rewrite Hi.
  assert (tx_in_wf inp) as Wi by (destruct (wf_vin tx W) as [_ F]; by eapply Forall_lookup_1).
  destruct (sprout_input_spec script_code nIn ht i inp s bs Wi Hs H0 ltac:(lia)) as [H1 L1]. cbv zeta in H1.
  set (s1 := if negb (Z.of_nat i =? nIn) && _ then _ else _) in *.
  replace (Z.of_nat i + 1) with (Z.of_nat (S i)) by lia.
  destruct (IH (S i) s1 _ H1 ltac:(lia)) as (s' & E & H2); [rewrite len_app; lia|]. exists s'. split; [exact E|].
  rewrite (drop_S _ _ _ Hi), imap_cons. cbn [concat]. rewrite Nat.add_0_r, app_assoc.
  replace (imap _ (drop (S i) (vin tx))) with (imap (fun k => legacy_input script_code nIn ht (S i + k)) (drop (S i) (vin tx))); [done|].
  apply imap_ext. intros k x _. cbn. f_equal. lia.
Qed.

Lemma legacy_input_len script_code nIn ht i inp : tx_in_wf inp -> script_wf script_code ->
  len (legacy_input script_code nIn ht i inp) <= 10049.
Proof. intros Wi Hs. by destruct (sprout_input_spec script_code nIn ht i inp (stream_init 256) [] Wi Hs (holds_init M 256 ltac:(lia)) ltac:(done)). Qed.

Lemma legacy_inputs_len script_code nIn ht l i : Forall tx_in_wf l -> script_wf script_code ->
  len (concat (imap (fun k => legacy_input script_code nIn ht (i + k)) l)) <= Z.of_nat (length l) * 10049.
Proof.
  intros F Hs. revert i. induction F as [|inp l Wi _ IH]; intros i; [done|]. rewrite imap_cons. cbn [concat length]. rewrite len_app.
  pose proof (legacy_input_len script_code nIn ht (i + 0) inp Wi Hs). specialize (IH (S i)).
  replace (imap _ l) with (imap (fun k => legacy_input script_code nIn ht (S i + k)) l); [lia|].
  apply imap_ext. intros k x _. cbn. f_equal. lia.
Qed.

Lemma write_inputs_spec script_code nIn ht s bs :
  script_wf script_code -> 0 <= nIn -> (covers_inputs ht = true \/ nIn < len (vin tx)) -> holds s bs -> len bs < 2 ^ 62 ->
  exists s', sighash_sprout_write_inputs script_code tx nIn ht s = Some s' /\
    holds s' (bs ++ legacy_inputs script_code tx nIn ht) /\ len (legacy_inputs script_code tx nIn ht) < 2 ^ 32.
Proof.
  intros Hs Hn Hin H0 Hl. pose proof (wf_vin tx W) as [Hm F]. unfold MAX_TX_INPUTS, len in Hm. unfold sighash_sprout_write_inputs, legacy_inputs.
  destruct (covers_inputs ht) eqn:Ec.
  - pose proof Ec as Ec'. unfold covers_inputs in Ec'. apply negb_true_iff in Ec'. rewrite Ec'.
    rewrite wrap_id by (unfold in_u, len; lia). pose proof (len_compact (len (vin tx))) as Lc.
    assert (holds (put (stream_write_compact_size (len (vin tx))) s) (bs ++ compact_size_enc (len (vin tx)))) as H1.
    { apply put_writes; [done..| |lia]. apply writes_compact_size. unfold in_u, len. lia. }
    replace (Z.to_nat (len (vin tx))) with (length (vin tx)) by (unfold len; lia). change 0 with (Z.of_nat 0).
    destruct (sprout_inputs_spec script_code nIn ht (length (vin tx)) 0 _ _ Ec Hs H1 eq_refl) as (s' & E & H2); [rewrite len_app; lia|].
    exists s'. split; [exact E|]. rewrite drop_0 in H2. rewrite app_assoc. split; [exact H2|]. rewrite len_app.
    pose proof (legacy_inputs_len script_code nIn ht (vin tx) 0 F Hs) as Li. change (fun k => legacy_input script_code nIn ht (0 + k)) with (legacy_input script_code nIn ht) in Li. lia.
  - pose proof Ec as Ec'. unfold covers_inputs in Ec'. apply negb_false_iff in Ec'. rewrite Ec'. destruct Hin as [|Hin]; [done|].
    assert (holds (put (stream_write_compact_size 1) s) (bs ++ compact_size_enc 1)) as H1.
    { apply put_writes; [done..| |change (len (compact_size_enc 1)) with 1; lia]. by apply writes_compact_size. }
    change (Z.to_nat 1) with 1%nat. cbn [sprout_inputs]. rewrite Ec'.
    destruct (lookup_lt_is_Some_2 (vin tx) (Z.to_nat nIn)) as [inp Hi]; [unfold len in Hin; lia|]. rewrite Hi.
    assert (tx_in_wf inp) as Wi by (by eapply Forall_lookup_1).
    destruct (sprout_input_spec script_code nIn ht (Z.to_nat nIn) inp _ _ Wi Hs H1) as [H2 L2]; [rewrite len_app; change (len (compact_size_enc 1)) with 1; lia|].
    rewrite Z2Nat.id in H2 by done. eexists. split; [reflexivity|]. rewrite app_assoc. split; [exact H2|]. rewrite len_app. change (len (compact_size_enc 1)) with 1. lia.
Qed.

Lemma null_output_writes s bs : holds s bs -> len bs < 2 ^ 63 ->
  holds (put (stream_write_compact_size 0) (put (stream_write_i64_le (-1)) s)) (bs ++ tx_out_enc tx_out_set_null).
Proof.
  intros H0 Hl. change (tx_out_enc tx_out_set_null) with (le8s (-1) ++ [0]). rewrite app_assoc.
  apply put_writes; [done| |by apply (writes_compact_size 0)|rewrite len_app, len_le8s; change (len [0]) with 1; lia].
  apply put_writes; [done..|apply writes_i64|rewrite len_le8s; lia].
Qed.

(** The outputs written one by one; those of SINGLE before the input's are null. *)
Definition written_output (nIn ht : Z) (i : nat) (o : tx_out) : tx_out :=
  if base_is ht SIGHASH_SINGLE && negb (Z.of_nat i =? nIn) then tx_out_set_null else o.

Lemma sprout_outputs_spec nIn ht n i s bs :
  holds s bs -> (i + n <= length (vout tx))%nat -> len bs + Z.of_nat n * 10017 < 2 ^ 63 ->
  exists s', sprout_outputs n (Z.of_nat i) tx nIn ht s = Some s' /\
    holds s' (bs ++ concat (map tx_out_enc (imap (fun k => written_output nIn ht (i + k)) (take n (drop i (vout tx)))))) /\
    len (concat (map tx_out_enc (imap (fun k => written_output nIn ht (i + k)) (take n (drop i (vout tx)))))) <= Z.of_nat n * 10017.
Proof.
  revert i s bs. induction n as [|n IH]; intros i s bs H0 Hn Hl.
  { exists s. split; [done|]. rewrite take_0. cbn. by rewrite app_nil_r. }
  cbn [sprout_outputs]. rewrite Nat2Z.id. destruct (lookup_lt_is_Some_2 (vout tx) i) as [o Ho]; [lia|].
  assert (tx_out_wf o) as Wo by (destruct (wf_vout tx W) as [_ F]; by eapply Forall_lookup_1).
  pose proof (tx_out_enc_len_le o Wo) as Lo.
  set (r := if base_is ht SIGHASH_SINGLE && _ then _ else _).
  assert (exists s1, r = Some s1 /\ holds s1 (bs ++ tx_out_enc (written_output nIn ht i o)) /\ len (tx_out_enc (written_output nIn ht i o)) <= 10017)
    as (s1 & -> & H1 & L1).
  { subst r. rewrite Ho. unfold written_output. destruct (base_is ht SIGHASH_SINGLE && negb (Z.of_nat i =? nIn)); eexists.
    - split_and!; [reflexivity|apply null_output_writes; [done|lia]|by vm_compute].
    - split_and!; [reflexivity|apply put_writes; [done..|by apply writes_tx_out|lia]|done]. }
  cbn [from_option id]. replace (Z.of_nat i + 1) with (Z.of_nat (S i)) by lia.
  destruct (IH (S i) s1 _ H1 ltac:(lia)) as (s' & E & H2 & L2); [rewrite len_app; lia|]. exists s'. split; [exact E|].
  rewrite (drop_S _ _ _ Ho). cbn [take]. rewrite imap_cons. cbn [concat map]. rewrite Nat.add_0_r, app_assoc.
  replace (imap _ (take n (drop (S i) (vout tx)))) with (imap (fun k => written_output nIn ht (S i + k)) (take n (drop (S i) (vout tx)))).
  - split; [done|]. rewrite len_app. lia.
  - apply imap_ext. intros k x _. cbn. f_equal. lia.
Qed.

(** They are the outputs of the preimage. *)
Lemma written_outputs nIn ht : 0 <= nIn -> (base_is ht SIGHASH_SINGLE = true -> nIn < len (vout tx)) ->
  let n := Z.to_nat (if base_is ht SIGHASH_NONE then 0 else if base_is ht SIGHASH_SINGLE then nIn + 1 else len (vout tx)) in
  imap (written_output nIn ht) (take n (vout tx)) = legacy_outputs tx nIn ht /\
  length (legacy_outputs tx nIn ht) = n.
Proof.
  intros Hn Hs n. subst n. unfold legacy_outputs, covers_outputs.
  assert (base_is ht SIGHASH_NONE = true -> base_is ht SIGHASH_SINGLE = false) as Hx.
  { unfold base_is, SIGHASH_NONE, SIGHASH_SINGLE. rewrite Z.eqb_eq, Z.eqb_neq. lia. }
  destruct (base_is ht SIGHASH_NONE); [by rewrite Hx|]. destruct (base_is ht SIGHASH_SINGLE) eqn:Es; cbn [negb andb].
  - specialize (Hs eq_refl). destruct (lookup_lt_is_Some_2 (vout tx) (Z.to_nat nIn)) as [o Ho]; [unfold len in Hs; lia|]. rewrite Ho.
    replace (Z.to_nat (nIn + 1)) with (S (Z.to_nat nIn)) by lia. rewrite length_app, length_replicate. cbn [length].
    split; [|lia]. rewrite (take_S_r _ _ _ Ho), imap_app. f_equal.
    + apply list_eq. intros i. rewrite list_lookup_imap. destruct (decide (i < Z.to_nat nIn)%nat) as [Hi|Hi].
      * rewrite lookup_take_lt, lookup_replicate_2 by done. destruct (lookup_lt_is_Some_2 (vout tx) i) as [x ->]; [unfold len in Hs; lia|].
        cbn [fmap option_fmap option_map]. unfold written_output. by rewrite Es, (proj2 (Z.eqb_neq _ _)) by lia.
      * rewrite lookup_take_ge by lia. symmetry. apply lookup_ge_None_2. rewrite length_replicate. lia.
    + cbn. unfold written_output. rewrite length_take, Nat.add_0_r, Es.
      by rewrite (proj2 (Z.eqb_eq _ _)) by (unfold len in Hs; lia).
  - replace (Z.to_nat (len (vout tx))) with (length (vout tx)) by (unfold len; lia). rewrite take_ge by done. split; [|done].
    rewrite <- (imap_ext (fun _ o => o)); [|intros i o _; unfold written_output; by rewrite Es]. clear. induction (vout tx) as [|o l IH]; [done|].
    rewrite imap_cons. f_equal. exact IH.
Qed.

(** The JoinSplit part of the legacy form. *)
Lemma sprout_joinsplits_spec s bs : holds s bs -> len bs < 2 ^ 62 ->
  let enc := if version tx <? 2 then []
             else vec_enc js_enc (v_joinsplit tx) ++
                  (if 0 <? len (v_joinsplit tx) then joinsplit_pubkey tx ++ replicate 64 0 else []) in
  holds (if 2 <=? version tx then
           let s := put (stream_write_compact_size (len (v_joinsplit tx))) s in
           let s := put_each js_description_serialize (v_joinsplit tx) s in
           if 0 <? len (v_joinsplit tx)
           then put (stream_write_bytes (replicate 64 0)) (put (stream_write_bytes (joinsplit_pubkey tx)) s) else s
         else s) (bs ++ enc) /\ len enc < 2 ^ 32.
Proof.
  intros H0 Hl enc. subst enc. pose proof (wf_js tx W) as Wj. pose proof (wf_js_keys tx W) as Wk.
  destruct (Z.ltb_spec (version tx) 2), (Z.leb_spec 2 (version tx)); try lia; [by rewrite app_nil_r|]. cbv zeta.
  destruct Wj as [Hm F]. unfold MAX_JOINSPLITS in Hm. pose proof (len_nonneg (v_joinsplit tx)). pose proof (len_compact (len (v_joinsplit tx))).
  assert (len (concat (map js_enc (v_joinsplit tx))) <= len (v_joinsplit tx) * 1802) as Lj.
  { apply concat_len_le. eapply Forall_impl; [|exact F]. cbv beta. intros x Hx. rewrite (js_enc_len _ x Hx). destruct (js_groth tx); lia. }
  assert (holds (put (stream_write_compact_size (len (v_joinsplit tx))) s) (bs ++ compact_size_enc (len (v_joinsplit tx)))) as Ha.
  { apply put_writes; [done..| |lia]. apply writes_compact_size. unfold in_u. lia. }
  assert (holds (put_each js_description_serialize (v_joinsplit tx) (put (stream_write_compact_size (len (v_joinsplit tx))) s))
            (bs ++ vec_enc js_enc (v_joinsplit tx))) as Hb.
  { unfold vec_enc. rewrite app_assoc. apply put_each_writes; [done..| |rewrite len_app; lia]. eapply Forall_impl; [|exact F].
    intros x Hx. by eapply writes_js. }
  assert (len (vec_enc js_enc (v_joinsplit tx)) < 2 ^ 31) as Lv by (unfold vec_enc; rewrite len_app; lia).
  destruct (0 <? len (v_joinsplit tx)); [|rewrite app_nil_r; split; [done|lia]]. destruct Wk as [[Kb Kl] _].
  split; [|rewrite !len_app; change (len (replicate 64 0)) with 64; lia].
  rewrite !app_assoc. apply put_writes; [done| |apply writes_bytes; by apply bytes_check|rewrite !len_app; change (len (replicate 64 0)) with 64; lia].
  apply put_writes; [done..|by apply writes_bytes|rewrite !len_app; lia].
Qed.

Lemma sprout_spec script_code nIn ht :
  overwintered tx = false -> script_wf script_code -> 0 <= nIn -> (covers_inputs ht = true \/ nIn < len (vin tx)) ->
  (base_is ht SIGHASH_SINGLE = true -> nIn < len (vout tx)) ->
  sighash_sprout script_code tx nIn ht = Some (Reference.sha256 (Reference.sha256 (legacy_preimage script_code tx nIn ht))).
Proof.
  intros Ho Hs Hn Hin Hout. unfold sighash_sprout. pose proof (wf_version tx W). pose proof (wf_vout tx W) as [Hm _]. unfold MAX_TX_OUTPUTS in Hm.
  rewrite (wrap_id 32 (version tx)) by (unfold in_u; lia).
  assert (holds (put (stream_write_u32_le (version tx)) (stream_init 256)) (le4 (version tx))) as H0'.
  { apply (put_writes M _ (le4 (version tx)) _ [] (holds_init M 256 ltac:(lia))); [apply writes_u32|rewrite len_le4; by cbn]. }
  destruct (write_inputs_spec script_code nIn ht _ _ Hs Hn Hin H0' ltac:(rewrite len_le4; lia)) as (s1 & -> & H1 & L1). cbv beta iota.
  destruct (written_outputs nIn ht Hn Hout) as [Ew En]. cbv zeta in Ew, En.
  set (n := if base_is ht SIGHASH_NONE then 0 else if base_is ht SIGHASH_SINGLE then u32 (nIn + 1) else u32 (len (vout tx))).
  assert (n = if base_is ht SIGHASH_NONE then 0 else if base_is ht SIGHASH_SINGLE then nIn + 1 else len (vout tx)) as En'.
  { subst n. destruct (base_is ht SIGHASH_NONE); [done|]. destruct (base_is ht SIGHASH_SINGLE); apply wrap_id; unfold in_u; [|unfold len in *; lia].
    specialize (Hout eq_refl). unfold len in *; lia. }
  rewrite <- En' in Ew, En. clearbody n. assert (0 <= n <= len (vout tx)) as Hn'.
  { rewrite En'. destruct (base_is ht SIGHASH_NONE); [unfold len; lia|]. destruct (base_is ht SIGHASH_SINGLE); [specialize (Hout eq_refl)|unfold len]; lia. }
  pose proof (len_compact n) as Lc.
  assert (holds (put (stream_write_compact_size n) s1) ((le4 (version tx) ++ legacy_inputs script_code tx nIn ht) ++ compact_size_enc n)) as H2.
  { apply put_writes; [done..| |rewrite len_app, len_le4; lia]. apply writes_compact_size. unfold in_u. lia. }
  change (sprout_outputs (Z.to_nat n) 0) with (sprout_outputs (Z.to_nat n) (Z.of_nat 0)).
  destruct (sprout_outputs_spec nIn ht (Z.to_nat n) 0 _ _ H2) as (s2 & -> & H3 & L3); [unfold len in *; lia|rewrite !len_app, len_le4; lia|].
  cbv beta iota zeta. cbn [Nat.add] in H3, L3. rewrite drop_0 in H3, L3. change (fun k => written_output nIn ht k) with (written_output nIn ht) in H3, L3.
  rewrite Ew in H3, L3. rewrite <- app_assoc in H3.
  assert (compact_size_enc n ++ concat (map tx_out_enc (legacy_outputs tx nIn ht)) = vec_enc tx_out_enc (legacy_outputs tx nIn ht)) as Ev.
  { unfold vec_enc, len. rewrite En. f_equal. f_equal. lia. }
  assert (len (vec_enc tx_out_enc (legacy_outputs tx nIn ht)) < 2 ^ 32) as Lv by (rewrite <- Ev, len_app; lia). rewrite Ev in H3.
  assert (holds (put (stream_write_u32_le (lock_time tx)) s2)
            (((le4 (version tx) ++ legacy_inputs script_code tx nIn ht) ++ vec_enc tx_out_enc (legacy_outputs tx nIn ht)) ++ le4 (lock_time tx))) as H4.
  { apply put_writes; [done..|apply writes_u32|rewrite !len_app, !len_le4; lia]. }
  destruct (sprout_joinsplits_spec _ _ H4) as [H5 L5]; [rewrite !len_app, !len_le4; lia|]. cbv zeta in H5, L5. cbv zeta.
  apply (put_writes M (stream_write_u32_le ht) (le4 ht)) in H5; [|apply writes_u32|rewrite !len_app, !len_le4; lia].
  destruct H5 as ((Wb & _) & _ & _ & D). rewrite D in Wb |- *. rewrite hash256_spec; [|done|].
  - unfold legacy_preimage. by rewrite <- !app_assoc.
  - rewrite <- !app_assoc. fold (len (le4 (version tx) ++ legacy_inputs script_code tx nIn ht ++ vec_enc tx_out_enc (legacy_outputs tx nIn ht) ++
      le4 (lock_time tx) ++ (if version tx <? 2 then [] else vec_enc js_enc (v_joinsplit tx) ++
        (if 0 <? len (v_joinsplit tx) then joinsplit_pubkey tx ++ replicate 64 0 else [])) ++ le4 ht)).
    rewrite !len_app, !len_le4. lia.
Qed.
End Tx.
End Code.

(** With the digests of the transaction, or without any. *)
Lemma signature_hash_run `{Allocator} (script_code : script) (tx : transaction) (nIn ht amount branch : Z) (cache : option precomputed_tx_data) :
  let host : HostOrder := little_endian_host in
  memory_ok -> tx_wf tx -> script_wf script_code -> in_u 32 nIn -> (forall c, cache = Some c -> c = precomputed tx) ->
  signature_hash script_code tx nIn ht amount branch cache =
  if (nIn =? NOT_AN_INPUT) && negb (overwintered tx) && negb (covers_inputs ht) && negb (base_is ht SIGHASH_SINGLE) then None
  else Some (sighash script_code tx nIn ht amount branch).
Proof.
  intros host M W Hs [Hn Hn2] Hc. subst host.
  pose proof (wf_vin tx W) as [Hm _]. pose proof (wf_vout tx W) as [Hm' _]. unfold MAX_TX_INPUTS, MAX_TX_OUTPUTS in *.
  unfold signature_hash, domain_consensus_signature_hash, sighash.
  destruct (Z.eqb_spec nIn NOT_AN_INPUT) as [En|En], (Z.leb_spec (len (vin tx)) nIn) as [Hl|Hl]; cbn [andb negb];
    try (unfold NOT_AN_INPUT, UINT32_MAX in *; lia); [|done|].
  - destruct (overwintered tx) eqn:Ho; cbn [andb negb].
    + pose proof (overwinter_sapling_spec M tx W cache Hc script_code nIn ht amount branch Ho Hs Hn (or_intror En)) as E.
      destruct (domain_consensus_signature_hash_version tx) eqn:Ev; [|by rewrite E..].
      unfold domain_consensus_signature_hash_version in Ev. rewrite Ho in Ev. by destruct (_ =? _).
    + unfold domain_consensus_signature_hash_version. rewrite Ho. destruct (base_is ht SIGHASH_SINGLE) eqn:Es; cbn [andb negb].
      { rewrite andb_false_r. rewrite (proj2 (Z.leb_le _ _)) by (unfold NOT_AN_INPUT, UINT32_MAX in *; lia). done. }
      rewrite andb_true_r. destruct (covers_inputs ht) eqn:Ea; cbn [negb].
      * by rewrite (sprout_spec M tx W script_code nIn ht Ho Hs Hn (or_introl Ea)) by (intros; congruence).
      * unfold sighash_sprout, sighash_sprout_write_inputs. unfold covers_inputs in Ea. apply negb_false_iff in Ea. rewrite Ea.
        change (Z.to_nat 1) with 1%nat. cbn [sprout_inputs]. rewrite Ea. by rewrite lookup_ge_None_2 by (unfold len in *; lia).
  - destruct (overwintered tx) eqn:Ho.
    + pose proof (overwinter_sapling_spec M tx W cache Hc script_code nIn ht amount branch Ho Hs Hn (or_introl Hl)) as E.
      destruct (domain_consensus_signature_hash_version tx) eqn:Ev; [|by rewrite E..].
      unfold domain_consensus_signature_hash_version in Ev. rewrite Ho in Ev. by destruct (_ =? _).
    + unfold domain_consensus_signature_hash_version. rewrite Ho.
      destruct (base_is ht SIGHASH_SINGLE) eqn:Es, (Z.leb_spec (len (vout tx)) nIn) as [Hv|Hv]; cbn [andb]; try done.
      all: by rewrite (sprout_spec M tx W script_code nIn ht Ho Hs Hn (or_intror Hl)) by (done || congruence).
Qed.

(** C9: the signature hash is the specified one. On a little-endian host with memory,
    for every well-formed transaction and script code: the cached digests are computed;
    and with or without them, the code refuses an input index out of range and, for
    legacy transactions, SINGLE without a matching output, and otherwise returns
    BLAKE2b-256 of the ZIP 143 / ZIP 243 preimage under the branch's personalisation,
    or double SHA-256 of the legacy preimage. The one call that is undefined, a read
    outside the inputs, is ANYONECANPAY without an input on a legacy transaction. *)
Theorem signature_hash_spec `{Allocator} (script_code : script) (tx : transaction) (nIn ht amount branch : Z) :
  let host : HostOrder := little_endian_host in
  memory_ok -> tx_wf tx -> script_wf script_code -> in_u 32 nIn ->
  exists c, precompute_tx_data tx = Some c /\
  forall cache, cache = None \/ cache = Some c ->
  signature_hash script_code tx nIn ht amount branch cache =
  if (nIn =? NOT_AN_INPUT) && negb (overwintered tx) && negb (covers_inputs ht) && negb (base_is ht SIGHASH_SINGLE) then None
  else Some (sighash script_code tx nIn ht amount branch).
Proof.
  intros host M W Hs Hn. subst host. exists (precomputed tx). split; [exact (precompute_spec M tx W)|].
  intros cache Hcache. apply signature_hash_run; try done. intros c ->. destruct Hcache; congruence.
Qed.

(** ** What the hash determines *)

(** The parts of a spend that a hash type covers. *)
Record signed_data := mk_signed {
  sg_version : Z; sg_group : Z;
  sg_prevouts : option (list outpoint); sg_sequences : option (list Z); sg_outputs : option (list tx_out);
  sg_joinsplits : list js_description; sg_joinsplit_pubkey : uint256;
  sg_spends : list (uint256 * uint256 * uint256 * uint256 * list Z); sg_shielded_outputs : list output_description;
  sg_lock_time : Z; sg_expiry_height : Z; sg_value_balance : Z; sg_hash_type : Z;
  sg_input : option (outpoint * script * Z * Z); sg_branch : Z }.

Definition spend_fields (sd : spend_description) := (sd_cv sd, sd_anchor sd, sd_nullifier sd, sd_rk sd, sd_zkproof sd).

Definition signed (script_code : script) (tx : transaction) (nIn ht amount branch : Z) : signed_data :=
  mk_signed (version tx) (version_group_id tx)
    (keep (covers_inputs ht) (map prevout (vin tx))) (keep (covers_sequences ht) (map sequence (vin tx)))
    (covered_outputs tx nIn ht) (v_joinsplit tx) (joinsplit_pubkey tx)
    (map spend_fields (v_shielded_spend tx)) (v_shielded_output tx)
    (lock_time tx) (expiry_height tx) (value_balance tx) ht
    (if nIn =? NOT_AN_INPUT then None
     else (fun i => (prevout i, script_code, amount, sequence i)) <$> vin tx !! Z.to_nat nIn) branch.

(** Everything that is hashed, each piece with its personalisation. *)
Definition hashed (script_code : script) (tx : transaction) (nIn ht amount branch : Z) : list (list Z * list Z) :=
  omap id [prevouts_part tx ht; sequences_part tx ht; outputs_part tx nIn ht; joinsplits_part tx; spends_part tx; shielded_outputs_part tx] ++
  [(ZcashSigHash ++ le4 branch, zip_preimage script_code tx nIn ht amount)].

Definition zhash2 (x : list Z * list Z) : uint256 := zhash (fst x) (snd x).

(** Two different pieces with the same digest, or one whose digest is null. *)
Definition collision (l1 l2 : list (list Z * list Z)) : Prop :=
  (exists x y, In x l1 /\ In y l2 /\ x <> y /\ zhash2 x = zhash2 y) \/
  (exists x, In x (l1 ++ l2) /\ zhash2 x = uint256_set_null).

Lemma zhash_len personal data : len (zhash personal data) = 32.
Proof.
  unfold zhash, Rfc7693.digest, len. rewrite length_take, finish_length; [done|].
  unfold Rfc7693.initial. rewrite length_zip_with. done.
Qed.

Lemma part_len p : len (part p) = 32.
Proof. destruct p as [[]|]; [apply zhash_len|done]. Qed.

Lemma part_inj l1 l2 p1 p2 : (forall x, p1 = Some x -> In x l1) -> (forall x, p2 = Some x -> In x l2) ->
  part p1 = part p2 -> p1 = p2 \/ collision l1 l2.
Proof.
  intros H1 H2 E. destruct p1 as [x|], p2 as [y|]; cbn in E; [| | |by left].
  - destruct (decide (x = y)) as [->|Hne]; [by left|]. right. left. exists x, y.
    split_and!; [by apply H1|by apply H2|done|]. by destruct x, y.
  - right. right. exists x. split; [apply in_or_app; left; by apply H1|]. by destruct x.
  - right. right. exists y. split; [apply in_or_app; right; by apply H2|]. by destruct y.
Qed.

(** *** Injectivity of the encodings *)

Lemma app_len_inj {A} (a b c d : list A) : len a = len c -> a ++ b = c ++ d -> a = c /\ b = d.
Proof. unfold len. intros Hl E. apply app_inj_1 in E; [done|lia]. Qed.

Lemma le4_inj x y : in_u 32 x -> in_u 32 y -> le4 x = le4 y -> x = y.
Proof. intros Hx Hy E. rewrite <- (digits_of_in_u 8 4 x), <- (digits_of_in_u 8 4 y) by done. by f_equal. Qed.
Lemma le8s_inj x y : in_s 64 x -> in_s 64 y -> le8s x = le8s y -> x = y.
Proof.
  intros Hx Hy E. apply (f_equal (digits_val 8)) in E. unfold le8s in E. rewrite !digits_of_in_u in E by (try done; by apply wrap_range).
  rewrite <- (swrap_id 64 x), <- (swrap_id 64 y) by done. unfold swrap, wrap in *. by rewrite E.
Qed.

Lemma compact_size_split n m r r' : in_u 64 n -> in_u 64 m ->
  compact_size_enc n ++ r = compact_size_enc m ++ r' -> n = m /\ r = r'.
Proof.
  intros Hn Hm. unfold compact_size_enc, in_u in *.
  assert (forall k, in_u (8 * Z.of_nat k) n -> in_u (8 * Z.of_nat k) m ->
    digits_of 8 k n ++ r = digits_of 8 k m ++ r' -> n = m /\ r = r') as Dg.
  { intros k Kn Km E. apply app_inj_1 in E as [E ->]; [|by rewrite !length_digits_of]. split; [|done].
    rewrite <- (digits_of_in_u 8 k n), <- (digits_of_in_u 8 k m) by done. by f_equal. }
  unfold in_u in Dg.
  destruct (Z.ltb_spec n 253), (Z.ltb_spec m 253);
    try (destruct (Z.leb_spec n 0xffff); [|destruct (Z.leb_spec n 0xffffffff)]);
    try (destruct (Z.leb_spec m 0xffff); [|destruct (Z.leb_spec m 0xffffffff)]); cbn [app]; intros E;
    pose proof (f_equal (List.hd 0) E) as E1; pose proof (f_equal (@List.tl Z) E) as E2; cbn [List.hd List.tl] in E1, E2; clear E; try lia; auto.
  all: [> apply (Dg 2%nat) | apply (Dg 4%nat) | apply (Dg 8%nat)]; cbn -[digits_of]; done || lia.
Qed.

Lemma script_enc_split s s' r r' : script_wf s -> script_wf s' -> script_enc s ++ r = script_enc s' ++ r' -> s = s' /\ r = r'.
Proof.
  intros [_ Hs] [_ Hs']. unfold script_enc, script_size, MAX_SCRIPT_SIZE in *. rewrite <- !app_assoc. intros E.
  apply compact_size_split in E as [El E]; [|unfold in_u; lia..]. apply app_inj_1 in E; [done|lia].
Qed.

(** [enc] can be told apart from what follows, and determines [f] of its element. *)
Definition separable {A B} (P : A -> Prop) (enc : A -> list Z) (f : A -> B) : Prop :=
  forall x y r r', P x -> P y -> enc x ++ r = enc y ++ r' -> f x = f y /\ r = r'.

Lemma separable_all {A B} (P : A -> Prop) enc (f : A -> B) l l' :
  separable P enc f -> (forall x, P x -> enc x <> []) -> Forall P l -> Forall P l' ->
  concat (map enc l) = concat (map enc l') -> map f l = map f l'.
Proof.
  intros Hs Hne HP. revert l'. induction HP as [|x l Hx _ IH]; intros [|y l'] HP' E; [done|..].
  - apply Forall_cons_iff in HP' as [Hy _]. cbn in E. symmetry in E. apply app_eq_nil in E as [E _]. by apply Hne in E.
  - cbn in E. apply app_eq_nil in E as [E _]. by apply Hne in E.
  - apply Forall_cons_iff in HP' as [Hy HP']. cbn [map concat] in *. apply Hs in E as [E1 E]; [|done..].
    rewrite E1. f_equal. by apply IH.
Qed.

Lemma records_split n rec l l' r r' : records n rec l -> records n rec l' -> concat l ++ r = concat l' ++ r' -> l = l' /\ r = r'.
Proof.
  intros [Hn Hf] [Hn' Hf'] E. subst n. revert l' Hn' Hf' E. induction Hf as [|x l [_ Hx] _ IH]; intros [|y l'] Hn' Hf' E; try done.
  apply Forall_cons_iff in Hf' as [[_ Hy] Hf']. cbn [concat] in E. rewrite <- !app_assoc in E.
  apply app_len_inj in E as [-> E]; [|congruence]. destruct (IH l') as [-> ->]; [cbn in *; lia|done..|done].
Qed.

Lemma outpoint_separable : separable outpoint_wf outpoint_enc id.
Proof.
  intros [h n] [h' n'] r r' [[_ Hh] Hn] [[_ Hh'] Hn'] E. unfold outpoint_enc in E. cbn [op_hash op_n] in *. rewrite <- !app_assoc in E.
  apply app_len_inj in E as [-> E]; [|congruence]. apply app_len_inj in E as [E ->]; [|by rewrite !len_le4].
  by apply le4_inj in E as ->.
Qed.

Lemma tx_out_separable : separable tx_out_wf tx_out_enc id.
Proof.
  intros [v s] [v' s'] r r' [Hv Hs] [Hv' Hs'] E. unfold tx_out_enc in E. cbn [value script_pub_key] in *. rewrite <- !app_assoc in E.
  apply app_len_inj in E as [Ev E]; [|by rewrite !len_le8s]. apply le8s_inj in Ev as ->; [|done..].
  by apply script_enc_split in E as [-> ->].
Qed.

Lemma sequence_separable : separable (in_u 32) le4 id.
Proof. intros x y r r' Hx Hy E. apply app_len_inj in E as [E ->]; [|by rewrite !len_le4]. by apply le4_inj in E as ->. Qed.

Lemma spend_separable : separable spend_wf spend_core spend_fields.
Proof.
  intros [a1 a2 a3 a4 a5 a6] [b1 b2 b3 b4 b5 b6] r r' Hx Hy E. unfold spend_core, spend_wf, spend_fields in *. cbn [sd_cv sd_anchor sd_nullifier sd_rk sd_zkproof sd_spend_auth_sig] in *. rewrite <- !app_assoc in E.
  destruct Hx as ([_ H1] & [_ H2] & [_ H3] & [_ H4] & [_ H5] & _), Hy as ([_ K1] & [_ K2] & [_ K3] & [_ K4] & [_ K5] & _).
  do 5 (apply app_len_inj in E as [-> E]; [|congruence]). done.
Qed.

Lemma output_separable : separable output_wf output_enc id.
Proof.
  intros [a1 a2 a3 a4 a5 a6] [b1 b2 b3 b4 b5 b6] r r' Hx Hy E. unfold output_enc, output_wf in *. cbn [od_cv od_cm od_ephemeral_key od_enc_ciphertext od_out_ciphertext od_zkproof] in *. rewrite <- !app_assoc in E.
  destruct Hx as ([_ H1] & [_ H2] & [_ H3] & [_ H4] & [_ H5] & [_ H6]), Hy as ([_ K1] & [_ K2] & [_ K3] & [_ K4] & [_ K5] & [_ K6]).
  do 6 (apply app_len_inj in E as [-> E]; [|congruence]). done.
Qed.

Lemma js_separable groth : separable (js_wf groth) js_enc id.
Proof.
  intros [a1 a2 a3 a4 a5 a6 a7 a8 a9 a10 a11] [b1 b2 b3 b4 b5 b6 b7 b8 b9 b10 b11] r r' Hx Hy E. unfold js_enc, js_wf in *. cbn [vpub_old vpub_new js_anchor nullifiers commitments js_ephemeral_key random_seed
    macs use_groth proof ciphertexts] in *. rewrite <- !app_assoc in E.
  destruct Hx as (H1 & H2 & [_ H3] & H4 & H5 & [_ H6] & [_ H7] & H8 & -> & (q & [Bq Lq] & ->) & H10).
  destruct Hy as (K1 & K2 & [_ K3] & K4 & K5 & [_ K6] & [_ K7] & K8 & -> & (q' & [Bq' Lq'] & ->) & K10).
  rewrite !take_app_length' in E by (unfold len in *; lia).
  apply app_len_inj in E as [E1 E]; [|by rewrite !len_le8s]. apply le8s_inj in E1 as ->; [|done..].
  apply app_len_inj in E as [E2 E]; [|by rewrite !len_le8s]. apply le8s_inj in E2 as ->; [|done..].
  apply app_len_inj in E as [-> E]; [|congruence]. apply (records_split _ _ _ _ _ _ H4 K4) in E as [-> E].
  apply (records_split _ _ _ _ _ _ H5 K5) in E as [-> E]. do 2 (apply app_len_inj in E as [-> E]; [|congruence]).
  apply (records_split _ _ _ _ _ _ H8 K8) in E as [-> E]. apply app_len_inj in E as [-> E]; [|congruence].
  by apply (records_split _ _ _ _ _ _ H10 K10) in E as [-> ->].
Qed.

(** *** From equal preimages to equal parts *)

Lemma overwintered_group tx : tx_wf tx -> overwintered tx = true ->
  in_u 32 (version_group_id tx) /\ in_u 32 (expiry_height tx) /\ is_v4 tx = is_sapling tx.
Proof.
  intros W Ho. pose proof (wf_group tx W) as Hg. pose proof (wf_expiry tx W) as He. rewrite Ho in Hg. rewrite Hg in He.
  unfold is_v3, is_v4, is_sapling, tx_class, tx_classify_overwinter in *. cbn [fst snd] in *. rewrite Ho in *. cbn [andb] in *.
  destruct (Z.eqb_spec (version_group_id tx) SAPLING_VERSION_GROUP_ID) as [E|E]; cbn [andb] in *.
  - rewrite E in *. cbn [andb orb] in Hg. split; [done|]. split; [done|]. exact Hg.
  - rewrite orb_false_r in Hg. apply andb_true_iff in Hg as [Hg _]. apply Z.eqb_eq in Hg. rewrite Hg. done.
Qed.

Lemma header_inj tx tx' r r' : tx_wf tx -> tx_wf tx' -> overwintered tx = true -> overwintered tx' = true ->
  header_enc tx ++ r = header_enc tx' ++ r' -> version tx = version tx' /\ version_group_id tx = version_group_id tx' /\ r = r'.
Proof.
  intros W W' Ho Ho' E. unfold header_enc in E. rewrite Ho, Ho' in E. rewrite <- !app_assoc in E.
  pose proof (wf_version tx W). pose proof (wf_version tx' W').
  apply app_len_inj in E as [E1 E]; [|by rewrite !len_le4]. apply app_len_inj in E as [E2 E]; [|by rewrite !len_le4].
  apply le4_inj in E1; [|unfold in_u; lia..]. apply le4_inj in E2; [|by apply overwintered_group..]. split_and!; [lia|done..].
Qed.

Definition input_of (script_code : script) (tx : transaction) (nIn amount : Z) : option (outpoint * script * Z * Z) :=
  if nIn =? NOT_AN_INPUT then None
  else (fun i => (prevout i, script_code, amount, sequence i)) <$> vin tx !! Z.to_nat nIn.

Lemma input_enc_inj s tx nIn amount s' tx' nIn' amount' :
  tx_wf tx -> tx_wf tx' -> script_wf s -> script_wf s' -> in_s 64 amount -> in_s 64 amount' ->
  input_enc s tx nIn amount = input_enc s' tx' nIn' amount' -> input_of s tx nIn amount = input_of s' tx' nIn' amount'.
Proof.
  assert (forall s tx nIn amount, input_enc s tx nIn amount =
    match input_of s tx nIn amount with Some (o, s, a, q) => outpoint_enc o ++ script_enc s ++ le8s a ++ le4 q | None => [] end) as Ei.
  { intros. unfold input_enc, input_of. destruct (_ =? _); [done|]. by destruct (_ !! _). }
  assert (forall s tx nIn amount o s1 a q, tx_wf tx -> script_wf s -> in_s 64 amount -> input_of s tx nIn amount = Some (o, s1, a, q) ->
    outpoint_wf o /\ script_wf s1 /\ in_s 64 a /\ in_u 32 q) as Wi.
  { intros ? tx0 ????? q W0 Hs Ha E. unfold input_of in E. destruct (_ =? _); [done|]. destruct (vin tx0 !! _) as [i|] eqn:Ev; [|done].
    injection E as <- <- <- <-. destruct (wf_vin tx0 W0) as [_ F]. by destruct (Forall_lookup_1 _ _ _ _ F Ev) as (? & ? & ?). }
  intros W W' Hs Hs' Ha Ha'. rewrite !Ei. destruct (input_of s tx nIn amount) as [[[[o s1] a] q]|] eqn:E1;
    destruct (input_of s' tx' nIn' amount') as [[[[o' s1'] a'] q']|] eqn:E2; intros E; [| | |done].
  - destruct (Wi _ _ _ _ _ _ _ _ W Hs Ha E1) as (Wo & Ws & Wa & Wq), (Wi _ _ _ _ _ _ _ _ W' Hs' Ha' E2) as (Wo' & Ws' & Wa' & Wq').
    apply outpoint_separable in E as [Eo E]; [|done..]. apply script_enc_split in E as [-> E]; [|done..].
    apply app_len_inj in E as [Ea E]; [|by rewrite !len_le8s]. apply le8s_inj in Ea as ->; [|done..]. apply le4_inj in E as ->; [|done..].
    by cbn in Eo; subst.
  - destruct (Wi _ _ _ _ _ _ _ _ W Hs Ha E1) as ([_ _] & _). apply (f_equal len) in E. unfold outpoint_enc in E. rewrite !len_app, len_le8s in E.
    pose proof (len_nonneg (op_hash o)). pose proof (len_nonneg (le4 (op_n o))). pose proof (len_nonneg (script_enc s1)). pose proof (len_nonneg (le4 q)).
    change (len (@nil Z)) with 0 in E. lia.
  - apply (f_equal len) in E. unfold outpoint_enc in E. rewrite !len_app, len_le8s in E.
    pose proof (len_nonneg (op_hash o')). pose proof (len_nonneg (le4 (op_n o'))). pose proof (len_nonneg (script_enc s1')). pose proof (len_nonneg (le4 q')).
    change (len (@nil Z)) with 0 in E. lia.
Qed.

Section Two.
Context (s1 s2 : script) (tx1 tx2 : transaction) (n1 n2 ht1 ht2 a1 a2 br1 br2 : Z).
Context (W1 : tx_wf tx1) (W2 : tx_wf tx2) (O1 : overwintered tx1 = true) (O2 : overwintered tx2 = true)
  (S1 : script_wf s1) (S2 : script_wf s2) (T1 : in_u 32 ht1) (T2 : in_u 32 ht2)
  (A1 : in_s 64 a1) (A2 : in_s 64 a2) (B1 : in_u 32 br1) (B2 : in_u 32 br2).

(** The fixed-width fields of equal preimages. *)
Record same_fields : Prop := {
  sf_version : version tx1 = version tx2; sf_group : version_group_id tx1 = version_group_id tx2;
  sf_prevouts : part (prevouts_part tx1 ht1) = part (prevouts_part tx2 ht2);
  sf_sequences : part (sequences_part tx1 ht1) = part (sequences_part tx2 ht2);
  sf_outputs : part (outputs_part tx1 n1 ht1) = part (outputs_part tx2 n2 ht2);
  sf_joinsplits : part (joinsplits_part tx1) = part (joinsplits_part tx2);
  sf_spends : part (spends_part tx1) = part (spends_part tx2);
  sf_shielded : part (shielded_outputs_part tx1) = part (shielded_outputs_part tx2);
  sf_lock : lock_time tx1 = lock_time tx2; sf_expiry : expiry_height tx1 = expiry_height tx2;
  sf_balance : value_balance tx1 = value_balance tx2; sf_type : ht1 = ht2;
  sf_input : input_of s1 tx1 n1 a1 = input_of s2 tx2 n2 a2 }.

Lemma preimage_fields : zip_preimage s1 tx1 n1 ht1 a1 = zip_preimage s2 tx2 n2 ht2 a2 -> same_fields.
Proof.
  intros E. unfold zip_preimage in E. apply header_inj in E as (Ev & Eg & E); [|done..].
  do 4 (apply app_len_inj in E as [?Ep E]; [|by rewrite !part_len]).
  destruct (overwintered_group tx1 W1 O1) as (_ & X1 & V1), (overwintered_group tx2 W2 O2) as (_ & X2 & V2).
  assert (is_sapling tx1 = is_sapling tx2) as Es by (unfold is_sapling; by rewrite Eg). rewrite Es in *.
  pose proof (wf_spends tx1 W1) as P1. pose proof (wf_spends tx2 W2) as P2. pose proof (wf_outputs tx1 W1) as Q1. pose proof (wf_outputs tx2 W2) as Q2.
  pose proof (wf_balance tx1 W1) as L1. pose proof (wf_balance tx2 W2) as L2. rewrite V1 in *. rewrite V2 in *. clear V1 V2.
  assert (part (spends_part tx1) = part (spends_part tx2) /\ part (shielded_outputs_part tx1) = part (shielded_outputs_part tx2) /\
    value_balance tx1 = value_balance tx2 /\
    le4 (lock_time tx1) ++ le4 (expiry_height tx1) ++ le4 ht1 ++ input_enc s1 tx1 n1 a1 =
    le4 (lock_time tx2) ++ le4 (expiry_height tx2) ++ le4 ht2 ++ input_enc s2 tx2 n2 a2) as (Ep4 & Ep5 & Eb & E').
  { destruct (is_sapling tx2).
    - rewrite <- !app_assoc in E. do 2 (apply app_len_inj in E as [?Eq E]; [|by rewrite !part_len]).
      do 2 (apply app_len_inj in E as [?El E]; [|by rewrite !len_le4]). apply app_len_inj in E as [Eb E]; [|by rewrite !len_le8s].
      apply le8s_inj in Eb; [|done..]. split_and!; congruence.
    - unfold spends_part, shielded_outputs_part. rewrite P1, P2, Q1, Q2. split_and!; congruence || done. }
  do 3 (apply app_len_inj in E' as [?El E']; [|by rewrite !len_le4]).
  apply le4_inj in El, El0, El1; [|done || apply W1 || apply W2..]. apply input_enc_inj in E'; [|done..]. by split.
Qed.

(** Equal parts are equal arrays. *)
Lemma keep_inj {A B} (b : bool) (x y : A) (P Q : A -> B) : (P x = Q y -> x = y) -> keep b (P x) = keep b (Q y) -> keep b x = keep b y.
Proof. destruct b; cbn; [|done]. intros H E. injection E as E. by rewrite H. Qed.

Lemma prevouts_inj ht : prevouts_part tx1 ht = prevouts_part tx2 ht ->
  keep (covers_inputs ht) (map prevout (vin tx1)) = keep (covers_inputs ht) (map prevout (vin tx2)).
Proof.
  unfold prevouts_part. destruct (covers_inputs ht); cbn; [|done]. intros E. injection E as E. f_equal.
  rewrite <- (map_id (map prevout (vin tx1))), <- (map_id (map prevout (vin tx2))).
  apply (separable_all outpoint_wf outpoint_enc id); [apply outpoint_separable| | | |by rewrite !map_map].
  - intros x [_ _] E'. apply (f_equal len) in E'. unfold outpoint_enc in E'. rewrite len_app, len_le4 in E'.
    pose proof (len_nonneg (op_hash x)). change (len (@nil Z)) with 0 in E'. lia.
  - apply List.Forall_map. destruct (wf_vin tx1 W1) as [_ F]. eapply Forall_impl; [|exact F]. by intros ? (? & _).
  - apply List.Forall_map. destruct (wf_vin tx2 W2) as [_ F]. eapply Forall_impl; [|exact F]. by intros ? (? & _).
Qed.

Lemma sequences_inj ht : sequences_part tx1 ht = sequences_part tx2 ht ->
  keep (covers_sequences ht) (map sequence (vin tx1)) = keep (covers_sequences ht) (map sequence (vin tx2)).
Proof.
  unfold sequences_part. destruct (covers_sequences ht); cbn; [|done]. intros E. injection E as E. f_equal.
  rewrite <- (map_id (map sequence (vin tx1))), <- (map_id (map sequence (vin tx2))).
  apply (separable_all (in_u 32) le4 id); [apply sequence_separable|done| | |by rewrite !map_map].
  - apply List.Forall_map. destruct (wf_vin tx1 W1) as [_ F]. eapply Forall_impl; [|exact F]. by intros ? (? & ? & ?).
  - apply List.Forall_map. destruct (wf_vin tx2 W2) as [_ F]. eapply Forall_impl; [|exact F]. by intros ? (? & ? & ?).
Qed.

Lemma covered_outputs_wf tx n ht l : tx_wf tx -> covered_outputs tx n ht = Some l -> Forall tx_out_wf l.
Proof.
  intros W. destruct (wf_vout tx W) as [_ F]. unfold covered_outputs. destruct (covers_outputs ht); [by intros [= <-]|].
  destruct (base_is ht SIGHASH_SINGLE); [|done]. destruct (vout tx !! _) as [o|] eqn:E; [|done]. intros [= <-].
  constructor; [by eapply Forall_lookup_1|constructor].
Qed.

Lemma outputs_inj ht : outputs_part tx1 n1 ht = outputs_part tx2 n2 ht -> covered_outputs tx1 n1 ht = covered_outputs tx2 n2 ht.
Proof.
  unfold outputs_part. destruct (covered_outputs tx1 n1 ht) as [l1|] eqn:E1, (covered_outputs tx2 n2 ht) as [l2|] eqn:E2; try done.
  cbn. intros E. injection E as E. f_equal. rewrite <- (map_id l1), <- (map_id l2).
  apply (separable_all tx_out_wf tx_out_enc id); [apply tx_out_separable| |exact (covered_outputs_wf _ _ _ _ W1 E1)|exact (covered_outputs_wf _ _ _ _ W2 E2)|done].
  intros x _ E'. pose proof (tx_out_enc_len x) as L. rewrite E' in L. change (len (@nil Z)) with 0 in L. lia.
Qed.

Lemma keep_len_inj {A} (l l' : list A) (x y : list Z * list Z) :
  keep (0 <? len l) x = keep (0 <? len l') y -> (l = [] /\ l' = []) \/ (x = y /\ 0 < len l /\ 0 < len l').
Proof.
  unfold keep. destruct (Z.ltb_spec 0 (len l)), (Z.ltb_spec 0 (len l')); try done; intros E; [right; by injection E|left].
  destruct l, l'; unfold len in *; cbn in *; done || lia.
Qed.

Lemma joinsplits_inj : version tx1 = version tx2 -> joinsplits_part tx1 = joinsplits_part tx2 ->
  v_joinsplit tx1 = v_joinsplit tx2 /\ joinsplit_pubkey tx1 = joinsplit_pubkey tx2.
Proof.
  intros Ev E. pose proof (wf_js tx1 W1) as J1. pose proof (wf_js tx2 W2) as J2.
  pose proof (wf_js_keys tx1 W1) as K1. pose proof (wf_js_keys tx2 W2) as K2.
  assert (js_groth tx1 = js_groth tx2) as Eg by (unfold js_groth; by rewrite O1, O2, Ev). rewrite Eg, Ev in J1.
  unfold joinsplits_part in E. apply keep_len_inj in E as [[E1 E2]|(E & L1 & L2)].
  - rewrite E1, E2 in *. cbn in K1, K2. destruct K1 as [-> _], K2 as [-> _]. done.
  - rewrite (proj2 (Z.ltb_lt _ _) L1) in K1. rewrite (proj2 (Z.ltb_lt _ _) L2) in K2. destruct K1 as [[_ K1] _], K2 as [[_ K2] _].
    destruct (version tx2 <? 2); [rewrite J1 in L1; done|]. destruct J1 as [_ J1], J2 as [_ J2].
    injection E as E. unfold joinsplits_enc in E. apply app_inj_2 in E as [E Ek]; [|unfold len in *; lia]. split; [|done].
    rewrite <- (map_id (v_joinsplit tx1)), <- (map_id (v_joinsplit tx2)).
    apply (separable_all (js_wf (js_groth tx2)) js_enc id); [apply js_separable| |done..].
    intros x Hx E'. pose proof (js_enc_len _ x Hx) as L. rewrite E' in L. change (len (@nil Z)) with 0 in L. destruct (js_groth tx2); lia.
Qed.

Lemma spends_inj : spends_part tx1 = spends_part tx2 ->
  map spend_fields (v_shielded_spend tx1) = map spend_fields (v_shielded_spend tx2).
Proof.
  unfold spends_part. intros E. apply keep_len_inj in E as [[-> ->]|(E & L1 & L2)]; [done|]. injection E as E.
  assert (forall tx, tx_wf tx -> Forall spend_wf (v_shielded_spend tx)) as Hw.
  { intros tx W. pose proof (wf_spends tx W) as P. destruct (is_v4 tx); [apply P|]. rewrite P. constructor. }
  apply (separable_all spend_wf spend_core spend_fields); [apply spend_separable| |by apply Hw..|done].
  intros x ([_ Hx] & _) E'. apply (f_equal len) in E'. unfold spend_core in E'. rewrite len_app, Hx in E'.
  change (len (@nil Z)) with 0 in E'. pose proof (len_nonneg (sd_anchor x ++ sd_nullifier x ++ sd_rk x ++ sd_zkproof x)). lia.
Qed.

Lemma shielded_outputs_inj : shielded_outputs_part tx1 = shielded_outputs_part tx2 -> v_shielded_output tx1 = v_shielded_output tx2.
Proof.
  unfold shielded_outputs_part. intros E. apply keep_len_inj in E as [[-> ->]|(E & L1 & L2)]; [done|]. injection E as E.
  assert (forall tx, tx_wf tx -> Forall output_wf (v_shielded_output tx)) as Hw.
  { intros tx W. pose proof (wf_outputs tx W) as P. destruct (is_v4 tx); [apply P|]. rewrite P. constructor. }
  rewrite <- (map_id (v_shielded_output tx1)), <- (map_id (v_shielded_output tx2)).
  apply (separable_all output_wf output_enc id); [apply output_separable| |by apply Hw..|done].
  intros x Hx E'. pose proof (output_enc_len x Hx) as L. rewrite E' in L. done.
Qed.

Lemma digests_determine :
  zhash (ZcashSigHash ++ le4 br1) (zip_preimage s1 tx1 n1 ht1 a1) = zhash (ZcashSigHash ++ le4 br2) (zip_preimage s2 tx2 n2 ht2 a2) ->
  signed s1 tx1 n1 ht1 a1 br1 = signed s2 tx2 n2 ht2 a2 br2 \/ collision (hashed s1 tx1 n1 ht1 a1 br1) (hashed s2 tx2 n2 ht2 a2 br2).
Proof.
  set (H1 := hashed _ _ _ _ _ _). set (H2 := hashed s2 _ _ _ _ _). intros E.
  assert (forall s tx n ht a br p x, In p [prevouts_part tx ht; sequences_part tx ht; outputs_part tx n ht; joinsplits_part tx; spends_part tx;
    shielded_outputs_part tx] -> p = Some x -> In x (hashed s tx n ht a br)) as Hin.
  { intros s tx n ht a br p x Hp ->. apply in_or_app. left. apply list_elem_of_In, list_elem_of_omap. exists (Some x). split; [|done].
    by apply list_elem_of_In. }
  pose proof (part_inj H1 H2 (Some (ZcashSigHash ++ le4 br1, zip_preimage s1 tx1 n1 ht1 a1)) (Some (ZcashSigHash ++ le4 br2, zip_preimage s2 tx2 n2 ht2 a2))) as Pf.
  destruct Pf as [Ef|]; [intros x [= <-]; apply in_or_app; right; by left|intros x [= <-]; apply in_or_app; right; by left|exact E| |by right].
  assert (ZcashSigHash ++ le4 br1 = ZcashSigHash ++ le4 br2 /\ zip_preimage s1 tx1 n1 ht1 a1 = zip_preimage s2 tx2 n2 ht2 a2) as [Eb Ep] by (split; congruence).
  apply app_inv_head in Eb. apply le4_inj in Eb; [|done..]. destruct (preimage_fields Ep).
  assert (forall p q, In p [prevouts_part tx1 ht1; sequences_part tx1 ht1; outputs_part tx1 n1 ht1; joinsplits_part tx1; spends_part tx1; shielded_outputs_part tx1] ->
    In q [prevouts_part tx2 ht2; sequences_part tx2 ht2; outputs_part tx2 n2 ht2; joinsplits_part tx2; spends_part tx2; shielded_outputs_part tx2] ->
    part p = part q -> p = q \/ collision H1 H2) as Pi.
  { intros p q Hp Hq. apply part_inj; intros x Hx; [by eapply Hin|by eapply Hin]. }
  destruct (Pi _ _ ltac:(now left) ltac:(now left) sf_prevouts0) as [P1|]; [|by right].
  destruct (Pi _ _ ltac:(now right; left) ltac:(now right; left) sf_sequences0) as [P2|]; [|by right].
  destruct (Pi _ _ ltac:(now do 2 right; left) ltac:(now do 2 right; left) sf_outputs0) as [P3|]; [|by right].
  destruct (Pi _ _ ltac:(now do 3 right; left) ltac:(now do 3 right; left) sf_joinsplits0) as [P4|]; [|by right].
  destruct (Pi _ _ ltac:(now do 4 right; left) ltac:(now do 4 right; left) sf_spends0) as [P5|]; [|by right].
  destruct (Pi _ _ ltac:(now do 5 right; left) ltac:(now do 5 right; left) sf_shielded0) as [P6|]; [|by right].
  left. rewrite <- sf_type0 in *. destruct (joinsplits_inj sf_version0 P4) as [J1 J2]. unfold signed. fold (input_of s1 tx1 n1 a1) (input_of s2 tx2 n2 a2).
  by rewrite sf_version0, sf_group0, (prevouts_inj _ P1), (sequences_inj _ P2), (outputs_inj _ P3), J1, J2, (spends_inj P5),
    (shielded_outputs_inj P6), sf_lock0, sf_expiry0, sf_balance0, sf_input0, Eb.
Qed.
End Two.

(** Equal signed data give equal preimages. *)
Lemma signed_preimage s1 tx1 n1 ht1 a1 br1 s2 tx2 n2 ht2 a2 br2 :
  overwintered tx1 = true -> overwintered tx2 = true ->
  signed s1 tx1 n1 ht1 a1 br1 = signed s2 tx2 n2 ht2 a2 br2 ->
  br1 = br2 /\ zip_preimage s1 tx1 n1 ht1 a1 = zip_preimage s2 tx2 n2 ht2 a2.
Proof.
  intros O1 O2 E.
  assert (forall s tx n ht a br, zip_preimage s tx n ht a =
    let d := signed s tx n ht a br in
    (if overwintered tx then le4 (sg_version d + 2 ^ 31) ++ le4 (sg_group d) else le4 (sg_version d)) ++
    part ((fun l => (PREVOUTS_PERSONAL, concat (map outpoint_enc l))) <$> sg_prevouts d) ++
    part ((fun l => (SEQUENCE_PERSONAL, concat (map le4 l))) <$> sg_sequences d) ++
    part ((fun l => (OUTPUTS_PERSONAL, concat (map tx_out_enc l))) <$> sg_outputs d) ++
    part (keep (0 <? len (sg_joinsplits d)) (JOINSPLITS_PERSONAL, concat (map js_enc (sg_joinsplits d)) ++ sg_joinsplit_pubkey d)) ++
    (if sg_group d =? SAPLING_VERSION_GROUP_ID then
       part (keep (0 <? len (sg_spends d)) (SHIELDED_SPENDS_PERSONAL,
         concat (map (fun '(cv, an, nf, rk, pf) => cv ++ an ++ nf ++ rk ++ pf) (sg_spends d)))) ++
       part (keep (0 <? len (sg_shielded_outputs d)) (SHIELDED_OUTPUTS_PERSONAL, concat (map output_enc (sg_shielded_outputs d))))
     else []) ++
    le4 (sg_lock_time d) ++ le4 (sg_expiry_height d) ++
    (if sg_group d =? SAPLING_VERSION_GROUP_ID then le8s (sg_value_balance d) else []) ++
    le4 (sg_hash_type d) ++
    match sg_input d with Some (o, s, a, q) => outpoint_enc o ++ script_enc s ++ le8s a ++ le4 q | None => [] end) as Ez.
  { intros s tx n ht a br. cbv zeta. unfold signed, zip_preimage. cbn [sg_version sg_group sg_prevouts sg_sequences sg_outputs sg_joinsplits
      sg_joinsplit_pubkey sg_spends sg_shielded_outputs sg_lock_time sg_expiry_height sg_value_balance sg_hash_type sg_input].
    unfold header_enc, prevouts_part, prevouts_enc, sequences_part, sequences_enc, outputs_part, joinsplits_part, joinsplits_enc, is_sapling,
      spends_part, spends_enc, shielded_outputs_part, shielded_outputs_enc, input_enc, keep, len. rewrite length_map, !map_map.
    repeat f_equal; try (by destruct (covers_inputs ht)); try (by destruct (covers_sequences ht)).
    - destruct (covers_inputs ht); cbn; [|done]. by rewrite map_map.
    - destruct (covers_sequences ht); cbn; [|done]. by rewrite map_map.
    - destruct (n =? NOT_AN_INPUT); [done|]. by destruct (vin tx !! Z.to_nat n). }
  rewrite (Ez s1 tx1 n1 ht1 a1 br1), (Ez s2 tx2 n2 ht2 a2 br2), E, O1, O2. split; [|done]. by apply (f_equal sg_branch) in E.
Qed.

Lemma overwinter_signature_hash `{Allocator} s tx n ht a br :
  let host : HostOrder := little_endian_host in
  memory_ok -> tx_wf tx -> overwintered tx = true -> script_wf s -> 0 <= n ->
  signature_hash s tx n ht a br None =
  Some (if (len (vin tx) <=? n) && negb (n =? NOT_AN_INPUT) then None
        else Some (zhash (ZcashSigHash ++ le4 br) (zip_preimage s tx n ht a))).
Proof.
  intros host M W O Hs Hn. subst host. unfold signature_hash, domain_consensus_signature_hash.
  destruct ((len (vin tx) <=? n) && negb (n =? NOT_AN_INPUT)) eqn:Er; [done|]. apply andb_false_iff in Er.
  rewrite Z.leb_gt, negb_false_iff, Z.eqb_eq in Er.
  pose proof (overwinter_sapling_spec M tx W None ltac:(done) s n ht a br O Hs Hn Er) as Eo.
  destruct (domain_consensus_signature_hash_version tx) eqn:Ev; [|by rewrite Eo..].
  unfold domain_consensus_signature_hash_version in Ev. rewrite O in Ev. by destruct (_ =? _).
Qed.

(** C10: what an Overwinter or Sapling signature commits to, when the allocator does not
    fail. For any two calls of [signature_hash] on well-formed transactions that return a hash: if the parts of the
    two transactions that the hash types cover agree (version, group, branch, hash type,
    JoinSplits with their key, shielded spends without their signatures, shielded outputs,
    lock time, expiry, value balance; the outpoints, sequence numbers and outputs that the
    hash type includes; and for an input its outpoint, script code, amount and sequence),
    the hashes are equal, so input scripts and signatures are outside; and if the hashes are
    equal, those parts agree, or among the data hashed by the two calls there are two
    different pieces with the same digest or a piece with the null digest. *)
Theorem signature_commits `{Allocator} (s1 s2 : script) (tx1 tx2 : transaction) (n1 n2 ht1 ht2 a1 a2 br1 br2 : Z) (h1 h2 : uint256) :
  let host : HostOrder := little_endian_host in
  memory_ok -> tx_wf tx1 -> tx_wf tx2 -> overwintered tx1 = true -> overwintered tx2 = true ->
  script_wf s1 -> script_wf s2 -> in_u 32 n1 -> in_u 32 n2 -> in_u 32 ht1 -> in_u 32 ht2 ->
  in_s 64 a1 -> in_s 64 a2 -> in_u 32 br1 -> in_u 32 br2 ->
  signature_hash s1 tx1 n1 ht1 a1 br1 None = Some (Some h1) ->
  signature_hash s2 tx2 n2 ht2 a2 br2 None = Some (Some h2) ->
  (signed s1 tx1 n1 ht1 a1 br1 = signed s2 tx2 n2 ht2 a2 br2 -> h1 = h2) /\
  (h1 = h2 -> signed s1 tx1 n1 ht1 a1 br1 = signed s2 tx2 n2 ht2 a2 br2 \/
              collision (hashed s1 tx1 n1 ht1 a1 br1) (hashed s2 tx2 n2 ht2 a2 br2)).
Proof.
  intros host M W1 W2 O1 O2 Hs1 Hs2 N1 N2 T1 T2 A1 A2 B1 B2 E1 E2. subst host.
  rewrite overwinter_signature_hash in E1 by (done || apply N1). rewrite overwinter_signature_hash in E2 by (done || apply N2).
  destruct ((len (vin tx1) <=? n1) && _); [done|]. destruct ((len (vin tx2) <=? n2) && _); [done|].
  injection E1 as <-. injection E2 as <-. split.
  - intros E. by destruct (signed_preimage _ _ _ _ _ _ _ _ _ _ _ _ O1 O2 E) as [-> ->].
  - by apply digests_determine.
Qed.

Section Witness.
#[local] Instance roomy : Allocator := fun _ => true.
#[local] Existing Instance little_endian_host.

(** A Sapling transaction with one input and one output; [sig] is its input script. *)
Definition sapling_sample (sig : script) : transaction :=
  mk_tx true 4 SAPLING_VERSION_GROUP_ID [mk_tx_in (mk_outpoint (replicate 32 17) 3) sig UINT32_MAX]
    [mk_tx_out 7 [0x51]] 9 100 0 [] [] []
    uint256_set_null (replicate 64 0) (replicate 64 0) uint256_set_null.

Lemma sapling_sample_wf sig : script_wf sig -> tx_wf (sapling_sample sig).
Proof.
  intros Hs. split; try done; split; try done; (constructor; [|constructor]).
  - split; [|done]. split; [|done]. split; [by apply bytes_check|done].
  - split; [done|]. split; [by apply bytes_check|by vm_compute].
Qed.

Lemma small_script (l : list Z) : bytes_b l = true -> (length l <=? 100)%nat = true -> script_wf l.
Proof.
  intros Hb Hl. apply Nat.leb_le in Hl. split; [by apply bytes_check|]. unfold script_size, MAX_SCRIPT_SIZE. lia.
Qed.

Lemma signature_hash_spec_witness :
  signature_hash [0x51] (sapling_sample [1; 2]) 0 SIGHASH_ALL 5 0x76b809bb None =
  Some (sighash [0x51] (sapling_sample [1; 2]) 0 SIGHASH_ALL 5 0x76b809bb).
Proof.
  destruct (signature_hash_spec [0x51] (sapling_sample [1; 2]) 0 SIGHASH_ALL 5 0x76b809bb) as (c & _ & E).
  - done.
  - by apply sapling_sample_wf, small_script.
  - by apply small_script.
  - done.
  - by apply (E None), or_introl.
Defined.

(** Different input scripts, the same hash. *)
Lemma signature_commits_witness :
  exists h, signature_hash [0x51] (sapling_sample [1; 2]) 0 SIGHASH_ALL 5 0x76b809bb None = Some (Some h) /\
            signature_hash [0x51] (sapling_sample [3]) 0 SIGHASH_ALL 5 0x76b809bb None = Some (Some h).
Proof.
  assert (in_u 32 0 /\ in_u 32 SIGHASH_ALL /\ in_s 64 5 /\ in_u 32 0x76b809bb /\ memory_ok) as (R0 & R1 & R2 & R3 & M) by done.
  assert (forall sig, script_wf sig -> exists h, signature_hash [0x51] (sapling_sample sig) 0 SIGHASH_ALL 5 0x76b809bb None = Some (Some h)) as Hh.
  { intros sig Hs. eexists. rewrite overwinter_signature_hash; [reflexivity|done|by apply sapling_sample_wf|done|by apply small_script|done]. }
  destruct (Hh [1; 2]) as [h1 E1]; [by apply small_script|]. destruct (Hh [3]) as [h2 E2]; [by apply small_script|].
  pose proof (signature_commits [0x51] [0x51] (sapling_sample [1; 2]) (sapling_sample [3]) 0 0 SIGHASH_ALL SIGHASH_ALL 5 5 0x76b809bb 0x76b809bb h1 h2
    M (sapling_sample_wf _ (small_script [1; 2] eq_refl eq_refl)) (sapling_sample_wf _ (small_script [3] eq_refl eq_refl)) eq_refl eq_refl
    (small_script [0x51] eq_refl eq_refl) (small_script [0x51] eq_refl eq_refl) R0 R0 R1 R1 R2 R2 R3 R3 E1 E2) as [E _].
  exists h1. split; [exact E1|]. assert (h1 = h2) as -> by (apply E; reflexivity). exact E2.
Defined.
End Witness.

(** ** Without memory *)

Section Truncated.
Context `{Allocator} (limit : Z) (Hlim : 0 <= limit < 2 ^ 63) (Hall : forall m, limit < m -> alloc_ok m = false).
#[local] Existing Instance little_endian_host.

(** No buffer grows past the limit. *)
Definition capped (w : writer) : Prop := forall s, capacity s <= limit -> capacity (fst (w s)) <= limit.

Lemma capped_write b : capped (stream_write b).
Proof.
  intros s Hs. unfold stream_write. destruct (error s); [done|]. cbv zeta. destruct (capacity s <? _); [|done].
  unfold stream_grow. destruct (negb (owns_data s)); [done|]. destruct (_ <? _); [done|]. cbv zeta.
  match goal with |- context [alloc_ok ?c] => destruct (alloc_ok c) eqn:E; [|done]; cbn;
    destruct (Z.le_gt_cases c limit) as [?|G]; [done|rewrite Hall in E by lia; discriminate] end.
Qed.

Lemma capped_seq w1 w2 : capped w1 -> capped w2 -> capped (w1 &&w w2).
Proof.
  intros H1 H2 s Hs. unfold wseq. specialize (H1 s Hs). destruct (w1 s) as [s1 [|]]; [by apply H2|done].
Qed.

Lemma capped_tx_out o : capped (tx_out_serialize o).
Proof.
  unfold tx_out_serialize. apply capped_seq; [apply capped_write|]. apply capped_seq.
  - unfold stream_write_compact_size. repeat case_match; try apply capped_seq; apply capped_write.
  - case_match; [apply capped_write|by intros s Hs].
Qed.

(** The error of a stream sticks: nothing more is written. *)
Lemma tx_out_sticky o s : error s = true -> put (tx_out_serialize o) s = s.
Proof. intros E. unfold put, tx_out_serialize, wseq, stream_write_i64_le, stream_write_u64_le, stream_write. by rewrite E. Qed.

Lemma put_each_sticky l s : error s = true -> put_each tx_out_serialize l s = s.
Proof. intros E. unfold put_each. induction l as [|o l IH]; [done|]. cbn [foldl]. by rewrite tx_out_sticky. Qed.

(** [bs] was to be written: it is there, or the stream has failed after a prefix of it. *)
Definition wrote (s : byte_stream) (bs : list Z) : Prop :=
  stream_wf s /\ capacity s <= limit /\ if error s then data s `prefix_of` bs else data s = bs.

Lemma wrote_init : wrote (stream_init 256) [].
Proof.
  unfold wrote, stream_init. cbn [Z.ltb Z.compare]. destruct (alloc_ok 256) eqn:E; cbn.
  - destruct (Z.le_gt_cases 256 limit); [|rewrite Hall in E by lia; done]. split; [|done]. split; [constructor|]. unfold size; cbn. lia.
  - split; [|split; [lia|done]]. split; [constructor|]. unfold size; cbn. lia.
Qed.

Lemma wrote_each l s bs : Forall tx_out_wf l -> wrote s bs -> wrote (put_each tx_out_serialize l s) (bs ++ concat (map tx_out_enc l)).
Proof.
  unfold put_each. revert s bs. induction l as [|o l IH]; intros s bs F Hs; cbn [foldl map concat]; [by rewrite app_nil_r|].
  apply Forall_cons_1 in F as [Ho F]. rewrite app_assoc. apply IH; [done|]. destruct Hs as (Ws & Hc & Hd).
  pose proof (capped_tx_out o s Hc) as Hc'. destruct (error s) eqn:Ee.
  { rewrite tx_out_sticky by done. split; [done|]. split; [done|]. rewrite Ee. by apply prefix_app_r. }
  pose proof (tx_out_enc_len_le o Ho) as Hl. pose proof Ws as (_ & _ & Hsz & _).
  destruct (writes_tx_out o Ho s Ws) as [Hw _]; [unfold len in Hl; lia|]. unfold put.
  destruct (tx_out_serialize o s) as [s1 [|]]; cbn [fst] in *.
  - destruct Hw as (W1 & D1 & _ & E1 & _). split; [done|]. split; [done|]. rewrite E1, Ee, D1. by rewrite Hd.
  - destruct Hw as (E1 & k & W1 & D1 & _). split; [done|]. split; [done|]. rewrite E1, D1. cbn [data set_error]. rewrite Hd.
    apply prefix_app, prefix_take.
Qed.

(** The outputs of a transaction replaced. *)
Definition with_vout (tx : transaction) (outs : list tx_out) : transaction :=
  mk_tx (overwintered tx) (version tx) (version_group_id tx) (vin tx) outs (lock_time tx) (expiry_height tx) (value_balance tx)
    (v_shielded_spend tx) (v_shielded_output tx) (v_joinsplit tx) (joinsplit_pubkey tx) (joinsplit_sig tx) (binding_sig tx) (tx_hash tx).

Lemma outputs_hash_truncated outs rest tx : Forall tx_out_wf outs -> limit < len (concat (map tx_out_enc outs)) ->
  let b := data (put_each tx_out_serialize outs (stream_init 256)) in
  b `prefix_of` concat (map tx_out_enc outs) /\ len b <= limit /\
  get_outputs_hash (with_vout tx (outs ++ rest)) = Some (zhash OUTPUTS_PERSONAL b).
Proof.
  intros F Hl. cbv zeta. destruct (wrote_each outs _ [] F wrote_init) as ((_ & _ & Hsz & _) & Hc & Hd). cbn [app] in Hd.
  set (s := put_each tx_out_serialize outs (stream_init 256)) in *. unfold size in Hsz. destruct (error s) eqn:E.
  - split; [done|]. split; [unfold len; lia|]. unfold get_outputs_hash. cbn [vout with_vout].
    assert (put_each tx_out_serialize (outs ++ rest) (stream_init 256) = s) as ->.
    { unfold put_each. rewrite foldl_app. fold (put_each tx_out_serialize outs (stream_init 256)). fold s. by apply put_each_sticky. }
    apply hash_personal_spec.
  - rewrite Hd in Hsz. unfold len in Hl. lia.
Qed.

(** With the outputs digest given, the hash does not look at the outputs, and exists. *)
Lemma sighash_by_outputs s tx o o' n ht a br d :
  overwintered tx = true -> covers_outputs ht = true ->
  get_outputs_hash (with_vout tx o) = Some d -> get_outputs_hash (with_vout tx o') = Some d ->
  signature_hash s (with_vout tx o) n ht a br None = signature_hash s (with_vout tx o') n ht a br None /\
  (n = NOT_AN_INPUT \/ 0 <= n < len (vin tx) -> exists h, signature_hash s (with_vout tx o) n ht a br None = Some (Some h)).
Proof.
  intros Ow C Eo Eo'. unfold covers_outputs in C.
  unfold signature_hash, domain_consensus_signature_hash, sighash_overwinter_sapling, sighash_overwinter_outputs, cached,
    domain_consensus_signature_hash_version, sighash_overwinter_prevout_sequence.
  rewrite C, Eo, Eo'. change (overwintered (with_vout tx o)) with (overwintered tx).
  change (overwintered (with_vout tx o')) with (overwintered tx). rewrite Ow.
  change (version_group_id (with_vout tx o)) with (version_group_id tx). change (version_group_id (with_vout tx o')) with (version_group_id tx).
  split; [by destruct (version_group_id tx =? SAPLING_VERSION_GROUP_ID)|]. intros Hn.
  change (vin (with_vout tx o)) with (vin tx).
  assert ((len (vin tx) <=? n) && negb (n =? NOT_AN_INPUT) = false) as ->.
  { destruct Hn as [-> |Hn]; [by rewrite Z.eqb_refl, andb_false_r|]. by rewrite (proj2 (Z.leb_gt _ _)) by lia. }
  assert (exists l, (if negb (n =? NOT_AN_INPUT) then
      let? i := vin tx !! Z.to_nat n in
      Some [op_hash (prevout i); store_object 4 (op_n (prevout i)); sighash_script_compact_size s; s; store_object 8 (u64 a); store_object 4 (sequence i)]
    else Some []) = Some l) as [l El].
  { destruct (Z.eqb_spec n NOT_AN_INPUT) as [|Hne]; [by eexists|]. destruct Hn as [?|Hn]; [done|].
    destruct (lookup_lt_is_Some_2 (vin tx) (Z.to_nat n)) as [i ->]; [unfold len in Hn; lia|]. by eexists. }
  unfold get_prevout_hash, get_sequence_hash, get_joinsplits_hash, get_shielded_spends_hash, get_shielded_outputs_hash, unless_empty.
  rewrite !hash_personal_spec, !personal_chunks_spec.
  change (vin (with_vout tx o)) with (vin tx) in *. rewrite El.
  unfold cached. destruct (version_group_id tx =? SAPLING_VERSION_GROUP_ID);
    repeat match goal with |- context [if ?b then Some _ else Some _] => destruct b end;
    cbn beta iota; rewrite personal_chunks_spec; by eexists.
Qed.

(** C39: the results of the stream writes are ignored. Suppose no allocation of more than
    [limit] bytes succeeds. Whenever the first outputs of a transaction alone are longer
    than that, whatever follows them is not signed: the outputs digest of an Overwinter or
    Sapling signature that covers all outputs is that of at most [limit] bytes of the first
    ones, [signature_hash] reports success for every input, and two transactions that differ
    only in the outputs after the first ones have the same signature hash, although the data
    to be signed differ. *)
Theorem sighash_truncates (s : script) (tx : transaction) (outs rest rest' : list tx_out) (n ht a br : Z) :
  overwintered tx = true -> covers_outputs ht = true ->
  Forall tx_out_wf outs -> limit < len (concat (map tx_out_enc outs)) ->
  (exists b, b `prefix_of` concat (map tx_out_enc outs) /\ len b <= limit /\
     get_outputs_hash (with_vout tx (outs ++ rest)) = Some (zhash OUTPUTS_PERSONAL b)) /\
  (n = NOT_AN_INPUT \/ 0 <= n < len (vin tx) -> exists h, signature_hash s (with_vout tx (outs ++ rest)) n ht a br None = Some (Some h)) /\
  signature_hash s (with_vout tx (outs ++ rest)) n ht a br None = signature_hash s (with_vout tx (outs ++ rest')) n ht a br None /\
  (rest <> rest' -> signed s (with_vout tx (outs ++ rest)) n ht a br <> signed s (with_vout tx (outs ++ rest')) n ht a br).
Proof.
  intros Ow C F Hl. pose proof (outputs_hash_truncated outs rest tx F Hl) as (Hp & Hb & E).
  pose proof (outputs_hash_truncated outs rest' tx F Hl) as (_ & _ & E').
  destruct (sighash_by_outputs s tx _ _ n ht a br _ Ow C E E') as [Es Eh].
  split; [eexists; split; [exact Hp|split; [exact Hb|exact E]]|]. split; [exact Eh|]. split; [exact Es|]. clear Es Eh E E'.
  intros Hne Ed. apply (f_equal sg_outputs) in Ed. unfold signed, covered_outputs in Ed. cbn [sg_outputs vout with_vout] in Ed.
  rewrite C in Ed. injection Ed as Ed. by apply app_inv_head in Ed.
Qed.
End Truncated.

Section TruncatedWitness.
#[local] Existing Instance little_endian_host.
(** An allocator that has 256 bytes at a time and no more. *)
#[local] Instance tight : Allocator := fun n => n <=? 256.

(** Eight outputs fill the buffer; the ninth pays 1 or 2. *)
Lemma sighash_truncates_witness :
  let tx v := with_vout (sapling_sample []) (replicate 8 (mk_tx_out 7 (replicate 25 0x51)) ++ [mk_tx_out v (replicate 25 0x51)]) in
  signature_hash [0x51] (tx 1) 0 SIGHASH_ALL 5 0x76b809bb None = signature_hash [0x51] (tx 2) 0 SIGHASH_ALL 5 0x76b809bb None /\
  exists h, signature_hash [0x51] (tx 1) 0 SIGHASH_ALL 5 0x76b809bb None = Some (Some h).
Proof.
  destruct (sighash_truncates 256 ltac:(lia) (fun m Hm => proj2 (Z.leb_gt m 256) Hm) [0x51] (sapling_sample [])
    (replicate 8 (mk_tx_out 7 (replicate 25 0x51))) [mk_tx_out 1 (replicate 25 0x51)] [mk_tx_out 2 (replicate 25 0x51)] 0 SIGHASH_ALL 5 0x76b809bb)
    as (_ & Hs & E & _).
  - reflexivity.
  - reflexivity.
  - apply Forall_replicate. split; [by vm_compute|]. apply small_script; reflexivity.
  - by vm_compute.
  - split; [exact E|]. apply Hs. right. split; reflexivity || lia.
Defined.
End TruncatedWitness.
