(* ===== verification/ContextualTx.v ===== *)
(** * Contextual transaction checks

    Model of [core/modules/validation/src/contextual_check_tx.c]: the rules a
    transaction must satisfy at a height, down to its shielded signatures and
    proofs, and the verdict that separates a bad transaction from a node that
    cannot check it. The signature and proof verifiers themselves (curve and
    pairing arithmetic) are the class [ShieldedVerifiers]; [sprout_h_sig], the
    hash that binds a JoinSplit to its key, is [core/modules/sapling/src/sprout.c]. *)

From Stdlib Require Import String.
From stdpp Require Import base tactics list numbers option.
From Stdlib Require Import ZArith Lia.
From S2P Require Import Prelude Serialize ByteOrder Params Script Hash Blake2b Transaction.
From S2P Require Import TxCheck TxContext Block CheckBlock SigEncoding Sighash SighashSpec.
#[local] Open Scope Z_scope.
#[local] Open Scope list_scope.

(** What the check reads of the process: the deferral height, and the two latches
    that say which verifying keys are installed. *)
Record verify_env := mk_env {
  g_deferred_proof_validation_below_height : Z; sapling_params_loaded : bool; sprout_phgr_vk_loaded : bool }.

(** The verifiers. A Sapling context is mutated by each description it checks;
    [None] from its constructor is a failed allocation. *)
Class ShieldedVerifiers := {
  sapling_ctx : Type;
  sapling_verification_ctx_init : option sapling_ctx;
  (** cv, anchor, nullifier, rk, proof, signature, signature hash *)
  sapling_check_spend : sapling_ctx -> uint256 -> uint256 -> uint256 -> uint256 -> list Z -> list Z -> uint256 -> sapling_ctx * bool;
  (** cv, cm, ephemeral key, proof *)
  sapling_check_output : sapling_ctx -> uint256 -> uint256 -> uint256 -> list Z -> sapling_ctx * bool;
  (** value balance, binding signature, signature hash *)
  sapling_final_check : sapling_ctx -> Z -> list Z -> uint256 -> bool;
  (** signature, message, public key *)
  ed25519_verify : list Z -> list Z -> uint256 -> bool;
  (** proof, anchor, h_sig, macs, nullifiers, commitments, vpub_old, vpub_new *)
  sprout_verify_groth16 : list Z -> uint256 -> uint256 -> list uint256 -> list uint256 -> list uint256 -> Z -> Z -> bool;
  sprout_verify_phgr13 : list Z -> uint256 -> uint256 -> list uint256 -> list uint256 -> list uint256 -> Z -> Z -> bool }.

(** "ZcashComputehSig" *)
Definition HSIG_PERSONAL : list Z := [0x5a; 0x63; 0x61; 0x73; 0x68; 0x43; 0x6f; 0x6d; 0x70; 0x75; 0x74; 0x65; 0x68; 0x53; 0x69; 0x67].

Inductive contextual_check_verdict := CONTEXTUAL_CHECK_PASS | CONTEXTUAL_CHECK_REJECT | CONTEXTUAL_CHECK_UNVERIFIABLE.

(** A check that also says whether a [false] is this node's own fault. *)
Definition fcheck : Type := validation_state -> option (validation_state * bool * bool).
Definition no_fault (m : vcheck) : fcheck := fun s => let? r := m s in Some (r, false).
(** [local_fault = true; return validation_state_dos(...)] *)
Definition at_fault (dos : Z) (reason : string) : fcheck := fun s => let? r := reject dos reason false s in Some (r, true).
Definition fand (m k : fcheck) : fcheck := fun s =>
  let? r := m s in let '(s, ok, fault) := r in if ok : bool then k s else Some (s, false, fault).

Section Code.
Context `{Allocator} `{HostOrder} `{ShieldedVerifiers} (env : verify_env).

Definition proofs_deferred (nHeight : Z) : bool :=
  (0 <=? g_deferred_proof_validation_below_height env) && (nHeight <=? g_deferred_proof_validation_below_height env).

Definition has_shielded_parts (tx : transaction) : bool :=
  (0 <? len (v_joinsplit tx)) || (0 <? len (v_shielded_spend tx)) || (0 <? len (v_shielded_output tx)).

Definition proofs_are_in_scope (tx : transaction) (nHeight : Z) : bool :=
  if proofs_deferred nHeight then false else has_shielded_parts tx.

Definition contextual_check_tx_proofs_unverifiable (tx : option transaction) (nHeight : Z) : bool :=
  match tx with
  | None => false
  | Some tx =>
      if negb (proofs_are_in_scope tx nHeight) then false
      else if negb (sapling_params_loaded env) then true
      else existsb (fun js => negb (use_groth js) && negb (sprout_phgr_vk_loaded env)) (v_joinsplit tx)
  end.

Definition contextual_check_sapling_structural (tx : transaction) (params : consensus_params) (nHeight dosLevel : Z) : vcheck :=
  report (domain_consensus_check_transaction_sapling_structural (Some tx) (Some params) nHeight dosLevel) (fun _ => false) false.

Definition contextual_check_overwinter_expiry (tx : transaction) (params : consensus_params) (nHeight dosLevel : Z) : vcheck := fun s =>
  let? overwinterActive := consensus_network_upgrade_active params nHeight UPGRADE_OVERWINTER in
  if overwinterActive && domain_consensus_tx_is_expired (Some tx) nHeight then
    let expiredDosLevel := if domain_consensus_tx_is_expired (Some tx) (nHeight - 1) then dosLevel else 0 in
    reject expiredDosLevel "tx-overwinter-expired" false s
  else Some (s, true).

Definition contextual_check_shielded_verify_available (tx : transaction) (nHeight : Z) : fcheck :=
  if contextual_check_tx_proofs_unverifiable (Some tx) nHeight then at_fault 0 "shielded-verify-unavailable"
  else no_fault vpass.

(** Hands [data_to_be_signed] to the rest. *)
Definition contextual_check_shielded_sighash (tx : transaction) (params : consensus_params) (nHeight : Z) (skip_proofs : bool)
    (k : uint256 -> fcheck) : fcheck := fun s =>
  if negb skip_proofs && has_shielded_parts tx then
    let branch_id := consensus_current_epoch_branch_id nHeight params in
    let? r := signature_hash [] tx NOT_AN_INPUT SIGHASH_ALL 0 branch_id None in
    match r with
    | None => at_fault 100 "error-computing-signature-hash" s
    | Some h => k h s
    end
  else k uint256_set_null s.

Definition contextual_check_joinsplit_signature (tx : transaction) (skip_proofs : bool) (data_to_be_signed : uint256) : vcheck :=
  if negb skip_proofs && (0 <? len (v_joinsplit tx)) &&
     negb (ed25519_verify (joinsplit_sig tx) data_to_be_signed (joinsplit_pubkey tx))
  then reject 100 "bad-txns-joinsplit-signature" false else vpass.

(** The loops over the descriptions; the context after the last one. *)
Fixpoint sapling_spends_loop (sctx : sapling_ctx) (l : list spend_description) (h : uint256) : option sapling_ctx :=
  match l with
  | [] => Some sctx
  | sd :: l =>
      let '(sctx, ok) := sapling_check_spend sctx (sd_cv sd) (sd_anchor sd) (sd_nullifier sd) (sd_rk sd) (sd_zkproof sd) (sd_spend_auth_sig sd) h in
      if ok then sapling_spends_loop sctx l h else None
  end.
Fixpoint sapling_outputs_loop (sctx : sapling_ctx) (l : list output_description) : option sapling_ctx :=
  match l with
  | [] => Some sctx
  | od :: l =>
      let '(sctx, ok) := sapling_check_output sctx (od_cv od) (od_cm od) (od_ephemeral_key od) (od_zkproof od) in
      if ok then sapling_outputs_loop sctx l else None
  end.

Definition contextual_check_sapling_descriptions (tx : transaction) (sctx : sapling_ctx) (data_to_be_signed : uint256) : vcheck :=
  match sapling_spends_loop sctx (v_shielded_spend tx) data_to_be_signed with
  | None => reject 100 "bad-txns-sapling-spend-description-invalid" false
  | Some sctx =>
      match sapling_outputs_loop sctx (v_shielded_output tx) with
      | None => reject 100 "bad-txns-sapling-output-description-invalid" false
      | Some sctx =>
          if negb (sapling_final_check sctx (value_balance tx) (binding_sig tx) data_to_be_signed)
          then reject 100 "bad-txns-sapling-binding-sig-invalid" false else vpass
      end
  end.

Definition contextual_check_sapling_proofs (tx : transaction) (skip_proofs : bool) (data_to_be_signed : uint256) : fcheck :=
  if negb skip_proofs && ((0 <? len (v_shielded_spend tx)) || (0 <? len (v_shielded_output tx))) then
    match sapling_verification_ctx_init with
    | None => at_fault 100 "sapling-verification-ctx-init-failed"
    | Some sctx => no_fault (contextual_check_sapling_descriptions tx sctx data_to_be_signed)
    end
  else no_fault vpass.

Definition sprout_h_sig (random_seed nf0 nf1 joinsplit_pubkey : uint256) : option uint256 :=
  blake2b_personal_chunks HSIG_PERSONAL [random_seed; nf0; nf1; joinsplit_pubkey].

(** One JoinSplit; [None] is a read past its arrays of two. *)
Definition check_joinsplit_proof (tx : transaction) (js : js_description) : vcheck := fun s =>
  let? nf0 := nullifiers js !! 0%nat in
  let? nf1 := nullifiers js !! 1%nat in
  let? mac0 := macs js !! 0%nat in
  let? mac1 := macs js !! 1%nat in
  let? cm0 := commitments js !! 0%nat in
  let? cm1 := commitments js !! 1%nat in
  let? h_sig := sprout_h_sig (random_seed js) nf0 nf1 (joinsplit_pubkey tx) in
  let verify := if use_groth js then sprout_verify_groth16 else sprout_verify_phgr13 in
  if negb (verify (proof js) (js_anchor js) h_sig [mac0; mac1] [nf0; nf1] [cm0; cm1] (u64 (vpub_old js)) (u64 (vpub_new js)))
  then reject 100 (if use_groth js then "bad-txns-joinsplit-proof-invalid" else "bad-txns-joinsplit-phgr13-invalid")%string false s
  else Some (s, true).

Definition contextual_check_sprout_proofs (tx : transaction) (skip_proofs : bool) : vcheck :=
  if skip_proofs then vpass else vall (check_joinsplit_proof tx) (v_joinsplit tx).

Definition contextual_check_transaction_impl (tx : transaction) (params : consensus_params) (nHeight dosLevel : Z) : fcheck :=
  fand (no_fault (contextual_check_sapling_structural tx params nHeight dosLevel))
    (fand (no_fault (contextual_check_overwinter_expiry tx params nHeight dosLevel))
       (let skip_proofs := proofs_deferred nHeight in
        fand (contextual_check_shielded_verify_available tx nHeight)
          (contextual_check_shielded_sighash tx params nHeight skip_proofs (fun data_to_be_signed =>
             fand (no_fault (contextual_check_joinsplit_signature tx skip_proofs data_to_be_signed))
               (fand (contextual_check_sapling_proofs tx skip_proofs data_to_be_signed)
                  (no_fault (contextual_check_sprout_proofs tx skip_proofs))))))).

Definition contextual_check_transaction_verdict (tx : transaction) (params : consensus_params) (nHeight dosLevel : Z)
    (s : validation_state) : option (validation_state * contextual_check_verdict) :=
  let? r := contextual_check_transaction_impl tx params nHeight dosLevel s in
  let '(s, ok, local_fault) := r in
  Some (s, if ok : bool then CONTEXTUAL_CHECK_PASS
           else if local_fault : bool then CONTEXTUAL_CHECK_UNVERIFIABLE else CONTEXTUAL_CHECK_REJECT).

Definition contextual_check_transaction (tx : transaction) (params : consensus_params) (nHeight dosLevel : Z) : vcheck := fun s =>
  let? r := contextual_check_transaction_verdict tx params nHeight dosLevel s in
  Some (fst r, match snd r with CONTEXTUAL_CHECK_PASS => true | _ => false end).

End Code.

(** ** The rules *)

Section Rules.
Context `{ShieldedVerifiers}.

(** The context threads through the descriptions, each of them accepted. *)
Inductive accepts {A} (step : sapling_ctx -> A -> sapling_ctx * bool) : sapling_ctx -> list A -> sapling_ctx -> Prop :=
| accepts_nil c : accepts step c [] c
| accepts_cons c x l c1 c2 : step c x = (c1, true) -> accepts step c1 l c2 -> accepts step c (x :: l) c2.

Definition spend_step (h : uint256) (c : sapling_ctx) (sd : spend_description) : sapling_ctx * bool :=
  sapling_check_spend c (sd_cv sd) (sd_anchor sd) (sd_nullifier sd) (sd_rk sd) (sd_zkproof sd) (sd_spend_auth_sig sd) h.
Definition output_step (c : sapling_ctx) (od : output_description) : sapling_ctx * bool :=
  sapling_check_output c (od_cv od) (od_cm od) (od_ephemeral_key od) (od_zkproof od).

Definition joinsplit_signed (tx : transaction) (h : uint256) : Prop :=
  v_joinsplit tx <> [] -> ed25519_verify (joinsplit_sig tx) h (joinsplit_pubkey tx) = true.

Definition has_sapling (tx : transaction) : Prop := v_shielded_spend tx <> [] \/ v_shielded_output tx <> [].

(** Spends, outputs and the binding signature, checked from a fresh context. *)
Definition sapling_bundle_ok (tx : transaction) (h : uint256) : Prop :=
  has_sapling tx -> exists c0 c1 c2, sapling_verification_ctx_init = Some c0 /\
    accepts (spend_step h) c0 (v_shielded_spend tx) c1 /\ accepts output_step c1 (v_shielded_output tx) c2 /\
    sapling_final_check c2 (value_balance tx) (binding_sig tx) h = true.

Definition joinsplit_proved (tx : transaction) (js : js_description) : Prop :=
  let h_sig := zhash HSIG_PERSONAL (random_seed js ++ concat (nullifiers js) ++ joinsplit_pubkey tx) in
  (if use_groth js then sprout_verify_groth16 else sprout_verify_phgr13)
    (proof js) (js_anchor js) h_sig (macs js) (nullifiers js) (commitments js) (u64 (vpub_old js)) (u64 (vpub_new js)) = true.

(** What is signed: the whole transaction, for no input. *)
Definition shielded_hash (p : consensus_params) (height : Z) (tx : transaction) : uint256 :=
  default uint256_set_null (sighash [] tx NOT_AN_INPUT SIGHASH_ALL 0 (consensus_current_epoch_branch_id height p)).

Definition shielded_valid (p : consensus_params) (height : Z) (tx : transaction) : Prop :=
  let h := shielded_hash p height tx in
  joinsplit_signed tx h /\ sapling_bundle_ok tx h /\ Forall (joinsplit_proved tx) (v_joinsplit tx).

(** The keys the transaction's proofs need are installed. *)
Definition keys_available (env : verify_env) (tx : transaction) : Prop :=
  sapling_params_loaded env = true /\
  (sprout_phgr_vk_loaded env = true \/ Forall (fun js => use_groth js = true) (v_joinsplit tx)).

Definition unexpired (p : consensus_params) (height : Z) (tx : transaction) : Prop :=
  overwinter_at p height = true -> domain_consensus_tx_is_expired (Some tx) height = false.

End Rules.

(** [fjudges m P F]: on a valid state without score [m] is defined; it passes and
    leaves the state alone when [P] holds, and otherwise marks it invalid with a
    score of at most 100, blaming the node exactly when [F] holds. *)
Definition fjudges (m : fcheck) (P F : Prop) : Prop :=
  (P -> F -> False) /\ forall s, mode s = MODE_VALID -> st_dos s = 0 ->
  (m s = Some (s, true, false) /\ P) \/
  ((exists s', m s = Some (s', false, true) /\ mode s' = MODE_INVALID /\ 0 <= st_dos s' <= 100) /\ ~ P /\ F) \/
  ((exists s', m s = Some (s', false, false) /\ mode s' = MODE_INVALID /\ 0 <= st_dos s' <= 100) /\ ~ P /\ ~ F).

Lemma fjudges_iff m P F Q G : fjudges m P F -> (P <-> Q) -> (F <-> G) -> fjudges m Q G.
Proof. intros [X Hm] EP EF. split; [tauto|]. intros s Hs Hd. destruct (Hm s Hs Hd) as [?|[?|?]]; tauto. Qed.

Lemma fjudges_no_fault m P : judges m P -> fjudges (no_fault m) P False.
Proof.
  intros Hm. split; [done|]. intros s Hs Hd. unfold no_fault. destruct (Hm s Hs Hd) as [[-> HP]|[(s' & -> & HI) HP]].
  - by left.
  - right. right. split; [by exists s'|tauto].
Qed.

Lemma judges_reject d reason : 0 <= d <= 100 -> judges (reject d reason false) False.
Proof.
  intros Hd s Hs H0. right. split; [|tauto]. unfold reject, validation_state_dos. rewrite Hs, H0, s32_ok by lia.
  eexists. split; [reflexivity|]. cbn. split; [done|lia].
Qed.

Lemma fjudges_fault d reason : 0 <= d <= 100 -> fjudges (at_fault d reason) False True.
Proof.
  intros Hd. split; [tauto|]. intros s Hs H0. right. left. split; [|tauto].
  destruct (judges_reject d reason Hd s Hs H0) as [[_ []]|[(s' & E & HI) _]]. exists s'. split; [|exact HI]. unfold at_fault. by rewrite E.
Qed.

Lemma fjudges_and m k P F Q G : fjudges m P F -> (P -> fjudges k Q G) -> fjudges (fand m k) (P /\ Q) (F \/ (P /\ G)).
Proof.
  intros [X Hm] Hk. split; [intros [HP HQ] [HF|[_ HG]]; [tauto|]; destruct (Hk HP); tauto|].
  intros s Hs Hd. unfold fand. destruct (Hm s Hs Hd) as [[-> HP]|[[(s' & -> & HI) HP]|[(s' & -> & HI) HP]]].
  - destruct (Hk HP) as [Y Hk']. destruct (Hk' s Hs Hd) as [[-> ?]|[[(s' & -> & HI) ?]|[(s' & -> & HI) ?]]].
    + left. tauto.
    + right. left. split; [by exists s'|tauto].
    + right. right. split; [by exists s'|]. tauto.
  - right. left. split; [by exists s'|tauto].
  - right. right. split; [by exists s'|tauto].
Qed.

Lemma judges_if (b : bool) m k P Q : (b = true -> judges m P) -> (b = false -> judges k Q) -> judges (if b then m else k) (if b then P else Q).
Proof. destruct b; auto. Qed.

Lemma fjudges_if (b : bool) m k P F Q G :
  (b = true -> fjudges m P F) -> (b = false -> fjudges k Q G) -> fjudges (if b then m else k) (if b then P else Q) (if b then F else G).
Proof. destruct b; auto. Qed.

Lemma len_pos_iff {A} (l : list A) : (0 <? len l) = true <-> l <> [].
Proof. rewrite Z.ltb_lt. destruct l; unfold len; cbn [length]; [split; [lia|by intros []]|split; [done|lia]]. Qed.

Lemma scored_then {E} (r k : check E) : scored r -> scored k -> scored (and_then r k).
Proof. intros Hr Hk f. unfold and_then. destruct r as [[u|g]|]; [apply Hk|intros [= <-]; by apply Hr|done]. Qed.

Section Spec.
Context `{Allocator} `{ShieldedVerifiers} (M : memory_ok) (env : verify_env) (p : consensus_params) (height dosLevel : Z) (tx : transaction).
Context (W : tx_wf tx) (Ho : epochs_ordered p) (Hh : 0 <= height < 2 ^ 31) (Hd : 0 <= dosLevel <= 100).
#[local] Existing Instance little_endian_host.

Lemma structural_judges : judges (contextual_check_sapling_structural tx p height dosLevel) (epoch_valid p height tx).
Proof.
  apply judges_report; [by apply sapling_structural_decides; [..|lia]| |done].
  unfold domain_consensus_check_transaction_sapling_structural, sapling_structural_check_caller_args, sapling_structural_check_sprout_overwintered,
    sapling_structural_check_sapling_versions, sapling_structural_check_overwinter_versions, sapling_structural_check_presapling_size.
  repeat first [apply scored_then | progress scored].
Qed.

Lemma expiry_judges : judges (contextual_check_overwinter_expiry tx p height dosLevel) (unexpired p height tx).
Proof.
  intros s Hs Hs0. unfold contextual_check_overwinter_expiry, unexpired. rewrite upgrade_active_ok by (done || lia). fold (overwinter_at p height).
  destruct (overwinter_at p height); cbn [andb]; [|by left]. destruct (domain_consensus_tx_is_expired (Some tx) height); [|by left].
  right. split; [|intros E; by specialize (E eq_refl)].
  destruct (judges_reject (if domain_consensus_tx_is_expired (Some tx) (height - 1) then dosLevel else 0) "tx-overwinter-expired") with s as [[_ []]|[? _]];
    [by case_match; lia|done..].
Qed.

Lemma in_scope_spec : proofs_are_in_scope env tx height = true <-> proofs_deferred env height = false /\ has_shielded_parts tx = true.
Proof. unfold proofs_are_in_scope. by destruct (proofs_deferred env height); split; [|intros [? _]|..|intros [_ ?]]. Qed.

(** Nothing to verify, or verifiable. *)
Lemma available_judges : fjudges (contextual_check_shielded_verify_available env tx height)
  (proofs_are_in_scope env tx height = true -> keys_available env tx)
  (proofs_are_in_scope env tx height = true /\ ~ keys_available env tx).
Proof.
  assert (contextual_check_tx_proofs_unverifiable env (Some tx) height = true <->
    proofs_are_in_scope env tx height = true /\ ~ keys_available env tx) as Hu.
  { cbn. unfold keys_available. destruct (proofs_are_in_scope env tx height); cbn [negb]; [|by split; [|intros []]].
    destruct (sapling_params_loaded env); cbn [negb]; [|by split; [split; [done|intros [? _]]|]].
    destruct (sprout_phgr_vk_loaded env).
    - split; [|intros [_ K]; destruct K; auto]. intros E. apply existsb_exists in E as (js & _ & E). by rewrite andb_false_r in E.
    - rewrite existsb_exists. split.
      + intros (js & Hin & E). split; [done|]. intros [_ [?|F]]; [done|]. rewrite List.Forall_forall in F. by rewrite (F js Hin) in E.
      + intros [_ K]. assert (~ Forall (fun js => use_groth js = true) (v_joinsplit tx)) as K' by tauto.
        apply not_Forall_Exists in K'; [|intros js; by destruct (use_groth js); [left|right]]. apply List.Exists_exists in K' as (js & Hin & E).
        exists js. split; [done|]. destruct (use_groth js) eqn:Eg; [by destruct E|done]. }
  unfold contextual_check_shielded_verify_available. destruct (contextual_check_tx_proofs_unverifiable env (Some tx) height).
  - eapply fjudges_iff; [apply fjudges_fault; lia|tauto|tauto].
  - assert (proofs_are_in_scope env tx height = true -> keys_available env tx) as K.
    { intros E. destruct (decide (sapling_params_loaded env = true)) as [Es|Es].
      - split; [done|]. destruct (sprout_phgr_vk_loaded env) eqn:Ep; [by left|right]. apply List.Forall_forall. intros js Hin.
        destruct (use_groth js) eqn:Eg; [done|]. exfalso. enough (false = true) by done. apply Hu. split; [done|]. intros [_ [?|F]]; [congruence|].
        rewrite List.Forall_forall in F. by rewrite (F js Hin) in Eg.
      - exfalso. enough (false = true) by done. apply Hu. split; [done|]. by intros [? _]. }
    eapply fjudges_iff; [apply fjudges_no_fault, judges_pass|tauto|tauto].
Qed.

(** The hash of the whole transaction is always computed. *)
Lemma shielded_sighash_run br :
  signature_hash [] tx NOT_AN_INPUT SIGHASH_ALL 0 br None = Some (sighash [] tx NOT_AN_INPUT SIGHASH_ALL 0 br) /\
  is_Some (sighash [] tx NOT_AN_INPUT SIGHASH_ALL 0 br).
Proof.
  assert (script_wf []) as Hs by (split; [constructor|by vm_compute]).
  unfold sighash. change (NOT_AN_INPUT =? NOT_AN_INPUT) with true. change (base_is SIGHASH_ALL SIGHASH_SINGLE) with false. cbn [negb andb].
  rewrite andb_false_r. destruct (overwintered tx) eqn:Ho'.
  - split; [|done]. rewrite overwinter_signature_hash by (done || by vm_compute). cbn [negb andb]. by rewrite andb_false_r.
  - split; [|done]. unfold signature_hash, domain_consensus_signature_hash, domain_consensus_signature_hash_version.
    change (NOT_AN_INPUT =? NOT_AN_INPUT) with true. cbn [negb]. rewrite andb_false_r, Ho'. change (base_is SIGHASH_ALL SIGHASH_SINGLE) with false. cbn [andb].
    by rewrite (sprout_spec M tx W [] NOT_AN_INPUT SIGHASH_ALL Ho' Hs ltac:(by vm_compute) (or_introl eq_refl)).
Qed.

Lemma sighash_judges k P F :
  (proofs_are_in_scope env tx height = true -> fjudges (k (shielded_hash p height tx)) P F) ->
  (proofs_are_in_scope env tx height = false -> fjudges (k uint256_set_null) P F) ->
  fjudges (contextual_check_shielded_sighash tx p height (proofs_deferred env height) k) P F.
Proof.
  unfold proofs_are_in_scope. intros H1 H2.
  assert (forall h, (proofs_deferred env height = false /\ has_shielded_parts tx = true -> h = shielded_hash p height tx) ->
    (~ (proofs_deferred env height = false /\ has_shielded_parts tx = true) -> h = uint256_set_null) -> fjudges (k h) P F) as Hk.
  { intros h E1 E2. destruct (proofs_deferred env height) eqn:Ed, (has_shielded_parts tx) eqn:Es.
    1-2,4: rewrite E2 by (intros [? ?]; congruence); by apply H2. rewrite E1 by done. by apply H1. }
  unfold contextual_check_shielded_sighash, shielded_hash in *.
  destruct (shielded_sighash_run (consensus_current_epoch_branch_id height p)) as [-> [h Eh]]. rewrite Eh in *.
  destruct (proofs_deferred env height), (has_shielded_parts tx); cbn [negb andb]; apply Hk; cbn [from_option id]; 
    first [done | by intros [? ?] | intros K; exfalso; by apply K].
Qed.

Lemma joinsplit_signature_judges skip h :
  judges (contextual_check_joinsplit_signature tx skip h) (if skip then True else joinsplit_signed tx h).
Proof.
  unfold contextual_check_joinsplit_signature, joinsplit_signed. destruct skip; cbn [negb andb]; [apply judges_pass|].
  destruct (0 <? len (v_joinsplit tx)) eqn:El; cbn [andb].
  - apply len_pos_iff in El. destruct (ed25519_verify _ _ _); cbn [negb].
    + eapply judges_iff; [apply judges_pass|by split].
    + eapply judges_iff; [apply judges_reject; lia|]. split; [done|]. intros E. by specialize (E El).
  - eapply judges_iff; [apply judges_pass|]. split; [|done]. intros _ E. apply len_pos_iff in E. congruence.
Qed.

Lemma loop_accepts {A} (step : sapling_ctx -> A -> sapling_ctx * bool) (loop : sapling_ctx -> list A -> option sapling_ctx) :
  (forall c, loop c [] = Some c) -> (forall c x l, loop c (x :: l) = let '(c, ok) := step c x in if ok : bool then loop c l else None) ->
  forall l c c', loop c l = Some c' <-> accepts step c l c'.
Proof.
  intros Hn Hc l. induction l as [|x l IH]; intros c c'.
  - rewrite Hn. split; [intros [= <-]; constructor|by inversion 1].
  - rewrite Hc. destruct (step c x) as [c1 ok] eqn:E. split.
    + destruct ok; [|done]. intros E'. econstructor; [exact E|by apply IH].
    + inversion 1 as [|? ? ? c2 ? E' R]; subst. rewrite E in E'. injection E' as <- ->. by apply IH.
Qed.

Lemma descriptions_judges c0 h : has_sapling tx -> sapling_verification_ctx_init = Some c0 ->
  judges (contextual_check_sapling_descriptions tx c0 h) (sapling_bundle_ok tx h).
Proof.
  intros Hs E0.
  pose proof (loop_accepts (spend_step h) (fun c l => sapling_spends_loop c l h) ltac:(done) ltac:(done) (v_shielded_spend tx)) as L1.
  pose proof (loop_accepts output_step sapling_outputs_loop ltac:(done) ltac:(done) (v_shielded_output tx)) as L2. cbn beta in L1.
  unfold contextual_check_sapling_descriptions, sapling_bundle_ok.
  destruct (sapling_spends_loop c0 _ h) as [c1|] eqn:E1; [destruct (sapling_outputs_loop c1 _) as [c2|] eqn:E2|].
  - destruct (sapling_final_check c2 _ _ h) eqn:E3; cbn [negb].
    + eapply judges_iff; [apply judges_pass|]. split; [|done]. intros _ _. exists c0, c1, c2. split_and!; [done|by apply L1|by apply L2|done].
    + eapply judges_iff; [apply judges_reject; lia|]. split; [done|]. intros B. destruct (B Hs) as (d0 & d1 & d2 & D0 & D1 & D2 & D3).
      rewrite E0 in D0. injection D0 as <-. apply L1 in D1. rewrite E1 in D1. injection D1 as <-. apply L2 in D2. congruence.
  - eapply judges_iff; [apply judges_reject; lia|]. split; [done|]. intros B. destruct (B Hs) as (d0 & d1 & d2 & D0 & D1 & D2 & D3).
    rewrite E0 in D0. injection D0 as <-. apply L1 in D1. rewrite E1 in D1. injection D1 as <-. apply L2 in D2. congruence.
  - eapply judges_iff; [apply judges_reject; lia|]. split; [done|]. intros B. destruct (B Hs) as (d0 & d1 & d2 & D0 & D1 & D2 & D3).
    rewrite E0 in D0. injection D0 as <-. apply L1 in D1. congruence.
Qed.

Lemma has_sapling_b : ((0 <? len (v_shielded_spend tx)) || (0 <? len (v_shielded_output tx))) = true <-> has_sapling tx.
Proof. unfold has_sapling. by rewrite orb_true_iff, !len_pos_iff. Qed.

Lemma sapling_proofs_judges skip h : fjudges (contextual_check_sapling_proofs tx skip h)
  (if skip then True else sapling_bundle_ok tx h) (if skip then False else has_sapling tx /\ sapling_verification_ctx_init = None).
Proof.
  unfold contextual_check_sapling_proofs. destruct skip; cbn [negb andb]; [apply fjudges_no_fault, judges_pass|].
  destruct ((0 <? len (v_shielded_spend tx)) || _) eqn:Eb.
  - apply has_sapling_b in Eb. destruct sapling_verification_ctx_init as [c0|] eqn:E0.
    + eapply fjudges_iff; [by apply fjudges_no_fault, descriptions_judges|done|]. split; [done|]. by intros [_ ?].
    + eapply fjudges_iff; [apply fjudges_fault; lia|split; [done|]|tauto]. intros B. destruct (B Eb) as (? & ? & ? & ? & _). congruence.
  - assert (~ has_sapling tx) as Hn by (rewrite <- has_sapling_b; congruence).
    eapply fjudges_iff; [apply fjudges_no_fault, judges_pass|unfold sapling_bundle_ok; tauto|tauto].
Qed.

Lemma two_records rec l : records 2 rec l -> exists a b, l = [a; b].
Proof. intros [Hl _]. destruct l as [|a [|b [|]]]; try done. by exists a, b. Qed.

Lemma joinsplit_proof_judges js groth : js_wf groth js -> judges (check_joinsplit_proof tx js) (joinsplit_proved tx js).
Proof.
  intros (_ & _ & _ & Hn & Hc & _ & _ & Hm & _). unfold joinsplit_proved.
  destruct (two_records _ _ Hn) as (n0 & n1 & En), (two_records _ _ Hc) as (c0 & c1 & Ec), (two_records _ _ Hm) as (m0 & m1 & Em).
  assert (check_joinsplit_proof tx js = if negb ((if use_groth js then sprout_verify_groth16 else sprout_verify_phgr13)
      (proof js) (js_anchor js) (zhash HSIG_PERSONAL (random_seed js ++ concat (nullifiers js) ++ joinsplit_pubkey tx)) (macs js) (nullifiers js)
      (commitments js) (u64 (vpub_old js)) (u64 (vpub_new js)))
    then reject 100 (if use_groth js then "bad-txns-joinsplit-proof-invalid" else "bad-txns-joinsplit-phgr13-invalid")%string false
    else vpass) as ->.
  { unfold check_joinsplit_proof, sprout_h_sig. rewrite En, Ec, Em. cbn [lookup list_lookup].
    rewrite personal_chunks_spec. cbn [concat]. rewrite !app_nil_r, <- !app_assoc.
    by destruct (negb _). }
  destruct ((if use_groth js then _ else _) _ _ _ _ _ _ _ _); cbn [negb]; [by eapply judges_iff; [apply judges_pass|]|].
  eapply judges_iff; [apply judges_reject; lia|done].
Qed.

Lemma sprout_proofs_judges skip :
  judges (contextual_check_sprout_proofs tx skip) (if skip then True else Forall (joinsplit_proved tx) (v_joinsplit tx)).
Proof.
  unfold contextual_check_sprout_proofs. destruct skip; [apply judges_pass|]. apply judges_all.
  pose proof (wf_js tx W) as Wj. destruct (version tx <? 2); [rewrite Wj; constructor|]. destruct Wj as [_ F].
  eapply Forall_impl; [|exact F]. intros js Hj. by eapply joinsplit_proof_judges.
Qed.

Lemma impl_judges : fjudges (contextual_check_transaction_impl env tx p height dosLevel)
  ((epoch_valid p height tx /\ unexpired p height tx) /\
   (proofs_are_in_scope env tx height = true -> keys_available env tx /\ shielded_valid p height tx))
  ((epoch_valid p height tx /\ unexpired p height tx) /\ proofs_are_in_scope env tx height = true /\
   (~ keys_available env tx \/
    (keys_available env tx /\ joinsplit_signed tx (shielded_hash p height tx) /\ has_sapling tx /\ sapling_verification_ctx_init = None))).
Proof.
  unfold contextual_check_transaction_impl. set (scope := proofs_are_in_scope env tx height = true). set (h := shielded_hash p height tx).
  assert (forall h', (scope -> h' = h) -> fjudges
    (fand (no_fault (contextual_check_joinsplit_signature tx (proofs_deferred env height) h'))
       (fand (contextual_check_sapling_proofs tx (proofs_deferred env height) h') (no_fault (contextual_check_sprout_proofs tx (proofs_deferred env height)))))
    (scope -> shielded_valid p height tx) (scope /\ joinsplit_signed tx h /\ has_sapling tx /\ sapling_verification_ctx_init = None)) as Hp.
  { intros h' Eh. set (skip := proofs_deferred env height).
    eapply fjudges_iff.
    - apply fjudges_and; [apply fjudges_no_fault, joinsplit_signature_judges|intros _].
      apply fjudges_and; [apply sapling_proofs_judges|intros _]. apply fjudges_no_fault, sprout_proofs_judges.
    - unfold scope, shielded_valid in *. rewrite in_scope_spec in *. fold skip in Eh |- *. destruct skip; [by split; [intros _ [? _]|]|].
      destruct (has_shielded_parts tx) eqn:Es; [rewrite (Eh (conj eq_refl eq_refl)); fold h; tauto|].
      split; [by intros _ [_ ?]|intros _]. unfold has_shielded_parts in Es. apply orb_false_iff in Es as [Es E3]. apply orb_false_iff in Es as [E1 E2].
      assert (forall A (l : list A), (0 <? len l) = false -> l = []) as Hnil.
      { intros A [|x l] El; [done|]. apply Z.ltb_ge in El. unfold len in El. cbn in El. lia. }
      apply Hnil in E1, E2, E3. unfold joinsplit_signed, sapling_bundle_ok, has_sapling. rewrite E1, E2, E3. split_and!; [done| |constructor]. by intros [?|?].
    - unfold scope in *. rewrite in_scope_spec in *. fold skip in Eh |- *. destruct skip; [split; [tauto|by intros ([? _] & _)]|].
      destruct (has_shielded_parts tx) eqn:Es; [rewrite (Eh (conj eq_refl eq_refl)); fold h; tauto|].
      split; [|by intros ([_ ?] & _)]. intros [[]|[_ [[Hs _]|[_ []]]]]. exfalso. apply has_sapling_b in Hs.
      unfold has_shielded_parts in Es. rewrite <- orb_assoc, Hs, orb_true_r in Es. done. }
  eapply fjudges_iff.
  - apply fjudges_and; [apply fjudges_no_fault, structural_judges|intros _]. apply fjudges_and; [apply fjudges_no_fault, expiry_judges|intros _].
    apply fjudges_and; [apply available_judges|intros _]. apply sighash_judges; intros Esc.
    + apply Hp. done.
    + apply Hp. unfold scope. congruence.
  - fold scope. tauto.
  - fold scope. unfold scope. destruct (proofs_are_in_scope env tx height) eqn:Esc; [|split; [tauto|by intros (_ & ? & _)]].
    destruct (decide (sapling_params_loaded env = true)) as [Ek|Ek]; [|unfold keys_available; tauto].
    assert (keys_available env tx \/ ~ keys_available env tx) as [K|K]; [|tauto..].
    unfold keys_available. destruct (sprout_phgr_vk_loaded env); [by left; auto|].
    destruct (decide (Forall (fun js => use_groth js = true) (v_joinsplit tx))); [by left; auto|right]. intros [_ [?|?]]; done.
Qed.
End Spec.

(** C24: the contextual check and its verdict. On a little-endian host with memory, for
    every well-formed transaction, whatever the verifiers are: the check is defined, and
    passes, leaving the state alone, exactly when the transaction has the form of its
    epoch, has not expired, and, if its proofs are in scope (it has shielded parts and the
    height is above the deferral height), the keys they need are installed and its
    JoinSplit signature, Sapling bundle and JoinSplit proofs verify against the signature
    hash of the whole transaction. It answers that it could not check exactly when the
    other rules hold, the proofs are in scope, and a key is missing or no Sapling context
    could be allocated; then, as for a rejection, the state is invalid: a transaction that
    could not be checked is never accepted, and never called bad. *)
Theorem contextual_check_spec `{Allocator} `{ShieldedVerifiers} (env : verify_env) (p : consensus_params) (height dosLevel : Z)
    (tx : transaction) (s : validation_state) :
  let host : HostOrder := little_endian_host in
  memory_ok -> tx_wf tx -> epochs_ordered p -> 0 <= height < 2 ^ 31 -> 0 <= dosLevel <= 100 -> mode s = MODE_VALID -> st_dos s = 0 ->
  let scope := proofs_are_in_scope env tx height = true in
  let context := epoch_valid p height tx /\ unexpired p height tx in
  exists s' v,
    contextual_check_transaction_verdict env tx p height dosLevel s = Some (s', v) /\
    (v = CONTEXTUAL_CHECK_PASS <-> context /\ (scope -> keys_available env tx /\ shielded_valid p height tx)) /\
    (v = CONTEXTUAL_CHECK_UNVERIFIABLE <->
       context /\ scope /\ (~ keys_available env tx \/
         (keys_available env tx /\ joinsplit_signed tx (shielded_hash p height tx) /\ has_sapling tx /\ sapling_verification_ctx_init = None))) /\
    (v = CONTEXTUAL_CHECK_PASS -> s' = s) /\
    (v <> CONTEXTUAL_CHECK_PASS -> mode s' = MODE_INVALID /\ 0 <= st_dos s' <= 100) /\
    (contextual_check_transaction env tx p height dosLevel s = Some (s', true) <-> v = CONTEXTUAL_CHECK_PASS).
Proof.
  intros host M W Ho Hh Hd Hs H0' scope context. subst host.
  pose proof (impl_judges M env p height dosLevel tx W Ho Hh Hd) as [X Hm]. unfold contextual_check_transaction, contextual_check_transaction_verdict.
  destruct (Hm s Hs H0') as [[-> HP]|[[(s' & -> & HI) [HP HF]]|[(s' & -> & HI) [HP HF]]]].
  - exists s, CONTEXTUAL_CHECK_PASS. split; [done|]. split; [split; [intros _; exact HP|done]|]. split; [split; [done|intros HF; by destruct (X HP HF)]|]. done.
  - exists s', CONTEXTUAL_CHECK_UNVERIFIABLE. split; [done|]. split; [by split; [|intros ?]|]. split; [split; [intros _; exact HF|done]|]. split_and!; try done.
  - exists s', CONTEXTUAL_CHECK_REJECT. split; [done|]. split; [by split; [|intros ?]|]. split; [by split; [|intros ?]|]. split_and!; try done.
Qed.

Section Witness.
#[local] Instance plenty : Allocator := fun _ => true.
#[local] Existing Instance little_endian_host.
(** Verifiers that accept everything. *)
#[local] Instance lenient : ShieldedVerifiers :=
  {| sapling_ctx := unit; sapling_verification_ctx_init := Some tt;
     sapling_check_spend := fun c _ _ _ _ _ _ _ => (c, true); sapling_check_output := fun c _ _ _ _ => (c, true);
     sapling_final_check := fun _ _ _ _ => true; ed25519_verify := fun _ _ _ => true;
     sprout_verify_groth16 := fun _ _ _ _ _ _ _ _ => true; sprout_verify_phgr13 := fun _ _ _ _ _ _ _ _ => true |}.

(** A Sapling transaction with one shielded output, and a node without keys. *)
Definition shielded_sample : transaction :=
  mk_tx true 4 SAPLING_VERSION_GROUP_ID [] [] 0 0 (-5) []
    [mk_output (replicate 32 1) (replicate 32 2) (replicate 32 3) (replicate 580 4) (replicate 80 5) (replicate 192 6)] []
    uint256_set_null (replicate 64 0) (replicate 64 7) uint256_set_null.

Lemma shielded_sample_wf : tx_wf shielded_sample.
Proof.
  split; try done; split; try done; try constructor; try constructor; try constructor; try (by apply bytes_check); try done.
  all: repeat (split; try done; try (by apply bytes_check)).
Qed.

Lemma contextual_check_spec_witness :
  exists s, contextual_check_transaction_verdict (mk_env (-1) false false) shielded_sample main_params 600000 10 validation_state_init =
    Some (s, CONTEXTUAL_CHECK_UNVERIFIABLE).
Proof.
  destruct (contextual_check_spec (mk_env (-1) false false) main_params 600000 10 shielded_sample validation_state_init) as (s & v & E & _ & U & _);
    [done|apply shielded_sample_wf|apply networks_ordered|lia|lia|done|done|].
  exists s. rewrite E. do 2 f_equal. apply U. split; [|split; [reflexivity|left; by intros [? _]]].
  split; [|intros _; reflexivity]. vm_compute. repeat split; discriminate.
Defined.
End Witness.
