(* ===== verification/CheckHeader.v ===== *)
(** * Header and block acceptance

    Model of the rest of [core/modules/validation/src/check_block.c]: the
    context-free header check, which takes the Equihash verifier from the crypto
    registry, [check_block], the contextual header check against the chain before
    the header, and the contextual block check over its transactions; and of the
    selection of the Equihash parameters in [core/chainparams/src/chainparams.c].

    The adjusted time is an argument, and so are the registry and the cached
    scheme pointer the header check reads. A [block_ptr] is a block index entry
    with its ancestors, the null pointer being []. *)

From Stdlib Require Import String.
From stdpp Require Import base tactics list numbers option gmap.
From Stdlib Require Import ZArith Lia.
From S2P Require Import Prelude Arith256 Serialize ByteOrder Params Pow Script Hash Blake2b OversizeTable Transaction.
From S2P Require Import Merkle TxCheck TxContext Block Equihash EquihashSpec CryptoRegistry CheckBlock Coinbase.
From S2P Require Import SigEncoding Sighash SighashSpec ContextualTx.
#[local] Open Scope Z_scope.
#[local] Open Scope list_scope.

(** What validation reads of [struct chain_params]. *)
Record chain_params := mk_chain_params {
  consensus : consensus_params; nEquihashN : Z; nEquihashK : Z; checkpointData : checkpoint_data }.

Definition MIN_BLOCK_VERSION : Z := 4.

(** The parameters of an epoch; [None] is a read outside the table. *)
Definition chain_params_equihash_n (p : chain_params) (height : Z) : option Z :=
  let? info := EquihashUpgradeInfo !! Z.to_nat (consensus_current_epoch height (consensus p)) in
  Some (if fst info =? EQUIHASH_DEFAULT_PARAMS then nEquihashN p else fst info).
Definition chain_params_equihash_k (p : chain_params) (height : Z) : option Z :=
  let? info := EquihashUpgradeInfo !! Z.to_nat (consensus_current_epoch height (consensus p)) in
  Some (if snd info =? EQUIHASH_DEFAULT_PARAMS then nEquihashK p else snd info).

Definition checkpoints_validate_header (data : checkpoint_data) (height : Z) (hash : uint256) : bool :=
  domain_consensus_checkpoints_validate_header (Some data) height (Some hash).

(** [REJECT_INVALID_IF(true, ...)], [REJECT_CHECKPOINT_IF(true, ...)],
    [REJECT_OBSOLETE_IF(true, ...)]. *)
Definition reject_invalid (reason : string) : vcheck := fun s => validation_state_invalid s false REJECT_INVALID reason.
Definition reject_checkpoint (dos : Z) (reason : string) : vcheck :=
  fun s => validation_state_dos s dos false REJECT_CHECKPOINT reason false.
Definition reject_obsolete (reason : string) : vcheck := fun s => validation_state_invalid s false REJECT_OBSOLETE reason.

(** ** The challenge bytes *)

Definition write_u32_le_buf (v : Z) : list Z :=
  [u8 (v .& 0xff); u8 ((v >> 8) .& 0xff); u8 ((v >> 16) .& 0xff); u8 ((v >> 24) .& 0xff)].
Definition write_i32_le_buf (v : Z) : list Z := write_u32_le_buf (u32 v).

Definition block_header_equihash_input (h : block_header) : option (list Z) :=
  let out := write_i32_le_buf (nVersion h) ++ hashPrevBlock h ++ hashMerkleRoot h ++ hashFinalSaplingRoot h ++
             write_u32_le_buf (nTime h) ++ write_u32_le_buf (nBits h) ++ nNonce h in
  if len out =? BLOCK_HEADER_SIZE then Some out else None.

Definition status_refused (s : crypto_scheme_status) : bool :=
  match s with CRYPTO_STATUS_RETIRED | CRYPTO_STATUS_UNREGISTERED => true | _ => false end.

(** The answer, whether an allocation failed, and the cached pointer afterwards.
    [None] is undefined behaviour, a call through the wrong member of the union or a
    read past the solution buffer among it. *)
Definition check_equihash_solution_via_registry (reg : registry) (cache : option crypto_scheme) (h : block_header) :
    option (bool * bool * option crypto_scheme) :=
  let scheme := match cache with Some s => Some s | None => crypto_registry_lookup CRYPTO_PROOF_EQUIHASH_200_9 reg end in
  match scheme with
  | None => Some (false, false, scheme)
  | Some s =>
      match sc_fn s with
      | FN_NULL => Some (false, false, scheme)
      | fn =>
          if status_refused (sc_status s) then Some (false, false, scheme)
          else
            match block_header_equihash_input h with
            | None => Some (false, false, scheme)
            | Some input =>
                match fn with
                | FN_ZK verify =>
                    let? proof := read_at (nSolution h) 0 (Z.to_nat (nSolutionSize h)) in
                    let? r := verify (Some input) (Some proof) in
                    Some (fst r, snd r, scheme)
                | _ => None
                end
            end
      end
  end.

Section Code.
Context `{Allocator} `{HostOrder} `{ShieldedVerifiers}.
Context (params : chain_params).

(** ** Without context *)

Section Free.
Context (reg : registry) (cache : option crypto_scheme) (now : Z).

(** The two checks [check_pow] turns on. *)
Definition check_header_pow (h : block_header) : vcheck := fun s =>
  let? r := check_equihash_solution_via_registry reg cache h in
  let '(solution_ok, alloc_failed, _) := r in
  if negb solution_ok && alloc_failed then reject_fatal "out-of-memory" s
  else if negb solution_ok then reject 100 "invalid-solution" false s
  else if negb (CheckProofOfWork (block_header_get_hash h) (nBits h) (Some (consensus params)))
  then reject 50 "high-hash" false s
  else Some (s, true).

Definition check_header_time (h : block_header) : vcheck := fun s =>
  let? limit := s64 (now + 2 * 60 * 60) in
  if limit <? block_header_get_time h then reject_invalid "time-too-new" s else Some (s, true).

Definition check_block_header (h : block_header) (check_pow : bool) : vcheck :=
  if nVersion h <? MIN_BLOCK_VERSION then reject 100 "version-too-low" false
  else vand (if check_pow then check_header_pow h else vpass) (check_header_time h).

Definition check_block (b : Block.block) (check_pow check_merkle_root check_size_limits : bool) : vcheck :=
  vand (check_block_header (header b) check_pow) (check_block_body b check_merkle_root check_size_limits).

End Free.

(** ** Against the chain before the header *)

(** [(size_t)1 << k] needs [k < 64]; the product wraps in 64 bits, and
    [n / (k + 1) + 1] in 32. *)
Definition expected_solution_size (n k : Z) : option Z :=
  if (k <? 0) || (64 <=? k) then None
  else Some (u64 ((1 << k) * u32 (n / (k + 1) + 1)) / 8).

Definition check_solution_size (h : block_header) (nHeight : Z) : vcheck := fun s =>
  if 0 <? nSolutionSize h then
    let? n := chain_params_equihash_n params nHeight in
    let? k := chain_params_equihash_k params nHeight in
    let? expected := expected_solution_size n k in
    if negb (nSolutionSize h =? expected) then reject 100 "bad-equihash-solution-size" false s else Some (s, true)
  else Some (s, true).

Definition check_header_bits (h : block_header) (prev : block_ptr) : vcheck := fun s =>
  let? expected_bits := GetNextWorkRequired prev (Some (block_header_get_time h)) (consensus params) in
  if negb (nBits h =? expected_bits) then reject 100 "bad-diffbits" false s else Some (s, true).

Definition contextual_check_block_header (h : block_header) (pindex_prev : block_ptr) (checkpoints_enabled : bool) : vcheck := fun s =>
  let hash := block_header_get_hash h in
  if uint256_eq hash (hashGenesisBlock (consensus params)) then Some (s, true)
  else
    match pindex_prev with
    | [] => reject_fatal "prev-block-index-null" s
    | prev :: _ =>
        let? nHeight := s32 (bi_nHeight prev + 1) in
        vand (check_solution_size h nHeight)
          (vand (check_header_bits h pindex_prev)
             (vand (if block_header_get_time h <=? block_index_get_median_time_past pindex_prev
                    then reject_invalid "time-too-old" else vpass)
                (vand (if checkpoints_enabled && negb (checkpoints_validate_header (checkpointData params) nHeight hash)
                       then reject_checkpoint 100 "bad-fork-at-checkpoint" else vpass)
                   (if nVersion h <? 4 then reject_obsolete "bad-version" else vpass)))) s
    end.

(** ** The transactions of a block *)

Context (env : verify_env).

Fixpoint fall {A} (f : A -> fcheck) (l : list A) : fcheck :=
  match l with [] => no_fault vpass | x :: l => fand (f x) (fall f l) end.

(** The verdict on one transaction, with [local_fault] as the loop sets it. *)
Definition contextual_check_tx_in_block (tx : transaction) (nHeight : Z) : fcheck := fun s =>
  let? r := contextual_check_transaction_verdict env tx (consensus params) nHeight 100 s in
  let '(s, v) := r in
  Some (s, match v with CONTEXTUAL_CHECK_PASS => true | _ => false end,
        match v with CONTEXTUAL_CHECK_UNVERIFIABLE => true | _ => false end).

Definition contextual_check_block_impl (b : Block.block) (pindex_prev : block_ptr) (is_ibd : bool) : fcheck := fun s =>
  let? nHeight := match pindex_prev with [] => Some 0 | prev :: _ => s32 (bi_nHeight prev + 1) end in
  fand (fall (fun tx =>
      fand (if is_ibd then no_fault vpass else contextual_check_tx_in_block tx nHeight)
        (no_fault (if domain_consensus_tx_is_final (Some tx) nHeight (block_header_get_time (header b)) then vpass
                   else reject 10 "bad-txns-nonfinal" false))) (vtx b))
    (if 0 <? nHeight then fun s =>
       let? coinbase := vtx b !! 0%nat in
       no_fault (if bip34_check_coinbase_height coinbase nHeight then vpass else reject 100 "bad-cb-height" false) s
     else no_fault vpass) s.

Definition contextual_check_block_verdict (b : Block.block) (pindex_prev : block_ptr) (is_ibd : bool) (s : validation_state) :
    option (validation_state * contextual_check_verdict) :=
  let? r := contextual_check_block_impl b pindex_prev is_ibd s in
  let '(s, ok, local_fault) := r in
  Some (s, if ok : bool then CONTEXTUAL_CHECK_PASS
           else if local_fault : bool then CONTEXTUAL_CHECK_UNVERIFIABLE else CONTEXTUAL_CHECK_REJECT).

Definition contextual_check_block (b : Block.block) (pindex_prev : block_ptr) (is_ibd : bool) : vcheck := fun s =>
  let? r := contextual_check_block_verdict b pindex_prev is_ibd s in
  Some (fst r, match snd r with CONTEXTUAL_CHECK_PASS => true | _ => false end).

End Code.

(** ** What an accepted header satisfies *)

(** The parameters of a height: those of the chain until Bubbles or a later
    upgrade is active. *)
Definition equihash_nk (p : chain_params) (height : Z) : Z * Z :=
  if existsb (dcu_is_active height (consensus p)) [UPGRADE_BUBBLES; UPGRADE_DIFFADJ; UPGRADE_BUTTERCUP]
  then (192, 7) else (nEquihashN p, nEquihashK p).

(** The pairs the consensus knows, by their solution sizes. *)
Definition known_nk (nk : Z * Z) : Prop := nk ∈ [(200, 9); (192, 7); (96, 5); (48, 5)].

Record chain_sane (p : chain_params) : Prop := {
  cs_pow : pow_params_sane (consensus p);
  cs_genesis : length (hashGenesisBlock (consensus p)) = 32%nat;
  cs_nk : known_nk (nEquihashN p, nEquihashK p) }.

(** The solution's indices solve the generalised birthday problem with (N, K) for
    the bytes of the header. *)
Definition solves (h : block_header) (nk : Z * Z) : Prop :=
  let N := Z.to_nat (fst nk) in let K := Z.to_nat (snd nk) in
  equihash_solution_params (Z.to_nat (nSolutionSize h)) = Some (N, K) /\
  exists ep, equihash_params_init N K = Some ep /\
    equihash_valid ep K (N / (K + 1)) (pow_initial ep) (header_challenge h) (solution_indices K (N / (K + 1)) (solution h)).

Section HeaderSpec.
Context `{HostOrder} (p : chain_params).

(** The hash, as a little-endian number, is at most the target of the difficulty
    word, which is itself no easier than the limit. *)
Definition meets_target (h : block_header) : Prop :=
  exists t, usable_target (nBits h) = Some t /\ t <= digits_val 8 (powLimit (consensus p)) /\
    digits_val 8 (hash256 (block_header_enc h)) <= t.

Record header_valid (now : Z) (h : block_header) : Prop := {
  hv_version : MIN_BLOCK_VERSION <= nVersion h;
  hv_solution : exists nk, known_nk nk /\ solves h nk;
  hv_target : meets_target h;
  hv_time : nTime h <= now + 7200 }.

Record header_in_context (checkpoints : bool) (prev : block_ptr) (height : Z) (h : block_header) : Prop := {
  hc_size : 0 < nSolutionSize h ->
    let '(n, k) := equihash_nk p height in nSolutionSize h = 2 ^ k * (n / (k + 1) + 1) / 8;
  hc_bits : GetNextWorkRequired prev (Some (nTime h)) (consensus p) = Some (nBits h);
  hc_time : block_index_get_median_time_past prev < nTime h;
  hc_checkpoint : checkpoints = true -> forall x,
    domain_consensus_checkpoints_hash_at_height (Some (checkpointData p)) height true = Some x ->
    hash256 (block_header_enc h) = x;
  hc_version : 4 <= nVersion h }.

End HeaderSpec.

(** A check of one condition. *)
Lemma judges_guard (b : bool) (m : vcheck) (P : Prop) : judges m False -> (b = true <-> ~ P) -> (b = false -> P) ->
  judges (if b then m else vpass) P.
Proof.
  intros Hm Hb Hf. destruct b; [eapply judges_iff; [exact Hm|]; tauto|eapply judges_iff; [apply judges_pass|]]. by split; [intros _; apply Hf|].
Qed.

Lemma judges_reject_code d code reason : 0 <= d <= 100 -> judges (fun s => validation_state_dos s d false code reason false) False.
Proof.
  intros Hd s Hs H0. right. split; [|tauto]. unfold validation_state_dos. rewrite Hs, H0, s32_ok by lia.
  eexists. split; [reflexivity|]. cbn. split; [done|lia].
Qed.

(** A check that computes a value first. *)
Lemma judges_let {A} (m : option A) (k : A -> vcheck) a P : m = Some a -> judges (k a) P -> judges (fun s => let? x := m in k x s) P.
Proof. intros ->. done. Qed.

Lemma existsb_active h c i : dcu_is_active h c i = true -> i = UPGRADE_BUBBLES \/ i = UPGRADE_DIFFADJ \/ i = UPGRADE_BUTTERCUP ->
  existsb (dcu_is_active h c) [UPGRADE_BUBBLES; UPGRADE_DIFFADJ; UPGRADE_BUTTERCUP] = true.
Proof. intros Ha Hi. apply existsb_exists. exists i. split; [|done]. destruct Hi as [->|[->| ->]]; cbn; auto. Qed.

(** The table gives the parameters of the height. *)
Lemma chain_equihash p height : 0 <= height ->
  chain_params_equihash_n p height = Some (fst (equihash_nk p height)) /\
  chain_params_equihash_k p height = Some (snd (equihash_nk p height)).
Proof.
  intros Hh. unfold chain_params_equihash_n, chain_params_equihash_k, equihash_nk, consensus_current_epoch, domain_consensus_current_epoch, dcu_guard.
  cbn [negb]. rewrite (proj2 (Z.ltb_ge height 0)) by lia.
  pose proof (current_epoch_loop_spec (Z.to_nat MAX_NETWORK_UPGRADES) height (consensus p)) as (E0 & E1 & E2).
  set (e := current_epoch_loop _ _ _) in *. change (Z.of_nat (Z.to_nat MAX_NETWORK_UPGRADES)) with 7 in *.
  destruct (Z.le_gt_cases 4 e) as [H4|H4].
  - destruct E1 as [E1|[E1 Ea]]; [unfold BASE_SPROUT in E1; lia|].
    assert (e = 4 \/ e = 5 \/ e = 6) as He by lia. rewrite (existsb_active _ _ _ Ea He). by destruct He as [->|[->| ->]].
  - assert (existsb (dcu_is_active height (consensus p)) [UPGRADE_BUBBLES; UPGRADE_DIFFADJ; UPGRADE_BUTTERCUP] = false) as ->.
    { cbn [existsb]. rewrite !E2; [done|unfold UPGRADE_BUTTERCUP, UPGRADE_DIFFADJ, UPGRADE_BUBBLES; lia..]. }
    assert (e = 0 \/ e = 1 \/ e = 2 \/ e = 3) as [->|[->|[->| ->]]] by lia; done.
Qed.

(** Each known pair: the size formula evaluates, and the size selects the pair. *)
Lemma known_size nk : known_nk nk ->
  expected_solution_size (fst nk) (snd nk) = Some (2 ^ snd nk * (fst nk / (snd nk + 1) + 1) / 8) /\
  equihash_solution_params (Z.to_nat (2 ^ snd nk * (fst nk / (snd nk + 1) + 1) / 8)) = Some (Z.to_nat (fst nk), Z.to_nat (snd nk)).
Proof. unfold known_nk. rewrite !elem_of_cons. by intros [->|[->|[->|[->|E]]]]; [..|apply elem_of_nil in E]. Qed.

Lemma size_known n N K : equihash_solution_params n = Some (N, K) ->
  known_nk (Z.of_nat N, Z.of_nat K).
Proof.
  unfold equihash_solution_params, known_nk. rewrite !elem_of_cons. intros E.
  repeat (destruct (_ =? _)%nat in E; [injection E as <- <-; tauto|]). done.
Qed.

Lemma equihash_nk_known p height : chain_sane p -> known_nk (equihash_nk p height).
Proof. intros S. unfold equihash_nk. case_match; [|apply S]. unfold known_nk. rewrite !elem_of_cons. tauto. Qed.

Section Judged.
Context `{Allocator} (M : memory_ok) (p : chain_params) (S : chain_sane p).
#[local] Existing Instance little_endian_host.

Lemma check_proof_of_work_iff hash n_bits : wf_uint256 hash -> in_u 32 n_bits ->
  CheckProofOfWork hash n_bits (Some (consensus p)) = true <->
  exists t, usable_target n_bits = Some t /\ t <= digits_val 8 (powLimit (consensus p)) /\ digits_val 8 hash <= t.
Proof.
  intros Wh Wb. unfold CheckProofOfWork. rewrite verify_pow_solution_spec by (done || apply S).
  destruct (usable_target n_bits) as [t|]; [|by split; [|intros (? & ? & _)]].
  destruct (Z.ltb_spec (digits_val 8 (powLimit (consensus p))) t); [split; [done|intros (? & [= <-] & ? & _); lia]|].
  destruct (Z.ltb_spec t (digits_val 8 hash)); [split; [done|intros (? & [= <-] & _ & ?); lia]|].
  split; [|done]. by exists t.
Qed.

Lemma equihash_input_spec h : header_wf h -> block_header_equihash_input h = Some (header_challenge h).
Proof.
  intros W. unfold block_header_equihash_input, write_i32_le_buf. rewrite !(le32_into_bytes : forall v, write_u32_le_buf v = _).
  fold (header_challenge h). destruct (challenge_fields h W) as (-> & _). by rewrite Z.eqb_refl.
Qed.

(** The cache is empty or holds what the registry holds. *)
Definition coherent (reg : registry) (cache : option crypto_scheme) : Prop :=
  crypto_registry_lookup CRYPTO_PROOF_EQUIHASH_200_9 reg = Some g_equihash_scheme /\
  (cache = None \/ cache = Some g_equihash_scheme).

(** Through the registry: the sealed predicate, and a filled cache. *)
Lemma via_registry_run reg cache h : coherent reg cache -> header_wf h ->
  exists ok, check_equihash_solution_via_registry reg cache h = Some (ok, false, Some g_equihash_scheme) /\
    (ok = true <-> exists nk, known_nk nk /\ solves h nk).
Proof.
  intros [Hr Hc] W. unfold check_equihash_solution_via_registry. rewrite Hr.
  assert (match cache with Some s => Some s | None => Some g_equihash_scheme end = Some g_equihash_scheme) as -> by (by destruct Hc as [->| ->]).
  cbn [sc_fn sc_status g_equihash_scheme status_refused]. rewrite equihash_input_spec by done.
  destruct (solution_read h W) as (-> & _). rewrite registry_delegates by done. unfold check_equihash_solution.
  destruct (equihash_solution_params (Z.to_nat (nSolutionSize h))) as [[N K]|] eqn:E.
  - destruct (verify_equihash_run M h N K W E) as (ep & ok & Ep & -> & Hok). exists ok. split; [done|]. rewrite Hok. split.
    + intros V. exists (Z.of_nat N, Z.of_nat K). split; [by eapply size_known|]. unfold solves. cbn [fst snd]. rewrite !Nat2Z.id. split; [done|]. by exists ep.
    + intros ([n k] & _ & Hs & ep' & Ep' & V). cbn [fst snd] in *. rewrite E in Hs. injection Hs as -> ->. rewrite Ep in Ep'. injection Ep' as <-. done.
  - exists false. unfold domain_consensus_verify_equihash_solution. rewrite E. split; [done|]. split; [done|]. intros (nk & _ & Hs & _). congruence.
Qed.

Lemma header_enc_bytes h : header_wf h -> bytes (block_header_enc h).
Proof.
  intros W. destruct (solution_arr h W) as [Bs _]. destruct W as [Wv [Bp _] [Br _] [Bf _] _ _ [Bn _] _ Hs]. unfold block_header_enc, compact_size_enc.
  repeat (apply Forall_app; split); try done; try (by apply digits_of_digits).
  destruct (Z.ltb_spec (nSolutionSize h) 253); [constructor; [split; lia|constructor]|].
  repeat case_match; (apply Forall_cons_iff; split; [by split|by apply digits_of_digits]).
Qed.

Lemma header_enc_hash h : header_wf h -> wf_uint256 (hash256 (block_header_enc h)).
Proof.
  intros W. pose proof (block_header_enc_len h W) as Hl. unfold len, BLOCK_HEADER_MAX_SERIALIZED, BLOCK_HEADER_SIZE, MAX_SOLUTION_SIZE in Hl.
  pose proof (header_enc_bytes h W) as Hb. split; [apply hash256_length|]. rewrite hash256_spec by (done || lia).
  destruct (reference_digests _ Hb) as ((_ & B) & _). by destruct (reference_digests _ B) as ((_ & ?) & _).
Qed.

Lemma check_header_pow_judges reg cache h : coherent reg cache -> header_wf h ->
  judges (check_header_pow p reg cache h) ((exists nk, known_nk nk /\ solves h nk) /\ meets_target p h).
Proof.
  intros C W. destruct (via_registry_run reg cache h C W) as (ok & E & Hok). unfold check_header_pow. eapply judges_let; [exact E|]. cbn [andb].
  rewrite andb_false_r. rewrite header_hash_spec by done.
  pose proof (check_proof_of_work_iff (hash256 (block_header_enc h)) (nBits h) (header_enc_hash h W) (wf_bits h W)) as Hp.
  fold (meets_target p h) in Hp. rewrite <- Hok, <- Hp. destruct ok; cbn [negb]; [|eapply judges_iff; [apply judges_reject; lia|by split; [|intros []]]].
  destruct (CheckProofOfWork _ _ _); cbn [negb]; [by eapply judges_iff; [apply judges_pass|]|].
  eapply judges_iff; [apply judges_reject; lia|by split; [|intros []]].
Qed.

Lemma check_header_time_judges now h : - 2 ^ 63 <= now < 2 ^ 63 - 7200 -> judges (check_header_time now h) (nTime h <= now + 7200).
Proof.
  intros Hn. unfold check_header_time. eapply judges_let; [apply s64_ok; lia|]. unfold block_header_get_time.
  destruct (Z.ltb_spec (now + 2 * 60 * 60) (nTime h)).
  - eapply judges_iff; [apply judges_reject_code; lia|lia].
  - eapply judges_iff; [apply judges_pass|split; [lia|done]].
Qed.

Lemma check_block_header_judges reg cache now h check_pow : coherent reg cache -> header_wf h -> - 2 ^ 63 <= now < 2 ^ 63 - 7200 ->
  judges (check_block_header p reg cache now h check_pow)
    (if check_pow then header_valid p now h else MIN_BLOCK_VERSION <= nVersion h /\ nTime h <= now + 7200).
Proof.
  intros C W Hn. unfold check_block_header. destruct (Z.ltb_spec (nVersion h) MIN_BLOCK_VERSION).
  - eapply judges_iff; [apply judges_reject; lia|]. split; [done|]. destruct check_pow; [intros [? _ _ _]; lia|intros [? _]; lia].
  - destruct check_pow.
    + eapply judges_iff; [apply judges_and; [by apply check_header_pow_judges|intros _; by apply check_header_time_judges]|].
      split; [intros [[? ?] ?]; by split|]. intros [? ? ? ?]. done.
    + eapply judges_iff; [apply judges_and; [apply judges_pass|intros _; by apply check_header_time_judges]|]. tauto.
Qed.

Lemma check_solution_size_judges h height : 0 <= height ->
  judges (check_solution_size p h height)
    (0 < nSolutionSize h -> let '(n, k) := equihash_nk p height in nSolutionSize h = 2 ^ k * (n / (k + 1) + 1) / 8).
Proof.
  intros Hh. unfold check_solution_size. destruct (Z.ltb_spec 0 (nSolutionSize h)) as [Hp|Hp]; [|eapply judges_iff; [apply judges_pass|split; [lia|done]]].
  destruct (chain_equihash p height Hh) as [-> ->]. pose proof (known_size _ (equihash_nk_known p height S)) as [Es _].
  destruct (equihash_nk p height) as [n k]. cbn [fst snd] in *. rewrite Es.
  destruct (Z.eqb_spec (nSolutionSize h) (2 ^ k * (n / (k + 1) + 1) / 8)); cbn [negb].
  - eapply judges_iff; [apply judges_pass|tauto].
  - eapply judges_iff; [apply judges_reject; lia|tauto].
Qed.

Lemma check_header_bits_judges h prev : block_ptr_wf prev ->
  judges (check_header_bits p h prev) (GetNextWorkRequired prev (Some (nTime h)) (consensus p) = Some (nBits h)).
Proof.
  intros Wp. destruct (next_work_required_within_limit (consensus p) prev (Some (nTime h)) (cs_pow p S) Wp) as (bits & E & _).
  unfold check_header_bits, block_header_get_time. eapply judges_let; [exact E|]. rewrite E.
  destruct (Z.eqb_spec (nBits h) bits) as [->|Hne]; cbn [negb].
  - by eapply judges_iff; [apply judges_pass|].
  - eapply judges_iff; [apply judges_reject; lia|]. split; [done|]. congruence.
Qed.

Lemma checkpoint_agrees height hash : checkpoints_validate_header (checkpointData p) height hash = true <->
  forall x, domain_consensus_checkpoints_hash_at_height (Some (checkpointData p)) height true = Some x -> hash = x.
Proof.
  unfold checkpoints_validate_header, domain_consensus_checkpoints_validate_header.
  destruct (domain_consensus_checkpoints_hash_at_height _ _ _) as [e|]; [|done]. rewrite bool_decide_eq_true.
  split; [by intros -> x [= <-]|auto].
Qed.

Lemma contextual_header_judges h prev b checkpoints : header_wf h -> hash256 (block_header_enc h) <> hashGenesisBlock (consensus p) ->
  block_ptr_wf (b :: prev) ->
  judges (contextual_check_block_header p h (b :: prev) checkpoints) (header_in_context p checkpoints (b :: prev) (bi_nHeight b + 1) h).
Proof.
  intros W Hg Wp. pose proof Wp as Wb. apply Forall_cons_iff in Wb as [(_ & _ & Hb) _]. unfold contextual_check_block_header.
  rewrite header_hash_spec by done. destruct (uint256_eq _ _) eqn:Eg; [apply uint256_eq_true in Eg; [done|by rewrite hash256_length, (cs_genesis p S)]|].
  eapply judges_let; [apply s32_ok; lia|]. set (height := bi_nHeight b + 1).
  eapply judges_iff.
  - apply judges_and; [apply check_solution_size_judges; lia|intros _]. apply judges_and; [by apply check_header_bits_judges|intros _].
    apply judges_and; [|intros _; apply judges_and; [|intros _]].
    + apply (judges_guard _ _ (block_index_get_median_time_past (b :: prev) < nTime h)); unfold block_header_get_time;
        [apply judges_reject_code; lia|rewrite Z.leb_le; lia|rewrite Z.leb_gt; lia].
    + apply (judges_guard _ _ (checkpoints = true -> checkpoints_validate_header (checkpointData p) height (hash256 (block_header_enc h)) = true));
        [apply judges_reject_code; lia|..]; destruct checkpoints; cbn [andb]; destruct (checkpoints_validate_header _ _ _); cbn [negb]; 
        first [done | by split; [|tauto] | idtac].
      all: split; [|done]. all: intros _ E; by specialize (E eq_refl).
    + apply (judges_guard _ _ (4 <= nVersion h)); [apply judges_reject_code; lia|rewrite Z.ltb_lt; lia|rewrite Z.ltb_ge; lia].
  - rewrite checkpoint_agrees. split; [intros (? & ? & ? & ? & ?); by split|]. by intros [? ? ? ? ?].
Qed.

Lemma solves_in_context h prev height checkpoints now :
  header_valid p now h -> header_in_context p checkpoints prev height h -> solves h (equihash_nk p height).
Proof.
  intros [_ ([n k] & _ & Hs) _ _] [Hc _ _ _ _]. pose proof (known_size _ (equihash_nk_known p height S)) as [_ Es].
  destruct (equihash_nk p height) as [n' k']. cbn [fst snd] in *. destruct Hs as [E V]. cbn [fst snd] in *.
  destruct (Z.le_gt_cases (nSolutionSize h) 0) as [H0|H0]; [by rewrite (Z2Nat.nonpos _ H0) in E|].
  specialize (Hc H0). cbn iota in Hc. rewrite <- Hc in Es. rewrite Es in E.
  assert (Z.to_nat n' = Z.to_nat n /\ Z.to_nat k' = Z.to_nat k) as [En Ek] by (by injection E). unfold solves. cbn [fst snd]. by rewrite En, Ek in *.
Qed.

End Judged.

#[local] Existing Instance little_endian_host.

(** C8: header acceptance. On a little-endian host with memory, with the node's Equihash
    scheme in the registry, for every well-formed header: the context-free check is
    defined and accepts exactly the headers with version at least 4, a solution that
    solves Equihash for one of the known parameter pairs, a hash at most the target of the
    difficulty word (itself no easier than the limit), and a time at most two hours ahead;
    without the proof-of-work flag exactly version and time are checked. The check against
    the chain passes the genesis header; is a fatal error, and no verdict, when the
    parent is unknown; and otherwise accepts exactly the headers with the solution size of
    their height, the difficulty the chain demands, a time after the median of the last
    eleven, the hash of a checkpoint at their height if there is one, and version 4. The
    first check chooses Equihash parameters by the size of the solution, not by height;
    the two together make the solution one for the parameters of the header's height. *)
Theorem header_checks_spec `{Allocator} (p : chain_params) (reg : registry) (cache : option crypto_scheme) (now : Z) (h : block_header) :
  memory_ok -> chain_sane p -> coherent reg cache -> - 2 ^ 63 <= now < 2 ^ 63 - 7200 -> header_wf h ->
  judges (check_block_header p reg cache now h true) (header_valid p now h) /\
  judges (check_block_header p reg cache now h false) (MIN_BLOCK_VERSION <= nVersion h /\ nTime h <= now + 7200) /\
  (forall prev checkpoints, hash256 (block_header_enc h) = hashGenesisBlock (consensus p) ->
     judges (contextual_check_block_header p h prev checkpoints) True) /\
  (forall checkpoints s, hash256 (block_header_enc h) <> hashGenesisBlock (consensus p) ->
     contextual_check_block_header p h [] checkpoints s = Some (validation_state_error s "prev-block-index-null")) /\
  (forall b prev checkpoints, block_ptr_wf (b :: prev) -> hash256 (block_header_enc h) <> hashGenesisBlock (consensus p) ->
     judges (contextual_check_block_header p h (b :: prev) checkpoints) (header_in_context p checkpoints (b :: prev) (bi_nHeight b + 1) h)) /\
  (forall prev height checkpoints, header_valid p now h -> header_in_context p checkpoints prev height h -> solves h (equihash_nk p height)).
Proof.
  intros M S C Hn W.
  pose proof (header_hash_spec h W) as Eh.
  assert (uint256_eq (hash256 (block_header_enc h)) (hashGenesisBlock (consensus p)) = true <-> hash256 (block_header_enc h) = hashGenesisBlock (consensus p)) as Eg
    by (apply uint256_eq_true; by rewrite hash256_length, (cs_genesis p S)).
  split; [by apply (check_block_header_judges M p S reg cache now h true)|]. split; [by apply (check_block_header_judges M p S reg cache now h false)|].
  split_and!.
  - intros prev c Hg s _ _. left. unfold contextual_check_block_header. by rewrite Eh, (proj2 Eg Hg).
  - intros c s Hg. unfold contextual_check_block_header. rewrite Eh. destruct (uint256_eq _ _) eqn:E; [by destruct Hg; apply Eg|done].
  - intros. by apply contextual_header_judges.
  - intros. by eapply solves_in_context.
Qed.

Section HeaderWitness.
#[local] Instance header_alloc : Allocator := fun _ => true.

(** The regression-test chain, whose parameters the sample header was mined for. *)
Definition regtest_chain : chain_params := mk_chain_params regtest_params 48 5 [].

Lemma regtest_chain_sane : chain_sane regtest_chain.
Proof.
  split; [|done|by apply (bool_decide_eq_true_1 (known_nk _))].
  split; [split; [done|by apply digits_of_digits]|]. vm_compute. repeat split; congruence.
Qed.

(** A block mined for it, on a block at height 0. *)
Definition mined_header : block_header :=
  mk_header 4 (replicate 32 0) (hash256 (tx_enc sample_coinbase)) (replicate 32 0) 1478403829 0x200f0f0f (109 :: replicate 31 0)
    ([0; 0; 80; 209; 184; 111; 139; 167; 232; 15; 88; 148; 82; 54; 119; 81; 181; 62; 4; 135; 77; 214; 131; 106; 34; 77; 221; 52;
      58; 43; 22; 167; 207; 167; 193; 246] ++ replicate 1308 0) 36.
Definition mined_block : Block.block := mk_block mined_header [with_hash sample_coinbase (hash256 (tx_enc sample_coinbase))].
Definition parent : block_ptr :=
  [{| bi_nChainWork := arith_uint256_set_zero; bi_nHeight := 0; bi_nTime := 1478403000; bi_nBits := 0x200f0f0f |}].
Definition node_registry : registry := register_all [g_equihash_scheme] empty_registry.

Example mined_accepted :
  check_block_header regtest_chain node_registry None 1478403000 mined_header true validation_state_init = Some (validation_state_init, true) /\
  contextual_check_block_header regtest_chain mined_header parent true validation_state_init = Some (validation_state_init, true).
Proof. split; vm_compute; reflexivity. Qed.

Lemma parent_wf : block_ptr_wf parent.
Proof. constructor; [|constructor]. cbn. unfold in_u. lia. Qed.

Lemma mined_not_genesis : hash256 (block_header_enc mined_header) <> hashGenesisBlock (consensus regtest_chain).
Proof. apply (bool_decide_eq_true_1 (_ <> _)). vm_compute. reflexivity. Qed.

Lemma judges_passed m P s : judges m P -> mode s = MODE_VALID -> st_dos s = 0 -> m s = Some (s, true) -> P.
Proof. intros J Hm Hd E. destruct (J s Hm Hd) as [[_ HP]|[(s' & E' & _) _]]; [exact HP|congruence]. Qed.

Lemma header_checks_spec_witness : solves mined_header (48, 5).
Proof.
  destruct (header_checks_spec regtest_chain node_registry None 1478403000 mined_header) as (J1 & _ & _ & _ & J2 & C).
  - intros n. reflexivity.
  - apply regtest_chain_sane.
  - split; [reflexivity|by left].
  - lia.
  - repeat (split || apply bytes_check || done).
  - destruct mined_accepted as [E1 E2]. apply (C parent 1 true).
    + exact (judges_passed _ _ validation_state_init J1 eq_refl eq_refl E1).
    + exact (judges_passed _ _ validation_state_init (J2 _ [] true parent_wf mined_not_genesis) eq_refl eq_refl E2).
Defined.
End HeaderWitness.

(** ** What an accepted block satisfies *)

Section BlockSpec.
Context `{ShieldedVerifiers} (env : verify_env) (p : consensus_params) (height : Z).

(** The rules of a transaction at the height, and the case in which the node cannot
    apply them. *)
Definition tx_in_context (tx : transaction) : Prop :=
  (epoch_valid p height tx /\ unexpired p height tx) /\
  (proofs_are_in_scope env tx height = true -> keys_available env tx /\ shielded_valid p height tx).
Definition tx_uncheckable (tx : transaction) : Prop :=
  (epoch_valid p height tx /\ unexpired p height tx) /\ proofs_are_in_scope env tx height = true /\
  (~ keys_available env tx \/
   (keys_available env tx /\ joinsplit_signed tx (shielded_hash p height tx) /\ has_sapling tx /\ sapling_verification_ctx_init = None)).

Definition tx_accepted (is_ibd : bool) (time : Z) (tx : transaction) : Prop :=
  (is_ibd = false -> tx_in_context tx) /\ domain_consensus_tx_is_final (Some tx) height time = true.

(** The first input's script of the first transaction starts with the height. *)
Definition coinbase_commits (b : Block.block) : Prop :=
  0 < height -> exists cb rest i ins, vtx b = cb :: rest /\ vin cb = i :: ins /\ script_sig i <> [] /\ commits (script_sig i) height.

End BlockSpec.

Lemma fjudges_all {A} (f : A -> fcheck) (P F : A -> Prop) l : Forall (fun x => fjudges (f x) (P x) (F x)) l ->
  fjudges (fall f l) (Forall P l) (exists l1 x l2, l = l1 ++ x :: l2 /\ Forall P l1 /\ F x).
Proof.
  induction 1 as [|x l Hx Hl IH]; cbn [fall].
  - eapply fjudges_iff; [apply fjudges_no_fault, judges_pass|by split|]. split; [done|]. by intros ([|] & ? & ? & ? & _).
  - eapply fjudges_iff; [by apply fjudges_and; [exact Hx|intros _; exact IH]|by rewrite Forall_cons_iff|]. split.
    + intros [HF|[HP (l1 & y & l2 & -> & ? & ?)]]; [by exists [], x, l|]. exists (x :: l1), y, l2. split_and!; [done|by constructor|done].
    + intros ([|z l1] & y & l2 & E & H1 & H2); injection E as -> ->; [by left|]. apply Forall_cons_iff in H1 as [? ?]. right. split; [done|]. by exists l1, y, l2.
Qed.

Lemma coinbase_commits_iff cb height : 0 < height ->
  bip34_check_coinbase_height cb height = true <-> exists i ins, vin cb = i :: ins /\ script_sig i <> [] /\ commits (script_sig i) height.
Proof.
  intros Hh. destruct (vin cb) as [|i ins] eqn:E.
  - unfold bip34_check_coinbase_height. rewrite E. split; [done|]. by intros (? & ? & ? & _).
  - rewrite (bip34_commits cb i ins height E Hh). split; [intros ?; by exists i, ins|]. by intros (? & ? & [= <- <-] & ?).
Qed.

Section BlockJudged.
Context `{Allocator} `{ShieldedVerifiers} (M : memory_ok) (env : verify_env) (p : chain_params) (height : Z).
Context (Ho : epochs_ordered (consensus p)) (Hh : 0 <= height < 2 ^ 31).

Lemma tx_in_block_judges tx : tx_wf tx ->
  fjudges (contextual_check_tx_in_block p env tx height) (tx_in_context env (consensus p) height tx) (tx_uncheckable env (consensus p) height tx).
Proof.
  intros W. destruct (impl_judges M env (consensus p) height 100 tx W Ho Hh ltac:(lia)) as [X Hm]. split; [exact X|]. intros s Hs H0'.
  unfold contextual_check_tx_in_block, contextual_check_transaction_verdict.
  destruct (Hm s Hs H0') as [[-> HP]|[[(s' & -> & HI) HF]|[(s' & -> & HI) HF]]]; [by left|right; left|right; right]; (split; [by exists s'|exact HF]).
Qed.

Lemma tx_accepted_judges (is_ibd : bool) time tx : tx_wf tx ->
  fjudges (fand (if is_ibd then no_fault vpass else contextual_check_tx_in_block p env tx height)
      (no_fault (if domain_consensus_tx_is_final (Some tx) height time then vpass else reject 10 "bad-txns-nonfinal" false)))
    (tx_accepted env (consensus p) height is_ibd time tx) (is_ibd = false /\ tx_uncheckable env (consensus p) height tx).
Proof.
  intros W. unfold tx_accepted.
  assert (judges (if domain_consensus_tx_is_final (Some tx) height time then vpass else reject 10 "bad-txns-nonfinal" false)
    (domain_consensus_tx_is_final (Some tx) height time = true)) as Jf.
  { destruct (domain_consensus_tx_is_final _ _ _); [by eapply judges_iff; [apply judges_pass|]|by eapply judges_iff; [apply judges_reject; lia|]]. }
  destruct is_ibd.
  - eapply fjudges_iff; [apply fjudges_and; [apply fjudges_no_fault, judges_pass|intros _; by apply fjudges_no_fault]|..];
      [by split; [intros [_ ?]|intros [_ ?]]|].
    split; [tauto|by intros []].
  - eapply fjudges_iff; [apply fjudges_and; [by apply tx_in_block_judges|intros _; by apply fjudges_no_fault]|..]; [|tauto].
    split; [tauto|]. intros [Hc ?]. split; [by apply Hc|done].
Qed.

Lemma block_judges b pindex_prev is_ibd :
  match pindex_prev with [] => Some 0 | prev :: _ => s32 (bi_nHeight prev + 1) end = Some height ->
  Forall tx_wf (vtx b) -> vtx b <> [] ->
  fjudges (contextual_check_block_impl p env b pindex_prev is_ibd)
    (Forall (tx_accepted env (consensus p) height is_ibd (nTime (header b))) (vtx b) /\ coinbase_commits height b)
    (exists l1 tx l2, vtx b = l1 ++ tx :: l2 /\ Forall (tx_accepted env (consensus p) height is_ibd (nTime (header b))) l1 /\
       is_ibd = false /\ tx_uncheckable env (consensus p) height tx).
Proof.
  intros Eh W Hne. unfold contextual_check_block_impl. rewrite Eh. destruct (vtx b) as [|cb rest] eqn:Ev; [done|].
  eapply fjudges_iff.
  - apply fjudges_and.
    + apply fjudges_all. eapply Forall_impl; [exact W|]. intros tx Wt. by apply tx_accepted_judges.
    + intros _. instantiate (1 := False). instantiate (1 := coinbase_commits height b). unfold coinbase_commits. rewrite Ev. cbn [lookup list_lookup].
      destruct (Z.ltb_spec 0 height) as [H0'|H0'].
      * apply fjudges_no_fault. pose proof (coinbase_commits_iff cb height H0') as Hc.
        assert ((0 < height -> exists cb' rest' i ins, cb :: rest = cb' :: rest' /\ vin cb' = i :: ins /\ script_sig i <> [] /\ commits (script_sig i) height) <->
          bip34_check_coinbase_height cb height = true) as ->.
        { rewrite Hc. split; [intros E; destruct (E H0') as (? & ? & i & ins & [= <- <-] & ?); by exists i, ins|]. intros (i & ins & ?) _. by exists cb, rest, i, ins. }
        destruct (bip34_check_coinbase_height cb height); [by eapply judges_iff; [apply judges_pass|]|by eapply judges_iff; [apply judges_reject; lia|]].
      * eapply fjudges_iff; [apply fjudges_no_fault, judges_pass|split; [lia|done]|done].
  - done.
  - tauto.
Qed.
End BlockJudged.

(** The height after the parent, in 32 bits. *)
Lemma next_height (prev : block_ptr) : block_ptr_wf prev ->
  let height := match prev with [] => 0 | q :: _ => bi_nHeight q + 1 end in
  0 <= height < 2 ^ 31 /\ match prev with [] => Some 0 | q :: _ => s32 (bi_nHeight q + 1) end = Some height.
Proof. destruct prev as [|q l]; [done|]. intros Wp. apply Forall_cons_iff in Wp as [(_ & _ & Hq) _]. split; [lia|]. apply s32_ok. lia. Qed.

(** C25: block acceptance in context. On a little-endian host with memory, for a block of
    well-formed transactions with at least one of them, at the height after its parent (0
    without one): the verdict is defined; it is a pass, leaving the state alone, exactly
    when every transaction is final at the height and the block's own time and, outside
    the initial download, satisfies the rules of the height, and the first input of the
    first transaction commits to the height; it is "could not check" exactly when all
    transactions before some transaction are accepted and that one has proofs the node
    cannot verify; in every other case, as in that one, the state is marked invalid with a
    score of at most 100. A block without transactions, which the context-free check
    refuses, would be read out of bounds here. *)
Theorem contextual_block_spec `{Allocator} `{ShieldedVerifiers} (env : verify_env) (p : chain_params) (b : Block.block)
    (pindex_prev : block_ptr) (is_ibd : bool) (s : validation_state) :
  let height := match pindex_prev with [] => 0 | prev :: _ => bi_nHeight prev + 1 end in
  memory_ok -> epochs_ordered (consensus p) -> block_ptr_wf pindex_prev -> Forall tx_wf (vtx b) -> mode s = MODE_VALID -> st_dos s = 0 ->
  (vtx b <> [] -> exists s' v,
     contextual_check_block_verdict p env b pindex_prev is_ibd s = Some (s', v) /\
     (v = CONTEXTUAL_CHECK_PASS <->
        Forall (tx_accepted env (consensus p) height is_ibd (nTime (header b))) (vtx b) /\ coinbase_commits height b) /\
     (v = CONTEXTUAL_CHECK_UNVERIFIABLE <->
        exists l1 tx l2, vtx b = l1 ++ tx :: l2 /\ Forall (tx_accepted env (consensus p) height is_ibd (nTime (header b))) l1 /\
          is_ibd = false /\ tx_uncheckable env (consensus p) height tx) /\
     (v = CONTEXTUAL_CHECK_PASS -> s' = s) /\
     (v <> CONTEXTUAL_CHECK_PASS -> mode s' = MODE_INVALID /\ 0 <= st_dos s' <= 100) /\
     (contextual_check_block p env b pindex_prev is_ibd s = Some (s', true) <-> v = CONTEXTUAL_CHECK_PASS)) /\
  (vtx b = [] -> 0 < height -> contextual_check_block_verdict p env b pindex_prev is_ibd s = None).
Proof.
  intros height M Ho Wp W Hs H0'.
  assert (0 <= height < 2 ^ 31 /\ match pindex_prev with [] => Some 0 | prev :: _ => s32 (bi_nHeight prev + 1) end = Some height) as [Hh Eh] by (by apply next_height).
  split.
  - intros Hne. destruct (block_judges M env p height Ho Hh b pindex_prev is_ibd Eh W Hne) as [X Hm].
    unfold contextual_check_block, contextual_check_block_verdict.
    destruct (Hm s Hs H0') as [[-> HP]|[[(s' & -> & HI) [HP HF]]|[(s' & -> & HI) [HP HF]]]].
    + exists s, CONTEXTUAL_CHECK_PASS. split; [done|]. split; [split; [intros _; exact HP|done]|]. split; [split; [done|intros HF; by destruct (X HP HF)]|]. done.
    + exists s', CONTEXTUAL_CHECK_UNVERIFIABLE. split; [done|]. split; [by split; [|intros ?]|]. split; [split; [intros _; exact HF|done]|]. by split_and!.
    + exists s', CONTEXTUAL_CHECK_REJECT. split; [done|]. split; [by split; [|intros ?]|]. split; [by split; [|intros ?]|]. by split_and!.
  - intros Ev Hp. unfold contextual_check_block_verdict, contextual_check_block_impl. rewrite Eh, Ev. cbn [fall fand no_fault vpass].
    by rewrite (proj2 (Z.ltb_lt 0 height) Hp).
Qed.

(** C7: block acceptance without context. On a little-endian host with memory, with the
    node's Equihash scheme in the registry, for every well-formed block whose size keeps the
    32-bit signature-operation tally from wrapping (214 MB): the check is defined; it
    passes, leaving the state alone, exactly when the header is valid (with its solution and
    target, or only its version and time when the caller vouches for the work) and the body
    is: the header's Merkle root is the root of the transaction ids and the tree is not
    mutated, the first transaction and no other is a coinbase, every transaction is
    structurally valid, and the scripts count at most 20000 signature operations; otherwise
    the block is marked invalid with a score of at most 100. A block with a valid body can
    be given to the contextual check, which is then defined, whatever the chain. *)
Theorem check_block_spec `{Allocator} `{ShieldedVerifiers} (p : chain_params) (reg : registry) (cache : option crypto_scheme) (now : Z)
    (b : Block.block) (check_pow : bool) :
  memory_ok -> chain_sane p -> coherent reg cache -> - 2 ^ 63 <= now < 2 ^ 63 - 7200 -> block_wf b -> 20 * len (block_enc b) < 2 ^ 32 ->
  judges (check_block p reg cache now b check_pow true true)
    ((if check_pow then header_valid p now (header b)
      else MIN_BLOCK_VERSION <= nVersion (header b) /\ nTime (header b) <= now + 7200) /\ block_body_valid b) /\
  (block_body_valid b -> epochs_ordered (consensus p) -> forall env prev is_ibd, block_ptr_wf prev ->
     is_Some (contextual_check_block_verdict p env b prev is_ibd validation_state_init)).
Proof.
  intros M S C Hn W Hl. split.
  - apply judges_and; [|intros _; by apply body_judged]. apply check_block_header_judges; try done. apply W.
  - intros V Ho env prev is_ibd Wp. assert (Forall tx_wf (vtx b)) as Wt.
    { destruct W as [_ [_ F]]. eapply Forall_impl; [exact F|]. by intros tx [? _]. }
    assert (vtx b <> []) as Hne by (destruct (bv_coinbase b V) as (? & ? & E & _); by rewrite E).
    set (height := match prev with [] => 0 | q :: _ => bi_nHeight q + 1 end).
    assert (0 <= height < 2 ^ 31 /\ match prev with [] => Some 0 | q :: _ => s32 (bi_nHeight q + 1) end = Some height) as [Hh Eh] by (by apply next_height).
    destruct (block_judges M env p height Ho Hh b prev is_ibd Eh Wt Hne) as [_ Hm]. unfold contextual_check_block_verdict.
    destruct (Hm validation_state_init eq_refl eq_refl) as [[-> _]|[[(s' & -> & _) _]|[(s' & -> & _) _]]]; by eexists.
Qed.

Section BlockWitness.
#[local] Instance block_alloc : Allocator := fun _ => true.
(** Verifiers that refuse everything. *)
#[local] Instance strict : ShieldedVerifiers :=
  {| sapling_ctx := unit; sapling_verification_ctx_init := Some tt;
     sapling_check_spend := fun c _ _ _ _ _ _ _ => (c, false); sapling_check_output := fun c _ _ _ _ => (c, false);
     sapling_final_check := fun _ _ _ _ => false; ed25519_verify := fun _ _ _ => false;
     sprout_verify_groth16 := fun _ _ _ _ _ _ _ _ => false; sprout_verify_phgr13 := fun _ _ _ _ _ _ _ _ => false |}.

(** The sample block commits to height 1, where no upgrade is active. *)
Lemma contextual_block_spec_witness :
  contextual_check_block regtest_chain (mk_env (-1) false false) mined_block parent false validation_state_init = Some (validation_state_init, true).
Proof.
  destruct (contextual_block_spec (mk_env (-1) false false) regtest_chain mined_block parent false validation_state_init) as [V _].
  - intros n. reflexivity.
  - apply networks_ordered.
  - apply parent_wf.
  - constructor; [|constructor]. apply tx_wf_with_hash, sample_coinbase_wf.
  - reflexivity.
  - reflexivity.
  - destruct V as (s & v & E & P & _ & L & _ & C); [discriminate|].
    assert (v = CONTEXTUAL_CHECK_PASS) as Hv; [|rewrite (L Hv) in C; exact (proj2 C Hv)].
    apply P. split; [constructor; [|constructor]|].
    + split; [intros _; split; [split; [vm_compute; split; [reflexivity|discriminate]|discriminate]|discriminate]|reflexivity].
    + intros _. eexists _, _, _, _. split; [reflexivity|]. split; [reflexivity|]. split; [discriminate|]. left. split; [by split|reflexivity].
Defined.

Lemma mined_block_wf : block_wf mined_block.
Proof.
  split; [|split; [vm_compute; congruence|constructor; [|constructor]]].
  - repeat (split || apply bytes_check || done).
  - split; [apply tx_wf_with_hash, sample_coinbase_wf|reflexivity].
Qed.

Example mined_block_accepted :
  check_block regtest_chain node_registry None 1478403000 mined_block true true true validation_state_init = Some (validation_state_init, true).
Proof.
  unfold check_block, vand. change (header mined_block) with mined_header.
  assert (check_block_header regtest_chain node_registry None 1478403000 mined_header true validation_state_init = Some (validation_state_init, true)) as ->
    by exact (proj1 mined_accepted).
  vm_compute. reflexivity.
Qed.

Lemma check_block_spec_witness : header_valid regtest_chain 1478403000 mined_header /\ block_body_valid mined_block.
Proof.
  destruct (check_block_spec regtest_chain node_registry None 1478403000 mined_block true) as [J _].
  - intros n. reflexivity.
  - apply regtest_chain_sane.
  - split; [reflexivity|by left].
  - lia.
  - apply mined_block_wf.
  - vm_compute. reflexivity.
  - exact (judges_passed _ _ validation_state_init J eq_refl eq_refl mined_block_accepted).
Defined.
End BlockWitness.
