(* ===== verification/TxVerifier.v ===== *)
(** * Signatures and lock times of a transaction

    Model of [core/modules/validation/src/tx_verifier.c], the callbacks through which
    the script interpreter reaches the transaction that is verified, and of
    [pubkey_verify] ([keys/src/pubkey.c]), which takes its ECDSA verifier from the
    crypto registry. *)

From Stdlib Require Import String.
From stdpp Require Import base tactics list numbers option gmap.
From Stdlib Require Import ZArith Lia.
From S2P Require Import Prelude Serialize ByteOrder Params Script Hash Blake2b Transaction TxContext Block Equihash CryptoRegistry Coins.
From S2P Require Import SigEncoding Interp InterpSpec Sighash SighashSpec.
#[local] Open Scope Z_scope.
#[local] Open Scope list_scope.

Definition LOCKTIME_THRESHOLD : Z := 500000000.

(** [tsc_txdata] is a null pointer or points to digests computed before. *)
Record tx_sig_checker := mk_tsc {
  tsc_tx : transaction; tsc_nIn : Z; tsc_amount : Z; tsc_branch_id : Z; tsc_txdata : option precomputed_tx_data }.

Definition tx_sig_checker_init (tx : transaction) (nIn amount consensus_branch_id : Z) (txdata : option precomputed_tx_data) :
    tx_sig_checker := mk_tsc tx nIn amount consensus_branch_id txdata.

(** [scheme]: the ECDSA scheme, cached or looked up; [None] as a result is a call
    through another member of the union. *)
Definition pubkey_verify (scheme : option crypto_scheme) (pk : pubkey) (hash : uint256) (sig : list Z) : option bool :=
  if negb (pubkey_is_valid pk) then Some false
  else if len sig =? 0 then Some false
  else match scheme with
       | None => Some false
       | Some s => match sc_fn s with
                   | FN_NULL => Some false
                   | FN_SIG verify => Some (verify pk hash sig)
                   | _ => None
                   end
       end.

Section Callbacks.
Context `{Allocator} `{HostOrder} (ecdsa : option crypto_scheme) (c : tx_sig_checker).

Definition check_sig_cb (sig key : list Z) (script_code : script) : option bool :=
  if len sig =? 0 then Some false
  else
    let pk := pubkey_set key in
    if negb (pubkey_is_valid pk) then Some false
    else
      let? ht := last sig in
      let? h := signature_hash script_code (tsc_tx c) (tsc_nIn c) ht (tsc_amount c) (tsc_branch_id c) (tsc_txdata c) in
      match h with
      | None => Some false
      | Some sighash => pubkey_verify ecdsa pk sighash (take (length sig - 1) sig)
      end.

Definition check_lock_time_cb (lock : Z) : option bool :=
  let tx := tsc_tx c in
  if negb (((lock_time tx <? LOCKTIME_THRESHOLD) && (lock <? LOCKTIME_THRESHOLD)) ||
           ((LOCKTIME_THRESHOLD <=? lock_time tx) && (LOCKTIME_THRESHOLD <=? lock))) then Some false
  else if lock_time tx <? lock then Some false
  else let? i := vin tx !! Z.to_nat (tsc_nIn c) in Some (negb (sequence i =? 0xffffffff)).

Definition verify_sig_cb (sig key sighash : list Z) : option bool :=
  let pk := pubkey_set key in
  if negb (pubkey_is_valid pk) then Some false else pubkey_verify ecdsa pk sighash sig.

(** The interpreter's callbacks return a [bool]; the lemmas below show that the
    undefined cases do not arise. *)
Definition tx_make_sig_checker : sig_checker := {|
  check_sig := Some (fun sig key script_code _ => default false (check_sig_cb sig key script_code));
  check_lock_time := Some (fun lock => default false (check_lock_time_cb lock));
  verify_signature := Some (fun sig key sighash => default false (verify_sig_cb sig key sighash)) |}.

Definition tx_sig_checker_check_sig (sig key : list Z) (script_code : script) : option bool :=
  check_sig_cb sig key script_code.
Definition tx_sig_checker_check_lock_time (lock : Z) : option bool := check_lock_time_cb lock.

End Callbacks.

(** ** What the callbacks decide *)

(** A scheme that verifies signatures, as the registry accepts it, and its verifier. *)
Definition verifies (ecdsa : option crypto_scheme) (verify : list Z -> list Z -> list Z -> bool) : Prop :=
  exists s, ecdsa = Some s /\ sc_fn s = FN_SIG verify.

(** BIP 65: the lock is of the transaction's kind (a height or a time) and has passed
    for it, and the input is not final, so that the transaction's lock is enforced. *)
Definition lock_is_height (lock : Z) : bool := lock <? LOCKTIME_THRESHOLD.

Definition bip65 (tx : transaction) (i : tx_in) (lock : Z) : Prop :=
  lock_is_height lock = lock_is_height (lock_time tx) /\ lock <= lock_time tx /\ tx_in_is_final i = false.

Definition checks_signature (verify : list Z -> list Z -> list Z -> bool) (c : tx_sig_checker) (sig key : list Z)
    (script_code : script) : Prop :=
  exists body ht h, sig = body ++ [ht] /\ body <> [] /\ key <> [] /\
    sighash script_code (tsc_tx c) (tsc_nIn c) ht (tsc_amount c) (tsc_branch_id c) = Some h /\
    verify (pubkey_set key) h body = true.

Section Defined.
Context `{Allocator} (M : memory_ok) (c : tx_sig_checker) (W : tx_wf (tsc_tx c)).
Context (Hin : 0 <= tsc_nIn c < len (vin (tsc_tx c))).
Context (Hc : forall d, tsc_txdata c = Some d -> d = precomputed (tsc_tx c)).
#[local] Existing Instance little_endian_host.

Lemma in_range : in_u 32 (tsc_nIn c) /\ (tsc_nIn c =? NOT_AN_INPUT) = false.
Proof.
  pose proof (wf_vin _ W) as [Hm _]. unfold MAX_TX_INPUTS in Hm. split; [unfold in_u; lia|].
  apply Z.eqb_neq. unfold NOT_AN_INPUT, UINT32_MAX. lia.
Qed.

Lemma pubkey_set_valid key : pubkey_is_valid (pubkey_set key) = negb (len key =? 0).
Proof.
  unfold pubkey_is_valid, pubkey_set, len. rewrite length_take.
  destruct key; cbn [length]; [done|]. unfold PUBLIC_KEY_SIZE. symmetry. rewrite (proj2 (Z.eqb_neq _ _)) by lia.
  symmetry. apply Z.ltb_lt. lia.
Qed.

Lemma pubkey_verify_run ecdsa verify pk h sig : verifies ecdsa verify -> pubkey_is_valid pk = true ->
  pubkey_verify ecdsa pk h sig = Some (negb (len sig =? 0) && verify pk h sig).
Proof. intros (s & -> & Hs) Hv. unfold pubkey_verify. rewrite Hv, Hs. by destruct (len sig =? 0). Qed.

Lemma check_sig_run ecdsa verify sig key script_code : verifies ecdsa verify -> script_wf script_code ->
  exists b, check_sig_cb ecdsa c sig key script_code = Some b /\ (b = true <-> checks_signature verify c sig key script_code).
Proof.
  intros Hv Hs. unfold check_sig_cb. destruct (Z.eqb_spec (len sig) 0) as [E|E].
  { exists false. split; [done|]. split; [done|]. intros (body & ht & h & -> & _). unfold len in E. rewrite length_app in E. cbn in E. lia. }
  cbn zeta. rewrite pubkey_set_valid, negb_involutive. destruct (Z.eqb_spec (len key) 0) as [Ek|Ek].
  { exists false. split; [done|]. split; [done|]. intros (body & ht & h & _ & _ & Hk & _). by destruct key. }
  destruct sig as [|ht body _] using rev_ind; [done|]. rewrite last_snoc. cbn [mbind option_bind].
  destruct in_range as [Hn Hna]. rewrite signature_hash_run by done. rewrite Hna. cbn [andb mbind option_bind].
  replace (length (body ++ [ht]) - 1)%nat with (length body) by (rewrite length_app; cbn; lia). rewrite take_app_length.
  destruct (sighash _ _ _ _ _ _) as [h|] eqn:Eh.
  - rewrite (pubkey_verify_run ecdsa verify) by (done || rewrite pubkey_set_valid; by apply negb_true_iff, Z.eqb_neq).
    eexists. split; [done|]. rewrite andb_true_iff, negb_true_iff, Z.eqb_neq. split.
    + intros [Hb Hok]. exists body, ht, h. split_and!; try done; by intros ->.
    + intros (body' & ht' & h' & Eb & Hne & _ & Eh' & Hok). apply app_inj_2 in Eb as [<- Eb]; [|done]. injection Eb as <-.
      split; [|congruence]. by destruct body.
  - exists false. split; [done|]. split; [done|]. intros (body' & ht' & h' & Eb & _ & _ & Eh' & _).
    apply app_inj_2 in Eb as [<- Eb]; [|done]. injection Eb as <-. congruence.
Qed.

Lemma check_lock_time_run lock :
  exists b i, vin (tsc_tx c) !! Z.to_nat (tsc_nIn c) = Some i /\
    check_lock_time_cb c lock = Some b /\ (b = true <-> bip65 (tsc_tx c) i lock).
Proof.
  destruct (lookup_lt_is_Some_2 (vin (tsc_tx c)) (Z.to_nat (tsc_nIn c))) as [i Ei]; [unfold len in Hin; lia|].
  unfold check_lock_time_cb, bip65, lock_is_height, tx_in_is_final. rewrite Ei. cbn [mbind option_bind].
  destruct (Z.ltb_spec (lock_time (tsc_tx c)) LOCKTIME_THRESHOLD), (Z.ltb_spec lock LOCKTIME_THRESHOLD);
    destruct (Z.leb_spec LOCKTIME_THRESHOLD (lock_time (tsc_tx c))), (Z.leb_spec LOCKTIME_THRESHOLD lock); try lia;
    cbn [andb orb negb];
    try (exists false, i; split; [done|split; [done|]]; split; [done|intros [? _]; done]).
  all: destruct (Z.ltb_spec (lock_time (tsc_tx c)) lock);
    [exists false, i; split; [done|split; [done|]]; split; [done|intros (_ & ? & _); lia]|].
  all: eexists _, i; split; [done|split; [done|]]; rewrite negb_true_iff; split; [intros E; split_and!; [done|lia|done]|by intros (_ & _ & E)].
Qed.

End Defined.

(** A spend that passes CHECKLOCKTIMEVERIFY and is final at a height and time comes
    after the lock. *)
Lemma cltv_delays (c : tx_sig_checker) (i : tx_in) (lock height time : Z) :
  In i (vin (tsc_tx c)) -> bip65 (tsc_tx c) i lock -> domain_consensus_tx_is_final (Some (tsc_tx c)) height time = true ->
  0 < lock -> lock < if lock_is_height lock then height else time.
Proof.
  intros Hi (Ek & Hl & Hf) Hfin Hpos. unfold domain_consensus_tx_is_final in Hfin.
  rewrite (proj2 (Z.eqb_neq (lock_time (tsc_tx c)) 0)) in Hfin by lia. cbn zeta in Hfin.
  change DOMAIN_CONSENSUS_LOCKTIME_THRESHOLD with LOCKTIME_THRESHOLD in Hfin.
  rewrite Ek. unfold lock_is_height in *. destruct (lock_time (tsc_tx c) <? LOCKTIME_THRESHOLD);
    match type of Hfin with (if ?b then _ else _) = _ => destruct b eqn:E end;
    try (apply Z.ltb_lt in E; lia); rewrite forallb_forall in Hfin; specialize (Hfin _ Hi); congruence.
Qed.

(** C11: the interpreter's view of a transaction. For a well-formed transaction, an
    input index in range, cached digests absent or those of the transaction, and a
    registered ECDSA verifier, when the allocator does not fail, the callbacks never do: the signature callback accepts
    exactly a non-empty signature followed by its hash type, under a non-empty key, that
    the verifier accepts for the specified signature hash of the input; the lock-time
    callback is BIP 65's rule, so a transaction that passes it and is final in a block
    is mined after the lock. *)
Theorem tx_checker_spec `{Allocator} (ecdsa : option crypto_scheme) (verify : list Z -> list Z -> list Z -> bool)
    (tx : transaction) (nIn amount branch : Z) (txdata : option precomputed_tx_data) :
  let host : HostOrder := little_endian_host in
  memory_ok -> tx_wf tx -> 0 <= nIn < len (vin tx) -> txdata = None \/ txdata = Some (precomputed tx) -> verifies ecdsa verify ->
  let c := tx_sig_checker_init tx nIn amount branch txdata in
  let checker := tx_make_sig_checker ecdsa c in
  (exists f, check_sig checker = Some f /\
     forall sig key script_code b, script_wf script_code ->
     (f sig key script_code b = true <-> checks_signature verify c sig key script_code) /\
     check_sig_cb ecdsa c sig key script_code = Some (f sig key script_code b)) /\
  (exists f, check_lock_time checker = Some f /\
     forall lock, check_lock_time_cb c lock = Some (f lock) /\
     exists i, vin tx !! Z.to_nat nIn = Some i /\ (f lock = true <-> bip65 tx i lock) /\
     (f lock = true -> 0 < lock -> forall height time, domain_consensus_tx_is_final (Some tx) height time = true ->
        lock < if lock_is_height lock then height else time)).
Proof.
  intros host M W Hn Hd Hv c checker. subst host.
  assert (Hc : forall d, tsc_txdata c = Some d -> d = precomputed (tsc_tx c)) by (intros d Ed; cbn in *; destruct Hd; congruence).
  split; (eexists; split; [reflexivity|]; cbv beta).
  - intros sig key sc b Hs. destruct (check_sig_run M c W Hn Hc ecdsa verify sig key sc Hv Hs) as (r & -> & Hr). by cbn.
  - intros lock. destruct (check_lock_time_run c Hn lock) as (r & i & Ei & -> & Hr). cbn [default]. split; [done|].
    exists i. split; [done|split; [done|]]. intros E Hp h t Hf. apply (cltv_delays c i lock h t); try done; [|by apply Hr].
    apply list_elem_of_In, list_elem_of_lookup. by eexists.
Qed.

(** C38: a time lock holds. Take any stack, any flags, any input of any transaction, and a
    script that pushes a number of two to five bytes, runs CHECKLOCKTIMEVERIFY on it and
    drops it. With room for the number and the CHECKLOCKTIMEVERIFY flag set, it leaves the
    stack as it was exactly when the number is not negative and BIP 65's rule holds between
    it and the input, and fails with the error of the first that does not hold; and then a
    transaction that is final at a height and time comes after a positive lock. Without the
    flag it changes nothing, except that DISCOURAGE_UPGRADABLE_NOPS makes it fail: so beside
    that flag, setting CHECKLOCKTIMEVERIFY makes every met lock pass that failed before. *)
Theorem timelock_meaning `{Allocator} `{LowS} (ecdsa : option crypto_scheme) (tx : transaction) (nIn amount branch : Z)
    (txdata : option precomputed_tx_data) (flags : Z) (base : stack) (x : item) (lock : Z) :
  let host : HostOrder := little_endian_host in
  0 <= nIn < len (vin tx) -> stack_ok base -> (2 <= length x <= 5)%nat ->
  script_num_from_bytes x (has_flag flags SCRIPT_VERIFY_MINIMALDATA) 5 = Some lock ->
  let checker := Some (tx_make_sig_checker ecdsa (tx_sig_checker_init tx nIn amount branch txdata)) in
  let result := domain_consensus_eval_script (timelock_script x) flags checker branch true (Some base) in
  exists i met, vin tx !! Z.to_nat nIn = Some i /\ (met = true <-> bip65 tx i lock) /\
  result =
    (fail_if 999 <? count base as SCRIPT_ERR_STACK_SIZE;;
     if has_flag flags SCRIPT_VERIFY_CHECKLOCKTIMEVERIFY then
       fail_if lock <? 0 as SCRIPT_ERR_NEGATIVE_LOCKTIME;;
       fail_if negb met as SCRIPT_ERR_UNSATISFIED_LOCKTIME;;
       Done base
     else
       fail_if has_flag flags SCRIPT_VERIFY_DISCOURAGE_UPGRADABLE_NOPS as SCRIPT_ERR_DISCOURAGE_UPGRADABLE_NOPS;;
       Done base) /\
  (result = Done base -> has_flag flags SCRIPT_VERIFY_CHECKLOCKTIMEVERIFY = true -> 0 < lock ->
   forall height time, domain_consensus_tx_is_final (Some tx) height time = true ->
   lock < if lock_is_height lock then height else time).
Proof.
  intros host Hn Hb Hl Hx checker result. subst host.
  destruct (check_lock_time_run (tx_sig_checker_init tx nIn amount branch txdata) Hn lock) as (met & i & Ei & Er & Hm).
  exists i, met. split; [exact Ei|]. split; [exact Hm|].
  assert (lock_time_refused checker lock = negb met) as Hr by (cbn; by rewrite Er).
  subst result. rewrite (timelock_eval flags checker branch base x lock Hl Hb Hx), Hr. split; [done|].
  intros E Hfl Hp h t Hf. rewrite Hfl in E. destruct (999 <? count base); [done|]. destruct (lock <? 0); [done|]. destruct met; [|done].
  apply (cltv_delays (tx_sig_checker_init tx nIn amount branch txdata) i lock h t); try done; [|by apply Hm].
  apply list_elem_of_In, list_elem_of_lookup. by eexists.
Qed.

#[local] Instance checker_alloc : Allocator := fun _ => true.
#[local] Existing Instance little_endian_host.
Definition sample_scheme : crypto_scheme :=
  mk_scheme 1 CRYPTO_KIND_SIG CRYPTO_STATUS_ACTIVE (Some "ecdsa"%string) (Some "sample"%string) (FN_SIG (fun _ h sig => (len h =? 32) && (len sig =? 2))).

Lemma tx_checker_spec_witness :
  exists f, check_sig (tx_make_sig_checker (Some sample_scheme) (tx_sig_checker_init (sapling_sample [1; 2]) 0 5 0x76b809bb None)) = Some f /\
  f [7; 7; 1] [2] [0x51] 0 = true /\ f [7; 1] [2] [0x51] 0 = false.
Proof.
  destruct (tx_checker_spec (Some sample_scheme) (fun _ h sig => (len h =? 32) && (len sig =? 2)) (sapling_sample [1; 2]) 0 5 0x76b809bb None)
    as [(f & E & Hf) _].
  - done.
  - by apply sapling_sample_wf, small_script.
  - by split.
  - by left.
  - by eexists.
  - exists f. split; [exact E|]. split.
    + apply Hf; [by apply small_script|]. eexists [7; 7], 1, _. split_and!; try done.
    + apply not_true_iff_false. intros Ht. apply Hf in Ht; [|by apply small_script].
      destruct Ht as (body & ht & h & Eb & _ & _ & _ & Hv). apply andb_true_iff in Hv as [_ Hv]. apply Z.eqb_eq in Hv.
      apply (f_equal length) in Eb. rewrite length_app in Eb. unfold len in Hv. cbn in Eb. lia.
Defined.

(** Locked until height 400 with an input that is not final, against a lock of 300: the
    lock is met, and only the CHECKLOCKTIMEVERIFY flag makes it pass. *)
Definition locked_sample : transaction :=
  mk_tx true 4 SAPLING_VERSION_GROUP_ID [mk_tx_in (mk_outpoint (replicate 32 17) 3) [] 0]
    [mk_tx_out 7 [0x51]] 400 0 0 [] [] [] uint256_set_null (replicate 64 0) (replicate 64 0) uint256_set_null.

Lemma timelock_meaning_witness :
  let _ : LowS := fun _ => true in
  let run flags := domain_consensus_eval_script (timelock_script [44; 1]) flags
    (Some (tx_make_sig_checker None (tx_sig_checker_init locked_sample 0 5 0x76b809bb None))) 0x76b809bb true (Some []) in
  run (SCRIPT_VERIFY_DISCOURAGE_UPGRADABLE_NOPS + SCRIPT_VERIFY_CHECKLOCKTIMEVERIFY) = Done [] /\
  run SCRIPT_VERIFY_DISCOURAGE_UPGRADABLE_NOPS = Fail SCRIPT_ERR_DISCOURAGE_UPGRADABLE_NOPS /\
  (forall height time, domain_consensus_tx_is_final (Some locked_sample) height time = true -> 300 < height).
Proof.
  intros L run. assert (stack_ok []) as Hs by (split; [constructor|done]).
  pose proof (fun flags E => @timelock_meaning _ L None locked_sample 0 5 0x76b809bb None flags [] [44; 1] 300
    (conj (Z.le_refl 0) eq_refl) Hs ltac:(cbn; lia) E) as T.
  destruct (T (SCRIPT_VERIFY_DISCOURAGE_UPGRADABLE_NOPS + SCRIPT_VERIFY_CHECKLOCKTIMEVERIFY) eq_refl) as (i & met & Ei & Hm & E & Hd).
  destruct (T SCRIPT_VERIFY_DISCOURAGE_UPGRADABLE_NOPS eq_refl) as (_ & met' & _ & _ & E' & _).
  assert (met = true) as -> by (apply Hm; injection Ei as <-; split_and!; [reflexivity|cbn; lia|reflexivity]).
  split; [exact E|]. split; [exact E'|]. exact (Hd E eq_refl eq_refl).
Defined.
