(* ===== verification/ConnectBlock.v ===== *)
(** * Connecting a block

    Model of [core/modules/validation/src/connect_block.c] up to [disconnect_block],
    which is in [UpdateCoins], and of the wrappers it calls in [sigops.c] and
    [chainparams/src/subsidy.c]. The checks that a block queues hold pointers: to
    their input's script, to the digests of their transaction and to the output that
    is spent, which lies in the coins cache. The first two do not change; the third
    is the output's place, read when the check runs. *)

From Stdlib Require Import String.
From stdpp Require Import base tactics list numbers option gmap.
From Stdlib Require Import ZArith Lia.
From S2P Require Import Prelude Serialize ByteOrder Params Pow Script Hash Transaction TxCheck TxContext Block Equihash CryptoRegistry CheckBlock.
From S2P Require Import Coins CoinsMap UtxoCommitment IncrementalTree CoinsView Shielded UpdateCoins.
From S2P Require Import SigEncoding Interp Sighash ContextualTx CheckHeader TxVerifier.
#[local] Open Scope Z_scope.
#[local] Open Scope list_scope.
#[local] Open Scope cint_scope.

Definition COINBASE_MATURITY : Z := 100.
Definition MAX_BLOCK_SIGOPS : Z := 20000.
Definition INT64_MAX : Z := 2 ^ 63 - 1.

(** ** What the block is connected with *)

(** The fields of [struct block_index] that connecting writes, and the flags that say
    which totals are known. *)
Record pool_totals := mk_pools {
  nSproutValue : Z; has_sprout_value : bool; nSaplingValue : Z;
  nChainSproutValue : Z; has_chain_sprout_value : bool;
  nChainSaplingValue : Z; has_chain_sapling_value : bool }.

(** [ix_pprev]: the totals of the parent, if there is one. *)
Record connect_index := mk_index {
  ix_nHeight : Z; ix_phashBlock : option uint256; ix_pprev : option pool_totals; ix_pools : pool_totals }.

(** The globals of the file and of [mirror_consensus.h], and the node's clock and
    registry, which [check_block] reads. *)
Record connect_env := mk_connect_env {
  ce_deferred : Z; g_enforce_sapling_root : bool; g_enforce_checkdatasig_sigops : bool;
  g_sapling_tree : option incremental_merkle_tree;
  ce_registry : registry; ce_equihash : option crypto_scheme; ce_ecdsa : option crypto_scheme; ce_now : Z }.

Definition connect_block_set_sapling_tree (e : connect_env) (tree : option incremental_merkle_tree) : connect_env :=
  mk_connect_env (ce_deferred e) (g_enforce_sapling_root e) (g_enforce_checkdatasig_sigops e) tree
    (ce_registry e) (ce_equihash e) (ce_ecdsa e) (ce_now e).

(** What happens outside the thread: whether the thread's count of failed allocations
    has moved over the digests or the update of a transaction of the block, or over a
    check; the allocations of a check's stacks; whether the thread pool exists, and which
    checks its threads take up only after another has failed. *)
Record oracle := mk_oracle {
  precompute_failed : nat -> bool; update_failed : nat -> bool; check_failed : nat -> bool;
  check_stacks : nat -> nat -> bool; script_pool : bool; pool_late : nat -> bool }.

(** One input's script check. [sk_prevout] is where [script_pub_key] points: an output
    of a record of the cache. [sk_live] is cleared when the array that the check, its
    digests or that output lie in is freed. *)
Record script_check := mk_check {
  sk_script_sig : script; sk_prevout : outpoint; sk_flags : Z; sk_branch_id : Z; sk_tsc : tx_sig_checker; sk_live : bool }.

Definition dangle (sc : script_check) : script_check :=
  mk_check (sk_script_sig sc) (sk_prevout sc) (sk_flags sc) (sk_branch_id sc) (sk_tsc sc) false.

(** [num_checks] and [num_txdatas] are the lengths. *)
Record connect_script_work := mk_work {
  checks : list script_check; txdatas : list precomputed_tx_data; checks_cap : Z; txdatas_cap : Z }.
Definition no_work : connect_script_work := mk_work [] [] 0 0.

Definition sizeof_script_check : Z := 80.
Definition sizeof_pointer : Z := 8.
Definition sizeof_precomputed_tx_data : Z := 192.

(** ** The wrappers *)

Definition get_legacy_sig_op_count (tx : transaction) (flags : Z) : option Z :=
  let? r := domain_consensus_tx_legacy_sig_op_count (Some tx) flags true in
  Some (match r with ZCL_OK n => n | ZCL_ERR _ => 0 end).

Definition get_block_subsidy (nHeight : Z) (params : consensus_params) : option Z :=
  let? r := domain_consensus_block_subsidy nHeight (Some params) true in
  Some (match r with ZCL_OK n => n | ZCL_ERR _ => 0 end).

(** ** Facts about the block alone *)

(** The amounts are [int64_t]: [None] is a signed overflow. *)
Fixpoint joinsplits_value (acc : Z) (l : list js_description) : option Z :=
  match l with
  | [] => Some acc
  | js :: l => let? v := s64 (acc + vpub_old js) in let? v := s64 (v - vpub_new js) in joinsplits_value v l
  end.

Fixpoint shielded_values (sprout sapling : Z) (l : list transaction) : option (Z * Z) :=
  match l with
  | [] => Some (sprout, sapling)
  | tx :: l =>
      let? sprout := joinsplits_value sprout (v_joinsplit tx) in
      let? sapling := s64 (sapling - value_balance tx) in
      shielded_values sprout sapling l
  end.

Definition connect_block_shielded_values (b : Block.block) : option (Z * Z) := shielded_values 0 0 (vtx b).

Definition checkpoint_covers (cpdata : checkpoint_data) (height : Z) : bool :=
  match last cpdata with None => false | Some e => height <=? Pow.ce_height e end.

Section Root.
Context `{HostOrder} `{Pedersen}.

Fixpoint append_all (t : incremental_merkle_tree) (l : list uint256) : option incremental_merkle_tree :=
  match l with [] => Some t | cm :: l => let? t := incremental_tree_append t cm in append_all t l end.

(** Without a tree there is nothing to compare with. *)
Definition sapling_root_matches (b : Block.block) (pre_block_tree : option incremental_merkle_tree) : option bool :=
  match pre_block_tree with
  | None => Some true
  | Some t =>
      let? t := append_all t (concat (map (fun tx => map od_cm (v_shielded_output tx)) (vtx b))) in
      let? r := incremental_tree_root t in
      Some (memcmp (snd r) (hashFinalSaplingRoot (header b)) =? 0)
  end.

(** 0, 1 or 2 of the code: accepted, null, or not the recomputed one. *)
Inductive sapling_root_verdict := ROOT_OK | ROOT_ZEROED | ROOT_MISMATCH.

Definition connect_block_sapling_root_status (e : connect_env) (b : Block.block) (ix : connect_index) (params : chain_params)
    (just_check : bool) : option sapling_root_verdict :=
  if just_check then Some ROOT_OK
  else
    let? sapling_active := consensus_network_upgrade_active (consensus params) (ix_nHeight ix) UPGRADE_SAPLING in
    if negb sapling_active then Some ROOT_OK
    else if memcmp (hashFinalSaplingRoot (header b)) (replicate 32 0) =? 0 then Some ROOT_ZEROED
    else if g_enforce_sapling_root e then
      let? ok := sapling_root_matches b (g_sapling_tree e) in
      Some (if ok then ROOT_OK else ROOT_MISMATCH)
    else Some ROOT_OK.
End Root.

Definition connect_block_load_block_hash `{Allocator} `{HostOrder} (ix : connect_index) (b : Block.block) : uint256 :=
  match ix_phashBlock ix with Some h => h | None => block_header_get_hash (header b) end.

Definition connect_block_skip_bip30 (e : connect_env) (ix : connect_index) : bool :=
  (0 <=? ce_deferred e) && (ix_nHeight ix <=? ce_deferred e).

Definition connect_block_expensive_checks_enabled (e : connect_env) (params : chain_params) (ix : connect_index) : bool :=
  let expensive_checks := if checkpoint_covers (checkpointData params) (ix_nHeight ix) then false else true in
  if (0 <=? ce_deferred e) && (ix_nHeight ix <=? ce_deferred e) then false else expensive_checks.

Definition connect_block_script_flags (e : connect_env) : Z :=
  let flags := SCRIPT_VERIFY_P2SH .| SCRIPT_VERIFY_CHECKLOCKTIMEVERIFY in
  if g_enforce_checkdatasig_sigops e then flags .| SCRIPT_VERIFY_CHECKDATASIG_SIGOPS else flags.

(** ** The shielded pools *)

(** One pool: the parent's total, if known, and the block's change. *)
Definition pool_total (known : bool) (total change : Z) : option (option Z) :=
  if known then let? t := s64 (total + change) in Some (Some t) else Some None.

Definition with_sprout (p : pool_totals) (v : Z) (total : option Z) : pool_totals :=
  mk_pools v true (nSaplingValue p)
    (default (nChainSproutValue p) total) (match total with Some _ => true | None => has_chain_sprout_value p end)
    (nChainSaplingValue p) (has_chain_sapling_value p).
Definition with_sapling (p : pool_totals) (total : option Z) : pool_totals :=
  mk_pools (nSproutValue p) (has_sprout_value p) (nSaplingValue p) (nChainSproutValue p) (has_chain_sprout_value p)
    (default (nChainSaplingValue p) total) (match total with Some _ => true | None => has_chain_sapling_value p end).
Definition with_sapling_value (p : pool_totals) (v : Z) : pool_totals :=
  mk_pools (nSproutValue p) (has_sprout_value p) v (nChainSproutValue p) (has_chain_sprout_value p)
    (nChainSaplingValue p) (has_chain_sapling_value p).
Definition with_pools (ix : connect_index) (p : pool_totals) : connect_index :=
  mk_index (ix_nHeight ix) (ix_phashBlock ix) (ix_pprev ix) p.

Definition negative (total : option Z) : bool := match total with Some t => t <? 0 | None => false end.

Definition connect_block_apply_shielded_turnstile (b : Block.block) (ix : connect_index) (s : validation_state) :
    option (connect_index * validation_state * bool) :=
  match ix_pprev ix with
  | None => Some (ix, s, true)
  | Some parent =>
      let? v := connect_block_shielded_values b in
      let '(sprout, sapling) := v in
      let? t := pool_total (has_chain_sprout_value parent) (nChainSproutValue parent) sprout in
      let ix := with_pools ix (with_sapling_value (with_sprout (ix_pools ix) sprout t) sapling) in
      if negative t then
        let? r := reject 100 "bad-txns-sprout-turnstile-violation" false s in Some (ix, fst r, snd r)
      else
        let? t := pool_total (has_chain_sapling_value parent) (nChainSaplingValue parent) sapling in
        let ix := with_pools ix (with_sapling (ix_pools ix) t) in
        if negative t then
          let? r := reject 100 "bad-txns-sapling-turnstile-violation" false s in Some (ix, fst r, snd r)
        else Some (ix, s, true)
  end.

(** ** Against the coins *)

Section Connect.
Context `{Allocator} `{HostOrder} `{CommitmentSkip} `{Pedersen} `{LowS} {V : Type} `{!CoinsViewVtable V}.
Abbreviation cache := (coins_view_cache V).
Context (env : connect_env) (params : chain_params) (o : oracle).

(** What the steps pass along; [false] is a return code other than 0. *)
Record connect_state := mk_cs {
  cs_view : cache; cs_valid : validation_state; cs_undo : block_undo; cs_work : connect_script_work;
  cs_fees : Z; cs_sig_ops : Z }.
Definition step : Type := connect_state -> option (connect_state * bool).

Definition andthen (m k : step) : step := fun st =>
  let? r := m st in if snd r then k (fst r) else Some (fst r, false).
#[local] Infix "⊳" := andthen (at level 60, right associativity).
Definition ok : step := fun st => Some (st, true).

Definition with_view (st : connect_state) (c : cache) : connect_state :=
  mk_cs c (cs_valid st) (cs_undo st) (cs_work st) (cs_fees st) (cs_sig_ops st).
Definition with_valid (st : connect_state) (s : validation_state) : connect_state :=
  mk_cs (cs_view st) s (cs_undo st) (cs_work st) (cs_fees st) (cs_sig_ops st).
Definition with_undo (st : connect_state) (u : block_undo) : connect_state :=
  mk_cs (cs_view st) (cs_valid st) u (cs_work st) (cs_fees st) (cs_sig_ops st).
Definition with_work (st : connect_state) (w : connect_script_work) : connect_state :=
  mk_cs (cs_view st) (cs_valid st) (cs_undo st) w (cs_fees st) (cs_sig_ops st).
Definition with_fees (st : connect_state) (f : Z) : connect_state :=
  mk_cs (cs_view st) (cs_valid st) (cs_undo st) (cs_work st) f (cs_sig_ops st).
Definition with_sig_ops (st : connect_state) (n : Z) : connect_state :=
  mk_cs (cs_view st) (cs_valid st) (cs_undo st) (cs_work st) (cs_fees st) n.

(** The buffers and the undo records are freed before the verdict is recorded. *)
Definition connect_block_reject_cleaned (reason : string) (corrupt fatal : bool) : step := fun st =>
  let st := with_undo (with_work st no_work) (block_undo_free (cs_undo st)) in
  let? r := (if fatal then reject_fatal reason (cs_valid st) else reject 100 reason corrupt (cs_valid st)) in
  Some (with_valid st (fst r), false).

Definition reject_invalid_block (reason : string) : step := connect_block_reject_cleaned reason false false.
Definition out_of_memory : step := connect_block_reject_cleaned "out-of-memory" false true.

(** *** BIP 30 *)

(** The scan of [connect_block_next_bip30_self_write], resumed by its caller after
    every record that this height wrote. *)
Fixpoint bip30_scan (nHeight : Z) (c : cache) (l : list transaction) : option (cache * bool) :=
  match l with
  | [] => Some (c, true)
  | tx :: l =>
      let? r := coins_view_cache_have_coins c (tx_hash tx) in
      if negb (snd r) then bip30_scan nHeight (fst r) l
      else
        let? r := coins_view_cache_get_coins (fst r) (tx_hash tx) in
        match snd r with
        | None => bip30_scan nHeight (fst r) l
        | Some existing =>
            if coins_is_pruned existing then bip30_scan nHeight (fst r) l
            else if (c_height existing =? nHeight) && (0 <? nHeight) then bip30_scan nHeight (fst r) l
            else Some (fst r, false)
        end
  end.

Definition connect_block_bip30 (b : Block.block) (ix : connect_index) (c : cache) : option (cache * bool) :=
  if connect_block_skip_bip30 env ix then Some (c, true) else bip30_scan (ix_nHeight ix) c (vtx b).

(** *** Buffers *)

Definition connect_block_prepare_undo (b : Block.block) : option block_undo :=
  let undo := mk_block_undo [] uint256_set_null in
  if len (vtx b) <=? 1 then Some undo else block_undo_alloc undo (len (vtx b) - 1).

Definition spends (tx : transaction) : bool := negb (transaction_is_coinbase tx).

(** Room for one check per input and one record of digests per transaction, and for
    one at least. *)
Definition connect_block_alloc_script_work (b : Block.block) : option connect_script_work :=
  let l := List.filter spends (vtx b) in
  let checks_cap := Z.max 1 (sum_list (map (fun tx => len (vin tx)) l)) in
  let txdatas_cap := Z.max 1 (len l) in
  if alloc_ok (checks_cap * sizeof_script_check) && alloc_ok (checks_cap * sizeof_pointer) &&
     alloc_ok (txdatas_cap * sizeof_precomputed_tx_data)
  then Some (mk_work [] [] checks_cap txdatas_cap) else None.

(** *** One transaction *)

Fixpoint check_maturity (nHeight : Z) (c : cache) (l : list tx_in) : option (cache * bool) :=
  match l with
  | [] => Some (c, true)
  | i :: l =>
      let? r := coins_view_cache_get_coins c (op_hash (prevout i)) in
      let? premature :=
        (match snd r with
         | Some prev => if is_coinbase prev then let? depth := s32 (nHeight - c_height prev) in Some (depth <? COINBASE_MATURITY)
                        else Some false
         | None => Some false
         end) in
      if (premature : bool) then Some (fst r, false) else check_maturity nHeight (fst r) l
  end.

Fixpoint prevouts_of (c : cache) (l : list tx_in) : option (cache * list (option tx_out)) :=
  match l with
  | [] => Some (c, [])
  | i :: l =>
      let? r := coins_view_cache_get_output_for c i in
      let? r' := prevouts_of (fst r) l in
      Some (fst r', snd r :: snd r')
  end.

Definition get_p2sh_sig_op_count (tx : transaction) (c : cache) (flags : Z) : option (cache * Z) :=
  if flags .& SCRIPT_VERIFY_P2SH =? 0 then Some (c, 0)
  else if transaction_is_coinbase tx then Some (c, 0)
  else if len (vin tx) =? 0 then Some (c, 0)
  else if negb (alloc_ok (len (vin tx) * sizeof_pointer)) then Some (c, 0)
  else
    let? r := prevouts_of c (vin tx) in
    let? n := domain_consensus_tx_p2sh_sig_op_count (Some tx) (Some (snd r)) flags true in
    Some (fst r, match n with ZCL_OK n => n | ZCL_ERR _ => 0 end).

(** [*sig_ops += (unsigned int)count], and the limit. *)
Definition count_sig_ops (n : Z) : step := fun st =>
  let st := with_sig_ops st (u32 (cs_sig_ops st + u32 n)) in
  if MAX_BLOCK_SIGOPS <? cs_sig_ops st then reject_invalid_block "bad-blk-sigops" st else Some (st, true).

Definition connect_block_check_spend_inputs (tx : transaction) (ix : connect_index) (flags : Z) : step := fun st =>
  let? r := check_maturity (ix_nHeight ix) (cs_view st) (vin tx) in
  let st := with_view st (fst r) in
  if negb (snd r) then reject_invalid_block "bad-txns-premature-spend-of-coinbase" st
  else
    let? r := coins_view_cache_have_inputs (cs_view st) tx in
    let st := with_view st (fst r) in
    if negb (snd r) then reject_invalid_block "bad-txns-inputs-missingorspent" st
    else
      let? met := coins_view_cache_have_joinsplit_requirements (cs_view st) tx in
      if negb met then reject_invalid_block "bad-txns-joinsplit-requirements-not-met" st
      else
        let? r := get_p2sh_sig_op_count tx (cs_view st) flags in
        count_sig_ops (snd r) (with_view st (fst r)).

Definition connect_block_account_tx_fee (tx : transaction) : step := fun st =>
  let? r := coins_view_cache_get_value_in (cs_view st) tx in
  let st := with_view st (fst r) in
  let value_in := snd r in
  let? value_out := transaction_get_value_out tx in
  if value_in <? 0 then reject_invalid_block "bad-txns-inputvalues-outofrange" st
  else if negb (MoneyRange value_in) then reject_invalid_block "bad-txns-inputvalues-outofrange" st
  else if value_in <? value_out then reject_invalid_block "bad-txns-in-belowout" st
  else
    let? tx_fee := s64 (value_in - value_out) in
    if tx_fee <? 0 then reject_invalid_block "bad-txns-fee-negative" st
    else
      let? fees := s64 (cs_fees st + tx_fee) in
      if negb (MoneyRange fees) then reject_invalid_block "bad-txns-fee-outofrange" st
      else Some (with_fees st fees, true).

(** A full array is moved, and the pointers into it dangle. *)
Definition connect_block_push_txdata (tx_index : nat) (tx : transaction) : step := fun st =>
  let w := cs_work st in
  let grown :=
    (if txdatas_cap w <=? len (txdatas w) then
       let cap := if txdatas_cap w =? 0 then 64 else txdatas_cap w * 2 in
       if alloc_ok (cap * sizeof_precomputed_tx_data)
       then Some (mk_work (map dangle (checks w)) (txdatas w) (checks_cap w) cap) else None
     else Some w) in
  match grown with
  | None => out_of_memory st
  | Some w =>
      let? d := precompute_tx_data tx in
      if precompute_failed o tx_index then out_of_memory st
      else Some (with_work st (mk_work (checks w) (txdatas w ++ [d]) (checks_cap w) (txdatas_cap w)), true)
  end.

Definition connect_block_collect_one_input (tx : transaction) (j : nat) (i : tx_in) (flags branch_id : Z) : step := fun st =>
  let? r := coins_view_cache_get_output_for (cs_view st) i in
  let st := with_view st (fst r) in
  match snd r with
  | None => reject_invalid_block "bad-txns-inputs-missingorspent" st
  | Some prev_out =>
      if negb (MoneyRange (value prev_out)) then reject_invalid_block "bad-txns-inputvalues-outofrange" st
      else
        let w := cs_work st in
        let grown :=
          (if checks_cap w <=? len (checks w) then
             let cap := if checks_cap w =? 0 then 256 else checks_cap w * 2 in
             if alloc_ok (cap * sizeof_script_check) && alloc_ok (cap * sizeof_pointer)
             then Some (mk_work (map dangle (checks w)) (txdatas w) cap (txdatas_cap w)) else None
           else Some w) in
        match grown with
        | None => out_of_memory st
        | Some w =>
            let? txdata := last (txdatas w) in
            let sc := mk_check (script_sig i) (prevout i) flags branch_id
                        (tx_sig_checker_init tx (u32 (Z.of_nat j)) (value prev_out) branch_id (Some txdata)) true in
            Some (with_work st (mk_work (checks w ++ [sc]) (txdatas w) (checks_cap w) (txdatas_cap w)), true)
        end
  end.

Fixpoint collect_from (tx : transaction) (j : nat) (l : list tx_in) (flags branch_id : Z) : step :=
  match l with
  | [] => ok
  | i :: l => connect_block_collect_one_input tx j i flags branch_id ⊳ collect_from tx (Datatypes.S j) l flags branch_id
  end.
Definition connect_block_collect_tx_inputs (tx : transaction) (flags branch_id : Z) : step :=
  collect_from tx 0 (vin tx) flags branch_id.

Definition connect_block_collect_scripts (tx_index : nat) (tx : transaction) (flags branch_id : Z) (expensive_checks : bool) : step :=
  if negb expensive_checks then ok
  else connect_block_push_txdata tx_index tx ⊳ connect_block_collect_tx_inputs tx flags branch_id.

Definition connect_block_update_failed (tx_index : nat) : step :=
  if update_failed o tx_index then out_of_memory
  else connect_block_reject_cleaned "bad-txns-utxo-update-failed" true false.

(** The new record of a transaction frees the outputs of the one it replaces. *)
Definition free_outputs (txid : uint256) (sc : script_check) : script_check :=
  if bool_decide (op_hash (sk_prevout sc) = txid) then dangle sc else sc.

Definition connect_block_update_tx_coins (tx_index : nat) (tx : transaction) (ix : connect_index) : step := fun st =>
  let updated (c : cache) (undo : block_undo) : connect_state :=
    let w := cs_work st in
    with_undo (with_work (with_view st c) (mk_work (map (free_outputs (tx_hash tx)) (checks w)) (txdatas w) (checks_cap w) (txdatas_cap w))) undo in
  match tx_index with
  | Datatypes.S n =>
      let? slot := vtxundo (cs_undo st) !! n in
      let? r := update_coins_with_undo tx (cs_view st) slot (ix_nHeight ix) in
      match snd r with
      | None => connect_block_update_failed tx_index (with_view st (fst r))
      | Some u =>
          Some (updated (fst r) (mk_block_undo (<[n := u]> (vtxundo (cs_undo st))) (old_sprout_tree_root (cs_undo st))), true)
      end
  | O =>
      let? r := update_coins_with_undo tx (cs_view st) tx_undo_init (ix_nHeight ix) in
      match snd r with
      | None => connect_block_update_failed tx_index (with_view st (fst r))
      | Some _ => Some (updated (fst r) (cs_undo st), true)
      end
  end.

Definition connect_block_apply_one_tx (tx_index : nat) (tx : transaction) (ix : connect_index) (flags branch_id : Z)
    (expensive_checks : bool) : step := fun st =>
  let? n := get_legacy_sig_op_count tx flags in
  (count_sig_ops n ⊳
   (if negb (transaction_is_coinbase tx) then connect_block_check_spend_inputs tx ix flags else ok) ⊳
   (if negb (transaction_is_coinbase tx)
    then connect_block_account_tx_fee tx ⊳ connect_block_collect_scripts tx_index tx flags branch_id expensive_checks else ok) ⊳
   connect_block_update_tx_coins tx_index tx ix) st.

(** *** The scripts *)

(** The script that a check points to now; [None] is a read through a dangling
    pointer. *)
Definition pointed_script (c : cache) (sc : script_check) : option script :=
  if negb (sk_live sc) then None
  else
    let? slot := coins_map_find (cache_coins c) (op_hash (sk_prevout sc)) in
    let? e := entry_at (cache_coins c) slot in
    let? out := c_vout (e_coins e) !! Z.to_nat (op_n (sk_prevout sc)) in
    Some (script_pub_key out).

(** The check's answer and its [local_failure]. *)
Definition script_check_fn (c : cache) (n : nat) (sc : script_check) : option (bool * bool) :=
  let? spk := pointed_script c sc in
  match domain_consensus_verify_script (sk_flags sc) (Some (tx_make_sig_checker (ce_ecdsa env) (sk_tsc sc))) (sk_branch_id sc)
          (check_stacks o n) (sk_script_sig sc) spk with
  | Done _ => Some (true, false)
  | Fail _ => Some (false, check_failed o n)
  | UB => None
  end.

(** The pool takes the checks up in order and answers with the conjunction
    ([Workpool.workpool_run_spec]); a check taken up after one before it has failed is
    dropped, and its flag stays clear. *)
Fixpoint checks_in_parallel (c : cache) (failed : bool) (n : nat) (l : list script_check) : option (list (bool * bool)) :=
  match l with
  | [] => Some []
  | sc :: l =>
      if failed && pool_late o n then checks_in_parallel c failed (Datatypes.S n) l
      else
        let? r := script_check_fn c n sc in
        let? rs := checks_in_parallel c (failed || negb (fst r)) (Datatypes.S n) l in Some (r :: rs)
  end.

(** The loop ends at the first failure; the flags of the checks after it are clear. *)
Fixpoint checks_in_sequence (c : cache) (n : nat) (l : list script_check) : option (list (bool * bool)) :=
  match l with
  | [] => Some []
  | sc :: l =>
      let? r := script_check_fn c n sc in
      if fst r then let? rs := checks_in_sequence c (Datatypes.S n) l in Some (r :: rs) else Some [r]
  end.

Definition connect_block_verify_scripts : step := fun st =>
  let l := checks (cs_work st) in
  let freed := with_work st no_work in
  if len l =? 0 then Some (freed, true)
  else
    let? rs := (if script_pool o && (4 <=? len l) then checks_in_parallel (cs_view st) false 0 l else checks_in_sequence (cs_view st) 0 l) in
    if forallb fst rs then Some (freed, true)
    else
      let freed := with_undo freed (block_undo_free (cs_undo st)) in
      let? r := (if existsb snd rs then reject_fatal "out-of-memory" (cs_valid st)
                 else reject 100 "mandatory-script-verify-flag-failed" false (cs_valid st)) in
      Some (with_valid freed (fst r), false).

Fixpoint apply_from (tx_index : nat) (l : list transaction) (ix : connect_index) (flags branch_id : Z) (expensive_checks : bool) : step :=
  match l with
  | [] => ok
  | tx :: l => connect_block_apply_one_tx tx_index tx ix flags branch_id expensive_checks ⊳
               apply_from (Datatypes.S tx_index) l ix flags branch_id expensive_checks
  end.

Definition connect_block_apply_transactions (b : Block.block) (ix : connect_index) (flags branch_id : Z) (expensive_checks : bool) : step :=
  apply_from 0 (vtx b) ix flags branch_id expensive_checks ⊳ connect_block_verify_scripts.

(** *** The block *)

Definition connect_block_commit_genesis (c : cache) (block_hash : uint256) (just_check : bool) : cache :=
  if just_check then c else coins_view_cache_set_best_block c block_hash.

Definition connect_block_view_prev_ok (c : cache) (b : Block.block) : option (cache * bool) :=
  let? r := coins_view_cache_get_best_block c in
  Some (fst r, uint256_is_null (snd r) || (uint256_cmp (hashPrevBlock (header b)) (snd r) =? 0)).

(** The undo records are freed on every path. *)
Definition connect_block_finish_reward (b : Block.block) (ix : connect_index) (block_hash : uint256) (fees : Z) (just_check : bool)
    (c : cache) (s : validation_state) : option (cache * validation_state * bool) :=
  let? subsidy := get_block_subsidy (ix_nHeight ix) (consensus params) in
  if INT64_MAX - subsidy <? fees then let? r := reject 100 "bad-cb-reward-overflow" false s in Some (c, fst r, snd r)
  else
    let? block_reward := s64 (fees + subsidy) in
    let? coinbase := vtx b !! 0%nat in
    let? value_out := transaction_get_value_out coinbase in
    if block_reward <? value_out then let? r := reject 100 "bad-cb-amount" false s in Some (c, fst r, snd r)
    else if just_check then Some (c, s, true)
    else Some (coins_view_cache_set_best_block c block_hash, s, true).

(** The index, the view and the state are written; the answer is last. *)
Definition connect_block (b : Block.block) (s : validation_state) (ix : connect_index) (c : cache) (just_check : bool) :
    option (connect_index * cache * validation_state * bool) :=
  let block_hash := connect_block_load_block_hash ix b in
  let expensive_checks := connect_block_expensive_checks_enabled env params ix in
  let? r := check_block params (ce_registry env) (ce_equihash env) (ce_now env) b expensive_checks (negb just_check) true s in
  let s := fst r in
  if negb (snd r) then Some (ix, c, s, false)
  else if uint256_cmp block_hash (hashGenesisBlock (consensus params)) =? 0 then
    Some (ix, connect_block_commit_genesis c block_hash just_check, s, true)
  else
    let? r := connect_block_view_prev_ok c b in
    let c := fst r in
    if negb (snd r) then let? r := reject_fatal "connect_block-view-mismatch" s in Some (ix, c, fst r, snd r)
    else
      let? r := connect_block_apply_shielded_turnstile b ix s in
      let '(ix, s, pools_ok) := r in
      if negb pools_ok then Some (ix, c, s, false)
      else
        let? r := connect_block_bip30 b ix c in
        let c := fst r in
        if negb (snd r) then let? r := reject 100 "bad-txns-BIP30" false s in Some (ix, c, fst r, snd r)
        else
          match connect_block_prepare_undo b, connect_block_alloc_script_work b with
          | Some undo, Some work =>
              let flags := connect_block_script_flags env in
              let branch_id := consensus_current_epoch_branch_id (ix_nHeight ix) (consensus params) in
              let? r := connect_block_apply_transactions b ix flags branch_id expensive_checks (mk_cs c s undo work 0 0) in
              let st := fst r in
              if negb (snd r) then Some (ix, cs_view st, cs_valid st, false)
              else
                let? verdict := connect_block_sapling_root_status env b ix params just_check in
                match verdict with
                | ROOT_ZEROED => let? r := reject 100 "bad-sapling-root-zeroed" false (cs_valid st) in Some (ix, cs_view st, fst r, snd r)
                | ROOT_MISMATCH => let? r := reject 100 "bad-sapling-root-mismatch" false (cs_valid st) in Some (ix, cs_view st, fst r, snd r)
                | ROOT_OK =>
                    let? r := connect_block_finish_reward b ix block_hash (cs_fees st) just_check (cs_view st) (cs_valid st) in
                    let '(c, s, accepted) := r in Some (ix, c, s, accepted)
                end
          | _, _ => let? r := reject_fatal "out-of-memory" s in Some (ix, c, fst r, snd r)
          end.

End Connect.
