(* ===== verification/ConnectSpec.v ===== *)
(** * What a connected block did

    An accepted block is a list of transactions applied to a set of unspent outputs,
    within the money it may create; and what its script checks ran on. *)

From Stdlib Require Import String.
From stdpp Require Import base tactics list numbers option gmap.
From Stdlib Require Import ZArith Lia.
From S2P Require Import Prelude Arith256 Serialize ByteOrder Params Pow Script Hash Transaction TxCheck TxContext Block Equihash CryptoRegistry CheckBlock.
From S2P Require Import Coins CoinsMap UtxoCommitment IncrementalTree CoinsView Shielded UtxoSet UpdateCoins UpdateSpec.
From S2P Require Import SigEncoding Interp Sighash ContextualTx CheckHeader TxVerifier ConnectBlock.
#[local] Open Scope Z_scope.
#[local] Open Scope list_scope.

(** ** Amounts of a set *)

(** What a transaction adds to the shielded pools. *)
Definition tx_pool_change (tx : transaction) : Z :=
  sum_list (map vpub_old (v_joinsplit tx)) - sum_list (map vpub_new (v_joinsplit tx)) - value_balance tx.
Definition pool_change (l : list transaction) : Z := sum_list (map tx_pool_change l).

Definition set_money (U : utxo_set) : Prop := forall k u, U !! k = Some u -> 0 <= value (ut_out u) <= MAX_MONEY.

Lemma terms_balance tx :
  sum_list (out_terms tx) - sum_list (shielded_in_terms tx) = sum_list (map value (vout tx)) + tx_pool_change tx.
Proof.
  unfold out_terms, shielded_in_terms, tx_pool_change. rewrite !sum_list_app.
  destruct (Z.leb_spec (value_balance tx) 0), (Z.leb_spec 0 (value_balance tx)); cbn [sum_list]; lia.
Qed.

Lemma created_le tx : amounts (out_terms tx) -> 0 <= created_value tx <= sum_list (map value (vout tx)).
Proof.
  intros [Hm _]. unfold out_terms in Hm. apply Forall_app in Hm as [Hm _]. unfold created_value.
  induction (vout tx) as [|o l IH]; [done|]. cbn [map] in Hm. apply Forall_cons_iff in Hm as [Ho Hm]. specialize (IH Hm).
  rewrite filter_cons. case_decide; cbn [map sum_list] in *; lia.
Qed.

Lemma total_union D U : D ##ₘ U -> set_money D -> total U <= total (D ∪ U).
Proof.
  induction D as [|k u D Hk IH] using map_ind; intros S Hm; [by rewrite map_empty_union|].
  apply map_disjoint_insert_l in S as [Hu S]. rewrite <- insert_union_l, total_insert by (by apply lookup_union_None).
  pose proof (Hm k u (lookup_insert_eq _ _ _)). assert (set_money D) as HD; [|specialize (IH S HD); lia].
  intros k' u' E. apply (Hm k'). rewrite lookup_insert_ne; [done|]. intros ->. congruence.
Qed.

Lemma set_money_subset U U' : U' ⊆ U -> set_money U -> set_money U'.
Proof. intros S Hm k u E. eapply Hm, lookup_weaken; done. Qed.

Lemma total_subset U U' : U' ⊆ U -> set_money U -> total U' <= total U.
Proof.
  intros S Hm. rewrite <- (map_difference_union U' U S), map_union_comm by (by apply map_disjoint_difference_r1).
  apply total_union; [by apply map_disjoint_difference_l1|]. eapply set_money_subset, Hm. by apply map_subseteq_difference_l.
Qed.

Lemma connect_total tx h U us U' : amounts (out_terms tx) -> set_money U -> connect_tx U tx h = Some (us, U') ->
  total U' <= total U - utxo_values us + created_value tx /\ set_money U'.
Proof.
  intros Ha Hm. unfold connect_tx.
  assert (forall U1 us, U1 ⊆ U -> total U = utxo_values us + total U1 ->
    let U' := created tx h ∪ without_tx (tx_hash tx) U1 in total U' <= total U - utxo_values us + created_value tx /\ set_money U') as Go.
  { intros U1 us1 S Et U2. pose proof (set_money_subset _ _ S Hm) as Hm1.
    assert (without_tx (tx_hash tx) U1 ⊆ U1) as S1 by apply map_filter_subseteq. split.
    - unfold U2, created. rewrite create_from_total by (intros n; by rewrite without_lookup, decide_True).
      pose proof (total_subset _ _ S1 Hm1). unfold created_value. lia.
    - intros [k n] u E. unfold U2 in E. rewrite connect_lookup in E. case_decide; [|by eapply Hm1].
      destruct (vout tx !! n) as [o|] eqn:Eo; [|done]. cbn in E. destruct (spendable o); [|done]. injection E as <-. cbn.
      destruct Ha as [Ha _]. unfold out_terms in Ha. apply Forall_app in Ha as [Ha _].
      assert (money (value o)) as Hv; [|exact Hv]. rewrite List.Forall_forall in Ha. apply Ha, in_map. apply list_elem_of_In, list_elem_of_lookup. by exists n. }
  destruct (transaction_is_coinbase tx); cbn [mbind option_bind].
  - intros [= <- <-]. apply Go; [done|]. unfold utxo_values. cbn. lia.
  - destruct (spend_set U (vin tx)) as [[us1 U1]|] eqn:Es; [|done]. cbn [mbind option_bind fst snd]. intros [= <- <-].
    apply Go; [by eapply spend_set_subset|by eapply spend_set_total].
Qed.

(** ** The steps *)

Lemma s32_some z r : s32 z = Some r -> r = z.
Proof. unfold s32. destruct (_ && _); congruence. Qed.
Lemma s64_some z r : s64 z = Some r -> r = z.
Proof. unfold s64. destruct (_ && _); congruence. Qed.

(** Takes apart a [let?] or a test on the way to a result. *)
Ltac run H :=
  lazymatch type of H with
  | (match ?m with Some x => _ | None => None end) = Some _ => let E := fresh "E" in destruct m eqn:E; [|discriminate H]
  | (if ?b then _ else _) = Some _ => let E := fresh "E" in destruct b eqn:E
  end; cbv beta zeta in H.

Section Steps.
Context `{Allocator} `{HostOrder} `{CommitmentSkip} `{Pedersen} `{LowS} {V : Type} `{!CoinsViewVtable V} `{!CoinsViewLaws V} (Mem : memory_ok).
Context (env : connect_env) (params : chain_params) (o : oracle).
Abbreviation cache := (coins_view_cache V).
Abbreviation table := (gmap uint256 coins_cache_entry).

(** A rejection answers [false]. *)
Lemma rejected reason corrupt fatal (st st' : @connect_state V) : connect_block_reject_cleaned reason corrupt fatal st = Some (st', true) -> False.
Proof. unfold connect_block_reject_cleaned. cbv zeta. intros E. by run E. Qed.
Lemma oom_rejects (st st' : @connect_state V) : out_of_memory st = Some (st', true) -> False.
Proof. apply rejected. Qed.
Lemma invalid_rejects reason (st st' : @connect_state V) : reject_invalid_block reason st = Some (st', true) -> False.
Proof. apply rejected. Qed.

Lemma andthen_inv (m k : @step V) st st' : andthen m k st = Some (st', true) -> exists st1, m st = Some (st1, true) /\ k st1 = Some (st', true).
Proof. unfold andthen. destruct (m st) as [[st1 []]|]; cbn [fst snd]; [|done..]. intros E. by exists st1. Qed.

(** The outputs that the transaction spends are of mature transactions. *)
Definition mature (U : utxo_set) (h : Z) (l : list tx_in) : Prop :=
  forall i u, i ∈ l -> U !! op_key (prevout i) = Some u -> ut_coinbase u = true -> COINBASE_MATURITY <= h - ut_height u.

(** Along the transactions of a block. *)
Fixpoint all_mature (U : utxo_set) (h : Z) (l : list transaction) : Prop :=
  match l with
  | [] => True
  | tx :: l => (transaction_is_coinbase tx = false -> mature U h (vin tx)) /\
               forall us U', connect_tx U tx h = Some (us, U') -> all_mature U' h l
  end.

Lemma check_maturity_run U h l : inputs_wf l -> forall c c' (M : table), tracks c M U -> check_maturity h c l = Some (c', true) ->
  (exists M', quiet c c' M M') /\ mature U h l.
Proof.
  intros W. induction W as [|i l L W IH]; intros c c' M T E; cbn [check_maturity] in E.
  { injection E as <-. split; [exists M; apply quiet_refl, T|]. by intros i u Hi%not_elem_of_nil. }
  destruct (get_coins_spec Mem c M _ (tr_repr _ _ _ T) L) as (c1 & M1 & E1 & Q). rewrite E1 in E. cbn [fst snd] in E.
  run E. destruct b; [done|]. destruct (quiet_tracks _ _ _ _ _ T Q) as [T1 _].
  destruct (IH c1 c' M1 T1 E) as [(M' & Q') Hm]. split; [exists M'; by eapply quiet_trans|].
  intros j u [->|Hj]%elem_of_cons Eu Cb; [|by eapply Hm]. unfold op_key in Eu. rewrite (tracks_utxo _ _ _ _ _ T L) in Eu.
  destruct (shows c M (op_hash (prevout i))) as [v|]; [|done]. cbn [mbind option_bind] in Eu.
  unfold utxo_of in Eu. destruct (c_vout v !! _) as [x|]; [|done]. cbn in Eu. destruct (tx_out_is_null x); [done|]. injection Eu as <-. cbn in *.
  rewrite Cb in E0. destruct (s32 (h - c_height v)) as [d|] eqn:Es; [|done]. apply s32_some in Es as ->.
  injection E0 as E0. by apply Z.ltb_ge in E0.
Qed.

Lemma prevouts_run U l : inputs_wf l -> forall c r (M : table), tracks c M U -> prevouts_of c l = Some r -> exists M', quiet c (fst r) M M'.
Proof.
  intros W. induction W as [|i l L W IH]; intros c r M T E; cbn [prevouts_of] in E.
  { injection E as <-. exists M. apply quiet_refl, T. }
  destruct (get_output_spec Mem c M i (tr_repr _ _ _ T) L) as (c1 & M1 & E1 & Q). rewrite E1 in E. cbn [fst snd] in E.
  run E. injection E as <-. destruct (quiet_tracks _ _ _ _ _ T Q) as [T1 _].
  destruct (IH c1 _ M1 T1 E0) as (M' & Q'). exists M'. by eapply quiet_trans.
Qed.

Lemma p2sh_run (U : utxo_set) (tx : transaction) (flags : Z) (c : cache) (r : cache * Z) (M : table) : inputs_wf (vin tx) -> tracks c M U -> get_p2sh_sig_op_count tx c flags = Some r ->
  exists M', quiet c (fst r) M M'.
Proof.
  intros W T E. unfold get_p2sh_sig_op_count in E.
  repeat (run E; [injection E as <-; exists M; apply quiet_refl, T|]). run E. run E. injection E as <-. cbn [fst]. by eapply prevouts_run.
Qed.

Lemma count_sig_ops_run n (st st' : @connect_state V) : count_sig_ops n st = Some (st', true) -> exists k, st' = with_sig_ops st k /\ k <= MAX_BLOCK_SIGOPS.
Proof.
  unfold count_sig_ops. cbv zeta. intros E. run E; [by apply invalid_rejects in E|]. injection E as <-. eexists. split; [done|].
  by apply Z.ltb_ge in E0.
Qed.

Lemma check_spend_inputs_run (U : utxo_set) (M : table) (tx : transaction) (ix : connect_index) (flags : Z) (st st' : @connect_state V) : inputs_wf (vin tx) -> tracks (cs_view st) M U -> transaction_is_coinbase tx = false ->
  connect_block_check_spend_inputs tx ix flags st = Some (st', true) ->
  exists c M' k outs, st' = with_sig_ops (with_view st c) k /\ quiet (cs_view st) c M M' /\ mature U (ix_nHeight ix) (vin tx) /\
  spent_outputs (shows (cs_view st) M) (vin tx) = Some outs.
Proof.
  intros W T Nc E. unfold connect_block_check_spend_inputs in E. destruct (check_maturity _ _ _) as [[c1 []]|] eqn:E1; [| |done]; cbn [fst snd negb] in E.
  2:{ by apply invalid_rejects in E. }
  destruct (check_maturity_run U _ _ W _ _ _ T E1) as [(M1 & Q1) Hm]. destruct (quiet_tracks _ _ _ _ _ T Q1) as [T1 _].
  unfold coins_view_cache_have_inputs in E. rewrite Nc in E. cbn [cs_view with_view] in E.
  destruct (inputs_present_spec Mem c1 M1 (vin tx) (tr_repr _ _ _ T1) W) as (c2 & M2 & E2 & Q2). rewrite E2, spent_present in E. cbn [fst snd] in E.
  rewrite (quiet_spent _ _ _ _ _ Q1 W) in E. destruct (spent_outputs (shows (cs_view st) M) (vin tx)) as [outs|]; cbn in E.
  2:{ by apply invalid_rejects in E. }
  run E. destruct b; cbn [negb] in E; [|by apply invalid_rejects in E].
  destruct (get_p2sh_sig_op_count tx c2 flags) as [r|] eqn:Ep; [|done]. destruct (quiet_tracks _ _ _ _ _ T1 Q2) as [T2 _].
  destruct (p2sh_run U _ _ _ _ _ W T2 Ep) as (M3 & Q3). apply count_sig_ops_run in E as (k & -> & _).
  exists (fst r), M3, k, outs. split_and!; [done| |done|done]. eapply quiet_trans; [exact Q1|]. by eapply quiet_trans.
Qed.

Lemma account_tx_fee_run (U : utxo_set) (M : table) (tx : transaction) (st st' : @connect_state V) : inputs_wf (vin tx) -> tracks (cs_view st) M U -> transaction_is_coinbase tx = false ->
  amounts (out_terms tx) -> amounts (shielded_in_terms tx) ->
  connect_block_account_tx_fee tx st = Some (st', true) ->
  exists c M' outs, st' = with_fees (with_view st c) (cs_fees st + (sum_list (map value outs) + sum_list (shielded_in_terms tx) - sum_list (out_terms tx))) /\
  quiet (cs_view st) c M M' /\ spent_outputs (shows (cs_view st) M) (vin tx) = Some outs /\ Forall (fun x => 0 <= value x <= MAX_MONEY) outs /\
  sum_list (out_terms tx) <= sum_list (map value outs) + sum_list (shielded_in_terms tx).
Proof.
  intros W T Nc Ho Hi E. unfold connect_block_account_tx_fee in E. pose proof (balance_small tx Ho Hi) as Hb.
  assert (shielded_terms_ok tx) as Hs.
  { unfold shielded_terms_ok. split; [small_money|]. destruct Hi as [Hi _]. unfold shielded_in_terms in Hi. apply Forall_app in Hi as [_ Hi].
    by apply Forall_map in Hi. }
  destruct (get_value_in_spec Mem (cs_view st) M tx (tr_repr _ _ _ T) Nc W Hs) as (c & M' & E1 & Q). rewrite E1 in E. cbn [fst snd] in E.
  rewrite (value_out_total tx) in E; [|by apply amounts_addable|small_money..]. rewrite (amounts_total _ Ho) in E.
  run E; [by apply invalid_rejects in E|]. run E; [by apply invalid_rejects in E|]. run E; [by apply invalid_rejects in E|].
  apply Z.ltb_ge in E0, E3.
  destruct (spent_outputs (shows (cs_view st) M) (vin tx)) as [outs|]; [|done].
  unfold money_total in *. destruct (forallb MoneyRange _ && _) eqn:Em; [|done]. apply andb_true_iff in Em as [Em Et]. apply MoneyRange_spec in Et.
  destruct Ho as [_ Ho]. rewrite s64_ok in E by small_money. run E; [by apply invalid_rejects in E|]. run E. apply s64_some in E5 as ->.
  run E; [by apply invalid_rejects in E|]. injection E as <-. exists c, M', outs. rewrite sum_list_app in *. split_and!; [done|done|done| |lia].
  apply List.Forall_forall. intros x Hx. rewrite forallb_forall in Em. apply MoneyRange_spec, Em, in_or_app. left. by apply in_map.
Qed.

(** *** The queue *)

Abbreviation queue st := (checks (cs_work st)).

(** Every check stays, alive or not; a live one was there, or spends an input of [l]. *)
Definition queued (l : list tx_in) (q q' : list script_check) : Prop :=
  (forall sc, sc ∈ q -> exists sc', sc' ∈ q' /\ dangle sc' = dangle sc) /\
  (forall sc, sc ∈ q' -> sk_live sc = true -> sc ∈ q \/ sk_prevout sc ∈ map prevout l).

(** The check of an input is in the queue. *)
Definition queued_input (tx : transaction) (flags branch : Z) (q : list script_check) (j : nat) (i : tx_in) : Prop :=
  exists sc amount d, sc ∈ q /\
  dangle sc = mk_check (script_sig i) (prevout i) flags branch (tx_sig_checker_init tx (u32 (Z.of_nat j)) amount branch d) false.

Lemma dangle_twice sc : dangle (dangle sc) = dangle sc.
Proof. done. Qed.

Lemma queued_refl q : queued [] q q.
Proof. split; [intros sc Hs; by exists sc|by left]. Qed.

Lemma queued_dangle q : queued [] q (map dangle q).
Proof.
  split.
  - intros sc Hs. exists (dangle sc). split; [|done]. apply list_elem_of_fmap. by exists sc.
  - intros sc Hs Hl. apply list_elem_of_fmap in Hs as (sc0 & -> & _). done.
Qed.

Lemma queued_app l l' q1 q2 q3 : queued l q1 q2 -> queued l' q2 q3 -> queued (l ++ l') q1 q3.
Proof.
  intros [A1 B1] [A2 B2]. split.
  - intros sc Hs. destruct (A1 sc Hs) as (s1 & Hs1 & E1). destruct (A2 s1 Hs1) as (s2 & Hs2 & E2). exists s2. split; [done|congruence].
  - intros sc Hs Hl. rewrite map_app, elem_of_app. destruct (B2 sc Hs Hl) as [Hs2|Hs2]; [destruct (B1 sc Hs2 Hl)|]; tauto.
Qed.

Lemma queued_snoc q sc i : sk_prevout sc = prevout i -> queued [i] q (q ++ [sc]).
Proof.
  intros Ep. split.
  - intros s Hs. exists s. split; [|done]. apply elem_of_app. by left.
  - intros s Hs _. apply elem_of_app in Hs as [Hs|Hs]; [by left|]. apply list_elem_of_singleton in Hs as ->.
    right. rewrite Ep. by apply list_elem_of_singleton.
Qed.

Lemma queued_input_stays tx flags branch l q q' j i : queued l q q' -> queued_input tx flags branch q j i -> queued_input tx flags branch q' j i.
Proof. intros [A _] (sc & a & d & Hs & E). destruct (A sc Hs) as (sc' & Hs' & E'). exists sc', a, d. split; [done|congruence]. Qed.

Lemma push_txdata_run n tx (st st' : @connect_state V) : connect_block_push_txdata o n tx st = Some (st', true) ->
  exists w, st' = with_work st w /\ queued [] (queue st) (checks w).
Proof.
  unfold connect_block_push_txdata. cbv zeta. intros E.
  match type of E with match ?g with _ => _ end = _ => destruct g as [w|] eqn:Eg end; [|by apply oom_rejects in E].
  assert (queued [] (queue st) (checks w)) as Q.
  { destruct (_ <=? _); [destruct (alloc_ok _); [|done]; injection Eg as <-; apply queued_dangle|injection Eg as <-; apply queued_refl]. }
  run E. destruct (precompute_failed o n); [by apply oom_rejects in E|]. injection E as <-. eexists. split; [reflexivity|exact Q].
Qed.

Lemma collect_one_run (U : utxo_set) (M : table) tx j i flags branch (st st' : @connect_state V) :
  tracks (cs_view st) M U -> length (op_hash (prevout i)) = 32%nat ->
  connect_block_collect_one_input tx j i flags branch st = Some (st', true) ->
  exists c M' w, st' = with_work (with_view st c) w /\ quiet (cs_view st) c M M' /\ queued [i] (queue st) (checks w) /\
  queued_input tx flags branch (checks w) j i.
Proof.
  intros T L E. unfold connect_block_collect_one_input in E.
  destruct (get_output_spec Mem (cs_view st) M i (tr_repr _ _ _ T) L) as (c & M' & E1 & Q). rewrite E1 in E. cbn [fst snd] in E.
  destruct (output_at _ _) as [prev_out|]; [|by apply invalid_rejects in E].
  run E; [by apply invalid_rejects in E|]. cbv zeta in E.
  match type of E with match ?g with _ => _ end = _ => destruct g as [w|] eqn:Eg end; [|by apply oom_rejects in E].
  assert (queued [] (queue st) (checks w)) as Qw.
  { cbn [with_view cs_work] in Eg. destruct (_ <=? _); [destruct (_ && _); [|done]; injection Eg as <-; apply queued_dangle|injection Eg as <-; apply queued_refl]. }
  run E. injection E as <-. exists c, M'. eexists. split; [reflexivity|]. split; [done|]. cbn [checks]. split.
  - apply (queued_app [] [i] _ _ _ Qw). by apply queued_snoc.
  - eexists _, (value prev_out), _. split; [apply elem_of_app; right; by apply list_elem_of_singleton|]. reflexivity.
Qed.

Lemma collect_run (U : utxo_set) tx flags branch l : inputs_wf l -> forall j (M : table) (st st' : @connect_state V),
  tracks (cs_view st) M U -> collect_from tx j l flags branch st = Some (st', true) ->
  exists c M' w, st' = with_work (with_view st c) w /\ quiet (cs_view st) c M M' /\ queued l (queue st) (checks w) /\
  forall k i, l !! k = Some i -> queued_input tx flags branch (checks w) (j + k) i.
Proof.
  intros W. induction W as [|i l L W IH]; intros j M st st' T E; cbn [collect_from] in E.
  { injection E as <-. exists (cs_view st), M, (cs_work st). split; [by destruct st|]. split; [apply quiet_refl, T|].
    split; [apply queued_refl|]. intros k i Hk. by rewrite lookup_nil in Hk. }
  apply andthen_inv in E as (st1 & E1 & E). apply (collect_one_run U M) in E1 as (c1 & M1 & w1 & -> & Q1 & K1 & I1); [|done|done].
  destruct (quiet_tracks _ _ _ _ _ T Q1) as [T1 _].
  apply (IH _ M1) in E as (c & M' & w & -> & Q & K & I); [|exact T1]. exists c, M', w. split; [done|]. split; [by eapply quiet_trans|].
  split; [by apply (queued_app [i] l _ (checks w1))|]. intros [|k] i' Ek.
  - injection Ek as <-. rewrite Nat.add_0_r. by eapply queued_input_stays.
  - rewrite <- Nat.add_succ_comm. by apply I.
Qed.

Lemma collect_scripts_run (U : utxo_set) (M : table) n tx flags branch (expensive : bool) (st st' : @connect_state V) :
  inputs_wf (vin tx) -> tracks (cs_view st) M U -> connect_block_collect_scripts o n tx flags branch expensive st = Some (st', true) ->
  exists c M' w, st' = with_work (with_view st c) w /\ quiet (cs_view st) c M M' /\ queued (vin tx) (queue st) (checks w) /\
  (expensive = true -> forall j i, vin tx !! j = Some i -> queued_input tx flags branch (checks w) j i).
Proof.
  intros W T E. unfold connect_block_collect_scripts in E. destruct expensive; cbn [negb] in E.
  - apply andthen_inv in E as (st1 & E1 & E). apply push_txdata_run in E1 as (w1 & -> & Q1).
    apply (collect_run U tx flags branch _ W _ M) in E as (c & M' & w & -> & Q & K & I); [|exact T].
    exists c, M', w. split; [done|]. split; [done|]. split; [by apply (queued_app [] _ _ (checks w1))|]. intros _ j i Ej. by apply I.
  - injection E as <-. exists (cs_view st), M, (cs_work st). split; [by destruct st|]. split; [apply quiet_refl, T|]. split; [|done].
    split; [intros sc Hs; by exists sc|by left].
Qed.

(** *** The coins *)

Lemma lists_output (c : cache) (M : table) (U : utxo_set) op : tracks c M U -> length (op_hash op) = 32%nat ->
  output_at (shows c M) op = ut_out <$> U !! op_key op.
Proof.
  intros T L. unfold op_key. rewrite (tracks_utxo _ _ _ _ _ T L). unfold output_at.
  destruct (shows c M (op_hash op)) as [v|]; [|done]. cbn [mbind option_bind]. unfold utxo_of.
  destruct (c_vout v !! _) as [x|]; [|done]. cbn. by destruct (tx_out_is_null x).
Qed.

Lemma spent_set (c : cache) (M : table) (U U0 U' : utxo_set) l us : tracks c M U -> inputs_wf l -> U0 ⊆ U -> spend_set U0 l = Some (us, U') ->
  spent_outputs (shows c M) l = Some (map ut_out us).
Proof.
  intros T W. revert U0 us U'. induction W as [|i l L W IH]; intros U0 us U' S; cbn [spend_set]; [by intros [= <- <-]|].
  destruct (U0 !! op_key (prevout i)) as [u|] eqn:Eu; [|done]. cbn [mbind option_bind].
  destruct (spend_set (delete _ U0) l) as [[us1 U1]|] eqn:Es; [|done]. cbn. intros [= <- <-].
  unfold spent_outputs. cbn [mapM]. fold (spent_outputs (shows c M) l).
  rewrite (lists_output c M U) by done. rewrite (lookup_weaken _ _ _ _ Eu S). cbn [fmap option_fmap option_map mbind option_bind].
  rewrite (IH (delete (op_key (prevout i)) U0) us1 U1); [done| |done]. etrans; [apply delete_subseteq|done].
Qed.

Lemma spent_outpoints (c : cache) (M : table) (U : utxo_set) l outs : tracks c M U -> set_wf U -> Forall tx_in_wf l ->
  spent_outputs (shows c M) l = Some outs -> Forall (fun i => outpoint_ok (prevout i)) l.
Proof.
  intros T Ws W. revert outs. induction W as [|i l [[[_ L] [Hn _]] _] W IH]; intros outs E; [constructor|].
  unfold len in L. apply (inj Z.of_nat _ 32%nat) in L.
  unfold spent_outputs in E. cbn [mapM] in E. rewrite (lists_output c M U) in E by done.
  destruct (U !! op_key (prevout i)) as [u|] eqn:Eu; [|done]. cbn [fmap option_fmap option_map mbind option_bind] in E.
  fold (spent_outputs (shows c M) l) in E. destruct (spent_outputs (shows c M) l) as [outs1|]; [|done]. constructor; [|by eapply IH].
  split; [done|]. unfold op_key in Eu. apply (wf_index _ Ws) in Eu. unfold UINT32_MAX. lia.
Qed.

Lemma inputs_wf_of l : Forall tx_in_wf l -> inputs_wf l.
Proof. intros W. unfold inputs_wf. rewrite List.Forall_forall in *. intros i Hi. destruct (W i Hi) as [[[_ L] _] _]. unfold len in L. lia. Qed.

(** What a transaction of a block satisfies before it meets the coins. *)
Record tx_fit (tx : transaction) : Prop := {
  fit_inputs : Forall tx_in_wf (vin tx);
  fit_count : len (vin tx) < 2 ^ 32;
  fit_hash : length (tx_hash tx) = 32%nat;
  fit_out : amounts (out_terms tx);
  fit_in : amounts (shielded_in_terms tx);
}.

(** A live check points to an output that has been emptied. *)
Definition blind (M : table) (q : list script_check) : Prop :=
  forall sc, sc ∈ q -> sk_live sc = true -> length (op_hash (sk_prevout sc)) = 32%nat /\ nulled M (op_key (sk_prevout sc)).

Lemma blind_quiet (M M' : table) q : retains M M' -> blind M q -> blind M' q.
Proof. intros R B sc Hs Hl. destruct (B sc Hs Hl) as [L N]. split; [done|]. by eapply retains_nulled. Qed.

Lemma free_outputs_queued t q : queued [] q (map (free_outputs t) q).
Proof.
  split.
  - intros sc Hs. exists (free_outputs t sc). split; [apply list_elem_of_fmap; by exists sc|]. unfold free_outputs. by case_bool_decide.
  - intros sc Hs Hl. apply list_elem_of_fmap in Hs as (s & -> & Hs). left. unfold free_outputs in *. by case_bool_decide.
Qed.

Lemma blind_update (M M' : table) t l q : inputs_wf l -> empties (Some t) l M M' ->
  (forall sc, sc ∈ q -> sk_live sc = true -> (length (op_hash (sk_prevout sc)) = 32%nat /\ nulled M (op_key (sk_prevout sc))) \/ sk_prevout sc ∈ map prevout l) ->
  blind M' (map (free_outputs t) q).
Proof.
  intros W Em B sc Hs Hl. apply list_elem_of_fmap in Hs as (s & -> & Hs). unfold free_outputs in *.
  destruct (bool_decide (op_hash (sk_prevout s) = t)) eqn:Et; [done|]. apply bool_decide_eq_false in Et.
  destruct (B s Hs Hl) as [[L N]|Hi].
  - split; [done|]. apply Em; [cbn; congruence|]. by left.
  - apply list_elem_of_fmap in Hi as (i & Ei & Hi). rewrite Ei in *. split.
    + unfold inputs_wf in W. rewrite List.Forall_forall in W. by apply W, list_elem_of_In.
    + apply Em; [cbn; congruence|]. right. apply list_elem_of_fmap. by exists i.
Qed.

Lemma update_tx_coins_run (M : table) (U : utxo_set) n tx ix (st st' : @connect_state V) : tracks (cs_view st) M U -> tx_ids_ok tx ->
  connect_block_update_tx_coins o n tx ix st = Some (st', true) ->
  exists M' us U', connect_tx U tx (ix_nHeight ix) = Some (us, U') /\ tx_amounts_ok us tx = true /\ tracks (cs_view st') M' U' /\
  cache_best (cs_view st') = cache_best (cs_view st) /\
  empties (Some (tx_hash tx)) (if transaction_is_coinbase tx then [] else vin tx) M M' /\
  queue st' = map (free_outputs (tx_hash tx)) (queue st) /\ cs_valid st' = cs_valid st /\ cs_fees st' = cs_fees st.
Proof.
  intros T Ok E. unfold connect_block_update_tx_coins, connect_block_update_failed in E.
  assert (forall slot c u, update_coins_with_undo tx (cs_view st) slot (ix_nHeight ix) = Some (c, Some u) ->
    exists M' us U', connect_tx U tx (ix_nHeight ix) = Some (us, U') /\ tx_amounts_ok us tx = true /\ tracks c M' U' /\
    cache_best c = cache_best (cs_view st) /\ empties (Some (tx_hash tx)) (if transaction_is_coinbase tx then [] else vin tx) M M') as Go.
  { intros slot c u Eu. pose proof (update_coins_spec Mem (cs_view st) M U tx slot (ix_nHeight ix) T Ok) as Sp.
    destruct (connect_tx U tx (ix_nHeight ix)) as [[us U']|]; [|destruct Sp as [c' Sp]; congruence].
    destruct (tx_amounts_ok us tx) eqn:Ea; [|destruct Sp as [c' Sp]; congruence].
    destruct Sp as (c' & M' & uns & Sp & T' & B & _ & _ & Em). rewrite Sp in Eu. injection Eu as <- _. by exists M', us, U'. }
  destruct n as [|n]; cbv zeta in E; [|run E];
    (destruct (update_coins_with_undo tx (cs_view st) _ (ix_nHeight ix)) as [[c [u|]]|] eqn:Eu; cbn [fst snd] in E;
      [|by destruct (update_failed _ _); [apply oom_rejects in E|apply rejected in E]|done];
     destruct (Go _ _ _ Eu) as (M' & us & U' & G1 & G2 & G3 & G4 & G5); injection E as <-; by exists M', us, U').
Qed.

Lemma apply_one_run (M : table) (U : utxo_set) n tx ix flags branch (expensive : bool) (st st' : @connect_state V) :
  tracks (cs_view st) M U -> set_wf U -> 0 < ix_nHeight ix < 2 ^ 31 -> tx_fit tx -> blind M (queue st) ->
  connect_block_apply_one_tx o n tx ix flags branch expensive st = Some (st', true) ->
  exists M' us U', connect_tx U tx (ix_nHeight ix) = Some (us, U') /\ tracks (cs_view st') M' U' /\ set_wf U' /\
  cache_best (cs_view st') = cache_best (cs_view st) /\ cs_valid st' = cs_valid st /\
  blind M' (queue st') /\ (exists l, queued l (queue st) (queue st')) /\
  (if transaction_is_coinbase tx then cs_fees st' = cs_fees st
   else cs_fees st' = cs_fees st + (utxo_values us + sum_list (shielded_in_terms tx) - sum_list (out_terms tx)) /\
        cs_fees st <= cs_fees st' /\ mature U (ix_nHeight ix) (vin tx) /\
        (expensive = true -> forall j i, vin tx !! j = Some i -> queued_input tx flags branch (queue st') j i)).
Proof.
  intros T Ws Hh F B E. pose proof (inputs_wf_of _ (fit_inputs _ F)) as W. unfold connect_block_apply_one_tx in E. run E.
  apply andthen_inv in E as (st1 & E1 & E). apply count_sig_ops_run in E1 as (k1 & -> & _).
  destruct (transaction_is_coinbase tx) eqn:Cb; cbn [negb] in E.
  - apply andthen_inv in E as (st2 & E1 & E). injection E1 as <-. apply andthen_inv in E as (st3 & E1 & E). injection E1 as <-.
    apply (update_tx_coins_run M U) in E as (M' & us & U' & G1 & G2 & G3 & G4 & G5 & G6 & G7 & G8); [|exact T|by split; [apply F|congruence]].
    exists M', us, U'. rewrite Cb in G5. unfold tx_amounts_ok in G2. apply andb_true_iff in G2 as [G2 _]. apply andb_true_iff in G2 as [_ G2]. apply Z.leb_le in G2.
    split_and!; [done|done|by eapply connect_wf|done|done| |exists []; rewrite G6; apply free_outputs_queued|done].
    rewrite G6. eapply blind_update; [constructor|exact G5|]. intros sc Hs Hl. left. by apply B.
  - apply andthen_inv in E as (st2 & E1 & E).
    apply (check_spend_inputs_run U M) in E1 as (c2 & M2 & k2 & outs & -> & Q2 & Hm & Eo); [|done|exact T|done].
    cbn [cs_view with_sig_ops with_view] in *. destruct (quiet_tracks _ _ _ _ _ T Q2) as [T2 [B2 _]].
    apply andthen_inv in E as (st3 & E1 & E). apply andthen_inv in E1 as (st4 & E1 & E2).
    apply (account_tx_fee_run U M2) in E1 as (c3 & M3 & outs' & -> & Q3 & Eo' & _ & Hf); [|done|exact T2|done|apply F|apply F].
    cbn [cs_view with_sig_ops with_view] in *. destruct (quiet_tracks _ _ _ _ _ T2 Q3) as [T3 [B3 _]].
    apply (collect_scripts_run U M3) in E2 as (c4 & M4 & w & -> & Q4 & K & I); [|done|exact T3].
    cbn [cs_view with_fees with_view] in *. destruct (quiet_tracks _ _ _ _ _ T3 Q4) as [T4 [B4 _]].
    assert (Forall (fun i => outpoint_ok (prevout i)) (vin tx)) as Op by (eapply spent_outpoints; [exact T|done|apply F|exact Eo]).
    apply (update_tx_coins_run M4 U) in E as (M' & us & U' & G1 & G2 & G3 & G4 & G5 & G6 & G7 & G8); [|exact T4|by split; [apply F|]].
    assert (outs' = map ut_out us) as ->.
    { unfold connect_tx in G1. rewrite Cb in G1. destruct (spend_set U (vin tx)) as [[us1 U1]|] eqn:Es; [|done]. injection G1 as <- _.
      cbn [cs_view with_view with_sig_ops] in Eo'. rewrite (spent_set _ _ _ _ _ _ _ T2 W (reflexivity U) Es) in Eo'. congruence. }
    rewrite map_map in *. fold (utxo_values us) in *. rewrite Cb in G5. pose proof G2 as G2'.
    unfold tx_amounts_ok in G2. apply andb_true_iff in G2 as [G2 _]. apply andb_true_iff in G2 as [_ G2]. apply Z.leb_le in G2.
    cbn [cs_view cs_valid cs_fees cs_work with_work with_view with_fees with_sig_ops] in *.
    exists M', us, U'. split_and!; [done|done|by eapply connect_wf|congruence|done| | |done| |done|].
    + rewrite G6. eapply blind_update; [exact W|exact G5|]. intros sc Hs Hl. destruct (proj2 K sc Hs Hl) as [Hs'|Hi]; [|by right]. left.
      revert sc Hs' Hl Hs. intros sc Hs' Hl _. apply (blind_quiet M M4 (queue st)); [|done..]. eapply retains_trans; [apply Q2|]. eapply retains_trans; [apply Q3|apply Q4].
    + exists (vin tx). rewrite G6. rewrite <- (app_nil_r (vin tx)). eapply queued_app; [exact K|apply free_outputs_queued].
    + rewrite G8. lia.
    + intros He j i Ej. rewrite G6. eapply queued_input_stays; [apply free_outputs_queued|]. by apply I.
Qed.

(** *** All transactions *)

(** The fees of transactions that are not coinbases; what the block takes out of the
    set and puts into the pools is at most what was there. *)
Lemma apply_from_run flags branch (expensive : bool) ix l : Forall tx_fit l -> 0 < ix_nHeight ix < 2 ^ 31 ->
  forall n (M : table) (U : utxo_set) (st st' : @connect_state V),
  tracks (cs_view st) M U -> set_wf U -> set_money U -> blind M (queue st) ->
  apply_from o n l ix flags branch expensive st = Some (st', true) ->
  exists M' uss U', connect_txs U l (ix_nHeight ix) = Some (uss, U') /\ tracks (cs_view st') M' U' /\ set_wf U' /\ set_money U' /\
  cache_best (cs_view st') = cache_best (cs_view st) /\ cs_valid st' = cs_valid st /\
  blind M' (queue st') /\ (exists l, queued l (queue st) (queue st')) /\
  (expensive = true -> forall tx j i, tx ∈ l -> transaction_is_coinbase tx = false -> vin tx !! j = Some i ->
     queued_input tx flags branch (queue st') j i) /\
  cs_fees st <= cs_fees st' /\ all_mature U (ix_nHeight ix) l /\
  total U' + cs_fees st' + pool_change (List.filter spends l) <=
    total U + cs_fees st + sum_list (map created_value (List.filter transaction_is_coinbase l)).
Proof.
  intros F Hh. induction F as [|tx l Ft F IH]; intros n M U st st' T Ws Wm B E; cbn [apply_from] in E.
  { injection E as <-. exists M, [], U. split_and!; try done; [by exists []; apply queued_refl|].
    intros _ tx j i Hx. by apply not_elem_of_nil in Hx. }
  apply andthen_inv in E as (st1 & E1 & E).
  apply (apply_one_run M U) in E1 as (M1 & us & U1 & G1 & G2 & G3 & G4 & G5 & G6 & (l1 & G7) & G8); [|done..].
  destruct (connect_total _ _ _ _ _ (fit_out _ Ft) Wm G1) as [Ht Wm1].
  destruct (IH _ M1 U1 _ _ G2 G3 Wm1 G6 E) as (M' & uss & U' & R1 & R2 & R3 & R4 & R5 & R6 & R7 & (l2 & R8) & R9 & R10 & Rm & R11).
  exists M', (us :: uss), U'. cbn [connect_txs]. rewrite G1. cbn [mbind option_bind fst snd]. rewrite R1. cbn [mbind option_bind fst snd].
  pose proof (terms_balance tx) as Tb. pose proof (created_le tx (fit_out _ Ft)) as Hcr.
  assert (cs_fees st <= cs_fees st1) as Hle by (destruct (transaction_is_coinbase tx); lia).
  split_and!; [done|done|done|done|congruence|congruence|done|exists (l1 ++ l2); by eapply queued_app| |lia| |].
  - intros He tx' j i [->|Hx]%elem_of_cons Cb Ei; [|by eapply R9]. rewrite Cb in G8. destruct G8 as (_ & _ & _ & G8).
    eapply queued_input_stays; [exact R8|]. by apply G8.
  - split; [intros Cb; rewrite Cb in G8; apply G8|]. intros us0 U0 E0. rewrite G1 in E0. by injection E0 as <- <-.
  - cbn [List.filter]. unfold spends at 1. unfold pool_change in *. destruct (transaction_is_coinbase tx) eqn:Cb; cbn [negb map sum_list].
    + assert (utxo_values us = 0); [|lia]. unfold connect_tx in G1. rewrite Cb in G1. by injection G1 as <- _.
    + destruct G8 as (G8 & _). lia.
Qed.

(** *** The scripts *)

(** The empty script, which is what a live check finds when the checks are run. *)
Lemma blind_script (c : cache) (M : table) q n sc : cache_repr c M -> blind M q -> sc ∈ q ->
  forall r, script_check_fn env o c n sc = Some (true, r) ->
  domain_consensus_verify_script (sk_flags sc) (Some (tx_make_sig_checker (ce_ecdsa env) (sk_tsc sc))) (sk_branch_id sc)
    (check_stacks o n) (sk_script_sig sc) [] = Done tt.
Proof.
  intros R B Hs r E. unfold script_check_fn, pointed_script in E. destruct (sk_live sc) eqn:Hl; [|done]. cbn [negb] in E.
  destruct (B sc Hs Hl) as [L (e & Ee & En)]. unfold op_key in Ee, En. cbn [fst snd] in Ee, En.
  pose proof (find_points _ _ _ (cr_map _ _ R) L) as Fp. destruct (coins_map_find _ _) as [s|]; [|congruence].
  destruct Fp as (e' & P & Ee'). rewrite (points_entry _ _ _ _ P) in E. rewrite Ee in Ee'. injection Ee' as <-. rewrite En in E.
  cbv beta iota in E. change (script_pub_key tx_out_set_null) with (@nil Z) in E.
  by destruct (domain_consensus_verify_script _ _ _ _ _ _) as [[]| |].
Qed.

Lemma parallel_checks (c : cache) n q rs : checks_in_parallel env o c false n q = Some rs -> forallb fst rs = true ->
  forall sc, sc ∈ q -> exists k r, script_check_fn env o c k sc = Some (true, r).
Proof.
  revert n rs. induction q as [|sc q IH]; intros n rs E Hr s Hs; [by apply not_elem_of_nil in Hs|].
  cbn [checks_in_parallel andb orb] in E. run E. destruct (checks_in_parallel env o c _ (S n) q) as [rs'|] eqn:E1; [|done]. injection E as <-.
  cbn [forallb] in Hr. apply andb_true_iff in Hr as [Hf Hr]. rewrite Hf in E1. apply elem_of_cons in Hs as [->|Hs]; [|by eapply IH].
  exists n, (snd p). rewrite E0. destruct p as [b ?]. cbn in *. by rewrite Hf.
Qed.

Lemma sequence_checks (c : cache) n q rs : checks_in_sequence env o c n q = Some rs -> forallb fst rs = true ->
  forall sc, sc ∈ q -> exists k r, script_check_fn env o c k sc = Some (true, r).
Proof.
  revert n rs. induction q as [|sc q IH]; intros n rs E Hr s Hs; [by apply not_elem_of_nil in Hs|].
  cbn [checks_in_sequence] in E. run E. destruct p as [[] r]; cbn [fst] in E; [|by injection E as <-].
  destruct (checks_in_sequence env o c (S n) q) as [rs'|] eqn:E1; [|done]. injection E as <-.
  cbn [forallb fst andb] in Hr. apply elem_of_cons in Hs as [->|Hs]; [by exists n, r|by eapply IH].
Qed.

Lemma verify_scripts_run (M : table) (st st' : @connect_state V) : cache_repr (cs_view st) M -> blind M (queue st) ->
  connect_block_verify_scripts env o st = Some (st', true) ->
  st' = with_work st no_work /\
  forall sc, sc ∈ queue st -> exists stacks,
    domain_consensus_verify_script (sk_flags sc) (Some (tx_make_sig_checker (ce_ecdsa env) (sk_tsc sc))) (sk_branch_id sc) stacks (sk_script_sig sc) [] = Done tt.
Proof.
  intros R B E. unfold connect_block_verify_scripts in E. cbv zeta in E. destruct (len (queue st) =? 0) eqn:En.
  { injection E as <-. split; [done|]. intros sc Hs. apply len_zero in En. rewrite En in Hs. by apply not_elem_of_nil in Hs. }
  run E. destruct (forallb fst l) eqn:Ef; [|by run E]. injection E as <-. split; [done|]. intros sc Hs.
  assert (exists k r, script_check_fn env o (cs_view st) k sc = Some (true, r)) as (k & r & Er).
  { destruct (script_pool o && _); [by eapply parallel_checks|by eapply sequence_checks]. }
  exists (check_stacks o k). by eapply blind_script.
Qed.

(** *** Around the transactions *)

Lemma bip30_run (U : utxo_set) h l : Forall (fun tx => length (tx_hash tx) = 32%nat) l -> forall (c c' : cache) (M : table), tracks c M U ->
  bip30_scan h c l = Some (c', true) ->
  (exists M', quiet c c' M M') /\ forall tx n u, tx ∈ l -> U !! (tx_hash tx, n) = Some u -> ut_height u = h.
Proof.
  induction 1 as [|tx l L W IH]; intros c c' M T E; cbn [bip30_scan] in E.
  { injection E as <-. split; [exists M; apply quiet_refl, T|]. by intros tx n u Hx%not_elem_of_nil. }
  destruct (have_coins_spec c M (tx_hash tx) (tr_repr _ _ _ T) L) as (c1 & E1 & Q1). rewrite E1 in E. cbn [fst snd] in E.
  destruct (quiet_tracks _ _ _ _ _ T Q1) as [T1 _].
  assert (forall n, U !! (tx_hash tx, n) = shows c M (tx_hash tx) ≫= fun v => utxo_of v n) as Eu by (intros; by apply tracks_utxo).
  assert (forall c2 M2, quiet c c2 M M2 -> bip30_scan h c2 l = Some (c', true) -> (forall n u, U !! (tx_hash tx, n) = Some u -> ut_height u = h) ->
    (exists M', quiet c c' M M') /\ forall tx' n u, tx' ∈ tx :: l -> U !! (tx_hash tx', n) = Some u -> ut_height u = h) as Go.
  { intros c2 M2 Q2 E2 Hx. destruct (quiet_tracks _ _ _ _ _ T Q2) as [T2 _]. destruct (IH c2 c' M2 T2 E2) as [(M' & Q') Hl].
    split; [exists M'; by eapply quiet_trans|]. intros tx' n u [->|Ht]%elem_of_cons; [apply Hx|by apply Hl]. }
  destruct (shows c M (tx_hash tx)) as [v|] eqn:Ev;
    [rewrite bool_decide_true in E by done|rewrite bool_decide_false in E by (by intros [])]; cbn [negb] in E.
  2:{ eapply Go; [exact Q1|exact E|]. intros n u. by rewrite Eu. }
  destruct (get_coins_spec Mem c1 M (tx_hash tx) (tr_repr _ _ _ T1) L) as (c2 & M2 & E2 & Q2). rewrite E2 in E. cbn [fst snd] in E.
  assert (shows c1 M (tx_hash tx) = Some v) as Ev1 by (rewrite <- Ev; symmetry; by apply Q1). rewrite Ev1 in E.
  rewrite (shows_live _ _ _ _ (tr_repr _ _ _ T) L Ev) in E. destruct (_ && _) eqn:Eh; [|done]. apply andb_true_iff in Eh as [Eh _]. apply Z.eqb_eq in Eh.
  eapply Go; [by eapply quiet_trans|exact E|]. intros n u. rewrite Eu. cbn [mbind option_bind]. unfold utxo_of.
  destruct (c_vout v !! n) as [x|]; [|done]. cbn. destruct (tx_out_is_null x); [done|]. by intros [= <-].
Qed.

End Steps.

(** *** The pools *)

Definition sprout_change (l : list transaction) : Z :=
  sum_list (map (fun tx => sum_list (map vpub_old (v_joinsplit tx)) - sum_list (map vpub_new (v_joinsplit tx))) l).
Definition sapling_change (l : list transaction) : Z := sum_list (map (fun tx => - value_balance tx) l).

Lemma pool_changes l : pool_change l = sprout_change l + sapling_change l.
Proof. unfold pool_change, sprout_change, sapling_change. induction l as [|tx l IH]; [done|]. cbn. unfold tx_pool_change at 1. lia. Qed.

Lemma joinsplits_value_some acc l v : joinsplits_value acc l = Some v ->
  v = acc + sum_list (map vpub_old l) - sum_list (map vpub_new l).
Proof.
  revert acc. induction l as [|js l IH]; intros acc E; cbn [joinsplits_value] in E; [injection E as <-; cbn; lia|].
  run E. apply s64_some in E0 as ->. run E. apply s64_some in E0 as ->. apply IH in E. cbn. lia.
Qed.

Lemma shielded_values_some a b l r : shielded_values a b l = Some r -> r = (a + sprout_change l, b + sapling_change l).
Proof.
  unfold sprout_change, sapling_change. revert a b. induction l as [|tx l IH]; intros a b E; cbn [shielded_values] in E.
  { injection E as <-. cbn. by rewrite !Z.add_0_r. }
  run E. apply joinsplits_value_some in E0 as ->. run E. apply s64_some in E0 as ->. apply IH in E. subst r. cbn. f_equal; lia.
Qed.

(** The totals that are known stay known, follow the block and are not negative. *)
Definition pool_follows (known : bool) (total : Z) (known' : bool) (total' change : Z) : Prop :=
  known = true -> known' = true /\ total' = total + change /\ 0 <= total'.

Definition pools_follow (ix ix' : connect_index) (l : list transaction) : Prop :=
  ix_nHeight ix' = ix_nHeight ix /\
  forall parent, ix_pprev ix = Some parent ->
    pool_follows (has_chain_sprout_value parent) (nChainSproutValue parent)
      (has_chain_sprout_value (ix_pools ix')) (nChainSproutValue (ix_pools ix')) (sprout_change l) /\
    pool_follows (has_chain_sapling_value parent) (nChainSaplingValue parent)
      (has_chain_sapling_value (ix_pools ix')) (nChainSaplingValue (ix_pools ix')) (sapling_change l).

Lemma reject_false d reason corruption s s' : reject d reason corruption s = Some (s', true) -> False.
Proof. unfold reject, validation_state_dos. destruct (mode s); [destruct (s32 _)|destruct (s32 _)|]; congruence. Qed.

Lemma turnstile_run b ix s ix' s' : connect_block_apply_shielded_turnstile b ix s = Some (ix', s', true) -> s' = s /\ pools_follow ix ix' (vtx b).
Proof.
  unfold connect_block_apply_shielded_turnstile, pools_follow. destruct (ix_pprev ix) as [parent|]; [|by intros [= <- <-]]. intros E.
  destruct (connect_block_shielded_values b) as [[sp sa]|] eqn:Ev; [|done]. apply shielded_values_some in Ev. injection Ev as -> ->.
  unfold pool_total in E.
  assert (forall n s s' (ix ix' : connect_index), match reject 100 n false s with Some x => Some (ix, fst x, snd x) | None => None end = Some (ix', s', true) -> False) as Rj.
  { intros n s0 s0' i i'. destruct (reject 100 n false s0) as [[s1 []]|] eqn:Er; [by apply reject_false in Er|cbn; congruence..]. }
  destruct (has_chain_sprout_value parent) eqn:K1.
  all: try (destruct (s64 (nChainSproutValue parent + _)) as [t|] eqn:E1; [|done]; apply s64_some in E1 as ->).
  all: cbn [negative] in E; try (destruct (_ <? 0) eqn:N1; [by apply Rj in E|apply Z.ltb_ge in N1]).
  all: destruct (has_chain_sapling_value parent) eqn:K2.
  all: try (destruct (s64 (nChainSaplingValue parent + _)) as [t|] eqn:E2; [|done]; apply s64_some in E2 as ->).
  all: cbn [negative] in E; try (destruct (_ <? 0) eqn:N2 in E; [by apply Rj in E|apply Z.ltb_ge in N2]).
  all: injection E as <- <-; split; [done|split; [done|intros ? [= <-]; split; intros K; try congruence; cbn in *; split_and!; (done || lia)]].
Qed.

(** *** The context-free checks *)

Lemma header_passes `{Allocator} `{HostOrder} p reg cache now h pow s s' : check_block_header p reg cache now h pow s = Some (s', true) -> s' = s.
Proof.
  intros E. unfold check_block_header in E. destruct (_ <? _); [by apply reject_false in E|]. unfold vand in E.
  assert (forall m : option (validation_state * bool), (forall s1, m = Some (s1, true) -> s1 = s) ->
    (match m with Some (s1, passed) => if passed then check_header_time now h s1 else Some (s1, false) | None => None end) = Some (s', true) -> s' = s) as Go.
  { intros m Hm Em. destruct m as [[s1 []]|]; [|discriminate Em..]. rewrite (Hm s1) in Em by done. unfold check_header_time in Em.
    run Em. run Em; [|congruence]. unfold reject_invalid, validation_state_invalid in Em. by apply (reject_false 0 "time-too-new" false s) in Em. }
  destruct pow; [apply (Go (check_header_pow p reg cache h s)); [|exact E]|apply (Go (vpass s)); [unfold vpass; intros; congruence|exact E]]. intros s1 E1. unfold check_header_pow in E1.
  run E1. destruct p0 as [[ok failed] ?]. cbv beta iota in E1.
  destruct (negb ok && failed); [done|]. destruct (negb ok); [by apply reject_false in E1|].
  destruct (negb (CheckProofOfWork _ _ _)); [by apply reject_false in E1|congruence].
Qed.

Lemma check_block_passes `{Allocator} `{HostOrder} p reg cache now b pow s s' : memory_ok -> block_wf b -> 20 * len (block_enc b) < 2 ^ 32 ->
  mode s = MODE_VALID -> st_dos s = 0 ->
  check_block p reg cache now b pow true true s = Some (s', true) -> s' = s /\ block_body_valid b.
Proof.
  intros M W Hl Hs Hd E. unfold check_block, vand in E. destruct (check_block_header _ _ _ _ _ _ _) as [[s1 []]|] eqn:Eh; [|done..].
  apply header_passes in Eh as ->. destruct (body_judged M b W Hl s Hs Hd) as [[E1 V]|[(s1 & E1 & _) _]]; rewrite E1 in E; [|done].
  by injection E as <-.
Qed.

Lemma block_fit `{Allocator} `{HostOrder} b : block_wf b -> block_body_valid b -> Forall tx_fit (vtx b).
Proof.
  intros [_ [_ W]] V. pose proof (bv_transactions _ V) as St. rewrite List.Forall_forall in *. intros tx Hx.
  destruct (W tx Hx) as [Wt Eh]. specialize (St tx Hx). split; [apply Wt| | |apply St|apply St].
  - destruct (wf_vin _ Wt) as [Hm _]. unfold MAX_TX_INPUTS in Hm. lia.
  - rewrite Eh. apply hash256_length.
Qed.

Lemma coinbase_split l : coinbase_first l -> exists cb rest, l = cb :: rest /\
  List.filter spends l = rest /\ List.filter transaction_is_coinbase l = [cb].
Proof.
  intros (cb & rest & -> & Hc & Hr). exists cb, rest. split; [done|]. cbn [List.filter]. unfold spends at 1. rewrite Hc. cbn [negb].
  assert (List.filter spends rest = rest /\ List.filter transaction_is_coinbase rest = []) as [-> ->]; [|done].
  induction Hr as [|tx l Ht Hl [IH1 IH2]]; [done|]. cbn [List.filter]. unfold spends at 1. rewrite Ht. cbn [negb]. by rewrite IH1, IH2.
Qed.

(** ** The block *)

(** What accepting a block means for the set [U] and the index. *)
Record block_effect `{Allocator} `{HostOrder} (env : connect_env) (params : chain_params) (b : Block.block) (ix ix' : connect_index)
    (best : uint256) (U U' : utxo_set) : Prop := {
  be_valid : block_body_valid b;
  be_prev : uint256_is_null best = true \/ hashPrevBlock (header b) = best;
  be_set : exists uss, connect_txs U (vtx b) (ix_nHeight ix) = Some (uss, U');
  be_mature : all_mature U (ix_nHeight ix) (vtx b);
  be_new : connect_block_skip_bip30 env ix = false ->
    forall tx n u, tx ∈ vtx b -> U !! (tx_hash tx, n) = Some u -> ut_height u = ix_nHeight ix;
  be_pools : pools_follow ix ix' (vtx b);
  be_supply : exists subsidy, get_block_subsidy (ix_nHeight ix) (consensus params) = Some subsidy /\
    total U' + sprout_change (vtx b) + sapling_change (vtx b) <= total U + subsidy;
}.

(** The script of every input, run against the empty script, under the flags and the
    branch of the block. *)
Definition scripts_run_against_nothing `{Allocator} `{HostOrder} `{LowS} (env : connect_env) (params : chain_params) (ix : connect_index) (b : Block.block) : Prop :=
  forall tx j i, tx ∈ vtx b -> transaction_is_coinbase tx = false -> vin tx !! j = Some i ->
  let branch := consensus_current_epoch_branch_id (ix_nHeight ix) (consensus params) in
  exists amount txdata stacks,
    domain_consensus_verify_script (connect_block_script_flags env)
      (Some (tx_make_sig_checker (ce_ecdsa env) (tx_sig_checker_init tx (Z.of_nat j) amount branch txdata))) branch stacks (script_sig i) [] = Done tt.

Lemma coinbase_supply cb : amounts (out_terms cb) -> amounts (shielded_in_terms cb) ->
  created_value cb + tx_pool_change cb <= sum_list (out_terms cb).
Proof. intros Ho Hi. pose proof (created_le cb Ho). pose proof (terms_balance cb). destruct Hi as [_ Hi]. lia. Qed.

Section Accepted.
Context `{Allocator} `{HostOrder} `{CommitmentSkip} `{Pedersen} `{LowS} {V : Type} `{!CoinsViewVtable V} `{!CoinsViewLaws V} (Mem : memory_ok).
Context (env : connect_env) (params : chain_params) (o : oracle) (b : Block.block) (ix : connect_index).
Context (W : block_wf b) (Hl : 20 * len (block_enc b) < 2 ^ 32) (Hh : 0 < ix_nHeight ix < 2 ^ 31).
Context (Hp : forall h, ix_phashBlock ix = Some h -> length h = 32%nat).
Abbreviation cache := (coins_view_cache V).

Lemma block_hash_length : length (connect_block_load_block_hash ix b) = 32%nat.
Proof. unfold connect_block_load_block_hash. destruct (ix_phashBlock ix) eqn:E; [by apply Hp|]. rewrite header_hash_spec; [apply hash256_length|apply W..]. Qed.

Lemma finish_run hash fees (c c' : cache) s s' :
  (forall cb, head (vtx b) = Some cb -> amounts (out_terms cb) /\ amounts (shielded_in_terms cb)) ->
  connect_block_finish_reward params b ix hash fees false c s = Some (c', s', true) ->
  s' = s /\ c' = coins_view_cache_set_best_block c hash /\
  exists subsidy cb, get_block_subsidy (ix_nHeight ix) (consensus params) = Some subsidy /\ head (vtx b) = Some cb /\
  sum_list (out_terms cb) <= fees + subsidy.
Proof.
  intros Ha E. unfold connect_block_finish_reward in E. run E. run E.
  { destruct (reject _ _ _ _) as [[s1 []]|] eqn:Er; [by apply reject_false in Er|discriminate E..]. }
  run E. apply s64_some in E2 as ->. run E. rewrite <- head_lookup in E2. destruct (Ha _ E2) as [Ho Hi].
  pose proof (balance_small t Ho Hi). rewrite (value_out_total t) in E; [|by apply amounts_addable|small_money..]. rewrite (amounts_total _ Ho) in E.
  run E. { destruct (reject _ _ _ _) as [[s1 []]|] eqn:Er; [by apply reject_false in Er|discriminate E..]. }
  injection E as <- <-. split; [done|]. split; [done|]. exists z, t. split; [done|]. split; [done|]. by apply Z.ltb_ge in E3.
Qed.

(** A cache that lists well-formed amounts. *)
Definition lists_money (c : cache) (U : utxo_set) : Prop := cache_lists c U /\ set_wf U /\ set_money U.

Lemma set_best_tracks (c : cache) M U h : length h = 32%nat -> tracks c M U -> tracks (coins_view_cache_set_best_block c h) M U.
Proof. intros Lh [[B Mp Ro Cl Hh'] L]. split; [by split|exact L]. Qed.

Lemma view_prev_run (c c' : cache) M U : tracks c M U -> connect_block_view_prev_ok c b = Some (c', true) ->
  tracks c' M U /\ cache_best c' = cache_best c /\ (uint256_is_null (cache_best c) = true \/ hashPrevBlock (header b) = cache_best c).
Proof.
  intros T E. unfold connect_block_view_prev_ok in E.
  destruct (get_best_spec c M (tr_repr _ _ _ T)) as (c1 & E1 & B1 & R1 & S1 & _). rewrite E1 in E. injection E as <- E. split; [|split; [done|]].
  - split; [done|]. destruct T as [_ [Hlk Hk]]. split; [|exact Hk]. intros k n Lk. rewrite <- (S1 k Lk). by apply Hlk.
  - apply orb_true_iff in E as [E|E]; [by left|right]. apply Z.eqb_eq, memcmp_eq in E; [done|].
    destruct (wf_prev _ (proj1 W)) as [_ Lp]. unfold len in Lp.
    assert (length (cache_best c) = 32%nat); [|lia]. unfold cache_best. destruct (uint256_is_null _); [apply view_best_length|]; apply (tr_repr _ _ _ T).
Qed.

Lemma fit_head : Forall tx_fit (vtx b) -> forall cb, head (vtx b) = Some cb -> amounts (out_terms cb) /\ amounts (shielded_in_terms cb).
Proof. intros F cb E. destruct (vtx b) as [|tx l]; [done|]. injection E as ->. apply Forall_cons_iff in F as [F _]. split; apply F. Qed.

Lemma accepted_run (c c' : cache) U s s' ix' : lists_money c U -> mode s = MODE_VALID -> st_dos s = 0 ->
  uint256_cmp (connect_block_load_block_hash ix b) (hashGenesisBlock (consensus params)) <> 0 ->
  connect_block env params o b s ix c false = Some (ix', c', s', true) ->
  s' = s /\ hash_block c' = connect_block_load_block_hash ix b /\
  (exists U', lists_money c' U' /\ block_effect env params b ix ix' (cache_best c) U U') /\
  (connect_block_expensive_checks_enabled env params ix = true -> scripts_run_against_nothing env params ix b).
Proof.
  intros [[M T] [Ws Wm]] Hs Hd Ng E. unfold connect_block in E. cbv zeta in E. cbn [negb] in E.
  destruct (check_block _ _ _ _ _ _ _ _ _) as [[s1 []]|] eqn:Ec; cbn [fst snd negb] in E; [|done..].
  destruct (check_block_passes _ _ _ _ _ _ _ _ Mem W Hl Hs Hd Ec) as [-> Vb]. pose proof (block_fit b W Vb) as F.
  rewrite (proj2 (Z.eqb_neq _ _) Ng) in E.
  destruct (connect_block_view_prev_ok c b) as [[c1 []]|] eqn:Ev; cbn [fst snd negb] in E; [|done..].
  destruct (view_prev_run c c1 M U T Ev) as (T1 & B1 & Hprev).
  destruct (connect_block_apply_shielded_turnstile b ix s) as [[[ix1 s1] []]|] eqn:Et; cbn [negb] in E; [|done..].
  apply turnstile_run in Et as [-> Hpools]. destruct (connect_block_bip30 env b ix1 c1) as [[c2 []]|] eqn:Eb; cbn [fst snd negb] in E; [| |done].
  2:{ destruct (reject _ _ _ _) as [[s1 []]|] eqn:Er; [by apply reject_false in Er|discriminate E..]. }
  rewrite (proj1 Hpools) in E.
  assert ((exists M2, quiet c1 c2 M M2) /\ (connect_block_skip_bip30 env ix = false ->
    forall tx n u, tx ∈ vtx b -> U !! (tx_hash tx, n) = Some u -> ut_height u = ix_nHeight ix)) as [[M2 Q2] Hnew].
  { unfold connect_block_bip30, connect_block_skip_bip30 in *. rewrite (proj1 Hpools) in Eb. destruct ((0 <=? ce_deferred env) && _).
    - injection Eb as <-. split; [exists M; apply quiet_refl, T1|done].
    - destruct (bip30_run Mem U _ _ (Forall_impl _ _ _ F fit_hash) _ _ _ T1 Eb) as [? Hx]. by split. }
  destruct (quiet_tracks _ _ _ _ _ T1 Q2) as [T2 [B2 _]].
  destruct (connect_block_prepare_undo b) as [undo|]; [|discriminate E]. destruct (connect_block_alloc_script_work b) as [work|] eqn:Ew; [|discriminate E].
  assert (checks work = []) as Wk by (unfold connect_block_alloc_script_work in Ew; destruct (_ && _); [by injection Ew as <-|done]).
  destruct (connect_block_apply_transactions _ _ _ _ _ _ _ _) as [[st3 []]|] eqn:Ea; cbn [fst snd negb] in E; [|done..].
  set (branch := consensus_current_epoch_branch_id (ix_nHeight ix) (consensus params)) in *.
  unfold connect_block_apply_transactions in Ea. apply andthen_inv in Ea as (st4 & Ea & Es).
  apply (apply_from_run Mem o _ _ _ ix1 (vtx b) F) with (M := M2) (U := U) in Ea; [|by rewrite (proj1 Hpools)|exact T2|done|done|].
  2:{ intros sc Hsc. cbn [cs_work] in Hsc. rewrite Wk in Hsc. by apply not_elem_of_nil in Hsc. }
  rewrite (proj1 Hpools) in Ea. destruct Ea as (M4 & uss & U' & R1 & T4 & Ws' & Wm' & B4 & S4 & Bl & _ & Cov & _ & Mat & Sup).
  apply (verify_scripts_run env o M4) in Es as [-> Scr]; [|apply T4|exact Bl]. cbn [cs_view cs_valid cs_fees with_work] in *.
  run E. destruct s0; [| |].
  2-3: destruct (reject _ _ _ _) as [[s1 []]|] eqn:Er; [by apply reject_false in Er|discriminate E..].
  destruct (connect_block_finish_reward _ _ _ _ _ _ _ _) as [[[c5 s5] []]|] eqn:Ef; [|done..]. injection E as <- <- <-.
  assert (connect_block_finish_reward params b ix (connect_block_load_block_hash ix b) (cs_fees st4) false (cs_view st4) (cs_valid st4) = Some (c5, s5, true)) as Ef'.
  { rewrite <- Ef. unfold connect_block_finish_reward. by rewrite (proj1 Hpools). }
  apply finish_run in Ef' as (-> & -> & subsidy & cb & Esub & Ehd & Hval); [|by apply fit_head].
  split; [done|]. split; [done|]. split.
  - exists U'. split; [split; [exists M4; apply set_best_tracks; [apply block_hash_length|exact T4]|done]|].
    split; [done|by destruct Hprev; [left|right]|by exists uss|done|exact Hnew|exact Hpools|].
    exists subsidy. split; [done|]. destruct (coinbase_split _ (bv_coinbase _ Vb)) as (cb' & rest & Evt & Er & Ecb).
    rewrite Er, Ecb in Sup. rewrite Evt in Ehd. injection Ehd as ->.
    rewrite Evt in F. apply Forall_cons_iff in F as [Fcb _]. pose proof (coinbase_supply cb (fit_out _ Fcb) (fit_in _ Fcb)).
    rewrite <- (Z.add_assoc (total U')), <- pool_changes, Evt. unfold pool_change in *. cbn [map sum_list] in *. lia.
  - intros Hx tx j i Ht Nc Ei. assert (connect_block_expensive_checks_enabled env params ix = true) as Hx' by exact Hx.
    destruct (Cov Hx' tx j i Ht Nc Ei) as (sc & amount & d & Hsc & Ed). destruct (Scr sc Hsc) as (stacks & Ev').
    exists amount, d, stacks. unfold dangle in Ed. injection Ed as E1 E2 E3 E4 E5. rewrite E1, E3, E4, E5 in Ev'.
    assert (u32 (Z.of_nat j) = Z.of_nat j) as Ej; [|by rewrite Ej in Ev'].
    apply wrap_id. apply lookup_lt_Some in Ei. rewrite List.Forall_forall in F. apply list_elem_of_In in Ht. pose proof (fit_count _ (F tx Ht)). unfold in_u, len in *. lia.
Qed.
End Accepted.

(** C1: an accepted block creates no money and connects to what came before. Over any
    cache that keeps the contract and lists a well-formed set of unspent outputs, with
    memory and for a well-formed block other than genesis at a positive height: if
    connecting it succeeds, the state it reports through is untouched and the view's
    best block is the block's hash; the body is valid; the previous block is the view's
    best block, unless that is null; the transactions apply, one after another, to the
    set, and the cache lists the result; a coinbase is spent 100 blocks later at the
    earliest; above the deferred window, an output already there under an id of the block
    is of the block's height; the pool totals known for the parent are known, follow the
    block's shielded amounts and are not negative; and the unspent outputs with what the
    block put into the pools exceed the set before by the subsidy at most. *)
Theorem connect_block_sound `{Allocator} `{HostOrder} `{CommitmentSkip} `{Pedersen} `{LowS} {V : Type} `{!CoinsViewVtable V} `{!CoinsViewLaws V}
    (env : connect_env) (params : chain_params) (o : oracle) (b : Block.block) (ix ix' : connect_index) (c c' : coins_view_cache V)
    (U : utxo_set) (s s' : validation_state) :
  memory_ok -> block_wf b -> 20 * len (block_enc b) < 2 ^ 32 -> 0 < ix_nHeight ix < 2 ^ 31 ->
  (forall h, ix_phashBlock ix = Some h -> length h = 32%nat) ->
  lists_money c U -> mode s = MODE_VALID -> st_dos s = 0 ->
  uint256_cmp (connect_block_load_block_hash ix b) (hashGenesisBlock (consensus params)) <> 0 ->
  connect_block env params o b s ix c false = Some (ix', c', s', true) ->
  s' = s /\ hash_block c' = connect_block_load_block_hash ix b /\
  exists U', lists_money c' U' /\ block_effect env params b ix ix' (cache_best c) U U' /\
  forall parent, ix_pprev ix = Some parent -> has_chain_sprout_value parent = true -> has_chain_sapling_value parent = true ->
  exists subsidy, get_block_subsidy (ix_nHeight ix) (consensus params) = Some subsidy /\
    total U' + nChainSproutValue (ix_pools ix') + nChainSaplingValue (ix_pools ix') <=
    total U + nChainSproutValue parent + nChainSaplingValue parent + subsidy.
Proof.
  intros Mem W Hl Hh Hp Lm Hs Hd Ng E.
  destruct (accepted_run Mem env params o b ix W Hl Hh Hp c c' U s s' ix' Lm Hs Hd Ng E) as (E1 & E2 & (U' & L' & Ef) & _).
  split; [done|]. split; [done|]. exists U'. split; [done|]. split; [done|]. intros parent Ep K1 K2.
  destruct (be_supply _ _ _ _ _ _ _ _ Ef) as (subsidy & Es & Ht). destruct (be_pools _ _ _ _ _ _ _ _ Ef) as [_ Hpool].
  destruct (Hpool parent Ep) as [P1 P2]. destruct (P1 K1) as (_ & -> & _), (P2 K2) as (_ & -> & _).
  exists subsidy. split; [done|]. lia.
Qed.

(** C2: scripts are checked against nothing. When [connect_block] accepts a block with
    its expensive checks on, what it ran for every input of every transaction but the
    coinbase is the input's script followed by the EMPTY script: the queued check points
    to the output in the coins cache, and by the time the checks run the update has
    emptied that output. The script that locks the output is never executed, so an input
    script that leaves a true value spends any output; the witness is an accepted block
    that takes an output paid to a key with the input script [OP_1]. *)
Theorem connect_block_scripts_unchecked `{Allocator} `{HostOrder} `{CommitmentSkip} `{Pedersen} `{LowS} {V : Type} `{!CoinsViewVtable V} `{!CoinsViewLaws V}
    (env : connect_env) (params : chain_params) (o : oracle) (b : Block.block) (ix ix' : connect_index) (c c' : coins_view_cache V)
    (U : utxo_set) (s s' : validation_state) :
  memory_ok -> block_wf b -> 20 * len (block_enc b) < 2 ^ 32 -> 0 < ix_nHeight ix < 2 ^ 31 ->
  (forall h, ix_phashBlock ix = Some h -> length h = 32%nat) ->
  lists_money c U -> mode s = MODE_VALID -> st_dos s = 0 ->
  uint256_cmp (connect_block_load_block_hash ix b) (hashGenesisBlock (consensus params)) <> 0 ->
  connect_block_expensive_checks_enabled env params ix = true ->
  connect_block env params o b s ix c false = Some (ix', c', s', true) ->
  scripts_run_against_nothing env params ix b.
Proof.
  intros Mem W Hl Hh Hp Lm Hs Hd Ng Hx E.
  by apply (accepted_run Mem env params o b ix W Hl Hh Hp c c' U s s' ix' Lm Hs Hd Ng E).
Qed.

Section ConnectWitness.
#[local] Instance connect_alloc : Allocator := fun _ => true.
#[local] Existing Instance little_endian_host.
#[local] Instance connect_skip : CommitmentSkip := false.
#[local] Instance connect_low_s : LowS := fun _ => true.
#[local] Existing Instance mixing.

(** A cache over nothing, whose one record pays 7 to a key. *)
Definition victim_script : script := [0x76; 0xa9; 20] ++ replicate 20 7 ++ [0x88; 0xac].
Definition victim_txid : uint256 := replicate 32 9.
Definition victim_coins : coins := mk_coins false [mk_tx_out 7 victim_script] 3 1.
Definition funded : coins_view_cache unit :=
  mk_cache tt (mk_map [None; Some (victim_txid, mk_entry victim_coins 1); None; None] 1 false) victim_txid 10016 utxo_commitment_init.
Definition funded_set : utxo_set := {[(victim_txid, 0%nat) := mk_utxo (mk_tx_out 7 victim_script) false 3 1]}.

Definition named (tx : transaction) : transaction := with_hash tx (hash256 (tx_enc tx)).
Definition theft_coinbase : transaction := named
  (mk_tx false 1 0 [mk_tx_in outpoint_set_null [0x5a; 0x00] UINT32_MAX] [mk_tx_out 1250000001 [0x51]] 0 0 0 [] [] []
    uint256_set_null (replicate 64 0) (replicate 64 0) uint256_set_null).
Definition theft : transaction := named
  (mk_tx false 1 0 [mk_tx_in (mk_outpoint victim_txid 0) [0x51] UINT32_MAX] [mk_tx_out 6 [0x52]] 0 0 0 [] [] []
    uint256_set_null (replicate 64 0) (replicate 64 0) uint256_set_null).
Definition theft_header : block_header :=
  mk_header 4 victim_txid (hash256 (tx_hash theft_coinbase ++ tx_hash theft)) (replicate 32 0) 1478403829 0x200f0f0f (53 :: replicate 31 0)
    ([2; 15; 22; 191; 240; 218; 159; 1; 249; 17; 35; 213; 190; 162; 74; 101; 189; 137; 3; 1; 198; 133; 58; 245; 203; 129; 253; 22; 146;
      42; 29; 1; 118; 33; 80; 219] ++ replicate 1308 0) 36.
Definition theft_block : Block.block := mk_block theft_header [theft_coinbase; theft].
Definition no_pools : pool_totals := mk_pools 0 false 0 0 true 0 true.
Definition theft_index : connect_index := mk_index 10 None (Some no_pools) no_pools.
Definition quiet_env : connect_env := mk_connect_env (-1) false false None node_registry None None 1478403000.
Definition calm : oracle := mk_oracle (fun _ => false) (fun _ => false) (fun _ => false) (fun _ _ => true) false (fun _ => false).

Example theft_accepted : exists ix' c',
  connect_block quiet_env regtest_chain calm theft_block validation_state_init theft_index funded false = Some (ix', c', validation_state_init, true).
Proof. eexists _, _. vm_compute. reflexivity. Qed.

Lemma theft_wf : block_wf theft_block.
Proof.
  split; [|split; [vm_compute; congruence|constructor; [|constructor; [|constructor]]]].
  - repeat (split || apply bytes_check || done).
  - split; [apply tx_wf_with_hash|reflexivity]. split; try done; try (split; [by vm_compute|]); repeat constructor; vm_compute; congruence.
  - split; [apply tx_wf_with_hash|reflexivity]. split; try done; try (split; [by vm_compute|]); repeat constructor; vm_compute; congruence.
Qed.

Lemma theft_size : 20 * len (block_enc theft_block) < 2 ^ 32.
Proof. vm_compute. reflexivity. Qed.

Lemma theft_height : 0 < ix_nHeight theft_index < 2 ^ 31.
Proof. done. Qed.

Lemma theft_hash h : ix_phashBlock theft_index = Some h -> length h = 32%nat.
Proof. done. Qed.

Lemma theft_not_genesis : uint256_cmp (connect_block_load_block_hash theft_index theft_block) (hashGenesisBlock (consensus regtest_chain)) <> 0.
Proof. vm_compute. discriminate. Qed.

Lemma funded_repr : cache_repr funded {[victim_txid := mk_entry victim_coins 1]}.
Proof.
  split; [done| | | |done].
  - split.
    + apply (holds_place (replicate 4 None) ∅ 1); [apply holds_empty|done..].
    + intros q k e Hq i Hi. destruct q as [|[|[|[|q]]]]; try done. injection Hq as <- <-. exfalso. vm_compute in Hi. lia.
    + done.
    + right. cbn. lia.
  - right. cbn. lia.
  - intros k e E D. apply lookup_singleton_Some in E as [_ <-]. done.
Qed.

Lemma funded_money : lists_money funded funded_set.
Proof.
  assert (forall k u, funded_set !! k = Some u -> k = (victim_txid, 0%nat) /\ u = mk_utxo (mk_tx_out 7 victim_script) false 3 1) as Only.
  { intros k u E. unfold funded_set in E. apply lookup_singleton_Some in E as [<- <-]. done. }
  split; [|split].
  - exists {[victim_txid := mk_entry victim_coins 1]}. split; [exact funded_repr|]. split.
    + intros k n L. unfold shows, overlay, funded_set. destruct (decide (k = victim_txid)) as [->|N].
      * rewrite lookup_singleton_eq. change (live (e_coins (mk_entry victim_coins 1))) with (Some victim_coins).
        cbn [mbind option_bind]. destruct n as [|n]; [by rewrite lookup_singleton_eq|]. by rewrite lookup_singleton_ne by done.
      * rewrite (lookup_singleton_ne victim_txid k) by done. by rewrite lookup_singleton_ne by congruence.
    + intros k n u E. by apply Only in E as [[= -> _] _].
  - split.
    + intros k n n' u u' E E'. apply Only in E as [_ ->], E' as [_ ->]. done.
    + intros k u E. apply Only in E as [_ ->]. done.
    + intros k u E. apply Only in E as [_ ->]. done.
    + intros k n u E. by apply Only in E as [[= _ ->] _].
  - intros k u E. apply Only in E as [_ ->]. cbn. small_money.
Qed.

(** The key's output is spent, and what remains is worth what there was and the subsidy. *)
Lemma connect_block_sound_witness : exists ix' c' U',
  connect_block quiet_env regtest_chain calm theft_block validation_state_init theft_index funded false = Some (ix', c', validation_state_init, true) /\
  lists_money c' U' /\ exists uss, connect_txs funded_set [theft_coinbase; theft] 10 = Some (uss, U').
Proof.
  destruct theft_accepted as (ix' & c' & E). exists ix', c'.
  destruct (connect_block_sound quiet_env regtest_chain calm theft_block theft_index ix' funded c' funded_set validation_state_init validation_state_init)
    as (_ & _ & U' & L & Ef & _);
    [exact (fun _ => eq_refl)|exact theft_wf|exact theft_size|exact theft_height|exact theft_hash|exact funded_money|reflexivity|reflexivity|exact theft_not_genesis|exact E|].
  exists U'. split; [exact E|]. split; [exact L|]. exact (be_set _ _ _ _ _ _ _ _ Ef).
Defined.

(** The block is accepted although the input script, run before the one that locks the
    output, fails. *)
Lemma connect_block_scripts_unchecked_witness :
  (exists ix' c', connect_block quiet_env regtest_chain calm theft_block validation_state_init theft_index funded false = Some (ix', c', validation_state_init, true)) /\
  scripts_run_against_nothing quiet_env regtest_chain theft_index theft_block /\
  domain_consensus_verify_script (connect_block_script_flags quiet_env)
    (Some (tx_make_sig_checker None (tx_sig_checker_init theft 0 7 0 None))) 0 (fun _ => true) [0x51] victim_script = Fail SCRIPT_ERR_EQUALVERIFY.
Proof.
  pose proof theft_accepted as Acc. split; [exact Acc|]. split; [|vm_compute; reflexivity].
  destruct Acc as (ix' & c' & E).
  apply (connect_block_scripts_unchecked quiet_env regtest_chain calm theft_block theft_index ix' funded c' funded_set validation_state_init validation_state_init);
    [exact (fun _ => eq_refl)|exact theft_wf|exact theft_size|exact theft_height|exact theft_hash|exact funded_money|reflexivity|reflexivity|exact theft_not_genesis|reflexivity|exact E].
Defined.
End ConnectWitness.
